(* ===== verification/_CoqProject ===== *)
-Q . S2P
Prelude.v
Util.v
Intset.v
Lzf.v
Sds.v
SdsText.v
SdsSplit.v
Dict.v
DictScan.v
DictMap.v
DictIter.v
Adlist.v
Ziplist.v
ZiplistSpec.v
ZiplistApi.v
ZiplistProps.v
Object.v
SetType.v
SetAlgebra.v
HashType.v
Skiplist.v
SkiplistSpec.v
SkiplistApi.v
SkiplistRange.v
Zset.v
ZsetProps.v
Db.v
DbProps.v
DbEvents.v
Multi.v
MultiProps.v
Resp.v
RespProps.v
Crc.v
Rio.v
Rdb.v
RdbSpec.v
RdbObject.v
RdbProps.v
RdbFile.v
RdbFileSpec.v
RdbFileProps.v
