(* ===== verification/Prelude.v ===== *)
(** * Redis 6.0.10: data structures, data types, the keyspace, transactions and files

    A verification of the data structures under src/redis-6.0.10/src/ that the
    Redis server is built on, of the data types made of them, of the keyspace
    with its expiring keys, of the transactions of the clients that share it, and
    of the files in which the databases are saved.
    The C code is translated to Rocq functions and the theorems are proved about
    these functions.

    ** The program and its parts

    Redis keeps every key and value as an sds string (sds.c) or as one of a few
    containers: the hash table with incremental rehashing (dict.c), the doubly
    linked list (adlist.c), the sorted array of integers (intset.c), the list
    packed in one block (ziplist.c) and the skiplist of sorted sets (t_zset.c),
    which is paired with a dict from elements to nodes.  Numbers are converted to
    text and back, and keys are matched with patterns, by util.c: intset and
    ziplist store a string as an integer when string2ll accepts it, and sds prints
    integers with routines of its own.  LZF (lzf_c.c, lzf_d.c) compresses blocks.

    On top of the containers stand the data types, which switch between a compact
    and a fast container as they grow: string objects (object.c), sets (t_set.c,
    intset or dict), hashes (t_hash.c, ziplist or dict) and sorted sets.  A
    database (db.c, expire.c) is a dict of values and a dict of expire times.
    Clients queue commands between MULTI and EXEC and watch keys (multi.c); every
    command reports the keys it modified, which marks the clients that watch them.
    The requests arrive as bytes in portions of any size, which networking.c
    collects in the query buffer of the client and cuts into commands.  The
    databases are saved in the RDB format (rdb.c) on a stream (rio.h, rio.c), which
    can keep a CRC64 (crc64.c, crcspeed.c), and loaded at the next start; DUMP and RESTORE (cluster.c) use the same format
    for a single value, with a checksum at its end.

    ** Files

    - Prelude: machine integers, memory blocks, decimal numerals, lemmas on lists
      and a tactic for division.
    - Util (util.c): ll2string, string2ll, string2l, digits10, sdigits10 and the
      glob matcher stringmatchlen.
    - Intset (intset.c): the block of bytes, search, insertion with upgrade of the
      element width, removal.
    - Sds (sds.h, sds.c): the five header types and the operations that allocate,
      grow and copy; SdsText: comparison, trimming, ranges, case, formatting;
      SdsSplit: splitting, joining, quoting and reading quoted arguments.
    - Dict (dict.c): tables, rehash steps and the map operations; DictScan:
      dictScan and its reversed binary cursor; DictMap: the contract of the
      dictionary for its clients, [dict_repr]; DictIter: iterators and random
      entries.
    - Lzf (lzf_c.c, lzf_d.c): compressor, decompressor and the format between
      them.
    - Object (object.c): string objects and their three encodings.
    - SetType (t_set.c): sets in both encodings; SetAlgebra: intersection, union
      and difference of sets in a store of objects.
    - HashType (t_hash.c): hashes in both encodings.
    - Db (db.c, expire.c, lazyfree.c, t_string.c): the keyspace and its commands
      in a state monad; DbProps: the abstract keyspace and the properties;
      DbEvents: the keys a command signals.
    - Multi (multi.c and the parts of db.c, server.c and networking.c around it):
      clients, their queues and watched keys; MultiProps: interleaved requests.
    - Resp (networking.c, from readQueryFromClient down): the query buffer, inline
      and RESP requests; RespProps: what the parser guarantees.
    - Crc (crc64.c, crcspeed.c): the bitwise and the table driven checksum, and
      their algebra.
    - Rio (rio.h, rio.c): streams over a device (class [RioDevice], with its laws
      in [RioLaws]) and the device of a buffer in memory.
    - Rdb (rdb.c): lengths, integers, compressed and plain strings, in a monad of
      savers and one of loaders; RdbSpec: what a saver writes and a loader takes.
    - RdbObject (rdb.c, cluster.c): string, set and hash objects, the payload of
      DUMP; RdbProps: the properties.
    - RdbFile (rdb.c): whole files, saved by walking the databases with a safe
      iterator and loaded opcode by opcode; RdbFileSpec: the bytes of every piece,
      as they are written and as the loop takes them; RdbFileProps: the property.
    - Adlist (adlist.c): the list on an explicit heap.
    - Ziplist (ziplist.c): the code; ZiplistSpec: layout and the lemmas of
      insertion, deletion and cascade update; ZiplistApi: navigation, search,
      merge and sequences of operations; ZiplistProps: the properties.
    - Skiplist (t_zset.c, zsl functions): the code; SkiplistSpec: layout on the
      heap, the descent and the effect of insertion and deletion on levels and
      spans; SkiplistApi: the operations on a sorted list; SkiplistRange: ranges.
    - Zset (t_zset.c, zset functions): skiplist and dict together; ZsetProps: the
      properties.

    A definition has the name of the C function it translates, without leading
    underscores where they only mark a static function; the loops inside a
    function are definitions of their own, named after what they do.

    ** State and effects

    A block of memory is the list of its bytes and a pointer into it an offset;
    nodes of linked structures live in a heap, a finite map from addresses.  An
    operation takes the state and returns the new state and its result in the
    option monad.  [None] is an access outside a block or through a bad pointer,
    a failed assert, signed overflow or exhausted fuel, so that a theorem that an
    operation returns [Some] includes memory safety and termination.  Integers
    are the [Z] they denote, and every place where the C type can wrap around or
    overflow says so ([u8] to [i64]).  Allocation succeeds; new memory holds
    unspecified bytes ([FreshMem], or the parameters of the node constructors).
    Doubles are [spec_float] with the comparisons and the addition of IEEE 754.

    ** Theorems

    Each container has a representation predicate ([Intset.repr], [sds_repr],
    [dict_repr], [list_repr], [zrepr], [sl_repr], [zs_repr], [set_repr],
    [hash_repr], [db_repr]) that says
    which abstract value a concrete state holds, and a refinement theorem: any
    sequence of operations from the empty container completes and answers as the
    same operations on the abstract value (a set of integers, a byte sequence, a
    finite map, a list, a list of strings, a map from elements to scores with its
    order, a set of strings, a map from strings to strings).  The keyspace refines
    a map from keys to values with an optional expire time in which expired keys
    do not exist: lazy expiration cannot be observed.  The theorems of a data
    type use only the contracts of its containers.

    For transactions, the requests of any number of clients are interleaved in
    any order.  Every request is served, EXEC runs the queued commands as one
    block or, after a rejected command or a change of a watched key, none of them,
    and it runs only if no watched key has changed since WATCH; this rests on the theorem that a command signals every key it changes.

    The parser of requests is safe and terminates on any bytes in any portions,
    and commands in the RESP format are handed on in order and unchanged however
    the network cuts them.

    What is saved in the RDB format on a stream and loaded again is the same value,
    for every device that meets its laws, with the number of bytes announced, in
    either encoding and with any limits of the loading server; a failing device is
    reported.  A file that holds all databases gives them back, with expire times,
    replication information and scripts, and without the keys that have expired when
    a master loads it.  The checksum of eight bytes at a time is the bitwise one, and a DUMP
    payload that was changed within eight consecutive bytes is rejected.

    Around these stand the behaviour of single operations that sequences do not
    show: positions returned by searches, ranks and ranges, termination and
    completeness of incremental rehashing, of dictScan across resizes and of
    safe iterators across changes, round trips of number conversion, of quoting
    and of compression, the exact inputs the decompressor accepts, the walks through
    a ziplist from either end, and the exact inputs on which the code fails or diverges from its comments.

    ** Parameters, bounds and fuel

    The hash function of a dict is a parameter (class [DictType]), as are the
    values of random() and the contents of new memory; theorems hold for all of
    them.  The dup and match methods of adlist are functions of the list.
    Dicts and linked lists are bounded by 2^60 entries and strings by 2^62 bytes,
    so that the 64 bit size arithmetic does not overflow; a call of dictRehash by
    2^24 buckets, so that its count of empty visits stays an int; ziplists by 2^32 bytes, the range of their
    header; sorted sets by 2^32 - 2 elements, the range of the 32 bit ranks of
    zslInsert; saved strings by 2^32 bytes, the range of the lengths of LZF, and
    saved sets by 2^29 elements, the range of the sizes of an intset.  Loops that are not structural take fuel: the number of bytes of
    the block, of entries of the table, of nodes of the list, or of characters of
    the string, which the lemmas of each loop show to be enough; no theorem is
    conditional on fuel, but that a file is loaded with at least as much fuel as it
    has bytes.

    ** Not modelled

    - The ziplist encoding of sorted sets and ZRANGEBYSCORE parsing, which go
      through strtod and snprintf of doubles; the same functions in util.c.
    - The statistics of dict and the destructors, which only release memory.
    - SWAPDB, and the commands that EXEC and expired keys send to replicas and to
      the append only file, but for the DEL of an expired key.
    - Access times (LRU and LFU) and eviction, the active expire cycle, the slot
      map of the cluster, blocked clients and replies as bytes.
    - Lists, sorted sets, streams and modules in the RDB format (a parameter of
      rdbLoadObject), the data of modules in a file (a parameter of rdbSaveRio and
      rdbLoadRio, empty in the theorem), the events that are served while a file is
      loaded, the append only file, the devices of files and connections (instances
      of the laws of a stream).
    - quicklist, zipmap, listpack, rax and streams, HyperLogLog, bit and geo
      operations, CRC16 and SHA: structures and algorithms of their own that the
      modelled ones do not use.
    - Replies, threaded reads and the sockets of networking.c.
    - The other commands, the event loop, persistence, replication, cluster,
      sentinel, scripting, modules, the command line tools, the bundled libraries
      and the JavaScript application: input and output, or clients of the
      structures above.
    - Big-endian hosts: the byte order conversions are the identity. *)

(** ** Contents of this file: integers, memory, numerals *)

From stdpp Require Import base list numbers option strings.
From Stdlib Require Import ZArith Lia.

#[global] Open Scope Z_scope.

(** ** Machine integers

    A C integer of width [w] is the [Z] it denotes.  [wrapu] and [wraps] are
    the conversions to the unsigned and to the two's complement signed type of
    that width. *)

Definition wrapu (w z : Z) : Z := z mod 2 ^ w.
Definition wraps (w z : Z) : Z := (z + 2 ^ (w - 1)) mod 2 ^ w - 2 ^ (w - 1).

Definition u8 := wrapu 8.
Definition u16 := wrapu 16.
Definition u32 := wrapu 32.
Definition u64 := wrapu 64.
Definition i8 := wraps 8.
Definition i16 := wraps 16.
Definition i32 := wraps 32.
Definition i64 := wraps 64.

Definition LLONG_MAX : Z := 9223372036854775807.
Definition LLONG_MIN : Z := -9223372036854775808.

(** Signed 64 bit arithmetic: [None] on overflow, which is undefined. *)
Definition add64 (x y : Z) : option Z := let r := x + y in if (LLONG_MIN <=? r) && (r <=? LLONG_MAX) then Some r else None.
Definition mul64 (x y : Z) : option Z := let r := x * y in if (LLONG_MIN <=? r) && (r <=? LLONG_MAX) then Some r else None.
Definition ULLONG_MAX : Z := 18446744073709551615.

Definition in_u (w z : Z) : Prop := 0 <= z < 2 ^ w.
Definition in_s (w z : Z) : Prop := - 2 ^ (w - 1) <= z < 2 ^ (w - 1).

(** ** Memory

    A memory block is the list of its bytes, each a [Z] in [0, 256).  Every
    access is checked: [None] stands for an access outside the block, so a
    theorem that a routine returns [Some] contains its memory safety. *)

Definition is_byte (z : Z) : Prop := 0 <= z < 256.
Abbreviation bytes := (list Z).
Definition bytes_ok (b : bytes) : Prop := Forall is_byte b.

Definition zlen {A} (l : list A) : Z := Z.of_nat (length l).
Definition ztake {A} (n : Z) (l : list A) : list A := take (Z.to_nat n) l.
Definition zdrop {A} (n : Z) (l : list A) : list A := drop (Z.to_nat n) l.

Definition znth {A} (l : list A) (i : Z) : option A :=
  if 0 <=? i then l !! Z.to_nat i else None.

Declare Scope mem_scope.
Delimit Scope mem_scope with mem.
Notation "b .[ i ]" := (znth b i) (at level 1, left associativity, format "b .[ i ]") : mem_scope.
#[global] Open Scope mem_scope.

Definition load (b : bytes) (off n : Z) : option bytes :=
  if (0 <=? off) && (0 <=? n) && (off + n <=? zlen b)
  then Some (ztake n (zdrop off b)) else None.

Definition store (b : bytes) (off : Z) (bs : bytes) : option bytes :=
  if (0 <=? off) && (off + zlen bs <=? zlen b)
  then Some (ztake off b ++ bs ++ zdrop (off + zlen bs) b) else None.

(** [memmove(b+dst, b+src, n)] inside one block. *)
Definition memmove (b : bytes) (dst src n : Z) : option bytes :=
  bs ← load b src n; store b dst bs.

(** memcmp: only the sign of the result is specified. *)
Fixpoint memcmp (n : nat) (a b : bytes) : option Z :=
  match n with
  | O => Some 0
  | S n =>
      match a, b with
      | x :: a, y :: b => if x =? y then memcmp n a b else Some (if x <? y then -1 else 1)
      | _, _ => None
      end
  end.

(** The position an index names in a list of [n] elements; negative indexes
    count from the end. *)
Definition al_pos (i : Z) (n : nat) : option nat :=
  let k := if i <? 0 then Z.of_nat n + i else i in
  if (0 <=? k) && (k <? Z.of_nat n) then Some (Z.to_nat k) else None.

(** Fresh memory holds unspecified bytes: [fresh_byte i] is the byte found at
    offset [i] of a block before it is first written. *)
Class FreshMem := {
  fresh_byte : Z -> Z;
  fresh_byte_range : forall i, is_byte (fresh_byte i)
}.

#[export] Instance zero_mem : FreshMem.
Proof. refine {| fresh_byte := fun _ => 0 |}. intros _. unfold is_byte. lia. Defined.

Definition zseq (from n : Z) : list Z :=
  Z.add from <$> (Z.of_nat <$> seq 0 (Z.to_nat n)).

Definition malloc `{FreshMem} (n : Z) : bytes := fresh_byte <$> zseq 0 n.

Definition realloc `{FreshMem} (b : bytes) (n : Z) : bytes :=
  ztake n b ++ (fresh_byte <$> zseq (zlen b) (n - zlen b)).

(** Little-endian integers: [le_bytes n z] are the [n] low bytes of [z],
    [le_val] the unsigned value of a byte sequence. *)
Fixpoint le_bytes (n : nat) (z : Z) : bytes :=
  match n with
  | O => []
  | S k => z mod 256 :: le_bytes k (z / 256)
  end.

Fixpoint le_val (b : bytes) : Z :=
  match b with
  | [] => 0
  | x :: r => x + 256 * le_val r
  end.

(** The bytes of a C string literal, without its terminator. *)
Definition bytes_of_string (s : String.string) : bytes :=
  (fun a => Z.of_N (Ascii.N_of_ascii a)) <$> String.list_ascii_of_string s.

(** Character classes of the C locale. *)
Definition tolower (c : Z) : Z := if (65 <=? c) && (c <=? 90) then c + 32 else c.
Definition toupper (c : Z) : Z := if (97 <=? c) && (c <=? 122) then c - 32 else c.
Definition isspace (c : Z) : bool := (c =? 32) || ((9 <=? c) && (c <=? 13)).
Definition isprint (c : Z) : bool := (32 <=? c) && (c <=? 126).

(** ** Decimal numerals

    [udec v] is the decimal numeral of a natural number below [10^20], the
    reference the conversion routines are compared with; [sdec] adds the sign. *)
Fixpoint udec_fuel (k : nat) (v : Z) : bytes :=
  match k with
  | O => []
  | S k => if v <? 10 then [48 + v] else udec_fuel k (v / 10) ++ [48 + v mod 10]
  end.

Definition udec (v : Z) : bytes := udec_fuel 20 v.
Definition sdec (v : Z) : bytes := if v <? 0 then 45 :: udec (- v) else udec v.

(** ** Tactics and hint databases *)

Create HintDb redis.
Create Rewrite HintDb redis_len.



(** Linear arithmetic with division and modulus by constants. *)
Ltac dlia := Z.div_mod_to_equations; lia.

(** Case analysis on the boolean tests of the code. *)
Ltac zcase :=
  match goal with
  | |- context [ ?a =? ?b ] => destruct (Z.eqb_spec a b)
  | |- context [ ?a <=? ?b ] => destruct (Z.leb_spec a b)
  | |- context [ ?a <? ?b ] => destruct (Z.ltb_spec a b)
  | |- context [ ?a >? ?b ] => rewrite (Z.gtb_ltb a b)
  | |- context [ ?a >=? ?b ] => rewrite (Z.geb_leb a b)
  end.

Ltac zcase_in H :=
  match type of H with
  | context [ ?a =? ?b ] => destruct (Z.eqb_spec a b)
  | context [ ?a <=? ?b ] => destruct (Z.leb_spec a b)
  | context [ ?a <? ?b ] => destruct (Z.ltb_spec a b)
  | context [ ?a >? ?b ] => rewrite (Z.gtb_ltb a b) in H
  | context [ ?a >=? ?b ] => rewrite (Z.geb_leb a b) in H
  end.

(** Evaluate boolean integer tests that [lia] decides. *)
Ltac ztrue b := let E := fresh in assert (b = true) as E by lia; rewrite E; clear E.
Ltac zfalse b := let E := fresh in assert (b = false) as E by lia; rewrite E; clear E.
Ltac zbool :=
  repeat match goal with
  | |- context [ ?a =? ?b ] => first [ztrue (a =? b) | zfalse (a =? b)]
  | |- context [ ?a <=? ?b ] => first [ztrue (a <=? b) | zfalse (a <=? b)]
  | |- context [ ?a <? ?b ] => first [ztrue (a <? b) | zfalse (a <? b)]
  | |- context [ ?a >? ?b ] => first [ztrue (a >? b) | zfalse (a >? b)]
  | |- context [ ?a >=? ?b ] => first [ztrue (a >=? b) | zfalse (a >=? b)]
  end; cbn [andb orb negb].

Lemma add64_ok x y : LLONG_MIN <= x + y <= LLONG_MAX -> add64 x y = Some (x + y).
Proof. intros. unfold add64. by zbool. Qed.
Lemma mul64_ok x y : LLONG_MIN <= x * y <= LLONG_MAX -> mul64 x y = Some (x * y).
Proof. intros. unfold mul64. by zbool. Qed.

(** Equality of appends up to reassociation. *)
Ltac lapp := cbn [app]; repeat (rewrite <- app_assoc; cbn [app]); rewrite ?app_nil_r; reflexivity.

(** ** Integers *)

Lemma wrapu_small w z : in_u w z -> wrapu w z = z.
Proof. intros H. apply Z.mod_small, H. Qed.
Lemma u32_id z : 0 <= z < 4294967296 -> u32 z = z.
Proof. intros. apply wrapu_small. unfold in_u. cbn. lia. Qed.
Lemma u64_id z : 0 <= z < 18446744073709551616 -> u64 z = z.
Proof. intros. apply wrapu_small. unfold in_u. cbn. lia. Qed.

Lemma wrapu_eq w x y : x = y -> in_u w y -> wrapu w x = y.
Proof. intros ->. apply wrapu_small. Qed.

Lemma wraps_small w z : 0 < w -> in_s w z -> wraps w z = z.
Proof.
  intros Hw [H1 H2]. unfold wraps.
  assert (2 ^ w = 2 * 2 ^ (w - 1)) as E by (rewrite <- Z.pow_succ_r by lia; f_equal; lia).
  rewrite Z.mod_small; lia.
Qed.

Lemma wrapu_range w z : 0 <= w -> in_u w (wrapu w z).
Proof. intros. apply Z.mod_pos_bound. lia. Qed.

Lemma wraps_range w z : 0 < w -> in_s w (wraps w z).
Proof.
  intros Hw. unfold wraps, in_s.
  assert (2 ^ w = 2 * 2 ^ (w - 1)) as E by (rewrite <- Z.pow_succ_r by lia; f_equal; lia).
  pose proof (Z.mod_pos_bound (z + 2 ^ (w - 1)) (2 ^ w)). lia.
Qed.

Lemma wraps_wrapu w z : 0 < w -> in_s w z -> wraps w (wrapu w z) = z.
Proof.
  intros Hw Hz. unfold wraps, wrapu. rewrite Zplus_mod_idemp_l. by apply wraps_small.
Qed.

Lemma i32_small z : -2147483648 <= z < 2147483648 -> i32 z = z.
Proof. intros. apply wraps_small; [lia|]. unfold in_s. cbn. lia. Qed.
Lemma u32_small z : 0 <= z < 4294967296 -> u32 z = z.
Proof. intros. apply wrapu_small. unfold in_u. cbn. lia. Qed.

(** Remove the 32 bit wrap-arounds that arithmetic shows to be idle. *)
Ltac u32s :=
  repeat match goal with
  | |- context [ u32 ?z ] => rewrite (u32_small z) by nia
  | |- context [ i32 ?z ] => rewrite (i32_small z) by nia
  end.

(** ** Lengths *)

Lemma zlen_nonneg {A} (l : list A) : 0 <= zlen l.
Proof. unfold zlen. lia. Qed.
Lemma zlen_nil {A} : zlen (@nil A) = 0.
Proof. done. Qed.
Lemma zlen_cons {A} (x : A) l : zlen (x :: l) = 1 + zlen l.
Proof. unfold zlen. cbn [length]. lia. Qed.
Lemma zlen_app {A} (l k : list A) : zlen (l ++ k) = zlen l + zlen k.
Proof. unfold zlen. rewrite length_app. lia. Qed.
Lemma zlen_ztake {A} n (l : list A) : 0 <= n <= zlen l -> zlen (ztake n l) = n.
Proof. unfold zlen, ztake. intros. rewrite length_take. lia. Qed.
Lemma zlen_zdrop {A} n (l : list A) : 0 <= n <= zlen l -> zlen (zdrop n l) = zlen l - n.
Proof. unfold zlen, zdrop. intros. rewrite length_drop. lia. Qed.
Lemma zlen_fmap {A B} (f : A -> B) l : zlen (f <$> l) = zlen l.
Proof. unfold zlen. by rewrite length_fmap. Qed.
Lemma zlen_replicate {A} n (x : A) : zlen (replicate n x) = Z.of_nat n.
Proof. unfold zlen. by rewrite length_replicate. Qed.
Lemma zlen_zseq a n : 0 <= n -> zlen (zseq a n) = n.
Proof. intros. unfold zseq, zlen. rewrite !length_fmap, length_seq. lia. Qed.
Lemma zseq_nil a n : n <= 0 -> zseq a n = [].
Proof. intros. unfold zseq. by replace (Z.to_nat n) with O by lia. Qed.
Lemma zlen_malloc `{FreshMem} n : 0 <= n -> zlen (malloc n) = n.
Proof. intros. unfold malloc. by rewrite zlen_fmap, zlen_zseq. Qed.
Lemma length_le_bytes n z : length (le_bytes n z) = n.
Proof. revert z. induction n; intros; cbn; auto. Qed.
Lemma zlen_le_bytes n z : zlen (le_bytes n z) = Z.of_nat n.
Proof. unfold zlen. by rewrite length_le_bytes. Qed.
Lemma zlen_snoc_inv {A} (l : list A) n :
  zlen l = n + 1 -> 0 <= n -> exists l' x, l = l' ++ [x] /\ zlen l' = n.
Proof.
  intros. destruct l as [|x l' _] using rev_ind; [rewrite zlen_nil in *; lia|].
  exists l', x. split; [done|]. rewrite zlen_app, zlen_cons, zlen_nil in *. lia.
Qed.
Lemma zlen_0_nil {A} (l : list A) : zlen l = 0 -> l = [].
Proof. destruct l; [done|]. rewrite zlen_cons. pose proof (zlen_nonneg l). lia. Qed.

#[export] Hint Rewrite @zlen_nil @zlen_cons @zlen_app @zlen_fmap @zlen_replicate zlen_le_bytes : redis_len.

(** Rewrite lengths and solve the remaining arithmetic. *)
Ltac len_nonneg :=
  repeat match goal with
  | |- context [ zlen ?l ] =>
      lazymatch goal with H : 0 <= zlen l |- _ => fail | _ => pose proof (zlen_nonneg l) end
  | H0 : context [ zlen ?l ] |- _ =>
      lazymatch goal with H : 0 <= zlen l |- _ => fail | _ => pose proof (zlen_nonneg l) end
  end.
Ltac len :=
  autorewrite with redis_len in *;
  repeat (rewrite zlen_ztake by lia); repeat (rewrite zlen_zdrop by lia);
  len_nonneg; lia.

(** The unsigned wrap-around of a value known to be in range. *)
Ltac uwrap := apply wrapu_eq; [len | unfold in_u; len].

(** ** Taking and dropping *)

Lemma ztake_app_l {A} n (l k : list A) : n = zlen l -> ztake n (l ++ k) = l.
Proof. intros ->. unfold ztake, zlen. rewrite Nat2Z.id. apply take_app_length. Qed.
Lemma zdrop_app_r {A} n (l k : list A) : n = zlen l -> zdrop n (l ++ k) = k.
Proof. intros ->. unfold zdrop, zlen. rewrite Nat2Z.id. apply drop_app_length. Qed.
Lemma ztake_all {A} n (l : list A) : zlen l <= n -> ztake n l = l.
Proof. unfold ztake, zlen. intros. apply take_ge. lia. Qed.
Lemma zdrop_all {A} n (l : list A) : zlen l <= n -> zdrop n l = [].
Proof. unfold zdrop, zlen. intros. apply drop_ge. lia. Qed.
Lemma ztake_0 {A} n (l : list A) : n <= 0 -> ztake n l = [].
Proof. intros. unfold ztake. by replace (Z.to_nat n) with O by lia. Qed.
Lemma zdrop_0 {A} n (l : list A) : n <= 0 -> zdrop n l = l.
Proof. intros. unfold zdrop. by replace (Z.to_nat n) with O by lia. Qed.
Lemma ztake_zdrop {A} n (l : list A) : ztake n l ++ zdrop n l = l.
Proof. apply take_drop. Qed.
Lemma zdrop_zdrop {A} n m (l : list A) : 0 <= n -> 0 <= m -> zdrop n (zdrop m l) = zdrop (m + n) l.
Proof. intros. unfold zdrop. rewrite drop_drop. f_equal. lia. Qed.
Lemma ztake_ztake {A} n m (l : list A) : ztake n (ztake m l) = ztake (Z.min n m) l.
Proof.
  unfold ztake. rewrite take_take. f_equal. lia.
Qed.
Lemma ztake_app_le {A} n (l k : list A) : n <= zlen l -> ztake n (l ++ k) = ztake n l.
Proof. unfold ztake, zlen. intros. apply take_app_le. lia. Qed.
Lemma ztake_app_ge {A} n (l k : list A) :
  zlen l <= n -> ztake n (l ++ k) = l ++ ztake (n - zlen l) k.
Proof.
  unfold ztake, zlen. intros. rewrite take_app_ge by lia. do 2 f_equal. lia.
Qed.
Lemma zdrop_app_le {A} n (l k : list A) : n <= zlen l -> zdrop n (l ++ k) = zdrop n l ++ k.
Proof. unfold zdrop, zlen. intros. apply drop_app_le. lia. Qed.
Lemma zdrop_app_ge {A} n (l k : list A) :
  zlen l <= n -> zdrop n (l ++ k) = zdrop (n - zlen l) k.
Proof.
  unfold zdrop, zlen. intros. rewrite drop_app_ge by lia. f_equal. lia.
Qed.

(** Cut a list at a position. *)
Lemma zsplit {A} n (l : list A) :
  0 <= n <= zlen l -> exists a b, l = a ++ b /\ zlen a = n /\ zlen b = zlen l - n.
Proof.
  intros. exists (ztake n l), (zdrop n l).
  by rewrite ztake_zdrop, zlen_ztake, zlen_zdrop.
Qed.

(** ** Block accesses *)

Lemma znth_nat {A} (l : list A) i : 0 <= i -> znth l i = l !! Z.to_nat i.
Proof. intros. unfold znth. by zbool. Qed.
Lemma znth_lt {A} (l : list A) i x : znth l i = Some x -> 0 <= i < zlen l.
Proof.
  unfold znth, zlen. zcase; [|done]. intros Hl%lookup_lt_Some. lia.
Qed.
Lemma znth_is_Some {A} (l : list A) i : 0 <= i < zlen l -> is_Some (znth l i).
Proof.
  intros. rewrite znth_nat by lia. apply lookup_lt_is_Some. unfold zlen in *. lia.
Qed.
Lemma znth_app_l {A} (l k : list A) i : i < zlen l -> znth (l ++ k) i = znth l i.
Proof.
  intros. unfold znth, zlen in *. zcase; [|done]. apply lookup_app_l. lia.
Qed.
Lemma znth_app_r {A} (l k : list A) i : zlen l <= i -> znth (l ++ k) i = znth k (i - zlen l).
Proof.
  intros. pose proof (zlen_nonneg l). rewrite !znth_nat by lia. unfold zlen in *.
  rewrite lookup_app_r by lia. f_equal. lia.
Qed.
Lemma znth_app_mid {A} (l : list A) x k i : i = zlen l -> znth (l ++ x :: k) i = Some x.
Proof. intros ->. rewrite znth_app_r, Z.sub_diag by lia. done. Qed.
Lemma znth_ztake {A} (l : list A) n i : i < n -> znth (ztake n l) i = znth l i.
Proof.
  intros. unfold znth, ztake. zcase; [|done]. apply lookup_take_lt. lia.
Qed.
Lemma znth_zdrop {A} (l : list A) n i : 0 <= n -> 0 <= i -> znth (zdrop n l) i = znth l (n + i).
Proof.
  intros. rewrite !znth_nat by lia. unfold zdrop. rewrite lookup_drop. f_equal. lia.
Qed.
Lemma znth_ext {A} (l k : list A) :
  zlen l = zlen k -> (forall i, 0 <= i < zlen l -> znth l i = znth k i) -> l = k.
Proof.
  intros Hlen H. apply list_eq_same_length with (length l); [unfold zlen in *; lia|done|].
  intros i x y Hi Hx Hy. specialize (H (Z.of_nat i)).
  rewrite !znth_nat, Nat2Z.id in H by lia. unfold zlen in H. rewrite Hx, Hy in H.
  assert (Some x = Some y) as [=] by (apply H; lia). done.
Qed.

Lemma load_app b1 bs b2 off n :
  off = zlen b1 -> n = zlen bs -> load (b1 ++ bs ++ b2) off n = Some bs.
Proof.
  intros -> ->. unfold load. rewrite !zlen_app. len_nonneg. zbool.
  rewrite zdrop_app_r by done. by rewrite ztake_app_l.
Qed.

Lemma store_app b1 old b2 off bs :
  off = zlen b1 -> zlen bs = zlen old -> store (b1 ++ old ++ b2) off bs = Some (b1 ++ bs ++ b2).
Proof.
  intros -> E. unfold store. rewrite !zlen_app. len_nonneg. zbool.
  rewrite ztake_app_l by done. do 3 f_equal. rewrite app_assoc.
  apply zdrop_app_r. rewrite zlen_app. lia.
Qed.

(** The same with the decomposition of the block as an equation. *)
Lemma store_at b1 old b2 b off bs :
  b = b1 ++ old ++ b2 -> off = zlen b1 -> zlen bs = zlen old ->
  store b off bs = Some (b1 ++ bs ++ b2).
Proof. intros ->. apply store_app. Qed.

Lemma load_at b1 bs b2 b off n :
  b = b1 ++ bs ++ b2 -> off = zlen b1 -> n = zlen bs -> load b off n = Some bs.
Proof. intros ->. apply load_app. Qed.

Lemma znth_at {A} (b1 : list A) x b2 b i :
  b = b1 ++ x :: b2 -> i = zlen b1 -> znth b i = Some x.
Proof. intros ->. apply znth_app_mid. Qed.

Lemma store_1 b1 x b2 off y :
  off = zlen b1 -> store (b1 ++ x :: b2) off [y] = Some (b1 ++ y :: b2).
Proof. intros. by apply (store_app b1 [x] b2 off [y]). Qed.

Lemma zlen_store b off bs b' : store b off bs = Some b' -> zlen b' = zlen b.
Proof.
  unfold store. destruct (_ && _) eqn:E; [|done]. intros [= <-].
  apply andb_true_iff in E as [E1%Z.leb_le E2%Z.leb_le].
  pose proof (zlen_nonneg bs). len.
Qed.

Lemma store_Some b off bs :
  0 <= off -> off + zlen bs <= zlen b ->
  store b off bs = Some (ztake off b ++ bs ++ zdrop (off + zlen bs) b).
Proof. intros. unfold store. by zbool. Qed.

Lemma load_Some b off n :
  0 <= off -> 0 <= n -> off + n <= zlen b -> load b off n = Some (ztake n (zdrop off b)).
Proof. intros. unfold load. by zbool. Qed.

Lemma zlen_load b off n r : load b off n = Some r -> zlen r = n.
Proof.
  unfold load. destruct (_ && _) eqn:E; [|done]. intros [= <-].
  apply andb_true_iff in E as [[E1%Z.leb_le E2%Z.leb_le]%andb_true_iff E3%Z.leb_le].
  rewrite zlen_ztake; [done|]. rewrite zlen_zdrop; lia.
Qed.

Lemma zlen_realloc `{FreshMem} b n : 0 <= n -> zlen (realloc b n) = n.
Proof.
  intros. unfold realloc. rewrite zlen_app, zlen_fmap.
  destruct (Z.le_gt_cases n (zlen b)).
  - rewrite zlen_ztake by lia. rewrite zseq_nil by lia. rewrite zlen_nil. lia.
  - rewrite ztake_all, zlen_zseq by lia. lia.
Qed.

Lemma realloc_shrink `{FreshMem} b n : n <= zlen b -> realloc b n = ztake n b.
Proof.
  intros. unfold realloc. rewrite zseq_nil by lia. apply app_nil_r.
Qed.

Lemma realloc_grow `{FreshMem} b n :
  zlen b <= n -> exists junk, realloc b n = b ++ junk /\ zlen junk = n - zlen b /\ bytes_ok junk.
Proof.
  intros. unfold realloc. rewrite ztake_all by done. eexists; split; [done|]. split.
  - rewrite zlen_fmap, zlen_zseq; lia.
  - apply Forall_fmap, Forall_true. intros. apply fresh_byte_range.
Qed.

Lemma malloc_ok `{FreshMem} n : bytes_ok (malloc n).
Proof. apply Forall_fmap, Forall_true. intros. apply fresh_byte_range. Qed.

Lemma bytes_ok_app b1 b2 : bytes_ok (b1 ++ b2) <-> bytes_ok b1 /\ bytes_ok b2.
Proof. apply Forall_app. Qed.

Lemma bytes_ok_ztake n b : bytes_ok b -> bytes_ok (ztake n b).
Proof. intros. by apply Forall_take. Qed.
Lemma bytes_ok_zdrop n b : bytes_ok b -> bytes_ok (zdrop n b).
Proof. intros. by apply Forall_drop. Qed.

Lemma bytes_ok_realloc `{FreshMem} n b : bytes_ok b -> bytes_ok (realloc b n).
Proof.
  intros. apply bytes_ok_app. split; [by apply bytes_ok_ztake|].
  apply Forall_fmap, Forall_true. intros. apply fresh_byte_range.
Qed.

Lemma bytes_ok_store b off bs b' :
  bytes_ok b -> bytes_ok bs -> store b off bs = Some b' -> bytes_ok b'.
Proof.
  unfold store. intros. case_match; simplify_eq.
  rewrite !bytes_ok_app. auto using bytes_ok_ztake, bytes_ok_zdrop.
Qed.

#[export] Hint Resolve bytes_ok_ztake bytes_ok_zdrop malloc_ok bytes_ok_realloc : redis.

Lemma memcmp_eq n a b :
  (n <= length a)%nat -> (n <= length b)%nat ->
  exists m, memcmp n a b = Some m /\ (m = 0 <-> take n a = take n b).
Proof.
  revert a b. induction n as [|n IH]; intros a b Ha Hb; [by exists 0|].
  destruct a as [|x a]; [cbn in Ha; lia|]. destruct b as [|y b]; [cbn in Hb; lia|].
  cbn [memcmp take]. destruct (Z.eqb_spec x y) as [->|Hne].
  - destruct (IH a b) as (m & -> & Hm); [cbn in *; lia..|]. exists m. split; [done|].
    rewrite Hm. split; [by intros ->|by intros [=]].
  - eexists. split; [done|]. split; [destruct (x <? y); lia|]. intros [= ? ?]. done.
Qed.

(** ** Bit fields *)

Lemma lor_shiftl x y k : 0 <= k -> 0 <= y < 2 ^ k -> Z.lor (Z.shiftl x k) y = x * 2 ^ k + y.
Proof.
  intros Hk Hy. assert (Z.land (Z.shiftl x k) y = 0) as Hl.
  { apply Z.bits_inj'. intros n Hn. rewrite Z.land_spec, Z.bits_0.
    destruct (Z.lt_ge_cases n k); [by rewrite Z.shiftl_spec_low|].
    destruct (Z.eq_dec y 0) as [->|]; [by rewrite Z.bits_0, andb_false_r|].
    rewrite (Z.bits_above_log2 y); [by rewrite andb_false_r|lia|]. apply Z.log2_lt_pow2; [lia|].
    assert (2 ^ k <= 2 ^ n) by (apply Z.pow_le_mono_r; lia). lia. }
  rewrite <- Z.lxor_lor, <- Z.add_nocarry_lxor by done. by rewrite Z.shiftl_mul_pow2.
Qed.

Lemma land_255 n : Z.land n 255 = n mod 256.
Proof. exact (Z.land_ones n 8 ltac:(lia)). Qed.
Lemma land_63 n : Z.land n 63 = n mod 64.
Proof. exact (Z.land_ones n 6 ltac:(lia)). Qed.

(** ** Little-endian integers *)

Lemma le_bytes_ok n z : bytes_ok (le_bytes n z).
Proof.
  revert z. induction n as [|n IH]; intros z; constructor; [|apply IH].
  unfold is_byte. dlia.
Qed.

Lemma le_val_bytes n z : le_val (le_bytes n z) = z mod 2 ^ (8 * Z.of_nat n).
Proof.
  revert z. induction n as [|n IH]; intros z.
  { cbn. by rewrite Z.mod_1_r. }
  cbn [le_bytes le_val]. rewrite IH.
  replace (8 * Z.of_nat (S n)) with (8 + 8 * Z.of_nat n) by lia.
  rewrite Z.pow_add_r by lia. change (2 ^ 8) with 256.
  rewrite Z.rem_mul_r by lia. lia.
Qed.

Lemma le_val_range b : bytes_ok b -> 0 <= le_val b < 2 ^ (8 * zlen b).
Proof.
  induction 1 as [|x b Hx Hb IH]; [done|].
  cbn [le_val]. rewrite zlen_cons. unfold is_byte in Hx.
  replace (8 * (1 + zlen b)) with (8 + 8 * zlen b) by lia.
  rewrite Z.pow_add_r by (pose proof (zlen_nonneg b); lia). lia.
Qed.

Lemma le_bytes_val b : bytes_ok b -> le_bytes (length b) (le_val b) = b.
Proof.
  induction 1 as [|x b Hx Hb IH]; [done|].
  cbn [le_val le_bytes length]. unfold is_byte in Hx. f_equal; [dlia|].
  replace ((x + 256 * le_val b) / 256) with (le_val b) by dlia. done.
Qed.

Lemma le_val_inj b1 b2 :
  bytes_ok b1 -> bytes_ok b2 -> length b1 = length b2 -> le_val b1 = le_val b2 -> b1 = b2.
Proof.
  intros H1 H2 Hl Hv. rewrite <- (le_bytes_val b1), <- (le_bytes_val b2) by done. congruence.
Qed.

#[export] Hint Resolve le_bytes_ok : redis.

(** ** Decimal numerals *)

Lemma pow10_S (k : nat) : 10 ^ Z.of_nat (S k) = 10 * 10 ^ Z.of_nat k.
Proof. rewrite Nat2Z.inj_succ, Z.pow_succ_r; lia. Qed.

Lemma udec_fuel_S (k : nat) (v : Z) :
  udec_fuel (S k) v = if v <? 10 then [48 + v] else udec_fuel k (v / 10) ++ [48 + v mod 10].
Proof. done. Qed.

Lemma udec_fuel_step (k : nat) (v : Z) :
  0 <= v < 10 ^ Z.of_nat (S k) -> udec_fuel (S (S k)) v = udec_fuel (S k) v.
Proof.
  revert v. induction k as [|k IH]; intros v Hv.
  { change (0 <= v < 10) in Hv. cbn. by zbool. }
  rewrite pow10_S in Hv. cbn [udec_fuel]. zcase; [done|].
  f_equal. apply IH. dlia.
Qed.

Lemma udec_small v : 0 <= v < 10 -> udec v = [48 + v].
Proof. intros. unfold udec. rewrite udec_fuel_S. by zbool. Qed.

Lemma udec_big v : 10 <= v < 10 ^ 20 -> udec v = udec (v / 10) ++ [48 + v mod 10].
Proof.
  intros Hv. unfold udec. rewrite (udec_fuel_S 19 v). zbool.
  rewrite (udec_fuel_step 18); [done|]. change (Z.of_nat 19) with 19.
  change (10 ^ 20) with (10 * 10 ^ 19) in Hv. dlia.
Qed.

(** Induction along the digits of a numeral. *)
Lemma udec_ind (P : Z -> Prop) :
  (forall v, 0 <= v < 10 -> P v) ->
  (forall v, 10 <= v < 10 ^ 20 -> P (v / 10) -> P v) ->
  forall v, 0 <= v < 10 ^ 20 -> P v.
Proof.
  intros H1 H2 v. induction (Z.lt_wf 0 v) as [v _ IH]. intros Hv.
  destruct (Z.lt_ge_cases v 10); [apply H1; lia|]. apply H2; [lia|].
  apply IH; [dlia|]. split; [dlia|].
  change (10 ^ 20) with 100000000000000000000 in *. dlia.
Qed.

Lemma udec_length v : 0 <= v < 10 ^ 20 ->
  (v = 0 /\ zlen (udec v) = 1) \/
  (1 <= zlen (udec v) /\ 10 ^ (zlen (udec v) - 1) <= v < 10 ^ zlen (udec v)).
Proof.
  revert v. apply udec_ind.
  - intros v Hv. rewrite udec_small by done. change (zlen [48 + v]) with 1. lia.
  - intros v Hv IH. right. rewrite udec_big by done.
    rewrite zlen_app, zlen_cons, zlen_nil, Z.add_0_r.
    destruct IH as [[IH _]|[IH1 IH2]]; [dlia|].
    set (d := zlen (udec (v / 10))) in *. split; [lia|].
    replace (d + 1 - 1) with (Z.succ (d - 1)) by lia.
    replace (d + 1) with (Z.succ d) by lia. rewrite !Z.pow_succ_r by lia. dlia.
Qed.

Lemma udec_length_pos v : 0 <= v < 10 ^ 20 -> 1 <= zlen (udec v).
Proof. intros Hv. destruct (udec_length v Hv) as [[_ H]|[H _]]; lia. Qed.

Lemma udec_length_eq v d :
  0 < d -> 10 ^ (d - 1) <= v < 10 ^ d -> v < 10 ^ 20 -> zlen (udec v) = d.
Proof.
  intros Hd Hv Hmax. assert (0 < 10 ^ (d - 1)) by (apply Z.pow_pos_nonneg; lia).
  destruct (udec_length v) as [[H1 H2]|[H1 H2]]; [lia|lia|].
  set (e := zlen (udec v)) in *.
  destruct (Z.lt_trichotomy d e) as [Hlt|[->|Hlt]]; [|done|]; exfalso.
  - assert (10 ^ d <= 10 ^ (e - 1)) by (apply Z.pow_le_mono_r; lia). lia.
  - assert (10 ^ e <= 10 ^ (d - 1)) by (apply Z.pow_le_mono_r; lia). lia.
Qed.

(** The value of a digit string; it inverts [udec]. *)
Definition dec_val (ds : bytes) : Z := fold_left (fun acc c => acc * 10 + (c - 48)) ds 0.

Lemma dec_val_udec v : 0 <= v < 10 ^ 20 -> dec_val (udec v) = v.
Proof.
  revert v. apply udec_ind.
  - intros v Hv. rewrite udec_small by done. unfold dec_val. cbn. lia.
  - intros v Hv IH. rewrite udec_big by done. unfold dec_val in *.
    rewrite fold_left_app, IH. cbn. dlia.
Qed.

Lemma udec_inj v w : 0 <= v < 10 ^ 20 -> 0 <= w < 10 ^ 20 -> udec v = udec w -> v = w.
Proof.
  intros Hv Hw E. rewrite <- (dec_val_udec v), <- (dec_val_udec w) by done. by rewrite E.
Qed.

(** The first digit of a positive number is not zero. *)
Lemma udec_head v : 1 <= v < 10 ^ 20 ->
  exists c r, udec v = c :: r /\ 49 <= c <= 57.
Proof.
  intros Hv. assert (0 <= v < 10 ^ 20) as H by lia. revert v H Hv.
  apply (udec_ind (fun v => 1 <= v < 10 ^ 20 -> exists c r, udec v = c :: r /\ 49 <= c <= 57)).
  - intros v Hv H1. rewrite udec_small by done. exists (48 + v), []. split; [done|lia].
  - intros v Hv IH H1. destruct IH as (c & r & E & Hc).
    { change (10 ^ 20) with 100000000000000000000 in *. dlia. }
    rewrite udec_big by done. exists c, (r ++ [48 + v mod 10]). by rewrite E.
Qed.

Lemma udec_snoc v d : 1 <= v -> 0 <= d < 10 -> v * 10 + d < 10 ^ 20 ->
  udec (v * 10 + d) = udec v ++ [48 + d].
Proof.
  intros. rewrite udec_big by lia.
  replace ((v * 10 + d) / 10) with v by dlia.
  by replace ((v * 10 + d) mod 10) with d by dlia.
Qed.

Lemma udec_digits v : 0 <= v < 10 ^ 20 -> Forall (fun c => 48 <= c <= 57) (udec v).
Proof.
  revert v. apply udec_ind.
  - intros. rewrite udec_small by done. repeat constructor; lia.
  - intros v Hv IH. rewrite udec_big by done. apply Forall_app. split; [done|].
    repeat constructor; dlia.
Qed.
