(* ===== verification/Util.v ===== *)
(** * util.c: number/string conversions and glob matching

    [digits10], [sdigits10], [ll2string], [string2ll] and [string2l] translate
    the conversions between C strings and 64 bit integers, [stringmatchlen] the
    glob matcher.  A C string argument with a length is the list of its bytes;
    an output buffer is a memory block that is returned updated.  Characters
    are unsigned bytes; where the code uses a [char] as a signed [int] the
    conversion [i8] is written out. *)

From stdpp Require Import base list numbers option strings.
From Stdlib Require Import ZArith Lia.
From S2P Require Import Prelude.

(** ** Conversions *)

(** [digits10]: the recursive call divides by [10^12], so a [uint64_t] needs
    one recursive call at most; the fuel is the number of nested calls. *)
Fixpoint digits10_fuel (fuel : nat) (v : Z) : Z :=
  match fuel with
  | O => 0
  | S fuel =>
      if v <? 10 then 1 else
      if v <? 100 then 2 else
      if v <? 1000 then 3 else
      if v <? 1000000000000 then
        if v <? 100000000 then
          if v <? 1000000 then
            if v <? 10000 then 4
            else 5 + (if v >=? 100000 then 1 else 0)
          else 7 + (if v >=? 10000000 then 1 else 0)
        else if v <? 10000000000 then
          9 + (if v >=? 1000000000 then 1 else 0)
        else 11 + (if v >=? 100000000000 then 1 else 0)
      else 12 + digits10_fuel fuel (v / 1000000000000)
  end.

Definition digits10 (v : Z) : Z := digits10_fuel 2 v.

Definition sdigits10 (v : Z) : Z :=
  if v <? 0 then
    let uv := if negb (v =? LLONG_MIN) then u64 (- v) else u64 (LLONG_MAX + 1) in
    digits10 uv + 1
  else digits10 v.

Definition digits : bytes := bytes_of_string
  "00010203040506070809101112131415161718192021222324252627282930313233343536373839404142434445464748495051525354555657585960616263646566676869707172737475767778798081828384858687888990919293949596979899"%string.

(** The [while (value >= 100)] loop; [next] is a [uint32_t]. *)
Fixpoint ll2string_loop (fuel : nat) (value next : Z) (dst : bytes) : option (Z * Z * bytes) :=
  match fuel with
  | O => None
  | S fuel =>
      if value >=? 100 then
        let i := (value mod 100) * 2 in
        let value := value / 100 in
        d1 ← digits.[i + 1];
        dst ← store dst next [d1];
        d0 ← digits.[i];
        dst ← store dst (u32 (next - 1)) [d0];
        ll2string_loop fuel value (u32 (next - 2)) dst
      else Some (value, next, dst)
  end.

(** The last one or two digits. *)
Definition ll2string_last (value next : Z) (dst : bytes) : option bytes :=
  if value <? 10 then store dst next [48 + value]
  else
    let i := value * 2 in
    d1 ← digits.[i + 1];
    dst ← store dst next [d1];
    d0 ← digits.[i];
    store dst (u32 (next - 1)) [d0].

Definition ll2string (dst : bytes) (dstlen svalue : Z) : option (Z * bytes) :=
  let value :=
    if svalue <? 0 then
      if negb (svalue =? LLONG_MIN) then u64 (- svalue) else u64 (LLONG_MAX + 1)
    else svalue in
  let negative := if svalue <? 0 then 1 else 0 in
  let length := u32 (digits10 value + negative) in
  if length >=? dstlen then Some (0, dst) else
  dst ← store dst length [0];
  let next := u32 (length - 1) in
  '(value, next, dst) ← ll2string_loop 20 value next dst;
  dst ← ll2string_last value next dst;
  dst ← (if negb (negative =? 0) then store dst 0 [45] else Some dst);
  Some (length, dst).

(** The digit loop of [string2ll]: [None] on overflow, otherwise the value and
    the unread rest of the string. *)
Fixpoint string2ll_loop (v : Z) (p : bytes) : option (Z * bytes) :=
  match p with
  | [] => Some (v, [])
  | c :: p' =>
      if (48 <=? c) && (c <=? 57) then
        if v >? ULLONG_MAX / 10 then None else
        let v := u64 (v * 10) in
        if v >? ULLONG_MAX - (c - 48) then None else
        string2ll_loop (u64 (v + (c - 48))) p'
      else Some (v, p)
  end.

(** [Some value] when the C function returns 1, [None] when it returns 0. *)
Definition string2ll (s : bytes) : option Z :=
  match s with
  | [] => None
  | c :: r =>
      if (zlen s =? 1) && (c =? 48) then Some 0 else
      let negative := c =? 45 in
      let p := if negative then r else s in
      match p with
      | [] => None
      | c :: p =>
          if (49 <=? c) && (c <=? 57) then
            '(v, rest) ← string2ll_loop (c - 48) p;
            if 0 <? zlen rest then None else
            if negative then
              if v >? u64 (- (LLONG_MIN + 1)) + 1 then None else Some (i64 (u64 (- v)))
            else
              if v >? LLONG_MAX then None else Some (i64 v)
          else None
      end
  end.

(** [long] has 64 bits. *)
Definition string2l (s : bytes) : option Z :=
  llval ← string2ll s;
  if (llval <? LLONG_MIN) || (llval >? LLONG_MAX) then None else Some llval.

(** ** Glob matching *)

(** The [while(1)] loop of a character class: [c0] is [string[0]], the result
    is the pattern position, the remaining length and the match flag. *)
Fixpoint class_loop (fuel : nat) (nocase : bool) (pattern : bytes) (c0 pi patternLen : Z)
    (m : bool) : option (Z * Z * bool) :=
  match fuel with
  | O => None
  | S fuel =>
      p0 ← pattern.[pi];
      if (p0 =? 92) && (2 <=? patternLen) then
        let pi := pi + 1 in
        let patternLen := patternLen - 1 in
        p0 ← pattern.[pi];
        class_loop fuel nocase pattern c0 (pi + 1) (patternLen - 1)
          (if p0 =? c0 then true else m)
      else if p0 =? 93 then Some (pi, patternLen, m)
      else if patternLen =? 0 then Some (pi - 1, patternLen + 1, m)
      else
        dash ← (if 3 <=? patternLen then p1 ← pattern.[pi + 1]; Some (p1 =? 45) else Some false);
        if dash : bool then
          p2 ← pattern.[pi + 2];
          let start := i8 p0 in
          let end_ := i8 p2 in
          let c := i8 c0 in
          let '(start, end_) := if start >? end_ then (end_, start) else (start, end_) in
          let '(start, end_, c) :=
            if nocase then (tolower start, tolower end_, tolower c) else (start, end_, c) in
          class_loop fuel nocase pattern c0 (pi + 2 + 1) (patternLen - 2 - 1)
            (if (start <=? c) && (c <=? end_) then true else m)
        else
          let hit := if nocase then tolower (i8 p0) =? tolower (i8 c0) else p0 =? c0 in
          class_loop fuel nocase pattern c0 (pi + 1) (patternLen - 1) (if hit then true else m)
  end.

(** The loop that collapses consecutive stars. *)
Fixpoint skip_stars (fuel : nat) (pattern : bytes) (pi patternLen : Z) : option (Z * Z) :=
  match fuel with
  | O => None
  | S fuel =>
      if patternLen =? 0 then Some (pi, patternLen) else
      p1 ← pattern.[pi + 1];
      if p1 =? 42 then skip_stars fuel pattern (pi + 1) (patternLen - 1)
      else Some (pi, patternLen)
  end.

(** The loop over the remaining stars, once the string is consumed. *)
Fixpoint trailing_stars (fuel : nat) (pattern : bytes) (pi patternLen : Z) : option Z :=
  match fuel with
  | O => None
  | S fuel =>
      p0 ← pattern.[pi];
      if p0 =? 42 then trailing_stars fuel pattern (pi + 1) (patternLen - 1)
      else Some patternLen
  end.

(** The matcher on pointers: [pi] and [si] are the positions of [pattern] and
    [string] in their blocks. *)
Fixpoint stringmatch_at (fuel : nat) (nocase : bool) (pattern : bytes) (pi patternLen : Z)
    (str : bytes) (si stringLen : Z) : option bool :=
  match fuel with
  | O => None
  | S fuel =>
      if (patternLen =? 0) || (stringLen =? 0) then
        Some ((patternLen =? 0) && (stringLen =? 0))
      else
        p0 ← pattern.[pi];
        (* after the switch: advance the pattern, test the end of the string *)
        let advance pi patternLen si stringLen :=
          let pi := pi + 1 in
          let patternLen := patternLen - 1 in
          if stringLen =? 0 then
            patternLen ← trailing_stars (S (length pattern)) pattern pi patternLen;
            Some ((patternLen =? 0) && (stringLen =? 0))
          else stringmatch_at fuel nocase pattern pi patternLen str si stringLen in
        if p0 =? 42 then
          '(pi, patternLen) ← skip_stars (S (length pattern)) pattern pi patternLen;
          if patternLen =? 1 then Some true else
          (fix star_loop (n : nat) (si stringLen : Z) : option bool :=
             match n with
             | O => None
             | S n =>
                 if stringLen =? 0 then Some false else
                 r ← stringmatch_at fuel nocase pattern (pi + 1) (patternLen - 1) str si stringLen;
                 if r : bool then Some true else star_loop n (si + 1) (stringLen - 1)
             end) (S (length str)) si stringLen
        else if p0 =? 63 then advance pi patternLen (si + 1) (stringLen - 1)
        else if p0 =? 91 then
          let pi := pi + 1 in
          let patternLen := patternLen - 1 in
          p0 ← pattern.[pi];
          let not := p0 =? 94 in
          let '(pi, patternLen) := if not then (pi + 1, patternLen - 1) else (pi, patternLen) in
          c0 ← str.[si];
          '(pi, patternLen, m) ← class_loop (S (length pattern)) nocase pattern c0 pi patternLen false;
          let m := if not then negb m else m in
          if negb m then Some false else advance pi patternLen (si + 1) (stringLen - 1)
        else
          let '(pi, patternLen) :=
            if (p0 =? 92) && (2 <=? patternLen) then (pi + 1, patternLen - 1) else (pi, patternLen) in
          p0 ← pattern.[pi];
          c0 ← str.[si];
          let differ := if nocase then negb (tolower (i8 p0) =? tolower (i8 c0)) else negb (p0 =? c0) in
          if differ then Some false else advance pi patternLen (si + 1) (stringLen - 1)
  end.

(** Every iteration and every recursive call shortens the pattern, so
    [patternLen + 1] bounds their number. *)
Definition stringmatchlen (pattern : bytes) (patternLen : Z) (str : bytes) (stringLen : Z)
    (nocase : bool) : option bool :=
  stringmatch_at (S (Z.to_nat patternLen)) nocase pattern 0 patternLen str 0 stringLen.

(** ** Printing *)

Lemma pow2_64 : 2 ^ 64 = 18446744073709551616.
Proof. done. Qed.

Lemma digits10_udec v : in_u 64 v -> digits10 v = zlen (udec v).
Proof.
  unfold in_u. rewrite pow2_64. intros Hv.
  destruct (Z.eq_dec v 0) as [->|]; [done|]. symmetry.
  unfold digits10. cbn [digits10_fuel].
  repeat zcase; (apply udec_length_eq; [lia|cbn; dlia|cbn; lia]).
Qed.

Lemma digits_table_check :
  forallb (fun i => let i := Z.of_nat i in
    bool_decide (digits.[i * 2] = Some (48 + i / 10)) &&
    bool_decide (digits.[i * 2 + 1] = Some (48 + i mod 10))) (seq 0 100) = true.
Proof. vm_compute. done. Qed.

Lemma digits_table i : 0 <= i < 100 ->
  digits.[i * 2] = Some (48 + i / 10) /\ digits.[i * 2 + 1] = Some (48 + i mod 10).
Proof.
  intros Hi. pose proof digits_table_check as H. rewrite forallb_forall in H.
  specialize (H (Z.to_nat i)). rewrite in_seq, Z2Nat.id in H by lia.
  specialize (H ltac:(lia)). cbv zeta in H.
  by apply andb_true_iff in H as [H1%bool_decide_eq_true H2%bool_decide_eq_true].
Qed.

Lemma udec_two v : 100 <= v < 10 ^ 20 ->
  udec v = udec (v / 100) ++ [48 + (v mod 100) / 10; 48 + (v mod 100) mod 10].
Proof.
  intros Hv. rewrite udec_big by lia. rewrite (udec_big (v / 10)).
  2:{ change (10 ^ 20) with 100000000000000000000 in *. dlia. }
  rewrite <- app_assoc. rewrite Z.div_div by lia. change (10 * 10) with 100.
  replace ((v / 10) mod 10) with ((v mod 100) / 10) by dlia.
  replace (v mod 10) with ((v mod 100) mod 10) by dlia. done.
Qed.

Lemma ll2string_loop_S fuel value next dst :
  ll2string_loop (S fuel) value next dst =
  if value >=? 100 then
    let i := (value mod 100) * 2 in
    d1 ← digits.[i + 1];
    dst ← store dst next [d1];
    d0 ← digits.[i];
    dst ← store dst (u32 (next - 1)) [d0];
    ll2string_loop fuel (value / 100) (u32 (next - 2)) dst
  else Some (value, next, dst).
Proof. done. Qed.

Lemma ll2string_digits_last value pre A B next :
  0 <= value < 100 -> zlen A = zlen (udec value) ->
  next = zlen pre + zlen A - 1 -> next < 2 ^ 32 ->
  ll2string_last value next (pre ++ A ++ B) = Some (pre ++ udec value ++ B).
Proof.
  intros Hv HA Hn H32. pose proof (zlen_nonneg pre). unfold ll2string_last. zcase.
  - rewrite udec_small in * by lia. change (zlen [_]) with 1 in HA.
    rewrite (store_at pre A B) by (done || len). done.
  - rewrite udec_big in * by lia. rewrite (udec_small (value / 10)) in * by dlia.
    destruct A as [|x [|y [|]]]; try (exfalso; len).
    assert (u32 (next - 1) = zlen pre) as -> by uwrap.
    destruct (digits_table value) as [T0 T1]; [lia|].
    rewrite T1. cbn [mbind option_bind].
    rewrite (store_at (pre ++ [x]) [y] B) by (lapp || len).
    rewrite T0. cbn [mbind option_bind].
    rewrite (store_at pre [x] ([48 + value mod 10] ++ B)) by (lapp || len).
    done.
Qed.

(** The loop and the final step write the numeral of [value] so that it ends
    at position [next]. *)
Lemma ll2string_digits fuel value pre A B next :
  0 <= value < 10 ^ 20 -> value < 100 ^ (Z.of_nat fuel + 1) ->
  zlen A = zlen (udec value) -> next = zlen pre + zlen A - 1 -> next < 2 ^ 32 ->
  ('(v, n, d) ← ll2string_loop (S fuel) value next (pre ++ A ++ B); ll2string_last v n d)
  = Some (pre ++ udec value ++ B).
Proof.
  revert value A B next.
  induction fuel as [|fuel IH]; intros value A B next Hv Hf HA Hn H32;
    pose proof (zlen_nonneg pre); rewrite ll2string_loop_S;
    rewrite Z.geb_leb; destruct (Z.leb_spec 100 value).
  1:{ change (100 ^ (Z.of_nat 0 + 1)) with 100 in Hf. lia. }
  1,3: cbn [mbind option_bind]; apply ll2string_digits_last; first [lia|done].
  pose proof (udec_two value ltac:(lia)) as E.
  assert (0 <= value / 100 < 10 ^ 20) as Hq
    by (change (10 ^ 20) with 100000000000000000000 in *; dlia).
  rewrite E, zlen_app in HA. change (zlen [_; _]) with 2 in HA.
  pose proof (udec_length_pos _ Hq).
  destruct (zlen_snoc_inv A (zlen (udec (value / 100)) + 1)) as (A1 & y & -> & HA1); [lia|lia|].
  destruct (zlen_snoc_inv A1 (zlen (udec (value / 100)))) as (A2 & x & -> & HA2); [lia|lia|].
  assert (next = zlen pre + zlen A2 + 1) as -> by (clear - Hn; len).
  destruct (digits_table (value mod 100)) as [T0 T1]; [dlia|].
  assert (u32 (zlen pre + zlen A2 + 1 - 1) = zlen pre + zlen A2) as -> by uwrap.
  assert (u32 (zlen pre + zlen A2 + 1 - 2) = zlen pre + zlen A2 - 1) as -> by uwrap.
  cbv zeta. rewrite T1. cbn [mbind option_bind].
  rewrite (store_at (pre ++ A2 ++ [x]) [y] B) by (lapp || len).
  rewrite T0. cbn [mbind option_bind].
  rewrite (store_at (pre ++ A2) [x] ([48 + value mod 100 mod 10] ++ B)) by (lapp || len).
  rewrite E. rewrite <- !app_assoc. apply IH; [done| |done|lia|lia].
  rewrite Nat2Z.inj_succ, Z.add_succ_l, Z.pow_succ_r in Hf by lia. dlia.
Qed.


Definition magnitude (v : Z) : Z := if v <? 0 then - v else v.

(** ll2string: the buffer receives the decimal numeral of the value and its
    terminator, the length is returned; a buffer that is too small is left
    alone and 0 is returned. *)
Lemma ll2string_spec dst dstlen v :
  in_s 64 v -> dstlen <= zlen dst ->
  ll2string dst dstlen v = Some (
    if zlen (sdec v) <? dstlen
    then (zlen (sdec v), sdec v ++ [0] ++ zdrop (zlen (sdec v) + 1) dst)
    else (0, dst)).
Proof.
  intros Hv Hd. unfold in_s in Hv. change (2 ^ (64 - 1)) with 9223372036854775808 in Hv.
  assert (in_u 64 (magnitude v)) as Hm by (unfold in_u, magnitude; rewrite pow2_64; zcase; lia).
  assert (0 <= magnitude v < 10 ^ 20) as Hm'
    by (unfold in_u in Hm; rewrite pow2_64 in Hm; change (10 ^ 20) with 100000000000000000000; lia).
  unfold ll2string.
  replace (if v <? 0 then if negb (v =? LLONG_MIN) then u64 (- v) else u64 (LLONG_MAX + 1) else v)
    with (magnitude v).
  2:{ unfold magnitude. destruct (Z.ltb_spec v 0); [|done]. unfold LLONG_MIN, LLONG_MAX.
      zcase; cbn [negb]; unfold u64; rewrite wrapu_small; unfold in_u; rewrite ?pow2_64; lia. }
  rewrite digits10_udec by done. set (n := zlen (udec (magnitude v))).
  set (neg := if v <? 0 then 1 else 0).
  assert (zlen (sdec v) = n + neg) as Hlen.
  { unfold sdec, n, neg, magnitude. zcase; [rewrite zlen_cons|]; lia. }
  assert (1 <= n <= 20) as Hn.
  { subst n. split; [by apply udec_length_pos|].
    destruct (udec_length _ Hm') as [[_ ->]|[H1 H2]]; [lia|].
    destruct (Z.le_gt_cases (zlen (udec (magnitude v))) 20); [done|].
    assert (10 ^ 20 <= 10 ^ (zlen (udec (magnitude v)) - 1)) by (apply Z.pow_le_mono_r; lia). lia. }
  assert (0 <= neg <= 1) as Hneg by (unfold neg; zcase; lia).
  assert (u32 (n + neg) = n + neg) as -> by (apply wrapu_small; unfold in_u; lia).
  rewrite Hlen, Z.geb_leb. destruct (Z.leb_spec dstlen (n + neg)); zbool; [done|].
  destruct (zsplit neg dst) as (D & dst1 & -> & HD & H1); [len|].
  destruct (zsplit n dst1) as (A & dst2 & -> & HA & H2); [len|].
  destruct dst2 as [|t rest]; [len|].
  rewrite (store_at (D ++ A) [t] rest) by (lapp || len). cbn [mbind option_bind].
  assert (u32 (n + neg - 1) = n + neg - 1) as -> by uwrap.
  pose proof (ll2string_digits 19 (magnitude v) D A ([0] ++ rest) (n + neg - 1)) as Hloop.
  replace ((D ++ A) ++ [0] ++ rest) with (D ++ A ++ [0] ++ rest) by lapp.
  assert (magnitude v < 100 ^ (Z.of_nat 19 + 1)) by (cbn; cbn in Hm'; lia).
  specialize (Hloop Hm' ltac:(done) HA ltac:(lia) ltac:(lia)).
  destruct (ll2string_loop 20 _ _ _) as [[[v' n'] d']|]; [|done].
  cbn [mbind option_bind] in *. rewrite Hloop. cbn [mbind option_bind].
  rewrite (app_assoc D A), zdrop_app_ge by len.
  replace (n + neg + 1 - zlen (D ++ A)) with 1 by len.
  unfold sdec, magnitude, neg in *. destruct (Z.ltb_spec v 0); zbool.
  - destruct D as [|x [|]]; try (exfalso; len). cbn [mbind option_bind].
    by rewrite (store_at [] [x] (udec (- v) ++ [0] ++ rest)).
  - by rewrite (zlen_0_nil D) by done.
Qed.

(** ** Parsing *)

Lemma ULLONG_lt_10_20 : ULLONG_MAX < 10 ^ 20.
Proof. done. Qed.

(** One accepted digit of the loop. *)
Lemma string2ll_loop_digit v c p :
  0 <= v -> 48 <= c <= 57 -> v * 10 + (c - 48) <= ULLONG_MAX ->
  string2ll_loop v (c :: p) = string2ll_loop (v * 10 + (c - 48)) p.
Proof.
  intros. cbn [string2ll_loop]. unfold ULLONG_MAX in *. zbool.
  assert (v <= 1844674407370955161) by lia.
  change (18446744073709551615 / 10) with 1844674407370955161. zbool.
  assert (u64 (v * 10) = v * 10) as -> by (apply wrapu_small; unfold in_u; rewrite pow2_64; lia).
  zbool. f_equal. apply wrapu_small. unfold in_u. rewrite pow2_64. lia.
Qed.

Lemma string2ll_loop_step_inv v c p r :
  0 <= v <= ULLONG_MAX -> string2ll_loop v (c :: p) = Some (r, []) ->
  48 <= c <= 57 /\ v * 10 + (c - 48) <= ULLONG_MAX.
Proof.
  intros Hv. cbn [string2ll_loop]. unfold ULLONG_MAX in *.
  change (18446744073709551615 / 10) with 1844674407370955161.
  destruct (_ && _) eqn:Ec; [|done].
  apply andb_true_iff in Ec as [E1%Z.leb_le E2%Z.leb_le].
  rewrite Z.gtb_ltb. destruct (Z.ltb_spec 1844674407370955161 v); [done|].
  assert (u64 (v * 10) = v * 10) as -> by (apply wrapu_small; unfold in_u; rewrite pow2_64; lia).
  rewrite Z.gtb_ltb. destruct (Z.ltb_spec (18446744073709551615 - (c - 48)) (v * 10)); [done|].
  intros _. lia.
Qed.

Lemma string2ll_loop_sound p v r :
  1 <= v <= ULLONG_MAX -> string2ll_loop v p = Some (r, []) ->
  1 <= r <= ULLONG_MAX /\ udec r = udec v ++ p.
Proof.
  revert v. induction p as [|c p IH]; intros v Hv H.
  { cbn in H. simplify_eq. by rewrite app_nil_r. }
  destruct (string2ll_loop_step_inv v c p r ltac:(lia) H) as [Hc Hmax].
  rewrite string2ll_loop_digit in H by (done || lia).
  apply IH in H as [Hr ->]; [|lia]. split; [done|].
  pose proof ULLONG_lt_10_20. rewrite udec_snoc by lia.
  rewrite <- app_assoc. cbn [app]. do 2 f_equal. lia.
Qed.

Lemma string2ll_loop_app v p c u :
  string2ll_loop v p = Some (u, []) -> string2ll_loop v (p ++ [c]) = string2ll_loop u [c].
Proof.
  revert v. induction p as [|d p IH]; intros v H; cbn [string2ll_loop app] in *.
  { by simplify_eq. }
  repeat case_match; simplify_eq; auto.
Qed.

Lemma string2ll_loop_complete p v r :
  1 <= v -> r <= ULLONG_MAX -> 0 <= r -> udec r = udec v ++ p -> v < 10 ^ 20 ->
  string2ll_loop v p = Some (r, []).
Proof.
  pose proof ULLONG_lt_10_20. intros Hv Hr Hr0. revert r Hr Hr0.
  induction p as [|c p IH] using rev_ind; intros r Hr Hr0 E Hmax.
  { rewrite app_nil_r in E. cbn. do 2 f_equal. symmetry. apply udec_inj; [lia|lia|assumption]. }
  destruct (Z.lt_ge_cases r 10).
  { rewrite udec_small in E by lia. apply (f_equal zlen) in E.
    pose proof (udec_length_pos v ltac:(lia)). len. }
  rewrite udec_big, app_assoc in E by lia. apply app_inj_tail in E as [E <-].
  erewrite string2ll_loop_app by (apply (IH (r / 10)); [dlia|dlia|assumption|assumption]).
  rewrite string2ll_loop_digit by dlia. cbn. do 2 f_equal. dlia.
Qed.

(** The numerals the parser accepts before the sign is applied: a first digit
    between 1 and 9 and then the digit loop. *)
Lemma string2ll_digits c p v :
  49 <= c <= 57 ->
  string2ll_loop (c - 48) p = Some (v, []) <-> (1 <= v <= ULLONG_MAX /\ udec v = c :: p).
Proof.
  intros Hc. pose proof ULLONG_lt_10_20.
  assert (udec (c - 48) = [c]) as E by (rewrite udec_small by lia; f_equal; lia).
  split.
  - intros Hl%string2ll_loop_sound; [|unfold ULLONG_MAX; lia]. by rewrite E in Hl.
  - intros [Hv Eu]. apply string2ll_loop_complete; [lia|lia|lia|by rewrite E|lia].
Qed.

Lemma sdec_0 : sdec 0 = [48].
Proof. done. Qed.

Lemma sdec_head v : in_s 64 v -> v <> 0 ->
  exists c r, udec (magnitude v) = c :: r /\ 49 <= c <= 57 /\
  sdec v = (if v <? 0 then [45] else []) ++ c :: r.
Proof.
  unfold in_s, magnitude, sdec. change (2 ^ (64 - 1)) with 9223372036854775808. intros Hv H0.
  destruct (udec_head (if v <? 0 then - v else v)) as (c & r & E & Hc).
  { change (10 ^ 20) with 100000000000000000000. zcase; lia. }
  exists c, r. split; [done|]. split; [done|]. destruct (Z.ltb_spec v 0); by rewrite E.
Qed.

Lemma string2ll_sound s v : string2ll s = Some v -> in_s 64 v /\ s = sdec v.
Proof.
  unfold string2ll. destruct s as [|c r]; [done|].
  destruct (_ && _) eqn:E0.
  { apply andb_true_iff in E0 as [E1%Z.eqb_eq ->%Z.eqb_eq]. intros [= <-].
    destruct r; [done|]. len. }
  clear E0. set (p := if c =? 45 then r else c :: r).
  destruct p as [|d q] eqn:Ep; [done|].
  destruct ((49 <=? d) && (d <=? 57)) eqn:Ed; [|done].
  apply andb_true_iff in Ed as [Ed1%Z.leb_le Ed2%Z.leb_le].
  destruct (string2ll_loop (d - 48) q) as [[w rest]|] eqn:Hl; [|done].
  cbn [mbind option_bind]. destruct rest as [|x rest].
  2:{ rewrite zlen_cons. pose proof (zlen_nonneg rest). zbool. done. }
  change (0 <? zlen []) with false. cbn match.
  apply string2ll_digits in Hl as [Hw Eu]; [|done].
  assert (u64 (- (LLONG_MIN + 1)) + 1 = 9223372036854775808) as -> by done.
  unfold LLONG_MAX, ULLONG_MAX, in_s in *. change (2 ^ (64 - 1)) with 9223372036854775808.
  rewrite !Z.gtb_ltb. unfold sdec.
  destruct (Z.eqb_spec c 45) as [->|Hc]; subst p.
  - destruct (Z.ltb_spec 9223372036854775808 w); [done|]. intros [= <-].
    assert (i64 (u64 (- w)) = - w) as ->.
    { apply wraps_wrapu; [lia|]. unfold in_s. cbn. lia. }
    split; [lia|]. zbool. by rewrite Z.opp_involutive, Eu, <- Ep.
  - destruct (Z.ltb_spec 9223372036854775807 w); [done|]. intros [= <-].
    assert (i64 w = w) as -> by (apply wraps_small; [lia|unfold in_s; cbn; lia]).
    split; [lia|]. zbool. by rewrite Eu, <- Ep.
Qed.

Lemma string2ll_complete v : in_s 64 v -> string2ll (sdec v) = Some v.
Proof.
  intros Hv. destruct (Z.eq_dec v 0) as [->|H0]; [done|].
  destruct (sdec_head v Hv H0) as (c & r & E & Hc & ->).
  unfold in_s, magnitude in *. change (2 ^ (64 - 1)) with 9223372036854775808 in Hv.
  assert (forall w, 1 <= w <= ULLONG_MAX -> udec w = c :: r ->
    string2ll_loop (c - 48) r = Some (w, [])) as Hl by (intros; by apply string2ll_digits).
  unfold ULLONG_MAX in Hl. unfold string2ll.
  assert (u64 (- (LLONG_MIN + 1)) + 1 = 9223372036854775808) as -> by done.
  destruct (Z.ltb_spec v 0); cbn [app].
  - rewrite !zlen_cons. pose proof (zlen_nonneg r). zbool.
    rewrite (Hl (- v)) by (lia || done). cbn [mbind option_bind].
    change (0 <? zlen []) with false. cbn match. rewrite Z.gtb_ltb. zbool. f_equal.
    rewrite Z.opp_involutive. apply wraps_wrapu; [lia|]. unfold in_s. cbn. lia.
  - rewrite zlen_cons. pose proof (zlen_nonneg r).
    assert ((c =? 48) = false) as -> by lia. rewrite andb_false_r. zbool.
    rewrite (Hl v) by (lia || done). cbn [mbind option_bind].
    change (0 <? zlen []) with false. cbn match. unfold LLONG_MAX. rewrite Z.gtb_ltb. zbool.
    f_equal. apply wraps_small; [lia|]. unfold in_s. cbn. lia.
Qed.

(** Numerals determine their value. *)
Lemma sdec_inj v w : in_s 64 v -> in_s 64 w -> sdec v = sdec w -> v = w.
Proof. intros Hv Hw E. apply string2ll_complete in Hv, Hw. rewrite E, Hw in Hv. by injection Hv. Qed.

(** ** The meaning of a glob pattern

    A reference semantics over the bytes of the pattern, without positions and
    lengths: [class_scan] reads the members of a character class and returns
    whether [c] is one of them with the pattern after the closing bracket (an
    unterminated class ends with the pattern); [glob p s] holds when the whole
    string [s] matches [p]. *)
Section Glob.
Context (nocase : bool).

Definition char_eq (x c : Z) : bool :=
  if nocase then tolower (i8 x) =? tolower (i8 c) else x =? c.

Definition in_range (a b c : Z) : bool :=
  let lo := Z.min (i8 a) (i8 b) in
  let hi := Z.max (i8 a) (i8 b) in
  if nocase then (tolower lo <=? tolower (i8 c)) && (tolower (i8 c) <=? tolower hi)
  else (lo <=? i8 c) && (i8 c <=? hi).

Fixpoint class_scan (c : Z) (p : bytes) (m : bool) : bool * bytes :=
  match p with
  | [] => (m, [])
  | a :: p1 =>
      match p1 with
      | [] => if a =? 93 then (m, []) else (m || char_eq a c, [])
      | x :: p2 =>
          if a =? 92 then class_scan c p2 (m || (x =? c))
          else if a =? 93 then (m, p1)
          else match p2 with
          | b :: p3 =>
              if x =? 45 then class_scan c p3 (m || in_range a b c)
              else class_scan c p1 (m || char_eq a c)
          | [] => class_scan c p1 (m || char_eq a c)
          end
      end
  end.

Lemma class_scan_length c p m : (length (class_scan c p m).2 <= length p)%nat.
Proof.
  revert m. induction p as [p IH] using (induction_ltof1 _ (@length _)); unfold ltof in IH. intros m.
  destruct p as [|a [|x [|b p]]]; cbn [class_scan]; repeat case_match; cbn [fst snd length]; try lia;
    (etransitivity; [apply IH; cbn; lia|cbn; lia]).
Qed.

Definition class_matches (c : Z) (p : bytes) : bool * bytes :=
  match p with
  | a :: q =>
      if a =? 94 then let '(m, r) := class_scan c q false in (negb m, r)
      else class_scan c p false
  | [] => (false, [])
  end.

Inductive glob : bytes -> bytes -> Prop :=
  | glob_end : glob [] []
  | glob_star_empty p s : glob p s -> glob (42 :: p) s
  | glob_star_char p c s : glob (42 :: p) s -> glob (42 :: p) (c :: s)
  | glob_any p c s : glob p s -> glob (63 :: p) (c :: s)
  | glob_class p c s rest :
      class_matches c p = (true, rest) -> glob rest s -> glob (91 :: p) (c :: s)
  | glob_escape x p c s : char_eq x c = true -> glob p s -> glob (92 :: x :: p) (c :: s)
  | glob_backslash c s : char_eq 92 c = true -> glob [] s -> glob [92] (c :: s)
  | glob_char x p c s :
      x <> 42 -> x <> 63 -> x <> 91 -> x <> 92 ->
      char_eq x c = true -> glob p s -> glob (x :: p) (c :: s).

Lemma glob_star_iff p s : glob (42 :: p) s <-> exists s1 s2, s = s1 ++ s2 /\ glob p s2.
Proof.
  split.
  - intros H. remember (42 :: p) as q eqn:Eq. revert p Eq.
    induction H; intros q [= ->] || (intros q Eq; simplify_eq); try done.
    + by exists [], s.
    + destruct (IHglob q eq_refl) as (s1 & s2 & -> & H2). by exists (c :: s1), s2.
  - intros (s1 & s2 & -> & H). induction s1; cbn; by constructor.
Qed.

Lemma glob_star_star p s : glob (42 :: 42 :: p) s <-> glob (42 :: p) s.
Proof.
  split.
  - intros (s1 & s2 & -> & (s3 & s4 & -> & H)%glob_star_iff)%glob_star_iff.
    apply glob_star_iff. exists (s1 ++ s3), s4. by rewrite app_assoc.
  - apply glob_star_empty.
Qed.

Lemma glob_nil_r p : glob p [] <-> Forall (eq 42) p.
Proof.
  split.
  - intros H. remember [] as s eqn:E. induction H; simplify_eq; auto.
  - induction 1 as [|x p <- _ IH]; by constructor.
Qed.

Lemma glob_nil_l s : glob [] s <-> s = [].
Proof. split; [by inversion 1|intros ->; constructor]. Qed.

(** The three ways a pattern that does not start with a star consumes one
    character of the string. *)
Lemma glob_any_iff p c s : glob (63 :: p) (c :: s) <-> glob p s.
Proof. split; [inversion 1; by simplify_eq|by constructor]. Qed.

Lemma glob_class_iff p c s :
  glob (91 :: p) (c :: s) <->
  (class_matches c p).1 = true /\ glob (class_matches c p).2 s.
Proof.
  split.
  - inversion 1 as [| | | |? ? ? ? E| | |]; simplify_eq. by rewrite E.
  - intros [H1 H2]. eapply glob_class; [|done]. by rewrite (surjective_pairing (class_matches c p)), H1.
Qed.

Lemma glob_escape_iff x p c s :
  glob (92 :: x :: p) (c :: s) <-> char_eq x c = true /\ glob p s.
Proof. split; [inversion 1; by simplify_eq|intros []; by constructor]. Qed.

Lemma glob_char_iff x p c s :
  x <> 42 -> x <> 63 -> x <> 91 -> (x = 92 -> p = []) ->
  glob (x :: p) (c :: s) <-> char_eq x c = true /\ glob p s.
Proof.
  intros H1 H2 H3 H4. split.
  - inversion 1; simplify_eq; try done. by specialize (H4 eq_refl).
  - intros [Hc Hg]. destruct (Z.eq_dec x 92) as [->|]; [|by constructor].
    rewrite (H4 eq_refl) in *. by constructor.
Qed.

End Glob.

(** ** The matcher against the reference semantics *)

Section GlobMatch.
Context (nocase : bool) (tail : bytes).

(** A position of the pattern: [pre] is behind, [p] is ahead, and the
    terminator follows. *)
Definition hd0 (p : bytes) : Z := match p with [] => 0 | x :: _ => x end.

Definition patbuf (pre p : bytes) : bytes := pre ++ p ++ 0 :: tail.

Lemma patbuf_shift pre x p : patbuf pre (x :: p) = patbuf (pre ++ [x]) p.
Proof. unfold patbuf. lapp. Qed.

Lemma patbuf_0 pre p : (patbuf pre p).[zlen pre] = Some (hd0 p).
Proof. unfold patbuf. destruct p; by apply znth_app_mid. Qed.

Lemma patbuf_1 pre x p : (patbuf pre (x :: p)).[zlen pre + 1] = Some (hd0 p).
Proof.
  rewrite patbuf_shift. replace (zlen pre + 1) with (zlen (pre ++ [x])) by len. apply patbuf_0.
Qed.

Lemma patbuf_2 pre x y p : (patbuf pre (x :: y :: p)).[zlen pre + 2] = Some (hd0 p).
Proof.
  rewrite patbuf_shift. replace (zlen pre + 2) with (zlen (pre ++ [x]) + 1) by len. apply patbuf_1.
Qed.

Lemma in_range_code p0 p2 c0 (m : bool) :
  (let '(start, end_) := if i8 p0 >? i8 p2 then (i8 p2, i8 p0) else (i8 p0, i8 p2) in
   let '(start, end_, c) :=
     if nocase then (tolower start, tolower end_, tolower (i8 c0)) else (start, end_, i8 c0) in
   if (start <=? c) && (c <=? end_) then true else m) = m || in_range nocase p0 p2 c0.
Proof.
  unfold in_range. rewrite Z.gtb_ltb.
  destruct (Z.ltb_spec (i8 p2) (i8 p0)).
  - rewrite Z.min_r, Z.max_l by lia. destruct nocase; case_match; by rewrite ?orb_true_r, ?orb_false_r.
  - rewrite Z.min_l, Z.max_r by lia. destruct nocase; case_match; by rewrite ?orb_true_r, ?orb_false_r.
Qed.

Lemma orb_if (b m : bool) : (if b then true else m) = m || b.
Proof. by destruct b, m. Qed.

(** The class loop stops on the byte before the rest of the pattern. *)
Definition class_result (buf : bytes) (r : bool * bytes) (o : option (Z * Z * bool)) : Prop :=
  exists pre', buf = patbuf pre' r.2 /\ o = Some (zlen pre' - 1, zlen r.2 + 1, r.1).

Lemma class_loop_spec c0 p pre m fuel :
  (length p < fuel)%nat ->
  class_result (patbuf pre p) (class_scan nocase c0 p m)
    (class_loop fuel nocase (patbuf pre p) c0 (zlen pre) (zlen p) m).
Proof.
  revert p pre m. induction fuel as [|fuel IH]; intros p pre m Hf; [lia|].
  cbn [class_loop]. rewrite patbuf_0. cbn [mbind option_bind].
  destruct p as [|a p]; cbn [hd0].
  { exists pre. split; [done|]. change (zlen []) with 0. done. }
  assert (forall q pre' m', (length q < fuel)%nat -> patbuf pre (a :: p) = patbuf pre' q ->
    class_result (patbuf pre (a :: p)) (class_scan nocase c0 q m')
      (class_loop fuel nocase (patbuf pre (a :: p)) c0 (zlen pre') (zlen q) m')) as IH'.
  { intros q pre' m' Hq E. rewrite E. by apply IH. }
  clear IH. cbn [length] in Hf. cbn [class_scan].
  pose proof (zlen_nonneg p). rewrite zlen_cons. zbool.
  destruct p as [|x p].
  { change (zlen []) with 0. rewrite andb_false_r. destruct (Z.eqb_spec a 93).
    { exists (pre ++ [a]). split; [apply patbuf_shift|].
      by replace (zlen (pre ++ [a]) - 1) with (zlen pre) by len. }
    cbn. rewrite orb_if. specialize (IH' [] (pre ++ [a]) (m || char_eq nocase a c0)).
    change (zlen []) with 0 in IH'. rewrite zlen_app in IH'. apply IH'; [cbn; lia|].
    apply patbuf_shift. }
  rewrite zlen_cons. pose proof (zlen_nonneg p). zbool. rewrite andb_true_r.
  destruct (Z.eqb_spec a 92).
  { rewrite patbuf_1. cbn [mbind option_bind hd0]. rewrite orb_if.
    replace (zlen pre + 1 + 1) with (zlen (pre ++ [a; x])) by len.
    replace (1 + (1 + zlen p) - 1 - 1) with (zlen p) by lia.
    apply IH'; [cbn in Hf; lia|]. unfold patbuf. lapp. }
  destruct (Z.eqb_spec a 93).
  { exists (pre ++ [a]). split; [apply patbuf_shift|]. cbn [fst snd].
    replace (zlen (pre ++ [a]) - 1) with (zlen pre) by len. do 3 f_equal. len. }
  assert (class_result (patbuf pre (a :: x :: p)) (class_scan nocase c0 (x :: p) (m || char_eq nocase a c0))
    (class_loop fuel nocase (patbuf pre (a :: x :: p)) c0 (zlen pre + 1) (1 + (1 + zlen p) - 1)
       (if if nocase then tolower (i8 a) =? tolower (i8 c0) else a =? c0 then true else m))) as Hlit.
  { rewrite orb_if. replace (zlen pre + 1) with (zlen (pre ++ [a])) by len.
    replace (1 + (1 + zlen p) - 1) with (zlen (x :: p)) by len.
    apply IH'; [cbn in *; lia|]. apply patbuf_shift. }
  destruct p as [|b p]; [by cbn|].
  rewrite zlen_cons. pose proof (zlen_nonneg p). zbool.
  rewrite patbuf_1. cbn [mbind option_bind hd0].
  destruct (Z.eqb_spec x 45); [|by rewrite zlen_cons in Hlit].
  rewrite patbuf_2. cbn [mbind option_bind hd0].
  pose proof (in_range_code a b c0 m) as ER.
  specialize (IH' p (pre ++ [a; x; b]) (m || in_range nocase a b c0) ltac:(cbn in *; lia)
    ltac:(unfold patbuf; lapp)).
  rewrite <- ER in IH' at 2.
  replace (zlen pre + 2 + 1) with (zlen (pre ++ [a; x; b])) by len.
  replace (1 + (1 + (1 + zlen p)) - 2 - 1) with (zlen p) by lia.
  destruct (i8 a >? i8 b), nocase; exact IH'.
Qed.

Lemma trailing_stars_spec p pre fuel :
  (length p < fuel)%nat ->
  exists n, trailing_stars fuel (patbuf pre p) (zlen pre) (zlen p) = Some n /\
  ((n =? 0) = true <-> Forall (eq 42) p).
Proof.
  revert p pre. induction fuel as [|fuel IH]; intros p pre Hf; [lia|].
  cbn [trailing_stars]. rewrite patbuf_0. cbn [mbind option_bind].
  destruct p as [|x p]; cbn [hd0].
  { exists 0. split; [done|]. split; [constructor|done]. }
  destruct (Z.eqb_spec x 42) as [->|Hx].
  - rewrite patbuf_shift, zlen_cons.
    replace (zlen pre + 1) with (zlen (pre ++ [42])) by len.
    replace (1 + zlen p - 1) with (zlen p) by lia.
    destruct (IH p (pre ++ [42])) as (n & -> & Hn); [cbn in Hf; lia|].
    exists n. split; [done|]. rewrite Forall_cons. tauto.
  - eexists. split; [done|]. rewrite Forall_cons, Z.eqb_eq. split; [len|]. intros [<- _]. done.
Qed.

Lemma skip_stars_spec p pre fuel :
  (length p < fuel)%nat ->
  exists pre' q, patbuf pre (42 :: p) = patbuf pre' (42 :: q) /\
    skip_stars fuel (patbuf pre (42 :: p)) (zlen pre) (1 + zlen p) = Some (zlen pre', 1 + zlen q) /\
    hd0 q <> 42 /\ (length q <= length p)%nat /\
    (forall s, glob nocase (42 :: p) s <-> glob nocase (42 :: q) s).
Proof.
  revert p pre. induction fuel as [|fuel IH]; intros p pre Hf; [lia|].
  cbn [skip_stars]. rewrite patbuf_1. cbn [mbind option_bind].
  pose proof (zlen_nonneg p). zbool. destruct (Z.eqb_spec (hd0 p) 42) as [E|Hx].
  - destruct p as [|x p]; [done|]. cbn in E. subst x. rewrite patbuf_shift.
    destruct (IH p (pre ++ [42])) as (pre' & q & E1 & E2 & Hq & Hl & Hg); [cbn in Hf; lia|].
    exists pre', q. split; [done|]. split.
    { rewrite <- E2. f_equal; len. }
    split; [done|]. split; [cbn; lia|]. intros s. by rewrite glob_star_star.
  - by exists pre, p.
Qed.

(** The result of the matcher on the rest [p] of the pattern and [s] of the
    string, for a string that is not empty. *)
Definition matches (o : option bool) (p s : bytes) : Prop :=
  exists b, o = Some b /\ (b = true <-> glob nocase p s).

Lemma matches_iff o p s p' s' :
  (glob nocase p s <-> glob nocase p' s') -> matches o p' s' -> matches o p s.
Proof. intros E (b & -> & Hb). exists b. split; [done|]. tauto. Qed.

Lemma matches_and (c : bool) o p s p' s' :
  (glob nocase p s <-> c = true /\ glob nocase p' s') ->
  matches o p' s' -> matches (if negb c then Some false else o) p s.
Proof.
  intros E (b & -> & Hb). destruct c; cbn.
  - exists b. split; [done|]. rewrite E. tauto.
  - exists false. split; [done|]. rewrite E. split; [done|by intros []].
Qed.

(** What every branch but the star does after it consumed a character. *)
Definition advance (fuel : nat) (pattern str : bytes) (pi patternLen si stringLen : Z) : option bool :=
  if stringLen =? 0 then
    patternLen ← trailing_stars (S (length pattern)) pattern (pi + 1) (patternLen - 1);
    Some ((patternLen =? 0) && (stringLen =? 0))
  else stringmatch_at fuel nocase pattern (pi + 1) (patternLen - 1) str si stringLen.

Definition matcher_ok (fuel : nat) : Prop := forall p pre spre s stail,
  (length p < fuel)%nat -> s <> [] ->
  matches (stringmatch_at fuel nocase (patbuf pre p) (zlen pre) (zlen p)
             (spre ++ s ++ stail) (zlen spre) (zlen s)) p s.

Lemma length_patbuf pre p : (length p < S (length (patbuf pre p)))%nat.
Proof. unfold patbuf. rewrite !length_app. lia. Qed.

Lemma advance_ok fuel buf str stail pi plen si slen pre q spre s :
  matcher_ok fuel -> (length q < fuel)%nat ->
  buf = patbuf pre q -> str = spre ++ s ++ stail ->
  pi + 1 = zlen pre -> plen - 1 = zlen q -> si = zlen spre -> slen = zlen s ->
  matches (advance fuel buf str pi plen si slen) q s.
Proof.
  intros IH Hf -> -> E1 E2 -> ->. unfold advance. rewrite E1, E2.
  destruct s as [|c s].
  - destruct (trailing_stars_spec q pre (S (length (patbuf pre q)))) as (n & -> & Hn);
      [apply length_patbuf|].
    eexists. split; [done|]. rewrite glob_nil_r, <- Hn. cbn. by rewrite andb_true_r.
  - rewrite zlen_cons. pose proof (zlen_nonneg s). zbool.
    rewrite <- zlen_cons with (x := c). by apply IH.
Qed.

(** The loop over the suffixes of the string after a star. *)
Lemma star_loop_ok fuel pre q spre s stail n :
  matcher_ok fuel -> (length q < fuel)%nat -> q <> [] -> hd0 q <> 42 -> (length s < n)%nat ->
  matches ((fix star_loop (n : nat) (si stringLen : Z) : option bool :=
     match n with
     | O => None
     | S n =>
         if stringLen =? 0 then Some false else
         r ← stringmatch_at fuel nocase (patbuf pre q) (zlen pre) (zlen q)
               (spre ++ s ++ stail) si stringLen;
         if r : bool then Some true else star_loop n (si + 1) (stringLen - 1)
     end) n (zlen spre) (zlen s)) (42 :: q) s.
Proof.
  intros IH Hf Hq Hhd. revert spre n.
  induction s as [|c s IHs]; intros spre n Hn; (destruct n as [|n]; [cbn in Hn; lia|]).
  - exists false. split; [done|]. split; [done|]. rewrite glob_nil_r, Forall_cons.
    intros [_ H]. destruct q; [done|]. inversion H; cbn in *; congruence.
  - rewrite zlen_cons. pose proof (zlen_nonneg s). zbool. rewrite <- zlen_cons with (x := c).
    destruct (IH q pre spre (c :: s) stail Hf) as (b & -> & Hb); [done|].
    cbn [mbind option_bind]. destruct b.
    { exists true. split; [done|]. split; [|done]. intros _. apply glob_star_empty, Hb. done. }
    specialize (IHs (spre ++ [c]) n ltac:(cbn in Hn; lia)).
    replace ((spre ++ [c]) ++ s ++ stail) with (spre ++ (c :: s) ++ stail) in IHs by lapp.
    replace (zlen (spre ++ [c])) with (zlen spre + 1) in IHs by len.
    replace (zlen (c :: s) - 1) with (zlen s) by len.
    eapply matches_iff; [|exact IHs]. split.
    + inversion 1; subst; [|done|done..].
      match goal with Hg : glob _ q _ |- _ => by apply Hb in Hg end.
    + apply glob_star_char.
Qed.

Lemma class_ok fuel pre p spre c s stail :
  matcher_ok fuel -> (length p < fuel)%nat ->
  matches (
    p0 ← (patbuf pre (91 :: p)).[zlen pre + 1];
    let '(pi, patternLen) :=
      if p0 =? 94 then (zlen pre + 1 + 1, zlen (91 :: p) - 1 - 1) else (zlen pre + 1, zlen (91 :: p) - 1) in
    c0 ← (spre ++ (c :: s) ++ stail).[zlen spre];
    '(pi, patternLen, m) ← class_loop (S (length (patbuf pre (91 :: p)))) nocase
       (patbuf pre (91 :: p)) c0 pi patternLen false;
    let m := if p0 =? 94 then negb m else m in
    if negb m then Some false else
    advance fuel (patbuf pre (91 :: p)) (spre ++ (c :: s) ++ stail) pi patternLen
      (zlen spre + 1) (zlen (c :: s) - 1)) (91 :: p) (c :: s).
Proof.
  intros IH Hf. rewrite patbuf_1. cbn [mbind option_bind].
  rewrite (znth_at spre c (s ++ stail)) by (lapp || done).
  assert (forall pre' q m, patbuf pre (91 :: p) = patbuf pre' q -> (length q <= length p)%nat ->
    (class_matches nocase c p).1 = (if hd0 p =? 94 then negb (class_scan nocase c q false).1
       else (class_scan nocase c q false).1) ->
    (class_matches nocase c p).2 = (class_scan nocase c q false).2 ->
    m = zlen q ->
    matches ('(pi, patternLen, m) ← class_loop (S (length (patbuf pre (91 :: p)))) nocase
       (patbuf pre (91 :: p)) c (zlen pre') m false;
      let m := if hd0 p =? 94 then negb m else m in
      if negb m then Some false else
      advance fuel (patbuf pre (91 :: p)) (spre ++ (c :: s) ++ stail) pi patternLen
        (zlen spre + 1) (zlen (c :: s) - 1)) (91 :: p) (c :: s)) as Hgo.
  { intros pre' q m E Hlen E1 E2 ->. rewrite E.
    destruct (class_loop_spec c q pre' false (S (length (patbuf pre' q)))) as (pre'' & E3 & ->);
      [apply length_patbuf|].
    cbn [mbind option_bind]. rewrite <- E1.
    apply (matches_and _ _ _ _ (class_matches nocase c p).2 s); [apply glob_class_iff|].
    rewrite E2. apply (advance_ok fuel _ _ stail _ _ _ _ pre'' _ (spre ++ [c]));
      [done| |done|lapp|lia|lia|len|len].
    pose proof (class_scan_length nocase c q false). lia. }
  unfold class_matches in Hgo. destruct p as [|x p].
  { specialize (Hgo (pre ++ [91]) []). cbn in Hgo.
    replace (zlen (pre ++ [91])) with (zlen pre + 1) in Hgo by len.
    apply Hgo; [apply patbuf_shift|lia|done..]. }
  cbn [hd0] in *. destruct (Z.eqb_spec x 94) as [->|Hx].
  - replace (zlen pre + 1 + 1) with (zlen (pre ++ [91; 94])) by len.
    apply (Hgo _ p); [unfold patbuf; lapp|cbn; lia| | |len];
      by destruct (class_scan nocase c p false).
  - replace (zlen pre + 1) with (zlen (pre ++ [91])) by len.
    by apply (Hgo _ (x :: p)); [apply patbuf_shift|lia| | |len].
Qed.

(** An ordinary or escaped character [y] of the pattern. *)
Lemma literal_ok fuel pre x p pre' y q spre c s stail :
  matcher_ok fuel -> (length q < fuel)%nat ->
  patbuf pre (x :: p) = patbuf pre' (y :: q) ->
  (glob nocase (x :: p) (c :: s) <-> char_eq nocase y c = true /\ glob nocase q s) ->
  matches (if if nocase then negb (tolower (i8 y) =? tolower (i8 c)) else negb (y =? c)
    then Some false
    else advance fuel (patbuf pre (x :: p)) (spre ++ (c :: s) ++ stail)
           (zlen pre') (zlen (y :: q)) (zlen spre + 1) (zlen (c :: s) - 1)) (x :: p) (c :: s).
Proof.
  intros IH Hl E Hg.
  replace (if nocase then negb (tolower (i8 y) =? tolower (i8 c)) else negb (y =? c))
    with (negb (char_eq nocase y c)) by (unfold char_eq; by destruct nocase).
  eapply matches_and; [apply Hg|].
  apply (advance_ok fuel _ _ stail _ _ _ _ (pre' ++ [y]) q (spre ++ [c]) s IH);
    [lia|by rewrite E, patbuf_shift|lapp|len|len|len|len].
Qed.

(** The star branch. *)
Lemma star_ok fuel pre p spre c s stail :
  matcher_ok fuel -> (length p < fuel)%nat ->
  matches ('(pi, patternLen) ← skip_stars (S (length (patbuf pre (42 :: p)))) (patbuf pre (42 :: p))
             (zlen pre) (zlen (42 :: p));
    if patternLen =? 1 then Some true else
    (fix star_loop (n : nat) (si stringLen : Z) : option bool :=
       match n with
       | O => None
       | S n =>
           if stringLen =? 0 then Some false else
           r ← stringmatch_at fuel nocase (patbuf pre (42 :: p)) (pi + 1) (patternLen - 1)
                 (spre ++ (c :: s) ++ stail) si stringLen;
           if r : bool then Some true else star_loop n (si + 1) (stringLen - 1)
       end) (S (length (spre ++ (c :: s) ++ stail))) (zlen spre) (zlen (c :: s)))
    (42 :: p) (c :: s).
Proof.
  intros IH Hf. rewrite (zlen_cons 42 p).
  destruct (skip_stars_spec p pre (S (length (patbuf pre (42 :: p)))))
    as (pre' & q & E & -> & Hq & Hl & Hg).
  { pose proof (length_patbuf pre (42 :: p)). cbn [length] in *. lia. }
  cbn [mbind option_bind].
  eapply matches_iff; [apply Hg|]. pose proof (zlen_nonneg q).
  destruct (Z.eqb_spec (1 + zlen q) 1) as [E0|E0].
  { rewrite (zlen_0_nil q) by lia. exists true. split; [done|]. split; [|done]. intros _.
    apply glob_star_iff. exists (c :: s), []. rewrite app_nil_r. split; [done|constructor]. }
  rewrite E, patbuf_shift. replace (zlen pre' + 1) with (zlen (pre' ++ [42])) by len.
  replace (1 + zlen q - 1) with (zlen q) by lia.
  refine (star_loop_ok fuel (pre' ++ [42]) q spre (c :: s) stail
    (S (length (spre ++ (c :: s) ++ stail))) IH _ _ Hq _); [lia| |rewrite !length_app; lia].
  intros ->. change (zlen []) with 0 in *. lia.
Qed.

(** The matcher decides the reference semantics. *)
Lemma stringmatch_at_ok fuel : matcher_ok fuel.
Proof.
  induction fuel as [|fuel IH]; intros p pre spre s stail Hf Hs; [lia|].
  destruct s as [|c s]; [done|]. clear Hs.
  cbn [stringmatch_at]. rewrite (zlen_cons c s). pose proof (zlen_nonneg s). zbool.
  rewrite <- (zlen_cons c s). rewrite orb_false_r, andb_false_r.
  destruct p as [|x p].
  { exists false. split; [done|]. rewrite glob_nil_l. done. }
  rewrite (zlen_cons x p). pose proof (zlen_nonneg p). zbool. rewrite <- (zlen_cons x p).
  rewrite patbuf_0. cbn [mbind option_bind hd0]. cbn [length] in Hf.
  destruct (Z.eqb_spec x 42) as [->|H42].
  { refine (star_ok fuel pre p spre c s stail IH _). lia. }
  destruct (Z.eqb_spec x 63) as [->|H63].
  { eapply matches_iff; [apply glob_any_iff|].
    refine (advance_ok fuel _ _ stail _ _ _ _ (pre ++ [63]) p (spre ++ [c]) s IH _ _ _ _ _ _ _);
      [lia|apply patbuf_shift|lapp|len|len|len|len]. }
  destruct (Z.eqb_spec x 91) as [->|H91].
  { refine (class_ok fuel pre p spre c s stail IH _). lia. }
  rewrite (znth_at spre c (s ++ stail)) by (lapp || done). cbn [mbind option_bind].
  destruct (Z.eqb_spec x 92) as [->|H92]; cbn [andb].
  - destruct p as [|y p].
    { change (2 <=? zlen [92]) with false. cbn match. rewrite patbuf_0.
      refine (literal_ok fuel pre 92 [] pre 92 [] spre c s stail IH _ _ _); [cbn; lia|done|].
      by apply glob_char_iff. }
    rewrite !(zlen_cons 92 (y :: p)), (zlen_cons y p). pose proof (zlen_nonneg p). zbool.
    rewrite patbuf_1. cbn [mbind option_bind hd0].
    replace (zlen pre + 1) with (zlen (pre ++ [92])) by len.
    replace (1 + (1 + zlen p) - 1) with (zlen (y :: p)) by len.
    refine (literal_ok fuel pre 92 (y :: p) (pre ++ [92]) y p spre c s stail IH _ _ _);
      [cbn in Hf; lia|apply patbuf_shift|apply glob_escape_iff].
  - rewrite patbuf_0.
    refine (literal_ok fuel pre x p pre x p spre c s stail IH _ _ _); [lia|done|].
    by apply glob_char_iff.
Qed.

End GlobMatch.

(** ** Properties *)

(** ll2string writes the decimal numeral of any 64 bit integer, LLONG_MIN
    included, followed by the terminator, leaves the rest of the buffer
    untouched and returns the length; when numeral and terminator do not fit in
    [dstlen] bytes it writes nothing and returns 0.  No write leaves the
    buffer. *)
Theorem ll2string_prints dst dstlen v :
  in_s 64 v -> dstlen <= zlen dst ->
  ll2string dst dstlen v = Some (
    if zlen (sdec v) <? dstlen
    then (zlen (sdec v), sdec v ++ [0] ++ zdrop (zlen (sdec v) + 1) dst)
    else (0, dst)).
Proof. apply ll2string_spec. Qed.

Lemma ll2string_prints_witness :
  ll2string (replicate 22 7) 21 LLONG_MIN =
  Some (20, bytes_of_string "-9223372036854775808" ++ [0; 7]).
Proof.
  refine (eq_trans (ll2string_prints (replicate 22 7) 21 LLONG_MIN _ _) _).
  - unfold in_s, LLONG_MIN. cbn. lia.
  - vm_compute. discriminate.
  - reflexivity.
Defined.

(** C35. string2ll accepts exactly the canonical decimal numerals of the 64 bit
    integers (no leading zeros, no plus sign, no blanks, no minus zero, no
    overflow) and returns the number they denote: it is the inverse of the
    printer. *)
Theorem string2ll_exact s v : string2ll s = Some v <-> in_s 64 v /\ s = sdec v.
Proof.
  split; [apply string2ll_sound|]. intros [Hv ->]. by apply string2ll_complete.
Qed.

(** A string that string2ll accepts is reproduced byte for byte by
    ll2string from the parsed value, as the comment above string2ll claims. *)
Theorem string2ll_ll2string s v dst :
  string2ll s = Some v -> zlen s < zlen dst ->
  exists rest, ll2string dst (zlen dst) v = Some (zlen s, s ++ [0] ++ rest).
Proof.
  intros [Hv ->]%string2ll_sound Hlen. eexists. rewrite ll2string_spec by (done || lia).
  assert ((zlen (sdec v) <? zlen dst) = true) as -> by lia. done.
Qed.

Lemma string2ll_ll2string_witness :
  exists rest, ll2string (replicate 8 7) 8 (-120) = Some (4, bytes_of_string "-120" ++ [0] ++ rest).
Proof.
  exact (string2ll_ll2string (bytes_of_string "-120") (-120) (replicate 8 7) eq_refl eq_refl).
Defined.

(** C26. stringmatchlen on a terminated pattern and any string reads both only
    inside their blocks, terminates, and decides the glob semantics; the empty
    string is matched by the empty pattern only. *)
Theorem stringmatchlen_correct nocase p tail s stail :
  exists b, stringmatchlen (p ++ 0 :: tail) (zlen p) (s ++ stail) (zlen s) nocase = Some b /\
  (b = true <-> match s with [] => p = [] | _ => glob nocase p s end).
Proof.
  destruct s as [|c s].
  - unfold stringmatchlen. cbn [stringmatch_at]. change (zlen []) with 0.
    rewrite orb_true_r, andb_true_r. eexists. split; [done|]. rewrite Z.eqb_eq.
    split; [apply zlen_0_nil|by intros ->].
  - refine (stringmatch_at_ok nocase tail (S (Z.to_nat (zlen p))) p [] [] (c :: s) stail _ _); [|done].
    unfold zlen. lia.
Qed.

(** The pattern "*" does not match the empty string, although a star
    matches every sequence of characters: the match loop is not entered when
    the string is empty, and the star is never skipped. *)
Theorem stringmatchlen_star_empty nocase tail stail :
  stringmatchlen (42 :: 0 :: tail) 1 stail 0 nocase = Some false /\ glob nocase [42] [].
Proof. split; [done|]. apply glob_star_empty, glob_end. Qed.
