(* ===== verification/Intset.v ===== *)
(** * intset.c: sorted sets of integers in a byte block

    An intset is a header (the width of the elements in bytes and their number)
    and a block that holds the elements in little-endian order, sorted.  The
    operations below work on the block, byte by byte, as the C code does.  The
    host is little-endian, so [intrev32ifbe] and [memrev*ifbe] are the identity.
    The abstraction is the strictly sorted list of the elements. *)

From stdpp Require Import base list numbers option gmap sets sorting.
From Stdlib Require Import ZArith Lia.
From S2P Require Import Prelude.

(** ** The code *)

Definition INTSET_ENC_INT16 : Z := 2.
Definition INTSET_ENC_INT32 : Z := 4.
Definition INTSET_ENC_INT64 : Z := 8.

Record intset := mk_intset { encoding : Z; is_length : Z; contents : bytes }.

Definition set_contents (c : bytes) (iset : intset) : intset :=
  mk_intset (encoding iset) (is_length iset) c.
Definition set_length (n : Z) (iset : intset) : intset :=
  mk_intset (encoding iset) n (contents iset).
Definition set_encoding (e : Z) (iset : intset) : intset :=
  mk_intset e (is_length iset) (contents iset).

Definition intsetValueEncoding (v : Z) : Z :=
  if (v <? -2147483648) || (v >? 2147483647) then INTSET_ENC_INT64
  else if (v <? -32768) || (v >? 32767) then INTSET_ENC_INT32
  else INTSET_ENC_INT16.

Definition intsetGetEncoded (iset : intset) (pos enc : Z) : option Z :=
  if enc =? INTSET_ENC_INT64 then
    b ← load (contents iset) (pos * 8) 8; Some (i64 (le_val b))
  else if enc =? INTSET_ENC_INT32 then
    b ← load (contents iset) (pos * 4) 4; Some (i32 (le_val b))
  else
    b ← load (contents iset) (pos * 2) 2; Some (i16 (le_val b)).

Definition intsetGet_ (iset : intset) (pos : Z) : option Z :=
  intsetGetEncoded iset pos (encoding iset).

Definition intsetSet (iset : intset) (pos value : Z) : option intset :=
  if encoding iset =? INTSET_ENC_INT64 then
    c ← store (contents iset) (pos * 8) (le_bytes 8 value); Some (set_contents c iset)
  else if encoding iset =? INTSET_ENC_INT32 then
    c ← store (contents iset) (pos * 4) (le_bytes 4 value); Some (set_contents c iset)
  else
    c ← store (contents iset) (pos * 2) (le_bytes 2 value); Some (set_contents c iset).

Definition intsetNew : intset := mk_intset INTSET_ENC_INT16 0 [].

Section Ops.
Context `{FreshMem}.

(** [size] is a [uint32_t]. *)
Definition intsetResize (iset : intset) (len : Z) : intset :=
  let size := u32 (len * encoding iset) in
  set_contents (realloc (contents iset) size) iset.

(** The binary search loop; [min], [max] and [mid] are [int]s and the midpoint
    is computed in unsigned arithmetic. *)
Fixpoint search_loop (fuel : nat) (iset : intset) (value min max mid cur : Z)
    : option (Z * Z * Z) :=
  match fuel with
  | O => None
  | S fuel =>
      if max >=? min then
        let mid := i32 (Z.shiftr (u32 (u32 min + u32 max)) 1) in
        cur ← intsetGet_ iset mid;
        if value >? cur then search_loop fuel iset value (mid + 1) max mid cur
        else if value <? cur then search_loop fuel iset value min (mid - 1) mid cur
        else Some (min, mid, cur)
      else Some (min, mid, cur)
  end.

(** The result is the return value and the position stored through [pos]. *)
Definition intsetSearch (iset : intset) (value : Z) : option (bool * Z) :=
  let max := i32 (is_length iset - 1) in
  if is_length iset =? 0 then Some (false, 0)
  else
    last ← intsetGet_ iset max;
    if value >? last then Some (false, is_length iset)
    else
      first ← intsetGet_ iset 0;
      if value <? first then Some (false, 0)
      else
        '(min, mid, cur) ← search_loop (S (Z.to_nat (is_length iset))) iset value 0 max (-1) (-1);
        if value =? cur then Some (true, mid) else Some (false, min).

(** [while(length--)] of the upgrade, from the last element to the first. *)
Fixpoint upgrade_loop (length : nat) (iset : intset) (prepend curenc : Z) : option intset :=
  match length with
  | O => Some iset
  | S length =>
      v ← intsetGetEncoded iset (Z.of_nat length) curenc;
      iset ← intsetSet iset (Z.of_nat length + prepend) v;
      upgrade_loop length iset prepend curenc
  end.

Definition intsetUpgradeAndAdd (iset : intset) (value : Z) : option intset :=
  let curenc := u8 (encoding iset) in
  let newenc := intsetValueEncoding value in
  let length := i32 (is_length iset) in
  let prepend := if value <? 0 then 1 else 0 in
  let iset := set_encoding newenc iset in
  let iset := intsetResize iset (u32 (is_length iset + 1)) in
  iset ← upgrade_loop (Z.to_nat length) iset prepend curenc;
  iset ← (if negb (prepend =? 0) then intsetSet iset 0 value
        else intsetSet iset (is_length iset) value);
  Some (set_length (u32 (is_length iset + 1)) iset).

Definition intsetMoveTail (iset : intset) (from to : Z) : option intset :=
  let n := u32 (is_length iset - from) in
  let w := if encoding iset =? INTSET_ENC_INT64 then 8
           else if encoding iset =? INTSET_ENC_INT32 then 4 else 2 in
  c ← memmove (contents iset) (to * w) (from * w) (u32 (n * w));
  Some (set_contents c iset).

(** The result is the set and the value stored through [success]. *)
Definition intsetAdd (iset : intset) (value : Z) : option (intset * bool) :=
  let valenc := intsetValueEncoding value in
  if valenc >? encoding iset then
    iset ← intsetUpgradeAndAdd iset value;
    Some (iset, true)
  else
    '(found, pos) ← intsetSearch iset value;
    if found : bool then Some (iset, false)
    else
      let iset := intsetResize iset (u32 (is_length iset + 1)) in
      iset ← (if pos <? is_length iset then intsetMoveTail iset pos (u32 (pos + 1)) else Some iset);
      iset ← intsetSet iset pos value;
      Some (set_length (u32 (is_length iset + 1)) iset, true).

Definition intsetRemove (iset : intset) (value : Z) : option (intset * bool) :=
  let valenc := intsetValueEncoding value in
  if valenc <=? encoding iset then
    '(found, pos) ← intsetSearch iset value;
    if found : bool then
      let len := is_length iset in
      iset ← (if pos <? u32 (len - 1) then intsetMoveTail iset (u32 (pos + 1)) pos else Some iset);
      let iset := intsetResize iset (u32 (len - 1)) in
      Some (set_length (u32 (len - 1)) iset, true)
    else Some (iset, false)
  else Some (iset, false).

Definition intsetFind (iset : intset) (value : Z) : option bool :=
  let valenc := intsetValueEncoding value in
  if valenc <=? encoding iset then
    '(found, _) ← intsetSearch iset value; Some found
  else Some false.

(** [rnd] is the value [rand()] returns; [%] by zero has no result. *)
Definition intsetRandom (iset : intset) (rnd : Z) : option Z :=
  if is_length iset =? 0 then None else intsetGet_ iset (rnd mod is_length iset).

Definition intsetGet (iset : intset) (pos : Z) : option (option Z) :=
  if pos <? is_length iset then v ← intsetGet_ iset pos; Some (Some v) else Some None.

Definition intsetLen (iset : intset) : Z := is_length iset.

(** [sizeof(intset)] is 8; the product is a [uint32_t]. *)
Definition intsetBlobLen (iset : intset) : Z := 8 + u32 (is_length iset * encoding iset).

End Ops.

(** ** Representation *)

(** The block of a list of elements of [e] bytes. *)
Definition elems (e : Z) (l : list Z) : bytes := mjoin (le_bytes (Z.to_nat e) <$> l).

Definition enc_ok (e : Z) : Prop := e = 2 \/ e = 4 \/ e = 8.

(** The largest set whose block size fits a [uint32_t] in every encoding. *)
Definition INTSET_MAX : Z := 536870911.

Record repr (iset : intset) (l : list Z) : Prop := {
  repr_enc : enc_ok (encoding iset);
  repr_len : is_length iset = zlen l;
  repr_max : zlen l <= INTSET_MAX;
  repr_contents : contents iset = elems (encoding iset) l;
  repr_range : Forall (in_s (8 * encoding iset)) l;
  repr_sorted : StronglySorted Z.lt l
}.

(** ** Blocks of elements *)

Lemma elems_app e l1 l2 : elems e (l1 ++ l2) = elems e l1 ++ elems e l2.
Proof. unfold elems. by rewrite fmap_app, join_app. Qed.

Lemma elems_cons e x l : elems e (x :: l) = le_bytes (Z.to_nat e) x ++ elems e l.
Proof. done. Qed.

Lemma zlen_elems e l : 0 <= e -> zlen (elems e l) = e * zlen l.
Proof.
  intros He. induction l as [|x l IH]; [change (0 = e * 0); lia|].
  rewrite elems_cons, zlen_app, IH, zlen_le_bytes, zlen_cons. lia.
Qed.

Lemma enc_pos e : enc_ok e -> 2 <= e <= 8.
Proof. unfold enc_ok. lia. Qed.

Lemma getEncoded_eq iset pos e : enc_ok e ->
  intsetGetEncoded iset pos e =
  (b ← load (contents iset) (pos * e) e; Some (wraps (8 * e) (le_val b))).
Proof. intros [->|[->| ->]]; done. Qed.

Lemma set_eq iset pos v : enc_ok (encoding iset) ->
  intsetSet iset pos v =
  (c ← store (contents iset) (pos * encoding iset) (le_bytes (Z.to_nat (encoding iset)) v);
   Some (set_contents c iset)).
Proof. unfold intsetSet. intros [->|[->| ->]]; done. Qed.

Lemma le_elem e x : enc_ok e -> in_s (8 * e) x ->
  wraps (8 * e) (le_val (le_bytes (Z.to_nat e) x)) = x.
Proof.
  intros He%enc_pos Hx. rewrite le_val_bytes. rewrite Z2Nat.id by lia.
  apply wraps_wrapu; [lia|done].
Qed.

(** Reading element [zlen l1] of a block that starts with [elems e (l1 ++ [x])]. *)
Lemma getEncoded_at iset e l1 x post pos :
  enc_ok e -> in_s (8 * e) x -> contents iset = elems e l1 ++ le_bytes (Z.to_nat e) x ++ post ->
  pos = zlen l1 -> intsetGetEncoded iset pos e = Some x.
Proof.
  intros He Hx E ->. rewrite getEncoded_eq by done. pose proof (enc_pos e He).
  erewrite load_at; [|exact E|rewrite zlen_elems; lia|rewrite zlen_le_bytes; lia].
  cbn. f_equal. by apply le_elem.
Qed.

(** Writing an element over [e] bytes of the block. *)
Lemma set_at iset pre old post pos v :
  enc_ok (encoding iset) -> contents iset = pre ++ old ++ post ->
  zlen pre = pos * encoding iset -> zlen old = encoding iset ->
  intsetSet iset pos v =
  Some (set_contents (pre ++ le_bytes (Z.to_nat (encoding iset)) v ++ post) iset).
Proof.
  intros He E Hp Ho. rewrite set_eq by done. pose proof (enc_pos _ He).
  erewrite store_at; [|exact E|done|rewrite zlen_le_bytes; lia]. done.
Qed.

Lemma sorted_lookup l i j x y :
  StronglySorted Z.lt l -> l.[i] = Some x -> l.[j] = Some y -> i < j -> x < y.
Proof.
  intros Hs Hi Hj Hij. pose proof (znth_lt _ _ _ Hi). pose proof (znth_lt _ _ _ Hj).
  rewrite znth_nat in Hi, Hj by lia.
  apply list_elem_of_split_length in Hi as (l1 & l2 & -> & Hl).
  rewrite lookup_app_r in Hj by lia. rewrite cons_middle, app_assoc in Hs.
  eapply StronglySorted_app_1_elem_of; [exact Hs|set_solver|].
  destruct (Z.to_nat j - length l1)%nat as [|n] eqn:En; [lia|].
  cbn in Hj. by eapply list_elem_of_lookup_2.
Qed.

Lemma repr_get iset l i x : repr iset l -> l.[i] = Some x -> intsetGet_ iset i = Some x.
Proof.
  intros [He _ _ Hc Hr _] Hi. pose proof (znth_lt _ _ _ Hi). rewrite znth_nat in Hi by lia.
  apply list_elem_of_split_length in Hi as (l1 & l2 & -> & Hl).
  apply Forall_app in Hr as [_ [Hx _]%Forall_cons].
  unfold intsetGet_. eapply (getEncoded_at _ _ l1 x (elems (encoding iset) l2)); [done|done| |].
  - by rewrite Hc, elems_app, elems_cons.
  - unfold zlen in *. lia.
Qed.

(** ** Search *)

Lemma mid_between min max : 0 <= min <= max -> max < 2147483648 ->
  exists mid, i32 (Z.shiftr (u32 (u32 min + u32 max)) 1) = mid /\ min <= mid <= max.
Proof.
  intros. eexists. split; [done|].
  rewrite (u32_small min), (u32_small max), (u32_small (min + max)) by lia.
  rewrite Z.shiftr_div_pow2 by lia. change (2 ^ 1) with 2. rewrite i32_small by dlia. dlia.
Qed.

(** Everything before [min] is smaller and everything after [max] larger. *)
Definition bracket (l : list Z) (v min max : Z) : Prop :=
  0 <= min /\ min <= max + 1 /\ max < zlen l /\
  (forall i x, i < min -> l.[i] = Some x -> x < v) /\
  (forall i x, max < i -> l.[i] = Some x -> v < x).

Lemma search_loop_spec iset l v fuel min max mid cur :
  repr iset l -> bracket l v min max -> (cur <> v \/ min <= max) ->
  max - min + 1 < Z.of_nat fuel ->
  exists min' mid' cur', search_loop fuel iset v min max mid cur = Some (min', mid', cur') /\
    ((v = cur' /\ l.[mid'] = Some v) \/ (v <> cur' /\ bracket l v min' (min' - 1))).
Proof.
  intros Hr. revert min max mid cur.
  induction fuel as [|fuel IH]; intros min max mid cur Hb Hc Hf;
    destruct (id Hb) as (H0 & H1 & H2 & Hlo & Hhi); [lia|].
  cbn [search_loop]. rewrite Z.geb_leb. destruct (Z.leb_spec min max).
  2:{ exists min, mid, cur. split; [done|]. right. split; [lia|].
      split_and!; try done; try lia. intros i x Hi. apply Hhi. lia. }
  pose proof (repr_max _ _ Hr) as Hmax. unfold INTSET_MAX in Hmax.
  destruct (mid_between min max) as (m & -> & Hm); [lia|lia|].
  destruct (znth_is_Some l m) as [x Hx]; [lia|].
  rewrite (repr_get _ _ _ _ Hr Hx). cbn [mbind option_bind]. rewrite Z.gtb_ltb.
  destruct (Z.ltb_spec x v); [|destruct (Z.ltb_spec v x)].
  - apply IH; [|left; lia|lia]. split_and!; try done; try lia.
    intros i y Hi Hy. destruct (Z.eq_dec i m) as [->|]; [simplify_eq; lia|].
    assert (y < x) by (eapply sorted_lookup; [apply Hr|done|done|lia]). lia.
  - apply IH; [|left; lia|lia]. split_and!; try done; try lia.
    intros i y Hi Hy. destruct (Z.eq_dec i m) as [->|]; [simplify_eq; lia|].
    assert (x < y) by (eapply sorted_lookup; [apply Hr|done|done|lia]). lia.
  - exists min, m, x. split; [done|]. left. assert (v = x) as -> by lia. done.
Qed.

(** What the search finds: the position of the value, or the cut of the list at
    which it belongs. *)
Inductive found_at (l : list Z) (v : Z) : bool -> Z -> Prop :=
  | found_yes l1 l2 : l = l1 ++ v :: l2 -> found_at l v true (zlen l1)
  | found_no l1 l2 : l = l1 ++ l2 -> Forall (fun x => x < v) l1 -> Forall (fun x => v < x) l2 ->
      found_at l v false (zlen l1).

Lemma bracket_found l v p : bracket l v p (p - 1) -> found_at l v false p.
Proof.
  intros (H0 & _ & H2 & Hlo & Hhi).
  destruct (zsplit p l) as (l1 & l2 & -> & <- & _); [lia|].
  econstructor; [done| |]; apply Forall_lookup; intros i x Hx.
  - apply (Hlo (Z.of_nat i)). { apply lookup_lt_Some in Hx. unfold zlen. lia. }
    rewrite znth_nat, Nat2Z.id by lia. by apply lookup_app_l_Some.
  - apply (Hhi (zlen l1 + Z.of_nat i)); [lia|]. rewrite znth_app_r by lia.
    rewrite znth_nat by lia. rewrite <- Hx. f_equal. lia.
Qed.

Lemma found_lookup l v p : l.[p] = Some v -> found_at l v true p.
Proof.
  intros Hp. pose proof (znth_lt _ _ _ Hp). rewrite znth_nat in Hp by lia.
  apply list_elem_of_split_length in Hp as (l1 & l2 & -> & Hl).
  assert (p = zlen l1) as -> by (unfold zlen; lia). by econstructor.
Qed.

Lemma search_spec iset l v :
  repr iset l -> exists b p, intsetSearch iset v = Some (b, p) /\ found_at l v b p.
Proof.
  intros Hr. pose proof (repr_max _ _ Hr) as Hmax. unfold INTSET_MAX in Hmax.
  pose proof (zlen_nonneg l). unfold intsetSearch. rewrite (repr_len _ _ Hr).
  destruct (Z.eqb_spec (zlen l) 0) as [E|E].
  { exists false, 0. split; [done|]. apply zlen_0_nil in E as ->. by apply (found_no [] v [] []). }
  rewrite i32_small by lia.
  destruct (znth_is_Some l (zlen l - 1)) as [last Hlast]; [lia|].
  destruct (znth_is_Some l 0) as [first Hfirst]; [lia|].
  rewrite (repr_get _ _ _ _ Hr Hlast). cbn [mbind option_bind]. rewrite Z.gtb_ltb.
  assert (forall i x, l.[i] = Some x -> x <= last) as Hle.
  { intros i x Hx. destruct (Z.eq_dec i (zlen l - 1)) as [->|]; [simplify_eq; lia|].
    pose proof (znth_lt _ _ _ Hx). apply Z.lt_le_incl.
    eapply sorted_lookup; [apply Hr|done|done|lia]. }
  destruct (Z.ltb_spec last v).
  { exists false, (zlen l). split; [done|]. apply bracket_found. split_and!; try lia.
    - intros i x _ Hx. apply Hle in Hx. lia.
    - intros i x Hi Hx%znth_lt. lia. }
  rewrite (repr_get _ _ _ _ Hr Hfirst). cbn [mbind option_bind].
  destruct (Z.ltb_spec v first).
  { exists false, 0. split; [done|]. apply bracket_found. split_and!; try lia.
    - intros i x Hi Hx%znth_lt. lia.
    - intros i x _ Hx. destruct (Z.eq_dec i 0) as [->|]; [simplify_eq; lia|].
      pose proof (znth_lt _ _ _ Hx).
      assert (first < x) by (eapply sorted_lookup; [apply Hr|done|done|lia]). lia. }
  destruct (search_loop_spec iset l v (S (Z.to_nat (zlen l))) 0 (zlen l - 1) (-1) (-1))
    as (min & mid & cur & -> & Hres); [done| |lia|lia|].
  { split_and!; try lia; intros i x Hi Hx%znth_lt; lia. }
  cbn [mbind option_bind]. destruct Hres as [[<- Hm]|[Hne Hb]].
  - rewrite Z.eqb_refl. eexists _, _. split; [done|]. by apply found_lookup.
  - apply Z.eqb_neq in Hne as ->. eexists _, _. split; [done|]. by apply bracket_found.
Qed.

(** ** Updates *)

Section Updates.
Context `{FreshMem}.

Lemma encode_width e : enc_ok e ->
  (if e =? INTSET_ENC_INT64 then 8 else if e =? INTSET_ENC_INT32 then 4 else 2) = e.
Proof. intros [->|[->| ->]]; done. Qed.

(** The move that opens a gap of one element after [l1], and the one that
    closes it. *)
Lemma moveTail_right iset l1 l2 junk :
  enc_ok (encoding iset) -> is_length iset = zlen (l1 ++ l2) -> zlen (l1 ++ l2) <= INTSET_MAX ->
  contents iset = elems (encoding iset) (l1 ++ l2) ++ junk -> zlen junk = encoding iset ->
  exists gap, zlen gap = encoding iset /\
    intsetMoveTail iset (zlen l1) (u32 (zlen l1 + 1)) =
    Some (set_contents (elems (encoding iset) l1 ++ gap ++ elems (encoding iset) l2) iset).
Proof.
  intros He Hl Hmax Hc Hj. pose proof (enc_pos _ He). unfold INTSET_MAX in Hmax.
  rewrite zlen_app in *. pose proof (zlen_nonneg l1). pose proof (zlen_nonneg l2).
  unfold intsetMoveTail. rewrite encode_width by done. set (e := encoding iset) in *.
  rewrite Hl. u32s. unfold memmove. rewrite Hc, elems_app.
  rewrite (load_at (elems e l1) (elems e l2) junk) by (lapp || (rewrite zlen_elems; nia)).
  cbn [mbind option_bind].
  destruct (zsplit e (elems e l2 ++ junk)) as (gap & post & E & Hg & Hp).
  { rewrite zlen_app, zlen_elems; nia. }
  rewrite (store_at (elems e l1 ++ gap) post []).
  2:{ rewrite app_nil_r, <- !app_assoc. by rewrite E. }
  2:{ rewrite zlen_app, zlen_elems; nia. }
  2:{ rewrite Hp, zlen_app. lia. }
  exists gap. split; [done|]. cbn. do 2 f_equal. lapp.
Qed.

Lemma moveTail_left iset l1 x l2 :
  enc_ok (encoding iset) -> is_length iset = zlen (l1 ++ x :: l2) ->
  zlen (l1 ++ x :: l2) <= INTSET_MAX -> contents iset = elems (encoding iset) (l1 ++ x :: l2) ->
  exists junk, zlen junk = encoding iset /\
    intsetMoveTail iset (u32 (zlen l1 + 1)) (zlen l1) =
    Some (set_contents (elems (encoding iset) (l1 ++ l2) ++ junk) iset).
Proof.
  intros He Hl Hmax Hc. pose proof (enc_pos _ He). unfold INTSET_MAX in Hmax.
  rewrite zlen_app, zlen_cons in *. pose proof (zlen_nonneg l1). pose proof (zlen_nonneg l2).
  unfold intsetMoveTail. rewrite encode_width by done. set (e := encoding iset) in *.
  rewrite Hl. u32s. unfold memmove.
  rewrite Hc, !elems_app, elems_cons.
  rewrite (load_at (elems e l1 ++ le_bytes (Z.to_nat e) x) (elems e l2) []).
  2: lapp. 2,3: rewrite ?zlen_app, ?zlen_le_bytes, zlen_elems; nia.
  cbn [mbind option_bind].
  destruct (zsplit (zlen (elems e l2)) (le_bytes (Z.to_nat e) x ++ elems e l2)) as (old & junk & E & Ho & Hj).
  { rewrite zlen_app, zlen_le_bytes, zlen_elems; nia. }
  rewrite E, (store_at (elems e l1) old junk) by (done || (rewrite zlen_elems; nia)).
  exists junk. rewrite zlen_app, zlen_le_bytes in Hj. split; [lia|].
  cbn. do 2 f_equal. lapp.
Qed.

Lemma resize_grow iset l :
  enc_ok (encoding iset) -> is_length iset = zlen l -> zlen l < INTSET_MAX ->
  contents iset = elems (encoding iset) l ->
  exists junk, zlen junk = encoding iset /\
    intsetResize iset (u32 (is_length iset + 1)) =
    set_contents (elems (encoding iset) l ++ junk) iset.
Proof.
  intros He Hl Hmax Hc. pose proof (enc_pos _ He). unfold INTSET_MAX in Hmax.
  pose proof (zlen_nonneg l). unfold intsetResize. rewrite Hl. u32s.
  destruct (realloc_grow (contents iset) ((zlen l + 1) * encoding iset)) as (junk & -> & Hj & _).
  { rewrite Hc, zlen_elems; nia. }
  rewrite Hc in *. exists junk. split; [|done]. rewrite Hj, zlen_elems; nia.
Qed.

Lemma sorted_insert l1 l2 v :
  StronglySorted Z.lt (l1 ++ l2) -> Forall (fun x => x < v) l1 -> Forall (fun x => v < x) l2 ->
  StronglySorted Z.lt (l1 ++ v :: l2).
Proof.
  intros Hs H1 H2. rewrite StronglySorted_app, StronglySorted_cons in *.
  destruct Hs as (Hx & Hs1 & Hs2). split_and!; try done.
  intros x y Hx1 [->|Hy]%elem_of_cons; [|by apply Hx]. rewrite Forall_forall in H1. auto.
Qed.

Lemma valueEncoding_range v : in_s 64 v ->
  enc_ok (intsetValueEncoding v) /\ in_s (8 * intsetValueEncoding v) v.
Proof.
  unfold in_s, intsetValueEncoding, enc_ok, INTSET_ENC_INT64, INTSET_ENC_INT32, INTSET_ENC_INT16.
  change (2 ^ (64 - 1)) with 9223372036854775808. intros Hv.
  rewrite !Z.gtb_ltb. repeat (zcase; cbn [orb]); cbn; lia.
Qed.

Lemma in_s_mono e e' v : enc_ok e -> enc_ok e' -> e <= e' -> in_s (8 * e) v -> in_s (8 * e') v.
Proof.
  unfold in_s. intros [->|[->| ->]] [->|[->| ->]] ? Hv; cbn in *; lia.
Qed.

(** The non-upgrading insertion. *)
Lemma add_insert iset l1 l2 v :
  repr iset (l1 ++ l2) -> zlen (l1 ++ l2) < INTSET_MAX -> in_s (8 * encoding iset) v ->
  Forall (fun x => x < v) l1 -> Forall (fun x => v < x) l2 ->
  exists iset', (let iset := intsetResize iset (u32 (is_length iset + 1)) in
    iset ← (if zlen l1 <? is_length iset then intsetMoveTail iset (zlen l1) (u32 (zlen l1 + 1))
            else Some iset);
    iset ← intsetSet iset (zlen l1) v;
    Some (set_length (u32 (is_length iset + 1)) iset, true)) = Some (iset', true) /\
    repr iset' (l1 ++ v :: l2) /\ encoding iset' = encoding iset.
Proof.
  intros [He Hl Hm Hc Hr Hs] Hmax Hv H1 H2. pose proof (enc_pos _ He).
  destruct (resize_grow iset (l1 ++ l2)) as (junk & Hj & ->); [done..|].
  cbv zeta. change (is_length (set_contents ?c ?i)) with (is_length i). rewrite Hl.
  set (e := encoding iset) in *. unfold INTSET_MAX in *.
  pose proof (zlen_nonneg l1). pose proof (zlen_nonneg l2). rewrite zlen_app in *.
  assert (exists gap, zlen gap = e /\
    (if zlen l1 <? zlen l1 + zlen l2 then
       intsetMoveTail (set_contents (elems e (l1 ++ l2) ++ junk) iset) (zlen l1) (u32 (zlen l1 + 1))
     else Some (set_contents (elems e (l1 ++ l2) ++ junk) iset)) =
    Some (set_contents (elems e l1 ++ gap ++ elems e l2) iset)) as (gap & Hg & ->).
  { zcase.
    - destruct (moveTail_right (set_contents (elems e (l1 ++ l2) ++ junk) iset) l1 l2 junk)
        as (gap & Hgap & ->); cbn; rewrite ?zlen_app; try done; try lia.
      by exists gap.
    - rewrite (zlen_0_nil l2) by lia. exists junk. split; [done|].
      by rewrite !app_nil_r. }
  cbn [mbind option_bind].
  rewrite (set_at _ (elems e l1) gap (elems e l2));
    [|done|done|cbn; rewrite zlen_elems; fold e; lia|done].
  eexists. split; [done|]. cbn. split; [|done]. split; cbn; try done.
  - rewrite Hl, zlen_app, zlen_cons, u32_small; lia.
  - rewrite zlen_app, zlen_cons. unfold INTSET_MAX. lia.
  - by rewrite elems_app, elems_cons.
  - apply Forall_app in Hr as [Hr1 Hr2]. by apply Forall_app_2, Forall_cons.
  - by apply sorted_insert.
Qed.

Lemma upgrade_loop_spec iset cur l1 l2 mid last p :
  enc_ok cur -> enc_ok (encoding iset) -> cur < encoding iset -> 0 <= p ->
  Forall (in_s (8 * cur)) l1 ->
  contents iset = elems cur l1 ++ mid ++ elems (encoding iset) l2 ++ last ->
  zlen mid = (zlen l1 + p) * encoding iset - zlen l1 * cur ->
  exists mid', zlen mid' = p * encoding iset /\
    upgrade_loop (length l1) iset p cur =
    Some (set_contents (mid' ++ elems (encoding iset) (l1 ++ l2) ++ last) iset).
Proof.
  intros Hc He Hlt Hp. pose proof (enc_pos _ Hc). pose proof (enc_pos _ He).
  revert iset l2 mid He Hlt H1. induction l1 as [|x l1 IH] using rev_ind;
    intros iset l2 mid He Hlt H1 Hr Hcont Hm.
  { exists mid. split; [rewrite Hm; change (zlen []) with 0; lia|].
    change (elems cur []) with (@nil Z) in Hcont. cbn [app length upgrade_loop] in *.
    unfold set_contents. rewrite <- Hcont. by destruct iset. }
  apply Forall_app in Hr as [Hr [Hx _]%Forall_cons].
  rewrite elems_app, elems_cons in Hcont. change (elems cur []) with (@nil Z) in Hcont.
  rewrite length_app. cbn [length]. rewrite Nat.add_1_r. cbn [upgrade_loop].
  rewrite (getEncoded_at iset cur l1 x (mid ++ elems (encoding iset) l2 ++ last));
    [|done|done|rewrite Hcont; lapp|done].
  cbn [mbind option_bind]. pose proof (zlen_nonneg l1).
  rewrite zlen_app in Hm. change (zlen [x]) with 1 in Hm.
  destruct (zsplit ((zlen l1 + p) * encoding iset - zlen l1 * cur) (le_bytes (Z.to_nat cur) x ++ mid))
    as (mid1 & old & E & Hm1 & Ho).
  { rewrite zlen_app, zlen_le_bytes. nia. }
  rewrite zlen_app, zlen_le_bytes in Ho.
  rewrite (set_at iset (elems cur l1 ++ mid1) old (elems (encoding iset) l2 ++ last));
    [|done| |rewrite zlen_app, zlen_elems; unfold zlen in *; lia|nia].
  2:{ rewrite Hcont, app_nil_r. rewrite <- (app_assoc (elems cur l1)).
      rewrite (app_assoc (le_bytes _ x)), E. lapp. }
  cbn [mbind option_bind].
  set (iset1 := set_contents _ iset).
  destruct (IH iset1 (x :: l2) mid1) as (mid' & Hm' & ->); try done.
  { unfold iset1. cbn [contents set_contents encoding]. rewrite elems_cons. lapp. }
  exists mid'. split; [done|]. by rewrite <- app_assoc.
Qed.

(** A value that needs a wider encoding lies outside the range of the others. *)
Lemma wider_outside e v x :
  enc_ok e -> in_s 64 v -> e < intsetValueEncoding v -> in_s (8 * e) x ->
  if v <? 0 then v < x else x < v.
Proof.
  unfold in_s, intsetValueEncoding, INTSET_ENC_INT64, INTSET_ENC_INT32, INTSET_ENC_INT16.
  change (2 ^ (64 - 1)) with 9223372036854775808.
  rewrite !Z.gtb_ltb. intros [->|[->| ->]] Hv Hlt Hx; cbn in Hx;
    repeat (zcase_in Hlt; cbn [orb] in Hlt); zcase; lia.
Qed.

Lemma upgrade_spec iset l v :
  repr iset l -> zlen l < INTSET_MAX -> in_s 64 v -> encoding iset < intsetValueEncoding v ->
  exists iset', intsetUpgradeAndAdd iset v = Some iset' /\
    repr iset' (if v <? 0 then v :: l else l ++ [v]) /\ encoding iset' = intsetValueEncoding v.
Proof.
  intros [He Hl Hm Hc Hr Hs] Hmax Hv Hlt.
  destruct (valueEncoding_range v Hv) as [Hne Hnv]. set (ne := intsetValueEncoding v) in *.
  pose proof (enc_pos _ He). pose proof (enc_pos _ Hne). pose proof (zlen_nonneg l).
  unfold INTSET_MAX in *. unfold intsetUpgradeAndAdd, intsetResize. fold ne.
  cbn [is_length encoding contents set_encoding set_contents]. rewrite Hl, Hc. u32s.
  set (p := if v <? 0 then 1 else 0).
  assert (0 <= p <= 1) as Hp by (subst p; zcase; lia).
  assert (u8 (encoding iset) = encoding iset) as -> by (apply wrapu_small; unfold in_u; cbn; lia).
  destruct (realloc_grow (elems (encoding iset) l) ((zlen l + 1) * ne)) as (junk & -> & Hj & _).
  { rewrite zlen_elems; nia. }
  rewrite zlen_elems in Hj by lia.
  destruct (zsplit ((zlen l + p) * ne - zlen l * encoding iset) junk) as (mid & last & -> & Hmid & Hlast); [nia|].
  replace (Z.to_nat (zlen l)) with (length l) by (unfold zlen; lia).
  destruct (upgrade_loop_spec
    (set_contents (elems (encoding iset) l ++ mid ++ last) (set_encoding ne iset))
    (encoding iset) l [] mid last p) as (mid' & Hmid' & ->); [done|done|done|lia|done|done|done|].
  cbn [mbind option_bind encoding set_contents set_encoding is_length] in *. rewrite app_nil_r.
  assert (Forall (fun x => if v <? 0 then v < x else x < v) l) as Hout.
  { eapply Forall_impl; [exact Hr|]. intros x Hx. apply (wider_outside (encoding iset)); [done|done|lia|done]. }
  assert (Forall (in_s (8 * ne)) l) as Hr'.
  { eapply Forall_impl; [exact Hr|]. intros x Hx.
    apply (in_s_mono (encoding iset)); [done|done|lia|done]. }
  subst p. destruct (Z.ltb_spec v 0); cbn [Z.eqb negb].
  - assert (zlen last = 0) as ->%zlen_0_nil by lia. rewrite app_nil_r.
    rewrite (set_at _ [] mid' (elems ne l)); cbn; [|done|done|lia|lia].
    eexists. split; [done|]. split; [|done]. split; cbn; try done.
    + rewrite Hl, zlen_cons, u32_small; lia.
    + rewrite zlen_cons. unfold INTSET_MAX. lia.
    + by constructor.
    + by apply StronglySorted_cons.
  - assert (zlen mid' = 0) as ->%zlen_0_nil by lia. cbn [app].
    rewrite (set_at _ (elems ne l) last []);
      cbn [encoding contents set_contents set_encoding mbind option_bind]; rewrite ?app_nil_r;
      [|done|done|rewrite zlen_elems by lia; cbn [is_length]; rewrite Hl; lia|lia].
    eexists. split; [done|]. split; [|done]. split; cbn; try done.
    + rewrite Hl, zlen_app, u32_small; change (zlen [v]) with 1; lia.
    + rewrite zlen_app. unfold INTSET_MAX. change (zlen [v]) with 1. lia.
    + rewrite elems_app, elems_cons. cbn. by rewrite app_nil_r.
    + apply Forall_app_2; [done|]. by constructor.
    + apply sorted_insert; [by rewrite app_nil_r|done|constructor].
Qed.

End Updates.

(** ** The three set operations *)

Section SetOps.
Context `{FreshMem}.

Lemma in_enc_of_le iset l v :
  repr iset l -> in_s 64 v -> intsetValueEncoding v <= encoding iset -> in_s (8 * encoding iset) v.
Proof.
  intros Hr Hv Hle. destruct (valueEncoding_range v Hv) as [He Hx].
  eapply in_s_mono; [exact He|apply Hr|done|done].
Qed.

(** A value wider than the encoding is not in the set. *)
Lemma wide_not_in iset l v :
  repr iset l -> in_s 64 v -> encoding iset < intsetValueEncoding v -> v ∉ l.
Proof.
  intros Hr Hv Hlt Hin. pose proof (repr_range _ _ Hr) as HF. rewrite Forall_forall in HF.
  pose proof (wider_outside _ v v (repr_enc _ _ Hr) Hv Hlt (HF _ Hin)) as Hw.
  destruct (v <? 0); lia.
Qed.

Lemma found_at_in l v b p : found_at l v b p -> (b = true <-> v ∈ l).
Proof.
  intros [l1 l2 ->|l1 l2 -> H1 H2]; [set_solver|].
  split; [done|]. rewrite Forall_forall in H1, H2.
  intros [Hi|Hi]%elem_of_app; [apply H1 in Hi|apply H2 in Hi]; lia.
Qed.

Lemma add_spec iset l v :
  repr iset l -> zlen l < INTSET_MAX -> in_s 64 v ->
  exists iset' b l', intsetAdd iset v = Some (iset', b) /\ repr iset' l' /\
    (b = true <-> v ∉ l) /\ zlen l' <= zlen l + 1 /\ (forall x, x ∈ l' <-> x = v \/ x ∈ l).
Proof.
  intros Hr Hmax Hv. unfold intsetAdd. rewrite Z.gtb_ltb.
  destruct (Z.ltb_spec (encoding iset) (intsetValueEncoding v)).
  { destruct (upgrade_spec iset l v) as (iset' & -> & Hr' & _); try done.
    eexists _, true, _. split; [done|]. split; [exact Hr'|].
    pose proof (wide_not_in _ _ _ Hr Hv ltac:(done)).
    split; [done|]. destruct (v <? 0); (split; [len|set_solver]). }
  destruct (search_spec iset l v Hr) as (b & p & -> & Hf). cbn [mbind option_bind].
  pose proof (found_at_in _ _ _ _ Hf) as Hin. destruct Hf as [l1 l2 ->|l1 l2 -> H1 H2].
  { eexists iset, false, _. split; [done|]. split; [done|]. split; [naive_solver|]. split; [lia|set_solver]. }
  destruct (add_insert iset l1 l2 v) as (iset' & Hadd & Hr' & _); try done.
  { by eapply in_enc_of_le. }
  eexists _, true, _. split; [exact Hadd|]. split; [exact Hr'|]. split; [naive_solver|].
  split; [len|set_solver].
Qed.

Lemma sorted_delete l1 v l2 : StronglySorted Z.lt (l1 ++ v :: l2) ->
  StronglySorted Z.lt (l1 ++ l2) /\ v ∉ l1 ++ l2.
Proof.
  rewrite !StronglySorted_app, StronglySorted_cons. intros (H1 & H2 & H3 & H4). split.
  { split_and!; try done. intros x y Hx Hy. apply H1; set_solver. }
  rewrite Forall_forall in H3. intros [Hi|Hi]%elem_of_app; [|apply H3 in Hi; lia].
  assert (v < v) by (apply H1; set_solver). lia.
Qed.

(** The state after the tail moved: the elements without [v], then one stale
    element that the resize cuts off. *)
Lemma remove_spec iset l v :
  repr iset l -> in_s 64 v ->
  exists iset' b l', intsetRemove iset v = Some (iset', b) /\ repr iset' l' /\
    (b = true <-> v ∈ l) /\ zlen l' <= zlen l /\ (forall x, x ∈ l' <-> x <> v /\ x ∈ l).
Proof.
  intros Hr Hv. unfold intsetRemove.
  assert (v ∉ l -> exists iset' b l', Some (iset, false) = Some (iset', b) /\ repr iset' l' /\
    (b = true <-> v ∈ l) /\ zlen l' <= zlen l /\ (forall x, x ∈ l' <-> x <> v /\ x ∈ l)) as Habsent.
  { intros Hni. exists iset, false, l. split; [done|]. split; [done|]. split; [done|].
    split; [lia|set_solver]. }
  destruct (Z.leb_spec (intsetValueEncoding v) (encoding iset)).
  2:{ apply Habsent. by eapply wide_not_in. }
  destruct (search_spec iset l v Hr) as (b & p & -> & Hf). cbn [mbind option_bind].
  pose proof (found_at_in _ _ _ _ Hf) as Hin. destruct Hf as [l1 l2 ->|l1 l2 -> H1 H2].
  2:{ apply Habsent. naive_solver. }
  clear Habsent. destruct Hr as [He Hl Hm Hc Hr Hs]. pose proof (enc_pos _ He).
  unfold INTSET_MAX in *. pose proof (zlen_nonneg l1). pose proof (zlen_nonneg l2).
  rewrite zlen_app, zlen_cons in *.
  assert (exists junk, (if zlen l1 <? u32 (is_length iset - 1)
      then intsetMoveTail iset (u32 (zlen l1 + 1)) (zlen l1) else Some iset) =
    Some (set_contents (elems (encoding iset) (l1 ++ l2) ++ junk) iset)) as (junk & ->).
  { rewrite Hl. u32s. destruct (Z.ltb_spec (zlen l1) (zlen l1 + (1 + zlen l2) - 1)).
    - destruct (moveTail_left iset l1 v l2) as (junk & _ & Em);
        rewrite ?zlen_app, ?zlen_cons; try done. exists junk. rewrite <- Em. f_equal. u32s. done.
    - assert (zlen l2 = 0) as ->%zlen_0_nil by lia.
      exists (le_bytes (Z.to_nat (encoding iset)) v). f_equal.
      rewrite elems_app, elems_cons in Hc. rewrite app_nil_r.
      change (elems _ []) with (@nil Z) in Hc. rewrite app_nil_r in Hc.
      unfold set_contents. rewrite <- Hc. by destruct iset. }
  cbn [mbind option_bind]. rewrite Hl.
  destruct (sorted_delete l1 v l2 Hs) as [Hs' Hni].
  eexists _, true, (l1 ++ l2). split; [done|]. split; [|split; [|split]].
  - unfold intsetResize. split; cbn; try done.
    + rewrite zlen_app. u32s. lia.
    + rewrite zlen_app. unfold INTSET_MAX. lia.
    + u32s. rewrite realloc_shrink.
      * apply ztake_app_l. rewrite zlen_elems, zlen_app; lia.
      * rewrite zlen_app, zlen_elems, zlen_app by lia. pose proof (zlen_nonneg junk). lia.
    + apply Forall_app in Hr as [Hr1 [_ Hr2]%Forall_cons]. by apply Forall_app_2.
  - set_solver.
  - rewrite zlen_app. lia.
  - set_solver.
Qed.

Lemma find_spec iset l v :
  repr iset l -> in_s 64 v -> exists b, intsetFind iset v = Some b /\ (b = true <-> v ∈ l).
Proof.
  intros Hr Hv. unfold intsetFind.
  destruct (Z.leb_spec (intsetValueEncoding v) (encoding iset)).
  - destruct (search_spec iset l v Hr) as (b & p & -> & Hf). exists b. split; [done|].
    by eapply found_at_in.
  - exists false. split; [done|]. split; [done|]. intros Hin. by eapply wide_not_in in Hin.
Qed.

Lemma new_repr : repr intsetNew [].
Proof.
  split; cbn; try done; try (by left); constructor.
Qed.

End SetOps.

(** ** Properties *)

(** The commands of a client and the abstract set they act on: the answers are
    the [success] flag of an insertion or removal and the result of a lookup. *)
Inductive set_op := OpAdd (v : Z) | OpRemove (v : Z) | OpFind (v : Z).

Definition op_value (o : set_op) : Z := match o with OpAdd v | OpRemove v | OpFind v => v end.

Definition abs_step (s : gset Z) (o : set_op) : gset Z * bool :=
  match o with
  | OpAdd v => ({[v]} ∪ s, bool_decide (v ∉ s))
  | OpRemove v => (s ∖ {[v]}, bool_decide (v ∈ s))
  | OpFind v => (s, bool_decide (v ∈ s))
  end.

Fixpoint abs_run (s : gset Z) (ops : list set_op) : gset Z * list bool :=
  match ops with
  | [] => (s, [])
  | o :: ops =>
      let '(s, b) := abs_step s o in
      let '(s, bs) := abs_run s ops in (s, b :: bs)
  end.

Definition intset_step `{FreshMem} (iset : intset) (o : set_op) : option (intset * bool) :=
  match o with
  | OpAdd v => intsetAdd iset v
  | OpRemove v => intsetRemove iset v
  | OpFind v => b ← intsetFind iset v; Some (iset, b)
  end.

Fixpoint intset_run `{FreshMem} (iset : intset) (ops : list set_op) : option (intset * list bool) :=
  match ops with
  | [] => Some (iset, [])
  | o :: ops =>
      '(iset, b) ← intset_step iset o;
      '(iset, bs) ← intset_run iset ops; Some (iset, b :: bs)
  end.

Section Refinement.
Context `{FreshMem}.

(** A block represents a finite set. *)
Definition repr_set (iset : intset) (s : gset Z) (n : Z) : Prop :=
  exists l, repr iset l /\ zlen l <= n /\ forall x, x ∈ l <-> x ∈ s.

Lemma bool_iff_decide (b : bool) (P : Prop) `{Decision P} : (b = true <-> P) -> b = bool_decide P.
Proof. intros E. apply eq_true_iff_eq. by rewrite bool_decide_eq_true. Qed.

Lemma step_refines iset s n o :
  repr_set iset s n -> in_s 64 (op_value o) -> n < INTSET_MAX ->
  exists iset', intset_step iset o = Some (iset', (abs_step s o).2) /\
    repr_set iset' (abs_step s o).1 (n + 1).
Proof.
  intros (l & Hr & Hn & Hs) Hv Hmax. destruct o as [v|v|v]; cbn in *.
  - destruct (add_spec iset l v) as (iset' & b & l' & -> & Hr' & Hb & Hlen & Hl'); [done|lia|done|].
    exists iset'. rewrite Hs in Hb. rewrite (bool_iff_decide b (v ∉ s)) by done.
    split; [done|]. exists l'. split; [done|]. split; [lia|]. set_solver.
  - destruct (remove_spec iset l v) as (iset' & b & l' & -> & Hr' & Hb & Hlen & Hl'); [done|done|].
    exists iset'. rewrite Hs in Hb. rewrite (bool_iff_decide b (v ∈ s)) by done.
    split; [done|]. exists l'. split; [done|]. split; [lia|]. set_solver.
  - destruct (find_spec iset l v) as (b & -> & Hb); [done|done|]. cbn.
    exists iset. rewrite Hs in Hb. rewrite (bool_iff_decide b (v ∈ s)) by done.
    split; [done|]. exists l. split; [done|]. split; [lia|done].
Qed.

Lemma run_refines ops iset s n :
  repr_set iset s n -> Forall (fun o => in_s 64 (op_value o)) ops -> n + zlen ops <= INTSET_MAX ->
  exists iset', intset_run iset ops = Some (iset', (abs_run s ops).2) /\
    repr_set iset' (abs_run s ops).1 (n + zlen ops).
Proof.
  revert iset s n. induction ops as [|o ops IH]; intros iset s n Hr Hv Hmax.
  { exists iset. split; [done|]. cbn. by rewrite Z.add_0_r. }
  apply Forall_cons in Hv as [Hv Hvs]. rewrite zlen_cons in *. pose proof (zlen_nonneg ops).
  destruct (step_refines iset s n o) as (iset1 & Hstep & Hr1); [done|done|lia|].
  cbn [intset_run abs_run]. rewrite Hstep. cbn [mbind option_bind].
  destruct (abs_step s o) as [s1 b]. cbn [fst snd] in *.
  destruct (IH iset1 s1 (n + 1)) as (iset' & -> & Hr'); [done|done|lia|].
  destruct (abs_run s1 ops) as [s2 bs]. cbn [fst snd mbind option_bind] in *.
  exists iset'. split; [done|]. by replace (n + (1 + zlen ops)) with (n + 1 + zlen ops) by lia.
Qed.

End Refinement.

(** C23. intset.c refines a finite set of 64 bit integers: any sequence of
    insertions, removals and lookups, run from the empty intset, accesses no
    byte outside its block, gives the answers of the mathematical set, and ends
    in a block that holds exactly its elements, strictly sorted and in an
    encoding wide enough for all of them.  The sequence is bounded so that the
    block size fits the 32 bit arithmetic of intsetResize. *)
Theorem intset_refines_set `{FreshMem} ops :
  Forall (fun o => in_s 64 (op_value o)) ops -> zlen ops <= INTSET_MAX ->
  exists iset l, intset_run intsetNew ops = Some (iset, (abs_run ∅ ops).2) /\
    repr iset l /\ forall x, x ∈ l <-> x ∈ (abs_run ∅ ops).1.
Proof.
  intros Hv Hmax. destruct (run_refines ops intsetNew ∅ 0) as (iset & -> & l & Hr & _ & Hl);
    [|done|lia|by exists iset, l].
  exists []. split; [apply new_repr|]. split; [done|]. set_solver.
Qed.

Definition demo_ops : list set_op :=
  [OpAdd 5; OpAdd 70000; OpAdd 5; OpAdd (-5000000000); OpFind 70000; OpRemove 5; OpFind 5].

Lemma intset_refines_set_witness :
  exists iset l, intset_run intsetNew demo_ops = Some (iset, [true; true; false; true; true; true; false]) /\
    repr iset l /\ forall x, x ∈ l <-> x ∈ (abs_run ∅ demo_ops).1.
Proof.
  refine (intset_refines_set demo_ops _ _).
  - repeat constructor; vm_compute; congruence.
  - vm_compute. congruence.
Defined.

(** The search returns the index of a present value; for an absent one it
    returns the index at which inserting it keeps the elements sorted. *)
Theorem intsetSearch_position iset l v :
  repr iset l ->
  exists b p l1 l2, intsetSearch iset v = Some (b, p) /\ p = zlen l1 /\
    ((b = true /\ l = l1 ++ v :: l2) \/
     (b = false /\ l = l1 ++ l2 /\ StronglySorted Z.lt (l1 ++ v :: l2))).
Proof.
  intros Hr. destruct (search_spec iset l v Hr) as (b & p & -> & [l1 l2 ->|l1 l2 -> H1 H2]).
  - by exists true, (zlen l1), l1, l2; auto.
  - exists false, (zlen l1), l1, l2. split; [done|]. split; [done|]. right.
    split; [done|]. split; [done|]. apply sorted_insert; [apply Hr|done|done].
Qed.

Definition demo_set : intset := mk_intset 2 3 (elems 2 [-7; 10; 300]).

Lemma demo_set_repr : repr demo_set [-7; 10; 300].
Proof.
  split; [by left|done|vm_compute; congruence|done| |].
  - repeat constructor; vm_compute; congruence.
  - repeat constructor.
Qed.

Lemma intsetSearch_position_witness :
  exists b p l1 l2, intsetSearch demo_set 11 = Some (b, p) /\ p = zlen l1 /\
    ((b = true /\ [-7; 10; 300] = l1 ++ 11 :: l2) \/
     (b = false /\ [-7; 10; 300] = l1 ++ l2 /\ StronglySorted Z.lt (l1 ++ 11 :: l2))).
Proof. exact (intsetSearch_position demo_set [-7; 10; 300] 11 demo_set_repr). Defined.

(** Reading the set by position with intsetGet returns the elements in
    increasing order and answers every position outside the set with 0. *)
Theorem intsetGet_in_order iset l pos :
  repr iset l -> 0 <= pos ->
  intsetGet iset pos = Some (l.[pos]) /\
  (forall v w, intsetGet iset pos = Some (Some v) -> intsetGet iset (pos + 1) = Some (Some w) -> v < w).
Proof.
  intros Hr Hpos.
  assert (forall p, 0 <= p -> intsetGet iset p = Some (l.[p])) as Hget.
  { intros p Hp. unfold intsetGet. rewrite (repr_len _ _ Hr). zcase.
    - destruct (znth_is_Some l p) as [x Hx]; [lia|]. by rewrite (repr_get _ _ _ _ Hr Hx), Hx.
    - rewrite znth_nat by lia. rewrite lookup_ge_None_2; [done|]. unfold zlen in *. lia. }
  split; [by apply Hget|]. rewrite !Hget by lia. intros v w [= Hv] [= Hw].
  eapply sorted_lookup; [apply Hr|exact Hv|exact Hw|lia].
Qed.

Lemma intsetGet_in_order_witness :
  intsetGet demo_set 1 = Some (Some 10) /\
  (forall v w, intsetGet demo_set 1 = Some (Some v) -> intsetGet demo_set 2 = Some (Some w) -> v < w).
Proof. exact (intsetGet_in_order demo_set [-7; 10; 300] 1 demo_set_repr ltac:(lia)). Defined.

(** C39. The block size is computed in 32 bits: growing a set of 64 bit elements
    to 2^29 elements asks for a block of 0 bytes, so the element that
    intsetAdd writes next lies outside it. *)
Theorem intsetResize_wraps `{FreshMem} c n v :
  zlen (contents (intsetResize (mk_intset INTSET_ENC_INT64 n c) (2 ^ 29))) = 0 /\
  intsetSet (intsetResize (mk_intset INTSET_ENC_INT64 n c) (2 ^ 29)) (2 ^ 29 - 1) v = None.
Proof.
  unfold intsetResize. cbn [encoding set_contents contents].
  assert (u32 (2 ^ 29 * INTSET_ENC_INT64) = 0) as -> by done.
  pose proof (zlen_realloc c 0 ltac:(lia)) as E. split; [done|].
  rewrite set_eq by (by right; right). cbn [contents set_contents encoding].
  unfold store. rewrite E, zlen_le_bytes. done.
Qed.
