(* ===== verification/Lzf.v ===== *)
(** LZF compression: lzf_c.c and lzf_d.c.

    The model of the compressor and of the decompressor on blocks of bytes, the
    format between them as a list of tokens, and the lemmas of both directions.
    The properties are at the end: round trip, safety of the decompressor on any
    input and the size of the output. *)
From stdpp Require Import base list functions.
From Stdlib Require Import ZArith Lia.
From S2P Require Import Prelude.

Definition HLOG : Z := 16.
Definition HSIZE : Z := Z.shiftl 1 HLOG.
Definition MAX_LIT : Z := Z.shiftl 1 5.
Definition MAX_OFF : Z := Z.shiftl 1 13.
Definition MAX_REF : Z := Z.shiftl 1 8 + Z.shiftl 1 3.

(** ** The compressor *)

(** The hash table holds offsets from [in_data]; its initial contents are
    whatever the stack holds. *)
Abbreviation LZF_STATE := (Z -> Z).

Definition FRST (b : bytes) (p : Z) : option Z :=
  x ← b.[p]; y ← b.[p + 1]; Some (Z.lor (Z.shiftl x 8) y).
Definition NEXT (v : Z) (b : bytes) (p : Z) : option Z :=
  z ← b.[p + 2]; Some (Z.lor (u32 (Z.shiftl v 8)) z).
Definition IDX (h : Z) : Z := Z.land (u32 (Z.shiftr h (3 * 8 - HLOG) - u32 (h * 5))) (HSIZE - 1).

(** [*(u16 * )(b+p)] *)
Definition u16_at (b : bytes) (p : Z) : option Z :=
  x ← b.[p]; y ← b.[p + 1]; Some (x + 256 * y).

(** The locals of the loop: input and output position, length of the literal
    run, hash value, output block and hash table. *)
Record lzf := mk_lzf {
  ip : Z; op : Z; lit : Z; hval : Z; out : bytes; htab : LZF_STATE
}.

(** The test whether [ref] starts a match for [ip]. *)
Definition is_match (b : bytes) (ref ip off : Z) : option bool :=
  if (off <? MAX_OFF) && (ref >? 0) then
    r2 ← b.[ref + 2]; i2 ← b.[ip + 2];
    if r2 =? i2 then r ← u16_at b ref; i ← u16_at b ip; Some (r =? i) else Some false
  else Some false.

(** [len++; if (ref[len] != ip[len]) break;], [n] times. *)
Fixpoint unrolled (n : nat) (b : bytes) (ref ip len : Z) : option (Z * bool) :=
  match n with
  | O => Some (len, false)
  | S n =>
      let len := len + 1 in
      x ← b.[ref + len]; y ← b.[ip + len];
      if negb (x =? y) then Some (len, true) else unrolled n b ref ip len
  end.

(** [do len++; while (len < maxlen && ref[len] == ip[len]);] *)
Fixpoint match_loop (fuel : nat) (b : bytes) (ref ip len maxlen : Z) : option Z :=
  match fuel with
  | O => None
  | S fuel =>
      let len := len + 1 in
      if len <? maxlen then
        x ← b.[ref + len]; y ← b.[ip + len];
        if x =? y then match_loop fuel b ref ip len maxlen else Some len
      else Some len
  end.

Definition match_len (b : bytes) (ref ip maxlen : Z) : option Z :=
  '(len, broke) ← (if maxlen >? 16 then unrolled 16 b ref ip 2 else Some (2, false));
  if (broke : bool) then Some len else match_loop (S (Z.to_nat maxlen)) b ref ip len maxlen.

(** [op [- lit - 1] = lit - 1;] and [op -= !lit;] *)
Definition stop_run (out : bytes) (op lit : Z) : option bytes := store out (op - lit - 1) [u8 (lit - 1)].
Definition no_run (lit : Z) : Z := if lit =? 0 then 1 else 0.

(** The bytes of a back reference. *)
Definition put_ref (out : bytes) (op off len : Z) : option (bytes * Z) :=
  '(out, op) ← (if len <? 7 then
      out ← store out op [u8 (Z.shiftr off 8 + Z.shiftl len 5)]; Some (out, op + 1)
    else
      out ← store out op [u8 (Z.shiftr off 8 + Z.shiftl 7 5)];
      out ← store out (op + 1) [u8 (len - 7)]; Some (out, op + 2));
  out ← store out op [u8 off]; Some (out, op + 1).

(** [lit++; *op++ = *ip++;] and the end of a run of [MAX_LIT] bytes. *)
Definition put_lit (b : bytes) (s : lzf) : option lzf :=
  x ← b.[ip s];
  out ← store (out s) (op s) [x];
  let lit := lit s + 1 in
  let op := op s + 1 in
  if lit =? MAX_LIT then
    out ← stop_run out op lit; Some (mk_lzf (ip s + 1) (op + 1) 0 (hval s) out (htab s))
  else Some (mk_lzf (ip s + 1) op lit (hval s) out (htab s)).

(** A match of [ref]: [inl] is [return 0], the flag says whether the loop goes on. *)
Definition put_match (b : bytes) (in_len out_len : Z) (s : lzf) (ref off : Z) : option (bytes + (lzf * bool)) :=
  let maxlen := u32 (in_len - ip s - 2) in
  let maxlen := if maxlen >? MAX_REF then MAX_REF else maxlen in
  if (op s + 3 + 1 >=? out_len) && (op s - no_run (lit s) + 3 + 1 >=? out_len) then Some (inl (out s)) else
  out ← stop_run (out s) (op s) (lit s);
  let op := op s - no_run (lit s) in
  len ← match_len b ref (ip s) maxlen;
  let len := len - 2 in
  let ip := ip s + 1 in
  '(out, op) ← put_ref out op off len;
  let op := op + 1 in
  let ip := ip + (len + 1) in
  if ip >=? in_len - 2 then Some (inr (mk_lzf ip op 0 (hval s) out (htab s), false)) else
  let ip := ip - 1 in
  let ip := ip - 1 in
  hval ← FRST b ip;
  hval ← NEXT hval b ip;
  let htab := <[IDX hval := u32 ip]> (htab s) in
  let ip := ip + 1 in
  hval ← NEXT hval b ip;
  let htab := <[IDX hval := u32 ip]> htab in
  let ip := ip + 1 in
  Some (inr (mk_lzf ip op 0 hval out htab, true)).

(** The body of [while (ip < in_end - 2)]. *)
Definition compress_step (b : bytes) (in_len out_len : Z) (s : lzf) : option (bytes + (lzf * bool)) :=
  hval ← NEXT (hval s) b (ip s);
  let slot := IDX hval in
  let ref := htab s slot in
  let htab := <[slot := u32 (ip s)]> (htab s) in
  let s := mk_lzf (ip s) (op s) (lit s) hval (out s) htab in
  let off := u64 (ip s - ref - 1) in
  m ← is_match b ref (ip s) off;
  if (m : bool) then put_match b in_len out_len s ref off
  else if op s >=? out_len then Some (inl (out s))
  else s ← put_lit b s; Some (inr (s, true)).

Fixpoint compress_loop (fuel : nat) (b : bytes) (in_len out_len : Z) (s : lzf) : option (bytes + lzf) :=
  match fuel with
  | O => None
  | S fuel =>
      if ip s <? in_len - 2 then
        r ← compress_step b in_len out_len s;
        match r with
        | inl out => Some (inl out)
        | inr (s, true) => compress_loop fuel b in_len out_len s
        | inr (s, false) => Some (inr s)
        end
      else Some (inr s)
  end.

Fixpoint tail_loop (fuel : nat) (b : bytes) (in_len : Z) (s : lzf) : option lzf :=
  match fuel with
  | O => None
  | S fuel => if ip s <? in_len then s ← put_lit b s; tail_loop fuel b in_len s else Some s
  end.

(** The result is the output block and the returned length.  Every iteration
    advances the input, which bounds the number of iterations. *)
Definition lzf_compress (b : bytes) (in_len : Z) (out_data : bytes) (out_len : Z) (htab0 : LZF_STATE)
    : option (bytes * Z) :=
  if (in_len =? 0) || (out_len =? 0) then Some (out_data, 0) else
  hval ← FRST b 0;
  r ← compress_loop (S (Z.to_nat in_len)) b in_len out_len (mk_lzf 0 1 0 hval out_data htab0);
  match r with
  | inl out => Some (out, 0)
  | inr s =>
      if op s + 3 >? out_len then Some (out s, 0) else
      s ← tail_loop (S (Z.to_nat in_len)) b in_len s;
      out ← stop_run (out s) (op s) (lit s);
      Some (out, op s - no_run (lit s))
  end.

(** ** The decompressor *)

Inductive errno := E2BIG | EINVAL.

(** [*op++ = *ref++;], [n] times, inside the output block. *)
Fixpoint copy_octets (n : nat) (out : bytes) (op ref : Z) : option bytes :=
  match n with
  | O => Some out
  | S n => x ← out.[ref]; out ← store out op [x]; copy_octets n out (op + 1) (ref + 1)
  end.

(** The switch that copies a back reference of [len + 2] bytes. *)
Definition copy_ref (out : bytes) (op ref len : Z) : option bytes :=
  if len <=? 9 then copy_octets (Z.to_nat (len + 2)) out op ref
  else
    let len := len + 2 in
    if op >=? ref + len then bs ← load out ref len; store out op bs
    else copy_octets (Z.to_nat len) out op ref.

(** One control byte: [inl] is an error return, [inr] the new positions. *)
Definition decompress_step (b : bytes) (in_len : Z) (out : bytes) (out_len ip op : Z)
    : option (errno + (bytes * Z * Z)) :=
  ctrl ← b.[ip];
  let ip := ip + 1 in
  if ctrl <? Z.shiftl 1 5 then
    let ctrl := ctrl + 1 in
    if op + ctrl >? out_len then Some (inl E2BIG) else
    if ip + ctrl >? in_len then Some (inl EINVAL) else
    bs ← load b ip ctrl;
    out ← store out op bs;
    Some (inr (out, ip + ctrl, op + ctrl))
  else
    let len := Z.shiftr ctrl 5 in
    let ref := op - Z.shiftl (Z.land ctrl 31) 8 - 1 in
    if ip >=? in_len then Some (inl EINVAL) else
    '(len, ip) ← (if len =? 7 then x ← b.[ip]; Some (len + x, ip + 1) else Some (len, ip));
    if ip >=? in_len then Some (inl EINVAL) else (* tested again only after the length byte *)
    y ← b.[ip];
    let ref := ref - y in
    let ip := ip + 1 in
    if op + len + 2 >? out_len then Some (inl E2BIG) else
    if ref <? 0 then Some (inl EINVAL) else
    out ← copy_ref out op ref len;
    Some (inr (out, ip, op + (len + 2))).

(** The do-while loop; the result is the block, the returned length and errno
    when the call sets it. *)
Fixpoint decompress_loop (fuel : nat) (b : bytes) (in_len : Z) (out : bytes) (out_len ip op : Z)
    : option (bytes * Z * option errno) :=
  match fuel with
  | O => None
  | S fuel =>
      r ← decompress_step b in_len out out_len ip op;
      match r with
      | inl e => Some (out, 0, Some e)
      | inr (out, ip, op) =>
          if ip <? in_len then decompress_loop fuel b in_len out out_len ip op else Some (out, op, None)
      end
  end.

Definition lzf_decompress (b : bytes) (in_len : Z) (out_data : bytes) (out_len : Z)
    : option (bytes * Z * option errno) :=
  decompress_loop (S (Z.to_nat in_len)) b in_len out_data out_len 0 0.

(** ** The format *)

(** A compressed block is a sequence of literal runs and of back references,
    which repeat [len + 2] bytes from [off + 1] bytes back. *)
Inductive token := Lit (l : bytes) | Ref (off len : Z).

Definition tok_bytes (t : token) : bytes :=
  match t with
  | Lit l => zlen l - 1 :: l
  | Ref off len =>
      if len <? 7 then [off / 256 + len * 32; off mod 256] else [off / 256 + 224; len - 7; off mod 256]
  end.

Fixpoint copy_back (n : nat) (D : bytes) (off : Z) : option bytes :=
  match n with
  | O => Some D
  | S n => x ← D.[zlen D - off - 1]; copy_back n (D ++ [x]) off
  end.

Definition tok_expand (D : bytes) (t : token) : option bytes :=
  match t with
  | Lit l => if (1 <=? zlen l) && (zlen l <=? 32) then Some (D ++ l) else None
  | Ref off len =>
      if (0 <=? off) && (off <? 8192) && (1 <=? len) && (len <=? 262)
      then copy_back (Z.to_nat (len + 2)) D off else None
  end.

Fixpoint expand (D : bytes) (ts : list token) : option bytes :=
  match ts with
  | [] => Some D
  | t :: ts => D ← tok_expand D t; expand D ts
  end.

Definition stream (ts : list token) : bytes := concat (tok_bytes <$> ts).

Lemma stream_app ts ts' : stream (ts ++ ts') = stream ts ++ stream ts'.
Proof. unfold stream. by rewrite fmap_app, concat_app. Qed.
Lemma stream_1 t : stream [t] = tok_bytes t.
Proof. unfold stream. cbn. apply app_nil_r. Qed.

Lemma expand_app ts : forall D ts', expand D (ts ++ ts') = D' ← expand D ts; expand D' ts'.
Proof.
  induction ts as [|t ts IH]; intros D ts'; [done|]. cbn [expand app]. destruct (tok_expand D t); [|done]. apply IH.
Qed.

Lemma zlen_copy_back n : forall D off D', copy_back n D off = Some D' -> zlen D' = zlen D + Z.of_nat n.
Proof.
  induction n as [|n IH]; intros D off D'; cbn [copy_back]; [intros [= ->]; lia|].
  destruct (znth _ _); [|done]. cbn [mbind option_bind]. intros ->%IH. len.
Qed.

Lemma zlen_tok t D D' : tok_expand D t = Some D' -> zlen D < zlen D' /\ 2 <= zlen (tok_bytes t).
Proof.
  destruct t as [l|off len]; cbn [tok_expand tok_bytes].
  - destruct (_ && _) eqn:E; [|done]. intros [= <-]. lia || len.
  - destruct (_ && _) eqn:E; [|done]. intros Hc%zlen_copy_back. destruct (len <? 7); len.
Qed.

(** Copying back from a prefix of [b] extends the prefix while [b] repeats itself. *)
Lemma copy_back_prefix (b : bytes) p r n : 0 <= r < p -> p + Z.of_nat n <= zlen b ->
  (forall k, 0 <= k < Z.of_nat n -> b.[r + k] = b.[p + k]) ->
  copy_back n (ztake p b) (p - r - 1) = Some (ztake (p + Z.of_nat n) b).
Proof.
  revert p r. induction n as [|n IH]; intros p r Hr Hp Hm; cbn [copy_back].
  { do 2 f_equal. lia. }
  rewrite zlen_ztake by lia. replace (p - (p - r - 1) - 1) with r by lia. rewrite znth_ztake by lia.
  pose proof (Hm 0 ltac:(lia)) as H0. rewrite !Z.add_0_r in H0. rewrite H0.
  destruct (znth_is_Some b p ltac:(lia)) as [x Ex]. rewrite Ex. cbn [mbind option_bind].
  assert (ztake p b ++ [x] = ztake (p + 1) b) as ->.
  { rewrite znth_nat in Ex by lia. unfold ztake. replace (Z.to_nat (p + 1)) with (S (Z.to_nat p)) by lia.
    symmetry. by apply take_S_r. }
  replace (p - r - 1) with (p + 1 - (r + 1) - 1) by lia. rewrite IH; [do 2 f_equal; lia|lia|lia|].
  intros k Hk. replace (r + 1 + k) with (r + (k + 1)) by lia. replace (p + 1 + k) with (p + (k + 1)) by lia.
  apply Hm. lia.
Qed.

(** ** The decompressor reads the format *)

Lemma copy_octets_spec n : forall D R off D', copy_back n D off = Some D' -> Z.of_nat n <= zlen R ->
  copy_octets n (D ++ R) (zlen D) (zlen D - off - 1) = Some (D' ++ zdrop (Z.of_nat n) R).
Proof.
  induction n as [|n IH]; intros D R off D'; cbn [copy_back copy_octets].
  { intros [= ->] _. by rewrite zdrop_0. }
  destruct (znth D _) as [x|] eqn:E; [|done]. cbn [mbind option_bind]. intros Hc HR.
  pose proof (znth_lt _ _ _ E). rewrite znth_app_l, E by lia. cbn [mbind option_bind].
  destruct R as [|y R]; [rewrite zlen_nil in HR; lia|]. rewrite store_1 by done. cbn [mbind option_bind].
  rewrite zlen_cons in HR. pose proof (IH (D ++ [x]) R off D' Hc ltac:(lia)) as IH'.
  rewrite zlen_app, <- app_assoc in IH'. change (zlen [x]) with 1 in IH'. cbn [app] in IH'.
  replace (zlen D - off - 1 + 1) with (zlen D + 1 - off - 1) by lia. rewrite IH'. do 2 f_equal.
  unfold zdrop. by replace (Z.to_nat (Z.of_nat (S n))) with (S (Z.to_nat (Z.of_nat n))) by lia.
Qed.

(** A reference that does not overlap its copy is one block. *)
Lemma copy_back_block n : forall D off, Z.of_nat n <= off + 1 -> off < zlen D ->
  copy_back n D off = Some (D ++ ztake (Z.of_nat n) (zdrop (zlen D - off - 1) D)).
Proof.
  induction n as [|n IH]; intros D off Hn Ho; cbn [copy_back]; [by rewrite ztake_0, app_nil_r by lia|].
  destruct (znth_is_Some D (zlen D - off - 1) ltac:(lia)) as [x Ex]. rewrite Ex. cbn [mbind option_bind].
  rewrite IH by len. f_equal. rewrite <- app_assoc. f_equal. cbn [app].
  set (p := zlen D - off - 1) in *. rewrite zlen_app. change (zlen [x]) with 1.
  replace (zlen D + 1 - off - 1) with (p + 1) by (subst p; lia).
  rewrite zdrop_app_le, ztake_app_le by (subst p; len).
  rewrite znth_nat in Ex by lia. unfold zdrop, ztake. rewrite (drop_S D x (Z.to_nat p)) by done.
  replace (Z.to_nat (Z.of_nat (S n))) with (S (Z.to_nat (Z.of_nat n))) by lia. cbn [take].
  by replace (Z.to_nat (p + 1)) with (S (Z.to_nat p)) by lia.
Qed.

Lemma copy_ref_spec D R off len D' : copy_back (Z.to_nat (len + 2)) D off = Some D' -> 0 <= off < zlen D -> 0 <= len ->
  len + 2 <= zlen R -> copy_ref (D ++ R) (zlen D) (zlen D - off - 1) len = Some (D' ++ zdrop (len + 2) R).
Proof.
  intros Hc Ho Hl HR. pose proof (copy_octets_spec _ D R off D' Hc ltac:(lia)) as Hs. rewrite Z2Nat.id in Hs by lia.
  unfold copy_ref. destruct (len <=? 9); [done|]. rewrite Z.geb_leb.
  destruct (Z.leb_spec (zlen D - off - 1 + (len + 2)) (zlen D)); [|done].
  rewrite copy_back_block in Hc by lia. rewrite Z2Nat.id in Hc by lia. injection Hc as <-.
  rewrite load_Some by len. cbn [mbind option_bind].
  rewrite zdrop_app_le, ztake_app_le by len. set (bs := ztake _ _).
  assert (zlen bs = len + 2) as Hbs by (subst bs; rewrite zlen_ztake; rewrite ?zlen_zdrop; lia).
  destruct (zsplit (len + 2) R ltac:(lia)) as (R1 & R2 & -> & H1 & _). rewrite zdrop_app_r by done.
  rewrite store_app by len. lapp.
Qed.

Lemma ctrl_bits a k : 0 <= a < 32 -> 0 <= k < 8 ->
  Z.shiftr (a + k * 32) 5 = k /\ Z.land (a + k * 32) 31 = a.
Proof.
  intros Ha Hk. change 31 with (Z.ones 5). rewrite Z.land_ones, Z.shiftr_div_pow2 by lia. change (2 ^ 5) with 32.
  rewrite Z.div_add, Z.mod_add, Z.div_small, Z.mod_small by lia. lia.
Qed.

(** One token: it is read from [ip] and expanded at [op]. *)
Lemma decompress_token b P t Q in_len D R D' out_len :
  b = P ++ tok_bytes t ++ Q -> zlen P + zlen (tok_bytes t) <= in_len -> tok_expand D t = Some D' ->
  zlen D' <= out_len <= zlen (D ++ R) ->
  decompress_step b in_len (D ++ R) out_len (zlen P) (zlen D) =
    Some (inr (D' ++ zdrop (zlen D' - zlen D) R, zlen P + zlen (tok_bytes t), zlen D')).
Proof.
  intros Hb Hin Hexp Hout. unfold decompress_step. change (Z.shiftl 1 5) with 32. destruct t as [l|off len]; cbn [tok_expand tok_bytes] in *.
  - destruct (_ && _) eqn:E in Hexp; [|done]. injection Hexp as <-. 
    rewrite (znth_at P (zlen l - 1) (l ++ Q) b (zlen P)); [|subst b; lapp|done]. cbn [mbind option_bind]. rewrite zlen_cons in *. rewrite !zlen_app in *.
    zbool. rewrite (load_at (P ++ [zlen l - 1]) l Q); [|subst b; lapp|len|lia]. cbn [mbind option_bind].
    destruct (zsplit (zlen l) R ltac:(lia)) as (R1 & R2 & -> & H1 & _). rewrite store_app by lia. cbn [mbind option_bind].
    rewrite zdrop_app_r by lia. rewrite app_assoc. do 4 f_equal; lia.
  - destruct (_ && _) eqn:E in Hexp; [|done]. pose proof (zlen_copy_back _ _ _ _ Hexp) as Hlen. rewrite Z2Nat.id in Hlen by lia.
    assert (off < zlen D) as Hoff.
    { replace (Z.to_nat (len + 2)) with (S (Z.to_nat (len + 1))) in Hexp by lia. cbn [copy_back] in Hexp.
      destruct (znth D _) eqn:En in Hexp; [|done]. pose proof (znth_lt _ _ _ En). lia. }
    assert (0 <= off / 256 < 32 /\ off = 256 * (off / 256) + off mod 256) as [Hh He] by dlia.
    assert (copy_ref (D ++ R) (zlen D) (zlen D - off - 1) len = Some (D' ++ zdrop (zlen D' - zlen D) R)) as Hcopy.
    { rewrite zlen_app in Hout. rewrite (copy_ref_spec D R off len D') by (done || lia). do 3 f_equal. lia. }
    destruct (Z.ltb_spec len 7) as [H7|H7].
    + rewrite (znth_at P (off / 256 + len * 32) (off mod 256 :: Q) b (zlen P)); [|subst b; lapp|done]. cbn [mbind option_bind].
      destruct (ctrl_bits (off / 256) len ltac:(lia) ltac:(lia)) as [-> ->]. change (zlen [_; _]) with 2 in *. zbool. cbn [mbind option_bind].
      zbool. rewrite (znth_at (P ++ [off / 256 + len * 32]) (off mod 256) Q b (zlen P + 1)); [|subst b; lapp|len]. cbn [mbind option_bind].
      rewrite Z.shiftl_mul_pow2 by lia. change (2 ^ 8) with 256. replace (zlen D - _ - 1 - _) with (zlen D - off - 1) by lia.
      zbool. rewrite Hcopy. cbn [mbind option_bind]. do 4 f_equal; lia.
    + rewrite (znth_at P (off / 256 + 224) (len - 7 :: off mod 256 :: Q) b (zlen P)); [|subst b; lapp|done]. cbn [mbind option_bind].
      destruct (ctrl_bits (off / 256) 7 ltac:(lia) ltac:(lia)) as [Es El]. change (7 * 32) with 224 in *. rewrite Es, El.
      change (zlen [_; _; _]) with 3 in *. zbool. rewrite (znth_at (P ++ [off / 256 + 224]) (len - 7) (off mod 256 :: Q) b (zlen P + 1)); [|subst b; lapp|len].
      cbn [mbind option_bind]. zbool.
      rewrite (znth_at (P ++ [off / 256 + 224; len - 7]) (off mod 256) Q b (zlen P + 1 + 1)); [|subst b; lapp|len]. cbn [mbind option_bind].
      rewrite Z.shiftl_mul_pow2 by lia. change (2 ^ 8) with 256. replace (zlen D - _ - 1 - _) with (zlen D - off - 1) by lia.
      replace (7 + (len - 7)) with len by lia. zbool. rewrite Hcopy. cbn [mbind option_bind]. do 4 f_equal; lia.
Qed.

Lemma zlen_expand ts : forall D D', expand D ts = Some D' -> zlen D <= zlen D'.
Proof.
  induction ts as [|t ts IH]; intros D D'; cbn [expand]; [intros [= ->]; lia|].
  destruct (tok_expand D t) as [D1|] eqn:E; [|done]. cbn [mbind option_bind]. intros H%IH. apply zlen_tok in E. lia.
Qed.

Lemma decompress_tokens ts : forall fuel P Q D R D' out_len, ts <> [] -> (length (stream ts) < fuel)%nat ->
  expand D ts = Some D' -> zlen D' <= out_len <= zlen (D ++ R) ->
  decompress_loop fuel (P ++ stream ts ++ Q) (zlen (P ++ stream ts)) (D ++ R) out_len (zlen P) (zlen D) =
    Some (D' ++ zdrop (zlen D' - zlen D) R, zlen D', None).
Proof.
  induction ts as [|t ts IH]; intros [|fuel] P Q D R D' out_len Hne Hf He Ho; [done..|lia|].
  cbn [expand] in He. destruct (tok_expand D t) as [D1|] eqn:Et; [|done]. cbn [mbind option_bind] in He.
  pose proof (zlen_expand _ _ _ He). destruct (zlen_tok _ _ _ Et) as [Hd Ht].
  change (stream (t :: ts)) with (tok_bytes t ++ stream ts) in *. cbn [decompress_loop].
  rewrite (decompress_token _ P t (stream ts ++ Q) _ D R D1); [|by rewrite <- (app_assoc (tok_bytes t))|len|done|lia]. cbn [mbind option_bind].
  rewrite zlen_app in Ho. destruct ts as [|t' ts].
  - injection He as <-. change (stream []) with (@nil Z). rewrite app_nil_r, zlen_app, Z.ltb_irrefl. done.
  - assert (0 < zlen (stream (t' :: ts))) as Hpos.
    { change (stream (t' :: ts)) with (tok_bytes t' ++ stream ts). cbn [expand] in He.
      destruct (tok_expand D1 t') eqn:Et'; [|done]. destruct (zlen_tok _ _ _ Et'). len. }
    rewrite !zlen_app. rewrite (proj2 (Z.ltb_lt _ _)) by lia. rewrite <- zlen_app.
    rewrite length_app in Hf. unfold zlen in Ht.
    pose proof (IH fuel (P ++ tok_bytes t) Q D1 (zdrop (zlen D1 - zlen D) R) D' out_len ltac:(done) ltac:(lia) He) as IH'.
    rewrite <- !app_assoc, !zlen_app, zlen_zdrop in IH' by lia. rewrite <- !app_assoc, zlen_app. rewrite IH' by lia.
    rewrite zdrop_zdrop by lia. by replace (zlen D1 - zlen D + (zlen D' - zlen D1)) with (zlen D' - zlen D) by lia.
Qed.

(** ** The compressor writes the format *)

Definition slice (b : bytes) (p n : Z) : bytes := ztake n (zdrop p b).

Lemma zlen_slice b p n : 0 <= p -> 0 <= n -> p + n <= zlen b -> zlen (slice b p n) = n.
Proof. intros. unfold slice. rewrite zlen_ztake; [done|]. rewrite zlen_zdrop; lia. Qed.
Lemma slice_snoc b p n x : 0 <= p -> 0 <= n -> b.[p + n] = Some x -> slice b p (n + 1) = slice b p n ++ [x].
Proof.
  intros Hp Hn E. rewrite <- znth_zdrop in E by lia. rewrite znth_nat in E by lia. unfold slice, ztake.
  replace (Z.to_nat (n + 1)) with (S (Z.to_nat n)) by lia. by apply take_S_r.
Qed.
Lemma take_slice b p n : 0 <= p -> 0 <= n -> ztake p b ++ slice b p n = ztake (p + n) b.
Proof.
  intros. unfold slice, ztake, zdrop. rewrite take_drop_commute.
  replace (take (Z.to_nat p) b) with (take (Z.to_nat p) (take (Z.to_nat p + Z.to_nat n) b))
    by (rewrite take_take; f_equal; lia). rewrite take_drop. f_equal. lia.
Qed.

(** The output so far: the stream of the tokens [ts], which expands to the input
    before the current run, the byte reserved for the length of the run (it may
    lie behind the end of the block) and the run.  The stream is at most 33/32 of
    the input it stands for. *)
Record lzf_inv (b : bytes) (in_len cap : Z) (s : lzf) (ts : list token) : Prop := {
  inv_run : 0 <= lit s < 32 /\ lit s <= ip s <= in_len;
  inv_ts : expand [] ts = Some (ztake (ip s - lit s) b);
  inv_op : op s = zlen (stream ts) + 1 + lit s;
  inv_len : zlen (out s) = cap;
  inv_out : exists X R, out s = stream ts ++ X ++ slice b (ip s - lit s) (lit s) ++ R /\ (lit s = 0 /\ X = [] \/ zlen X = 1);
  inv_htab : forall i, 0 <= htab s i < 4294967296;
  inv_size : 32 * zlen (stream ts) <= 33 * (ip s - lit s)
}.

Section Compress.
Context (b : bytes) (in_len out_len cap : Z).
Hypothesis Hb : bytes_ok b.
Hypothesis Hin : 1 <= in_len <= zlen b.
Hypothesis Hin32 : in_len < 4294967296.
Hypothesis Hcap : out_len <= cap.

(** The end of a run: its length is written and it becomes a token. *)
Lemma stop_run_spec s ts : lzf_inv b in_len cap s ts -> op s <= out_len ->
  let ts' := if lit s =? 0 then ts else ts ++ [Lit (slice b (ip s - lit s) (lit s))] in
  exists out' R, stop_run (out s) (op s) (lit s) = Some out' /\ zlen out' = cap /\
    out' = stream ts' ++ R /\ zlen (stream ts') = op s - no_run (lit s) /\ expand [] ts' = Some (ztake (ip s) b).
Proof.
  intros [[Hl Hi] Hts Hop Hlen (X & R & Ho & HX) Hh Hs] Hle ts'. unfold stop_run, no_run.
  pose proof (zlen_nonneg (stream ts)). subst ts'. destruct (Z.eqb_spec (lit s) 0) as [E0|E0].
  - rewrite E0 in *. rewrite Z.sub_0_r in *. unfold slice in Ho. rewrite ztake_0 in Ho by lia. cbn [app] in Ho.
    assert (1 <= zlen (X ++ R)) as HR by (rewrite Ho in Hlen; len).
    destruct (X ++ R) as [|y R'] eqn:EX; [rewrite zlen_nil in HR; lia|].
    rewrite Ho, store_1 by lia. eexists _, _. split; [done|]. rewrite Ho in Hlen. split; [len|]. split; [done|]. split; [lia|done].
  - destruct HX as [[? _]|HX]; [lia|]. destruct X as [|x X]; [done|]. rewrite zlen_cons in HX. assert (X = []) as -> by (apply zlen_0_nil; lia).
    set (L := slice b (ip s - lit s) (lit s)) in *. assert (zlen L = lit s) as HL by (apply zlen_slice; lia).
    cbn [app] in Ho. rewrite Ho, store_1 by lia. eexists _, R. split; [done|]. rewrite Ho in Hlen. split; [len|].
    rewrite stream_app, stream_1. cbn [tok_bytes]. rewrite HL.
    assert (u8 (lit s - 1) = lit s - 1) as -> by (apply wrapu_small; unfold in_u; cbn; lia).
    split; [lapp|]. split; [len|]. rewrite expand_app, Hts. cbn [mbind option_bind expand tok_expand]. rewrite HL. zbool.
    cbn [mbind option_bind]. subst L. rewrite take_slice by lia. do 2 f_equal. lia.
Qed.

(** A literal byte. *)
Lemma put_lit_spec s ts : lzf_inv b in_len cap s ts -> ip s < in_len -> op s < out_len ->
  exists s' ts', put_lit b s = Some s' /\ lzf_inv b in_len cap s' ts' /\ ip s' = ip s + 1 /\
    (lit s < 31 /\ lit s' = lit s + 1 /\ op s' = op s + 1 \/ lit s = 31 /\ lit s' = 0 /\ op s' = op s + 2).
Proof.
  intros Hinv Hi Hop'. pose proof Hinv as [[Hl Hii] Hts Hop Hlen (X & R & Ho & HX) Hh Hs]. unfold put_lit.
  destruct (znth_is_Some b (ip s) ltac:(lia)) as [x Ex]. rewrite Ex. cbn [mbind option_bind].
  set (L := slice b (ip s - lit s) (lit s)) in *. assert (zlen L = lit s) as HL by (apply zlen_slice; lia).
  assert (slice b (ip s - lit s) (lit s + 1) = L ++ [x]) as HL1.
  { apply slice_snoc; [lia|lia|]. by replace (ip s - lit s + lit s) with (ip s) by lia. }
  pose proof (zlen_nonneg (stream ts)).
  assert (exists y z R', out s = stream ts ++ [y] ++ L ++ z :: R') as (y & z & R' & Ho').
  { rewrite Ho in Hlen. destruct HX as [[E0 ->]|HX].
    - rewrite E0 in HL. apply zlen_0_nil in HL. rewrite HL in *. rewrite E0 in Hop. cbn [app] in *. rewrite zlen_app in Hlen.
      destruct R as [|y [|z R]]; rewrite ?zlen_cons, ?zlen_nil in Hlen; [lia|lia|]. by exists y, z, R.
    - destruct X as [|y X]; [done|]. rewrite zlen_cons in HX. assert (X = []) as -> by (apply zlen_0_nil; lia).
      rewrite !zlen_app in Hlen. change (zlen [y]) with 1 in Hlen. destruct R as [|z R]; [rewrite zlen_nil in Hlen; lia|]. by exists y, z, R. }
  rewrite (store_at (stream ts ++ [y] ++ L) [z] R'); [|rewrite Ho'; lapp|len|done]. cbn [mbind option_bind].
  set (s1 := mk_lzf (ip s + 1) (op s + 1) (lit s + 1) (hval s) ((stream ts ++ [y] ++ L) ++ [x] ++ R') (htab s)).
  assert (zlen (out s1) = cap) as Hlen1 by (cbn; rewrite <- Hlen, Ho'; len).
  assert (out s1 = stream ts ++ [y] ++ slice b (ip s1 - lit s1) (lit s1) ++ R') as Ho1.
  { cbn. replace (ip s + 1 - (lit s + 1)) with (ip s - lit s) by lia. rewrite HL1. lapp. }
  unfold MAX_LIT. change (Z.shiftl 1 5) with 32. destruct (Z.eqb_spec (lit s + 1) 32) as [E|E].
  - assert (store ((stream ts ++ [y] ++ L) ++ [x] ++ R') (op s + 1 - (lit s + 1) - 1) [u8 (lit s + 1 - 1)] =
      Some (stream (ts ++ [Lit (L ++ [x])]) ++ R')) as Hst.
    { rewrite (store_at (stream ts) [y] (L ++ [x] ++ R')); [|lapp|lia|done]. rewrite stream_app, stream_1. cbn [tok_bytes].
      rewrite zlen_app, HL. change (zlen [x]) with 1. rewrite E. change (u8 (32 - 1)) with (32 - 1). f_equal. lapp. }
    unfold stop_run. rewrite Hst. cbn [mbind option_bind].
    eexists _, (ts ++ [Lit (L ++ [x])]). split; [done|]. split; [|cbn; split; [done|right; lia]].
    assert (zlen (stream (ts ++ [Lit (L ++ [x])])) = zlen (stream ts) + 33) as Hst'.
    { rewrite stream_app, stream_1. cbn [tok_bytes]. len. }
    split; cbn [ip op lit hval out htab]; [lia| |lia| | |done|lia].
    + rewrite expand_app, Hts. cbn [mbind option_bind expand tok_expand]. rewrite zlen_app, HL. change (zlen [x]) with 1. zbool.
      cbn [mbind option_bind]. rewrite <- HL1. rewrite take_slice by lia. do 2 f_equal. lia.
    + apply zlen_store in Hst. rewrite Hst. exact Hlen1.
    + exists [], R'. unfold slice. rewrite ztake_0 by lia. split; [done|]. by left.
  - exists s1, ts. split; [done|]. split; [|cbn; split; [done|left; lia]].
    subst s1; split; cbn [ip op lit hval out htab] in *; [lia| |lia|done| |done|lia].
    + by replace (ip s + 1 - (lit s + 1)) with (ip s - lit s) by lia.
    + exists [y], R'. split; [exact Ho1|by right].
Qed.

(** *** Matches *)

(** [n] bytes at [r] and at [p] agree. *)
Definition agree (r p n : Z) : Prop := forall k, 0 <= k < n -> b.[r + k] = b.[p + k].

Lemma agree_more r p n x : agree r p n -> b.[r + n] = Some x -> b.[p + n] = Some x -> agree r p (n + 1).
Proof.
  intros Ha Hr Hp k Hk. destruct (Z.eq_dec k n) as [->|]; [by rewrite Hr, Hp|]. apply Ha. lia.
Qed.

Lemma byte_of i x : b.[i] = Some x -> is_byte x.
Proof.
  intros E. pose proof (znth_lt _ _ _ E). rewrite znth_nat in E by lia. unfold bytes_ok in Hb. rewrite Forall_lookup in Hb. by eapply Hb.
Qed.

Lemma is_match_spec ref i : 0 <= ref < 4294967296 -> 0 <= i -> i < in_len - 2 ->
  exists m, is_match b ref i (u64 (i - ref - 1)) = Some m /\
    (m = true -> 0 < ref < i /\ i - ref - 1 < 8192 /\ agree ref i 3).
Proof.
  intros Hr Hi Hi2. unfold is_match, MAX_OFF. change (Z.shiftl 1 13) with 8192. rewrite Z.gtb_ltb.
  destruct (Z.ltb_spec (u64 (i - ref - 1)) 8192) as [Ho|]; [|by exists false].
  destruct (Z.ltb_spec 0 ref) as [H0|]; [|by exists false]. cbn [andb].
  assert (ref < i) as Hlt.
  { destruct (Z.lt_ge_cases ref i) as [|Hge]; [done|]. exfalso. revert Ho. unfold u64, wrapu.
    rewrite <- (Z.mod_add _ 1) by lia. rewrite Z.mod_small; cbn; lia. }
  rewrite u64_id in Ho by lia.
  destruct (znth_is_Some b (ref + 2) ltac:(lia)) as [r2 Er2], (znth_is_Some b (i + 2) ltac:(lia)) as [i2 Ei2].
  destruct (znth_is_Some b ref ltac:(lia)) as [r0 Er0], (znth_is_Some b i ltac:(lia)) as [i0 Ei0].
  destruct (znth_is_Some b (ref + 1) ltac:(lia)) as [r1 Er1], (znth_is_Some b (i + 1) ltac:(lia)) as [i1 Ei1].
  unfold u16_at. rewrite Er2, Ei2, Er0, Ei0, Er1, Ei1. cbn [mbind option_bind].
  destruct (Z.eqb_spec r2 i2) as [->|]; [|by exists false]. eexists. split; [done|]. intros E%Z.eqb_eq.
  pose proof (byte_of _ _ Er0). pose proof (byte_of _ _ Ei0). pose proof (byte_of _ _ Er1). pose proof (byte_of _ _ Ei1).
  unfold is_byte in *. assert (r0 = i0 /\ r1 = i1) as [-> ->] by lia. split; [lia|]. split; [lia|].
  intros k Hk. assert (k = 0 \/ k = 1 \/ k = 2) as [->|[->| ->]] by lia; rewrite ?Z.add_0_r; congruence.
Qed.

Lemma unrolled_spec n : forall ref i len, 0 < ref < i -> 2 <= len -> agree ref i (len + 1) -> i + len + Z.of_nat n < in_len ->
  exists len' broke, unrolled n b ref i len = Some (len', broke) /\
    (broke = true -> len < len' <= len + Z.of_nat n /\ agree ref i len') /\
    (broke = false -> len' = len + Z.of_nat n /\ agree ref i (len' + 1)).
Proof.
  induction n as [|n IH]; intros ref i len Hr Hl Ha Hi; cbn [unrolled].
  { exists len, false. split; [done|]. split; [done|]. intros _. by rewrite Z.add_0_r. }
  destruct (znth_is_Some b (ref + (len + 1)) ltac:(lia)) as [x Ex], (znth_is_Some b (i + (len + 1)) ltac:(lia)) as [y Ey].
  rewrite Ex, Ey. cbn [mbind option_bind]. destruct (Z.eqb_spec x y) as [->|Hne]; cbn [negb].
  - destruct (IH ref i (len + 1)) as (len' & broke & -> & H1 & H2); [done|lia|by eapply agree_more|lia|].
    exists len', broke. split; [done|]. split; [intros [? ?]%H1; split; [lia|done]|intros [? ?]%H2; split; [lia|done]].
  - exists (len + 1), true. split; [done|]. split; [|done]. intros _. split; [lia|done].
Qed.

Lemma match_loop_spec fuel : forall ref i len maxlen, 0 < ref < i -> 2 <= len -> agree ref i (len + 1) ->
  i + maxlen <= in_len -> (Z.to_nat (maxlen - len) < fuel)%nat ->
  exists n, match_loop fuel b ref i len maxlen = Some n /\ agree ref i n /\ len + 1 <= n <= Z.max (len + 1) maxlen.
Proof.
  induction fuel as [|fuel IH]; intros ref i len maxlen Hr Hl Ha Hm Hf; [lia|]. cbn [match_loop].
  destruct (Z.ltb_spec (len + 1) maxlen) as [Hlt|]; [|exists (len + 1); split; [done|]; split; [done|lia]].
  destruct (znth_is_Some b (ref + (len + 1)) ltac:(lia)) as [x Ex], (znth_is_Some b (i + (len + 1)) ltac:(lia)) as [y Ey].
  rewrite Ex, Ey. cbn [mbind option_bind]. destruct (Z.eqb_spec x y) as [->|Hne].
  - destruct (IH ref i (len + 1) maxlen) as (n & -> & Hn & Hb'); [done|lia|by eapply agree_more|done|lia|].
    exists n. split; [done|]. split; [done|lia].
  - exists (len + 1). split; [done|]. split; [done|lia].
Qed.

(** The length found: the agreeing bytes are at least the 3 compared already, at
    most [MAX_REF] and end inside the input. *)
Lemma match_len_spec ref i : 0 < ref < i -> i < in_len - 2 -> agree ref i 3 ->
  let maxlen := u32 (in_len - i - 2) in
  exists n, match_len b ref i (if maxlen >? MAX_REF then MAX_REF else maxlen) = Some n /\
    agree ref i n /\ 3 <= n <= 264 /\ i + n <= in_len.
Proof.
  intros Hr Hi Ha maxlen. subst maxlen. rewrite u32_id by lia. unfold MAX_REF. change (Z.shiftl 1 8 + Z.shiftl 1 3) with 264.
  set (maxlen := if _ >? _ then _ else _).
  assert (1 <= maxlen <= 264 /\ maxlen <= in_len - i - 2) as Hm by (subst maxlen; rewrite Z.gtb_ltb; zcase; lia). clearbody maxlen.
  unfold match_len. rewrite Z.gtb_ltb. destruct (Z.ltb_spec 16 maxlen) as [H16|H16].
  - destruct (unrolled_spec 16 ref i 2) as (len & broke & -> & H1 & H2); [done|lia|done|lia|]. cbn [mbind option_bind].
    destruct broke; [destruct (H1 eq_refl) as [Hl Ha']; exists len; split; [done|]; split; [done|lia]|].
    destruct (H2 eq_refl) as [-> Ha'].
    destruct (match_loop_spec (S (Z.to_nat maxlen)) ref i (2 + Z.of_nat 16) maxlen) as (n & -> & Hn & Hb'); [done|lia|done|lia|lia|].
    exists n. split; [done|]. split; [done|lia].
  - cbn [mbind option_bind].
    destruct (match_loop_spec (S (Z.to_nat maxlen)) ref i 2 maxlen) as (n & -> & Hn & Hb'); [done|lia|done|lia|lia|].
    exists n. split; [done|]. split; [done|lia].
Qed.

Lemma put_ref_spec E R p off len : p = zlen E -> 0 <= off < 8192 -> 1 <= len <= 262 -> 3 <= zlen R ->
  exists R', put_ref (E ++ R) p off len = Some (E ++ tok_bytes (Ref off len) ++ R', p + zlen (tok_bytes (Ref off len))) /\
    zlen (tok_bytes (Ref off len)) + zlen R' = zlen R.
Proof.
  intros -> Ho Hl HR. unfold put_ref. cbn [tok_bytes].
  destruct R as [|x [|y [|z R]]]; rewrite ?zlen_cons, ?zlen_nil in HR; try lia.
  assert (u8 off = off mod 256) as -> by done.
  rewrite Z.shiftr_div_pow2, !Z.shiftl_mul_pow2 by lia. change (2 ^ 8) with 256. change (2 ^ 5) with 32. change (7 * 32) with 224.
  destruct (Z.ltb_spec len 7).
  - rewrite (wrapu_small 8) by (unfold in_u; cbn; dlia). rewrite store_1 by done. cbn [mbind option_bind].
    rewrite (store_at (E ++ [off / 256 + len * 32]) [y] (z :: R)); [|lapp|len|done]. cbn [mbind option_bind].
    exists (z :: R). split; [|len]. f_equal. f_equal; [lapp|]. change (zlen [_; _]) with 2. lia.
  - rewrite !(wrapu_small 8) by (unfold in_u; cbn; dlia). rewrite store_1 by done. cbn [mbind option_bind].
    rewrite (store_at (E ++ [off / 256 + 224]) [y] (z :: R)); [|lapp|len|done]. cbn [mbind option_bind].
    rewrite (store_at (E ++ [off / 256 + 224; len - 7]) [z] R); [|lapp|len|done]. cbn [mbind option_bind].
    exists R. split; [|len]. f_equal. f_equal; [lapp|]. change (zlen [_; _; _]) with 3. lia.
Qed.

(** The hash of the three bytes at [p] can be computed. *)
Lemma next_some v p : 0 <= p -> p + 2 < in_len -> exists h, NEXT v b p = Some h.
Proof. intros. unfold NEXT. destruct (znth_is_Some b (p + 2) ltac:(lia)) as [z ->]. by eexists. Qed.
Lemma frst_some p : 0 <= p -> p + 1 < zlen b -> exists h, FRST b p = Some h.
Proof.
  intros. unfold FRST. destruct (znth_is_Some b p ltac:(lia)) as [x ->], (znth_is_Some b (p + 1) ltac:(lia)) as [y ->]. by eexists.
Qed.

Lemma htab_insert (t : LZF_STATE) i p : (forall i, 0 <= t i < 4294967296) -> forall k, 0 <= (<[i := u32 p]> t) k < 4294967296.
Proof.
  intros Ht k. destruct (decide (k = i)) as [->|]; [rewrite fn_lookup_insert|by rewrite fn_lookup_insert_ne].
  apply (wrapu_range 32). lia.
Qed.

(** The state after a match of [n] bytes at [r]: the pending run and the
    reference are tokens. *)
Lemma match_token s ts out1 R1 R2 r n hv ht :
  let ts' := if lit s =? 0 then ts else ts ++ [Lit (slice b (ip s - lit s) (lit s))] in
  let t := Ref (ip s - r - 1) (n - 2) in
  lzf_inv b in_len cap s ts -> out1 = stream ts' ++ R1 -> zlen out1 = cap ->
  zlen (stream ts') = op s - no_run (lit s) -> expand [] ts' = Some (ztake (ip s) b) ->
  0 < r < ip s -> ip s - r - 1 < 8192 -> agree r (ip s) n -> 3 <= n <= 264 -> ip s + n <= in_len ->
  zlen (tok_bytes t) + zlen R2 = zlen R1 -> (forall i, 0 <= ht i < 4294967296) ->
  lzf_inv b in_len cap
    (mk_lzf (ip s + n) (op s - no_run (lit s) + zlen (tok_bytes t) + 1) 0 hv (stream ts' ++ tok_bytes t ++ R2) ht) (ts' ++ [t]).
Proof.
  intros ts' t [[Hl Hi] Hts Hop Hlen _ _ Hs] Ho1 Hl1 Hst Hex Hr Hoff Ha Hn Hin' HR Hht.
  assert (zlen (tok_bytes t) = if n <? 9 then 2 else 3) as Ht by (subst t; cbn [tok_bytes]; do 2 zcase; try lia; done).
  assert (tok_expand (ztake (ip s) b) t = Some (ztake (ip s + n) b)) as Het.
  { subst t. cbn [tok_expand]. zbool. replace (n - 2 + 2) with n by lia.
    rewrite (copy_back_prefix b (ip s) r (Z.to_nat n)); [do 2 f_equal; lia|lia|lia|]. intros k Hk. apply Ha. lia. }
  split; cbn [ip op lit hval out htab].
  - lia.
  - rewrite expand_app, Hex. cbn [mbind option_bind expand]. rewrite Het. cbn [mbind option_bind]. do 2 f_equal. lia.
  - rewrite stream_app, stream_1. len.
  - rewrite Ho1 in Hl1. len.
  - exists [], R2. split; [|by left]. unfold slice. rewrite ztake_0 by lia. rewrite stream_app, stream_1. lapp.
  - done.
  - rewrite stream_app, stream_1, zlen_app, Hst, Ht, Hop. unfold no_run. destruct (Z.eqb_spec (lit s) 0); zcase; lia.
Qed.

Lemma put_match_spec s ts r : lzf_inv b in_len cap s ts -> 0 < r < ip s -> ip s - r - 1 < 8192 ->
  ip s < in_len - 2 -> agree r (ip s) 3 ->
  exists res, put_match b in_len out_len s r (ip s - r - 1) = Some res /\
    match res with
    | inl o => zlen o = cap /\ out_len <= op s + 4
    | inr (s', more) => exists ts', lzf_inv b in_len cap s' ts' /\ ip s < ip s' /\
        (more = false -> in_len - 2 <= ip s')
    end.
Proof.
  intros Hinv Hr Hoff Hi Ha. pose proof Hinv as [[Hl Hii] Hts Hop Hlen _ Hh Hs]. pose proof (zlen_nonneg (stream ts)).
  assert (0 <= no_run (lit s) <= 1) as Hnr by (unfold no_run; destruct (lit s =? 0); lia).
  destruct (match_len_spec r (ip s) Hr Hi Ha) as (n & Hml & Han & Hn & Hend). unfold put_match.
  destruct (_ && _) eqn:Eg; [eexists; split; [done|]; split; [done|lia]|].
  apply andb_false_iff in Eg. rewrite !Z.geb_leb, !Z.leb_gt in Eg.
  destruct (stop_run_spec s ts Hinv ltac:(lia)) as (out1 & R1 & -> & Hl1 & Ho1 & Hst & Hex). cbn [mbind option_bind].
  rewrite Hml. cbn [mbind option_bind]. set (ts' := if lit s =? 0 then ts else _) in *.
  assert (3 <= zlen R1) as HR1 by (rewrite Ho1 in Hl1; rewrite zlen_app in Hl1; lia).
  destruct (put_ref_spec (stream ts') R1 (op s - no_run (lit s)) (ip s - r - 1) (n - 2)) as (R2 & Hput & HR2); [lia|lia|lia|done|].
  rewrite Ho1, Hput. cbn [mbind option_bind]. replace (ip s + 1 + (n - 2 + 1)) with (ip s + n) by lia.
  pose proof (match_token s ts out1 R1 R2 r n) as Htok. cbv zeta in Htok. fold ts' in Htok.
  rewrite Z.geb_leb. destruct (Z.leb_spec (in_len - 2) (ip s + n)) as [Hlast|Hmore].
  - eexists. split; [done|]. eexists. split; [by apply Htok|]. cbn. lia.
  - destruct (frst_some (ip s + n - 1 - 1)) as [h0 ->]; [lia|lia|]. cbn [mbind option_bind].
    destruct (next_some h0 (ip s + n - 1 - 1)) as [h1 ->]; [lia|lia|]. cbn [mbind option_bind].
    destruct (next_some h1 (ip s + n - 1 - 1 + 1)) as [h2 ->]; [lia|lia|]. cbn [mbind option_bind].
    replace (ip s + n - 1 - 1 + 1 + 1) with (ip s + n) by lia.
    eexists. split; [done|]. eexists. split; [apply Htok; try done; by do 2 apply htab_insert|]. cbn. split; [lia|done].
Qed.

Lemma compress_step_spec s ts : lzf_inv b in_len cap s ts -> ip s < in_len - 2 ->
  exists res, compress_step b in_len out_len s = Some res /\
    match res with
    | inl o => zlen o = cap /\ out_len <= op s + 4
    | inr (s', more) => exists ts', lzf_inv b in_len cap s' ts' /\ ip s < ip s' /\
        (more = false -> in_len - 2 <= ip s')
    end.
Proof.
  intros Hinv Hi. pose proof Hinv as [[Hl Hii] Hts Hop Hlen Hout Hh Hs]. unfold compress_step.
  destruct (next_some (hval s) (ip s)) as [hv ->]; [lia|lia|]. cbn [mbind option_bind].
  set (s1 := mk_lzf _ _ _ _ _ _).
  assert (lzf_inv b in_len cap s1 ts) as Hinv1 by (split; try done; by apply htab_insert).
  destruct (is_match_spec (htab s (IDX hv)) (ip s) (Hh _) ltac:(lia) Hi) as (m & Em & Hm).
  change (ip s1) with (ip s). rewrite Em. cbn [mbind option_bind]. destruct m.
  - destruct (Hm eq_refl) as (Hr & Ho & Ha). rewrite u64_id by lia. by apply (put_match_spec s1 ts).
  - change (op s1) with (op s). rewrite Z.geb_leb. destruct (Z.leb_spec out_len (op s)).
    + eexists. split; [done|]. split; [done|lia].
    + destruct (put_lit_spec s1 ts Hinv1) as (s' & ts' & -> & Hinv' & Hip & _); [change (ip s1) with (ip s); lia|done|].
      cbn [mbind option_bind]. eexists. split; [done|]. exists ts'. split; [done|]. change (ip s1) with (ip s) in Hip. split; [lia|done].
Qed.

(** At [return 0] the output did not fit: the input left and the stream so far
    need more than [out_len] bytes. *)
Lemma compress_loop_spec fuel : forall s ts, lzf_inv b in_len cap s ts -> (Z.to_nat (in_len - ip s) < fuel)%nat ->
  exists res, compress_loop fuel b in_len out_len s = Some res /\
    match res with
    | inl o => zlen o = cap /\ 32 * out_len <= 33 * in_len + 160
    | inr s' => exists ts', lzf_inv b in_len cap s' ts' /\ in_len - 2 <= ip s'
    end.
Proof.
  induction fuel as [|fuel IH]; intros s ts Hinv Hf; [lia|]. cbn [compress_loop].
  destruct (Z.ltb_spec (ip s) (in_len - 2)); [|eexists; split; [done|]; by exists ts].
  destruct (compress_step_spec s ts Hinv) as (res & -> & Hres); [done|]. cbn [mbind option_bind].
  destruct res as [o|[s' more]].
  - eexists. split; [done|]. destruct Hres as [? Ho]. split; [done|]. destruct Hinv. lia.
  - destruct Hres as (ts' & Hinv' & Hip & Hmore). destruct more; [|eexists; split; [done|]; exists ts'; split; [done|by apply Hmore]].
    apply (IH s' ts' Hinv'). lia.
Qed.

Lemma tail_loop_spec fuel : forall s ts, lzf_inv b in_len cap s ts -> (Z.to_nat (in_len - ip s) < fuel)%nat ->
  op s + (in_len - ip s) + (if 32 <=? lit s + (in_len - ip s) then 1 else 0) <= out_len -> in_len - ip s <= 2 ->
  exists s' ts', tail_loop fuel b in_len s = Some s' /\ lzf_inv b in_len cap s' ts' /\ ip s' = in_len /\ op s' <= out_len.
Proof.
  induction fuel as [|fuel IH]; intros s ts Hinv Hf Hop Hk; [lia|]. cbn [tail_loop].
  destruct (Z.ltb_spec (ip s) in_len) as [Hi|Hi].
  - destruct (put_lit_spec s ts Hinv Hi) as (s' & ts' & -> & Hinv' & Hip & Hc); [revert Hop; zcase; lia|]. cbn [mbind option_bind].
    apply (IH s' ts' Hinv'); [lia| |lia]. destruct (inv_run _ _ _ _ _ Hinv') as [? _]. revert Hop. do 2 zcase; lia.
  - exists s, ts. split; [done|]. split; [done|]. destruct (inv_run _ _ _ _ _ Hinv). revert Hop. zcase; lia.
Qed.

(** The compressor returns 0 for an output that does not fit, and a stream of
    tokens for the input otherwise. *)
Lemma compress_spec out_data ht : zlen out_data = cap -> 1 <= out_len -> 2 <= zlen b ->
  (forall i, 0 <= ht i < 4294967296) ->
  exists o r, lzf_compress b in_len out_data out_len ht = Some (o, r) /\ zlen o = cap /\
    (r = 0 /\ 32 * out_len <= 33 * in_len + 160 \/
     exists ts R, ts <> [] /\ o = stream ts ++ R /\ r = zlen (stream ts) /\ expand [] ts = Some (ztake in_len b) /\
       32 * r <= 33 * in_len + 32 /\ r <= out_len).
Proof.
  intros Ho H1 H2 Hht. unfold lzf_compress. zbool. destruct (frst_some 0) as [h ->]; [lia|lia|]. cbn [mbind option_bind].
  assert (lzf_inv b in_len cap (mk_lzf 0 1 0 h out_data ht) []) as Hinv.
  { split; cbn [ip op lit hval out htab]; try done; try lia. exists [], out_data. split; [|by left]. unfold slice. by rewrite ztake_0. }
  destruct (compress_loop_spec (S (Z.to_nat in_len)) _ _ Hinv) as (res & -> & Hres); [cbn; lia|]. cbn [mbind option_bind].
  destruct res as [o|s]; [exists o, 0; split; [done|]; split; [apply Hres|left; split; [done|apply Hres]]|].
  destruct Hres as (ts & Hinv1 & Hip). rewrite Z.gtb_ltb. destruct (Z.ltb_spec out_len (op s + 3)).
  { exists (out s), 0. split; [done|]. destruct Hinv1. split; [done|]. left. split; [done|lia]. }
  destruct (inv_run _ _ _ _ _ Hinv1).
  destruct (tail_loop_spec (S (Z.to_nat in_len)) s ts Hinv1) as (s' & ts' & -> & Hinv' & Hip' & Hop'); [lia|zcase; lia|lia|].
  cbn [mbind option_bind].
  destruct (stop_run_spec s' ts' Hinv' Hop') as (o & R & -> & Hlo & HoR & Hst & Hex). cbn [mbind option_bind].
  set (ts1 := if lit s' =? 0 then ts' else _) in *. exists o, (op s' - no_run (lit s')). split; [done|]. split; [done|].
  right. exists ts1, R. rewrite Hip' in Hex. split_and!; try done; try lia.
  - intros E. rewrite E in Hex. injection Hex as Hex. apply (f_equal zlen) in Hex. rewrite zlen_ztake, zlen_nil in Hex; lia.
  - destruct Hinv'. unfold no_run. zcase; lia.
  - unfold no_run. zcase; lia.
Qed.

End Compress.

(** ** The decompressor on any input *)

Lemma copy_back_some n : forall D off, 0 <= off < zlen D -> is_Some (copy_back n D off).
Proof.
  induction n as [|n IH]; intros D off Ho; cbn [copy_back]; [by eexists|].
  destruct (znth_is_Some D (zlen D - off - 1) ltac:(lia)) as [x ->]. cbn [mbind option_bind]. apply IH. len.
Qed.

(** A step reads a token or reports an error, and it reports an error when the token cannot be expanded or its
    expansion has no room. *)
Definition reads_token (P X : bytes) (in_len : Z) : Prop :=
  (forall out out_len p, exists e, decompress_step (P ++ X) in_len out out_len (zlen P) p = Some (inl e)) \/
  exists t Y, X = tok_bytes t ++ Y /\ zlen P + zlen (tok_bytes t) <= in_len /\
    forall D R out_len, (exists D', tok_expand D t = Some D' /\ zlen D' <= out_len) \/
      exists e, decompress_step (P ++ X) in_len (D ++ R) out_len (zlen P) (zlen D) = Some (inl e).

Lemma read_literal P c X in_len : 0 <= c < 32 -> zlen P < in_len <= zlen (P ++ c :: X) -> reads_token P (c :: X) in_len.
Proof.
  intros Hc Hin. rewrite zlen_app, zlen_cons in Hin. unfold reads_token, decompress_step. change (Z.shiftl 1 5) with 32.
  destruct (Z.le_gt_cases (zlen P + 1 + (c + 1)) in_len) as [Hle|Hgt]; [right|left].
  - destruct (zsplit (c + 1) X ltac:(lia)) as (l & Y & -> & Hl & _). exists (Lit l), Y. cbn [tok_bytes tok_expand]. rewrite Hl, zlen_cons.
    replace (c + 1 - 1) with c by lia. split; [done|]. split; [lia|]. intros D R out_len. zbool.
    destruct (Z.le_gt_cases (zlen (D ++ l)) out_len) as [Ho|Ho]; [left; by exists (D ++ l)|right].
    rewrite (znth_at P c (l ++ Y) _ (zlen P)) by done. cbn [mbind option_bind]. rewrite zlen_app in Ho. zbool. by eexists.
  - intros out out_len p. rewrite (znth_at P c X _ (zlen P)) by done. cbn [mbind option_bind]. zbool.
    destruct (p + (c + 1) >? out_len); [by eexists|]. zbool. by eexists.
Qed.

Lemma read_reference P c X in_len : 32 <= c < 256 -> bytes_ok X -> zlen P < in_len <= zlen (P ++ c :: X) -> reads_token P (c :: X) in_len.
Proof.
  intros Hc HX Hin. rewrite zlen_app, zlen_cons in Hin. set (a := c mod 32). set (k := c / 32).
  assert (0 <= a < 32 /\ 1 <= k < 8 /\ c = a + k * 32) as (Ha & Hk & Ec) by (subst a k; dlia).
  destruct (ctrl_bits a k Ha ltac:(lia)) as [Es El]. rewrite <- Ec in Es, El.
  assert (forall out out_len p, decompress_step (P ++ c :: X) in_len out out_len (zlen P) p =
    if zlen P + 1 >=? in_len then Some (inl EINVAL) else
    '(len, ip) ← (if k =? 7 then x ← (P ++ c :: X).[zlen P + 1]; Some (k + x, zlen P + 1 + 1) else Some (k, zlen P + 1));
    if ip >=? in_len then Some (inl EINVAL) else y ← (P ++ c :: X).[ip];
    if p + len + 2 >? out_len then Some (inl E2BIG) else if p - a * 256 - 1 - y <? 0 then Some (inl EINVAL) else
    out ← copy_ref out p (p - a * 256 - 1 - y) len; Some (inr (out, ip + 1, p + (len + 2)))) as Hstep.
  { intros out out_len p. unfold decompress_step. change (Z.shiftl 1 5) with 32. rewrite (znth_at P c X _ (zlen P)) by done. cbn [mbind option_bind]. zbool.
    rewrite Es, El, Z.shiftl_mul_pow2 by lia. change (2 ^ 8) with 256. done. }
  assert (forall len y Y, 0 <= y < 256 -> 1 <= len <= 262 -> zlen P + zlen (tok_bytes (Ref (a * 256 + y) len)) <= in_len -> c :: X = tok_bytes (Ref (a * 256 + y) len) ++ Y ->
    (forall out out_len p, decompress_step (P ++ c :: X) in_len out out_len (zlen P) p =
      if p + len + 2 >? out_len then Some (inl E2BIG) else if p - a * 256 - 1 - y <? 0 then Some (inl EINVAL) else
      out ← copy_ref out p (p - a * 256 - 1 - y) len; Some (inr (out, zlen P + zlen (tok_bytes (Ref (a * 256 + y) len)), p + (len + 2)))) ->
    reads_token P (c :: X) in_len) as Hgood.
  { intros len y Y Hy Hl Hend EX Hst. right. exists (Ref (a * 256 + y) len), Y. split; [done|]. split; [done|]. intros D R out_len. rewrite Hst.
    pose proof (zlen_nonneg D). destruct (Z.le_gt_cases (zlen D + len + 2) out_len) as [Ho|Ho]; [|right; zbool; by eexists].
    destruct (Z.le_gt_cases (zlen D) (a * 256 + y)) as [Hr|Hr]; [right; zbool; by eexists|left].
    cbn [tok_expand]. zbool. destruct (copy_back_some (Z.to_nat (len + 2)) D (a * 256 + y) ltac:(lia)) as [D' E]. exists D'. split; [done|].
    apply zlen_copy_back in E. lia. }
  assert (forall y, 0 <= y < 256 -> (a * 256 + y) / 256 = a /\ (a * 256 + y) mod 256 = y) as Hdiv by (intros y Hy; dlia).
  destruct X as [|x X]; [left; intros; rewrite Hstep, zlen_nil in *; zbool; by eexists|]. apply Forall_cons_1 in HX as [Hx HX]. unfold is_byte in Hx. rewrite zlen_cons in Hin.
  destruct (Z.le_gt_cases in_len (zlen P + 1)) as [Hi|Hi]; [left; intros; rewrite Hstep; zbool; by eexists|].
  assert ((P ++ c :: x :: X).[zlen P + 1] = Some x) as Ex by (apply (znth_at (P ++ [c]) x X); [lapp|len]).
  destruct (Z.eqb_spec k 7) as [E7|E7].
  - destruct X as [|y X]; [left; intros; rewrite Hstep; zbool; rewrite Ex; rewrite zlen_nil in *; cbn [mbind option_bind]; zbool; by eexists|].
    apply Forall_cons_1 in HX as [Hy HX]. unfold is_byte in Hy. rewrite zlen_cons in Hin.
    destruct (Z.le_gt_cases in_len (zlen P + 1 + 1)) as [Hi2|Hi2]; [left; intros; rewrite Hstep; zbool; rewrite Ex; cbn [mbind option_bind]; zbool; by eexists|].
    assert ((P ++ c :: x :: y :: X).[zlen P + 1 + 1] = Some y) as Ey by (apply (znth_at (P ++ [c; x]) y X); [lapp|len]).
    destruct (Hdiv y ltac:(lia)) as [E1 E2]. assert (tok_bytes (Ref (a * 256 + y) (7 + x)) = [c; x; y]) as Etb.
    { cbn [tok_bytes]. zbool. rewrite E1, E2. repeat f_equal; lia. }
    apply (Hgood (7 + x) y X); [lia|lia|rewrite Etb; change (zlen [c; x; y]) with 3; lia|by rewrite Etb|].
    intros out out_len p. rewrite Hstep, Etb, Ex. change (zlen [c; x; y]) with 3. zbool. cbn [mbind option_bind]. zbool. rewrite Ey. cbn [mbind option_bind].
    rewrite E7. by replace (zlen P + 1 + 1 + 1) with (zlen P + 3) by lia.
  - destruct (Hdiv x ltac:(lia)) as [E1 E2]. assert (tok_bytes (Ref (a * 256 + x) k) = [c; x]) as Etb by (cbn [tok_bytes]; zbool; by rewrite E1, E2, <- Ec).
    apply (Hgood k x X); [lia|lia|rewrite Etb; change (zlen [c; x]) with 2; lia|by rewrite Etb|].
    intros out out_len p. rewrite Hstep, Etb. change (zlen [c; x]) with 2. zbool. cbn [mbind option_bind]. zbool. rewrite Ex. cbn [mbind option_bind].
    by replace (zlen P + 1 + 1) with (zlen P + 2) by lia.
Qed.

Lemma read_token P X in_len : bytes_ok X -> zlen P < in_len <= zlen (P ++ X) -> reads_token P X in_len.
Proof.
  intros HX Hin. destruct X as [|c X]; [rewrite app_nil_r in Hin; lia|]. apply Forall_cons_1 in HX as [Hc HX]. unfold is_byte in Hc.
  destruct (Z.lt_ge_cases c 32); [apply read_literal; [lia|done]|apply read_reference; [lia|done..]].
Qed.

(** Behind the tokens [ts], which expand to [D]. *)
Lemma decompress_loop_exact fuel in_len out_len : forall ts X D R, bytes_ok X -> zlen (stream ts) < in_len <= zlen (stream ts ++ X) -> expand [] ts = Some D ->
  zlen D <= out_len <= zlen (D ++ R) -> (Z.to_nat (in_len - zlen (stream ts)) <= fuel)%nat ->
  exists D' r e, decompress_loop fuel (stream ts ++ X) in_len (D ++ R) out_len (zlen (stream ts)) (zlen D) = Some (D' ++ zdrop (zlen D' - zlen D) R, r, e) /\
    zlen D <= zlen D' <= out_len /\
    match e with None => exists ts', ztake in_len (stream ts ++ X) = stream ts' /\ expand [] ts' = Some D' /\ r = zlen D' | Some _ => r = 0 end.
Proof.
  induction fuel as [|fuel IH]; intros ts X D R HX Hin Hex Ho Hf; [lia|].
  assert ((exists t Y D1, X = tok_bytes t ++ Y /\ zlen (stream ts) + zlen (tok_bytes t) <= in_len /\ tok_expand D t = Some D1 /\ zlen D1 <= out_len) \/
    exists e, decompress_step (stream ts ++ X) in_len (D ++ R) out_len (zlen (stream ts)) (zlen D) = Some (inl e)) as [(t & Y & D1 & EX & Hend & Et & Hfit)|[e E]].
  { destruct (read_token (stream ts) X in_len HX Hin) as [Hbad|(t & Y & EX & Hend & Ht)]; [right; apply Hbad|].
    destruct (Ht D R out_len) as [(D1 & Et & Hfit)|Hbad]; [left; by exists t, Y, D1|by right]. }
  2: { exists D, 0, (Some e). cbn [decompress_loop]. rewrite E, Z.sub_diag, zdrop_0 by lia. split; [done|]. split; [lia|done]. }
  cbn [decompress_loop].
  destruct (zlen_tok t D D1 Et) as [Hd H2]. rewrite (decompress_token _ (stream ts) t Y in_len D R D1 out_len) by first [by rewrite EX|done|lia]. cbn [mbind option_bind].
  assert (stream ts ++ X = stream (ts ++ [t]) ++ Y) as Eb by (rewrite stream_app, stream_1, EX; lapp).
  assert (zlen (stream (ts ++ [t])) = zlen (stream ts) + zlen (tok_bytes t)) as El by (rewrite stream_app, stream_1; len).
  assert (expand [] (ts ++ [t]) = Some D1) as Hex1 by (rewrite expand_app, Hex; cbn; by rewrite Et). rewrite zlen_app in Ho.
  destruct (Z.ltb_spec (zlen (stream ts) + zlen (tok_bytes t)) in_len) as [Hlt|Hge].
  - rewrite Eb in *. subst X. apply Forall_app in HX as [_ HY]. rewrite <- El in *.
    destruct (IH (ts ++ [t]) Y D1 (zdrop (zlen D1 - zlen D) R) HY) as (D' & r & e & -> & HD' & He); [lia|done|rewrite zlen_app, zlen_zdrop by lia; lia|lia|].
    exists D', r, e. rewrite zdrop_zdrop by lia. replace (zlen D1 - zlen D + (zlen D' - zlen D1)) with (zlen D' - zlen D) by lia. split; [done|]. split; [lia|done].
  - exists D1, (zlen D1), None. split; [done|]. split; [lia|]. exists (ts ++ [t]). split; [|done]. rewrite Eb. apply ztake_app_l. lia.
Qed.

(** The bytes of a stream. *)
Lemma copy_back_extends n : forall D off X, copy_back n D off = Some X -> D `prefix_of` X.
Proof.
  induction n as [|n IH]; intros D off X; cbn [copy_back]; [by intros [= ->]|]. destruct (D.[_]); [|done]. cbn [mbind option_bind].
  intros H%IH. etrans; [|exact H]. by apply prefix_app_r.
Qed.

Lemma tok_extends D t X : tok_expand D t = Some X -> D `prefix_of` X.
Proof.
  destruct t as [l|off len]; cbn [tok_expand]; case_match; try done; [intros [= <-]; by apply prefix_app_r|apply copy_back_extends].
Qed.

Lemma expand_extends ts : forall D X, expand D ts = Some X -> D `prefix_of` X.
Proof.
  induction ts as [|t ts IH]; intros D X; cbn [expand]; [by intros [= ->]|]. destruct (tok_expand D t) as [D1|] eqn:E; [|done].
  cbn [mbind option_bind]. intros H%IH. etrans; [by eapply tok_extends|done].
Qed.

Lemma stream_bytes ts : forall D X, expand D ts = Some X -> bytes_ok X -> bytes_ok (stream ts).
Proof.
  induction ts as [|t ts IH]; intros D X; cbn [expand]; [constructor|]. destruct (tok_expand D t) as [D1|] eqn:E; [|done].
  cbn [mbind option_bind]. intros He HX. change (stream (t :: ts)) with (tok_bytes t ++ stream ts). apply Forall_app. split; [|by eapply IH].
  destruct (expand_extends _ _ _ He) as [k ->]. apply Forall_app in HX as [HX _]. unfold is_byte.
  destruct t as [l|off len]; cbn [tok_expand tok_bytes] in *; case_match; try done.
  - injection E as <-. apply Forall_app in HX as [_ HX]. constructor; [lia|done].
  - case_match; repeat constructor; dlia.
Qed.

(** The output of the compressor, which may be a part of a larger block. *)
Lemma compress_roundtrip b in_len out_data out_len ht :
  bytes_ok b -> 1 <= in_len <= zlen b -> 2 <= zlen b -> in_len < 4294967296 -> (forall i, 0 <= ht i < 4294967296) ->
  0 <= out_len <= zlen out_data ->
  exists o r, lzf_compress b in_len out_data out_len ht = Some (o, r) /\ zlen o = zlen out_data /\ 0 <= r <= out_len /\
    (r <> 0 -> bytes_ok (ztake r o) /\ forall dst, in_len <= zlen dst ->
      lzf_decompress (ztake r o) r dst in_len = Some (ztake in_len b ++ zdrop in_len dst, in_len, None)).
Proof.
  intros Hb Hin H2 H32 Hht Hout. destruct (Z.eq_dec out_len 0) as [E0|E0].
  { exists out_data, 0. unfold lzf_compress. rewrite E0, orb_true_r. split_and!; try done; lia. }
  destruct (compress_spec b in_len out_len (zlen out_data) Hb Hin H32 ltac:(lia) out_data ht eq_refl ltac:(lia) H2 Hht) as (o & r & -> & Ho & Hr).
  exists o, r. split; [done|]. split; [done|]. destruct Hr as [[-> _]|(ts & R & Hne & -> & -> & Hex & _ & Hle)]; [split; [lia|done]|].
  pose proof (zlen_nonneg (stream ts)). split; [lia|]. intros _. rewrite ztake_app_l by done.
  split; [apply (stream_bytes ts [] _ Hex), bytes_ok_ztake, Hb|]. intros dst Hdst. unfold lzf_decompress.
  pose proof (decompress_tokens ts (S (Z.to_nat (zlen (stream ts)))) [] [] [] dst (ztake in_len b) in_len Hne) as Hd. cbn [app] in Hd. rewrite app_nil_r in Hd.
  rewrite !zlen_nil, zlen_ztake, Z.sub_0_r in Hd by lia. apply Hd; [unfold zlen; lia|done|lia].
Qed.

(** ** Properties *)

(** C11. Round trip. For every input of at least one byte (in a block of at least two), every output block
    and every initial content of the hash table, lzf_compress stays inside both blocks and terminates; when
    it returns a length other than 0, lzf_decompress turns that many bytes of the output back into the input. *)
Theorem lzf_roundtrip b in_len out_data out_len ht dst :
  bytes_ok b -> 1 <= in_len <= zlen b -> 2 <= zlen b -> in_len < 4294967296 -> (forall i, 0 <= ht i < 4294967296) ->
  0 <= out_len <= zlen out_data -> in_len <= zlen dst ->
  exists o r, lzf_compress b in_len out_data out_len ht = Some (o, r) /\ zlen o = zlen out_data /\ 0 <= r <= out_len /\
    (r <> 0 -> lzf_decompress (ztake r o) r dst in_len = Some (ztake in_len b ++ zdrop in_len dst, in_len, None)).
Proof.
  intros Hb Hin H2 H32 Hht Hout Hdst.
  destruct (compress_roundtrip b in_len out_data out_len ht Hb Hin H2 H32 Hht Hout) as (o & r & E & Ho & Hr & Hd).
  exists o, r. split; [done|]. split; [done|]. split; [done|]. intros Hr0. by apply Hd.
Qed.

(** C27. The decompressor on any input of at least one byte, corrupted ones included: it reads only the [in_len] bytes of
    the input, writes only the first [out_len] bytes of the output and terminates.  It returns the length of what it
    wrote, without an error, exactly when the input is a sequence of literal runs and back references, each back
    reference to bytes that are already there, whose expansion fits in the output; then the output starts with that
    expansion and is unchanged behind it.  Otherwise it returns 0 and an error. *)
Theorem lzf_decompress_exact b in_len o out_len :
  bytes_ok b -> 1 <= in_len <= zlen b -> 0 <= out_len <= zlen o ->
  exists o' r e, lzf_decompress b in_len o out_len = Some (o', r, e) /\ zlen o' = zlen o /\ zdrop out_len o' = zdrop out_len o /\
    match e with
    | None => 0 < r <= out_len /\ exists ts D, ztake in_len b = stream ts /\ expand [] ts = Some D /\ r = zlen D /\ o' = D ++ zdrop r o
    | Some _ => r = 0 /\ forall ts D, ztake in_len b = stream ts -> expand [] ts = Some D -> out_len < zlen D
    end.
Proof.
  intros Hb Hin Ho. destruct (decompress_loop_exact (S (Z.to_nat in_len)) in_len out_len [] b [] o Hb) as (D & r & e & E & HD & He);
    [change (zlen (stream [])) with 0; change (stream [] ++ b) with b; lia|done|change (zlen (@nil Z)) with 0; cbn [app]; lia|change (zlen (stream [])) with 0; lia|].
  change (zlen (stream [])) with 0 in E. change (zlen (@nil Z)) with 0 in E, HD. cbn [app] in E, He. change (stream []) with (@nil Z) in E, He. cbn [app] in E, He. rewrite Z.sub_0_r in E.
  exists (D ++ zdrop (zlen D) o), r, e. split; [exact E|]. split; [rewrite zlen_app, zlen_zdrop by lia; lia|].
  split; [rewrite zdrop_app_ge, zdrop_zdrop by lia; f_equal; lia|]. destruct e as [e|].
  - split; [done|]. intros ts D' Es Hx. destruct (Z.lt_ge_cases out_len (zlen D')) as [|Hge]; [done|exfalso].
    assert (ts <> []) as Hne. { intros ->. apply (f_equal zlen) in Es. rewrite zlen_ztake in Es by lia. change (zlen (stream [])) with 0 in Es. lia. }
    assert (zlen (stream ts) = in_len) as Hl by (rewrite <- Es, zlen_ztake; lia).
    pose proof (decompress_tokens ts (S (Z.to_nat in_len)) [] (zdrop in_len b) [] o D' out_len Hne ltac:(unfold zlen in Hl; lia) Hx ltac:(cbn [app]; lia)) as Ed.
    cbn [app] in Ed. rewrite Hl, <- Es, ztake_zdrop in Ed. change (zlen (@nil Z)) with 0 in Ed. unfold lzf_decompress in E. rewrite Ed in E. done.
  - destruct He as (ts & Es & Hx & ->). split; [|by exists ts, D]. split; [|lia]. destruct ts as [|t ts].
    + apply (f_equal zlen) in Es. rewrite zlen_ztake in Es by lia. change (zlen (stream [])) with 0 in Es. lia.
    + cbn [expand] in Hx. destruct (tok_expand [] t) as [D1|] eqn:Et; [|done]. apply zlen_tok in Et as [Ht _]. apply zlen_expand in Hx. change (zlen (@nil Z)) with 0 in Ht. lia.
Qed.

(** Size of the output: at most one byte more than 33/32 of the input, and room for five bytes more than
    33/32 of the input is always enough. *)
Theorem lzf_compress_size b in_len out_data ht :
  bytes_ok b -> 1 <= in_len <= zlen b -> 2 <= zlen b -> in_len < 4294967296 -> (forall i, 0 <= ht i < 4294967296) ->
  exists o r, lzf_compress b in_len out_data (zlen out_data) ht = Some (o, r) /\
    32 * r <= 33 * in_len + 32 /\ (33 * in_len + 160 < 32 * zlen out_data -> r <> 0).
Proof.
  intros Hb Hin H2 H32 Hht. pose proof (zlen_nonneg out_data). destruct (Z.eq_dec (zlen out_data) 0) as [E0|E0].
  { exists out_data, 0. unfold lzf_compress. rewrite E0, orb_true_r. split_and!; try done; lia. }
  destruct (compress_spec b in_len (zlen out_data) (zlen out_data) Hb Hin H32 ltac:(lia) out_data ht eq_refl ltac:(lia) H2 Hht) as (o & r & -> & Ho & Hr).
  exists o, r. split; [done|]. destruct Hr as [[-> Hf]|(ts & R & Hne & -> & -> & Hex & Hs & _)]; [split; lia|]. split; [done|].
  intros _ E. apply zlen_0_nil in E. destruct ts as [|t ts]; [done|]. cbn [expand] in Hex. destruct (tok_expand [] t) eqn:Et; [|done].
  destruct (zlen_tok _ _ _ Et) as [_ Ht]. apply (f_equal zlen) in E. change (stream (t :: ts)) with (tok_bytes t ++ stream ts) in E.
  rewrite zlen_app, zlen_nil in E. pose proof (zlen_nonneg (stream ts)). lia.
Qed.

(** A single byte is read together with the byte behind it: the hash of the first two bytes is computed
    before the length is tested. *)
Theorem lzf_compress_one_byte x out_data out_len ht : out_len <> 0 -> lzf_compress [x] 1 out_data out_len ht = None.
Proof. intros H. unfold lzf_compress. by rewrite (proj2 (Z.eqb_neq _ _) H). Qed.

(** Four different bytes take five: more than 104% of the input. *)
Theorem lzf_compress_grows : snd <$> lzf_compress [1; 2; 3; 4] 4 (repeat 0 8) 8 (fun _ => 0) = Some 5.
Proof. vm_compute. reflexivity. Qed.

(** ** Witnesses *)

Definition demo_text : bytes := concat (repeat [97; 98; 99] 11) ++ [45; 120; 121; 122].

Lemma demo_text_ok : bytes_ok demo_text.
Proof. repeat constructor; vm_compute; congruence. Qed.

Lemma lzf_roundtrip_witness :
  exists o, lzf_compress demo_text 37 (repeat 0 36) 36 (fun _ => 0) = Some (o, 13) /\
    lzf_decompress (ztake 13 o) 13 (repeat 0 37) 37 = Some (demo_text, 37, None).
Proof.
  destruct (lzf_roundtrip demo_text 37 (repeat 0 36) 36 (fun _ => 0) (repeat 0 37)) as (o & r & E & _ & _ & Hd);
    [exact demo_text_ok|vm_compute; split; congruence|vm_compute; congruence|lia|intros; lia|vm_compute; split; congruence|vm_compute; congruence|].
  vm_compute in E. injection E as <- <-. eexists. split; [vm_compute; reflexivity|]. exact (Hd ltac:(discriminate)).
Defined.

Lemma lzf_decompress_exact_witness :
  exists o' r e, lzf_decompress [2; 65; 66; 67; 96; 2] 6 (repeat 0 9) 8 = Some (o', r, e) /\ o' = [65; 66; 67; 65; 66; 67; 65; 66; 0] /\
    match e with
    | None => 0 < r <= 8 /\ exists ts D, [2; 65; 66; 67; 96; 2] = stream ts /\ expand [] ts = Some D /\ r = zlen D /\ o' = D ++ zdrop r (repeat 0 9)
    | Some _ => r = 0 /\ forall ts D, [2; 65; 66; 67; 96; 2] = stream ts -> expand [] ts = Some D -> 8 < zlen D
    end.
Proof.
  destruct (lzf_decompress_exact [2; 65; 66; 67; 96; 2] 6 (repeat 0 9) 8) as (o' & r & e & E & _ & _ & He);
    [repeat constructor; vm_compute; congruence|vm_compute; split; congruence|vm_compute; split; congruence|].
  exists o', r, e. split; [exact E|]. split; [vm_compute in E; by injection E as <- _ _|exact He].
Defined.

Lemma lzf_compress_size_witness :
  exists o r, lzf_compress demo_text 37 (repeat 0 44) 44 (fun _ => 0) = Some (o, r) /\ 32 * r <= 33 * 37 + 32 /\ r <> 0.
Proof.
  destruct (lzf_compress_size demo_text 37 (repeat 0 44) (fun _ => 0)) as (o & r & E & Hs & Hn);
    [exact demo_text_ok|vm_compute; split; congruence|vm_compute; congruence|lia|intros; lia|].
  exists o, r. split; [exact E|]. split; [exact Hs|apply Hn; vm_compute; reflexivity].
Defined.
