(* ===== verification/Sds.v ===== *)
(** * Dynamic strings: header and allocation (sds.h, sds.c)

    An sds string is a pointer to the character buffer of an allocation whose
    header lies just before it.  The record [sds] is that allocation: the
    [flags] byte, the [len] and [alloc] fields of the header struct selected
    by the flags, and the bytes of [buf], which end with the allocation.  A
    header of type 5 has no [len] and [alloc] fields; [hlen] and [halloc] are
    not read for it.  The fields are truncated to the width of the struct they
    belong to, sizes to [size_t] (64 bit).

    [None] is an access outside the allocation or a failed assert().  zmalloc
    aborts the process when it has no memory, so the NULL branches after an
    allocation are dead and not modelled. *)

From stdpp Require Import base list numbers option strings.
From Stdlib Require Import ZArith Lia.
From S2P Require Import Prelude.

(** ** Header accessors (sds.h) *)

Record sds := mk_sds { flags : Z; hlen : Z; halloc : Z; buf : bytes }.

Definition SDS_TYPE_5 : Z := 0.
Definition SDS_TYPE_8 : Z := 1.
Definition SDS_TYPE_16 : Z := 2.
Definition SDS_TYPE_32 : Z := 3.
Definition SDS_TYPE_64 : Z := 4.
Definition SDS_TYPE_MASK : Z := 7.
Definition SDS_TYPE_BITS : Z := 3.
Definition SDS_MAX_PREALLOC : Z := 1024 * 1024.

Definition SDS_TYPE_5_LEN (f : Z) : Z := Z.shiftr f SDS_TYPE_BITS.

(** [flags & SDS_TYPE_MASK]. *)
Definition sds_type (s : sds) : Z := Z.land (flags s) SDS_TYPE_MASK.

Definition set_flags (f : Z) (s : sds) : sds := mk_sds f (hlen s) (halloc s) (buf s).
Definition set_hlen (n : Z) (s : sds) : sds := mk_sds (flags s) n (halloc s) (buf s).
Definition set_halloc (n : Z) (s : sds) : sds := mk_sds (flags s) (hlen s) n (buf s).
Definition set_buf (b : bytes) (s : sds) : sds := mk_sds (flags s) (hlen s) (halloc s) b.

Definition sdslen (s : sds) : Z :=
  let t := sds_type s in
  if t =? SDS_TYPE_5 then SDS_TYPE_5_LEN (flags s)
  else if t =? SDS_TYPE_8 then hlen s
  else if t =? SDS_TYPE_16 then hlen s
  else if t =? SDS_TYPE_32 then hlen s
  else if t =? SDS_TYPE_64 then hlen s
  else 0.

(** The subtraction is done in [int] for the 8 and 16 bit fields and in the
    type of the fields for the wider ones. *)
Definition sdsavail (s : sds) : Z :=
  let t := sds_type s in
  if t =? SDS_TYPE_5 then 0
  else if t =? SDS_TYPE_8 then u64 (halloc s - hlen s)
  else if t =? SDS_TYPE_16 then u64 (halloc s - hlen s)
  else if t =? SDS_TYPE_32 then u32 (halloc s - hlen s)
  else if t =? SDS_TYPE_64 then u64 (halloc s - hlen s)
  else 0.

Definition sdssetlen (s : sds) (newlen : Z) : sds :=
  let t := sds_type s in
  if t =? SDS_TYPE_5 then set_flags (u8 (Z.lor SDS_TYPE_5 (Z.shiftl newlen SDS_TYPE_BITS))) s
  else if t =? SDS_TYPE_8 then set_hlen (u8 newlen) s
  else if t =? SDS_TYPE_16 then set_hlen (u16 newlen) s
  else if t =? SDS_TYPE_32 then set_hlen (u32 newlen) s
  else if t =? SDS_TYPE_64 then set_hlen (u64 newlen) s
  else s.

Definition sdsinclen (s : sds) (inc : Z) : sds :=
  let t := sds_type s in
  if t =? SDS_TYPE_5 then
    let newlen := u8 (SDS_TYPE_5_LEN (flags s) + inc) in
    set_flags (u8 (Z.lor SDS_TYPE_5 (Z.shiftl newlen SDS_TYPE_BITS))) s
  else if t =? SDS_TYPE_8 then set_hlen (u8 (hlen s + inc)) s
  else if t =? SDS_TYPE_16 then set_hlen (u16 (hlen s + inc)) s
  else if t =? SDS_TYPE_32 then set_hlen (u32 (hlen s + inc)) s
  else if t =? SDS_TYPE_64 then set_hlen (u64 (hlen s + inc)) s
  else s.

Definition sdsalloc (s : sds) : Z :=
  let t := sds_type s in
  if t =? SDS_TYPE_5 then SDS_TYPE_5_LEN (flags s)
  else if t =? SDS_TYPE_8 then halloc s
  else if t =? SDS_TYPE_16 then halloc s
  else if t =? SDS_TYPE_32 then halloc s
  else if t =? SDS_TYPE_64 then halloc s
  else 0.

Definition sdssetalloc (s : sds) (newlen : Z) : sds :=
  let t := sds_type s in
  if t =? SDS_TYPE_5 then s
  else if t =? SDS_TYPE_8 then set_halloc (u8 newlen) s
  else if t =? SDS_TYPE_16 then set_halloc (u16 newlen) s
  else if t =? SDS_TYPE_32 then set_halloc (u32 newlen) s
  else if t =? SDS_TYPE_64 then set_halloc (u64 newlen) s
  else s.

(** [s[i] = x] and [memcpy(s + off, bs, ...)]. *)
Definition sds_write (s : sds) (off : Z) (bs : bytes) : option sds :=
  b ← store (buf s) off bs; Some (set_buf b s).

(** ** Creation and allocation (sds.c) *)

Definition sdsHdrSize (type : Z) : Z :=
  let t := Z.land type SDS_TYPE_MASK in
  if t =? SDS_TYPE_5 then 1
  else if t =? SDS_TYPE_8 then 3
  else if t =? SDS_TYPE_16 then 5
  else if t =? SDS_TYPE_32 then 9
  else if t =? SDS_TYPE_64 then 17
  else 0.

Definition sdsReqType (string_size : Z) : Z :=
  if string_size <? 2 ^ 5 then SDS_TYPE_5
  else if string_size <? 2 ^ 8 then SDS_TYPE_8
  else if string_size <? 2 ^ 16 then SDS_TYPE_16
  else if string_size <? 2 ^ 32 then SDS_TYPE_32
  else SDS_TYPE_64.

(** [strlen]: [None] when the block holds no terminator. *)
Fixpoint strlen (b : bytes) : option Z :=
  match b with
  | [] => None
  | c :: r => if c =? 0 then Some 0 else n ← strlen r; Some (n + 1)
  end.

(** The [init] argument of sdsnewlen: NULL, SDS_NOINIT or a pointer. *)
Inductive sds_init := InitNull | InitNoInit | InitPtr (b : bytes).

Section Ops.
Context `{FreshMem}.

(** The buffer part of an allocation of [hdrlen+n+1] bytes. *)
Definition alloc_buf (hdrlen n : Z) : bytes := malloc (u64 (hdrlen + n + 1) - hdrlen).
Definition realloc_buf (b : bytes) (hdrlen n : Z) : bytes :=
  realloc b (u64 (hdrlen + n + 1) - hdrlen).

(** The switch of sdsnewlen that fills in the header. *)
Definition new_header (type initlen : Z) (b : bytes) : sds :=
  if type =? SDS_TYPE_5 then mk_sds (u8 (Z.lor type (Z.shiftl initlen SDS_TYPE_BITS))) 0 0 b
  else if type =? SDS_TYPE_8 then mk_sds type (u8 initlen) (u8 initlen) b
  else if type =? SDS_TYPE_16 then mk_sds type (u16 initlen) (u16 initlen) b
  else if type =? SDS_TYPE_32 then mk_sds type (u32 initlen) (u32 initlen) b
  else mk_sds type (u64 initlen) (u64 initlen) b.

Definition sdsnewlen (init : sds_init) (initlen : Z) : option sds :=
  let type := sdsReqType initlen in
  let type := if (type =? SDS_TYPE_5) && (initlen =? 0) then SDS_TYPE_8 else type in
  let hdrlen := sdsHdrSize type in
  let b := alloc_buf hdrlen initlen in
  let b := match init with InitNull => replicate (length b) 0 | _ => b end in
  let s := new_header type initlen b in
  s ← match init with
      | InitPtr p => if initlen =? 0 then Some s else src ← load p 0 initlen; sds_write s 0 src
      | _ => Some s
      end;
  sds_write s initlen [0].

Definition sdsempty : option sds := sdsnewlen (InitPtr [0]) 0.

(** The argument is NULL or a block holding a C string. *)
Definition sdsnew (init : option bytes) : option sds :=
  match init with
  | None => sdsnewlen InitNull 0
  | Some p => initlen ← strlen p; sdsnewlen (InitPtr p) initlen
  end.

Definition sdsdup (s : sds) : option sds := sdsnewlen (InitPtr (buf s)) (sdslen s).

Definition sdsupdatelen (s : sds) : option sds :=
  reallen ← strlen (buf s); Some (sdssetlen s reallen).

Definition sdsclear (s : sds) : option sds := sds_write (sdssetlen s 0) 0 [0].

Definition sdsMakeRoomFor (s : sds) (addlen : Z) : option sds :=
  let avail := sdsavail s in
  let oldtype := sds_type s in
  if addlen <=? avail then Some s else
  let len := sdslen s in
  let newlen := u64 (len + addlen) in
  let newlen :=
    if newlen <? SDS_MAX_PREALLOC then u64 (newlen * 2) else u64 (newlen + SDS_MAX_PREALLOC) in
  let type := sdsReqType newlen in
  let type := if type =? SDS_TYPE_5 then SDS_TYPE_8 else type in
  let hdrlen := sdsHdrSize type in
  if oldtype =? type then
    Some (sdssetalloc (set_buf (realloc_buf (buf s) hdrlen newlen) s) newlen)
  else
    old ← load (buf s) 0 (u64 (len + 1));
    b ← store (alloc_buf hdrlen newlen) 0 old;
    Some (sdssetalloc (sdssetlen (mk_sds type 0 0 b) len) newlen).

Definition sdsRemoveFreeSpace (s : sds) : option sds :=
  let oldtype := sds_type s in
  let oldhdrlen := sdsHdrSize oldtype in
  let len := sdslen s in
  let avail := sdsavail s in
  if avail =? 0 then Some s else
  let type := sdsReqType len in
  let hdrlen := sdsHdrSize type in
  if (oldtype =? type) || (SDS_TYPE_8 <? type) then
    Some (sdssetalloc (set_buf (realloc_buf (buf s) oldhdrlen len) s) len)
  else
    old ← load (buf s) 0 (u64 (len + 1));
    b ← store (alloc_buf hdrlen len) 0 old;
    Some (sdssetalloc (sdssetlen (mk_sds type 0 0 b) len) len).

Definition sdsAllocSize (s : sds) : Z := u64 (sdsHdrSize (flags s) + sdsalloc s + 1).

(** The assert() of sdsIncrLen, with the casts of the source: the negated
    increment is cut to [unsigned int] for all headers but the widest. *)
Definition incrlen_assert (s : sds) (incr : Z) : bool :=
  let t := sds_type s in
  if t =? SDS_TYPE_5 then
    let oldlen := u8 (SDS_TYPE_5_LEN (flags s)) in
    ((0 <? incr) && (oldlen + incr <? 32)) || ((incr <? 0) && (u32 (- incr) <=? oldlen))
  else if (t =? SDS_TYPE_8) || (t =? SDS_TYPE_16) then
    ((0 <=? incr) && (incr <=? halloc s - hlen s)) || ((incr <? 0) && (u32 (- incr) <=? hlen s))
  else if t =? SDS_TYPE_32 then
    ((0 <=? incr) && (u32 incr <=? u32 (halloc s - hlen s)))
    || ((incr <? 0) && (u32 (- incr) <=? hlen s))
  else if t =? SDS_TYPE_64 then
    ((0 <=? incr) && (u64 incr <=? u64 (halloc s - hlen s)))
    || ((incr <? 0) && (u64 (- incr) <=? hlen s))
  else true.

Definition sdsIncrLen (s : sds) (incr : Z) : option sds :=
  let t := sds_type s in
  if negb (incrlen_assert s incr) then None
  else if t =? SDS_TYPE_5 then
    let oldlen := u8 (SDS_TYPE_5_LEN (flags s)) in
    let s := set_flags (u8 (Z.lor SDS_TYPE_5 (Z.shiftl (oldlen + incr) SDS_TYPE_BITS))) s in
    sds_write s (u64 (oldlen + incr)) [0]
  else if t =? SDS_TYPE_8 then
    let len := u8 (hlen s + incr) in sds_write (set_hlen len s) len [0]
  else if t =? SDS_TYPE_16 then
    let len := u16 (hlen s + incr) in sds_write (set_hlen len s) len [0]
  else if t =? SDS_TYPE_32 then
    let len := u32 (hlen s + incr) in sds_write (set_hlen len s) len [0]
  else if t =? SDS_TYPE_64 then
    let len := u64 (hlen s + incr) in sds_write (set_hlen len s) len [0]
  else sds_write s 0 [0].

Definition sdsgrowzero (s : sds) (len : Z) : option sds :=
  let curlen := sdslen s in
  if len <=? curlen then Some s else
  s ← sdsMakeRoomFor s (len - curlen);
  s ← sds_write s curlen (replicate (Z.to_nat (len - curlen + 1)) 0);
  Some (sdssetlen s len).

(** ** Concatenation and copy *)

Definition sdscatlen (s : sds) (t : bytes) (len : Z) : option sds :=
  let curlen := sdslen s in
  s ← sdsMakeRoomFor s len;
  src ← load t 0 len;
  s ← sds_write s curlen src;
  sds_write (sdssetlen s (u64 (curlen + len))) (u64 (curlen + len)) [0].

Definition sdscat (s : sds) (t : bytes) : option sds := n ← strlen t; sdscatlen s t n.

Definition sdscatsds (s t : sds) : option sds := sdscatlen s (buf t) (sdslen t).

Definition sdscpylen (s : sds) (t : bytes) (len : Z) : option sds :=
  s ← (if sdsalloc s <? len then sdsMakeRoomFor s (u64 (len - sdslen s)) else Some s);
  src ← load t 0 len;
  s ← sds_write s 0 src;
  s ← sds_write s len [0];
  Some (sdssetlen s len).

Definition sdscpy (s : sds) (t : bytes) : option sds := n ← strlen t; sdscpylen s t n.

End Ops.

(** ** Headers

    [hdr_ok s len alloc]: the header of [s] is one of the five kinds and
    records the length [len] and the capacity [alloc]. *)

Definition hdr_bits (t : Z) : Z :=
  if t =? SDS_TYPE_8 then 8 else if t =? SDS_TYPE_16 then 16
  else if t =? SDS_TYPE_32 then 32 else 64.

Inductive hdr_ok (s : sds) : Z -> Z -> Prop :=
  | hdr_5 len : flags s = 8 * len -> 0 <= len < 32 -> hdr_ok s len len
  | hdr_n len alloc :
      1 <= flags s <= 4 -> hlen s = len -> halloc s = alloc ->
      0 <= len <= alloc -> alloc < 2 ^ hdr_bits (flags s) -> hdr_ok s len alloc.

Lemma mask7 f : Z.land f SDS_TYPE_MASK = f mod 8.
Proof. apply (Z.land_ones f 3). lia. Qed.

Lemma shift3 f : SDS_TYPE_5_LEN f = f / 8.
Proof. unfold SDS_TYPE_5_LEN, SDS_TYPE_BITS. by rewrite Z.shiftr_div_pow2. Qed.

Lemma flags5 n : 0 <= n < 32 -> u8 (Z.lor SDS_TYPE_5 (Z.shiftl n SDS_TYPE_BITS)) = 8 * n.
Proof.
  intros. rewrite Z.lor_0_l, Z.shiftl_mul_pow2 by (unfold SDS_TYPE_BITS; lia).
  change (2 ^ SDS_TYPE_BITS) with 8. apply wrapu_eq; [lia|]. unfold in_u. lia.
Qed.

Lemma type_5 s len : flags s = 8 * len -> sds_type s = SDS_TYPE_5.
Proof. intros E. unfold sds_type. rewrite mask7, E. unfold SDS_TYPE_5. dlia. Qed.

Lemma type_n s : 1 <= flags s <= 4 -> sds_type s = flags s.
Proof. intros. unfold sds_type. rewrite mask7. apply Z.mod_small. lia. Qed.

Lemma flags_cases f : 1 <= f <= 4 -> f = 1 \/ f = 2 \/ f = 3 \/ f = 4.
Proof. lia. Qed.

(** Unfold a header operation for each kind of header; the wrap-arounds are
    idle because the values fit the fields. *)
Ltac wrap_idle :=
  repeat match goal with
  | |- context [ wrapu ?w ?z ] => rewrite (wrapu_small w z) by (unfold in_u; cbn; lia)
  end.
Ltac hdr_unfold Hf :=
  let E := fresh in
  destruct (flags_cases _ Hf) as [E|[E|[E|E]]]; rewrite ?E in *; cbn -[wrapu Z.sub Z.add] in *.

Lemma hdr_len s len alloc : hdr_ok s len alloc -> sdslen s = len.
Proof.
  unfold sdslen. intros [len' E Hl|len' al Hf Hl Ha _ _].
  - rewrite (type_5 s len') by done. cbn. rewrite shift3. dlia.
  - rewrite type_n by done. by hdr_unfold Hf.
Qed.

Lemma hdr_alloc s len alloc : hdr_ok s len alloc -> sdsalloc s = alloc.
Proof.
  unfold sdsalloc. intros [len' E Hl|len' al Hf Hl Ha _ _].
  - rewrite (type_5 s len') by done. cbn. rewrite shift3. dlia.
  - rewrite type_n by done. by hdr_unfold Hf.
Qed.

Lemma hdr_avail s len alloc : hdr_ok s len alloc -> sdsavail s = alloc - len.
Proof.
  unfold sdsavail. intros [len' E Hl|len' al Hf <- <- Hr Hm].
  - rewrite (type_5 s len') by done. cbn. lia.
  - rewrite type_n by done. hdr_unfold Hf; unfold u64, u32; wrap_idle; done.
Qed.

Lemma hdr_range s len alloc : hdr_ok s len alloc -> 0 <= len <= alloc.
Proof. intros [?|?]; lia. Qed.

Lemma hdr_room s len alloc : hdr_ok s len alloc -> len < alloc -> sds_type s <> SDS_TYPE_5.
Proof. intros [?|? ? Hf]; [lia|]. rewrite type_n by done. unfold SDS_TYPE_5. lia. Qed.

(** The capacity a header records after its length is set to [n]. *)
Definition cap (s : sds) (alloc n : Z) : Z := if sds_type s =? SDS_TYPE_5 then n else alloc.

Lemma cap_le s alloc n : n <= alloc -> n <= cap s alloc n <= alloc.
Proof. unfold cap. case_match; lia. Qed.

Lemma hdr_setlen s len alloc n :
  hdr_ok s len alloc -> 0 <= n <= alloc ->
  hdr_ok (sdssetlen s n) n (cap s alloc n) /\ buf (sdssetlen s n) = buf s /\
  sds_type (sdssetlen s n) = sds_type s.
Proof.
  unfold sdssetlen, cap. intros [len' E Hl|len' al Hf Hl Ha Hr Hm] Hn.
  - rewrite (type_5 s len') by done. cbn [Z.eqb SDS_TYPE_5]. rewrite flags5 by lia.
    split_and!; [by apply hdr_5; [|lia]|done|]. by apply (type_5 _ n).
  - rewrite type_n by done.
    hdr_unfold Hf; unfold u8, u16, u32, u64; wrap_idle; (split_and!; [|done|unfold sds_type; cbn; by rewrite H]);
      apply hdr_n; cbn; rewrite ?H; cbn; lia.
Qed.

Lemma hdr_inclen s len alloc n :
  hdr_ok s len alloc -> 0 <= n -> len + n <= alloc ->
  hdr_ok (sdsinclen s n) (len + n) alloc /\ buf (sdsinclen s n) = buf s /\
  sds_type (sdsinclen s n) = sds_type s.
Proof.
  unfold sdsinclen. intros [len' E Hl|len' al Hf Hl Ha Hr Hm] Hn Hle.
  - assert (n = 0) as -> by lia. rewrite (type_5 s len') by done. cbn [Z.eqb SDS_TYPE_5].
    rewrite shift3. assert (u8 (flags s / 8 + 0) = len') as ->.
    { apply wrapu_eq; [dlia|unfold in_u; lia]. }
    rewrite flags5, !Z.add_0_r by lia. split_and!; [by apply hdr_5|done|]. by apply (type_5 _ len').
  - rewrite type_n by done. subst len' al.
    hdr_unfold Hf; unfold u8, u16, u32, u64; wrap_idle; (split_and!; [|done|unfold sds_type; cbn; by rewrite H]);
      apply hdr_n; cbn; rewrite ?H; cbn; lia.
Qed.

Lemma hdr_set_buf s b len alloc : hdr_ok s len alloc -> hdr_ok (set_buf b s) len alloc.
Proof. intros [?|?]; [by apply hdr_5|by apply hdr_n]. Qed.

Lemma hdr_setalloc s len alloc n :
  hdr_ok s len alloc -> sds_type s <> SDS_TYPE_5 -> len <= n < 2 ^ hdr_bits (sds_type s) ->
  hdr_ok (sdssetalloc s n) len n /\ buf (sdssetalloc s n) = buf s /\
  sds_type (sdssetalloc s n) = sds_type s.
Proof.
  unfold sdssetalloc. intros [len' E Hl|len' al Hf Hl Ha Hr Hm] Ht Hn.
  { by destruct Ht; apply (type_5 _ len'). }
  rewrite type_n in * by done.
  hdr_unfold Hf; unfold u8, u16, u32, u64; wrap_idle; (split_and!; [|done|unfold sds_type; cbn; by rewrite H]);
    apply hdr_n; cbn; rewrite ?H; cbn; lia.
Qed.

Lemma reqtype_spec n : 0 <= n < 2 ^ 64 ->
  (sdsReqType n = SDS_TYPE_5 /\ n < 32) \/ (1 <= sdsReqType n <= 4 /\ 32 <= n < 2 ^ hdr_bits (sdsReqType n)).
Proof.
  intros. unfold sdsReqType. repeat zcase; cbn;
    unfold SDS_TYPE_5, SDS_TYPE_8, SDS_TYPE_16, SDS_TYPE_32, SDS_TYPE_64; lia.
Qed.

Lemma hdrsize_range t : 0 <= t <= 4 -> 1 <= sdsHdrSize t <= 17.
Proof.
  intros. assert (t = 0 \/ t = 1 \/ t = 2 \/ t = 3 \/ t = 4) as [->|[->|[->|[->| ->]]]] by lia; by vm_compute.
Qed.

(** ** Representation

    [sds_at s c x free]: the string [s] holds the bytes [c], followed by [x] in
    the place of the terminator, and has room for [free] more.  Type 5 headers
    do not record free space, so the buffer may be larger than they say. *)

Record sds_at (s : sds) (c : bytes) (x free : Z) : Prop := {
  at_hdr : hdr_ok s (zlen c) (zlen c + free);
  at_buf : exists junk, buf s = c ++ x :: junk /\ free <= zlen junk /\
             (sds_type s = SDS_TYPE_5 \/ zlen junk = free)
}.

(** A well formed string is terminated. *)
Definition sds_repr (s : sds) (c : bytes) (free : Z) : Prop := sds_at s c 0 free.

(** Strings below this length never meet the 64 bit wrap-around of a size. *)
Definition SDS_BOUND : Z := 2 ^ 62.

Lemma at_free s c x free : sds_at s c x free -> 0 <= free.
Proof. intros [Hh _]. apply hdr_range in Hh. lia. Qed.
Lemma at_len s c x free : sds_at s c x free -> sdslen s = zlen c.
Proof. intros [Hh _]. by apply hdr_len in Hh. Qed.
Lemma at_alloc s c x free : sds_at s c x free -> sdsalloc s = zlen c + free.
Proof. intros [Hh _]. by apply hdr_alloc in Hh. Qed.
Lemma at_avail s c x free : sds_at s c x free -> sdsavail s = free.
Proof. intros [Hh _]. apply hdr_avail in Hh. lia. Qed.

(** Writing inside the capacity: the whole buffer is given by the bytes before
    the write, the written ones and the rest. *)
Lemma write_spec s b1 old b2 off bs :
  buf s = b1 ++ old ++ b2 -> off = zlen b1 -> zlen bs = zlen old ->
  sds_write s off bs = Some (set_buf (b1 ++ bs ++ b2) s).
Proof. intros. unfold sds_write. by erewrite store_at by done. Qed.

(** Cut the contents and the free space of a string to a new length [zlen c']. *)
Lemma at_setlen s len alloc c' x junk :
  hdr_ok s len alloc -> buf s = c' ++ x :: junk -> zlen c' <= alloc -> alloc - zlen c' <= zlen junk ->
  (sds_type s = SDS_TYPE_5 \/ zlen junk = alloc - zlen c') ->
  exists free, sds_at (sdssetlen s (zlen c')) c' x free /\ free <= alloc - zlen c' /\
    (sds_type s = SDS_TYPE_5 \/ free = alloc - zlen c').
Proof.
  intros Hh Hb Hc Hj Ht. pose proof (zlen_nonneg c').
  destruct (hdr_setlen s len alloc (zlen c')) as (Hh' & Eb & Et); [done|lia|].
  pose proof (cap_le s alloc (zlen c') Hc). exists (cap s alloc (zlen c') - zlen c'). split.
  - split; [by replace (zlen c' + (cap s alloc (zlen c') - zlen c')) with (cap s alloc (zlen c')) by lia|].
    exists junk. rewrite Eb, Et. split; [done|]. split; [lia|].
    destruct Ht as [|Ht]; [by left|]. unfold cap. case_match eqn:E; [left|right; lia].
    by apply Z.eqb_eq.
  - split; [lia|]. unfold cap. case_match eqn:E; [left; by apply Z.eqb_eq|right; lia].
Qed.

Lemma u64_small z : 0 <= z < 18446744073709551616 -> u64 z = z.
Proof. intros. apply wrapu_small. unfold in_u. cbn. lia. Qed.

Ltac u64s :=
  repeat match goal with |- context [ u64 ?z ] => rewrite (u64_small z) by lia end.

Lemma setlen_n t l a b n :
  1 <= t <= 4 -> sdssetlen (mk_sds t l a b) n = mk_sds t (wrapu (hdr_bits t) n) a b.
Proof. intros Ht. by destruct (flags_cases _ Ht) as [->|[->|[->| ->]]]. Qed.

Lemma setalloc_n t l a b n :
  1 <= t <= 4 -> sdssetalloc (mk_sds t l a b) n = mk_sds t l (wrapu (hdr_bits t) n) b.
Proof. intros Ht. by destruct (flags_cases _ Ht) as [->|[->|[->| ->]]]. Qed.

Lemma new_hdr t b len n :
  1 <= t <= 4 -> 0 <= len <= n -> n < 2 ^ hdr_bits t ->
  let s := sdssetalloc (sdssetlen (mk_sds t 0 0 b) len) n in
  hdr_ok s len n /\ buf s = b /\ sds_type s = t.
Proof.
  intros Ht Hl Hn. rewrite setlen_n, setalloc_n by done.
  rewrite !wrapu_small by (unfold in_u; lia). cbn zeta.
  split_and!; [by apply hdr_n|done|by apply type_n].
Qed.

Lemma new_hdr5 b len n :
  0 <= len < 32 -> sdssetalloc (sdssetlen (mk_sds SDS_TYPE_5 0 0 b) len) n = mk_sds (8 * len) 0 0 b.
Proof.
  intros Hl. unfold sdssetlen. change (sds_type (mk_sds SDS_TYPE_5 0 0 b)) with SDS_TYPE_5.
  rewrite Z.eqb_refl, flags5 by done. unfold sdssetalloc, set_flags. cbn [hlen halloc buf].
  rewrite (type_5 _ len) by done. by rewrite Z.eqb_refl.
Qed.

Section Specs.
Context `{FreshMem}.

(** Copying the string and its terminator into a fresh, larger block. *)
Lemma move_spec c x junk hdrlen n :
  zlen c <= n -> 1 <= hdrlen <= 17 -> n < 2 * SDS_BOUND ->
  exists b junk', load (c ++ x :: junk) 0 (u64 (zlen c + 1)) = Some (c ++ [x]) /\
    store (alloc_buf hdrlen n) 0 (c ++ [x]) = Some b /\
    b = c ++ x :: junk' /\ zlen junk' = n - zlen c.
Proof.
  unfold SDS_BOUND. intros Hn Hh Hb. pose proof (zlen_nonneg c). unfold alloc_buf. u64s.
  assert (zlen (malloc (hdrlen + n + 1 - hdrlen)) = n + 1) as Em by (rewrite zlen_malloc; lia).
  exists (c ++ x :: zdrop (zlen c + 1) (malloc (hdrlen + n + 1 - hdrlen))),
    (zdrop (zlen c + 1) (malloc (hdrlen + n + 1 - hdrlen))). split_and!; [| |done|].
  - apply (load_at [] (c ++ [x]) junk); [lapp|done|len].
  - rewrite store_Some by len. rewrite ztake_0 by lia. f_equal.
    rewrite zlen_app. change (zlen [x]) with 1. lapp.
  - rewrite zlen_zdrop; lia.
Qed.

(** sdsMakeRoomFor keeps the string and provides the space asked for. *)
Lemma makeroom_spec s c x free addlen :
  sds_at s c x free -> 0 <= addlen -> zlen c + addlen < SDS_BOUND ->
  exists s' free', sdsMakeRoomFor s addlen = Some s' /\ sds_at s' c x free' /\
    addlen <= free' /\ (0 < addlen -> sds_type s' <> SDS_TYPE_5).
Proof.
  unfold SDS_BOUND. intros Hs Ha Hb. pose proof (zlen_nonneg c).
  unfold sdsMakeRoomFor. rewrite (at_avail _ _ _ _ Hs), (at_len _ _ _ _ Hs).
  destruct (Z.leb_spec addlen free) as [Hle|Hlt].
  { exists s, free. split_and!; [done|done|done|]. intros Hp.
    apply (hdr_room _ _ _ (at_hdr _ _ _ _ Hs)). lia. }
  destruct Hs as [Hh (junk & Eb & Hj & Hjt)]. pose proof (hdr_range _ _ _ Hh).
  rewrite (u64_small (zlen c + addlen)) by lia.
  set (newlen := if _ <? _ then _ else _).
  assert (zlen c + addlen <= newlen < 2 * 2 ^ 62 /\ 0 < newlen) as [Hnl Hpos].
  { unfold newlen, SDS_MAX_PREALLOC. zcase; u64s; lia. }
  set (type := if _ =? SDS_TYPE_5 then _ else _).
  assert (1 <= type <= 4 /\ newlen < 2 ^ hdr_bits type) as [Ht Hm].
  { unfold type. destruct (reqtype_spec newlen) as [[-> ?]|[? ?]]; [lia| |].
    - change (1 <= 1 <= 4 /\ newlen < 256). lia.
    - unfold SDS_TYPE_5. zfalse (sdsReqType newlen =? 0). lia. }
  clearbody newlen type. pose proof (hdrsize_range type ltac:(lia)).
  destruct (Z.eqb_spec (sds_type s) type) as [Et|Et].
  - unfold realloc_buf. rewrite u64_small by lia. rewrite Eb.
    assert (zlen (c ++ x :: junk) <= newlen + 1).
    { destruct Hjt as [Hjt|Hjt]; [unfold SDS_TYPE_5 in *; lia|]. len. }
    destruct (realloc_grow (c ++ x :: junk) (sdsHdrSize type + newlen + 1 - sdsHdrSize type))
      as (more & -> & Hmore & _); [lia|].
    destruct (hdr_setalloc (set_buf ((c ++ x :: junk) ++ more) s) (zlen c) (zlen c + free) newlen)
      as (Hh' & Eb' & Et'); [by apply hdr_set_buf| |change (sds_type (set_buf _ s)) with (sds_type s); rewrite Et; lia|].
    { change (sds_type s <> SDS_TYPE_5). rewrite Et. unfold SDS_TYPE_5. lia. }
    eexists _, (newlen - zlen c). split; [done|]. split; [split|split; [lia|]].
    + by replace (zlen c + (newlen - zlen c)) with newlen by lia.
    + exists (junk ++ more). rewrite Eb'. split; [cbn; lapp|]. rewrite zlen_app. len.
    + rewrite Et'. change (0 < addlen -> sds_type s <> SDS_TYPE_5). rewrite Et. unfold SDS_TYPE_5. lia.
  - rewrite Eb. destruct (move_spec c x junk (sdsHdrSize type) newlen) as (b & junk' & -> & E & -> & Hj');
      [lia|done|unfold SDS_BOUND; lia|]. cbn [mbind option_bind]. rewrite E. cbn [mbind option_bind].
    destruct (new_hdr type (c ++ x :: junk') (zlen c) newlen) as (Hh' & Eb' & Et'); [done|lia|done|].
    eexists _, (newlen - zlen c). split; [done|]. split; [split|split; [lia|]].
    + by replace (zlen c + (newlen - zlen c)) with newlen by lia.
    + exists junk'. rewrite Eb'. split; [done|]. lia.
    + rewrite Et'. unfold SDS_TYPE_5. lia.
Qed.

(** Writing after the end of the string, inside the free space. *)
Lemma write_free s c x free src :
  sds_at s c x free -> zlen src <= free ->
  exists y junk, sds_write s (zlen c) src = Some (set_buf ((c ++ src) ++ y :: junk) s) /\
    free - zlen src <= zlen junk /\ (sds_type s = SDS_TYPE_5 \/ zlen junk = free - zlen src).
Proof.
  intros [Hh (junk & Eb & Hj & Hjt)] Hsrc. pose proof (zlen_nonneg src).
  destruct (zsplit (zlen src) (x :: junk)) as (old & rest & E & Ho & Hr); [len|].
  rewrite zlen_cons in Hr. destruct rest as [|y rest]; [rewrite zlen_nil in Hr; lia|].
  rewrite zlen_cons in Hr. exists y, rest. split.
  - erewrite write_spec; [by rewrite app_assoc|by rewrite Eb, E|done|lia].
  - split; [lia|]. destruct Hjt; [by left|right; lia].
Qed.

Lemma append_setlen s c x free src :
  sds_at s c x free -> zlen src <= free ->
  exists s' y, sds_write s (zlen c) src = Some s' /\
    sds_at (sdssetlen s' (zlen c + zlen src)) (c ++ src) y (free - zlen src).
Proof.
  intros Hs Hsrc. destruct (write_free _ _ _ _ _ Hs Hsrc) as (y & junk & -> & Hj & Hjt).
  eexists _, y. split; [done|]. destruct Hs as [Hh _]. pose proof (zlen_nonneg src).
  destruct (at_setlen (set_buf ((c ++ src) ++ y :: junk) s) (zlen c) (zlen c + free) (c ++ src) y junk)
    as (free' & Hat & Hle & Hft); [by apply hdr_set_buf|done|len|len| |].
  { rewrite zlen_app. destruct Hjt; [by left|right; lia]. }
  rewrite zlen_app in *. destruct Hft as [Hft| ->].
  - destruct (Z.eq_dec free 0); [|by destruct (hdr_room _ _ _ Hh ltac:(lia))].
    pose proof (at_free _ _ _ _ Hat). by replace (free - zlen src) with free' by lia.
  - by replace (free - zlen src) with (zlen c + free - (zlen c + zlen src)) by lia.
Qed.

Lemma append_inclen s c x free src :
  sds_at s c x free -> zlen src <= free ->
  exists s' y, sds_write s (zlen c) src = Some s' /\
    sds_at (sdsinclen s' (zlen src)) (c ++ src) y (free - zlen src).
Proof.
  intros Hs Hsrc. destruct (write_free _ _ _ _ _ Hs Hsrc) as (y & junk & -> & Hj & Hjt).
  eexists _, y. split; [done|]. destruct Hs as [Hh _]. pose proof (zlen_nonneg src).
  destruct (hdr_inclen (set_buf ((c ++ src) ++ y :: junk) s) (zlen c) (zlen c + free) (zlen src))
    as (Hh' & Eb & Et); [by apply hdr_set_buf|done|lia|]. split.
  - rewrite zlen_app. by replace (zlen c + zlen src + (free - zlen src)) with (zlen c + free) by lia.
  - exists junk. rewrite Eb, Et. done.
Qed.

Lemma terminate s c x free :
  sds_at s c x free -> exists s', sds_write s (zlen c) [0] = Some s' /\ sds_repr s' c free.
Proof.
  intros [Hh (junk & Eb & Hj)]. eexists. split.
  - by apply (write_spec s c [x] junk (zlen c) [0]).
  - split; [by apply hdr_set_buf|]. exists junk. done.
Qed.

(** The string with the bytes [src] appended. *)
Lemma catlen_spec s c free t src len :
  sds_repr s c free -> load t 0 len = Some src -> 0 <= len -> zlen c + len < SDS_BOUND ->
  exists s' free', sdscatlen s t len = Some s' /\ sds_repr s' (c ++ src) free'.
Proof.
  intros Hs Hl Hlen Hb. unfold sdscatlen. rewrite (at_len _ _ _ _ Hs).
  destruct (makeroom_spec s c 0 free len) as (s1 & f1 & -> & H1 & Hf & _); [done|done|done|].
  cbn [mbind option_bind]. rewrite Hl. cbn [mbind option_bind].
  pose proof (zlen_load _ _ _ _ Hl) as El. pose proof (zlen_nonneg c).
  destruct (append_setlen s1 c 0 f1 src) as (s2 & y & -> & H2); [done|lia|].
  cbn [mbind option_bind]. unfold SDS_BOUND in *. u64s. rewrite El in *.
  destruct (terminate _ _ _ _ H2) as (s3 & E & H3). rewrite zlen_app, El in E.
  exists s3, (f1 - len). by rewrite E.
Qed.

Lemma new_header_spec t n b :
  (t = SDS_TYPE_5 /\ 0 <= n < 32) \/ (1 <= t <= 4 /\ 0 <= n < 2 ^ hdr_bits t) ->
  hdr_ok (new_header t n b) n n /\ buf (new_header t n b) = b.
Proof.
  intros [[-> Hn]|[Ht Hn]]; unfold new_header.
  - cbn [Z.eqb SDS_TYPE_5]. change 0 with SDS_TYPE_5 at 1. rewrite flags5 by done. split; [|done]. by apply hdr_5.
  - destruct (flags_cases _ Ht) as [->|[->|[->| ->]]]; cbn -[wrapu] in *;
      unfold u8, u16, u32, u64; rewrite !wrapu_small by (unfold in_u; lia);
      (split; [apply hdr_n; cbn; lia|done]).
Qed.

(** The header type sdsnewlen picks. *)
Lemma new_type n : 0 <= n < SDS_BOUND ->
  let type := sdsReqType n in
  let t := if (type =? SDS_TYPE_5) && (n =? 0) then SDS_TYPE_8 else type in
  (t = SDS_TYPE_5 /\ 0 <= n < 32) \/ (1 <= t <= 4 /\ 0 <= n < 2 ^ hdr_bits t).
Proof.
  intros Hn. cbn zeta. unfold SDS_BOUND in *. destruct (reqtype_spec n) as [[-> ?]|[Hr ?]]; [lia| |].
  - destruct (Z.eqb_spec n 0); cbn; [|left; lia]. right. unfold SDS_TYPE_8. lia.
  - assert ((sdsReqType n =? SDS_TYPE_5) = false) as -> by (unfold SDS_TYPE_5; lia). cbn [andb]. right. lia.
Qed.

(** The last store of sdsnewlen, on a block of [n+1] bytes. *)
Lemma new_terminate s n c z :
  hdr_ok s n n -> buf s = c ++ [z] -> zlen c = n ->
  exists s', sds_write s n [0] = Some s' /\ sds_repr s' c 0.
Proof.
  intros Hh Eb <-. apply (terminate s c z 0). split; [by rewrite Z.add_0_r|].
  exists []. split; [done|]. split; [done|by right].
Qed.

Lemma newlen_spec init n :
  0 <= n < SDS_BOUND ->
  (forall p, init = InitPtr p -> 0 < n -> is_Some (load p 0 n)) ->
  exists s c, sdsnewlen init n = Some s /\ sds_repr s c 0 /\ zlen c = n /\
    (init = InitNull -> c = replicate (Z.to_nat n) 0) /\
    (forall p, init = InitPtr p -> 0 < n -> load p 0 n = Some c).
Proof.
  intros Hn Hp. pose proof (new_type n Hn) as Ht. unfold sdsnewlen. cbn zeta in Ht.
  set (t := if _ && _ then _ else _) in *. clearbody t. unfold SDS_BOUND in *.
  assert (1 <= sdsHdrSize t <= 17) by (apply hdrsize_range; unfold SDS_TYPE_5 in *; lia).
  unfold alloc_buf. u64s. set (b0 := malloc _).
  assert (zlen b0 = n + 1) as Hb0 by (unfold b0; rewrite zlen_malloc; lia). clearbody b0.
  destruct (zlen_snoc_inv b0 n Hb0 ltac:(lia)) as (c0 & z & -> & Hc0).
  destruct init as [| |p]; cbn [mbind option_bind].
  - destruct (new_header_spec t n (replicate (length (c0 ++ [z])) 0) Ht) as [Hh Eb].
    destruct (new_terminate _ n (replicate (Z.to_nat n) 0) 0 Hh) as (s & -> & Hs).
    { rewrite Eb, length_app, replicate_add. unfold zlen in Hc0. by replace (length c0) with (Z.to_nat n) by lia. }
    { rewrite zlen_replicate. lia. }
    eexists s, _. split; [done|]. split; [done|]. split; [|done].
    rewrite zlen_replicate. lia.
  - destruct (new_header_spec t n (c0 ++ [z]) Ht) as [Hh Eb].
    destruct (new_terminate _ n c0 z Hh Eb Hc0) as (s & -> & Hs). by exists s, c0.
  - destruct (new_header_spec t n (c0 ++ [z]) Ht) as [Hh Eb]. destruct (Z.eqb_spec n 0) as [Hz|Hz].
    + destruct (new_terminate _ n c0 z Hh Eb Hc0) as (s & E & Hs). exists s, c0.
      split; [exact E|]. split; [done|]. split; [done|]. split; [done|]. lia.
    + destruct (Hp p eq_refl ltac:(lia)) as [src Hsrc]. rewrite Hsrc. cbn [mbind option_bind].
      pose proof (zlen_load _ _ _ _ Hsrc) as Hl.
      erewrite (write_spec _ [] c0 [z] 0 src) by (done || lia). cbn [mbind option_bind app].
      destruct (new_terminate (set_buf (src ++ [z]) (new_header t n (c0 ++ [z]))) n src z)
        as (s & -> & Hs); [by apply hdr_set_buf|done|done|].
      exists s, src. split_and!; [done|done|done|done|]. by intros ? [= <-].
Qed.

(** The two common uses: the empty string and a copy of [c]. *)
Lemma empty_spec : exists s, sdsempty = Some s /\ sds_repr s [] 0.
Proof.
  destruct (newlen_spec (InitPtr [0]) 0) as (s & c & E & Hs & Hc%zlen_0_nil & _);
    [done|lia|]. exists s. by subst c.
Qed.

Lemma newptr_spec p c n :
  load p 0 n = Some c -> 0 <= n < SDS_BOUND -> exists s, sdsnewlen (InitPtr p) n = Some s /\ sds_repr s c 0.
Proof.
  intros Hl Hn. destruct (newlen_spec (InitPtr p) n) as (s & c' & E & Hs & Hc & _ & Hp);
    [done|by intros ? [= <-]|]. exists s. split; [done|].
  destruct (Z.eq_dec n 0) as [->|].
  - apply zlen_0_nil in Hc as ->. apply zlen_load, zlen_0_nil in Hl as ->. done.
  - specialize (Hp p eq_refl ltac:(lia)). by simplify_eq.
Qed.

(** ** In-place updates

    [blk s alloc]: a header of capacity [alloc] on a buffer that has it,
    whatever the bytes; the state between the stores of an in-place update. *)
Definition blk (s : sds) (alloc : Z) : Prop :=
  (exists len, hdr_ok s len alloc) /\ alloc + 1 <= zlen (buf s) /\
  (sds_type s = SDS_TYPE_5 \/ zlen (buf s) = alloc + 1).

Lemma at_blk s c x free : sds_at s c x free -> blk s (zlen c + free).
Proof.
  intros [Hh (junk & Eb & Hj & Ht)]. split; [by exists (zlen c)|].
  rewrite Eb, zlen_app, zlen_cons. split; [lia|]. destruct Ht; [by left|right; lia].
Qed.

Lemma blk_set_buf s b alloc : blk s alloc -> zlen b = zlen (buf s) -> blk (set_buf b s) alloc.
Proof.
  intros ((len & Hh) & Hb & Ht) E. split; [exists len; by apply hdr_set_buf|].
  cbn [buf set_buf]. rewrite E. done.
Qed.

Lemma blk_write s alloc off bs s' : blk s alloc -> sds_write s off bs = Some s' -> blk s' alloc.
Proof.
  intros Hs. unfold sds_write. destruct (store (buf s) off bs) as [b|] eqn:E; [|done].
  intros [= <-]. apply blk_set_buf; [done|]. by apply zlen_store in E.
Qed.

(** Cut the string after a prefix [c] of the buffer. *)
Lemma cut_spec s alloc c rest :
  blk s alloc -> buf s = c ++ rest -> zlen c <= alloc ->
  exists s' free, sds_write s (zlen c) [0] = Some s' /\ sds_repr (sdssetlen s' (zlen c)) c free.
Proof.
  intros ((len & Hh) & Hb & Ht) E Hc. rewrite E, zlen_app in Hb, Ht.
  destruct rest as [|x junk]; [rewrite zlen_nil in Hb; lia|]. rewrite zlen_cons in Hb, Ht.
  destruct (at_setlen (set_buf (c ++ 0 :: junk) s) len alloc c 0 junk) as (free & Hs & _);
    [by apply hdr_set_buf|done|done|lia| |].
  { destruct Ht; [by left|right; lia]. }
  eexists _, free. split; [by apply (write_spec s c [x] junk (zlen c) [0])|exact Hs].
Qed.

Lemma clear_spec s c free :
  sds_repr s c free -> exists s' free', sdsclear s = Some s' /\ sds_repr s' [] free'.
Proof.
  intros Hs. pose proof (at_free _ _ _ _ Hs). destruct (at_blk _ _ _ _ Hs) as ((len & Hh) & Hb & Ht).
  pose proof (zlen_nonneg c). destruct (buf s) as [|x junk] eqn:E; [rewrite zlen_nil in Hb; lia|].
  rewrite zlen_cons in Hb, Ht.
  destruct (at_setlen s len (zlen c + free) [] x junk) as (f & Hat & _); rewrite ?zlen_nil; try done; try lia.
  { change (zlen (@nil Z)) with 0. destruct Ht; [by left|right; lia]. }
  destruct (terminate _ _ _ _ Hat) as (s' & Ew & Hs'). exists s', f. done.
Qed.

Lemma cpylen_spec s c free t src len :
  sds_repr s c free -> load t 0 len = Some src -> 0 <= len < SDS_BOUND ->
  exists s' free', sdscpylen s t len = Some s' /\ sds_repr s' src free'.
Proof.
  intros Hs Hl Hlen. unfold sdscpylen. rewrite (at_alloc _ _ _ _ Hs), (at_len _ _ _ _ Hs).
  pose proof (zlen_load _ _ _ _ Hl) as El. pose proof (zlen_nonneg c). pose proof (at_free _ _ _ _ Hs).
  assert (exists s1 f1, (if zlen c + free <? len then sdsMakeRoomFor s (u64 (len - zlen c)) else Some s)
    = Some s1 /\ sds_repr s1 c f1 /\ len <= zlen c + f1) as (s1 & f1 & -> & Hs1 & Hf).
  { unfold SDS_BOUND in *. zcase; [|by exists s, free].
    rewrite u64_small by lia. destruct (makeroom_spec s c 0 free (len - zlen c)) as (s1 & f1 & E & Hs1 & Hf & _);
      [done|lia|unfold SDS_BOUND; lia|]. exists s1, f1. split; [done|]. split; [done|lia]. }
  cbn [mbind option_bind]. rewrite Hl. cbn [mbind option_bind].
  pose proof (at_blk _ _ _ _ Hs1) as Hb. pose proof Hb as (_ & Hlb & _).
  destruct (zsplit len (buf s1)) as (old & rest & Eb & Ho & _); [lia|].
  assert (sds_write s1 0 src = Some (set_buf (src ++ rest) s1)) as Ew.
  { by rewrite (write_spec s1 [] old rest 0 src) by (done || lia). }
  rewrite Ew. cbn [mbind option_bind].
  destruct (cut_spec (set_buf (src ++ rest) s1) (zlen c + f1) src rest) as (s2 & f2 & E2 & Hs2);
    [by eapply blk_write|done|lia|]. rewrite El in *. rewrite E2. cbn. by exists (sdssetlen s2 len), f2.
Qed.

Lemma growzero_spec s c free len :
  sds_repr s c free -> 0 <= len < SDS_BOUND ->
  exists s' free', sdsgrowzero s len = Some s' /\
    sds_repr s' (c ++ replicate (Z.to_nat (len - zlen c)) 0) free'.
Proof.
  intros Hs Hlen. unfold sdsgrowzero. rewrite (at_len _ _ _ _ Hs). zcase.
  { exists s, free. replace (Z.to_nat (len - zlen c)) with O by lia. by rewrite app_nil_r. }
  pose proof (zlen_nonneg c).
  destruct (makeroom_spec s c 0 free (len - zlen c)) as (s1 & f1 & -> & Hs1 & Hf & _); [done|lia|lia|].
  cbn [mbind option_bind]. set (z := replicate (Z.to_nat (len - zlen c)) 0).
  assert (zlen z = len - zlen c) as Ez by (unfold z; rewrite zlen_replicate; lia).
  destruct (at_buf _ _ _ _ Hs1) as (junk & Eb & Hj & Hjt).
  destruct (zsplit (len - zlen c + 1) (0 :: junk)) as (old & rest & E & Ho & Hr); [rewrite zlen_cons; lia|].
  rewrite zlen_cons in Hr.
  assert (replicate (Z.to_nat (len - zlen c + 1)) 0 = z ++ [0]) as ->.
  { unfold z. rewrite Z2Nat.inj_add by lia. by rewrite replicate_add. }
  rewrite (write_spec s1 c old rest (zlen c) (z ++ [0])); [|by rewrite Eb, E|done|len].
  cbn [mbind option_bind].
  destruct (at_setlen (set_buf (c ++ (z ++ [0]) ++ rest) s1) (zlen c) (zlen c + f1) (c ++ z) 0 rest)
    as (f2 & Hs2 & _); [apply hdr_set_buf, Hs1|cbn; lapp|len|len| |].
  { rewrite zlen_app. destruct Hjt; [by left|right; lia]. }
  rewrite zlen_app, Ez in Hs2. replace (zlen c + (len - zlen c)) with len in Hs2 by lia.
  eexists _, f2. done.
Qed.

Lemma remove_free_spec s c free :
  sds_repr s c free -> zlen c < SDS_BOUND ->
  exists s', sdsRemoveFreeSpace s = Some s' /\ sds_repr s' c 0.
Proof.
  intros Hs Hb. unfold sdsRemoveFreeSpace. rewrite (at_len _ _ _ _ Hs), (at_avail _ _ _ _ Hs).
  destruct (Z.eqb_spec free 0) as [->|Hf]; [by exists s|].
  pose proof (at_free _ _ _ _ Hs). pose proof (zlen_nonneg c). unfold SDS_BOUND in *.
  destruct Hs as [Hh (junk & Eb & Hj & Hjt)].
  pose proof (hdr_room _ _ _ Hh ltac:(lia)) as Hroom.
  assert (1 <= sds_type s <= 4 /\ zlen c + free < 2 ^ hdr_bits (sds_type s)) as [Hts Hmax].
  { inversion Hh as [? E|? ? Hr]; [by destruct Hroom; eapply type_5|]. by rewrite type_n. }
  pose proof (hdrsize_range (sds_type s) ltac:(lia)).
  destruct (_ || _) eqn:Ek.
  - unfold realloc_buf. u64s. rewrite Eb, realloc_shrink by len.
    set (b := ztake _ _). assert (b = c ++ [0]) as ->.
    { unfold b. rewrite ztake_app_ge by lia. f_equal.
      replace (sdsHdrSize (sds_type s) + zlen c + 1 - sdsHdrSize (sds_type s) - zlen c) with 1 by lia. done. }
    destruct (hdr_setalloc (set_buf (c ++ [0]) s) (zlen c) (zlen c + free) (zlen c))
      as (Hh' & Eb' & Et'); [by apply hdr_set_buf|done|change (sds_type (set_buf _ s)) with (sds_type s); lia|].
    eexists. split; [done|]. split; [by rewrite Z.add_0_r|]. exists []. rewrite Eb'. split_and!; [done|done|by right].
  - assert (sdsReqType (zlen c) = SDS_TYPE_5 /\ zlen c < 32 \/
            sdsReqType (zlen c) = SDS_TYPE_8 /\ zlen c < 256) as Ht.
    { apply orb_false_iff in Ek as [_ Ek%Z.ltb_ge]. unfold SDS_TYPE_8 in *.
      destruct (reqtype_spec (zlen c)) as [?|[? Hr]]; [lia|by left|]. right.
      assert (sdsReqType (zlen c) = 1) as E by lia. rewrite E in Hr. split; [done|].
      change (2 ^ hdr_bits 1) with 256 in Hr. lia. }
    rewrite Eb. destruct (move_spec c 0 junk (sdsHdrSize (sdsReqType (zlen c))) (zlen c))
      as (b & junk' & -> & E & -> & Hj'); [lia| |unfold SDS_BOUND; lia|].
    { by destruct Ht as [[-> _]|[-> _]]. }
    assert (junk' = []) as -> by (apply zlen_0_nil; lia).
    cbn [mbind option_bind]. rewrite E. cbn [mbind option_bind]. eexists. split; [done|].
    destruct Ht as [[-> Hc]|[-> Hc]].
    + rewrite new_hdr5 by lia. split; [rewrite Z.add_0_r; by apply hdr_5|].
      exists []. split_and!; [done|done|by right].
    + destruct (new_hdr SDS_TYPE_8 (c ++ [0]) (zlen c) (zlen c)) as (Hh' & Eb' & _);
        [done|lia|change (2 ^ hdr_bits SDS_TYPE_8) with 256; lia|].
      split; [by rewrite Z.add_0_r|]. exists []. rewrite Eb'. split_and!; [done|done|by right].
Qed.

(** sdsIncrLen on a header that records its free space. *)
Lemma incrlen_n s len alloc incr :
  hdr_ok s len alloc -> sds_type s <> SDS_TYPE_5 -> - 2 ^ 32 < incr < 2 ^ 32 ->
  incrlen_assert s incr = (- len <=? incr) && (incr <=? alloc - len) /\
  (- len <= incr <= alloc - len ->
   sdsIncrLen s incr = sds_write (sdssetlen s (len + incr)) (len + incr) [0]).
Proof.
  intros Hh Ht Hi. destruct Hh as [? E|len alloc Hf <- <- Hr Hm]; [by destruct Ht; eapply type_5|].
  assert (incrlen_assert s incr = (- hlen s <=? incr) && (incr <=? halloc s - hlen s)) as Ea.
  { unfold incrlen_assert. rewrite type_n by done.
    hdr_unfold Hf; unfold u32, u64; destruct (Z.lt_ge_cases incr 0); wrap_idle; repeat zcase; cbn; lia. }
  split; [done|]. intros Hin. unfold sdsIncrLen, sdssetlen. rewrite Ea. zbool.
  rewrite type_n by done. hdr_unfold Hf; unfold u8, u16, u32, u64; wrap_idle; done.
Qed.

Lemma incrlen_spec s c x free incr :
  sds_at s c x free -> sds_type s <> SDS_TYPE_5 -> - 2 ^ 32 < incr < 2 ^ 32 ->
  (- zlen c <= incr <= free ->
   exists s', sdsIncrLen s incr = Some s' /\ sds_repr s' (ztake (zlen c + incr) (buf s)) (free - incr)) /\
  (~ (- zlen c <= incr <= free) -> sdsIncrLen s incr = None).
Proof.
  intros Hs Ht Hi. pose proof (at_hdr _ _ _ _ Hs) as Hh.
  destruct (incrlen_n s _ _ incr Hh Ht Hi) as [Ea Ew]. split.
  - intros Hr. rewrite Ew by lia. destruct (at_blk _ _ _ _ Hs) as (_ & Hb & Hbt).
    destruct (zsplit (zlen c + incr) (buf s)) as (c' & [|y junk] & Eb & Hc & Hj); [lia|rewrite zlen_nil in Hj; lia|].
    rewrite zlen_cons in Hj. assert (ztake (zlen c + incr) (buf s) = c') as -> by (rewrite Eb; by apply ztake_app_l).
    destruct Hbt as [|Hbt]; [done|].
    destruct (at_setlen s (zlen c) (zlen c + free) c' y junk) as (f & Hat & _ & [Hf| ->]);
      [done|done|lia|lia|right; lia|done|].
    destruct (terminate _ _ _ _ Hat) as (s' & E & Hs'). rewrite Hc in *. exists s'.
    split; [done|]. by replace (free - incr) with (zlen c + free - (zlen c + incr)) by lia.
  - intros Hr. unfold sdsIncrLen. rewrite Ea.
    assert (((- zlen c <=? incr) && (incr <=? zlen c + free - zlen c)) = false) as ->; [|done].
    apply andb_false_iff. rewrite !Z.leb_gt. lia.
Qed.

End Specs.

(** ** C strings *)

Lemma strlen_app c r : 0 ∉ c -> strlen (c ++ 0 :: r) = Some (zlen c).
Proof.
  induction c as [|x c IH]; [done|]. rewrite not_elem_of_cons. intros [Hx Hc].
  cbn [app strlen]. zbool. rewrite IH by done. cbn. f_equal. rewrite zlen_cons. lia.
Qed.

Lemma strlen_inv b n : strlen b = Some n -> exists c r, b = c ++ 0 :: r /\ (0 ∉ c) /\ n = zlen c.
Proof.
  revert n. induction b as [|x b IH]; intros n; [done|]. cbn [strlen]. zcase.
  - intros [= <-]. subst x. exists [], b. split_and!; [done|apply not_elem_of_nil|done].
  - destruct (strlen b) as [m|] eqn:E; [|done]. intros [= <-].
    destruct (IH m eq_refl) as (c & r & -> & Hc & ->). exists (x :: c), r.
    split_and!; [done|by apply not_elem_of_cons|]. rewrite zlen_cons. lia.
Qed.

Lemma load_prefix c r : load (c ++ r) 0 (zlen c) = Some c.
Proof. by apply (load_at [] c r). Qed.

Lemma load_contents s c x free : sds_at s c x free -> load (buf s) 0 (zlen c) = Some c.
Proof. intros [_ (junk & -> & _)]. apply load_prefix. Qed.
