(* ===== verification/SdsText.v ===== *)
(** * Dynamic strings: text operations (sds.c)

    Number formatting, the printf-like and the light formatter, trimming,
    ranges, case mapping and comparison.  Pointers into a string are offsets
    into its buffer; a pointer that only moves forward over a C string is the
    rest of that string. *)

From stdpp Require Import base list numbers option strings sets.
From Stdlib Require Import ZArith Lia.
From S2P Require Import Prelude Sds.

(** ** Numbers *)

Definition SDS_LLSTR_SIZE : Z := 21.

(** The do-while loop that writes the digits in reverse order. *)
Fixpoint gen_digits (fuel : nat) (b : bytes) (p v : Z) : option (bytes * Z) :=
  match fuel with
  | O => None
  | S fuel =>
      b ← store b p [48 + v mod 10];
      let p := p + 1 in
      let v := v / 10 in
      if v =? 0 then Some (b, p) else gen_digits fuel b p v
  end.

(** The loop that reverses the bytes from [s] to [p]. *)
Fixpoint reverse_loop (fuel : nat) (b : bytes) (s p : Z) : option bytes :=
  match fuel with
  | O => None
  | S fuel =>
      if s <? p then
        aux ← b.[s];
        c ← b.[p];
        b ← store b s [c];
        b ← store b p [aux];
        reverse_loop fuel b (s + 1) (p - 1)
      else Some b
  end.

(** [-value] on [long long] is undefined for the least value. *)
Definition neg_ll (value : Z) : option Z := if value =? LLONG_MIN then None else Some (- value).

Definition sdsll2str (s : bytes) (value : Z) : option (bytes * Z) :=
  v ← (if value <? 0 then neg_ll value else Some value);
  '(b, p) ← gen_digits 20 s 0 v;
  '(b, p) ← (if value <? 0 then b ← store b p [45]; Some (b, p + 1) else Some (b, p));
  let l := p in
  b ← store b p [0];
  b ← reverse_loop 20 b 0 (p - 1);
  Some (b, l).

Definition sdsull2str (s : bytes) (v : Z) : option (bytes * Z) :=
  '(b, p) ← gen_digits 20 s 0 v;
  let l := p in
  b ← store b p [0];
  b ← reverse_loop 20 b 0 (p - 1);
  Some (b, l).

Definition sdscmp (s1 s2 : sds) : option Z :=
  let l1 := sdslen s1 in
  let l2 := sdslen s2 in
  let minlen := if l1 <? l2 then l1 else l2 in
  cmp ← memcmp (Z.to_nat minlen) (buf s1) (buf s2);
  if cmp =? 0 then Some (if l2 <? l1 then 1 else if l1 <? l2 then -1 else 0) else Some cmp.

(** [strchr(cset, c) != NULL]; the terminator itself is found. *)
Fixpoint strchr (cset : bytes) (c : Z) : option bool :=
  match cset with
  | [] => None
  | x :: r => if x =? c then Some true else if x =? 0 then Some false else strchr r c
  end.

Fixpoint trim_left (fuel : nat) (b cset : bytes) (sp last : Z) : option Z :=
  match fuel with
  | O => None
  | S fuel =>
      if sp <=? last then
        c ← b.[sp];
        r ← strchr cset c;
        if (r : bool) then trim_left fuel b cset (sp + 1) last else Some sp
      else Some sp
  end.

Fixpoint trim_right (fuel : nat) (b cset : bytes) (sp ep : Z) : option Z :=
  match fuel with
  | O => None
  | S fuel =>
      if sp <? ep then
        c ← b.[ep];
        r ← strchr cset c;
        if (r : bool) then trim_right fuel b cset sp (ep - 1) else Some ep
      else Some ep
  end.

Definition sdstrim (s : sds) (cset : bytes) : option sds :=
  let last := sdslen s - 1 in
  sp ← trim_left (S (length (buf s))) (buf s) cset 0 last;
  ep ← trim_right (S (length (buf s))) (buf s) cset sp last;
  let len := if ep <? sp then 0 else ep - sp + 1 in
  s ← (if sp =? 0 then Some s else b ← memmove (buf s) 0 sp len; Some (set_buf b s));
  s ← sds_write s len [0];
  Some (sdssetlen s len).

(** [if (i < 0) { i = len+i; if (i < 0) i = 0; }] *)
Definition range_index (len i : Z) : Z :=
  if i <? 0 then if i64 (u64 (len + i)) <? 0 then 0 else i64 (u64 (len + i)) else i.

(** The offset and the length sdsrange keeps, for a string of length [len].
    [end-start+1] is at most 2^63, which the conversion to [size_t] keeps. *)
Definition range_bounds (len start end_ : Z) : Z * Z :=
  let start := range_index len start in
  let end_ := range_index len end_ in
  let newlen := if end_ <? start then 0 else u64 (end_ - start + 1) in
  if negb (newlen =? 0) then
    if i64 len <=? start then (start, 0)
    else if i64 len <=? end_ then
      let end_ := i64 (u64 (len - 1)) in
      (start, if end_ <? start then 0 else u64 (end_ - start + 1))
    else (start, newlen)
  else (0, newlen).

Definition sdsrange (s : sds) (start end_ : Z) : option sds :=
  let len := sdslen s in
  if len =? 0 then Some s else
  let '(start, newlen) := range_bounds len start end_ in
  s ← (if negb (start =? 0) && negb (newlen =? 0)
       then b ← memmove (buf s) 0 start newlen; Some (set_buf b s) else Some s);
  s ← sds_write s newlen [0];
  Some (sdssetlen s newlen).

(** [for (j = 0; j < len; j++) s[j] = f(s[j]);] *)
Fixpoint map_loop (n : nat) (f : Z -> option Z) (s : sds) (j : Z) : option sds :=
  match n with
  | O => Some s
  | S n => c ← (buf s).[j]; c' ← f c; s ← sds_write s j [c']; map_loop n f s (j + 1)
  end.

Definition sdstolower (s : sds) : option sds :=
  map_loop (Z.to_nat (sdslen s)) (fun c => Some (tolower c)) s 0.
Definition sdstoupper (s : sds) : option sds :=
  map_loop (Z.to_nat (sdslen s)) (fun c => Some (toupper c)) s 0.

(** The inner loop of sdsmapchars: the first position of [c] in [from]
    selects the replacement. *)
Fixpoint mapchar_loop (n : nat) (from to : bytes) (i c : Z) : option Z :=
  match n with
  | O => Some c
  | S n => x ← from.[i]; if c =? x then to.[i] else mapchar_loop n from to (i + 1) c
  end.

Definition sdsmapchars (s : sds) (from to : bytes) (setlen : Z) : option sds :=
  map_loop (Z.to_nat (sdslen s)) (mapchar_loop (Z.to_nat setlen) from to 0) s 0.

Section Ops.
Context `{FreshMem}.

Definition sdsfromlonglong (value : Z) : option sds :=
  '(b, len) ← sdsll2str (malloc SDS_LLSTR_SIZE) value;
  sdsnewlen (InitPtr b) len.

(** ** printf

    [vsnprintf] formats with the C library: [out] is the text that the format
    and the arguments stand for. *)
Definition INT_MAX : Z := 2147483647.

Definition vsnprintf (b : bytes) (size : Z) (out : bytes) : option (bytes * Z) :=
  if INT_MAX <? zlen out then Some (b, -1)
  else b ← store b 0 (ztake (size - 1) out ++ [0]); Some (b, zlen out).

(** The loop that enlarges the buffer until the text fits; [Some None] is the
    NULL of a formatting error. *)
Fixpoint printf_loop (fuel : nat) (b : bytes) (buflen : Z) (out : bytes) : option (option (bytes * Z)) :=
  match fuel with
  | O => None
  | S fuel =>
      '(b, bufstrlen) ← vsnprintf b buflen out;
      if bufstrlen <? 0 then Some None
      else if buflen <=? bufstrlen then
        let buflen := bufstrlen + 1 in
        printf_loop fuel (malloc buflen) buflen out
      else Some (Some (b, bufstrlen))
  end.

Definition sdscatvprintf (s : sds) (fmt : bytes) (out : bytes) : option (option sds) :=
  fmtlen ← strlen fmt;
  let buflen := fmtlen * 2 in
  let buflen := if 1024 <? buflen then buflen else 1024 in
  r ← printf_loop 2 (malloc buflen) buflen out;
  match r with
  | None => Some None
  | Some (b, bufstrlen) => t ← sdscatlen s b bufstrlen; Some (Some t)
  end.

Definition sdscatprintf (s : sds) (fmt : bytes) (out : bytes) : option (option sds) :=
  sdscatvprintf s fmt out.

(** ** The light formatter

    The variadic arguments of sdscatfmt: reading one with another type than it
    was passed with is undefined. *)
Inductive fmt_arg :=
  | ArgStr (b : bytes)       (* char * *)
  | ArgSds (s : sds)         (* sds *)
  | ArgInt (z : Z)           (* int *)
  | ArgLL (z : Z)            (* long long *)
  | ArgUInt (z : Z)          (* unsigned int *)
  | ArgULL (z : Z).          (* unsigned long long *)

(** Grow if needed, copy [l] bytes of [str] to [s+i] and add them to the length. *)
Definition catfmt_put (s : sds) (i : Z) (str : bytes) (l : Z) : option (sds * Z) :=
  s ← (if sdsavail s <? l then sdsMakeRoomFor s l else Some s);
  src ← load str 0 l;
  s ← sds_write s i src;
  Some (sdsinclen s l, i + l).

(** [s[i++] = c; sdsinclen(s,1);] *)
Definition catfmt_char (s : sds) (i c : Z) : option (sds * Z) :=
  s ← sds_write s i [c]; Some (sdsinclen s 1, i + 1).

(** The inner switch: the specifier [next] consumes its argument. *)
Definition catfmt_spec (s : sds) (i next : Z) (ap : list fmt_arg) : option (sds * Z * list fmt_arg) :=
  if (next =? 115) || (next =? 83) then                       (* 's' 'S' *)
    '(str, l, ap) ← match ap with
      | ArgStr b :: ap => if next =? 115 then l ← strlen b; Some (b, l, ap) else None
      | ArgSds t :: ap => if next =? 115 then None else Some (buf t, sdslen t, ap)
      | _ => None
      end;
    '(s, i) ← catfmt_put s i str l; Some (s, i, ap)
  else if (next =? 105) || (next =? 73) then                  (* 'i' 'I' *)
    '(num, ap) ← match ap with
      | ArgInt z :: ap => if next =? 105 then Some (z, ap) else None
      | ArgLL z :: ap => if next =? 105 then None else Some (z, ap)
      | _ => None
      end;
    '(b, l) ← sdsll2str (malloc SDS_LLSTR_SIZE) num;
    '(s, i) ← catfmt_put s i b l; Some (s, i, ap)
  else if (next =? 117) || (next =? 85) then                  (* 'u' 'U' *)
    '(unum, ap) ← match ap with
      | ArgUInt z :: ap => if next =? 117 then Some (z, ap) else None
      | ArgULL z :: ap => if next =? 117 then None else Some (z, ap)
      | _ => None
      end;
    '(b, l) ← sdsull2str (malloc SDS_LLSTR_SIZE) unum;
    '(s, i) ← catfmt_put s i b l; Some (s, i, ap)
  else '(s, i) ← catfmt_char s i next; Some (s, i, ap).

Fixpoint catfmt_loop (f : bytes) (s : sds) (i : Z) (ap : list fmt_arg) : option (sds * Z) :=
  match f with
  | [] => None
  | c :: f =>
      if c =? 0 then Some (s, i) else
      s ← (if sdsavail s =? 0 then sdsMakeRoomFor s 1 else Some s);
      if c =? 37 then                                         (* '%' *)
        match f with
        | [] => None
        | next :: f => '(s, i, ap) ← catfmt_spec s i next ap; catfmt_loop f s i ap
        end
      else '(s, i) ← catfmt_char s i c; catfmt_loop f s i ap
  end.

Definition sdscatfmt (s : sds) (fmt : bytes) (ap : list fmt_arg) : option sds :=
  let initlen := sdslen s in
  fmtlen ← strlen fmt;
  s ← sdsMakeRoomFor s (fmtlen * 2);
  '(s, i) ← catfmt_loop fmt s initlen ap;
  sds_write s i [0].

End Ops.

(** ** Numbers *)

Lemma gen_digits_spec v : 0 <= v < 10 ^ 20 -> forall fuel pre old post,
  zlen old = zlen (udec v) -> (length old <= fuel)%nat ->
  gen_digits fuel (pre ++ old ++ post) (zlen pre) v =
    Some (pre ++ rev (udec v) ++ post, zlen pre + zlen old).
Proof.
  revert v. apply (udec_ind (fun v => forall fuel pre old post, _ -> _ -> _ = _)).
  - intros v Hv fuel pre old post. rewrite udec_small by done. intros Ho Hf.
    change (zlen [_]) with 1 in Ho. destruct old as [|x [|y old]]; [done| |rewrite !zlen_cons in Ho; pose proof (zlen_nonneg old); lia].
    destruct fuel as [|fuel]; [cbn in Hf; lia|]. cbn [gen_digits app].
    rewrite store_1 by done. cbn [mbind option_bind]. rewrite Z.div_small, Z.mod_small by lia. done.
  - intros v Hv IH fuel pre old post. rewrite udec_big by done. intros Ho Hf.
    rewrite zlen_app in Ho. change (zlen [_]) with 1 in Ho.
    destruct old as [|x old]; [rewrite zlen_nil in Ho; pose proof (zlen_nonneg (udec (v / 10))); lia|].
    rewrite zlen_cons in *. destruct fuel as [|fuel]; [cbn in Hf; lia|]. cbn [gen_digits app].
    rewrite store_1 by done. cbn [mbind option_bind].
    assert ((v / 10 =? 0) = false) as -> by (apply Z.eqb_neq; dlia).
    assert (pre ++ (48 + v mod 10) :: old ++ post = (pre ++ [48 + v mod 10]) ++ old ++ post) as -> by lapp.
    replace (zlen pre + 1) with (zlen (pre ++ [48 + v mod 10])) by len.
    rewrite IH by (cbn in Hf; lia). rewrite rev_app_distr, zlen_app. change (zlen [_]) with 1.
    f_equal. f_equal; [cbn; lapp|lia].
Qed.

Lemma reverse_loop_spec fuel : forall m pre post,
  (length m < 2 * fuel)%nat ->
  reverse_loop fuel (pre ++ m ++ post) (zlen pre) (zlen pre + zlen m - 1) = Some (pre ++ rev m ++ post).
Proof.
  induction fuel as [|fuel IH]; intros m pre post Hf; [lia|]. cbn [reverse_loop].
  destruct m as [|x m]; [by rewrite zlen_nil; zbool|].
  destruct m as [|y m _] using rev_ind; [change (zlen [x]) with 1; by zbool|].
  assert (zlen (x :: m ++ [y]) = 2 + zlen m) as -> by len. pose proof (zlen_nonneg m).
  zbool. assert (pre ++ (x :: m ++ [y]) ++ post = pre ++ x :: m ++ y :: post) as -> by lapp.
  assert (zlen pre + (2 + zlen m) - 1 = zlen (pre ++ y :: m)) as Ep by len.
  rewrite (znth_app_mid pre x _ (zlen pre)) by done. cbn [mbind option_bind].
  rewrite (znth_at (pre ++ x :: m) y post) by (lapp || len). cbn [mbind option_bind].
  rewrite store_1 by done. cbn [mbind option_bind].
  assert (pre ++ y :: m ++ y :: post = (pre ++ y :: m) ++ y :: post) as -> by lapp.
  rewrite store_1 by done. cbn [mbind option_bind].
  specialize (IH m (pre ++ [y]) (x :: post)).
  assert ((pre ++ [y]) ++ m ++ x :: post = (pre ++ y :: m) ++ x :: post) as E by lapp.
  rewrite E in IH. replace (zlen pre + 1) with (zlen (pre ++ [y])) by len.
  replace (zlen pre + (2 + zlen m) - 1 - 1) with (zlen (pre ++ [y]) + zlen m - 1) by len.
  rewrite IH by (cbn in Hf; rewrite length_app in Hf; cbn in Hf; lia).
  f_equal. cbn [rev]. rewrite rev_app_distr. cbn. lapp.
Qed.

(** A buffer with room for [n] more bytes at its start. *)
Lemma split2 (b : bytes) n : 0 <= n < zlen b -> exists old x post, b = old ++ x :: post /\ zlen old = n.
Proof.
  intros. destruct (zsplit n b) as (old & [|x post] & -> & Ho & Hr); [lia|rewrite zlen_nil in Hr; lia|].
  by exists old, x, post.
Qed.

(** Terminating and reversing the [zlen r] bytes written so far. *)
Lemma finish_digits r x post :
  (length r < 40)%nat ->
  (b ← store (r ++ x :: post) (zlen r) [0]; b ← reverse_loop 20 b 0 (zlen r - 1); Some (b, zlen r)) =
    Some (rev r ++ 0 :: post, zlen r).
Proof.
  intros Hr. rewrite store_1 by done. cbn [mbind option_bind].
  pose proof (reverse_loop_spec 20 r [] (0 :: post) ltac:(lia)) as E.
  change (zlen (@nil Z)) with 0 in E. rewrite !app_nil_l, Z.add_0_l in E. by rewrite E.
Qed.

Lemma udec_length_le v : 0 <= v < 10 ^ 20 -> zlen (udec v) <= 20.
Proof.
  intros Hv. destruct (udec_length v Hv) as [[_ ?]|[H1 H2]]; [lia|].
  assert (~ 20 < zlen (udec v)); [|lia]. intros Hlt.
  assert (10 ^ 20 <= 10 ^ (zlen (udec v) - 1)) by (apply Z.pow_le_mono_r; lia). lia.
Qed.

(** [sdsull2str] prints the numeral at the start of the buffer. *)
Lemma ull2str_spec b v :
  0 <= v < 10 ^ 20 -> zlen (udec v) < zlen b ->
  exists post, sdsull2str b v = Some (udec v ++ 0 :: post, zlen (udec v)) /\
    zlen (udec v ++ 0 :: post) = zlen b.
Proof.
  intros Hv Hb. pose proof (udec_length_le v Hv). pose proof (zlen_nonneg (udec v)).
  destruct (split2 b (zlen (udec v))) as (old & x & post & -> & Ho); [lia|].
  unfold sdsull2str. pose proof (gen_digits_spec v Hv 20 [] old (x :: post) Ho) as E.
  change (zlen (@nil Z)) with 0 in E. rewrite !app_nil_l, Z.add_0_l in E.
  rewrite E by (unfold zlen in *; lia). cbn [mbind option_bind]. clear E.
  assert (zlen old = zlen (rev (udec v))) as -> by (unfold zlen in *; rewrite length_rev; lia).
  exists post. rewrite finish_digits by (rewrite length_rev; unfold zlen in *; lia).
  rewrite rev_involutive. split; [do 2 f_equal; unfold zlen; by rewrite length_rev|]. len.
Qed.

(** [sdsll2str] prints any 64 bit value but the least. *)
Lemma ll2str_spec b v :
  in_s 64 v -> v <> LLONG_MIN -> zlen (sdec v) < zlen b ->
  exists post, sdsll2str b v = Some (sdec v ++ 0 :: post, zlen (sdec v)) /\
    zlen (sdec v ++ 0 :: post) = zlen b.
Proof.
  intros Hv Hmin Hb. assert (- 2 ^ 63 <= v < 2 ^ 63) as Hr by exact Hv.
  assert (2 ^ 63 < 10 ^ 20) by done.
  unfold sdsll2str, sdec in *. destruct (Z.ltb_spec v 0) as [Hneg|Hpos].
  2:{ destruct (ull2str_spec b v) as (post & E & Hl); [lia|done|].
      exists post. split; [|done]. rewrite <- E. unfold sdsull2str.
      cbn [mbind option_bind]. destruct (gen_digits 20 b 0 v) as [[? ?]|]; done. }
  unfold neg_ll. rewrite (proj2 (Z.eqb_neq _ _) Hmin). cbn [mbind option_bind].
  assert (0 <= - v < 10 ^ 20) as Hv' by lia. pose proof (udec_length_le _ Hv').
  pose proof (zlen_nonneg (udec (- v))). rewrite zlen_cons in Hb.
  destruct (split2 b (zlen (udec (- v)))) as (old & x & post & -> & Ho); [lia|].
  pose proof (gen_digits_spec _ Hv' 20 [] old (x :: post) Ho) as E.
  change (zlen (@nil Z)) with 0 in E. rewrite !app_nil_l, Z.add_0_l in E.
  rewrite E by (unfold zlen in *; lia). cbn [mbind option_bind]. clear E.
  rewrite store_1 by (unfold zlen in *; rewrite length_rev; lia). cbn [mbind option_bind].
  destruct post as [|y post]; [rewrite zlen_app in Hb; change (zlen [x]) with 1 in Hb; lia|].
  assert (rev (udec (- v)) ++ 45 :: y :: post = (rev (udec (- v)) ++ [45]) ++ y :: post) as -> by lapp.
  assert (zlen old + 1 = zlen (rev (udec (- v)) ++ [45])) as ->.
  { rewrite zlen_app. change (zlen [45]) with 1. unfold zlen in *. rewrite length_rev. lia. }
  exists post. rewrite finish_digits by (rewrite length_app, length_rev; cbn [length]; unfold zlen in *; lia).
  rewrite rev_app_distr, rev_involutive. split; [|cbn [app rev]; len].
  assert (zlen (rev (udec (- v)) ++ [45]) = zlen (45 :: udec (- v))) as ->; [|reflexivity].
  rewrite zlen_app, !zlen_cons, zlen_nil. unfold zlen. rewrite length_rev. lia.
Qed.

(** ** Comparison *)

(** Lexicographic order on byte strings. *)
Fixpoint lex (a b : bytes) : comparison :=
  match a, b with
  | [], [] => Eq
  | [], _ => Lt
  | _, [] => Gt
  | x :: a, y :: b => match x ?= y with Eq => lex a b | r => r end
  end.

Definition sign_of (c : comparison) : Z := match c with Lt => -1 | Eq => 0 | Gt => 1 end.

Lemma memcmp_lex a r1 b r2 :
  exists m, memcmp (Nat.min (length a) (length b)) (a ++ r1) (b ++ r2) = Some m /\
    (if m =? 0 then if zlen b <? zlen a then 1 else if zlen a <? zlen b then -1 else 0 else m)
    = sign_of (lex a b).
Proof.
  revert b. induction a as [|x a IH]; intros b.
  { exists 0. split; [done|]. cbn [Z.eqb]. destruct b as [|y b]; [done|].
    rewrite (zlen_cons y b), (@zlen_nil Z). pose proof (zlen_nonneg b). by zbool. }
  destruct b as [|y b].
  { exists 0. split; [done|]. cbn [Z.eqb lex sign_of]. rewrite (zlen_cons x a), (@zlen_nil Z).
    pose proof (zlen_nonneg a). by zbool. }
  cbn [length Nat.min app memcmp lex]. destruct (Z.eqb_spec x y) as [->|Hne].
  - destruct (IH b) as (m & -> & E). exists m. split; [done|].
    rewrite Z.compare_refl, <- E, !zlen_cons.
    destruct (m =? 0); [|done]. repeat zcase; lia.
  - eexists. split; [done|]. destruct (Z.ltb_spec x y).
    + by assert ((x ?= y) = Lt) as -> by (by apply Z.compare_lt_iff).
    + by assert ((x ?= y) = Gt) as -> by (apply Z.compare_gt_iff; lia).
Qed.

Lemma cmp_spec s1 s2 c1 c2 f1 f2 :
  sds_repr s1 c1 f1 -> sds_repr s2 c2 f2 -> sdscmp s1 s2 = Some (sign_of (lex c1 c2)).
Proof.
  intros Hs1 Hs2. unfold sdscmp. rewrite (at_len _ _ _ _ Hs1), (at_len _ _ _ _ Hs2).
  destruct (at_buf _ _ _ _ Hs1) as (j1 & -> & _). destruct (at_buf _ _ _ _ Hs2) as (j2 & -> & _).
  assert (Z.to_nat (if zlen c1 <? zlen c2 then zlen c1 else zlen c2) = Nat.min (length c1) (length c2)) as ->.
  { unfold zlen. zcase; lia. }
  destruct (memcmp_lex c1 (0 :: j1) c2 (0 :: j2)) as (m & -> & <-). cbn [mbind option_bind].
  by destruct (m =? 0).
Qed.

Lemma lex_eq a b : lex a b = Eq <-> a = b.
Proof.
  revert b. induction a as [|x a IH]; intros [|y b]; try done. cbn.
  destruct (Z.compare_spec x y) as [->|H|H]; [rewrite IH; naive_solver| |];
    (split; [done|]; intros [= -> _]; lia).
Qed.

Lemma lex_antisym a b : lex b a = CompOpp (lex a b).
Proof.
  revert b. induction a as [|x a IH]; intros [|y b]; try done. cbn.
  rewrite (Z.compare_antisym x y), IH. by destruct (x ?= y).
Qed.

Lemma lex_lt_trans a b c : lex a b = Lt -> lex b c = Lt -> lex a c = Lt.
Proof.
  revert b c. induction a as [|x a IH]; intros [|y b] [|z c]; try done. cbn.
  destruct (Z.compare_spec x y), (Z.compare_spec y z), (Z.compare_spec x z);
    subst; try done; try lia; eauto.
Qed.

(** ** Trimming *)

(** The bytes sdstrim removes: those of the set, and zero, because strchr finds
    the terminator. *)
Definition trimmed (cset : bytes) (c : Z) : Prop := c = 0 \/ c ∈ cset.

Lemma strchr_spec cset r c :
  0 ∉ cset -> exists b, strchr (cset ++ 0 :: r) c = Some b /\ (b = true <-> trimmed cset c).
Proof.
  unfold trimmed. induction cset as [|x cset IH]; cbn [app strchr].
  - intros _. destruct (Z.eqb_spec 0 c) as [<-|Hne].
    + exists true. split; [done|]. naive_solver.
    + exists false. split; [done|]. rewrite elem_of_nil. naive_solver.
  - rewrite not_elem_of_cons. intros [Hx Hc]. destruct (Z.eqb_spec x c) as [->|Hne].
    + exists true. split; [done|]. rewrite elem_of_cons. naive_solver.
    + zbool. destruct (IH Hc) as (b & -> & Hb). exists b. split; [done|].
      rewrite Hb, elem_of_cons. naive_solver.
Qed.

Section Trim.
Context (cset r : bytes) (Hcset : 0 ∉ cset).

Lemma trim_left_spec c : forall fuel pre post, (length c < fuel)%nat ->
  exists l m, c = l ++ m /\ Forall (trimmed cset) l /\ (forall x, head m = Some x -> ~ trimmed cset x) /\
    trim_left fuel (pre ++ c ++ post) (cset ++ 0 :: r) (zlen pre) (zlen pre + zlen c - 1)
      = Some (zlen pre + zlen l).
Proof.
  induction c as [|x c IH]; intros fuel pre post Hf; (destruct fuel as [|fuel]; [lia|]); cbn [trim_left].
  { exists [], []. rewrite zlen_nil. split_and!; [done|constructor|done|]. zbool. f_equal. lia. }
  rewrite zlen_cons. pose proof (zlen_nonneg c). zbool.
  rewrite (znth_at pre x (c ++ post)) by done. cbn [mbind option_bind].
  destruct (strchr_spec cset r x Hcset) as ([] & -> & Hb); cbn [mbind option_bind].
  - destruct (IH fuel (pre ++ [x]) post) as (l & m & -> & Hl & Hm & E); [cbn in Hf; lia|].
    exists (x :: l), m. split_and!; [done|by constructor; [apply Hb|]|done|].
    replace (zlen pre + 1) with (zlen (pre ++ [x])) by len.
    replace (zlen pre + (1 + zlen (l ++ m)) - 1) with (zlen (pre ++ [x]) + zlen (l ++ m) - 1) by len.
    assert (pre ++ (x :: l ++ m) ++ post = (pre ++ [x]) ++ (l ++ m) ++ post) as -> by lapp.
    rewrite E. f_equal. len.
  - exists [], (x :: c). split_and!; [done|constructor| |rewrite zlen_nil; f_equal; lia].
    intros y [= <-] Hy. by apply Hb in Hy.
Qed.

Lemma trim_right_spec m : forall fuel pre post, (length m < fuel)%nat ->
  (forall x, head m = Some x -> ~ trimmed cset x) ->
  exists m' t, m = m' ++ t /\ Forall (trimmed cset) t /\ (forall x, last m' = Some x -> ~ trimmed cset x) /\
    trim_right fuel (pre ++ m ++ post) (cset ++ 0 :: r) (zlen pre) (zlen pre + zlen m - 1)
      = Some (zlen pre + zlen m' - 1).
Proof.
  induction m as [|x m IH] using rev_ind; intros fuel pre post Hf Hh; (destruct fuel as [|fuel]; [lia|]);
    cbn [trim_right].
  { exists [], []. rewrite zlen_nil. split_and!; [done|constructor|done|]. by zbool. }
  assert (zlen (m ++ [x]) = zlen m + 1) as -> by len. pose proof (zlen_nonneg m).
  destruct m as [|y m].
  { exists [x], []. rewrite zlen_nil. split_and!; [done|constructor| |]; [|zbool; f_equal; len].
    intros z [= <-]. by apply Hh. }
  rewrite zlen_cons in *. pose proof (zlen_nonneg m). zbool.
  rewrite (znth_at (pre ++ y :: m) x post) by (lapp || len). cbn [mbind option_bind].
  destruct (strchr_spec cset r x Hcset) as ([] & -> & Hb); cbn [mbind option_bind].
  - destruct (IH fuel pre (x :: post)) as (m' & t & E & Ht & Hm & Et);
      [rewrite length_app in Hf; cbn in *; lia|done|].
    exists m', (t ++ [x]). split_and!; [by rewrite E; lapp| |done|].
    { apply Forall_app. split; [done|]. constructor; [by apply Hb|constructor]. }
    assert (pre ++ ((y :: m) ++ [x]) ++ post = pre ++ (y :: m) ++ x :: post) as -> by lapp.
    rewrite <- Et. f_equal. lia.
  - exists ((y :: m) ++ [x]), []. split_and!; [by rewrite app_nil_r|constructor| |f_equal; len].
    rewrite last_snoc. intros z [= <-] Hz. by apply Hb in Hz.
Qed.

End Trim.

(** ** Substrings in place *)

(** Keep the bytes [m] that follow [l]: the code moves them to the front (unless
    nothing precedes them), writes the terminator and sets the length. *)
Lemma keep_spec s l m t free (mv : bool) :
  sds_repr s (l ++ m ++ t) free -> (mv = false -> l = [] \/ m = []) ->
  exists s' free',
    (s1 ← (if mv then b ← memmove (buf s) 0 (zlen l) (zlen m); Some (set_buf b s) else Some s);
     s2 ← sds_write s1 (zlen m) [0]; Some (sdssetlen s2 (zlen m))) = Some s' /\
    sds_repr s' m free'.
Proof.
  intros Hs Hmv. pose proof (at_blk _ _ _ _ Hs) as Hb. pose proof (at_free _ _ _ _ Hs).
  destruct (at_buf _ _ _ _ Hs) as (junk & Eb & _). pose proof (zlen_nonneg l). pose proof (zlen_nonneg t).
  assert (exists s1 rest, (if mv then b ← memmove (buf s) 0 (zlen l) (zlen m); Some (set_buf b s) else Some s)
    = Some s1 /\ buf s1 = m ++ rest /\ blk s1 (zlen (l ++ m ++ t) + free)) as (s1 & rest & -> & E1 & Hb1).
  { destruct mv.
    - unfold memmove. rewrite (load_at l m (t ++ 0 :: junk)) by (done || (rewrite Eb; lapp)).
      cbn [mbind option_bind]. pose proof (zlen_nonneg m).
      assert (store (buf s) 0 m = Some (m ++ zdrop (0 + zlen m) (buf s))) as Est.
      { rewrite store_Some; [by rewrite ztake_0 by lia|lia|rewrite Eb; len]. }
      rewrite Est. eexists _, _. split; [done|]. split; [done|].
      apply blk_set_buf; [done|]. by apply zlen_store in Est.
    - exists s. destruct (Hmv eq_refl) as [-> | ->].
      + exists (t ++ 0 :: junk). split; [done|]. split; [by rewrite Eb; lapp|done].
      + exists (buf s). done. }
  cbn [mbind option_bind].
  destruct (cut_spec s1 (zlen (l ++ m ++ t) + free) m rest Hb1 E1) as (s2 & f2 & -> & Hs2); [len|].
  by exists (sdssetlen s2 (zlen m)), f2.
Qed.

Lemma trim_spec s c free cset r :
  sds_repr s c free -> 0 ∉ cset ->
  exists l m t s' free', c = l ++ m ++ t /\ Forall (trimmed cset) l /\ Forall (trimmed cset) t /\
    (forall x, head m = Some x \/ last m = Some x -> ~ trimmed cset x) /\
    sdstrim s (cset ++ 0 :: r) = Some s' /\ sds_repr s' m free'.
Proof.
  intros Hs Hc. unfold sdstrim. rewrite (at_len _ _ _ _ Hs).
  destruct (at_buf _ _ _ _ Hs) as (junk & Eb & _).
  assert (length c < S (length (buf s)))%nat as Hf by (rewrite Eb, length_app; lia).
  destruct (trim_left_spec cset r Hc c (S (length (buf s))) [] (0 :: junk) Hf) as (l & m & -> & Hl & Hm & El).
  destruct (trim_right_spec cset r Hc m (S (length (buf s))) l (0 :: junk)) as (m' & t & -> & Ht & Hm' & Er);
    [rewrite length_app in Hf; lia|done|].
  rewrite app_nil_l in El. change (zlen (@nil Z)) with 0 in El. rewrite Z.add_0_l in El.
  assert (zlen l + zlen (m' ++ t) - 1 = zlen (l ++ m' ++ t) - 1) as E1 by (rewrite !zlen_app; lia).
  assert (l ++ (m' ++ t) ++ 0 :: junk = buf s) as E2 by (rewrite Eb; lapp). rewrite E2, E1 in Er.
  rewrite <- Eb, Z.add_0_l in El. rewrite El. cbn [mbind option_bind]. rewrite Er. cbn [mbind option_bind].
  pose proof (zlen_nonneg m'). pose proof (zlen_nonneg l).
  assert ((if zlen l + zlen m' - 1 <? zlen l then 0 else zlen l + zlen m' - 1 - zlen l + 1) = zlen m') as ->.
  { zcase; lia. }
  destruct (keep_spec s l m' t free (negb (zlen l =? 0)) Hs) as (s' & f' & E & Hs').
  { destruct (Z.eqb_spec (zlen l) 0) as [->%zlen_0_nil|]; [by left|done]. }
  exists l, m', t, s', f'. split_and!; [done|done|done| |by rewrite <- E; destruct (zlen l =? 0)|done].
  intros x [Hx|Hx]; [|by apply Hm']. apply Hm. destruct m'; [done|]. exact Hx.
Qed.

(** ** Ranges *)

(** The bytes from index [start] to index [end_], both included and counted
    from the end when negative; an index before the first byte is the first. *)
Definition from_end (n i : Z) : Z := if i <? 0 then Z.max 0 (n + i) else i.
Definition slice (c : bytes) (start end_ : Z) : bytes :=
  let a := from_end (zlen c) start in
  let b := Z.min (from_end (zlen c) end_) (zlen c - 1) in
  ztake (b - a + 1) (zdrop a c).

Lemma i64_u64 z : - 2 ^ 63 <= z < 2 ^ 63 -> i64 (u64 z) = z.
Proof. intros. by apply wraps_wrapu. Qed.

Lemma i64_small z : - 2 ^ 63 <= z < 2 ^ 63 -> i64 z = z.
Proof. intros. by apply wraps_small. Qed.

Lemma range_bounds_spec len start end_ :
  0 < len < SDS_BOUND -> in_s 64 start -> in_s 64 end_ ->
  let a := from_end len start in let b := Z.min (from_end len end_) (len - 1) in
  (range_bounds len start end_).2 = Z.max 0 (b - a + 1) /\ 0 <= a /\
  (0 < b - a + 1 -> (range_bounds len start end_).1 = a).
Proof.
  unfold SDS_BOUND. intros Hl Hs He. assert (- 2 ^ 63 <= start < 2 ^ 63) as Hs' by exact Hs.
  assert (- 2 ^ 63 <= end_ < 2 ^ 63) as He' by exact He. cbn zeta. unfold range_bounds.
  assert (forall i, - 2 ^ 63 <= i < 2 ^ 63 -> range_index len i = from_end len i) as Ei.
  { intros i Hi. unfold range_index, from_end. zcase; [|done]. rewrite i64_u64 by lia. zcase; lia. }
  rewrite !Ei by done.
  assert (0 <= from_end len start < 2 ^ 63) as Ha by (unfold from_end; zcase; lia).
  assert (0 <= from_end len end_ < 2 ^ 63) as Hb by (unfold from_end; zcase; lia).
  set (a := from_end len start) in *. set (b := from_end len end_) in *. clearbody a b. cbn zeta.
  rewrite (i64_small len), (i64_u64 (len - 1)) by lia.
  destruct (Z.ltb_spec b a); [cbn; lia|].
  rewrite (u64_small (b - a + 1)) by lia.
  assert ((b - a + 1 =? 0) = false) as -> by lia. cbn [negb].
  destruct (Z.leb_spec len a); [cbn; lia|].
  destruct (Z.leb_spec len b); cbn; [|lia].
  destruct (Z.ltb_spec (len - 1) a); [lia|]. rewrite u64_small by lia. lia.
Qed.

Lemma range_spec s c free start end_ :
  sds_repr s c free -> zlen c < SDS_BOUND -> in_s 64 start -> in_s 64 end_ ->
  exists s' free', sdsrange s start end_ = Some s' /\ sds_repr s' (slice c start end_) free'.
Proof.
  intros Hs Hb Hst He. unfold sdsrange. rewrite (at_len _ _ _ _ Hs). pose proof (zlen_nonneg c).
  destruct (Z.eqb_spec (zlen c) 0) as [->%zlen_0_nil|Hne].
  { exists s, free. split; [done|]. unfold slice, ztake, zdrop. by rewrite drop_nil, take_nil. }
  destruct (range_bounds_spec (zlen c) start end_) as (E2 & Ha & E1); [lia|done|done|].
  unfold slice. set (a := from_end (zlen c) start) in *.
  set (b := Z.min (from_end (zlen c) end_) (zlen c - 1)) in *.
  destruct (range_bounds (zlen c) start end_) as [st nl]. cbn [fst snd] in *.
  destruct (Z.le_gt_cases (b - a + 1) 0) as [Hle|Hgt].
  - rewrite ztake_0 by done. assert (nl = 0) as -> by lia.
    destruct (keep_spec s [] [] c free false Hs) as (s' & f' & E & Hs'); [by left|].
    exists s', f'. rewrite <- E. by rewrite andb_false_r.
  - rewrite E1 in * by lia. assert (nl = b - a + 1) as -> by lia.
    assert (b <= zlen c - 1) by (unfold b; lia).
    set (m := ztake (b - a + 1) (zdrop a c)).
    assert (zlen m = b - a + 1) as Em by (unfold m; rewrite zlen_ztake; [done|]; rewrite zlen_zdrop; lia).
    assert (c = ztake a c ++ m ++ zdrop (b - a + 1) (zdrop a c)) as Ec.
    { unfold m. by rewrite ztake_zdrop, ztake_zdrop. }
    rewrite Ec in Hs.
    destruct (keep_spec s (ztake a c) m _ free (negb (a =? 0)) Hs) as (s' & f' & E & Hs').
    { destruct (Z.eqb_spec a 0) as [->|]; [left; by apply ztake_0|done]. }
    exists s', f'. rewrite <- E, Em, zlen_ztake by lia. split; [|done].
    assert ((b - a + 1 =? 0) = false) as -> by lia. by rewrite andb_true_r.
Qed.

(** ** Byte maps *)

Lemma map_loop_spec (f : Z -> option Z) todo : forall s d todo' free,
  sds_repr s (d ++ todo) free -> mapM f todo = Some todo' ->
  exists s' free', map_loop (length todo) f s (zlen d) = Some s' /\ sds_repr s' (d ++ todo') free'.
Proof.
  induction todo as [|x todo IH]; intros s d todo' free Hs Hf.
  { injection Hf as <-. by exists s, free. }
  cbn [mapM] in Hf. destruct (f x) as [y|] eqn:Ey; [|done]. cbn [mbind option_bind] in Hf.
  destruct (mapM f todo) as [ys|] eqn:Eys; [|done]. injection Hf as <-.
  destruct (at_buf _ _ _ _ Hs) as (junk & Eb & Hj). cbn [length map_loop].
  rewrite (znth_at d x (todo ++ 0 :: junk)) by (done || (rewrite Eb; lapp)).
  cbn [mbind option_bind]. rewrite Ey. cbn [mbind option_bind].
  rewrite (write_spec s d [x] (todo ++ 0 :: junk) (zlen d) [y]) by (done || (rewrite Eb; lapp)).
  cbn [mbind option_bind].
  destruct (IH (set_buf (d ++ [y] ++ todo ++ 0 :: junk) s) (d ++ [y]) ys free) as (s' & f' & E & Hs'); [|done|].
  - assert (zlen ((d ++ [y]) ++ todo) = zlen (d ++ x :: todo)) as El by len.
    split; [rewrite El; apply hdr_set_buf, Hs|]. exists junk. split; [cbn; lapp|done].
  - exists s', f'. split; [|by rewrite <- app_assoc in Hs'].
    rewrite <- E. f_equal. len.
Qed.

Lemma map_spec (f : Z -> option Z) s c c' free :
  sds_repr s c free -> mapM f c = Some c' ->
  exists s' free', map_loop (Z.to_nat (sdslen s)) f s 0 = Some s' /\ sds_repr s' c' free'.
Proof.
  intros Hs Hf. rewrite (at_len _ _ _ _ Hs). unfold zlen. rewrite Nat2Z.id.
  by apply (map_loop_spec f c s [] c' free).
Qed.

Lemma mapM_Some_fmap (f : Z -> Z) c : mapM (fun x => Some (f x)) c = Some (f <$> c).
Proof. induction c as [|x c IH]; [done|]. cbn. by rewrite IH. Qed.

(** ** printf *)

Section Format.
Context `{FreshMem}.

Lemma vsnprintf_fits b size out :
  zlen b = size -> 0 < size -> zlen out <= INT_MAX ->
  exists b', vsnprintf b size out = Some (b', zlen out) /\
    (zlen out < size -> load b' 0 (zlen out) = Some out).
Proof.
  intros Hb Hs Ho. unfold vsnprintf. zbool. pose proof (zlen_nonneg out).
  assert (zlen (ztake (size - 1) out) <= size - 1) as Ht.
  { unfold zlen, ztake. rewrite length_take. lia. }
  rewrite store_Some; [|lia|rewrite zlen_app; change (zlen [0]) with 1; lia].
  rewrite ztake_0 by lia. cbn [mbind option_bind app]. eexists. split; [done|]. intros Hlt.
  rewrite (ztake_all (size - 1) out) by lia. rewrite <- app_assoc. apply load_prefix.
Qed.

Lemma catvprintf_spec s c free fmt r out :
  sds_repr s c free -> 0 ∉ fmt -> zlen out <= INT_MAX -> zlen c + zlen out < SDS_BOUND ->
  exists s' free', sdscatvprintf s (fmt ++ 0 :: r) out = Some (Some s') /\ sds_repr s' (c ++ out) free'.
Proof.
  intros Hs Hf Ho Hb. unfold sdscatvprintf. rewrite strlen_app by done. cbn [mbind option_bind].
  set (buflen := if _ <? _ then _ else _).
  assert (0 < buflen) as Hp by (unfold buflen; zcase; lia). clearbody buflen.
  pose proof (zlen_nonneg out).
  assert (exists b, printf_loop 2 (malloc buflen) buflen out = Some (Some (b, zlen out)) /\
    load b 0 (zlen out) = Some out) as (b & -> & Hl).
  { cbn [printf_loop].
    destruct (vsnprintf_fits (malloc buflen) buflen out) as (b1 & -> & E1); [by rewrite zlen_malloc by lia|done|done|].
    cbn [mbind option_bind]. assert ((zlen out <? 0) = false) as -> by lia.
    destruct (Z.leb_spec buflen (zlen out)); [|exists b1; split; [done|auto]].
    destruct (vsnprintf_fits (malloc (zlen out + 1)) (zlen out + 1) out) as (b2 & -> & E2);
      [by rewrite zlen_malloc by lia|lia|done|].
    cbn [mbind option_bind]. assert ((zlen out <? 0) = false) as -> by lia.
    assert ((zlen out + 1 <=? zlen out) = false) as -> by lia. exists b2. split; [done|]. apply E2. lia. }
  cbn [mbind option_bind].
  destruct (catlen_spec s c free b out (zlen out)) as (s' & f' & -> & Hs'); [done|done|done|done|].
  cbn. by exists s', f'.
Qed.

(** ** The light formatter *)

(** The text of a specifier and of a format: [spec_out next ap txt ap'] when
    [%next] prints the first arguments of [ap] as [txt] and leaves [ap']. *)
Inductive spec_out : Z -> list fmt_arg -> bytes -> list fmt_arg -> Prop :=
  | spec_str str r ap : 0 ∉ str -> spec_out 115 (ArgStr (str ++ 0 :: r) :: ap) str ap
  | spec_sds t c x free ap : sds_at t c x free -> spec_out 83 (ArgSds t :: ap) c ap
  | spec_int z ap : in_s 32 z -> spec_out 105 (ArgInt z :: ap) (sdec z) ap
  | spec_ll z ap : in_s 64 z -> z <> LLONG_MIN -> spec_out 73 (ArgLL z :: ap) (sdec z) ap
  | spec_uint z ap : in_u 32 z -> spec_out 117 (ArgUInt z :: ap) (udec z) ap
  | spec_ull z ap : in_u 64 z -> spec_out 85 (ArgULL z :: ap) (udec z) ap
  | spec_other next ap : next ∉ [0; 115; 83; 105; 73; 117; 85] -> spec_out next ap [next] ap.

Inductive fmt_out : bytes -> list fmt_arg -> bytes -> Prop :=
  | out_nil ap : fmt_out [] ap []
  | out_char c f ap out :
      c <> 0 -> c <> 37 -> fmt_out f ap out -> fmt_out (c :: f) ap (c :: out)
  | out_spec next f ap txt ap' out :
      spec_out next ap txt ap' -> fmt_out f ap' out -> fmt_out (37 :: next :: f) ap (txt ++ out).

(** A part of a format, which leaves the arguments [ap'] to the rest. *)
Inductive fmt_part : bytes -> list fmt_arg -> bytes -> list fmt_arg -> Prop :=
  | part_nil ap : fmt_part [] ap [] ap
  | part_char c f ap out ap' : c <> 0 -> c <> 37 -> fmt_part f ap out ap' -> fmt_part (c :: f) ap (c :: out) ap'
  | part_spec next f ap txt ap1 out ap' :
      spec_out next ap txt ap1 -> fmt_part f ap1 out ap' -> fmt_part (37 :: next :: f) ap (txt ++ out) ap'.

Lemma out_part f ap out : fmt_out f ap out -> exists ap', fmt_part f ap out ap'.
Proof.
  induction 1 as [ap|c f ap out H0 H37 _ [ap' IH]|next f ap txt ap1 out Hs _ [ap' IH]]; [eexists; constructor| |]; exists ap'; by econstructor.
Qed.

Lemma spec_no_nul next ap txt ap' : spec_out next ap txt ap' -> next <> 0.
Proof. destruct 1; try done. set_solver. Qed.

Lemma part_no_nul f ap out ap' : fmt_part f ap out ap' -> 0 ∉ f.
Proof.
  induction 1 as [| |next f ap txt ap1 out ap' Hs Hf IH]; [set_solver|set_solver|].
  apply spec_no_nul in Hs. rewrite !not_elem_of_cons. done.
Qed.

Lemma put_spec s c x free str src l :
  sds_at s c x free -> load str 0 l = Some src -> zlen c + l < SDS_BOUND ->
  exists s' y free', catfmt_put s (zlen c) str l = Some (s', zlen c + l) /\ sds_at s' (c ++ src) y free'.
Proof.
  intros Hs Hl Hb. pose proof (zlen_load _ _ _ _ Hl) as El. pose proof (zlen_nonneg src).
  unfold catfmt_put. rewrite (at_avail _ _ _ _ Hs).
  assert (exists s1 f1, (if free <? l then sdsMakeRoomFor s l else Some s) = Some s1 /\
    sds_at s1 c x f1 /\ l <= f1) as (s1 & f1 & -> & Hs1 & Hf).
  { zcase; [|by exists s, free].
    destruct (makeroom_spec s c x free l) as (s1 & f1 & ? & ? & ? & _); [done|lia|done|by exists s1, f1]. }
  cbn [mbind option_bind]. rewrite Hl. cbn [mbind option_bind].
  destruct (append_inclen s1 c x f1 src Hs1) as (s2 & y & -> & Hs2); [lia|]. cbn [mbind option_bind].
  rewrite El in Hs2. by exists (sdsinclen s2 l), y, (f1 - l).
Qed.

Lemma char_spec s c x free ch :
  sds_at s c x free -> 1 <= free ->
  exists s' y free', catfmt_char s (zlen c) ch = Some (s', zlen c + 1) /\ sds_at s' (c ++ [ch]) y free'.
Proof.
  intros Hs Hf. unfold catfmt_char.
  destruct (append_inclen s c x free [ch] Hs) as (s2 & y & -> & Hs2); [done|].
  cbn [mbind option_bind]. by exists (sdsinclen s2 1), y, (free - 1).
Qed.

(** The room the loop makes for the next character. *)
Lemma room_spec s c x free :
  sds_at s c x free -> zlen c + 1 < SDS_BOUND ->
  exists s' free', (if sdsavail s =? 0 then sdsMakeRoomFor s 1 else Some s) = Some s' /\
    sds_at s' c x free' /\ 1 <= free'.
Proof.
  intros Hs Hb. rewrite (at_avail _ _ _ _ Hs). pose proof (at_free _ _ _ _ Hs).
  destruct (Z.eqb_spec free 0); [|exists s, free; split; [done|split; [done|lia]]].
  destruct (makeroom_spec s c x free 1) as (s1 & f1 & E & ? & ? & _); [done|lia|done|].
  by exists s1, f1.
Qed.

Lemma sdec_length v : in_s 64 v -> zlen (sdec v) < SDS_LLSTR_SIZE.
Proof.
  intros Hv. assert (- 2 ^ 63 <= v < 2 ^ 63) as Hr by exact Hv. unfold sdec, SDS_LLSTR_SIZE.
  assert (2 ^ 63 < 10 ^ 19 /\ 10 ^ 19 < 10 ^ 20) by done.
  assert (forall u, 0 <= u < 10 ^ 19 -> zlen (udec u) <= 19) as Hu.
  { intros u Hu. destruct (udec_length u) as [[_ ?]|[H1 H2]]; [lia|lia|].
    assert (~ 19 < zlen (udec u)); [|lia]. intros Hlt.
    assert (10 ^ 19 <= 10 ^ (zlen (udec u) - 1)) by (apply Z.pow_le_mono_r; lia). lia. }
  assert (2 ^ 63 = 9223372036854775808) by done. assert (10 ^ 19 = 10000000000000000000) by done.
  zcase; [rewrite zlen_cons; specialize (Hu (- v))|specialize (Hu v)]; lia.
Qed.

(** A number printed into a local buffer and appended. *)
Lemma put_ll s c x free z :
  sds_at s c x free -> in_s 64 z -> z <> LLONG_MIN -> zlen c + zlen (sdec z) < SDS_BOUND ->
  exists b s' y free', sdsll2str (malloc SDS_LLSTR_SIZE) z = Some (b, zlen (sdec z)) /\
    catfmt_put s (zlen c) b (zlen (sdec z)) = Some (s', zlen c + zlen (sdec z)) /\
    sds_at s' (c ++ sdec z) y free'.
Proof.
  intros Hs Hz Hmin Hb. pose proof (sdec_length z Hz).
  destruct (ll2str_spec (malloc SDS_LLSTR_SIZE) z) as (post & -> & _); [done|done|by rewrite zlen_malloc|].
  destruct (put_spec s c x free (sdec z ++ 0 :: post) (sdec z) (zlen (sdec z))) as (s' & y & f' & E & Hs');
    [done|apply load_prefix|done|]. eexists _, s', y, f'. done.
Qed.

Lemma put_ull s c x free z :
  sds_at s c x free -> in_u 64 z -> zlen c + zlen (udec z) < SDS_BOUND ->
  exists b s' y free', sdsull2str (malloc SDS_LLSTR_SIZE) z = Some (b, zlen (udec z)) /\
    catfmt_put s (zlen c) b (zlen (udec z)) = Some (s', zlen c + zlen (udec z)) /\
    sds_at s' (c ++ udec z) y free'.
Proof.
  intros Hs Hz Hb. assert (0 <= z < 10 ^ 20) as Hr.
  { assert (0 <= z < 2 ^ 64) as Hr by exact Hz. assert (2 ^ 64 < 10 ^ 20) by done. lia. }
  pose proof (udec_length_le z Hr).
  destruct (ull2str_spec (malloc SDS_LLSTR_SIZE) z) as (post & -> & _);
    [done|rewrite zlen_malloc; unfold SDS_LLSTR_SIZE; lia|].
  destruct (put_spec s c x free (udec z ++ 0 :: post) (udec z) (zlen (udec z))) as (s' & y & f' & E & Hs');
    [done|apply load_prefix|done|]. eexists _, s', y, f'. done.
Qed.

Lemma spec_spec next ap txt ap' s c x free :
  spec_out next ap txt ap' -> sds_at s c x free -> 1 <= free -> zlen c + zlen txt < SDS_BOUND ->
  exists s' y free', catfmt_spec s (zlen c) next ap = Some (s', zlen c + zlen txt, ap') /\
    sds_at s' (c ++ txt) y free'.
Proof.
  intros Ho Hs Hf Hb.
  assert (forall z, in_s 32 z -> in_s 64 z /\ z <> LLONG_MIN) as H32.
  { intros z Hz. assert (- 2 ^ 31 <= z < 2 ^ 31) as Hr by exact Hz.
    unfold LLONG_MIN. split; [unfold in_s; cbn|]; lia. }
  destruct Ho as [str r ap Hstr|t ct xt ft ap Ht|z ap Hz|z ap Hz Hm|z ap Hz|z ap Hz|next ap Hn];
    unfold catfmt_spec; cbn [Z.eqb Pos.eqb orb mbind option_bind].
  - rewrite strlen_app by done. cbn [mbind option_bind].
    destruct (put_spec s c x free (str ++ 0 :: r) str (zlen str)) as (s' & y & f' & -> & Hs');
      [done|apply load_prefix|done|]. cbn. by exists s', y, f'.
  - rewrite (at_len _ _ _ _ Ht).
    destruct (put_spec s c x free (buf t) ct (zlen ct)) as (s' & y & f' & -> & Hs');
      [done|by eapply load_contents|done|]. cbn. by exists s', y, f'.
  - destruct (H32 z Hz). destruct (put_ll s c x free z) as (b & s' & y & f' & -> & E & Hs'); [done..|].
    cbn [mbind option_bind]. rewrite E. cbn. by exists s', y, f'.
  - destruct (put_ll s c x free z) as (b & s' & y & f' & -> & E & Hs'); [done..|].
    cbn [mbind option_bind]. rewrite E. cbn. by exists s', y, f'.
  - destruct (put_ull s c x free z) as (b & s' & y & f' & -> & E & Hs'); [done| |done|].
    { assert (0 <= z < 2 ^ 32) by exact Hz. unfold in_u. lia. }
    cbn [mbind option_bind]. rewrite E. cbn. by exists s', y, f'.
  - destruct (put_ull s c x free z) as (b & s' & y & f' & -> & E & Hs'); [done..|].
    cbn [mbind option_bind]. rewrite E. cbn. by exists s', y, f'.
  - rewrite !not_elem_of_cons in Hn. destruct Hn as (H0 & H1 & H2 & H3 & H4 & H5 & H6 & _). zbool.
    destruct (char_spec s c x free next Hs Hf) as (s' & y & f' & -> & Hs'). cbn. by exists s', y, f'.
Qed.

Lemma fmt_loop_spec f ap out ap' r : fmt_part f ap out ap' -> forall s c x free,
  sds_at s c x free -> zlen c + zlen out + 1 < SDS_BOUND ->
  exists s' y free', catfmt_loop (f ++ r) s (zlen c) ap = catfmt_loop r s' (zlen (c ++ out)) ap' /\
    sds_at s' (c ++ out) y free'.
Proof.
  induction 1 as [ap|ch f ap out ap' H0 H37 Hf IH|next f ap txt ap1 out ap' Hsp Hf IH]; intros s c x free Hs Hb;
    cbn [app catfmt_loop].
  - exists s, x, free. rewrite app_nil_r. done.
  - zbool. rewrite zlen_cons in *. pose proof (zlen_nonneg out).
    destruct (room_spec s c x free Hs) as (s1 & f1 & -> & Hs1 & Hf1); [lia|]. cbn [mbind option_bind].
    destruct (char_spec s1 c x f1 ch Hs1 Hf1) as (s2 & y & f2 & -> & Hs2). cbn [mbind option_bind].
    destruct (IH s2 (c ++ [ch]) y f2 Hs2) as (s3 & y3 & f3 & E & Hs3); [len|].
    exists s3, y3, f3. rewrite <- app_assoc in E, Hs3. rewrite zlen_app in E. change (zlen [ch]) with 1 in E. by rewrite E.
  - cbn [Z.eqb Pos.eqb]. rewrite zlen_app in Hb. pose proof (zlen_nonneg out). pose proof (zlen_nonneg txt).
    destruct (room_spec s c x free Hs) as (s1 & f1 & -> & Hs1 & Hf1); [lia|]. cbn [mbind option_bind].
    destruct (spec_spec next ap txt ap1 s1 c x f1) as (s2 & y & f2 & -> & Hs2); [done..|lia|].
    cbn [mbind option_bind].
    destruct (IH s2 (c ++ txt) y f2 Hs2) as (s3 & y3 & f3 & E & Hs3); [len|].
    exists s3, y3, f3. rewrite <- app_assoc in E, Hs3. rewrite zlen_app in E. by rewrite E.
Qed.

(** sdscatfmt up to the rest [r] of its format. *)
Lemma catfmt_start s c free f ap out ap' n r :
  sds_repr s c free -> fmt_part f ap out ap' -> strlen (f ++ r) = Some n -> 0 <= n ->
  zlen c + zlen out + 1 < SDS_BOUND -> zlen c + 2 * n < SDS_BOUND ->
  exists s1 y free1, sds_at s1 (c ++ out) y free1 /\
    sdscatfmt s (f ++ r) ap = '(s, i) ← catfmt_loop r s1 (zlen (c ++ out)) ap'; sds_write s i [0].
Proof.
  intros Hs Hf Hn Hn0 Hb Hb2. unfold sdscatfmt. rewrite (at_len _ _ _ _ Hs), Hn. cbn [mbind option_bind].
  destruct (makeroom_spec s c 0 free (n * 2)) as (s1 & f1 & -> & Hs1 & _); [done|lia|lia|].
  cbn [mbind option_bind].
  destruct (fmt_loop_spec f ap out ap' r Hf s1 c 0 f1 Hs1 Hb) as (s2 & y & f2 & -> & Hs2). by exists s2, y, f2.
Qed.

Lemma catfmt_ok s c free f ap out r :
  sds_repr s c free -> fmt_out f ap out ->
  zlen c + zlen out + 1 < SDS_BOUND -> zlen c + 2 * zlen f < SDS_BOUND ->
  exists s' free', sdscatfmt s (f ++ 0 :: r) ap = Some s' /\ sds_repr s' (c ++ out) free'.
Proof.
  intros Hs [ap' Hf]%out_part Hb Hb2.
  destruct (catfmt_start s c free f ap out ap' (zlen f) (0 :: r) Hs Hf) as (s1 & y & f1 & Hs1 & ->);
    [by apply strlen_app, (part_no_nul f ap out ap')|apply zlen_nonneg|done|done|].
  cbn [catfmt_loop Z.eqb mbind option_bind]. destruct (terminate _ _ _ _ Hs1) as (s3 & -> & Hs3). by exists s3, f1.
Qed.

(** Behind a percent sign the terminator is a character like any other. *)
Lemma catfmt_lone s c free f ap out ap' r :
  sds_repr s c free -> fmt_part f ap out ap' -> zlen c + zlen out + 2 < SDS_BOUND -> zlen c + 2 * (zlen f + 1) < SDS_BOUND ->
  exists s1 y free1, sds_at s1 (c ++ out ++ [0]) y free1 /\
    sdscatfmt s (f ++ 37 :: 0 :: r) ap = '(s, i) ← catfmt_loop r s1 (zlen (c ++ out ++ [0])) ap'; sds_write s i [0].
Proof.
  intros Hs Hf Hb Hb2. pose proof (zlen_nonneg f).
  destruct (catfmt_start s c free f ap out ap' (zlen f + 1) (37 :: 0 :: r) Hs Hf) as (s1 & y1 & f1 & Hs1 & ->); [|lia|lia|lia|].
  { rewrite (app_assoc f [37] (0 :: r) : f ++ 37 :: 0 :: r = _), strlen_app by (rewrite not_elem_of_app; split; [by apply (part_no_nul f ap out ap')|set_solver]). f_equal. len. }
  cbn [catfmt_loop Z.eqb Pos.eqb]. destruct (room_spec s1 (c ++ out) y1 f1 Hs1) as (s3 & f3 & -> & Hs3 & Hf3); [rewrite zlen_app; lia|].
  cbn [mbind option_bind]. unfold catfmt_spec. cbn [Z.eqb Pos.eqb orb].
  destruct (char_spec s3 (c ++ out) y1 f3 0 Hs3 Hf3) as (s4 & y4 & f4 & -> & Hs4). rewrite <- app_assoc in Hs4. cbn [mbind option_bind].
  exists s4, y4, f4. split; [done|]. by rewrite (app_assoc c), (zlen_app (c ++ out) [0]).
Qed.

End Format.

(** ** The string as an abstract value *)

(** What a client does to a string, and its meaning on byte sequences. *)
Inductive sds_op :=
  | OpCat (t : bytes) | OpCpy (t : bytes) | OpClear | OpRange (start end_ : Z) | OpGrow (len : Z)
  | OpRoom (addlen : Z) | OpShrink | OpLower | OpUpper.

Definition abs_op (c : bytes) (o : sds_op) : bytes :=
  match o with
  | OpCat t => c ++ t
  | OpCpy t => t
  | OpClear => []
  | OpRange a b => slice c a b
  | OpGrow n => c ++ replicate (Z.to_nat (n - zlen c)) 0
  | OpRoom _ | OpShrink => c
  | OpLower => tolower <$> c
  | OpUpper => toupper <$> c
  end.

(** The arguments fit their C types and no size reaches the bound. *)
Definition op_ok (c : bytes) (o : sds_op) : Prop :=
  zlen (abs_op c o) < SDS_BOUND /\
  match o with
  | OpRange a b => in_s 64 a /\ in_s 64 b
  | OpGrow n => 0 <= n < SDS_BOUND
  | OpRoom n => 0 <= n /\ zlen c + n < SDS_BOUND
  | _ => True
  end.

Fixpoint ops_ok (c : bytes) (ops : list sds_op) : Prop :=
  match ops with
  | [] => True
  | o :: ops => op_ok c o /\ ops_ok (abs_op c o) ops
  end.

Section Client.
Context `{FreshMem}.

Definition run_op (s : sds) (o : sds_op) : option sds :=
  match o with
  | OpCat t => sdscatlen s t (zlen t)
  | OpCpy t => sdscpylen s t (zlen t)
  | OpClear => sdsclear s
  | OpRange a b => sdsrange s a b
  | OpGrow n => sdsgrowzero s n
  | OpRoom n => sdsMakeRoomFor s n
  | OpShrink => sdsRemoveFreeSpace s
  | OpLower => sdstolower s
  | OpUpper => sdstoupper s
  end.

Fixpoint run_ops (s : sds) (ops : list sds_op) : option sds :=
  match ops with
  | [] => Some s
  | o :: ops => s ← run_op s o; run_ops s ops
  end.

Lemma load_all t : load t 0 (zlen t) = Some t.
Proof. rewrite <- (app_nil_r t) at 1. apply load_prefix. Qed.

Lemma run_op_spec s c free o :
  sds_repr s c free -> zlen c < SDS_BOUND -> op_ok c o ->
  exists s' free', run_op s o = Some s' /\ sds_repr s' (abs_op c o) free'.
Proof.
  intros Hs Hc [Hb Ho]. destruct o as [t|t| |a b|n|n| | |]; cbn [run_op abs_op] in *.
  - eapply catlen_spec; [done|apply load_all|apply zlen_nonneg|by rewrite zlen_app in Hb].
  - eapply cpylen_spec; [done|apply load_all|]. split; [apply zlen_nonneg|done].
  - by eapply clear_spec.
  - destruct Ho. by eapply range_spec.
  - by eapply growzero_spec.
  - destruct Ho. destruct (makeroom_spec s c 0 free n) as (s' & f' & E & Hs' & _); [done..|]. by exists s', f'.
  - destruct (remove_free_spec s c free) as (s' & E & Hs'); [done..|]. by exists s', 0.
  - apply (map_spec _ s c _ free); [done|apply mapM_Some_fmap].
  - apply (map_spec _ s c _ free); [done|apply mapM_Some_fmap].
Qed.

Lemma run_ops_spec ops s c free :
  sds_repr s c free -> zlen c < SDS_BOUND -> ops_ok c ops ->
  exists s' free', run_ops s ops = Some s' /\ sds_repr s' (fold_left abs_op ops c) free'.
Proof.
  revert s c free. induction ops as [|o ops IH]; intros s c free Hs Hc Hops; [by exists s, free|].
  destruct Hops as [Ho Hops]. cbn [run_ops fold_left].
  destruct (run_op_spec s c free o Hs Hc Ho) as (s1 & f1 & -> & Hs1). cbn [mbind option_bind].
  apply (IH s1 (abs_op c o) f1); [done|apply Ho|done].
Qed.

End Client.

(** ** Properties *)

(** C25. sds strings refine byte sequences: any sequence of appends, copies,
    clears, ranges, growths, reservations, shrinks and case changes from the
    empty string runs without an access outside the allocation or a failed
    assert, whatever the fresh memory holds, and ends in a well formed,
    terminated string whose bytes are those of the abstract operations. *)
Theorem sds_refines_bytes `{FreshMem} ops :
  ops_ok [] ops ->
  exists s0 s free, sdsempty = Some s0 /\ run_ops s0 ops = Some s /\
    sds_repr s (fold_left abs_op ops []) free.
Proof.
  intros Hops. destruct empty_spec as (s0 & E0 & Hs0).
  destruct (run_ops_spec ops s0 [] 0 Hs0) as (s & free & E & Hs); [done|done|].
  by exists s0, s, free.
Qed.

Definition demo_sds_ops : list sds_op :=
  [OpCat (bytes_of_string "Hello World"); OpRange 1 (-1); OpRoom 300; OpUpper; OpGrow 12; OpShrink].

Lemma sds_refines_bytes_witness :
  exists s0 s free, sdsempty = Some s0 /\ run_ops s0 demo_sds_ops = Some s /\
    sds_repr s (bytes_of_string "ELLO WORLD" ++ [0; 0]) free.
Proof.
  refine (sds_refines_bytes demo_sds_ops _).
  cbn -[Z.lt Z.le]; unfold op_ok, in_s; repeat split; vm_compute; congruence.
Defined.

(** sdsMakeRoomFor keeps the string and its terminator and leaves at least
    the space asked for, in a header that can record it. *)
Theorem sdsMakeRoomFor_room `{FreshMem} s c free addlen :
  sds_repr s c free -> 0 < addlen -> zlen c + addlen < SDS_BOUND ->
  exists s' free', sdsMakeRoomFor s addlen = Some s' /\ sds_repr s' c free' /\
    addlen <= sdsavail s' /\ sdsavail s' = free' /\ sds_type s' <> SDS_TYPE_5 /\
    zlen (buf s') = sdsalloc s' + 1.
Proof.
  intros Hs Ha Hb. destruct (makeroom_spec s c 0 free addlen) as (s' & f' & E & Hs' & Hf & Ht);
    [done|lia|done|]. exists s', f'. rewrite (at_avail _ _ _ _ Hs'), (at_alloc _ _ _ _ Hs').
  split_and!; [done|done|done|done|by apply Ht|].
  destruct (at_blk _ _ _ _ Hs') as (_ & _ & [Hb'|Hb']); [|done]. by destruct (Ht Ha).
Qed.

Definition demo_str : sds := mk_sds 24 0 0 (bytes_of_string "abc" ++ [0]).

Lemma demo_str_repr : sds_repr demo_str (bytes_of_string "abc") 0.
Proof. split; [by apply hdr_5|]. exists []. split_and!; [done|done|by left]. Qed.

Lemma sdsMakeRoomFor_room_witness :
  exists s' free', sdsMakeRoomFor demo_str 40 = Some s' /\ sds_repr s' (bytes_of_string "abc") free' /\
    40 <= sdsavail s' /\ sdsavail s' = free' /\ sds_type s' <> SDS_TYPE_5 /\
    zlen (buf s') = sdsalloc s' + 1.
Proof. exact (sdsMakeRoomFor_room demo_str (bytes_of_string "abc") 0 40 demo_str_repr ltac:(lia) ltac:(done)). Defined.

(** sdsIncrLen extends the string over bytes already written in the free
    space, or cuts it, and aborts on any increment (of 32 bits) that leaves the
    capacity or the start of the string. *)
Theorem sdsIncrLen_exact s c x free incr :
  sds_at s c x free -> sds_type s <> SDS_TYPE_5 -> - 2 ^ 32 < incr < 2 ^ 32 ->
  (- zlen c <= incr <= free ->
   exists s', sdsIncrLen s incr = Some s' /\ sds_repr s' (ztake (zlen c + incr) (buf s)) (free - incr)) /\
  (~ (- zlen c <= incr <= free) -> sdsIncrLen s incr = None).
Proof. apply incrlen_spec. Qed.

Definition demo_room : sds := mk_sds SDS_TYPE_8 3 5 (bytes_of_string "abc" ++ [120; 121; 122]).

Lemma demo_room_at : sds_at demo_room (bytes_of_string "abc") 120 2.
Proof. split; [by apply hdr_n|]. exists [121; 122]. split_and!; [done|done|by right]. Qed.

Lemma sdsIncrLen_exact_witness :
  exists s', sdsIncrLen demo_room 1 = Some s' /\ sds_repr s' (bytes_of_string "abcx") 1.
Proof.
  exact (proj1 (sdsIncrLen_exact demo_room (bytes_of_string "abc") 120 2 1 demo_room_at ltac:(done) ltac:(lia))
    ltac:(split; vm_compute; congruence)).
Defined.

(** sdstrim keeps the middle of the string: what it removes on either side
    is made of bytes of the set (or zero bytes), and what it keeps, if anything,
    neither begins nor ends with such a byte. *)
Theorem sdstrim_middle s c free cset r :
  sds_repr s c free -> 0 ∉ cset ->
  exists l m t s' free', c = l ++ m ++ t /\ Forall (trimmed cset) l /\ Forall (trimmed cset) t /\
    (forall x, head m = Some x \/ last m = Some x -> ~ trimmed cset x) /\
    sdstrim s (cset ++ 0 :: r) = Some s' /\ sds_repr s' m free'.
Proof. apply trim_spec. Qed.

Lemma sdstrim_middle_witness :
  exists l m t s' free', bytes_of_string "abc" = l ++ m ++ t /\
    Forall (trimmed [97]) l /\ Forall (trimmed [97]) t /\
    (forall x, head m = Some x \/ last m = Some x -> ~ trimmed [97] x) /\
    sdstrim demo_str ([97] ++ [0]) = Some s' /\ sds_repr s' m free'.
Proof.
  refine (sdstrim_middle demo_str (bytes_of_string "abc") 0 [97] [] demo_str_repr _).
  by apply not_elem_of_cons; split; [|apply not_elem_of_nil].
Defined.

(** sdscmp is a total order on the contents: 0 exactly on equal strings,
    antisymmetric and transitive, and the answer is the lexicographic order of
    the bytes, a proper prefix being smaller. *)
Theorem sdscmp_order s1 s2 s3 c1 c2 c3 f1 f2 f3 :
  sds_repr s1 c1 f1 -> sds_repr s2 c2 f2 -> sds_repr s3 c3 f3 ->
  exists r12 r21 r23 r13, sdscmp s1 s2 = Some r12 /\ sdscmp s2 s1 = Some r21 /\
    sdscmp s2 s3 = Some r23 /\ sdscmp s1 s3 = Some r13 /\
    r12 = sign_of (lex c1 c2) /\ (r12 = 0 <-> c1 = c2) /\ r21 = - r12 /\
    (r12 < 0 -> r23 < 0 -> r13 < 0).
Proof.
  intros Hs1 Hs2 Hs3. do 4 eexists. split_and!; [by eapply cmp_spec..|done| | |].
  - rewrite <- lex_eq. by destruct (lex c1 c2).
  - rewrite lex_antisym. by destruct (lex c1 c2).
  - pose proof (lex_lt_trans c1 c2 c3) as Ht.
    destruct (lex c1 c2); cbn; try lia. destruct (lex c2 c3); cbn; try lia. by rewrite Ht.
Qed.

Lemma sdscmp_order_witness :
  exists r12 r21 r23 r13, sdscmp demo_str demo_str = Some r12 /\ sdscmp demo_str demo_str = Some r21 /\
    sdscmp demo_str demo_str = Some r23 /\ sdscmp demo_str demo_str = Some r13 /\
    r12 = sign_of (lex (bytes_of_string "abc") (bytes_of_string "abc")) /\
    (r12 = 0 <-> bytes_of_string "abc" = bytes_of_string "abc") /\ r21 = - r12 /\
    (r12 < 0 -> r23 < 0 -> r13 < 0).
Proof. exact (sdscmp_order _ _ _ _ _ _ _ _ _ demo_str_repr demo_str_repr demo_str_repr). Defined.

(** C38. sdscatfmt appends the text its format and arguments stand for, in every
    growth path of the destination, for any format in which each specifier has
    an argument of its type and no lone percent sign ends the format. *)
Theorem sdscatfmt_text `{FreshMem} s c free f ap out r :
  sds_repr s c free -> fmt_out f ap out ->
  zlen c + zlen out + 1 < SDS_BOUND -> zlen c + 2 * zlen f < SDS_BOUND ->
  exists s' free', sdscatfmt s (f ++ 0 :: r) ap = Some s' /\ sds_repr s' (c ++ out) free'.
Proof. apply catfmt_ok. Qed.

Lemma sdscatfmt_text_witness :
  exists s' free', sdscatfmt demo_str (bytes_of_string "=%i%%" ++ [0]) [ArgInt (-42)] = Some s' /\
    sds_repr s' (bytes_of_string "abc=-42%") free'.
Proof.
  refine (sdscatfmt_text demo_str (bytes_of_string "abc") 0 (bytes_of_string "=%i%%") [ArgInt (-42)]
    (bytes_of_string "=-42%") [] demo_str_repr _ _ _); [|done|done].
  apply out_char; [done|done|]. apply (out_spec 105 _ _ (sdec (-42)) []); [apply spec_int; split; vm_compute; congruence|].
  apply (out_spec 37 _ _ [37] []); [|apply out_nil].
  apply spec_other. rewrite !not_elem_of_cons. by repeat split; try apply not_elem_of_nil.
Defined.

(** C40. In any format that ends in a lone percent sign, sdscatfmt takes the terminator as the character behind the percent
    sign and goes on reading behind it: it appends the text of the format, a zero byte, and the text of whatever
    bytes [g] follow the terminator in memory, with the arguments that are left.  When nothing follows, the
    read is outside of the block. *)
Theorem sdscatfmt_lone_percent `{FreshMem} s c free f ap out ap' g out' rest :
  sds_repr s c free -> fmt_part f ap out ap' -> fmt_out g ap' out' ->
  zlen c + zlen out + zlen out' + 2 < SDS_BOUND -> zlen c + 2 * (zlen f + 1) < SDS_BOUND ->
  (exists s' free', sdscatfmt s (f ++ 37 :: 0 :: g ++ 0 :: rest) ap = Some s' /\ sds_repr s' (c ++ out ++ 0 :: out') free') /\
  sdscatfmt s (f ++ [37; 0]) ap = None.
Proof.
  intros Hs Hf [ap2 Hg]%out_part Hb Hb2. pose proof (zlen_nonneg out'). split.
  - destruct (catfmt_lone s c free f ap out ap' (g ++ 0 :: rest) Hs Hf) as (s1 & y & f1 & Hs1 & ->); [lia|lia|].
    destruct (fmt_loop_spec g ap' out' ap2 (0 :: rest) Hg s1 _ y f1 Hs1) as (s2 & y2 & f2 & -> & Hs2); [rewrite !zlen_app; change (zlen [0]) with 1; lia|].
    cbn [catfmt_loop Z.eqb mbind option_bind]. destruct (terminate _ _ _ _ Hs2) as (s3 & -> & Hs3). exists s3, f2. split; [done|].
    by rewrite <- !app_assoc in Hs3.
  - destruct (catfmt_lone s c free f ap out ap' [] Hs Hf) as (s1 & y & f1 & Hs1 & ->); [lia|lia|]. done.
Qed.

Lemma sdscatfmt_lone_percent_witness :
  (exists s' free', sdscatfmt demo_str (bytes_of_string "=%i" ++ 37 :: 0 :: bytes_of_string "xy" ++ [0]) [ArgInt (-42)] = Some s' /\
     sds_repr s' (bytes_of_string "abc=-42" ++ 0 :: bytes_of_string "xy") free') /\
  sdscatfmt demo_str (bytes_of_string "=%i" ++ [37; 0]) [ArgInt (-42)] = None.
Proof.
  refine (sdscatfmt_lone_percent demo_str (bytes_of_string "abc") 0 (bytes_of_string "=%i") [ArgInt (-42)] (bytes_of_string "=-42") []
    (bytes_of_string "xy") (bytes_of_string "xy") [] demo_str_repr _ _ _ _); [..|done|done].
  - apply part_char; [done|done|]. apply (part_spec 105 _ _ (sdec (-42)) [] []); [apply spec_int; split; vm_compute; congruence|apply part_nil].
  - apply out_char; [done|done|]. apply out_char; [done|done|]. apply out_nil.
Defined.

(** sdsfromlonglong gives the decimal numeral of every 64 bit integer but
    the least one, whose negation is undefined. *)
Theorem sdsfromlonglong_decimal `{FreshMem} v :
  in_s 64 v ->
  (v <> LLONG_MIN -> exists s, sdsfromlonglong v = Some s /\ sds_repr s (sdec v) 0) /\
  (v = LLONG_MIN -> sdsfromlonglong v = None).
Proof.
  intros Hv. split; [|by intros ->]. intros Hmin. unfold sdsfromlonglong.
  pose proof (sdec_length v Hv) as Hl.
  destruct (ll2str_spec (malloc SDS_LLSTR_SIZE) v) as (post & -> & _); [done|done|by rewrite zlen_malloc|].
  cbn [mbind option_bind]. apply (newptr_spec _ (sdec v)); [apply load_prefix|].
  split; [apply zlen_nonneg|]. unfold SDS_LLSTR_SIZE, SDS_BOUND in *. lia.
Qed.

Lemma sdsfromlonglong_decimal_witness :
  exists s, sdsfromlonglong (-907) = Some s /\ sds_repr s (bytes_of_string "-907") 0.
Proof.
  exact (proj1 (sdsfromlonglong_decimal (-907) ltac:(split; vm_compute; congruence)) ltac:(done)).
Defined.
