(* ===== verification/SdsSplit.v ===== *)
(** * Dynamic strings: splitting, joining and quoting (sds.c)

    sdssplitlen and sdsjoinsds, the quoted representation of sdscatrepr and the
    argument splitter sdssplitargs that reads it back.  A pointer that walks
    over a line is the rest of the line; reading past its last byte is [None]. *)

From stdpp Require Import base list numbers option strings sets.
From Stdlib Require Import ZArith Lia.
From S2P Require Import Prelude Sds SdsText.

Section Ops.
Context `{FreshMem}.

(** ** Splitting on a separator *)

(** [tokens[elements] = t]: the array has [slots] entries, of which the first
    ones are the list. *)
Definition put_token (slots : Z) (tokens : list sds) (t : sds) : option (list sds) :=
  if zlen tokens <? slots then Some (tokens ++ [t]) else None.

(** The separator at [s+j]. *)
Definition sep_at (s : bytes) (j : Z) (sep : bytes) (seplen : Z) : option bool :=
  c ← s.[j];
  c0 ← sep.[0];
  if (seplen =? 1) && (c =? c0) then Some true
  else m ← memcmp (Z.to_nat seplen) (zdrop j s) sep; Some (m =? 0).

(** The loop over [j]; [elements] is the number of tokens. *)
Fixpoint split_loop (fuel : nat) (s : bytes) (len : Z) (sep : bytes) (seplen : Z)
    (j start slots : Z) (tokens : list sds) : option (Z * Z * list sds) :=
  match fuel with
  | O => None
  | S fuel =>
      if j <? len - (seplen - 1) then
        let slots := if slots <? zlen tokens + 2 then slots * 2 else slots in
        found ← sep_at s j sep seplen;
        if (found : bool) then
          t ← sdsnewlen (InitPtr (zdrop start s)) (j - start);
          tokens ← put_token slots tokens t;
          split_loop fuel s len sep seplen (j + seplen - 1 + 1) (j + seplen) slots tokens
        else split_loop fuel s len sep seplen (j + 1) start slots tokens
      else Some (start, slots, tokens)
  end.

(** [Some None] is the NULL of a bad argument. *)
Definition sdssplitlen (s : bytes) (len : Z) (sep : bytes) (seplen : Z) : option (option (list sds)) :=
  if (seplen <? 1) || (len <? 0) then Some None
  else if len =? 0 then Some (Some [])
  else
    '(start, slots, tokens) ← split_loop (S (Z.to_nat len)) s len sep seplen 0 0 5 [];
    t ← sdsnewlen (InitPtr (zdrop start s)) (len - start);
    tokens ← put_token slots tokens t;
    Some (Some tokens).

(** ** Joining *)

Fixpoint join_loop (join : sds) (argv : list bytes) (sep : bytes) : option sds :=
  match argv with
  | [] => Some join
  | a :: rest =>
      join ← sdscat join a;
      join ← (if bool_decide (rest = []) then Some join else sdscat join sep);
      join_loop join rest sep
  end.

Definition sdsjoin (argv : list bytes) (sep : bytes) : option sds :=
  join ← sdsempty; join_loop join argv sep.

Fixpoint joinsds_loop (join : sds) (argv : list sds) (sep : bytes) (seplen : Z) : option sds :=
  match argv with
  | [] => Some join
  | a :: rest =>
      join ← sdscatsds join a;
      join ← (match rest with [] => Some join | _ => sdscatlen join sep seplen end);
      joinsds_loop join rest sep seplen
  end.

Definition sdsjoinsds (argv : list sds) (sep : bytes) (seplen : Z) : option sds :=
  join ← sdsempty; joinsds_loop join argv sep seplen.

(** ** Quoting *)

(** The lower case hexadecimal digits of a byte, the output of [%02x]. *)
Definition hex_char (d : Z) : Z := if d <? 10 then 48 + d else 87 + d.
Definition hex2 (c : Z) : bytes := [hex_char (c / 16); hex_char (c mod 16)].

(** [s = sdscatprintf(s,...)]; a NULL result is dereferenced by the next append. *)
Definition printf_step (s : sds) (fmt out : bytes) : option sds :=
  r ← sdscatprintf s fmt out; r.

(** The formats of the three sdscatprintf calls, with their terminators. *)
Definition fmt_escaped : bytes := [92; 37; 99; 0].                      (* "\\%c" *)
Definition fmt_char : bytes := [37; 99; 0].                             (* "%c" *)
Definition fmt_hex : bytes := [92; 120; 37; 48; 50; 120; 0].            (* "\\x%02x" *)

(** One byte of sdscatrepr. *)
Definition catrepr_char (s : sds) (c : Z) : option sds :=
  if (c =? 92) || (c =? 34) then printf_step s fmt_escaped [92; c]
  else if c =? 10 then sdscatlen s [92; 110; 0] 2
  else if c =? 13 then sdscatlen s [92; 114; 0] 2
  else if c =? 9 then sdscatlen s [92; 116; 0] 2
  else if c =? 7 then sdscatlen s [92; 97; 0] 2
  else if c =? 8 then sdscatlen s [92; 98; 0] 2
  else if isprint c then printf_step s fmt_char [c]
  else printf_step s fmt_hex (92 :: 120 :: hex2 c).

Fixpoint catrepr_loop (len : nat) (s : sds) (p : bytes) : option sds :=
  match len with
  | O => Some s
  | S len =>
      match p with
      | [] => None
      | c :: p => s ← catrepr_char s c; catrepr_loop len s p
      end
  end.

Definition sdscatrepr (s : sds) (p : bytes) (len : Z) : option sds :=
  s ← sdscatlen s [34; 0] 1;
  s ← catrepr_loop (Z.to_nat len) s p;
  sdscatlen s [34; 0] 1.

(** ** Splitting a line into arguments *)

Definition is_hex_digit (c : Z) : bool :=
  ((48 <=? c) && (c <=? 57)) || ((97 <=? c) && (c <=? 102)) || ((65 <=? c) && (c <=? 70)).

Definition hex_digit_to_int (c : Z) : Z :=
  if (48 <=? c) && (c <=? 57) then c - 48
  else if (97 <=? c) && (c <=? 102) then c - 87
  else if (65 <=? c) && (c <=? 70) then c - 55
  else 0.

(** The escape letter after a backslash. *)
Definition unescape (c : Z) : Z :=
  if c =? 110 then 10 else if c =? 114 then 13 else if c =? 116 then 9
  else if c =? 98 then 8 else if c =? 97 then 7 else c.

(** Read [p[k]]. *)
Definition peek (p : bytes) (k : nat) : option Z := p !! k.

(** The condition for an escaped byte [\xHH], evaluated from left to right. *)
Definition hex_escape (p : bytes) : option bool :=
  c0 ← peek p 0;
  if negb (c0 =? 92) then Some false else
  c1 ← peek p 1;
  if negb (c1 =? 120) then Some false else
  c2 ← peek p 2;
  if negb (is_hex_digit c2) then Some false else
  c3 ← peek p 3;
  Some (is_hex_digit c3).

(** A closing quote must be followed by a space or the end. *)
Definition bad_close (p : bytes) : option bool :=
  c1 ← peek p 1; Some (negb (c1 =? 0) && negb (isspace c1)).

(** One round of the token loop: the new state, with [p] before the final
    [if ( *p ) p++], or [Err]. *)
Inductive round := Err | Next (current : sds) (p : bytes) (inq insq done : bool).

Definition token_round (current : sds) (p : bytes) (inq insq : bool) : option round :=
  c ← peek p 0;
  if inq then
    hex ← hex_escape p;
    if (hex : bool) then
      c2 ← peek p 2;
      c3 ← peek p 3;
      current ← sdscatlen current [u8 (hex_digit_to_int c2 * 16 + hex_digit_to_int c3)] 1;
      Some (Next current (drop 3 p) true insq false)
    else
      esc ← (if c =? 92 then c1 ← peek p 1; Some (negb (c1 =? 0)) else Some false);
      if (esc : bool) then
        c1 ← peek p 1;
        current ← sdscatlen current [unescape c1] 1;
        Some (Next current (drop 1 p) true insq false)
      else if c =? 34 then
        bad ← bad_close p;
        Some (if (bad : bool) then Err else Next current p true insq true)
      else if c =? 0 then Some Err
      else current ← sdscatlen current p 1; Some (Next current p true insq false)
  else if insq then
    esc ← (if c =? 92 then c1 ← peek p 1; Some (c1 =? 39) else Some false);
    if (esc : bool) then
      current ← sdscatlen current [39; 0] 1;
      Some (Next current (drop 1 p) false true false)
    else if c =? 39 then
      bad ← bad_close p;
      Some (if (bad : bool) then Err else Next current p false true true)
    else if c =? 0 then Some Err
    else current ← sdscatlen current p 1; Some (Next current p false true false)
  else if (c =? 32) || (c =? 10) || (c =? 13) || (c =? 9) || (c =? 0)
    then Some (Next current p false false true)
  else if c =? 34 then Some (Next current p true false false)
  else if c =? 39 then Some (Next current p false true false)
  else current ← sdscatlen current p 1; Some (Next current p false false false).

(** [if ( *p ) p++;] *)
Definition token_advance (p : bytes) : option bytes :=
  c ← peek p 0; Some (if c =? 0 then p else drop 1 p).

(** The [while(!done)] loop: [Some None] is [goto err]. *)
Fixpoint token_loop (fuel : nat) (current : sds) (p : bytes) (inq insq : bool)
  : option (option (sds * bytes)) :=
  match fuel with
  | O => None
  | S fuel =>
      r ← token_round current p inq insq;
      match r with
      | Err => Some None
      | Next current p inq insq done =>
          p ← token_advance p;
          if (done : bool) then Some (Some (current, p)) else token_loop fuel current p inq insq
      end
  end.

(** [while( *p && isspace( *p )) p++;] *)
Fixpoint skip_blanks (p : bytes) : option bytes :=
  match p with
  | [] => None
  | c :: r => if negb (c =? 0) && isspace c then skip_blanks r else Some p
  end.

Fixpoint splitargs_loop (fuel : nat) (p : bytes) (vector : list sds) : option (option (list sds)) :=
  match fuel with
  | O => None
  | S fuel =>
      p ← skip_blanks p;
      c ← peek p 0;
      if c =? 0 then Some (Some vector) else
      current ← sdsempty;
      r ← token_loop (S (length p)) current p false false;
      match r with
      | None => Some None
      | Some (current, p) => splitargs_loop fuel p (vector ++ [current])
      end
  end.

(** [Some None] is the NULL returned for unbalanced quotes; [*argc] is the length of the vector. *)
Definition sdssplitargs (line : bytes) : option (option (list sds)) :=
  splitargs_loop (S (length line)) line [].

End Ops.

(** ** Splitting and joining *)

(** The string [s] holds the bytes [c]. *)
Definition holds (s : sds) (c : bytes) : Prop := exists free, sds_repr s c free.

Fixpoint intercalate (sep : bytes) (l : list bytes) : bytes :=
  match l with
  | [] => []
  | x :: rest => x ++ match rest with [] => [] | _ => sep ++ intercalate sep rest end
  end.

(** [c] contains no occurrence of [d]. *)
Definition free_of (d c : bytes) : Prop := forall u w, c <> u ++ d ++ w.

(** Tokens each followed by the separator. *)
Definition terminated (d : bytes) (cs : list bytes) : bytes := concat ((fun x => x ++ d) <$> cs).

Lemma terminated_snoc d cs x : terminated d (cs ++ [x]) = terminated d cs ++ x ++ d.
Proof. unfold terminated. rewrite fmap_app, concat_app. cbn. by rewrite app_nil_r. Qed.

Lemma intercalate_snoc d cs x : intercalate d (cs ++ [x]) = terminated d cs ++ x.
Proof.
  induction cs as [|y cs IH]; [cbn; by rewrite app_nil_r|].
  cbn [app intercalate]. rewrite IH. destruct (cs ++ [x]) eqn:E; [by destruct cs|].
  unfold terminated. cbn. lapp.
Qed.

Section Split.
Context `{FreshMem} (d r2 : bytes) (Hd : 1 <= zlen d).

Lemma sep_at_spec pre rest r :
  zlen d <= zlen rest ->
  exists b, sep_at (pre ++ rest ++ r) (zlen pre) (d ++ r2) (zlen d) = Some b /\
    (b = true <-> exists w, rest = d ++ w).
Proof.
  intros Hl. unfold sep_at. destruct rest as [|x rest]; [rewrite zlen_nil in Hl; lia|].
  destruct d as [|y d'] eqn:Ed; [rewrite zlen_nil in Hd; lia|].
  rewrite (znth_at pre x (rest ++ r) _ (zlen pre)) by done. change ((y :: d') ++ r2).[0] with (Some y).
  cbn [mbind option_bind]. rewrite <- Ed in *. rewrite zdrop_app_r by done.
  assert (take (length d) (d ++ r2) = d) as Et by apply take_app_length.
  destruct (memcmp_eq (length d) ((x :: rest) ++ r) (d ++ r2)) as (m & Em & Hm).
  { rewrite length_app. unfold zlen in Hl. lia. }
  { rewrite length_app. lia. }
  rewrite Et in Hm. assert (Z.to_nat (zlen d) = length d) as -> by (unfold zlen; lia).
  rewrite take_app_le in Hm by (unfold zlen in Hl; lia).
  assert (m = 0 <-> exists w, x :: rest = d ++ w) as Hm'.
  { rewrite Hm. split.
    - intros E. exists (drop (length d) (x :: rest)). by rewrite <- E at 1; rewrite take_drop.
    - intros [w ->]. apply take_app_length. }
  destruct (_ && _) eqn:Eb.
  - exists true. split; [done|]. split; [|done]. intros _.
    apply andb_true_iff in Eb as [E1%Z.eqb_eq E2%Z.eqb_eq]. subst y.
    assert (d' = []) as -> by (apply zlen_0_nil; rewrite Ed, zlen_cons in E1; lia).
    exists rest. by rewrite Ed.
  - rewrite Em. cbn. exists (m =? 0). split; [done|]. by rewrite Z.eqb_eq.
Qed.

(** The state of the loop: tokens found so far, the bytes scanned since the
    last separator and the bytes ahead. *)
Record split_inv (c : bytes) (start slots : Z) (tokens : list sds) (cs : list bytes) (mid rest : bytes) : Prop := {
  inv_c : c = terminated d cs ++ mid ++ rest;
  inv_start : start = zlen (terminated d cs);
  inv_slots : zlen tokens + 1 <= slots;
  inv_tokens : Forall2 holds tokens cs;
  inv_free : Forall (free_of d) cs;
  inv_scan : forall u w, mid ++ rest = u ++ d ++ w -> zlen mid <= zlen u
}.

Lemma scan_step mid x rest :
  (forall u w, mid ++ x :: rest = u ++ d ++ w -> zlen mid <= zlen u) ->
  (~ exists w, x :: rest = d ++ w) ->
  forall u w, (mid ++ [x]) ++ rest = u ++ d ++ w -> zlen (mid ++ [x]) <= zlen u.
Proof.
  intros Hs Hn u w E. rewrite <- app_assoc in E. cbn [app] in E. pose proof (Hs u w E).
  rewrite zlen_app. change (zlen [x]) with 1.
  destruct (Z.eq_dec (zlen mid) (zlen u)) as [El|]; [|lia].
  destruct Hn. exists w. assert (mid = u /\ x :: rest = d ++ w) as [_ ?]; [|done].
  apply app_inj_1; [unfold zlen in El; lia|done].
Qed.

(** Nothing scanned contains the separator. *)
Lemma free_mid mid rest :
  (forall u w, mid ++ rest = u ++ d ++ w -> zlen mid <= zlen u) -> free_of d mid.
Proof.
  intros Hs u w ->. specialize (Hs u (w ++ rest)). rewrite !zlen_app in Hs.
  pose proof (zlen_nonneg w). enough (zlen u + (zlen d + zlen w) <= zlen u) by lia.
  apply Hs. lapp.
Qed.

(** The array has room for the next token and the last one. *)
Lemma put_token_spec slots tokens t :
  zlen tokens + 1 <= slots ->
  put_token (if slots <? zlen tokens + 2 then slots * 2 else slots) tokens t = Some (tokens ++ [t]) /\
  zlen (tokens ++ [t]) + 1 <= (if slots <? zlen tokens + 2 then slots * 2 else slots).
Proof.
  intros Hs. pose proof (zlen_nonneg tokens). unfold put_token. rewrite zlen_app. change (zlen [t]) with 1.
  destruct (Z.ltb_spec slots (zlen tokens + 2)); zbool; split; done || lia.
Qed.

Lemma split_loop_spec r c fuel : forall start slots tokens cs mid rest,
  split_inv c start slots tokens cs mid rest -> zlen c < SDS_BOUND -> (length rest < fuel)%nat ->
  exists start' slots' tokens' cs' mid',
    split_loop fuel (c ++ r) (zlen c) (d ++ r2) (zlen d) (start + zlen mid) start slots tokens
      = Some (start', slots', tokens') /\
    split_inv c start' slots' tokens' cs' mid' [].
Proof.
  induction fuel as [|fuel IH]; intros start slots tokens cs mid rest [Ec Es Hsl Ht Hf Hsc] Hc Hfuel; [lia|].
  cbn [split_loop]. pose proof (zlen_nonneg mid). pose proof (zlen_nonneg rest).
  pose proof (zlen_nonneg (terminated d cs)).
  assert (zlen c = start + zlen mid + zlen rest) as El by (rewrite Ec, !zlen_app; lia).
  destruct (Z.ltb_spec (start + zlen mid) (zlen c - (zlen d - 1))) as [Hlt|Hge].
  2:{ exists start, slots, tokens, cs, (mid ++ rest). split; [done|].
      split; [by rewrite app_nil_r|done|done|done|done|]. intros u w E. rewrite app_nil_r in E.
      pose proof (Hsc u w E). apply (f_equal zlen) in E. rewrite !zlen_app in *.
      pose proof (zlen_nonneg w). lia. }
  destruct (sep_at_spec (terminated d cs ++ mid) rest r) as (b & Eb & Hb); [lia|].
  assert ((terminated d cs ++ mid) ++ rest ++ r = c ++ r) as E1 by (rewrite Ec; lapp).
  assert (zlen (terminated d cs ++ mid) = start + zlen mid) as E2 by (rewrite zlen_app; lia).
  rewrite E1, E2 in Eb. rewrite Eb. cbn [mbind option_bind]. destruct b.
  - destruct (proj1 Hb eq_refl) as [w ->]. rewrite zlen_app in *. pose proof (zlen_nonneg w).
    destruct (newptr_spec (zdrop start (c ++ r)) mid (start + zlen mid - start)) as (t & -> & Hholds); [|lia|].
    { rewrite Ec, <- app_assoc, zdrop_app_r by done. rewrite <- app_assoc.
      replace (start + zlen mid - start) with (zlen mid) by lia. apply load_prefix. }
    cbn [mbind option_bind].
    destruct (put_token_spec slots tokens t Hsl) as [-> Hsl']. cbn [mbind option_bind].
    set (slots' := if _ <? _ then _ else _) in *.
    destruct (IH (start + zlen mid + zlen d) slots' (tokens ++ [t]) (cs ++ [mid]) [] w)
      as (st & sl & tk & cs' & mid' & E & Hinv); [|done|rewrite length_app in Hfuel; unfold zlen in Hd; lia|].
    { split; [rewrite terminated_snoc, Ec; lapp|rewrite terminated_snoc, !zlen_app; lia|done| | |].
      - apply Forall2_app; [done|]. constructor; [by exists 0|constructor].
      - apply Forall_app. split; [done|]. constructor; [by eapply free_mid|constructor].
      - intros u v _. rewrite zlen_nil. apply zlen_nonneg. }
    exists st, sl, tk, cs', mid'. split; [|done]. rewrite <- E.
    change (zlen (@nil Z)) with 0. f_equal; lia.
  - destruct rest as [|x rest]; [rewrite zlen_nil in *; lia|].
    assert (~ exists w, x :: rest = d ++ w) as Hn by (intros Hw; by apply Hb in Hw).
    destruct (IH start (if slots <? zlen tokens + 2 then slots * 2 else slots) tokens cs (mid ++ [x]) rest)
      as (st & sl & tk & cs' & mid' & E & Hinv); [|done|cbn in Hfuel; lia|].
    { split; [rewrite Ec; lapp|done| |done|done|by apply scan_step].
      pose proof (zlen_nonneg tokens). zcase; lia. }
    exists st, sl, tk, cs', mid'. split; [|done]. rewrite <- E.
    rewrite zlen_app. change (zlen [x]) with 1. f_equal. lia.
Qed.

Lemma splitlen_spec c r :
  c <> [] -> zlen c < SDS_BOUND ->
  exists tokens cs, sdssplitlen (c ++ r) (zlen c) (d ++ r2) (zlen d) = Some (Some tokens) /\
    Forall2 holds tokens cs /\ Forall (free_of d) cs /\ intercalate d cs = c.
Proof.
  intros Hne Hc. unfold sdssplitlen. pose proof (zlen_nonneg c).
  assert (zlen c <> 0) by (intros E%zlen_0_nil; done). zbool.
  destruct (split_loop_spec r c (S (Z.to_nat (zlen c))) 0 5 [] [] [] c)
    as (st & sl & tk & cs & mid & E & [Ec Es Hsl Ht Hf Hsc]); [|done|unfold zlen; lia|].
  { split; [done|done|done|constructor|constructor|]. intros u w _. rewrite zlen_nil. apply zlen_nonneg. }
  change (0 + zlen (@nil Z)) with 0 in E. rewrite E. cbn [mbind option_bind].
  rewrite app_nil_r in *. pose proof (zlen_nonneg mid).
  assert (zlen c = st + zlen mid) as El by (rewrite Ec, zlen_app; lia).
  pose proof (zlen_nonneg (terminated d cs)).
  destruct (newptr_spec (zdrop st (c ++ r)) mid (zlen c - st)) as (t & -> & Hholds); [|lia|].
  { rewrite Ec at 1. rewrite <- app_assoc, zdrop_app_r by done.
    replace (zlen c - st) with (zlen mid) by lia. apply load_prefix. }
  cbn [mbind option_bind]. unfold put_token. zbool. cbn [mbind option_bind].
  exists (tk ++ [t]), (cs ++ [mid]). split_and!; [done| | |by rewrite intercalate_snoc].
  - apply Forall2_app; [done|]. constructor; [by exists 0|constructor].
  - apply Forall_app. split; [done|]. constructor; [|constructor].
    apply (free_mid mid []). by rewrite app_nil_r.
Qed.

End Split.

Section Join.
Context `{FreshMem}.

Lemma catsds_spec s c t x :
  holds s c -> holds t x -> zlen c + zlen x < SDS_BOUND ->
  exists s', sdscatsds s t = Some s' /\ holds s' (c ++ x).
Proof.
  intros [f Hs] [g Ht] Hb. unfold sdscatsds. rewrite (at_len _ _ _ _ Ht).
  destruct (catlen_spec s c f (buf t) x (zlen x)) as (s' & f' & E & Hs');
    [done|by eapply load_contents|apply zlen_nonneg|done|]. exists s'. split; [done|by exists f'].
Qed.

Lemma cat_spec s c t len src :
  holds s c -> load t 0 len = Some src -> zlen c + len < SDS_BOUND ->
  exists s', sdscatlen s t len = Some s' /\ holds s' (c ++ src).
Proof.
  intros [f Hs] Hl Hb. pose proof (zlen_load _ _ _ _ Hl). pose proof (zlen_nonneg src).
  destruct (catlen_spec s c f t src len) as (s' & f' & E & Hs'); [done|done|lia|done|].
  exists s'. split; [done|by exists f'].
Qed.

Lemma joinsds_loop_spec d r2 argv cs :
  Forall2 holds argv cs -> forall join c,
  holds join c -> zlen c + zlen (intercalate d cs) < SDS_BOUND ->
  exists s, joinsds_loop join argv (d ++ r2) (zlen d) = Some s /\ holds s (c ++ intercalate d cs).
Proof.
  induction 1 as [|t x argv cs Ht Hrest IH]; intros join c Hj Hb.
  { exists join. split; [done|]. cbn. by rewrite app_nil_r. }
  cbn [joinsds_loop intercalate] in *. pose proof (zlen_nonneg (intercalate d cs)). pose proof (zlen_nonneg d).
  rewrite zlen_app in Hb.
  destruct (catsds_spec join c t x) as (s1 & -> & Hs1); [done|done| |].
  { destruct Hrest; rewrite ?zlen_nil, ?zlen_app in Hb; lia. }
  cbn [mbind option_bind]. destruct Hrest as [|t' x' argv cs Ht' Hrest].
  { exists s1. split; [done|]. by rewrite app_nil_r. }
  rewrite zlen_app in Hb.
  destruct (cat_spec s1 (c ++ x) (d ++ r2) (zlen d) d) as (s2 & -> & Hs2);
    [done|apply load_prefix|rewrite zlen_app; lia|]. cbn [mbind option_bind].
  destruct (IH s2 ((c ++ x) ++ d) Hs2) as (s & -> & Hs); [rewrite !zlen_app; lia|].
  exists s. split; [done|]. by rewrite <- !app_assoc in *.
Qed.

Lemma joinsds_spec d r2 argv cs :
  Forall2 holds argv cs -> zlen (intercalate d cs) < SDS_BOUND ->
  exists s, sdsjoinsds argv (d ++ r2) (zlen d) = Some s /\ holds s (intercalate d cs).
Proof.
  intros Ha Hb. unfold sdsjoinsds. destruct empty_spec as (s0 & -> & Hs0). cbn [mbind option_bind].
  apply (joinsds_loop_spec d r2 argv cs Ha s0 []); [by exists 0|done].
Qed.

End Join.

(** ** Quoting *)

(** The escaped form of a byte and of a string. *)
Definition esc (c : Z) : bytes :=
  if (c =? 92) || (c =? 34) then [92; c]
  else if c =? 10 then [92; 110] else if c =? 13 then [92; 114] else if c =? 9 then [92; 116]
  else if c =? 7 then [92; 97] else if c =? 8 then [92; 98]
  else if isprint c then [c] else 92 :: 120 :: hex2 c.

Definition escape (c : bytes) : bytes := concat (esc <$> c).
Definition quote (c : bytes) : bytes := 34 :: escape c ++ [34].

Lemma esc_length c : 1 <= zlen (esc c) <= 4.
Proof. unfold esc. repeat case_match; done. Qed.

Lemma escape_length c : zlen c <= zlen (escape c).
Proof.
  induction c as [|x c IH]; [done|]. unfold escape in *. cbn. rewrite zlen_cons, zlen_app.
  pose proof (esc_length x). lia.
Qed.

Section Repr.
Context `{FreshMem}.

Lemma printf_step_spec s c fmt out :
  holds s c -> 0 ∉ fmt -> zlen out <= 4 -> zlen c + zlen out < SDS_BOUND ->
  exists s', printf_step s (fmt ++ [0]) out = Some s' /\ holds s' (c ++ out).
Proof.
  intros [f Hs] Hf Ho Hb. unfold printf_step, sdscatprintf.
  destruct (catvprintf_spec s c f fmt [] out) as (s' & f' & -> & Hs'); [done|done|unfold INT_MAX; lia|done|].
  exists s'. split; [done|by exists f'].
Qed.

Lemma catrepr_char_spec s c x :
  holds s c -> zlen c + 4 < SDS_BOUND ->
  exists s', catrepr_char s x = Some s' /\ holds s' (c ++ esc x).
Proof.
  intros Hs Hb. unfold catrepr_char, esc.
  assert (forall fmt out, 0 ∉ fmt -> zlen out <= 4 -> exists s', printf_step s (fmt ++ [0]) out = Some s' /\
    holds s' (c ++ out)) as Hp by (intros; apply printf_step_spec; [done|done|done|lia]).
  assert (forall a, exists s', sdscatlen s [92; a; 0] 2 = Some s' /\ holds s' (c ++ [92; a])) as Hc
    by (intros a; apply cat_spec; [done|done|lia]).
  repeat match goal with |- context [if ?b then _ else _] => destruct b; [auto|] end.
  - apply (Hp [92; 37; 99]); [set_solver by lia|done].
  - apply (Hp [37; 99]); [set_solver by lia|done].
  - apply (Hp [92; 120; 37; 48; 50; 120]); [set_solver by lia|done].
Qed.

Lemma catrepr_loop_spec p : forall s c r,
  holds s c -> zlen c + zlen (escape p) + 4 < SDS_BOUND ->
  exists s', catrepr_loop (length p) s (p ++ r) = Some s' /\ holds s' (c ++ escape p).
Proof.
  induction p as [|x p IH]; intros s c r Hs Hb; [exists s; cbn; by rewrite app_nil_r|].
  unfold escape in *. cbn [fmap list_fmap concat] in *. rewrite zlen_app in Hb.
  pose proof (esc_length x). pose proof (zlen_nonneg (concat (esc <$> p))).
  cbn [length app catrepr_loop].
  destruct (catrepr_char_spec s c x Hs) as (s1 & -> & Hs1); [lia|]. cbn [mbind option_bind].
  destruct (IH s1 (c ++ esc x) r Hs1) as (s2 & -> & Hs2); [rewrite zlen_app; lia|].
  exists s2. split; [done|]. by rewrite <- app_assoc in Hs2.
Qed.

Lemma catrepr_spec s c p r :
  holds s c -> zlen c + zlen (escape p) + 6 < SDS_BOUND ->
  exists s', sdscatrepr s (p ++ r) (zlen p) = Some s' /\ holds s' (c ++ quote p).
Proof.
  intros Hs Hb. unfold sdscatrepr. pose proof (zlen_nonneg (escape p)).
  destruct (cat_spec s c [34; 0] 1 [34]) as (s1 & -> & Hs1); [done|done|lia|]. cbn [mbind option_bind].
  assert (Z.to_nat (zlen p) = length p) as -> by (unfold zlen; lia).
  destruct (catrepr_loop_spec p s1 (c ++ [34]) r Hs1) as (s2 & -> & Hs2).
  { rewrite zlen_app. change (zlen [34]) with 1. lia. }
  cbn [mbind option_bind].
  destruct (cat_spec s2 ((c ++ [34]) ++ escape p) [34; 0] 1 [34]) as (s3 & -> & Hs3); [done|done| |].
  { rewrite !zlen_app. change (zlen [34]) with 1. lia. }
  exists s3. split; [done|]. unfold quote. by rewrite <- !app_assoc in Hs3.
Qed.

(** ** Reading arguments back *)

Lemma hex_char_ok d : 0 <= d < 16 -> is_hex_digit (hex_char d) = true /\ hex_digit_to_int (hex_char d) = d /\ hex_char d <> 0.
Proof.
  intros. unfold hex_char, is_hex_digit, hex_digit_to_int.
  destruct (Z.ltb_spec d 10); zbool; split_and!; done || lia.
Qed.

Lemma cat1_spec s c t x : holds s c -> zlen c + 1 < SDS_BOUND ->
  exists s', sdscatlen s (x :: t) 1 = Some s' /\ holds s' (c ++ [x]).
Proof. intros Hs Hb. apply cat_spec; [done|by apply (load_prefix [x])|done]. Qed.

(** One escaped byte, read between double quotes. *)
Lemma token_esc fuel cur c x p :
  holds cur c -> is_byte x -> zlen c + 1 < SDS_BOUND ->
  exists cur', token_loop (S fuel) cur (esc x ++ p) true false = token_loop fuel cur' p true false /\
    holds cur' (c ++ [x]).
Proof.
  intros Hs Hx Hb. unfold is_byte in Hx.
  assert (forall e, e <> 120 -> e <> 0 -> exists cur',
    token_loop (S fuel) cur ([92; e] ++ p) true false = token_loop fuel cur' p true false /\
    holds cur' (c ++ [unescape e])) as Hesc.
  { intros e He H0. destruct (cat1_spec cur c [] (unescape e) Hs Hb) as (cur' & E & Hc).
    exists cur'. split; [|done]. cbn [token_loop]. unfold token_round, hex_escape, peek. cbn.
    zbool. cbn. zbool. cbn. rewrite E. cbn. unfold token_advance, peek. cbn. zbool. done. }
  assert (x <> 92 -> x <> 34 -> x <> 0 -> exists cur',
    token_loop (S fuel) cur ([x] ++ p) true false = token_loop fuel cur' p true false /\
    holds cur' (c ++ [x])) as Hplain.
  { intros H1 H2 H3. destruct (cat1_spec cur c p x Hs Hb) as (cur' & E & Hc).
    exists cur'. split; [|done]. cbn [token_loop]. unfold token_round, hex_escape, peek. cbn.
    zbool. cbn. zbool. rewrite E. cbn. unfold token_advance, peek. cbn. by zbool. }
  unfold esc.
  destruct (Z.eqb_spec x 92) as [->|]; [by apply (Hesc 92)|].
  destruct (Z.eqb_spec x 34) as [->|]; [by apply (Hesc 34)|].
  destruct (Z.eqb_spec x 10) as [->|]; [by apply (Hesc 110)|].
  destruct (Z.eqb_spec x 13) as [->|]; [by apply (Hesc 114)|].
  destruct (Z.eqb_spec x 9) as [->|]; [by apply (Hesc 116)|].
  destruct (Z.eqb_spec x 7) as [->|]; [by apply (Hesc 97)|].
  destruct (Z.eqb_spec x 8) as [->|]; [by apply (Hesc 98)|]. cbn [orb].
  destruct (isprint x) eqn:Ep; [apply Hplain; [done|done|unfold isprint in Ep; lia]|].
  destruct (cat1_spec cur c [] x Hs Hb) as (cur' & E & Hc). exists cur'. split; [|done].
  destruct (hex_char_ok (x / 16)) as (A1 & A2 & A3); [dlia|].
  destruct (hex_char_ok (x mod 16)) as (B1 & B2 & B3); [dlia|].
  cbn [token_loop app hex2]. unfold token_round, hex_escape, peek. cbn. rewrite A1. cbn. rewrite B1. cbn.
  rewrite A2, B2. replace (x / 16 * 16 + x mod 16) with x by dlia.
  assert (u8 x = x) as -> by (apply wrapu_small; unfold in_u; lia).
  rewrite E. cbn. unfold token_advance, peek. cbn. by zbool.
Qed.

Lemma token_quoted cs : forall fuel cur c t,
  holds cur c -> bytes_ok cs -> zlen c + zlen cs < SDS_BOUND -> (length cs < fuel)%nat ->
  (exists y t', t = y :: t' /\ (y = 0 \/ isspace y = true)) ->
  exists cur', token_loop fuel cur (escape cs ++ 34 :: t) true false = Some (Some (cur', t)) /\
    holds cur' (c ++ cs).
Proof.
  induction cs as [|x cs IH]; intros fuel cur c t Hs Hok Hb Hf (y & t' & -> & Hy).
  - exists cur. rewrite app_nil_r. split; [|done]. destruct fuel as [|fuel]; [lia|].
    cbn. unfold token_round, bad_close, peek. cbn.
    destruct Hy as [-> | ->]; [done|]. by rewrite andb_false_r.
  - destruct fuel as [|fuel]; [lia|]. apply Forall_cons in Hok as [Hx Hok]. rewrite zlen_cons in Hb.
    pose proof (zlen_nonneg cs). unfold escape. cbn [fmap list_fmap concat]. rewrite <- app_assoc.
    destruct (token_esc fuel cur c x (concat (esc <$> cs) ++ 34 :: y :: t')) as (cur1 & -> & Hs1);
      [done|done|lia|].
    destruct (IH fuel cur1 (c ++ [x]) (y :: t')) as (cur2 & E & Hs2);
      [done|done|rewrite zlen_app; change (zlen [x]) with 1; lia|cbn in Hf; lia|by eauto|].
    exists cur2. split; [exact E|by rewrite <- app_assoc in Hs2].
Qed.

Lemma escape_length_nat cs : (length cs <= length (escape cs))%nat.
Proof. pose proof (escape_length cs). unfold zlen in *. lia. Qed.

(** A quoted string at the start of the line is the next argument. *)
Lemma splitargs_quoted fuel cs t vec :
  bytes_ok cs -> zlen cs < SDS_BOUND -> (exists y t', t = y :: t' /\ (y = 0 \/ isspace y = true)) ->
  exists cur, splitargs_loop (S fuel) (quote cs ++ t) vec = splitargs_loop fuel t (vec ++ [cur]) /\ holds cur cs.
Proof.
  intros Hok Hb Ht. destruct empty_spec as (s0 & E0 & Hs0). cbn [splitargs_loop].
  assert (quote cs ++ t = 34 :: escape cs ++ 34 :: t) as -> by (unfold quote; lapp).
  change (skip_blanks (34 :: escape cs ++ 34 :: t)) with (Some (34 :: escape cs ++ 34 :: t)).
  cbn [mbind option_bind peek lookup list_lookup Z.eqb]. rewrite E0. cbn [mbind option_bind].
  destruct (token_quoted cs (length (34 :: escape cs ++ 34 :: t)) s0 [] t) as (cur & E & Hc);
    [by exists 0|done|done| |done|].
  { cbn [length]. rewrite length_app. pose proof (escape_length_nat cs). lia. }
  exists cur. split; [|done].
  assert (token_loop (S (length (34 :: escape cs ++ 34 :: t))) s0 (34 :: escape cs ++ 34 :: t) false false
    = Some (Some (cur, t))) as -> by exact E. done.
Qed.

End Repr.

Section Args.
Context `{FreshMem}.

(** Quoted arguments, each after a space, up to the terminator. *)
Definition spaced (cs : list bytes) : bytes := concat ((fun c => 32 :: quote c) <$> cs).

Lemma spaced_head cs r : exists y t, spaced cs ++ 0 :: r = y :: t /\ (y = 0 \/ isspace y = true).
Proof. destruct cs; [by exists 0, r; auto|]. eexists 32, _. split; [done|by right]. Qed.

Lemma spaced_length cs : (length cs <= length (spaced cs))%nat.
Proof. unfold spaced. induction cs as [|c cs IH]; cbn; [lia|]. rewrite length_app. lia. Qed.

Lemma splitargs_spaced cs r : forall fuel vec,
  Forall (fun c => bytes_ok c /\ zlen c < SDS_BOUND) cs -> (length cs < fuel)%nat ->
  exists toks, splitargs_loop fuel (spaced cs ++ 0 :: r) vec = Some (Some (vec ++ toks)) /\ Forall2 holds toks cs.
Proof.
  induction cs as [|c cs IH]; intros fuel vec Hcs Hf; (destruct fuel as [|fuel]; [lia|]).
  { exists []. cbn. by rewrite app_nil_r. }
  apply Forall_cons in Hcs as [[Hok Hb] Hcs].
  destruct (splitargs_quoted fuel c (spaced cs ++ 0 :: r) vec Hok Hb (spaced_head cs r)) as (cur & E & Hc).
  destruct (IH fuel (vec ++ [cur]) Hcs) as (toks & E2 & Ht); [cbn in Hf; lia|].
  exists (cur :: toks). split; [|by constructor].
  assert (vec ++ cur :: toks = (vec ++ [cur]) ++ toks) as -> by lapp. rewrite <- E2, <- E.
  assert (spaced (c :: cs) ++ 0 :: r = 32 :: quote c ++ spaced cs ++ 0 :: r) as ->; [|done].
  unfold spaced. cbn. lapp.
Qed.

(** ** Every line is handled

    [line_at p q]: the rest [p] of the line is the bytes [q] before the
    terminator, which is followed by [r]. *)
Context (r : bytes).

Definition line_at (p q : bytes) : Prop := p = q ++ 0 :: r /\ 0 ∉ q.

(** What one round of the token loop guarantees: it stops at the terminator,
    and otherwise stays before it. *)
Definition round_ok (c q : bytes) (rd : round) : Prop :=
  match rd with
  | Err => True
  | Next cur' p' _ _ done => exists c' q', holds cur' c' /\ line_at p' q' /\ (length q' <= length q)%nat /\
      (q' = [] -> q = [] /\ done = true) /\ zlen c' + zlen q' <= zlen c + zlen q + (if bool_decide (q' = []) then 0 else 1)
  end.

Lemma line_drop p q x : line_at p (x :: q) -> x <> 0 /\ p = x :: (q ++ 0 :: r) /\ line_at (drop 1 p) q.
Proof. intros [-> Hq]. rewrite not_elem_of_cons in Hq. destruct Hq. split; [done|]. split; [done|]. by split. Qed.

(** A round that appends one byte and moves [k] bytes on, short of the end. *)
Lemma round_append cur c p q k x inq insq src :
  holds cur c -> line_at p q -> (k < length q)%nat -> load src 0 1 = Some [x] -> zlen c + zlen q < SDS_BOUND ->
  exists rd, (current ← sdscatlen cur src 1; Some (Next current (drop k p) inq insq false)) = Some rd /\
    round_ok c q rd.
Proof.
  intros Hs [-> Hq] Hk Hl Hb. assert (1 <= zlen q) by (unfold zlen; lia).
  destruct (cat_spec cur c src 1 [x]) as (cur' & -> & Hc); [done|done|lia|].
  eexists. split; [done|]. exists (c ++ [x]), (drop k q).
  assert (length (drop k q) = length q - k)%nat as El by apply length_drop.
  assert (drop k q <> []) by (intros E; rewrite E in El; cbn in El; lia).
  split_and!; [done| |lia|done|].
  - split; [by rewrite drop_app_le by lia|]. rewrite <- (take_drop k q), not_elem_of_app in Hq. by destruct Hq.
  - rewrite bool_decide_eq_false_2 by done. rewrite zlen_app. change (zlen [x]) with 1. unfold zlen. lia.
Qed.

(** A round that only moves on or ends the token. *)
Lemma round_keep cur c p q inq insq (done : bool) :
  holds cur c -> line_at p q -> (q = [] -> done = true) -> round_ok c q (Next cur p inq insq done).
Proof.
  intros Hs Hp Hd. exists c, q. split_and!; [done|done|done|auto|]. case_match; lia.
Qed.

Lemma peek_line p q k : line_at p q -> (k <= length q)%nat ->
  exists x, peek p k = Some x /\ (x = 0 <-> k = length q).
Proof.
  intros [-> Hq] Hk. unfold peek. destruct (decide (k = length q)) as [->|Hne].
  - exists 0. rewrite lookup_app_r, Nat.sub_diag by lia. done.
  - destruct (lookup_lt_is_Some_2 q k) as [x Hx]; [lia|]. exists x.
    rewrite lookup_app_l by lia. split; [done|]. split; [|done]. intros ->.
    destruct Hq. by apply list_elem_of_lookup_2 in Hx.
Qed.

Lemma hex_escape_line p q : line_at p q -> exists b, hex_escape p = Some b /\ (b = true -> (3 < length q)%nat).
Proof.
  intros Hp. unfold hex_escape.
  destruct (peek_line p q 0 Hp) as (c0 & -> & Hp0); [lia|]. cbn [mbind option_bind].
  destruct (Z.eqb_spec c0 92); cbn [negb]; [|by exists false].
  destruct (peek_line p q 1 Hp) as (c1 & -> & Hp1); [lia|]. cbn [mbind option_bind].
  destruct (Z.eqb_spec c1 120); cbn [negb]; [|by exists false].
  destruct (peek_line p q 2 Hp) as (c2 & -> & Hp2); [lia|]. cbn [mbind option_bind].
  destruct (is_hex_digit c2) eqn:E2; cbn [negb]; [|by exists false].
  assert (c2 <> 0) by (intros ->; done).
  destruct (peek_line p q 3 Hp) as (c3 & -> & Hp3); [lia|]. cbn [mbind option_bind].
  exists (is_hex_digit c3). split; [done|]. intros E3. assert (c3 <> 0) by (intros ->; done). lia.
Qed.

(** [p[0] == '\\' && f(p[1])], read in that order. *)
Lemma esc_line p q c0 (f : Z -> bool) : line_at p q -> peek p 0 = Some c0 -> (f 0 = false) ->
  exists b, (if c0 =? 92 then c1 ← peek p 1; Some (f c1) else Some false) = Some b /\
    (b = true -> (1 < length q)%nat).
Proof.
  intros Hp H0 Hf. destruct (Z.eqb_spec c0 92) as [->|]; [|by exists false].
  destruct (peek_line p q 0 Hp) as (x & E & Hx); [lia|]. simplify_eq.
  destruct (peek_line p q 1 Hp) as (c1 & -> & H1); [lia|]. cbn [mbind option_bind].
  exists (f c1). split; [done|]. intros E1. assert (c1 <> 0) by (intros ->; congruence). lia.
Qed.

Lemma close_line p q c0 : line_at p q -> peek p 0 = Some c0 -> c0 <> 0 -> exists b, bad_close p = Some b.
Proof.
  intros Hp H0 Hne. destruct (peek_line p q 0 Hp) as (x & E & Hx); [lia|]. simplify_eq.
  unfold bad_close. destruct (peek_line p q 1 Hp) as (c1 & -> & H1); [lia|]. by eexists.
Qed.

Lemma token_round_ok cur c p q inq insq :
  holds cur c -> line_at p q -> zlen c + zlen q < SDS_BOUND ->
  exists rd, token_round cur p inq insq = Some rd /\ round_ok c q rd.
Proof.
  intros Hs Hp Hb. unfold token_round.
  destruct (peek_line p q 0 Hp) as (c0 & E0 & H0); [lia|]. rewrite E0. cbn [mbind option_bind].
  assert (forall x, c0 <> 0 -> exists rd, (current ← sdscatlen cur p 1; Some (Next current p x insq false)) = Some rd
    /\ round_ok c q rd) as Hplain.
  { intros x Hne. apply (round_append cur c p q 0 c0); [done|done|lia| |done].
    destruct p as [|y p]; [done|]. cbn in E0. injection E0 as ->. by apply (load_prefix [c0]). }
  assert (forall b (i j : bool), c0 <> 0 -> exists rd, Some (if (b : bool) then Err else Next cur p i j true) = Some rd /\
    round_ok c q rd) as Hclose.
  { intros b i j Hne. eexists. split; [done|]. destruct b; [done|]. by apply round_keep. }
  destruct inq; [|destruct insq].
  - destruct (hex_escape_line p q Hp) as (hex & -> & Hhex). cbn [mbind option_bind]. destruct hex.
    { specialize (Hhex eq_refl).
      destruct (peek_line p q 2 Hp) as (c2 & -> & _); [lia|]. cbn [mbind option_bind].
      destruct (peek_line p q 3 Hp) as (c3 & -> & _); [lia|]. cbn [mbind option_bind].
      by apply (round_append cur c p q 3 (u8 (hex_digit_to_int c2 * 16 + hex_digit_to_int c3))). }
    destruct (esc_line p q c0 (fun c1 => negb (c1 =? 0)) Hp E0 eq_refl) as (e & -> & He).
    cbn [mbind option_bind]. destruct e.
    { specialize (He eq_refl). destruct (peek_line p q 1 Hp) as (c1 & -> & _); [lia|]. cbn [mbind option_bind].
      by apply (round_append cur c p q 1 (unescape c1)). }
    destruct (Z.eqb_spec c0 34) as [->|].
    { destruct (close_line p q 34 Hp E0 ltac:(done)) as [b ->]. cbn [mbind option_bind]. by apply Hclose. }
    destruct (Z.eqb_spec c0 0); [by exists Err|]. by apply Hplain.
  - destruct (esc_line p q c0 (fun c1 => c1 =? 39) Hp E0 eq_refl) as (e & -> & He).
    cbn [mbind option_bind]. destruct e.
    { specialize (He eq_refl). by apply (round_append cur c p q 1 39). }
    destruct (Z.eqb_spec c0 39) as [->|].
    { destruct (close_line p q 39 Hp E0 ltac:(done)) as [b ->]. cbn [mbind option_bind]. by apply Hclose. }
    destruct (Z.eqb_spec c0 0); [by exists Err|]. by apply Hplain.
  - assert (forall (i j d : bool), (c0 = 0 -> d = true) -> exists rd, Some (Next cur p i j d) = Some rd /\ round_ok c q rd)
      as Hkeep.
    { intros i j d Hd. eexists. split; [done|]. apply round_keep; [done|done|]. intros ->. by apply Hd, H0. }
    destruct (_ || _) eqn:Eb; [by apply Hkeep|].
    assert (c0 <> 0) by (intros ->; done).
    destruct (c0 =? 34); [by apply Hkeep|]. destruct (c0 =? 39); [by apply Hkeep|]. by apply Hplain.
Qed.

Lemma token_loop_ok fuel : forall cur c p q inq insq,
  holds cur c -> line_at p q -> zlen c + zlen q < SDS_BOUND -> (length q < fuel)%nat ->
  exists res, token_loop fuel cur p inq insq = Some res /\
    match res with
    | None => True
    | Some (cur', p') => (exists c', holds cur' c') /\ exists q', line_at p' q' /\ (length q' < length q \/ q = [] /\ q' = [])%nat
    end.
Proof.
  induction fuel as [|fuel IH]; intros cur c p q inq insq Hs Hp Hb Hf; [lia|]. cbn [token_loop].
  destruct (token_round_ok cur c p q inq insq Hs Hp Hb) as (rd & -> & Hrd). cbn [mbind option_bind].
  destruct rd as [|cur' p' inq' insq' dn]; [by exists None|].
  destruct Hrd as (c' & q' & Hs' & Hp' & Hlen & Hnil & Hz).
  unfold token_advance. destruct (peek_line p' q' 0 Hp') as (x & -> & Hx); [lia|]. cbn [mbind option_bind].
  destruct q' as [|y q'].
  - destruct (Hnil eq_refl) as [-> ->]. assert (x = 0) as -> by (by apply Hx). cbn [Z.eqb].
    eexists. split; [done|]. split; [by exists c'|]. exists []. split; [done|by right].
  - assert (x <> 0) by (intros Hx0; apply Hx in Hx0; done).
    rewrite (proj2 (Z.eqb_neq _ _)) by done.
    destruct (line_drop p' q' y Hp') as (_ & _ & Hd). cbn in Hlen. rewrite zlen_cons in Hz. cbn in Hz.
    destruct dn.
    + eexists. split; [done|]. split; [by exists c'|]. exists q'. split; [done|]. left. lia.
    + destruct (IH cur' c' (drop 1 p') q' inq' insq') as (res & -> & Hres); [done|done|lia|lia|].
      exists res. split; [done|]. destruct res as [[? p'']|]; [|done].
      destruct Hres as (Hcur & q'' & ? & Hq''). split; [done|]. exists q''. split; [done|]. left.
      destruct Hq'' as [|[-> ->]]; cbn; lia.
Qed.

Lemma skip_blanks_line q : 0 ∉ q -> exists p' q', skip_blanks (q ++ 0 :: r) = Some p' /\ line_at p' q' /\ (length q' <= length q)%nat.
Proof.
  induction q as [|x q IH]; intros Hq; cbn [app skip_blanks].
  - exists (0 :: r), []. done.
  - rewrite not_elem_of_cons in Hq. destruct Hq as [Hx Hq]. destruct (_ && _).
    + destruct (IH Hq) as (p' & q' & -> & ? & ?). exists p', q'. split; [done|]. split; [done|]. cbn. lia.
    + exists (x :: q ++ 0 :: r), (x :: q). split; [done|]. split; [|done]. split; [done|].
      by rewrite not_elem_of_cons.
Qed.

Lemma splitargs_loop_ok fuel : forall q vec,
  0 ∉ q -> zlen q < SDS_BOUND -> (length q < fuel)%nat -> Forall (fun s => exists c, holds s c) vec ->
  exists res, splitargs_loop fuel (q ++ 0 :: r) vec = Some res /\ forall toks, res = Some toks -> Forall (fun s => exists c, holds s c) toks.
Proof.
  induction fuel as [|fuel IH]; intros q vec Hq Hb Hf Hvec; [lia|]. cbn [splitargs_loop].
  destruct (skip_blanks_line q Hq) as (p1 & q1 & -> & Hp1 & Hl1). cbn [mbind option_bind].
  destruct (peek_line p1 q1 0 Hp1) as (x & -> & Hx); [lia|]. cbn [mbind option_bind].
  destruct (Z.eqb_spec x 0); [eexists; split; [done|]; by intros toks [= <-]|].
  destruct empty_spec as (s0 & -> & Hs0). cbn [mbind option_bind].
  destruct (token_loop_ok (S (length p1)) s0 [] p1 q1 false false) as (res & -> & Hres).
  { by exists 0. } { done. } { rewrite zlen_nil. unfold zlen in *. lia. }
  { destruct Hp1 as [-> _]. rewrite length_app. lia. }
  cbn [mbind option_bind]. destruct res as [[cur p2]|]; [|by eexists].
  destruct Hres as (Hcur & q2 & [-> Hq2] & [Hlt|[-> ->]]).
  - apply IH; [done|unfold zlen in *; lia|lia|]. apply Forall_app. split; [done|by constructor].
  - by destruct Hx as [_ Hx]; rewrite Hx in n.
Qed.

End Args.

(** ** Properties *)

(** sdssplitlen and sdsjoinsds are inverse: splitting a non-empty string
    on a separator stays inside its arrays and returns tokens that contain no
    occurrence of the separator, and joining them gives the string back. *)
Theorem sdssplitlen_join `{FreshMem} c r d r2 :
  c <> [] -> 1 <= zlen d -> zlen c < SDS_BOUND ->
  exists tokens cs s, sdssplitlen (c ++ r) (zlen c) (d ++ r2) (zlen d) = Some (Some tokens) /\
    Forall2 holds tokens cs /\ Forall (free_of d) cs /\
    sdsjoinsds tokens (d ++ r2) (zlen d) = Some s /\ holds s c.
Proof.
  intros Hc Hd Hb. destruct (splitlen_spec d r2 Hd c r Hc Hb) as (tokens & cs & E & Ht & Hf & Hi).
  destruct (joinsds_spec d r2 tokens cs Ht) as (s & Ej & Hs); [by rewrite Hi|].
  rewrite Hi in Hs. by exists tokens, cs, s.
Qed.

Lemma sdssplitlen_join_witness :
  exists tokens cs s,
    sdssplitlen (bytes_of_string "foo_-_bar") 9 (bytes_of_string "_-_") 3 = Some (Some tokens) /\
    Forall2 holds tokens cs /\ Forall (free_of (bytes_of_string "_-_")) cs /\
    sdsjoinsds tokens (bytes_of_string "_-_") 3 = Some s /\ holds s (bytes_of_string "foo_-_bar").
Proof.
  exact (sdssplitlen_join (bytes_of_string "foo_-_bar") [] (bytes_of_string "_-_") []
    ltac:(done) ltac:(done) ltac:(done)).
Defined.

(** sdssplitargs reads back what sdscatrepr writes: a line of quoted
    strings, of any bytes whatever, splits into exactly those strings. *)
Theorem sdssplitargs_quoted `{FreshMem} cs r :
  Forall (fun c => bytes_ok c /\ zlen c < SDS_BOUND) cs ->
  exists toks, sdssplitargs (intercalate [32] (quote <$> cs) ++ 0 :: r) = Some (Some toks) /\ Forall2 holds toks cs.
Proof.
  intros Hcs. unfold sdssplitargs. destruct cs as [|c cs]; [by exists []|].
  apply Forall_cons in Hcs as [[Hok Hb] Hcs].
  assert (intercalate [32] (quote <$> c :: cs) = quote c ++ spaced cs) as ->.
  { cbn [fmap list_fmap]. revert c Hok Hb. induction cs as [|c' cs IH]; intros c Hok Hb; [done|].
    apply Forall_cons in Hcs as [[Hok' Hb'] Hcs]. specialize (IH Hcs c' Hok' Hb').
    cbn [fmap list_fmap] in *. change (intercalate [32] (quote c :: quote c' :: (quote <$> cs)))
      with (quote c ++ [32] ++ intercalate [32] (quote c' :: (quote <$> cs))).
    rewrite IH. unfold spaced. cbn. lapp. }
  rewrite <- app_assoc. set (line := quote c ++ _).
  destruct (splitargs_quoted (length line) c (spaced cs ++ 0 :: r) [] Hok Hb (spaced_head cs r)) as (cur & E & Hc).
  change (quote c ++ spaced cs ++ 0 :: r) with line in E. rewrite E. change ([] ++ [cur]) with [cur].
  destruct (splitargs_spaced cs r (length line) [cur] Hcs) as (toks & -> & Ht); [|].
  { unfold line. rewrite !length_app. pose proof (spaced_length cs). cbn. lia. }
  exists (cur :: toks). split; [done|by constructor].
Qed.

Lemma sdssplitargs_quoted_witness :
  exists toks, sdssplitargs (intercalate [32] (quote <$> [[97; 0; 34]; []]) ++ [0]) = Some (Some toks) /\
    Forall2 holds toks [[97; 0; 34]; []].
Proof.
  destruct (sdssplitargs_quoted [[97; 0; 34]; []] []) as (toks & E & Ht).
  - repeat constructor; vm_compute; congruence.
  - by exists toks.
Defined.

(** sdscatrepr appends the quoted form of any byte string. *)
Theorem sdscatrepr_quotes `{FreshMem} s c p r :
  holds s c -> zlen c + zlen (escape p) + 6 < SDS_BOUND ->
  exists s', sdscatrepr s (p ++ r) (zlen p) = Some s' /\ holds s' (c ++ quote p).
Proof. apply catrepr_spec. Qed.

Lemma sdscatrepr_quotes_witness :
  exists s', sdscatrepr demo_str [10; 200] 2 = Some s' /\
    holds s' (bytes_of_string "abc" ++ [34; 92; 110; 92; 120; 99; 56; 34]).
Proof.
  refine (sdscatrepr_quotes demo_str (bytes_of_string "abc") [10; 200] [] _ ltac:(done)).
  exists 0. apply demo_str_repr.
Defined.

(** C37. sdssplitargs handles every line: it never reads past the terminator,
    always ends, and returns either the arguments or NULL. *)
Theorem sdssplitargs_total `{FreshMem} line r :
  0 ∉ line -> zlen line < SDS_BOUND -> exists res, sdssplitargs (line ++ 0 :: r) = Some res.
Proof.
  intros Hl Hb. unfold sdssplitargs. destruct (splitargs_loop_ok r (S (length (line ++ 0 :: r))) line []) as (res & E & _); [done|done|rewrite length_app; lia|constructor|]. by exists res.
Qed.

Lemma sdssplitargs_total_witness : exists res, sdssplitargs (bytes_of_string "set 'a b" ++ [0]) = Some res.
Proof.
  refine (sdssplitargs_total (bytes_of_string "set 'a b") [] _ ltac:(done)).
  cbn. rewrite !not_elem_of_cons. by repeat split; try apply not_elem_of_nil.
Defined.
