(* ===== verification/Dict.v ===== *)
(** * Hash tables with incremental rehashing (dict.c, dict.h)

    A chain of entries is the list of its keys and values, the head first; a
    table is its array of chains, [None] for a NULL pointer.  The hash function
    of the dict type is a parameter; keys are compared with their equality, as
    a dict type without keyCompare or with one that decides it does.  The
    duplication and destruction callbacks manage memory only and are not
    modelled.  [None] as a result is an access outside a table, through a NULL
    table or a failed assert(). *)

From stdpp Require Import base list numbers option gmap sets.
From Stdlib Require Import ZArith Lia.
From S2P Require Import Prelude.

(** The dict type: a 64 bit hash of every key. *)
Class DictType (K : Type) := {
  dictHashKey : K -> Z;
  hash_range : forall k, in_u 64 (dictHashKey k)
}.

Record dictht (K V : Type) := mk_ht {
  table : option (list (list (K * V))); size : Z; sizemask : Z; used : Z
}.
Arguments mk_ht {K V}. Arguments table {K V}. Arguments size {K V}.
Arguments sizemask {K V}. Arguments used {K V}.

Record dict (K V : Type) := mk_dict {
  ht0 : dictht K V; ht1 : dictht K V; rehashidx : Z; iterators : Z
}.
Arguments mk_dict {K V}. Arguments ht0 {K V}. Arguments ht1 {K V}.
Arguments rehashidx {K V}. Arguments iterators {K V}.

Definition DICT_HT_INITIAL_SIZE : Z := 4.
Definition LONG_MAX : Z := 9223372036854775807.
Definition dict_force_resize_ratio : Z := 5.

Section Ops.
Context {K V : Type} `{EqDecision K} `{DictType K}.
Implicit Types (d : dict K V) (ht : dictht K V) (c : list (K * V)).

Definition dictIsRehashing d : bool := negb (rehashidx d =? -1).
Definition dictSize d : Z := used (ht0 d) + used (ht1 d).

Definition dictReset : dictht K V := mk_ht None 0 0 0.
Definition dictInit : dict K V := mk_dict dictReset dictReset (-1) 0.
Definition dictCreate : dict K V := dictInit.

(** [ht->table[i]], and the store of a chain there. *)
Definition bucket ht (i : Z) : option (list (K * V)) := t ← table ht; t.[i].
Definition set_bucket ht (i : Z) c : option (dictht K V) :=
  t ← table ht; _ ← t.[i];
  Some (mk_ht (Some (<[Z.to_nat i := c]> t)) (size ht) (sizemask ht) (used ht)).
Definition set_used ht (n : Z) : dictht K V := mk_ht (table ht) (size ht) (sizemask ht) n.
Definition set_ht0 ht d : dict K V := mk_dict ht (ht1 d) (rehashidx d) (iterators d).
Definition set_ht1 ht d : dict K V := mk_dict (ht0 d) ht (rehashidx d) (iterators d).
Definition set_rehashidx (i : Z) d : dict K V := mk_dict (ht0 d) (ht1 d) i (iterators d).

Fixpoint nextpower_loop (fuel : nat) (i size : Z) : option Z :=
  match fuel with
  | O => None
  | S fuel => if size <=? i then Some i else nextpower_loop fuel (u64 (i * 2)) size
  end.

Definition dictNextPower (size : Z) : option Z :=
  if LONG_MAX <=? size then Some (LONG_MAX + 1) else nextpower_loop 64 DICT_HT_INITIAL_SIZE size.

(** The boolean is DICT_OK. *)
Definition dictExpand d (sz : Z) : option (dict K V * bool) :=
  if dictIsRehashing d || (sz <? used (ht0 d)) then Some (d, false) else
  realsize ← dictNextPower sz;
  if realsize =? size (ht0 d) then Some (d, false) else
  let n := mk_ht (Some (replicate (Z.to_nat realsize) [])) realsize (realsize - 1) 0 in
  match table (ht0 d) with
  | None => Some (set_ht0 n d, true)
  | Some _ => Some (set_rehashidx 0 (set_ht1 n d), true)
  end.

Definition dictResize (dict_can_resize : bool) d : option (dict K V * bool) :=
  if negb dict_can_resize || dictIsRehashing d then Some (d, false) else
  let minimal := used (ht0 d) in
  let minimal := if minimal <? DICT_HT_INITIAL_SIZE then DICT_HT_INITIAL_SIZE else minimal in
  dictExpand d minimal.

(** The loop of dictRehash over empty buckets; [true] when it gives up. *)
Fixpoint skip_empty (fuel : nat) d (empty_visits : Z) : option (dict K V * Z * bool) :=
  match fuel with
  | O => None
  | S fuel =>
      c ← bucket (ht0 d) (rehashidx d);
      match c with
      | [] =>
          let d := set_rehashidx (rehashidx d + 1) d in
          let empty_visits := empty_visits - 1 in
          if empty_visits =? 0 then Some (d, empty_visits, true) else skip_empty fuel d empty_visits
      | _ => Some (d, empty_visits, false)
      end
  end.

(** The loop of dictRehash that moves a chain to the new table. *)
Fixpoint move_chain c d : option (dict K V) :=
  match c with
  | [] => Some d
  | de :: nextde =>
      let h := Z.land (dictHashKey de.1) (sizemask (ht1 d)) in
      b ← bucket (ht1 d) h;
      ht1' ← set_bucket (ht1 d) h (de :: b);
      let d := set_ht0 (set_used (ht0 d) (u64 (used (ht0 d) - 1))) d in
      let d := set_ht1 (set_used ht1' (u64 (used ht1' + 1))) d in
      move_chain nextde d
  end.

(** The [while(n-- && ...)] loop; [true] when it returns early. *)
Fixpoint rehash_loop (n : nat) d (empty_visits : Z) : option (dict K V * bool) :=
  match n with
  | O => Some (d, false)
  | S n =>
      if used (ht0 d) =? 0 then Some (d, false) else
      if size (ht0 d) <=? u64 (rehashidx d) then None else          (* assert *)
      '(d, empty_visits, stop) ← skip_empty (S (Z.to_nat (size (ht0 d)))) d empty_visits;
      if (stop : bool) then Some (d, true) else
      c ← bucket (ht0 d) (rehashidx d);
      d ← move_chain c d;
      ht0' ← set_bucket (ht0 d) (rehashidx d) [];
      rehash_loop n (set_rehashidx (rehashidx d + 1) (set_ht0 ht0' d)) empty_visits
  end.

(** The result is 1 ([true]) while keys remain to be moved. *)
Definition dictRehash d (n : nat) : option (dict K V * bool) :=
  let empty_visits := i32 (Z.of_nat n * 10) in
  if negb (dictIsRehashing d) then Some (d, false) else
  '(d, stop) ← rehash_loop n d empty_visits;
  if (stop : bool) then Some (d, true)
  else if used (ht0 d) =? 0 then
    Some (set_rehashidx (-1) (set_ht1 dictReset (set_ht0 (ht1 d) d)), false)
  else Some (d, true).

Definition dictRehashStep d : option (dict K V) :=
  if iterators d =? 0 then '(d, _) ← dictRehash d 1; Some d else Some d.

(** [if (dictIsRehashing(d)) _dictRehashStep(d);] *)
Definition step_if_rehashing d : option (dict K V) :=
  if dictIsRehashing d then dictRehashStep d else Some d.

Definition dictExpandIfNeeded (dict_can_resize : bool) d : option (dict K V * bool) :=
  if dictIsRehashing d then Some (d, true)
  else if size (ht0 d) =? 0 then dictExpand d DICT_HT_INITIAL_SIZE
  else if (size (ht0 d) <=? used (ht0 d)) &&
          (dict_can_resize || (dict_force_resize_ratio <? used (ht0 d) / size (ht0 d)))
  then dictExpand d (u64 (used (ht0 d) * 2))
  else Some (d, true).

(** The search of a chain for a key. *)
Fixpoint chain_find (key : K) c : option (K * V) :=
  match c with
  | [] => None
  | he :: c => if bool_decide (key = he.1) then Some he else chain_find key c
  end.

(** What _dictKeyIndex answers: the slot of the new entry, or -1 with the
    existing entry if there is one. *)
Inductive key_index := Slot (idx : Z) | Exists (he : K * V) | NoRoom.

Definition dictKeyIndex (dict_can_resize : bool) d (key : K) (hash : Z) : option (dict K V * key_index) :=
  '(d, ok) ← dictExpandIfNeeded dict_can_resize d;
  if negb ok then Some (d, NoRoom) else
  let idx := Z.land hash (sizemask (ht0 d)) in
  c ← bucket (ht0 d) idx;
  match chain_find key c with
  | Some he => Some (d, Exists he)
  | None =>
      if negb (dictIsRehashing d) then Some (d, Slot idx) else
      let idx := Z.land hash (sizemask (ht1 d)) in
      c ← bucket (ht1 d) idx;
      match chain_find key c with
      | Some he => Some (d, Exists he)
      | None => Some (d, Slot idx)
      end
  end.

(** Insert the entry on top of the chain of slot [idx]; the value is set by the
    caller right after. *)
Definition add_entry d (idx : Z) (entry : K * V) : option (dict K V) :=
  if dictIsRehashing d then
    b ← bucket (ht1 d) idx;
    ht ← set_bucket (ht1 d) idx (entry :: b);
    Some (set_ht1 (set_used ht (u64 (used ht + 1))) d)
  else
    b ← bucket (ht0 d) idx;
    ht ← set_bucket (ht0 d) idx (entry :: b);
    Some (set_ht0 (set_used ht (u64 (used ht + 1))) d).

(** dictAddRaw followed by dictSetVal of [val] on the new entry. *)
Definition dictAddRaw (dict_can_resize : bool) d (key : K) (val : V) : option (dict K V * key_index) :=
  d ← step_if_rehashing d;
  '(d, r) ← dictKeyIndex dict_can_resize d key (dictHashKey key);
  match r with
  | Slot idx => d ← add_entry d idx (key, val); Some (d, r)
  | _ => Some (d, r)
  end.

Definition dictAdd (dict_can_resize : bool) d (key : K) (val : V) : option (dict K V * bool) :=
  '(d, r) ← dictAddRaw dict_can_resize d key val;
  Some (d, match r with Slot _ => true | _ => false end).

(** [dictSetVal(d, existing, val)] on the entry of [key] in a chain. *)
Fixpoint chain_set (key : K) (val : V) c : list (K * V) :=
  match c with
  | [] => []
  | he :: c => if bool_decide (key = he.1) then (he.1, val) :: c else he :: chain_set key val c
  end.

(** The store through the [existing] pointer: it points into the chain of the
    key in the first table that has it. *)
Definition set_existing d (key : K) (val : V) : option (dict K V) :=
  let h := dictHashKey key in
  let idx := Z.land h (sizemask (ht0 d)) in
  c ← bucket (ht0 d) idx;
  match chain_find key c with
  | Some _ => ht ← set_bucket (ht0 d) idx (chain_set key val c); Some (set_ht0 ht d)
  | None =>
      let idx := Z.land h (sizemask (ht1 d)) in
      c ← bucket (ht1 d) idx;
      ht ← set_bucket (ht1 d) idx (chain_set key val c); Some (set_ht1 ht d)
  end.

(** A NULL [existing] is dereferenced. *)
Definition dictReplace (dict_can_resize : bool) d (key : K) (val : V) : option (dict K V * bool) :=
  '(d, r) ← dictAddRaw dict_can_resize d key val;
  match r with
  | Slot _ => Some (d, true)
  | Exists _ => d ← set_existing d key val; Some (d, false)
  | NoRoom => None
  end.

(** Unlink the entry of [key] from a chain. *)
Fixpoint chain_delete (key : K) c : list (K * V) :=
  match c with
  | [] => []
  | he :: c => if bool_decide (key = he.1) then c else he :: chain_delete key c
  end.

Definition dictGenericDelete d (key : K) : option (dict K V * option (K * V)) :=
  if (used (ht0 d) =? 0) && (used (ht1 d) =? 0) then Some (d, None) else
  d ← step_if_rehashing d;
  let h := dictHashKey key in
  let idx := Z.land h (sizemask (ht0 d)) in
  c ← bucket (ht0 d) idx;
  match chain_find key c with
  | Some he =>
      ht ← set_bucket (ht0 d) idx (chain_delete key c);
      Some (set_ht0 (set_used ht (u64 (used ht - 1))) d, Some he)
  | None =>
      if negb (dictIsRehashing d) then Some (d, None) else
      let idx := Z.land h (sizemask (ht1 d)) in
      c ← bucket (ht1 d) idx;
      match chain_find key c with
      | Some he =>
          ht ← set_bucket (ht1 d) idx (chain_delete key c);
          Some (set_ht1 (set_used ht (u64 (used ht - 1))) d, Some he)
      | None => Some (d, None)
      end
  end.

Definition dictDelete d (key : K) : option (dict K V * bool) :=
  '(d, he) ← dictGenericDelete d key;
  Some (d, match he with Some _ => true | None => false end).

Definition dictUnlink d (key : K) : option (dict K V * option (K * V)) := dictGenericDelete d key.

Definition dictFind d (key : K) : option (dict K V * option (K * V)) :=
  if dictSize d =? 0 then Some (d, None) else
  d ← step_if_rehashing d;
  let h := dictHashKey key in
  c ← bucket (ht0 d) (Z.land h (sizemask (ht0 d)));
  match chain_find key c with
  | Some he => Some (d, Some he)
  | None =>
      if negb (dictIsRehashing d) then Some (d, None) else
      c ← bucket (ht1 d) (Z.land h (sizemask (ht1 d)));
      Some (d, chain_find key c)
  end.

Definition dictFetchValue d (key : K) : option (dict K V * option V) :=
  '(d, he) ← dictFind d key;
  Some (d, match he with Some e => Some e.2 | None => None end).

(** The loop of _dictClear: every entry is released; the callback is not
    modelled. *)
Fixpoint clear_loop (n : nat) ht (i : Z) : option (dictht K V) :=
  match n with
  | O => Some ht
  | S n =>
      if (i <? size ht) && (0 <? used ht) then
        c ← bucket ht i;
        clear_loop n (set_used ht (u64 (used ht - zlen c))) (i + 1)
      else Some ht
  end.

Definition dictClear ht : option (dictht K V) :=
  _ ← clear_loop (S (Z.to_nat (size ht))) ht 0; Some dictReset.

Definition dictEmpty d : option (dict K V) :=
  h0 ← dictClear (ht0 d);
  h1 ← dictClear (ht1 d);
  Some (mk_dict h0 h1 (-1) 0).

(** ** Invariant *)

Definition entries_ht ht : list (K * V) := match table ht with Some t => concat t | None => [] end.
Definition entries d : list (K * V) := entries_ht (ht0 d) ++ entries_ht (ht1 d).

(** An allocated table: its size is a power of two, the counter is right and
    every entry is in the bucket of its hash. *)
Record ht_live ht (t : list (list (K * V))) : Prop := {
  live_table : table ht = Some t;
  live_size : exists k, 2 <= k <= 62 /\ size ht = 2 ^ k;
  live_mask : sizemask ht = size ht - 1;
  live_len : zlen t = size ht;
  live_used : used ht = zlen (concat t);
  live_max : zlen (concat t) < 2 ^ 60;
  live_placed : forall i c e, t !! i = Some c -> e ∈ c ->
    Z.land (dictHashKey e.1) (sizemask ht) = Z.of_nat i
}.

(** The state between calls: at most one table, or two tables of which the
    first is empty below the rehash index. *)
Inductive phase d : Prop :=
  | Empty : rehashidx d = -1 -> ht0 d = dictReset -> ht1 d = dictReset -> phase d
  | Stable t : rehashidx d = -1 -> ht_live (ht0 d) t -> ht1 d = dictReset -> phase d
  | Rehashing t0 t1 :
      0 <= rehashidx d <= size (ht0 d) -> ht_live (ht0 d) t0 -> ht_live (ht1 d) t1 ->
      size (ht0 d) <> size (ht1 d) ->
      (forall i, Z.of_nat i < rehashidx d -> t0 !! i = Some []) -> phase d.

Record dict_wf d : Prop := {
  wf_phase : phase d;
  wf_nodup : NoDup (entries d).*1
}.

(** ** Tables *)

Lemma entries_live ht t : ht_live ht t -> entries_ht ht = concat t.
Proof. intros Hl. unfold entries_ht. by rewrite (live_table _ _ Hl). Qed.

Lemma size_pos ht t : ht_live ht t -> 4 <= size ht <= 2 ^ 62.
Proof.
  intros Hl. destruct (live_size _ _ Hl) as (k & Hk & ->). split.
  - change 4 with (2 ^ 2). apply Z.pow_le_mono_r; lia.
  - apply Z.pow_le_mono_r; lia.
Qed.

Lemma mask_range ht t h : ht_live ht t -> 0 <= Z.land h (sizemask ht) < size ht.
Proof.
  intros Hl. rewrite (live_mask _ _ Hl). destruct (live_size _ _ Hl) as (k & Hk & ->).
  replace (2 ^ k - 1) with (Z.ones k) by (rewrite Z.ones_equiv; lia).
  rewrite Z.land_ones by lia. apply Z.mod_pos_bound. lia.
Qed.

Lemma bucket_live ht t i : ht_live ht t -> 0 <= i < size ht ->
  exists c, bucket ht i = Some c /\ t !! Z.to_nat i = Some c.
Proof.
  intros Hl Hi. unfold bucket. rewrite (live_table _ _ Hl). cbn.
  rewrite znth_nat by lia. destruct (lookup_lt_is_Some_2 t (Z.to_nat i)) as [c Hc].
  - pose proof (live_len _ _ Hl). unfold zlen in *. lia.
  - by exists c.
Qed.

Lemma split_at {A} (l : list A) i x : l !! i = Some x ->
  exists l1 l2, l = l1 ++ x :: l2 /\ length l1 = i /\ forall y, <[i := y]> l = l1 ++ y :: l2.
Proof.
  intros Hx. exists (take i l), (drop (S i) l). split; [by rewrite take_drop_middle|].
  apply lookup_lt_Some in Hx as Hlt. split; [rewrite length_take; lia|].
  intros y. by apply insert_take_drop.
Qed.

(** Replacing a chain: the rest of the entries is not touched. *)
Lemma concat_insert (t : list (list (K * V))) i c : t !! i = Some c ->
  exists rest, concat t ≡ₚ c ++ rest /\ forall c', concat (<[i := c']> t) ≡ₚ c' ++ rest.
Proof.
  intros Hc. destruct (split_at t i c Hc) as (l1 & l2 & -> & _ & Hi).
  exists (concat l1 ++ concat l2). split.
  - rewrite concat_app. cbn. apply Permutation_app_swap_app.
  - intros c'. rewrite Hi, concat_app. cbn. apply Permutation_app_swap_app.
Qed.

Lemma elem_of_concat {A} (t : list (list A)) x : x ∈ concat t <-> exists l : list A, x ∈ l /\ l ∈ t.
Proof.
  induction t as [|c t IH]; cbn.
  - split; [by intros ?%elem_of_nil|by intros (c & _ & ?%elem_of_nil)].
  - rewrite elem_of_app, IH. setoid_rewrite elem_of_cons. naive_solver.
Qed.

Lemma zlen_perm {A} (l k : list A) : l ≡ₚ k -> zlen l = zlen k.
Proof. intros E. unfold zlen. by rewrite E. Qed.

(** Store a chain of entries of the right bucket, with the matching counter. *)
Lemma set_live ht t i c c' :
  ht_live ht t -> 0 <= i < size ht -> t !! Z.to_nat i = Some c ->
  (forall e, e ∈ c' -> Z.land (dictHashKey e.1) (sizemask ht) = i) ->
  used ht - zlen c + zlen c' < 2 ^ 60 ->
  exists ht' rest, set_bucket ht i c' = Some ht' /\ used ht' = used ht /\
    size ht' = size ht /\ sizemask ht' = sizemask ht /\
    ht_live (set_used ht' (used ht - zlen c + zlen c')) (<[Z.to_nat i := c']> t) /\
    entries_ht ht ≡ₚ c ++ rest /\
    (forall n, entries_ht (set_used ht' n) ≡ₚ c' ++ rest).
Proof.
  intros Hl Hi Hc Hp Hmax. destruct (concat_insert t _ c Hc) as (rest & Hr & Hr').
  eexists _, rest. unfold set_bucket. rewrite (live_table _ _ Hl). cbn [mbind option_bind].
  rewrite znth_nat, Hc by lia. cbn [mbind option_bind]. split; [done|]. split_and!; [done..| | |].
  - pose proof (zlen_perm _ _ Hr) as E1. pose proof (zlen_perm _ _ (Hr' c')) as E2.
    rewrite zlen_app in *. pose proof (live_used _ _ Hl).
    split; cbn; [done|apply Hl|apply Hl| |lia|lia|].
    + unfold zlen. rewrite length_insert. apply Hl.
    + intros j cj e Hj He. destruct (decide (j = Z.to_nat i)) as [->|Hne].
      * rewrite list_lookup_insert_eq in Hj by (by eapply lookup_lt_Some).
        injection Hj as <-. rewrite Hp by done. lia.
      * rewrite list_lookup_insert_ne in Hj by done. by eapply (live_placed _ _ Hl).
  - by rewrite (entries_live _ _ Hl).
  - intros n. apply Hr'.
Qed.

(** ** Sizes *)


Lemma nextpower_loop_spec fuel : forall k sz,
  2 <= k -> k + Z.of_nat fuel > 62 -> sz <= 2 ^ 62 -> k <= 62 -> (k = 2 \/ 2 ^ (k - 1) < sz) ->
  exists j, nextpower_loop fuel (2 ^ k) sz = Some (2 ^ j) /\ 2 <= j <= 62 /\ sz <= 2 ^ j /\
    (j = 2 \/ 2 ^ (j - 1) < sz).
Proof.
  induction fuel as [|fuel IH]; intros k sz Hk Hf Hsz Hmax Hlow; [lia|]. cbn [nextpower_loop].
  destruct (Z.leb_spec sz (2 ^ k)); [by exists k|].
  assert (k < 62).
  { destruct (Z.eq_dec k 62) as [->|]; lia. }
  assert (2 ^ k * 2 = 2 ^ (k + 1)) as E by (rewrite Z.pow_add_r by lia; lia).
  assert (0 < 2 ^ (k + 1) <= 2 ^ 62) by (split; [lia|apply Z.pow_le_mono_r; lia]).
  rewrite E, u64_id by (change (2 ^ 62) with 4611686018427387904 in *; lia).
  apply IH; [lia|lia|done|lia|]. right. by replace (k + 1 - 1) with k by lia.
Qed.

(** The smallest power of two, 4 or more, that is not below the size. *)
Lemma nextpower_spec sz : sz <= 2 ^ 62 ->
  exists j, dictNextPower sz = Some (2 ^ j) /\ 2 <= j <= 62 /\ sz <= 2 ^ j /\ (j = 2 \/ 2 ^ (j - 1) < sz).
Proof.
  intros Hsz. unfold dictNextPower, LONG_MAX. change (2 ^ 62) with 4611686018427387904 in *. zbool.
  apply (nextpower_loop_spec 64 2); [lia|lia|exact Hsz|lia|by left].
Qed.

Lemma fresh_live j : 2 <= j <= 62 ->
  ht_live (mk_ht (Some (replicate (Z.to_nat (2 ^ j)) [])) (2 ^ j) (2 ^ j - 1) 0)
    (replicate (Z.to_nat (2 ^ j)) []).
Proof.
  intros Hj. assert (forall n, concat (replicate n (@nil (K * V))) = []) as Ec by (intros n; by induction n).
  split; cbn; [done|by exists j|done| |by rewrite Ec|by rewrite Ec|].
  - rewrite zlen_replicate. lia.
  - intros i c e Hi He. apply lookup_replicate in Hi as [-> _]. by apply elem_of_nil in He.
Qed.

Lemma entries_fresh n sz m u : entries_ht (mk_ht (Some (replicate n [])) sz m u) = [].
Proof. unfold entries_ht. cbn. by induction n. Qed.

Lemma phase_live0 d : phase d -> ht0 d <> dictReset -> exists t, ht_live (ht0 d) t.
Proof. intros [ | |]; eauto; done. Qed.

Lemma rehashing_false d : dictIsRehashing d = false <-> rehashidx d = -1.
Proof. unfold dictIsRehashing. rewrite negb_false_iff. apply Z.eqb_eq. Qed.

(** dictExpand starts a table or a rehash and keeps the entries. *)
Lemma expand_spec d sz :
  dict_wf d -> sz <= 2 ^ 62 ->
  exists d' b, dictExpand d sz = Some (d', b) /\ dict_wf d' /\ entries d' = entries d /\
    iterators d' = iterators d /\ (b = false -> d' = d) /\
    (b = true -> ht0 d' <> dictReset) /\
    (rehashidx d = -1 -> used (ht0 d) <= sz -> size (ht0 d) < sz -> b = true).
Proof.
  intros [Hp Hn] Hsz. unfold dictExpand.
  destruct (dictIsRehashing d) eqn:Er; cbn [orb].
  { exists d, false. split_and!; try done. intros E. apply rehashing_false in E. congruence. }
  destruct (Z.ltb_spec sz (used (ht0 d))).
  { exists d, false. split_and!; try done. lia. }
  destruct (nextpower_spec sz Hsz) as (j & -> & Hj & Hle & _). cbn [mbind option_bind].
  destruct (Z.eqb_spec (2 ^ j) (size (ht0 d))).
  { exists d, false. split_and!; try done. lia. }
  apply rehashing_false in Er. pose proof (fresh_live j Hj) as Hfresh.
  set (nt := mk_ht _ _ _ _) in *. assert (entries_ht nt = []) as En by apply entries_fresh.
  destruct Hp as [_ Hz0 Hz1|t _ Hl Hz1|t0 t1 Hi]; [| |lia].
  - rewrite Hz0. eexists _, true. split; [done|].
    assert (entries (set_ht0 nt d) = entries d) as Ee by (unfold entries; cbn [ht0 ht1 set_ht0]; by rewrite En, Hz0).
    split_and!; [|done|done|done|done|done]. split; [|by rewrite Ee].
    by eapply (Stable _ (replicate (Z.to_nat (2 ^ j)) [])).
  - rewrite (live_table _ _ Hl). eexists _, true. split; [done|].
    assert (entries (set_rehashidx 0 (set_ht1 nt d)) = entries d) as Ee
      by (unfold entries; cbn [ht0 ht1 set_ht1 set_rehashidx]; by rewrite En, Hz1).
    split_and!; [|done|done|done| |done].
    + split; [|by rewrite Ee]. eapply (Rehashing _ t (replicate (Z.to_nat (2 ^ j)) [])); cbn;
        [pose proof (size_pos _ _ Hl); lia|done|done|by apply not_eq_sym|lia].
    + intros _. cbn. intros E. pose proof (live_table _ _ Hl) as Et. by rewrite E in Et.
Qed.

(** ** Rehashing *)

(** Add an entry on top of its chain. *)
Lemma push_live ht t (e : K * V) :
  ht_live ht t -> used ht + 1 < 2 ^ 60 ->
  exists b ht' t', bucket ht (Z.land (dictHashKey e.1) (sizemask ht)) = Some b /\
    set_bucket ht (Z.land (dictHashKey e.1) (sizemask ht)) (e :: b) = Some ht' /\
    used ht' = used ht /\ size ht' = size ht /\ sizemask ht' = sizemask ht /\
    ht_live (set_used ht' (used ht + 1)) t' /\
    (forall n, entries_ht (set_used ht' n) ≡ₚ e :: entries_ht ht).
Proof.
  intros Hl Hu. set (i := Z.land _ _).
  assert (0 <= i < size ht) as Hi by (by eapply mask_range).
  destruct (bucket_live ht t i Hl Hi) as (b & Eb & Hb).
  destruct (set_live ht t i b (e :: b) Hl Hi Hb) as (ht' & rest & Es & Eu & Ez & Em & Hl' & Hr & Hr').
  - intros x [->|Hx]%elem_of_cons; [done|]. rewrite (live_placed _ _ Hl _ _ x Hb Hx). lia.
  - rewrite zlen_cons. lia.
  - exists b, ht', (<[Z.to_nat i := e :: b]> t). rewrite zlen_cons in Hl'.
    replace (used ht - zlen b + (1 + zlen b)) with (used ht + 1) in Hl' by lia.
    split_and!; try done. intros n. by rewrite Hr', Hr.
Qed.

Lemma move_chain_spec c : forall d t1,
  ht_live (ht1 d) t1 -> zlen c <= used (ht0 d) -> used (ht0 d) < 2 ^ 60 ->
  used (ht1 d) + zlen c < 2 ^ 60 ->
  exists h1 t1', move_chain c d = Some (set_ht1 h1 (set_ht0 (set_used (ht0 d) (used (ht0 d) - zlen c)) d)) /\
    ht_live h1 t1' /\ size h1 = size (ht1 d) /\ used h1 = used (ht1 d) + zlen c /\
    entries_ht h1 ≡ₚ c ++ entries_ht (ht1 d).
Proof.
  induction c as [|e c IH]; intros d t1 Hl Hc H60 Hu.
  { exists (ht1 d), t1. rewrite zlen_nil, Z.sub_0_r, Z.add_0_r. split_and!; try done.
    cbn. by destruct d as [[] ? ? ?]. }
  cbn [move_chain]. rewrite zlen_cons in *. pose proof (zlen_nonneg c). pose proof (live_used _ _ Hl) as Hlu.
  pose proof (zlen_nonneg (concat t1)). change (2 ^ 60) with 1152921504606846976 in *.
  destruct (push_live (ht1 d) t1 e Hl) as (b & ht' & t' & -> & Es & Eu & Ez & Em & Hl' & Hr).
  { change (2 ^ 60) with 1152921504606846976. lia. }
  cbn [mbind option_bind]. rewrite Es. cbn [mbind option_bind]. rewrite Eu.
  rewrite !u64_id by lia.
  destruct (IH (set_ht1 (set_used ht' (used (ht1 d) + 1))
    (set_ht0 (set_used (ht0 d) (used (ht0 d) - 1)) d)) t') as (h1 & t1' & E & Hl1 & Ez1 & Eu1 & He);
    cbn [ht0 ht1 set_ht0 set_ht1 used set_used]; [done|lia|lia|lia|].
  exists h1, t1'. cbn [ht0 ht1 set_ht0 set_ht1 used set_used size] in *.
  split_and!; [|done|by rewrite Ez1|lia|].
  - rewrite E. unfold set_ht1, set_ht0, set_used. cbn. do 3 f_equal. lia.
  - rewrite He, Hr. symmetry. apply Permutation_middle.
Qed.

Lemma set_bucket_used ht n i c :
  set_bucket (set_used ht n) i c = (fun h => set_used h n) <$> set_bucket ht i c.
Proof. unfold set_bucket. cbn. destruct (table ht) as [t|]; [|done]. cbn. by destruct (t.[i]). Qed.

Lemma set_used_used ht n m : set_used (set_used ht n) m = set_used ht m.
Proof. done. Qed.

(** The states dictRehash runs through. *)
Record mid_rehash d (t0 t1 : list (list (K * V))) : Prop := {
  mid_idx : 0 <= rehashidx d <= size (ht0 d);
  mid_0 : ht_live (ht0 d) t0;
  mid_1 : ht_live (ht1 d) t1;
  mid_ne : size (ht0 d) <> size (ht1 d);
  mid_low : forall i, Z.of_nat i < rehashidx d -> t0 !! i = Some [];
  mid_max : used (ht0 d) + used (ht1 d) < 2 ^ 60
}.

Lemma empty_chains (t : list (list (K * V))) :
  (forall i c, t !! i = Some c -> c = []) -> concat t = [].
Proof.
  induction t as [|c t IH]; intros Ht; [done|]. cbn. rewrite (Ht 0%nat c eq_refl). cbn.
  apply IH. intros i c' Hi. by apply (Ht (S i)).
Qed.

(** A table with entries has a chain that is not empty at or after the index. *)
Lemma skip_empty_spec fuel : forall d t0 t1 ev,
  mid_rehash d t0 t1 -> used (ht0 d) <> 0 -> 0 < ev -> (Z.to_nat (size (ht0 d) - rehashidx d) < fuel)%nat ->
  exists j ev' stop, skip_empty fuel d ev = Some (set_rehashidx j d, ev', stop) /\
    mid_rehash (set_rehashidx j d) t0 t1 /\ rehashidx d <= j < size (ht0 d) /\
    (if (stop : bool) then rehashidx d < j
     else 0 < ev' /\ exists c, bucket (ht0 d) j = Some c /\ c <> []).
Proof.
  induction fuel as [|fuel IH]; intros d t0 t1 ev [Hi H0 H1 Hne Hlow Hmax] Hu Hev Hf; [lia|].
  pose proof (live_len _ _ H0) as Hlen.
  assert (rehashidx d < size (ht0 d)) as Hlt.
  { destruct (Z.lt_ge_cases (rehashidx d) (size (ht0 d))); [done|]. destruct Hu.
    rewrite (live_used _ _ H0), empty_chains; [done|]. intros i c Hc.
    pose proof (lookup_lt_Some _ _ _ Hc). rewrite Hlow in Hc by (unfold zlen in *; lia). congruence. }
  destruct (bucket_live _ _ (rehashidx d) H0) as (c & Eb & Hc); [lia|].
  cbn [skip_empty]. rewrite Eb. cbn [mbind option_bind]. destruct c as [|e c].
  2:{ exists (rehashidx d), ev, false. destruct d. cbn in *. split; [done|]. split; [by split|].
      split; [lia|]. split; [done|]. by exists (e :: c). }
  assert (mid_rehash (set_rehashidx (rehashidx d + 1) d) t0 t1) as Hmid.
  { split; cbn; [lia|done|done|done| |done]. intros i Hlt'.
    destruct (decide (Z.of_nat i = rehashidx d)) as [E|]; [|apply Hlow; lia].
    by rewrite <- E, Nat2Z.id in Hc. }
  assert (rehashidx d + 1 < size (ht0 d)) as Hlt1.
  { destruct (Z.lt_ge_cases (rehashidx d + 1) (size (ht0 d))); [done|]. destruct Hu.
    rewrite (live_used _ _ H0), empty_chains; [done|]. intros i c Hi'.
    pose proof (lookup_lt_Some _ _ _ Hi').
    rewrite (mid_low _ _ _ Hmid) in Hi' by (cbn; unfold zlen in *; lia). congruence. }
  destruct (Z.eqb_spec (ev - 1) 0).
  - exists (rehashidx d + 1), (ev - 1), true. split; [done|]. split; [done|]. lia.
  - destruct (IH _ _ _ (ev - 1) Hmid) as (j & ev' & stop & E & Hm & Hj & Hs); cbn; [done|lia|lia|].
    exists j, ev', stop. rewrite E. cbn in *. split; [done|]. split; [done|]. split; [lia|].
    destruct stop; [lia|done].
Qed.

(** One round of the loop: the chain moves to the new table. *)
Lemma move_round d t0 t1 c :
  mid_rehash d t0 t1 -> rehashidx d < size (ht0 d) -> bucket (ht0 d) (rehashidx d) = Some c ->
  exists d1 h0 t0' t1', move_chain c d = Some d1 /\ set_bucket (ht0 d1) (rehashidx d1) [] = Some h0 /\
    rehashidx d1 = rehashidx d /\ iterators d1 = iterators d /\ size h0 = size (ht0 d) /\
    mid_rehash (set_rehashidx (rehashidx d + 1) (set_ht0 h0 d1)) t0' t1' /\
    entries_ht h0 ++ entries_ht (ht1 d1) ≡ₚ entries d.
Proof.
  intros [Hi H0 H1 Hne Hlow Hmax] Hlt Eb.
  destruct (bucket_live _ _ (rehashidx d) H0) as (c' & Eb' & Hc); [lia|]. assert (c' = c) as -> by congruence.
  destruct (set_live (ht0 d) t0 (rehashidx d) c [] H0) as (h0 & rest & Es & Eu & Ez & Em & Hl0 & Hr & Hr').
  { lia. } { done. } { intros e He. by apply elem_of_nil in He. }
  { pose proof (zlen_nonneg c). pose proof (live_max _ _ H0). rewrite (live_used _ _ H0), zlen_nil. lia. }
  rewrite zlen_nil, Z.add_0_r in Hl0.
  pose proof (zlen_perm _ _ Hr) as Hzr. rewrite (entries_live _ _ H0), <- (live_used _ _ H0), zlen_app in Hzr.
  pose proof (zlen_nonneg rest). pose proof (zlen_nonneg (concat t1)). pose proof (live_used _ _ H1).
  destruct (move_chain_spec c d t1 H1) as (h1 & t1' & Emv & Hl1 & Ez1 & Eu1 & He1); [lia|lia|lia|].
  eexists _, (set_used h0 (used (ht0 d) - zlen c)), _, t1'. split; [done|].
  cbn [ht0 ht1 set_ht0 set_ht1 rehashidx iterators set_rehashidx]. rewrite set_bucket_used, Es.
  split; [done|]. split_and!; [done|done|by cbn|split|].
  - cbn [ht0 set_rehashidx set_ht0 rehashidx size set_used]. rewrite Ez. lia.
  - exact Hl0.
  - exact Hl1.
  - cbn. by rewrite Ez, Ez1.
  - cbn. intros i Hi'. destruct (decide (i = Z.to_nat (rehashidx d))) as [->|].
    + apply list_lookup_insert_eq. by eapply lookup_lt_Some.
    + rewrite list_lookup_insert_ne by done. apply Hlow. lia.
  - cbn. lia.
  - rewrite Hr'. unfold entries. rewrite Hr, He1. cbn.
    rewrite (Permutation_app_comm c rest), <- app_assoc. done.
Qed.

Lemma rehash_loop_spec n : forall d t0 t1 ev,
  mid_rehash d t0 t1 -> 0 < ev ->
  exists d' t0' t1' stop, rehash_loop n d ev = Some (d', stop) /\ mid_rehash d' t0' t1' /\
    entries d' ≡ₚ entries d /\ iterators d' = iterators d /\ size (ht0 d') = size (ht0 d) /\
    rehashidx d <= rehashidx d' /\
    (n <> 0%nat -> stop = true \/ used (ht0 d') <> 0 -> rehashidx d < rehashidx d').
Proof.
  induction n as [|n IH]; intros d t0 t1 ev Hm Hev; cbn [rehash_loop].
  { exists d, t0, t1, false. split_and!; done || lia. }
  destruct (Z.eqb_spec (used (ht0 d)) 0); [exists d, t0, t1, false; split_and!; done || naive_solver lia|].
  pose proof (mid_idx _ _ _ Hm). pose proof (size_pos _ _ (mid_0 _ _ _ Hm)).
  change (2 ^ 62) with 4611686018427387904 in *.
  destruct (skip_empty_spec (S (Z.to_nat (size (ht0 d)))) d t0 t1 ev Hm) as (j & ev' & stop & E & Hm' & Hj & Hs);
    [done|done|lia|].
  rewrite u64_id by lia. assert ((size (ht0 d) <=? rehashidx d) = false) as -> by lia.
  rewrite E. cbn [mbind option_bind]. destruct stop.
  { exists (set_rehashidx j d), t0, t1, true. split_and!; try done; cbn; lia. }
  destruct Hs as (Hev' & c & Eb & Hc). cbn [ht0 set_rehashidx rehashidx]. rewrite Eb. cbn [mbind option_bind].
  destruct (move_round (set_rehashidx j d) t0 t1 c Hm') as (d1 & h0 & t0' & t1' & -> & Es & Er & Ei & Ez & Hm1 & He);
    [cbn; lia|done|]. cbn [mbind option_bind]. rewrite Es. cbn [mbind option_bind].
  cbn [rehashidx set_rehashidx] in Er, Hm1. rewrite Er.
  destruct (IH _ _ _ ev' Hm1 Hev') as (d' & t0'' & t1'' & stop & Eq & Hmd & Hed & Hid & Hzd & Hrd & _).
  exists d', t0'', t1'', stop. split; [exact Eq|]. split; [done|]. cbn in *.
  split_and!; [by rewrite Hed, <- He|congruence|congruence|lia|lia].
Qed.

(** Conversions between the invariant and the rehashing states. *)
Lemma entries_length d t0 t1 : ht_live (ht0 d) t0 -> ht_live (ht1 d) t1 ->
  zlen (entries d) = used (ht0 d) + used (ht1 d).
Proof.
  intros H0 H1. unfold entries. rewrite zlen_app, (entries_live _ _ H0), (entries_live _ _ H1).
  by rewrite (live_used _ _ H0), (live_used _ _ H1).
Qed.

Lemma entries_stable d t : ht_live (ht0 d) t -> ht1 d = dictReset -> zlen (entries d) = used (ht0 d).
Proof.
  intros H0 H1. unfold entries. rewrite H1, zlen_app, (entries_live _ _ H0), (live_used _ _ H0).
  change (entries_ht dictReset) with (@nil (K * V)). rewrite zlen_nil. lia.
Qed.

Lemma mid_phase d t0 t1 : mid_rehash d t0 t1 -> phase d.
Proof. intros [? ? ? ? ? ?]. by eapply Rehashing. Qed.

(** dictRehash keeps the entries, makes progress and says whether it is done. *)
Lemma rehash_spec d n :
  dict_wf d -> (1 <= n)%nat -> Z.of_nat n < 2 ^ 24 -> zlen (entries d) < 2 ^ 60 ->
  exists d' b, dictRehash d n = Some (d', b) /\ dict_wf d' /\ entries d' ≡ₚ entries d /\
    iterators d' = iterators d /\ (ht0 d <> dictReset -> ht0 d' <> dictReset) /\
    (b = false <-> rehashidx d' = -1) /\
    (b = true -> size (ht0 d') = size (ht0 d) /\ rehashidx d < rehashidx d' <= size (ht0 d)).
Proof.
  intros [Hp Hn] H1n Hn24 Hmax. unfold dictRehash.
  destruct (dictIsRehashing d) eqn:Er; cbn [negb].
  2:{ apply rehashing_false in Er. exists d, false. split_and!; try done. }
  destruct Hp as [Hi|t Hi|t0 t1 Hi H0 H1 Hne Hlow]; [by rewrite (proj2 (rehashing_false d)) in Er..|].
  assert (mid_rehash d t0 t1) as Hm by (split; try done; by rewrite <- (entries_length _ _ _ H0 H1)).
  assert (i32 (Z.of_nat n * 10) = Z.of_nat n * 10) as ->.
  { apply i32_small. change (2 ^ 24) with 16777216 in *. lia. }
  destruct (rehash_loop_spec n d t0 t1 (Z.of_nat n * 10) Hm) as
    (d' & t0' & t1' & stop & -> & Hm' & He & Hit & Hz & Hr & Hprog); [lia|]. cbn [mbind option_bind].
  assert (dict_wf d') as Hwf by (split; [by eapply mid_phase|by rewrite He]).
  assert (forall h t, ht_live h t -> h <> dictReset) as Hlive.
  { intros h t Hl ->. by pose proof (live_table _ _ Hl). }
  pose proof (mid_idx _ _ _ Hm'). pose proof (mid_idx _ _ _ Hm).
  assert (stop = true \/ used (ht0 d') <> 0 -> size (ht0 d') = size (ht0 d) /\
    rehashidx d < rehashidx d' <= size (ht0 d)) as Hpr.
  { intros Hu. split; [done|]. split; [apply Hprog; [lia|done]|lia]. }
  assert (ht0 d' <> dictReset) by (eapply Hlive, Hm').
  destruct stop; [exists d', true; split_and!; try done; [|auto]; split; [done|lia]|].
  destruct (Z.eqb_spec (used (ht0 d')) 0) as [Hu|Hu].
  2:{ exists d', true. split_and!; try done; [|auto]. split; [done|lia]. }
  eexists _, false. split; [done|]. pose proof (mid_1 _ _ _ Hm') as Hl1.
  assert (entries_ht (ht0 d') = []) as E0.
  { apply zlen_0_nil. by rewrite (entries_live _ _ (mid_0 _ _ _ Hm')), <- (live_used _ _ (mid_0 _ _ _ Hm')). }
  assert (entries (set_rehashidx (-1) (set_ht1 dictReset (set_ht0 (ht1 d') d'))) ≡ₚ entries d) as Ee.
  { rewrite <- He. unfold entries. cbn [ht0 ht1 set_rehashidx set_ht1 set_ht0]. rewrite E0. by rewrite app_nil_r. }
  split_and!; [|done|done|intros _; by eapply Hlive|done|done].
  split; [by eapply Stable|by rewrite Ee].
Qed.

(** ** Lookup and update *)

(** The bound on the number of entries keeps the counters and the sizes far
    from their 64 bit limits. *)
Definition DICT_BOUND : Z := 2 ^ 60.

Lemma step_spec d :
  dict_wf d -> zlen (entries d) < DICT_BOUND ->
  exists d', step_if_rehashing d = Some d' /\ dict_wf d' /\ entries d' ≡ₚ entries d /\
    iterators d' = iterators d /\ (ht0 d <> dictReset -> ht0 d' <> dictReset).
Proof.
  intros Hwf Hb. unfold step_if_rehashing, dictRehashStep.
  destruct (dictIsRehashing d); [|by exists d]. destruct (iterators d =? 0) eqn:Ei; [|by exists d].
  destruct (rehash_spec d 1 Hwf) as (d' & b & -> & Hwf' & He & Hi & Hr & _); [done|done|done|].
  cbn. by exists d'.
Qed.

Lemma used_bound d : dict_wf d -> zlen (entries d) < DICT_BOUND -> 0 <= used (ht0 d) < DICT_BOUND.
Proof.
  intros [Hp _] Hb. pose proof (zlen_nonneg (entries d)).
  destruct Hp as [_ -> _|t _ Hl Hq1|t0 t1 _ Hq0 Hq1]; [done| |].
  - by rewrite <- (entries_stable d t Hl Hq1).
  - rewrite (entries_length d t0 t1 Hq0 Hq1) in Hb.
    rewrite (live_used _ _ Hq0), (live_used _ _ Hq1) in *.
    pose proof (zlen_nonneg (concat t0)). pose proof (zlen_nonneg (concat t1)). lia.
Qed.

Lemma needed_spec can d :
  dict_wf d -> zlen (entries d) < DICT_BOUND ->
  exists d', dictExpandIfNeeded can d = Some (d', true) /\ dict_wf d' /\ entries d' = entries d /\
    iterators d' = iterators d /\ ht0 d' <> dictReset.
Proof.
  intros Hwf Hb. pose proof (used_bound d Hwf Hb) as Hu. unfold dictExpandIfNeeded, DICT_BOUND in *.
  change (2 ^ 60) with 1152921504606846976 in *.
  assert (forall h t, ht_live h t -> h <> dictReset) as Hlive.
  { intros h t Hl ->. by pose proof (live_table _ _ Hl). }
  destruct (dictIsRehashing d) eqn:Er.
  { exists d. split_and!; try done. destruct (wf_phase d Hwf) as [Hi|t Hi Hl|t0 t1 _ Hl];
      [by rewrite (proj2 (rehashing_false d)) in Er|by eapply Hlive..]. }
  apply rehashing_false in Er.
  assert (forall sz, sz <= 2 ^ 62 -> used (ht0 d) <= sz -> size (ht0 d) < sz -> exists d',
    dictExpand d sz = Some (d', true) /\ dict_wf d' /\ entries d' = entries d /\ iterators d' = iterators d /\
    ht0 d' <> dictReset) as Hexp.
  { intros sz Hsz Hq1 Hq2. destruct (expand_spec d sz Hwf Hsz) as (d' & b & E & Hw & He & Hi & _ & Hn & Hb').
    assert (b = true) as -> by auto. exists d'. split_and!; auto. }
  destruct (wf_phase d Hwf) as [_ Hq0 Hq1|t _ Hl Hq1|t0 t1 Hi]; [| |lia].
  - rewrite Hq0. cbn [size dictReset Z.eqb]. apply Hexp; [done|by rewrite Hq0|by rewrite Hq0].
  - pose proof (size_pos _ _ Hl). assert ((size (ht0 d) =? 0) = false) as -> by lia.
    destruct (_ && _) eqn:Eb; [|exists d; split_and!; try done; by eapply Hlive].
    apply andb_true_iff in Eb as [Eb%Z.leb_le _].
    rewrite u64_id by lia. apply Hexp; [change (2 ^ 62) with 4611686018427387904; lia|lia|lia].
Qed.

Lemma chain_find_Some key c he : chain_find key c = Some he ->
  he ∈ c /\ he.1 = key /\ c ≡ₚ he :: chain_delete key c /\
  forall val, chain_set key val c ≡ₚ (key, val) :: chain_delete key c.
Proof.
  induction c as [|e c IH]; [done|]. cbn. case_bool_decide as Hk.
  - intros [= <-]. split_and!; [left|done|done|intros val; by rewrite Hk].
  - intros Hf. destruct (IH Hf) as (Hq1 & Hq2 & Hq3 & Hq4). split_and!; [by right|done| |].
    + rewrite Hq3 at 1. apply perm_swap.
    + intros val. rewrite Hq4. apply perm_swap.
Qed.

Lemma chain_find_None key c : chain_find key c = None -> key ∉ c.*1.
Proof.
  induction c as [|e c IH]; cbn; [intros _; apply not_elem_of_nil|]. case_bool_decide; [done|].
  intros Hf. apply not_elem_of_cons. auto.
Qed.

Lemma chain_delete_incl key c e : e ∈ chain_delete key c -> e ∈ c.
Proof.
  induction c as [|x c IH]; [done|]. cbn. case_bool_decide; [by right|].
  intros [->|Hin]%elem_of_cons; [left|right; auto].
Qed.

Lemma chain_set_hash key val c m i :
  (forall e, e ∈ c -> Z.land (dictHashKey e.1) m = i) ->
  forall e, e ∈ chain_set key val c -> Z.land (dictHashKey e.1) m = i.
Proof.
  intros Hc. induction c as [|x c IH]; intros e; [by intros ?%elem_of_nil|]. cbn.
  case_bool_decide; intros [->|Hin]%elem_of_cons.
  - apply (Hc x). left.
  - apply Hc. by right.
  - apply Hc. left.
  - apply IH; [|done]. intros e' He'. apply Hc. by right.
Qed.

(** The chain of a key in a table holds its entry if the table does. *)
Lemma find_live ht t key :
  ht_live ht t ->
  exists c, bucket ht (Z.land (dictHashKey key) (sizemask ht)) = Some c /\
    t !! Z.to_nat (Z.land (dictHashKey key) (sizemask ht)) = Some c /\
    (forall e, e ∈ c -> Z.land (dictHashKey e.1) (sizemask ht) = Z.land (dictHashKey key) (sizemask ht)) /\
    match chain_find key c with
    | Some he => he.1 = key /\ he ∈ entries_ht ht
    | None => key ∉ (entries_ht ht).*1
    end.
Proof.
  intros Hl. pose proof (mask_range ht t (dictHashKey key) Hl) as Hr. set (i := Z.land _ _) in *.
  destruct (bucket_live ht t i Hl Hr) as (c & Eb & Hc). exists c.
  assert (forall e, e ∈ c -> Z.land (dictHashKey e.1) (sizemask ht) = i) as Hp.
  { intros e He. rewrite (live_placed _ _ Hl _ _ e Hc He). lia. }
  split; [done|]. split; [done|]. split; [done|].
  rewrite (entries_live _ _ Hl). destruct (chain_find key c) as [he|] eqn:Ef.
  - destruct (chain_find_Some _ _ _ Ef) as (Hin & Hk & _). split; [done|].
    apply elem_of_concat. by exists c; eauto using list_elem_of_lookup_2.
  - intros (e & -> & He)%list_elem_of_fmap. apply elem_of_concat in He as (c' & Hin & Hc').
    apply list_elem_of_lookup_1 in Hc' as [j Hj].
    pose proof (live_placed _ _ Hl j c' e Hj Hin) as Hpj. unfold i in *.
    assert (c' = c) as -> by (rewrite Hpj, Nat2Z.id in Hc; congruence).
    apply chain_find_None in Ef. apply Ef. by apply list_elem_of_fmap_2.
Qed.

(** The tables of a dict that has one: a single table or two while rehashing. *)
Lemma wf_tables d : dict_wf d -> ht0 d <> dictReset ->
  exists t0, ht_live (ht0 d) t0 /\
    ((dictIsRehashing d = false /\ ht1 d = dictReset) \/
     (dictIsRehashing d = true /\ exists t1, ht_live (ht1 d) t1)).
Proof.
  intros [Hp _] Hne. destruct Hp as [Hi|t Hi Hl|t0 t1 Hi Hl0 Hl1]; [done| |].
  - exists t. split; [done|]. left. by rewrite rehashing_false.
  - exists t0. split; [done|]. right. split; [|by exists t1]. unfold dictIsRehashing.
    assert ((rehashidx d =? -1) = false) as -> by lia. done.
Qed.

Definition slot_of d key : Z :=
  Z.land (dictHashKey key) (sizemask (if dictIsRehashing d then ht1 d else ht0 d)).

Lemma keyindex_spec can d key :
  dict_wf d -> zlen (entries d) < DICT_BOUND ->
  exists d' r, dictKeyIndex can d key (dictHashKey key) = Some (d', r) /\ dict_wf d' /\
    entries d' = entries d /\ iterators d' = iterators d /\ ht0 d' <> dictReset /\
    match r with
    | Slot idx => (key ∉ (entries d).*1) /\ idx = slot_of d' key
    | Exists he => he ∈ entries d /\ he.1 = key
    | NoRoom => False
    end.
Proof.
  intros Hwf Hb. unfold dictKeyIndex, slot_of.
  destruct (needed_spec can d Hwf Hb) as (d' & -> & Hwf' & He & Hi & Hne). cbn [mbind option_bind negb].
  destruct (wf_tables d' Hwf' Hne) as (t0 & Hl0 & Ht). rewrite <- He.
  destruct (find_live _ _ key Hl0) as (c & -> & _ & _ & Hf). cbn [mbind option_bind].
  destruct (chain_find key c) as [he|].
  { destruct Hf as [Hk Hin]. exists d', (Exists he). split_and!; try done. apply elem_of_app. by left. }
  destruct Ht as [[Er Hl1]|[Er (t1 & Hl1)]]; rewrite Er; cbn [negb].
  - eexists d', (Slot _). split; [done|]. rewrite Er. split_and!; try done. unfold entries. rewrite Hl1.
    change (entries_ht dictReset) with (@nil (K * V)). by rewrite app_nil_r.
  - destruct (find_live _ _ key Hl1) as (c1 & -> & _ & _ & Hf1). cbn [mbind option_bind].
    destruct (chain_find key c1) as [he|].
    { destruct Hf1 as [Hk Hin]. exists d', (Exists he). split_and!; try done. apply elem_of_app. by right. }
    eexists d', (Slot _). split; [done|]. rewrite Er. split_and!; try done.
    unfold entries. rewrite fmap_app, not_elem_of_app. done.
Qed.

Lemma add_entry_spec d key val :
  dict_wf d -> ht0 d <> dictReset -> key ∉ (entries d).*1 -> zlen (entries d) + 1 < DICT_BOUND ->
  exists d', add_entry d (slot_of d key) (key, val) = Some d' /\ dict_wf d' /\
    entries d' ≡ₚ (key, val) :: entries d /\ iterators d' = iterators d.
Proof.
  intros Hwf Hne Hk Hb. unfold add_entry, slot_of, DICT_BOUND in *.
  assert (NoDup (((key, val) :: entries d).*1)) as Hnd by (constructor; [done|apply Hwf]).
  destruct (wf_phase d Hwf) as [_ ?|t Hi Hl Hl1|t0 t1 Hi Hl0 Hl1 Hs Hlow]; [done| |].
  - rewrite (proj2 (rehashing_false d)) by done. rewrite (entries_stable d t Hl Hl1) in Hb.
    pose proof (used_bound d Hwf ltac:(rewrite (entries_stable d t Hl Hl1); unfold DICT_BOUND; lia)) as Hub.
    destruct (push_live (ht0 d) t (key, val) Hl Hb) as (b & ht' & t' & Eb & Es & Eu & Ez & Em & Hl' & Hr).
    cbn [fst] in *. rewrite Eb. cbn [mbind option_bind]. rewrite Es. cbn [mbind option_bind]. rewrite Eu, u64_id by (unfold DICT_BOUND in Hub; lia).
    eexists. split; [done|].
    assert (entries (set_ht0 (set_used ht' (used (ht0 d) + 1)) d) ≡ₚ (key, val) :: entries d) as Ee.
    { unfold entries. cbn [ht0 ht1 set_ht0]. by rewrite Hr. }
    split_and!; [|done|done]. split; [by eapply Stable|by rewrite Ee].
  - assert (dictIsRehashing d = true) as ->.
    { unfold dictIsRehashing. assert ((rehashidx d =? -1) = false) as -> by lia. done. }
    rewrite (entries_length d t0 t1 Hl0 Hl1) in Hb.
    pose proof (live_used _ _ Hl0). pose proof (live_used _ _ Hl1).
    pose proof (zlen_nonneg (concat t0)). pose proof (zlen_nonneg (concat t1)).
    destruct (push_live (ht1 d) t1 (key, val) Hl1) as (b & ht' & t' & Eb & Es & Eu & Ez & Em & Hl' & Hr); [lia|].
    cbn [fst] in *. rewrite Eb. cbn [mbind option_bind]. rewrite Es. cbn [mbind option_bind]. rewrite Eu, u64_id by lia.
    eexists. split; [done|].
    assert (entries (set_ht1 (set_used ht' (used (ht1 d) + 1)) d) ≡ₚ (key, val) :: entries d) as Ee.
    { unfold entries. cbn [ht0 ht1 set_ht1]. rewrite Hr. symmetry. apply Permutation_middle. }
    split_and!; [|done|done]. split; [|by rewrite Ee]. eapply (Rehashing _ t0 t'); try done.
    cbn. by rewrite Ez.
Qed.

Lemma addraw_spec can d key val :
  dict_wf d -> zlen (entries d) + 1 < DICT_BOUND ->
  exists d' r, dictAddRaw can d key val = Some (d', r) /\ dict_wf d' /\ iterators d' = iterators d /\
    ht0 d' <> dictReset /\
    match r with
    | Slot _ => (key ∉ (entries d).*1) /\ entries d' ≡ₚ (key, val) :: entries d
    | Exists he => he ∈ entries d /\ he.1 = key /\ entries d' ≡ₚ entries d
    | NoRoom => False
    end.
Proof.
  intros Hwf Hb. unfold dictAddRaw.
  destruct (step_spec d Hwf) as (d1 & -> & Hwf1 & He1 & Hi1 & _); [lia|]. cbn [mbind option_bind].
  pose proof (zlen_perm _ _ He1) as Hz.
  destruct (keyindex_spec can d1 key Hwf1) as (d2 & r & -> & Hwf2 & He2 & Hi2 & Hne2 & Hr); [lia|].
  cbn [mbind option_bind]. destruct r as [idx|he|]; [| |done].
  - destruct Hr as [Hk ->]. destruct (add_entry_spec d2 key val Hwf2 Hne2) as (d3 & -> & Hwf3 & He3 & Hi3).
    { by rewrite He2. } { rewrite He2. lia. }
    cbn. eexists d3, _. split; [done|]. split_and!; [done|congruence| | |].
    + intros E. assert (entries d3 <> []) as Hx by (intros Ex; rewrite Ex in He3; by apply Permutation_nil_cons in He3). apply Hx. unfold entries. rewrite E.
      destruct (wf_phase _ Hwf3) as [_ _ ->|t _ Hl _|t0 t1 _ Hl _]; [done|..];
        (pose proof (live_table _ _ Hl) as Et; by rewrite E in Et).
    + by rewrite <- He1.
    + by rewrite He3, He2, He1.
  - destruct Hr as [Hin Hk]. exists d2, (Exists he). split; [done|]. split_and!; [done|congruence|done| |done|].
    + by rewrite <- He1.
    + by rewrite He2.
Qed.

(** Replace the entry of a key in its chain by [X]: nothing or a new value. *)
Lemma swap_nodup (l rest : list (K * V)) he (X : list (K * V)) :
  l ≡ₚ he :: rest -> NoDup l.*1 -> (X = [] \/ exists v, X = [(he.1, v)]) -> NoDup (X ++ rest).*1.
Proof.
  intros E Hn HX. rewrite E in Hn. destruct HX as [->|[v ->]]; [|done].
  cbn in Hn. by apply NoDup_cons in Hn as [_ Hn].
Qed.

Lemma zlen_update X (c c' : list (K * V)) he key :
  c ≡ₚ he :: chain_delete key c -> c' ≡ₚ X ++ chain_delete key c -> zlen c' = zlen c - 1 + zlen X.
Proof.
  intros E1%zlen_perm E2%zlen_perm. rewrite zlen_app in E2. rewrite zlen_cons in E1. lia.
Qed.

Section Update.
Context (key : K) (he : K * V) (c c' X : list (K * V)).
Context (Hfind : chain_find key c = Some he) (Hc' : c' ≡ₚ X ++ chain_delete key c)
        (HX : X = [] \/ exists v, X = [(key, v)]).

Lemma update_live ht t :
  ht_live ht t ->
  t !! Z.to_nat (Z.land (dictHashKey key) (sizemask ht)) = Some c ->
  (forall e, e ∈ c' -> Z.land (dictHashKey e.1) (sizemask ht) = Z.land (dictHashKey key) (sizemask ht)) ->
  exists h rest, set_bucket ht (Z.land (dictHashKey key) (sizemask ht)) c' = Some h /\ used h = used ht /\
    size h = size ht /\
    ht_live (set_used h (used ht - 1 + zlen X))
      (<[Z.to_nat (Z.land (dictHashKey key) (sizemask ht)) := c']> t) /\
    entries_ht ht ≡ₚ he :: rest /\ (forall n, entries_ht (set_used h n) ≡ₚ X ++ rest) /\ 1 <= used ht < 2 ^ 60.
Proof.
  intros Hl Ht Hp. pose proof (mask_range ht t (dictHashKey key) Hl) as Hi. set (i := Z.land _ _) in *.
  destruct (chain_find_Some _ _ _ Hfind) as (Hin & Hk & Hd & _).
  pose proof (zlen_update X c c' he key Hd Hc') as Hz.
  assert (zlen X <= 1) as HX1 by (destruct HX as [->|[v ->]]; done).
  pose proof (live_max _ _ Hl). pose proof (live_used _ _ Hl) as Hu.
  destruct (set_live ht t i c c' Hl Hi Ht Hp) as (h & rest & Es & Eu & Ez & Em & Hl' & Hr & Hr'); [lia|].
  exists h, (chain_delete key c ++ rest).
  replace (used ht - zlen c + zlen c') with (used ht - 1 + zlen X) in Hl' by lia.
  split_and!; try done.
  - rewrite Hr, Hd at 1. done.
  - intros n. rewrite Hr', Hc'. by rewrite app_assoc.
  - apply zlen_perm in Hr, Hd. rewrite (entries_live _ _ Hl), zlen_app in Hr. rewrite zlen_cons in Hd.
    pose proof (zlen_nonneg rest). pose proof (zlen_nonneg (chain_delete key c)). lia.
  - lia.
Qed.

Lemma update0_spec d t0 :
  dict_wf d -> ht_live (ht0 d) t0 ->
  t0 !! Z.to_nat (Z.land (dictHashKey key) (sizemask (ht0 d))) = Some c ->
  (forall e, e ∈ c' -> Z.land (dictHashKey e.1) (sizemask (ht0 d)) = Z.land (dictHashKey key) (sizemask (ht0 d))) ->
  exists h rest, set_bucket (ht0 d) (Z.land (dictHashKey key) (sizemask (ht0 d))) c' = Some h /\
    used h = used (ht0 d) /\ 1 <= used h < 2 ^ 60 /\
    dict_wf (set_ht0 (set_used h (used h - 1 + zlen X)) d) /\
    entries d ≡ₚ he :: rest /\ entries (set_ht0 (set_used h (used h - 1 + zlen X)) d) ≡ₚ X ++ rest.
Proof.
  intros Hwf Hl Ht Hp. destruct (chain_find_Some _ _ _ Hfind) as (Hin & Hk & _).
  destruct (update_live _ _ Hl Ht Hp) as (h & rest & Es & Eu & Ez & Hl' & Hr & Hr' & Hub).
  exists h, (rest ++ entries_ht (ht1 d)). rewrite Eu.
  assert (entries d ≡ₚ he :: rest ++ entries_ht (ht1 d)) as E1 by (unfold entries; by rewrite Hr).
  assert (entries (set_ht0 (set_used h (used (ht0 d) - 1 + zlen X)) d) ≡ₚ X ++ rest ++ entries_ht (ht1 d)) as E2.
  { unfold entries. cbn [ht0 ht1 set_ht0]. rewrite Hr'. by rewrite <- app_assoc. }
  destruct Hub. split_and!; try done. split.
  2:{ rewrite E2. eapply swap_nodup; [done|apply Hwf|by rewrite Hk]. }
  destruct (wf_phase d Hwf) as [_ Hq _|t Hi Hl0 Hl1|t0' t1 Hi Hl0 Hl1 Hne Hlow].
  - pose proof (live_table _ _ Hl) as Et. by rewrite Hq in Et.
  - by eapply Stable.
  - assert (t0' = t0) as -> by (apply live_table in Hl, Hl0; congruence).
    eapply (Rehashing _ _ t1); [|exact Hl'|exact Hl1| |]; cbn; [by rewrite Ez|by rewrite Ez|].
    intros i Hi'. rewrite list_lookup_insert_ne; [by apply Hlow|]. intros <-.
    rewrite Hlow in Ht by done. by injection Ht as <-; apply elem_of_nil in Hin.
Qed.

Lemma update1_spec d t1 :
  dict_wf d -> ht_live (ht1 d) t1 ->
  t1 !! Z.to_nat (Z.land (dictHashKey key) (sizemask (ht1 d))) = Some c ->
  (forall e, e ∈ c' -> Z.land (dictHashKey e.1) (sizemask (ht1 d)) = Z.land (dictHashKey key) (sizemask (ht1 d))) ->
  exists h rest, set_bucket (ht1 d) (Z.land (dictHashKey key) (sizemask (ht1 d))) c' = Some h /\
    used h = used (ht1 d) /\ 1 <= used h < 2 ^ 60 /\
    dict_wf (set_ht1 (set_used h (used h - 1 + zlen X)) d) /\
    entries d ≡ₚ he :: rest /\ entries (set_ht1 (set_used h (used h - 1 + zlen X)) d) ≡ₚ X ++ rest.
Proof.
  intros Hwf Hl Ht Hp. destruct (chain_find_Some _ _ _ Hfind) as (Hin & Hk & _).
  destruct (update_live _ _ Hl Ht Hp) as (h & rest & Es & Eu & Ez & Hl' & Hr & Hr' & Hub).
  exists h, (entries_ht (ht0 d) ++ rest). rewrite Eu.
  assert (entries d ≡ₚ he :: entries_ht (ht0 d) ++ rest) as E1.
  { unfold entries. rewrite Hr. symmetry. apply Permutation_middle. }
  assert (entries (set_ht1 (set_used h (used (ht1 d) - 1 + zlen X)) d) ≡ₚ X ++ entries_ht (ht0 d) ++ rest) as E2.
  { unfold entries. cbn [ht0 ht1 set_ht1]. rewrite Hr'. apply Permutation_app_swap_app. }
  destruct Hub. split_and!; try done. split.
  2:{ rewrite E2. eapply swap_nodup; [done|apply Hwf|by rewrite Hk]. }
  destruct (wf_phase d Hwf) as [_ _ Hq|t Hi Hl0 Hq|t0 t1' Hi Hl0 Hl1 Hne Hlow];
    [pose proof (live_table _ _ Hl) as Et; by rewrite Hq in Et..|].
  eapply (Rehashing _ t0); [exact Hi|exact Hl0|exact Hl'|cbn; by rewrite Ez|exact Hlow].
Qed.

End Update.

Lemma delete_hash key c m i :
  (forall e, e ∈ c -> Z.land (dictHashKey e.1) m = i) ->
  forall e, e ∈ chain_delete key c -> Z.land (dictHashKey e.1) m = i.
Proof. intros Hc e He. apply Hc. by eapply chain_delete_incl. Qed.

Lemma set_used_same (h : dictht K V) : set_used h (used h) = h.
Proof. by destruct h. Qed.

Lemma set_existing_spec d key val he :
  dict_wf d -> ht0 d <> dictReset -> he ∈ entries d -> he.1 = key ->
  exists d' rest, set_existing d key val = Some d' /\ dict_wf d' /\ iterators d' = iterators d /\
    entries d ≡ₚ he :: rest /\ entries d' ≡ₚ (key, val) :: rest.
Proof.
  intros Hwf Hne Hin Hk. unfold set_existing.
  assert (forall he' rest, he'.1 = key -> entries d ≡ₚ he' :: rest -> he' = he) as Huniq.
  { intros he' rest Hk' E. assert (he' ∈ entries d) as Hin' by (rewrite E; left).
    apply list_elem_of_lookup_1 in Hin as [i Hi], Hin' as [j Hj].
    assert (i = j) as ->; [|congruence]. eapply (NoDup_lookup _ _ _ key (wf_nodup d Hwf));
      rewrite list_lookup_fmap; [by rewrite Hi; cbn; rewrite Hk|by rewrite Hj; cbn; rewrite Hk']. }
  destruct (wf_tables d Hwf Hne) as (t0 & Hl0 & Ht).
  destruct (find_live _ _ key Hl0) as (c & -> & Hc & Hh & Hf). cbn [mbind option_bind].
  destruct (chain_find key c) as [he'|] eqn:Ef.
  { destruct (chain_find_Some _ _ _ Ef) as (_ & Hk' & _ & Hset).
    destruct (update0_spec key he' c (chain_set key val c) [(key, val)] Ef (Hset val) ltac:(eauto) d t0 Hwf Hl0 Hc)
      as (h & rest & -> & Hu & _ & Hw & E1 & E2); [by apply chain_set_hash|].
    change (zlen [(key, val)]) with 1 in *. rewrite Z.sub_add, set_used_same in *. cbn.
    rewrite (Huniq _ _ Hk' E1) in E1. by exists (set_ht0 h d), rest. }
  destruct Ht as [[_ Hq]|[_ (t1 & Hl1)]].
  { exfalso. unfold entries in Hin. rewrite Hq in Hin. change (entries_ht dictReset) with (@nil (K * V)) in Hin.
    rewrite app_nil_r in Hin. apply Hf. rewrite <- Hk. by apply list_elem_of_fmap_2. }
  destruct (find_live _ _ key Hl1) as (c1 & -> & Hc1 & Hh1 & Hf1). cbn [mbind option_bind].
  destruct (chain_find key c1) as [he'|] eqn:Ef1.
  2:{ exfalso. apply (list_elem_of_fmap_2 fst) in Hin. rewrite Hk in Hin. unfold entries in Hin.
      rewrite fmap_app, elem_of_app in Hin. naive_solver. }
  destruct (chain_find_Some _ _ _ Ef1) as (_ & Hk' & _ & Hset).
  destruct (update1_spec key he' c1 (chain_set key val c1) [(key, val)] Ef1 (Hset val) ltac:(eauto) d t1 Hwf Hl1 Hc1)
    as (h & rest & -> & Hu & _ & Hw & E1 & E2); [by apply chain_set_hash|].
  change (zlen [(key, val)]) with 1 in *. rewrite Z.sub_add, set_used_same in *. cbn.
  rewrite (Huniq _ _ Hk' E1) in E1. by exists (set_ht1 h d), rest.
Qed.

Lemma nonempty_ht0 d : dict_wf d -> entries d <> [] -> ht0 d <> dictReset.
Proof.
  intros [Hp _] Hne E. apply Hne. unfold entries. rewrite E.
  destruct Hp as [_ _ ->|t _ Hl _|t0 t1 _ Hl _]; [done|..];
    (pose proof (live_table _ _ Hl) as Et; by rewrite E in Et).
Qed.

Lemma size_entries d : dict_wf d -> zlen (entries d) < DICT_BOUND ->
  dictSize d = zlen (entries d) /\
  ((used (ht0 d) =? 0) && (used (ht1 d) =? 0) = true <-> entries d = []).
Proof.
  intros [Hp Hn] Hb. assert (0 <= used (ht0 d) /\ 0 <= used (ht1 d) /\
    zlen (entries d) = used (ht0 d) + used (ht1 d)) as (Hu0 & Hu1 & E).
  { destruct Hp as [_ Hq0 Hq1|t _ Hl Hq1|t0 t1 _ Hl0 Hl1].
    - unfold entries. by rewrite Hq0, Hq1.
    - rewrite (entries_stable d t Hl Hq1), Hq1, (live_used _ _ Hl). cbn.
      pose proof (zlen_nonneg (concat t)). lia.
    - rewrite (entries_length d t0 t1 Hl0 Hl1), (live_used _ _ Hl0), (live_used _ _ Hl1).
      pose proof (zlen_nonneg (concat t0)). pose proof (zlen_nonneg (concat t1)). lia. }
  split; [done|]. rewrite andb_true_iff, !Z.eqb_eq. split.
  - intros [E0 E1]. apply zlen_0_nil. lia.
  - intros Ee. rewrite Ee, zlen_nil in E. lia.
Qed.

Lemma delete_spec d key :
  dict_wf d -> zlen (entries d) < DICT_BOUND ->
  exists d' r, dictGenericDelete d key = Some (d', r) /\ dict_wf d' /\ iterators d' = iterators d /\
    match r with
    | Some he => he.1 = key /\ entries d ≡ₚ he :: entries d'
    | None => (key ∉ (entries d).*1) /\ entries d' ≡ₚ entries d
    end.
Proof.
  intros Hwf Hb. unfold dictGenericDelete.
  destruct (size_entries d Hwf Hb) as [_ Hemp].
  destruct (_ && _) eqn:Eb.
  { exists d, None. split_and!; try done. rewrite (proj1 Hemp eq_refl). apply not_elem_of_nil. }
  assert (entries d <> []) as Hned by (intros E; apply Hemp in E; congruence).
  destruct (step_spec d Hwf Hb) as (d1 & -> & Hwf1 & He1 & Hi1 & Hne1). cbn [mbind option_bind].
  specialize (Hne1 (nonempty_ht0 d Hwf Hned)).
  destruct (wf_tables d1 Hwf1 Hne1) as (t0 & Hl0 & Ht).
  destruct (find_live _ _ key Hl0) as (c & -> & Hc & Hh & Hf). cbn [mbind option_bind].
  destruct (chain_find key c) as [he|] eqn:Ef.
  { destruct (update0_spec key he c (chain_delete key c) [] Ef (reflexivity _) ltac:(by left) d1 t0 Hwf1 Hl0 Hc)
      as (h & rest & -> & Hu & Hub & Hw & E1 & E2); [by apply delete_hash|].
    rewrite zlen_nil, Z.add_0_r in *. cbn [mbind option_bind].
    rewrite u64_id by (change (2 ^ 60) with 1152921504606846976 in *; lia).
    eexists _, (Some he). split; [done|]. split_and!; [done|done|by destruct Hf|].
    rewrite <- He1, E1. apply perm_skip. by rewrite E2. }
  destruct Ht as [[Er Hq]|[Er (t1 & Hl1)]]; rewrite Er; cbn [negb].
  { exists d1, None. split_and!; try done. rewrite <- He1. unfold entries. rewrite Hq.
    change (entries_ht dictReset) with (@nil (K * V)). by rewrite app_nil_r. }
  destruct (find_live _ _ key Hl1) as (c1 & -> & Hc1 & Hh1 & Hf1). cbn [mbind option_bind].
  destruct (chain_find key c1) as [he|] eqn:Ef1.
  2:{ exists d1, None. split_and!; try done. rewrite <- He1. unfold entries.
      rewrite fmap_app, not_elem_of_app. done. }
  destruct (update1_spec key he c1 (chain_delete key c1) [] Ef1 (reflexivity _) ltac:(by left) d1 t1 Hwf1 Hl1 Hc1)
    as (h & rest & -> & Hu & Hub & Hw & E1 & E2); [by apply delete_hash|].
  rewrite zlen_nil, Z.add_0_r in *. cbn [mbind option_bind].
  rewrite u64_id by (change (2 ^ 60) with 1152921504606846976 in *; lia).
  eexists _, (Some he). split; [done|]. split_and!; [done|done|by destruct Hf1|].
  rewrite <- He1, E1. apply perm_skip. by rewrite E2.
Qed.

Lemma dict_find_spec d key :
  dict_wf d -> zlen (entries d) < DICT_BOUND ->
  exists d' r, dictFind d key = Some (d', r) /\ dict_wf d' /\ iterators d' = iterators d /\
    entries d' ≡ₚ entries d /\
    match r with
    | Some he => he.1 = key /\ he ∈ entries d
    | None => key ∉ (entries d).*1
    end.
Proof.
  intros Hwf Hb. unfold dictFind. destruct (size_entries d Hwf Hb) as [Hs _]. rewrite Hs.
  destruct (Z.eqb_spec (zlen (entries d)) 0) as [E%zlen_0_nil|Hnz].
  { exists d, None. split_and!; try done. rewrite E. apply not_elem_of_nil. }
  assert (entries d <> []) as Hned by (intros E; rewrite E in Hnz; done).
  destruct (step_spec d Hwf Hb) as (d1 & -> & Hwf1 & He1 & Hi1 & Hne1). cbn [mbind option_bind].
  specialize (Hne1 (nonempty_ht0 d Hwf Hned)).
  destruct (wf_tables d1 Hwf1 Hne1) as (t0 & Hl0 & Ht).
  destruct (find_live _ _ key Hl0) as (c & -> & Hc & Hh & Hf). cbn [mbind option_bind].
  destruct (chain_find key c) as [he|].
  { exists d1, (Some he). destruct Hf. split_and!; try done. rewrite <- He1. apply elem_of_app. by left. }
  destruct Ht as [[Er Hq]|[Er (t1 & Hl1)]]; rewrite Er; cbn [negb].
  { exists d1, None. split_and!; try done. rewrite <- He1. unfold entries. rewrite Hq.
    change (entries_ht dictReset) with (@nil (K * V)). by rewrite app_nil_r. }
  destruct (find_live _ _ key Hl1) as (c1 & -> & Hc1 & Hh1 & Hf1). cbn [mbind option_bind].
  eexists d1, _. split; [done|]. split_and!; try done. destruct (chain_find key c1) as [he|].
  - destruct Hf1. split; [done|]. rewrite <- He1. apply elem_of_app. by right.
  - rewrite <- He1. unfold entries. rewrite fmap_app, not_elem_of_app. done.
Qed.

End Ops.

(** ** The dictionary as a finite map *)

Section Map.
Context {K V : Type} `{Countable K} `{DictType K}.
Implicit Types (d : dict K V) (m : gmap K V).

Definition to_map d : gmap K V := list_to_map (entries d).

Lemma to_map_perm d (l : list (K * V)) : dict_wf d -> entries d ≡ₚ l -> to_map d = list_to_map l.
Proof. intros Hwf E. apply list_to_map_proper; [apply Hwf|done]. Qed.

Lemma to_map_Some d k v : dict_wf d -> to_map d !! k = Some v <-> (k, v) ∈ entries d.
Proof. intros Hwf. symmetry. apply elem_of_list_to_map, Hwf. Qed.

Lemma to_map_None d k : to_map d !! k = None <-> k ∉ (entries d).*1.
Proof. symmetry. apply not_elem_of_list_to_map. Qed.

Lemma to_map_add d d' k v : dict_wf d' -> entries d' ≡ₚ (k, v) :: entries d -> to_map d' = <[k := v]> (to_map d).
Proof. intros Hwf E. by rewrite (to_map_perm _ _ Hwf E). Qed.

(** What a client does, with the setting of dict_can_resize where it is read,
    and what it is told. *)
Inductive dict_op :=
  | DAdd (can : bool) (k : K) (v : V) | DReplace (can : bool) (k : K) (v : V)
  | DDelete (k : K) | DFetch (k : K) | DRehash (n : nat) | DResize (can : bool) | DEmpty.
Inductive answer := ABool (b : bool) | AVal (v : option V) | ANone.

Definition abs_dict_op m (o : dict_op) : gmap K V * answer :=
  match o with
  | DAdd _ k v => match m !! k with Some _ => (m, ABool false) | None => (<[k := v]> m, ABool true) end
  | DReplace _ k v => (<[k := v]> m, ABool (match m !! k with Some _ => false | None => true end))
  | DDelete k => (delete k m, ABool (match m !! k with Some _ => true | None => false end))
  | DFetch k => (m, AVal (m !! k))
  | DRehash _ | DResize _ => (m, ANone)
  | DEmpty => (∅, ANone)
  end.

Definition run_dict_op d (o : dict_op) : option (dict K V * answer) :=
  match o with
  | DAdd can k v => '(d, b) ← dictAdd can d k v; Some (d, ABool b)
  | DReplace can k v => '(d, b) ← dictReplace can d k v; Some (d, ABool b)
  | DDelete k => '(d, b) ← dictDelete d k; Some (d, ABool b)
  | DFetch k => '(d, r) ← dictFetchValue d k; Some (d, AVal r)
  | DRehash n => '(d, _) ← dictRehash d n; Some (d, ANone)
  | DResize can => '(d, _) ← dictResize can d; Some (d, ANone)
  | DEmpty => d ← dictEmpty d; Some (d, ANone)
  end.

(** dictRehash is called with a small positive number of steps. *)
Definition dict_op_ok (o : dict_op) : Prop :=
  match o with DRehash n => (1 <= n)%nat /\ Z.of_nat n < 2 ^ 24 | _ => True end.

Fixpoint abs_dict_run m (ops : list dict_op) : gmap K V * list answer :=
  match ops with
  | [] => (m, [])
  | o :: ops =>
      let '(m, a) := abs_dict_op m o in
      let '(m, answers) := abs_dict_run m ops in (m, a :: answers)
  end.

Fixpoint dict_run d (ops : list dict_op) : option (dict K V * list answer) :=
  match ops with
  | [] => Some (d, [])
  | o :: ops =>
      '(d, a) ← run_dict_op d o;
      '(d, answers) ← dict_run d ops; Some (d, a :: answers)
  end.

Lemma clear_loop_ok n : forall (ht : dictht K V) t i,
  table ht = Some t -> zlen t = size ht -> 0 <= i -> exists ht', clear_loop n ht i = Some ht'.
Proof.
  induction n as [|n IH]; intros ht t i Ht Hl Hi; cbn [clear_loop]; [by exists ht|].
  destruct (Z.ltb_spec i (size ht)); cbn [andb]; [|by exists ht].
  destruct (0 <? used ht); [|by exists ht]. unfold bucket. rewrite Ht. cbn.
  destruct (znth_is_Some t i) as [c ->]; [lia|]. cbn. by eapply (IH _ t); [|cbn|lia].
Qed.

Lemma clear_ok (ht : dictht K V) : ht = dictReset \/ (exists t, ht_live ht t) -> dictClear ht = Some dictReset.
Proof.
  intros Hh. unfold dictClear.
  assert (exists ht', clear_loop (S (Z.to_nat (size ht))) ht 0 = Some ht') as [ht' ->]; [|done].
  destruct Hh as [->|[t Hl]]; [by exists dictReset|].
  eapply clear_loop_ok; [apply Hl|apply Hl|done].
Qed.

Lemma dict_empty_spec d : dict_wf d -> dictEmpty d = Some dictInit.
Proof.
  intros Hwf. unfold dictEmpty. rewrite !clear_ok; [done|..];
    destruct (wf_phase d Hwf) as [_ ? ?|t _ ? ?|t0 t1 _ ? ?]; eauto.
Qed.

Lemma init_wf : dict_wf (@dictInit K V).
Proof. split; [by apply Empty|constructor]. Qed.

(** One call: the answer and the new contents are those of the map, and at most
    one entry is added. *)
Lemma run_op_refines d o :
  dict_wf d -> dict_op_ok o -> zlen (entries d) + 1 < DICT_BOUND ->
  exists d', run_dict_op d o = Some (d', (abs_dict_op (to_map d) o).2) /\ dict_wf d' /\
    to_map d' = (abs_dict_op (to_map d) o).1 /\ zlen (entries d') <= zlen (entries d) + 1.
Proof.
  intros Hwf Hok Hb.
  assert (forall d', dict_wf d' -> entries d' ≡ₚ entries d ->
    to_map d' = to_map d /\ zlen (entries d') <= zlen (entries d) + 1) as Hsame.
  { intros d' Hwf' E. split; [by apply to_map_perm|]. rewrite (zlen_perm _ _ E). lia. }
  destruct o as [can k v|can k v|k|k|n|can|]; cbn [run_dict_op abs_dict_op].
  - destruct (addraw_spec can d k v Hwf Hb) as (d' & r & E & Hwf' & _ & _ & Hr).
    unfold dictAdd. rewrite E. cbn. destruct r as [idx|he|]; [| |done].
    + destruct Hr as [Hk He]. rewrite (proj2 (to_map_None d k)) by done. exists d'.
      split_and!; [done|done|by apply to_map_add|]. rewrite (zlen_perm _ _ He), zlen_cons. lia.
    + destruct Hr as (Hin & <- & He). destruct he as [k v']. cbn in *.
      rewrite (proj2 (to_map_Some d k v' Hwf)) by done. exists d'. split; [done|]. split; [done|]. by apply Hsame.
  - destruct (addraw_spec can d k v Hwf Hb) as (d1 & r & E & Hwf1 & _ & Hne & Hr).
    unfold dictReplace. rewrite E. cbn [mbind option_bind]. destruct r as [idx|he|]; [| |done].
    + destruct Hr as [Hk He]. rewrite (proj2 (to_map_None d k)) by done. exists d1.
      split_and!; [done|done|by apply to_map_add|]. rewrite (zlen_perm _ _ He), zlen_cons. lia.
    + destruct Hr as (Hin & Hk & He).
      destruct (set_existing_spec d1 k v he Hwf1 Hne) as (d' & rest & -> & Hwf' & _ & E1 & E2);
        [by rewrite He|done|]. cbn.
      destruct he as [k' v']. cbn in Hk. subst k'.
      rewrite (proj2 (to_map_Some d k v' Hwf)) by done. exists d'. split_and!; [done|done| |].
      * rewrite (to_map_perm _ _ Hwf' E2). cbn. rewrite <- (proj1 (Hsame d1 Hwf1 He)).
        rewrite (to_map_perm _ _ Hwf1 E1). cbn. by rewrite insert_insert_eq.
      * rewrite (zlen_perm _ _ E2), <- (zlen_perm _ _ He), (zlen_perm _ _ E1), !zlen_cons. lia.
  - destruct (delete_spec d k Hwf) as (d' & r & E & Hwf' & _ & Hr); [lia|].
    unfold dictDelete. rewrite E. cbn. destruct r as [he|].
    + destruct Hr as [<- He]. destruct he as [k v]. cbn in *. pose proof (wf_nodup d Hwf) as Hn.
      assert (k ∉ (entries d').*1) as Hnk by (rewrite He in Hn; by apply NoDup_cons in Hn as [? _]).
      rewrite (to_map_perm _ _ Hwf He). cbn. rewrite lookup_insert_eq. exists d'. split_and!; [done|done| |].
      * rewrite delete_insert_id; [done|]. by apply to_map_None.
      * rewrite (zlen_perm _ _ He), zlen_cons. lia.
    + destruct Hr as [Hk He]. rewrite (proj2 (to_map_None d k)) by done. exists d'.
      split; [done|]. split; [done|]. rewrite delete_id by (by apply to_map_None). by apply Hsame.
  - destruct (dict_find_spec d k Hwf) as (d' & r & E & Hwf' & _ & He & Hr); [lia|].
    unfold dictFetchValue. rewrite E. cbn. exists d'. split; [|split; [done|by apply Hsame]].
    destruct r as [[k' v]|]; cbn in *.
    + destruct Hr as [-> Hin]. by rewrite (proj2 (to_map_Some d k v Hwf)).
    + by rewrite (proj2 (to_map_None d k)).
  - destruct Hok. destruct (rehash_spec d n Hwf) as (d' & b & -> & Hwf' & He & _);
      [done|done|unfold DICT_BOUND in *; lia|]. cbn.
    exists d'. split; [done|]. split; [done|]. by apply Hsame.
  - unfold dictResize. pose proof (used_bound d Hwf ltac:(lia)) as Hu.
    destruct (_ || _); [cbn; exists d; split; [done|]; split; [done|]; by apply Hsame|].
    destruct (expand_spec d (if used (ht0 d) <? DICT_HT_INITIAL_SIZE then DICT_HT_INITIAL_SIZE else used (ht0 d)) Hwf)
      as (d' & b & -> & Hwf' & He & _).
    { unfold DICT_BOUND, DICT_HT_INITIAL_SIZE in *. change (2 ^ 62) with 4611686018427387904.
      change (2 ^ 60) with 1152921504606846976 in *. zcase; lia. }
    cbn. exists d'. split; [done|]. split; [done|]. apply Hsame; [done|by rewrite He].
  - rewrite (dict_empty_spec d Hwf). cbn. exists dictInit. split; [done|]. split; [apply init_wf|].
    split; [done|]. change (zlen (entries (@dictInit K V))) with 0. pose proof (zlen_nonneg (entries d)). lia.
Qed.

Lemma dict_run_refines ops : forall d,
  dict_wf d -> Forall dict_op_ok ops -> zlen (entries d) + zlen ops < DICT_BOUND ->
  exists d', dict_run d ops = Some (d', (abs_dict_run (to_map d) ops).2) /\ dict_wf d' /\
    to_map d' = (abs_dict_run (to_map d) ops).1.
Proof.
  induction ops as [|o ops IH]; intros d Hwf Hok Hb; [by exists d|].
  apply Forall_cons in Hok as [Ho Hok]. rewrite zlen_cons in Hb. pose proof (zlen_nonneg ops).
  destruct (run_op_refines d o Hwf Ho) as (d1 & E1 & Hwf1 & Hm1 & Hl1); [lia|].
  cbn [dict_run abs_dict_run]. rewrite E1. cbn [mbind option_bind].
  destruct (IH d1 Hwf1 Hok) as (d' & E & Hwf' & Hm'); [lia|]. rewrite E, Hm1 in *. cbn [mbind option_bind].
  destruct (abs_dict_op (to_map d) o) as [m1 a]. cbn in *.
  destruct (abs_dict_run m1 ops) as [m2 answers]. cbn in *. by exists d'.
Qed.

End Map.

(** Call dictRehash up to [k] times, as long as it asks for more. *)
Fixpoint rehash_times {K V} `{DictType K} (k : nat) (d : dict K V) (n : nat) : option (dict K V * bool) :=
  match k with
  | O => Some (d, true)
  | S k => '(d, more) ← dictRehash d n; if (more : bool) then rehash_times k d n else Some (d, false)
  end.

(** ** Properties *)

(** C7. dict.c refines a finite map: any sequence of additions, replacements,
    deletions, lookups, rehash steps, resizes and clears, run from the empty
    dictionary with any hash function, stays inside its tables, answers as the
    map does and ends in a well formed dictionary with the contents of the
    map.  The sequence may leave a rehash in progress at any point. *)
Theorem dict_refines_map {K V : Type} `{Countable K} `{DictType K} (ops : list (@dict_op K V)) :
  Forall dict_op_ok ops -> zlen ops < DICT_BOUND ->
  exists d, dict_run dictCreate ops = Some (d, (abs_dict_run ∅ ops).2) /\ dict_wf d /\
    to_map d = (abs_dict_run ∅ ops).1.
Proof. intros Hok Hb. by apply (dict_run_refines ops dictInit init_wf). Qed.

#[export] Instance z_dict_type : DictType Z.
Proof. refine {| dictHashKey := u64 |}. intros k. by apply wrapu_range. Defined.

Definition demo_dict_ops : list (@dict_op Z Z) :=
  [DAdd true 1 10; DAdd true 5 50; DAdd true 9 90; DAdd true 13 130; DAdd true 17 170;
   DReplace true 5 51; DAdd true 9 91; DFetch 13; DDelete 1; DFetch 1; DRehash 1; DFetch 17].

Lemma dict_refines_map_witness :
  exists d, dict_run dictCreate demo_dict_ops =
      Some (d, [ABool true; ABool true; ABool true; ABool true; ABool true; ABool false; ABool false;
                AVal (Some 130); ABool true; AVal None; ANone; AVal (Some 170)]) /\
    dict_wf d /\ to_map d = (abs_dict_run ∅ demo_dict_ops).1.
Proof.
  refine (dict_refines_map demo_dict_ops _ _).
  - repeat constructor; vm_compute; congruence.
  - vm_compute. congruence.
Defined.

(** C34. Incremental rehashing terminates: calling dictRehash with any positive
    number of steps at most once per bucket of the old table moves every entry
    to the new one and leaves a single table, without losing, duplicating or
    changing an entry. *)
Theorem dictRehash_completes {K V : Type} `{EqDecision K} `{DictType K} (d : dict K V) n k :
  dict_wf d -> (1 <= n)%nat -> Z.of_nat n < 2 ^ 24 -> zlen (entries d) < DICT_BOUND ->
  size (ht0 d) - rehashidx d < Z.of_nat k ->
  exists d', rehash_times k d n = Some (d', false) /\ dict_wf d' /\ rehashidx d' = -1 /\
    entries d' ≡ₚ entries d.
Proof.
  revert d. induction k as [|k IH]; intros d Hwf Hn Hn24 Hb Hk.
  { exfalso. destruct (wf_phase d Hwf) as [Hi Hq _|t Hi Hl _|t0 t1 Hi]; [rewrite Hq in Hk; cbn in Hk; lia| |lia].
    pose proof (size_pos _ _ Hl). lia. }
  cbn [rehash_times].
  destruct (rehash_spec d n Hwf Hn Hn24 Hb) as (d1 & b & -> & Hwf1 & He & _ & _ & Hdone & Hmore).
  cbn [mbind option_bind]. destruct b.
  - destruct (Hmore eq_refl) as [Hs Hr].
    destruct (IH d1) as (d' & E & Hwf' & Hi' & He'); [done|done|done|by rewrite (zlen_perm _ _ He)|lia|].
    exists d'. split_and!; try done. by rewrite He'.
  - exists d1. split_and!; try done. by apply Hdone.
Qed.

(** Five entries under a hash that is the key, while the table grows from 4 to 8
    buckets. *)
Definition demo_rehash : dict Z Z :=
  default dictInit (fst <$> dict_run dictInit [DAdd true 0 1; DAdd true 1 2; DAdd true 2 3; DAdd true 3 4; DAdd true 4 5]).

Lemma demo_rehash_wf : dict_wf demo_rehash.
Proof.
  destruct (dict_run_refines (K := Z) (V := Z)
    [DAdd true 0 1; DAdd true 1 2; DAdd true 2 3; DAdd true 3 4; DAdd true 4 5] dictInit init_wf) as (d & E & Hwf & _);
    [repeat constructor|vm_compute; congruence|]. unfold demo_rehash. by rewrite E.
Qed.

Lemma dictRehash_completes_witness :
  exists d', rehash_times 6 demo_rehash 1 = Some (d', false) /\ dict_wf d' /\ rehashidx d' = -1 /\
    entries d' ≡ₚ entries demo_rehash.
Proof.
  refine (dictRehash_completes demo_rehash 1 6 demo_rehash_wf _ _ _ _); vm_compute; congruence || lia.
Defined.

(** C33. The type of a dictionary is an invariant: from any well formed
    dictionary, one in the middle of a rehash included, every operation completes
    and gives a well formed dictionary: tables of a power of two of buckets with
    their mask and entry count, every entry in the bucket of its hash, the old
    table empty below the rehash index and no key twice. *)
Theorem dict_op_keeps_type {K V : Type} `{Countable K} `{DictType K} (d : dict K V) o :
  dict_wf d -> dict_op_ok o -> zlen (entries d) + 1 < DICT_BOUND ->
  exists d' a, run_dict_op d o = Some (d', a) /\ dict_wf d' /\ zlen (entries d') <= zlen (entries d) + 1.
Proof.
  intros Hwf Hok Hb. destruct (run_op_refines d o Hwf Hok Hb) as (d' & E & Hwf' & _ & Hl). by eexists d', _.
Qed.

Lemma dict_op_keeps_type_witness :
  exists d' a, run_dict_op demo_rehash (DDelete 3) = Some (d', a) /\ dict_wf d' /\
    zlen (entries d') <= zlen (entries demo_rehash) + 1.
Proof. exact (dict_op_keeps_type demo_rehash (DDelete 3) demo_rehash_wf I ltac:(vm_compute; congruence)). Defined.

(** _dictNextPower gives the least power of two, 4 or more, that is not
    below the requested size. *)
Theorem dictNextPower_least sz :
  sz <= 2 ^ 62 ->
  exists j, dictNextPower sz = Some (2 ^ j) /\ 2 <= j /\ sz <= 2 ^ j /\
    forall i, 2 <= i -> sz <= 2 ^ i -> j <= i.
Proof.
  intros Hsz. destruct (nextpower_spec sz Hsz) as (j & E & Hj & Hle & Hlow).
  exists j. split_and!; [done|lia|done|]. intros i Hi Hsi.
  destruct (Z.le_gt_cases j i); [done|]. destruct Hlow as [->|Hlow]; [lia|].
  assert (2 ^ i <= 2 ^ (j - 1)) by (apply Z.pow_le_mono_r; lia). lia.
Qed.

Lemma dictNextPower_least_witness :
  exists j, dictNextPower 9 = Some (2 ^ j) /\ 2 <= j /\ 9 <= 2 ^ j /\ forall i, 2 <= i -> 9 <= 2 ^ i -> j <= i.
Proof. exact (dictNextPower_least 9 ltac:(vm_compute; congruence)). Defined.
