(* ===== verification/DictScan.v ===== *)
(** * Scanning a hash table with a reversed cursor (dict.c: rev, dictScan)

    dictScan walks the buckets in the order of their bit-reversed indexes, so
    that a cursor stays meaningful when the table is resized between calls.
    The callback is called once per entry: the model returns the list of the
    entries it is called with.  While it runs the scan holds a safe iterator,
    which stops the rehash steps of a callback that looks keys up, so the
    tables do not move under it. *)

From stdpp Require Import base list numbers option gmap sets.
From Stdlib Require Import ZArith Lia.
From S2P Require Import Prelude Dict.

(** ** Bit reversal *)

(** The loop [while ((s >>= 1) > 0)]. *)
Fixpoint rev_loop (fuel : nat) (s mask v : Z) : Z :=
  match fuel with
  | O => v
  | S fuel =>
      let s := Z.shiftr s 1 in
      if 0 <? s then
        let mask := Z.lxor mask (u64 (Z.shiftl mask s)) in
        let v := Z.lor (Z.land (Z.shiftr v s) mask)
                       (Z.land (u64 (Z.shiftl v s)) (u64 (Z.lnot mask))) in
        rev_loop fuel s mask v
      else v
  end.

Definition rev64 (v : Z) : Z := rev_loop 7 64 (u64 (Z.lnot 0)) v.

(** ** dictScan *)

(** [v |= ~m; v = rev(v); v++; v = rev(v);] *)
Definition next_cursor (v m : Z) : Z :=
  let v := Z.lor v (u64 (Z.lnot m)) in
  let v := rev64 v in
  let v := u64 (v + 1) in
  rev64 v.

Section Scan.
Context {K V : Type}.
Implicit Types (d : dict K V) (ht : dictht K V).

(** The do-while loop over the expansions of the cursor in the larger table. *)
Fixpoint scan_loop (fuel : nat) ht (m0 m1 v : Z) : option (list (K * V) * Z) :=
  match fuel with
  | O => None
  | S fuel =>
      de ← bucket ht (Z.land v m1);
      let v := next_cursor v m1 in
      if negb (Z.land v (Z.lxor m0 m1) =? 0) then
        '(des, v) ← scan_loop fuel ht m0 m1 v; Some (de ++ des, v)
      else Some (de, v)
  end.

(** The entries given to the callback, in order, and the next cursor. The counter of iterators, raised while the buckets
    are visited and lowered again, is left out: the callbacks are not part of the call. *)
Definition dictScan d (v : Z) : option (list (K * V) * Z) :=
  if dictSize d =? 0 then Some ([], 0)
  else if negb (dictIsRehashing d) then
    let t0 := ht0 d in
    let m0 := sizemask t0 in
    de ← bucket t0 (Z.land v m0);
    Some (de, next_cursor v m0)
  else
    let '(t0, t1) := if size (ht1 d) <? size (ht0 d) then (ht1 d, ht0 d) else (ht0 d, ht1 d) in
    let m0 := sizemask t0 in
    let m1 := sizemask t1 in
    de ← bucket t0 (Z.land v m0);
    '(des, v) ← scan_loop (S (Z.to_nat (size t1))) t1 m0 m1 v;
    Some (de ++ des, v).

(** A scan: the calls from cursor 0 until the cursor is 0 again, each on the
    state the dictionary is in by then.  The flag says that it is complete. *)
Fixpoint scan_run (ds : list (dict K V)) (v : Z) : option (list (K * V) * bool) :=
  match ds with
  | [] => Some ([], false)
  | d :: ds =>
      '(des, v) ← dictScan d v;
      if v =? 0 then Some (des, true)
      else '(rest, complete) ← scan_run ds v; Some (des ++ rest, complete)
  end.

End Scan.

(** ** Bits *)

Lemma u64_bit z i : 0 <= i -> Z.testbit (u64 z) i = (i <? 64) && Z.testbit z i.
Proof.
  intros Hi. unfold u64, wrapu. destruct (Z.ltb_spec i 64).
  - by rewrite Z.mod_pow2_bits_low.
  - by rewrite Z.mod_pow2_bits_high by lia.
Qed.

Lemma bits_inj64 a b : in_u 64 a -> in_u 64 b ->
  (forall i, 0 <= i < 64 -> Z.testbit a i = Z.testbit b i) -> a = b.
Proof.
  intros Ha Hb E. rewrite <- (Z.mod_small a (2 ^ 64)), <- (Z.mod_small b (2 ^ 64)) by done.
  apply Z.bits_inj'. intros i Hi. destruct (Z.lt_ge_cases i 64).
  - rewrite !Z.mod_pow2_bits_low by lia. by apply E.
  - by rewrite !Z.mod_pow2_bits_high by lia.
Qed.

(** One stage of the reversal swaps the blocks of [s] bits. *)
Definition stage (s mask v : Z) : Z :=
  Z.lor (Z.land (Z.shiftr v s) mask) (Z.land (u64 (Z.shiftl v s)) (u64 (Z.lnot mask))).

Definition swap_ok (s mask : Z) : bool :=
  forallb (fun i => if Z.testbit mask i then i + s =? Z.lxor i s else (0 <=? i - s) && (i - s =? Z.lxor i s))
    (zseq 0 64).

Lemma elem_zseq i n : 0 <= i < n -> i ∈ zseq 0 n.
Proof.
  intros Hi. unfold zseq. apply list_elem_of_fmap. exists i. split; [lia|].
  apply list_elem_of_fmap. exists (Z.to_nat i). split; [lia|]. apply elem_of_seq. lia.
Qed.

Lemma stage_bit s mask v i : 0 <= s -> swap_ok s mask = true -> 0 <= i < 64 ->
  Z.testbit (stage s mask v) i = Z.testbit v (Z.lxor i s).
Proof.
  intros Hs Hok Hi. unfold swap_ok in Hok. rewrite forallb_forall in Hok.
  specialize (Hok i). cbn beta in Hok. unfold stage.
  rewrite Z.lor_spec, !Z.land_spec, Z.shiftr_spec, !u64_bit, Z.shiftl_spec, Z.lnot_spec by lia.
  assert ((i <? 64) = true) as -> by lia. cbn [andb].
  specialize (Hok (proj1 (list_elem_of_In _ _) (elem_zseq i 64 Hi))).
  destruct (Z.testbit mask i); cbn.
  - apply Z.eqb_eq in Hok as <-. by rewrite andb_true_r, andb_false_r, orb_false_r.
  - apply andb_true_iff in Hok as [_ Hok%Z.eqb_eq]. rewrite <- Hok.
    by rewrite andb_false_r, andb_true_r.
Qed.

Definition masks : list (Z * Z) :=
  [(32, 0x00000000FFFFFFFF); (16, 0x0000FFFF0000FFFF); (8, 0x00FF00FF00FF00FF);
   (4, 0x0F0F0F0F0F0F0F0F); (2, 0x3333333333333333); (1, 0x5555555555555555)].

Lemma rev64_stages v :
  rev64 v = fold_left (fun v sm => stage sm.1 sm.2 v) masks v.
Proof. reflexivity. Qed.

Lemma high_bits_lt a : 0 <= a -> (forall i, 64 <= i -> Z.testbit a i = false) -> in_u 64 a.
Proof.
  intros Ha Hb. assert (a = a mod 2 ^ 64) as E.
  { apply Z.bits_inj'. intros i Hi. destruct (Z.lt_ge_cases i 64).
    - by rewrite Z.mod_pow2_bits_low.
    - rewrite Z.mod_pow2_bits_high by lia. by apply Hb. }
  rewrite E. apply Z.mod_pos_bound. lia.
Qed.

Lemma stage_range s mask v : in_u 64 mask -> 0 <= s -> 0 <= v -> in_u 64 (stage s mask v).
Proof.
  intros Hm Hs Hv. unfold stage. apply high_bits_lt.
  - apply Z.lor_nonneg. split; apply Z.land_nonneg; [right; apply Hm|left; apply wrapu_range; lia].
  - intros i Hi. rewrite Z.lor_spec, !Z.land_spec, !u64_bit by lia.
    assert ((i <? 64) = false) as -> by lia. cbn. rewrite orb_false_r.
    unfold in_u in Hm. rewrite (Z.bits_above_log2 mask i), andb_false_r; [done|lia|].
    destruct (Z.eq_dec mask 0) as [->|]; [cbn; lia|].
    assert (Z.log2 mask < 64); [|lia]. apply Z.log2_lt_pow2; lia.
Qed.

Lemma masks_ok : Forall (fun sm => 0 <= sm.1 /\ in_u 64 sm.2 /\ swap_ok sm.1 sm.2 = true) masks.
Proof. repeat constructor; vm_compute; congruence. Qed.

Lemma stages_range l v : Forall (fun sm => 0 <= sm.1 /\ in_u 64 sm.2 /\ swap_ok sm.1 sm.2 = true) l ->
  in_u 64 v -> in_u 64 (fold_left (fun v sm => stage sm.1 sm.2 v) l v).
Proof.
  intros Hl. revert v. induction Hl as [|[s m] l (Hs & Hm & _) _ IH]; intros v Hv; [done|].
  cbn. apply IH, stage_range; [done|done|apply Hv].
Qed.

Lemma rev64_range v : in_u 64 v -> in_u 64 (rev64 v).
Proof. intros Hv. rewrite rev64_stages. by apply stages_range; [apply masks_ok|]. Qed.

Lemma lxor_range i s : 0 <= i < 64 -> 0 <= s < 64 -> 0 <= Z.lxor i s < 64.
Proof.
  intros Hi Hs. split; [apply Z.lxor_nonneg; lia|].
  destruct (Z.eq_dec (Z.lxor i s) 0) as [->|]; [lia|]. change 64 with (2 ^ 6).
  assert (0 <= Z.lxor i s) by (apply Z.lxor_nonneg; lia).
  apply Z.log2_lt_pow2; [lia|]. pose proof (Z.log2_lxor i s ltac:(lia) ltac:(lia)).
  assert (Z.log2 i <= Z.log2 63) by (apply Z.log2_le_mono; lia).
  assert (Z.log2 s <= Z.log2 63) by (apply Z.log2_le_mono; lia). change (Z.log2 63) with 5 in *. lia.
Qed.

(** [rev] reverses the 64 bits. *)
Lemma rev64_bit v i : 0 <= i < 64 -> Z.testbit (rev64 v) i = Z.testbit v (63 - i).
Proof.
  intros Hi. rewrite rev64_stages. unfold masks. cbn [fold_left fst snd].
  repeat (rewrite stage_bit; [|lia|reflexivity|repeat apply lxor_range; lia]).
  f_equal. rewrite !Z.lxor_assoc. change (Z.lxor 1 _) with 63.
  assert (forallb (fun i => Z.lxor i 63 =? 63 - i) (zseq 0 64) = true) as Hall by reflexivity.
  rewrite forallb_forall in Hall. apply Z.eqb_eq, Hall, list_elem_of_In, elem_zseq. done.
Qed.

Lemma rev64_involutive v : in_u 64 v -> rev64 (rev64 v) = v.
Proof.
  intros Hv. apply bits_inj64; [by apply rev64_range, rev64_range|done|].
  intros i Hi. rewrite !rev64_bit by lia. f_equal. lia.
Qed.

(** Setting the low [k] bits. *)
Lemma lor_ones x k : 0 <= k -> Z.lor x (Z.ones k) = x / 2 ^ k * 2 ^ k + (2 ^ k - 1).
Proof.
  intros Hk. rewrite <- Z.shiftr_div_pow2, <- Z.shiftl_mul_pow2 by done.
  replace (2 ^ k - 1) with (Z.ones k) by (rewrite Z.ones_equiv; lia).
  rewrite Z.add_nocarry_lxor.
  - apply Z.bits_inj'. intros i Hi. rewrite Z.lor_spec, Z.lxor_spec, Z.shiftl_spec by done.
    destruct (Z.lt_ge_cases i k).
    + rewrite Z.ones_spec_low by lia. rewrite (Z.testbit_neg_r _ (i - k)) by lia. by rewrite orb_true_r.
    + rewrite Z.ones_spec_high by lia. rewrite Z.shiftr_spec by lia. rewrite orb_false_r, xorb_false_r.
      f_equal. lia.
  - apply Z.bits_inj'. intros i Hi. rewrite Z.land_spec, Z.shiftl_spec, Z.bits_0 by done.
    destruct (Z.lt_ge_cases i k).
    + by rewrite Z.testbit_neg_r by lia.
    + by rewrite Z.ones_spec_high, andb_false_r by lia.
Qed.

(** The cursor in reversed order: the next one is the start of the next block
    of [2^(64-n)] reversed hashes. *)
Lemma next_cursor_rev v n : in_u 64 v -> 0 <= n <= 64 ->
  in_u 64 (next_cursor v (2 ^ n - 1)) /\
  rev64 (next_cursor v (2 ^ n - 1)) = ((rev64 v / 2 ^ (64 - n) + 1) * 2 ^ (64 - n)) mod 2 ^ 64.
Proof.
  intros Hv Hn. unfold next_cursor.
  assert (rev64 (Z.lor v (u64 (Z.lnot (2 ^ n - 1)))) = Z.lor (rev64 v) (Z.ones (64 - n))) as ->.
  { replace (2 ^ n - 1) with (Z.ones n) by (rewrite Z.ones_equiv; lia).
    pose proof (rev64_range v Hv) as Hr.
    apply bits_inj64.
    - apply rev64_range, high_bits_lt.
      + apply Z.lor_nonneg. split; [apply Hv|apply wrapu_range; lia].
      + intros i Hi. rewrite Z.lor_spec, u64_bit by lia. assert ((i <? 64) = false) as -> by lia.
        rewrite <- (Z.mod_small v (2 ^ 64)) by done. by rewrite Z.mod_pow2_bits_high by lia.
    - apply high_bits_lt.
      + apply Z.lor_nonneg. split; [apply Hr|]. rewrite Z.ones_equiv.
        assert (0 < 2 ^ (64 - n)) by (apply Z.pow_pos_nonneg; lia). lia.
      + intros i Hi. rewrite Z.lor_spec, Z.ones_spec_high by lia.
        rewrite <- (Z.mod_small (rev64 v) (2 ^ 64)) by done. by rewrite Z.mod_pow2_bits_high by lia.
    - intros i Hi. rewrite rev64_bit, !Z.lor_spec, rev64_bit, u64_bit, Z.lnot_spec by lia.
      assert ((63 - i <? 64) = true) as -> by lia. cbn. f_equal.
      destruct (Z.lt_ge_cases i (64 - n)).
      + by rewrite (Z.ones_spec_high n), Z.ones_spec_low by lia.
      + by rewrite (Z.ones_spec_low n), Z.ones_spec_high by lia. }
  rewrite lor_ones by lia. set (P := 2 ^ (64 - n)). set (x := rev64 v / P).
  assert (u64 (x * P + (P - 1) + 1) = ((x + 1) * P) mod 2 ^ 64) as ->.
  { unfold u64, wrapu. f_equal. lia. }
  assert (in_u 64 (((x + 1) * P) mod 2 ^ 64)) as Hr by (apply Z.mod_pos_bound; lia).
  split; [by apply rev64_range|by apply rev64_involutive].
Qed.

(** Two hashes share a bucket of a table of [2^n] when their reversals share a
    block of [2^(64-n)]. *)
Lemma same_bucket a b n : in_u 64 a -> in_u 64 b -> 0 <= n <= 64 ->
  rev64 a / 2 ^ (64 - n) = rev64 b / 2 ^ (64 - n) -> Z.land a (2 ^ n - 1) = Z.land b (2 ^ n - 1).
Proof.
  intros Ha Hb Hn E. replace (2 ^ n - 1) with (Z.ones n) by (rewrite Z.ones_equiv; lia).
  apply Z.bits_inj'. intros i Hi. rewrite !Z.land_spec.
  destruct (Z.lt_ge_cases i n); [|by rewrite Z.ones_spec_high, !andb_false_r by lia].
  rewrite Z.ones_spec_low, !andb_true_r by lia.
  assert (Z.testbit (rev64 a) (63 - i) = Z.testbit (rev64 b) (63 - i)) as Eb.
  { apply (f_equal (fun z => Z.testbit z (63 - i - (64 - n)))) in E.
    rewrite !Z.div_pow2_bits in E by lia. by replace (63 - i - (64 - n) + (64 - n)) with (63 - i) in E by lia. }
  rewrite !rev64_bit in Eb by lia. by replace (63 - (63 - i)) with i in Eb by lia.
Qed.

(** ** Coverage *)

Lemma mod_pow2_bits x k : 0 <= k -> (x mod 2 ^ k = 0 <-> forall i, 0 <= i < k -> Z.testbit x i = false).
Proof.
  intros Hk. split.
  - intros E i Hi. rewrite <- (Z.mod_pow2_bits_low x k i) by lia. by rewrite E, Z.bits_0.
  - intros Hb. apply Z.bits_inj'. intros i Hi. rewrite Z.bits_0. destruct (Z.lt_ge_cases i k).
    + rewrite Z.mod_pow2_bits_low by lia. by apply Hb.
    + by rewrite Z.mod_pow2_bits_high by lia.
Qed.

(** The test of the do-while loop: the bits of the cursor between the two masks. *)
Lemma between_masks v n0 n1 : in_u 64 v -> 0 <= n0 <= n1 -> n1 <= 64 -> rev64 v mod 2 ^ (64 - n1) = 0 ->
  (Z.land v (Z.lxor (2 ^ n0 - 1) (2 ^ n1 - 1)) = 0 <-> rev64 v mod 2 ^ (64 - n0) = 0).
Proof.
  intros Hv Hn Hn1 H1.
  replace (2 ^ n0 - 1) with (Z.ones n0) by (rewrite Z.ones_equiv; lia).
  replace (2 ^ n1 - 1) with (Z.ones n1) by (rewrite Z.ones_equiv; lia).
  rewrite mod_pow2_bits in H1 |- * by lia. split.
  - intros E i Hi. destruct (Z.lt_ge_cases i (64 - n1)); [apply H1; lia|].
    apply (f_equal (fun z => Z.testbit z (63 - i))) in E. rewrite Z.bits_0, Z.land_spec, Z.lxor_spec in E.
    rewrite (Z.ones_spec_high n0), (Z.ones_spec_low n1) in E by lia. cbn in E. rewrite andb_true_r in E.
    by rewrite rev64_bit by lia.
  - intros Hb. apply Z.bits_inj'. intros i Hi. rewrite Z.bits_0, Z.land_spec, Z.lxor_spec.
    destruct (Z.lt_ge_cases i n0).
    { rewrite !Z.ones_spec_low by lia. apply andb_false_r. }
    destruct (Z.lt_ge_cases i n1).
    2:{ rewrite !Z.ones_spec_high by lia. apply andb_false_r. }
    specialize (Hb (63 - i)). rewrite rev64_bit in Hb by lia.
    replace (63 - (63 - i)) with i in Hb by lia. by rewrite Hb by lia.
Qed.

(** Blocks of [P1] inside blocks of [Q * P1]. *)
Lemma next_block x P Q : 0 < P -> 0 < Q -> 0 <= x ->
  let z := (x / P + 1) * P in let w := (x / (Q * P) + 1) * (Q * P) in
  x < z <= w /\ (z < w -> z / (Q * P) = x / (Q * P) /\ z mod (Q * P) <> 0) /\ z / P = x / P + 1.
Proof.
  intros HP HQ Hx. cbn zeta.
  assert (z_div : (x / P + 1) * P / P = x / P + 1) by (apply Z.div_mul; lia).
  rewrite (Z.mul_comm Q P), <- !Z.div_div by lia. set (a := x / P) in *.
  assert (x < (a + 1) * P) by (unfold a; pose proof (Z.mod_pos_bound x P HP); pose proof (Z.div_mod x P); lia).
  pose proof (Z.div_mod a Q ltac:(lia)). pose proof (Z.mod_pos_bound a Q HQ).
  assert ((a + 1) * P <= (a / Q + 1) * (P * Q)) by nia.
  split; [lia|]. split; [|done]. intros Hlt. assert (a + 1 < (a / Q + 1) * Q) as Hlt' by nia.
  rewrite z_div. assert ((a + 1) / Q = a / Q) as E.
  { symmetry. apply (Z.div_unique_pos _ _ _ (a mod Q + 1)); lia. }
  split; [done|]. intros E0. apply Z.mod_divide in E0; [|nia]. destruct E0 as [q Eq].
  assert (a + 1 = q * Q) as Eq' by nia. rewrite Eq', Z.div_mul in E by lia. nia.
Qed.

Section Coverage.
Context {K V : Type} `{EqDecision K} `{DictType K}.
Implicit Types (d : dict K V) (ht : dictht K V) (e : K * V).

(** The reversed hash of an entry. *)
Definition pos e : Z := rev64 (dictHashKey e.1).

Lemma pos_range e : 0 <= pos e < 2 ^ 64.
Proof. apply rev64_range, hash_range. Qed.

(** The bucket at the cursor holds every entry of the block of the cursor. *)
Lemma bucket_cover ht t n v :
  ht_live ht t -> size ht = 2 ^ n -> 0 <= n <= 64 -> in_u 64 v ->
  exists c, bucket ht (Z.land v (sizemask ht)) = Some c /\ (forall e, e ∈ c -> e ∈ entries_ht ht) /\
    (forall e, e ∈ entries_ht ht -> pos e / 2 ^ (64 - n) = rev64 v / 2 ^ (64 - n) -> e ∈ c).
Proof.
  intros Hl Hs Hn Hv. pose proof (mask_range ht t v Hl) as Hr.
  destruct (bucket_live ht t _ Hl Hr) as (c & Eb & Hc). exists c. split; [done|].
  rewrite (entries_live _ _ Hl). split.
  - intros e He. apply elem_of_concat. by exists c; eauto using list_elem_of_lookup_2.
  - intros e He Hp. apply elem_of_concat in He as (c' & He & Hc').
    apply list_elem_of_lookup_1 in Hc' as [j Hj].
    pose proof (live_placed _ _ Hl j c' e Hj He) as Hpl.
    rewrite (live_mask _ _ Hl), Hs in *.
    rewrite (same_bucket (dictHashKey e.1) v n (hash_range _) Hv Hn Hp) in Hpl.
    rewrite Hpl, Nat2Z.id in Hc. congruence.
Qed.

Lemma scan_loop_cover ht t n0 n1 fuel : forall v,
  ht_live ht t -> size ht = 2 ^ n1 -> 0 <= n0 <= n1 -> n1 <= 64 -> in_u 64 v ->
  (rev64 v / 2 ^ (64 - n0) + 1) * 2 ^ (n1 - n0) - rev64 v / 2 ^ (64 - n1) <= Z.of_nat fuel ->
  exists des v', scan_loop fuel ht (2 ^ n0 - 1) (2 ^ n1 - 1) v = Some (des, v') /\ in_u 64 v' /\
    rev64 v' = ((rev64 v / 2 ^ (64 - n0) + 1) * 2 ^ (64 - n0)) mod 2 ^ 64 /\
    (forall e, e ∈ des -> e ∈ entries_ht ht) /\
    (forall e, e ∈ entries_ht ht ->
       rev64 v / 2 ^ (64 - n1) <= pos e / 2 ^ (64 - n1) ->
       pos e < (rev64 v / 2 ^ (64 - n0) + 1) * 2 ^ (64 - n0) -> e ∈ des).
Proof.
  induction fuel as [|fuel IH]; intros v Hl Hs Hn Hn1 Hv Hf; pose proof (rev64_range v Hv) as Hx;
    (assert (2 ^ (64 - n0) = 2 ^ (n1 - n0) * 2 ^ (64 - n1)) as EP by (rewrite <- Z.pow_add_r by lia; f_equal; lia));
    (assert (0 < 2 ^ (64 - n1)) as HP by (apply Z.pow_pos_nonneg; lia));
    (assert (0 < 2 ^ (n1 - n0)) as HQ by (apply Z.pow_pos_nonneg; lia));
    destruct (next_block (rev64 v) (2 ^ (64 - n1)) (2 ^ (n1 - n0)) HP HQ (proj1 Hx)) as (Hz & Hlt & Hdiv);
    rewrite <- EP in Hz, Hlt.
  { exfalso. rewrite EP in *. set (P1 := 2 ^ (64 - n1)) in *. set (Q := 2 ^ (n1 - n0)) in *. nia. }
  cbn [scan_loop]. destruct (bucket_cover ht t n1 v Hl Hs ltac:(lia) Hv) as (c & Eb & Hsub & Hcov).
  rewrite (live_mask _ _ Hl), Hs in Eb. rewrite Eb. cbn [mbind option_bind].
  destruct (next_cursor_rev v n1 Hv ltac:(lia)) as [Hv' Ev']. set (v1 := next_cursor v (2 ^ n1 - 1)) in *.
  clearbody v1. set (P1 := 2 ^ (64 - n1)) in *. set (P0 := 2 ^ (64 - n0)) in *. set (Q := 2 ^ (n1 - n0)) in *.
  set (w := (rev64 v / P0 + 1) * P0) in *. set (z := (rev64 v / P1 + 1) * P1) in *.
  assert (w <= 2 ^ 64) as Hw.
  { assert (2 ^ 64 = 2 ^ n0 * P0) as E64 by (unfold P0; rewrite <- Z.pow_add_r by lia; f_equal; lia).
    assert (0 < P0) as HP0 by nia.
    assert (rev64 v / P0 < 2 ^ n0); [|unfold w; nia]. apply Z.div_lt_upper_bound; [done|].
    destruct Hx. lia. }
  assert (rev64 v1 mod P1 = 0) as Hm1.
  { rewrite Ev'. unfold z. assert (2 ^ 64 = 2 ^ n1 * P1) as -> by (unfold P1; rewrite <- Z.pow_add_r by lia; f_equal; lia).
    rewrite Z.mul_mod_distr_r by lia. apply Z.mod_mul. lia. }
  pose proof (between_masks v1 n0 n1 Hv' ltac:(lia) Hn1 Hm1) as Hbm. fold P0 in Hbm.
  destruct (Z.eq_dec z w) as [Ezw|Hzw].
  - (* the last block of the larger one *)
    assert (Z.land v1 (Z.lxor (2 ^ n0 - 1) (2 ^ n1 - 1)) = 0) as ->.
    { apply Hbm. rewrite Ev', Ezw. unfold w.
      assert (2 ^ 64 = 2 ^ n0 * P0) as -> by (unfold P0; rewrite <- Z.pow_add_r by lia; f_equal; lia).
      rewrite Z.mul_mod_distr_r by nia. apply Z.mod_mul. nia. }
    rewrite Z.eqb_refl. cbn [negb]. exists c, v1. split; [done|]. split_and!; [done|by rewrite Ev', Ezw|done|].
    intros e He H1 H2. apply Hcov; [done|]. pose proof (Z.div_lt_upper_bound (pos e) P1 (rev64 v / P1 + 1) HP).
    unfold z in Ezw. lia.
  - assert (z < w) as Hlt' by lia. destruct (Hlt Hlt') as [Hq Hne].
    assert (rev64 v1 = z) as Ez by (rewrite Ev'; destruct Hx; apply Z.mod_small; lia).
    destruct (Z.eqb_spec (Z.land v1 (Z.lxor (2 ^ n0 - 1) (2 ^ n1 - 1))) 0) as [E0|_].
    { exfalso. apply Hbm in E0. by rewrite Ez in E0. }
    cbn [negb]. destruct (IH v1) as (des & v' & -> & Hv2 & Er & Hsub2 & Hcov2); [done..| |].
    { rewrite Ez, Hq, Hdiv. lia. }
    cbn [mbind option_bind]. exists (c ++ des), v'. split; [done|]. rewrite Ez, Hq in *.
    split_and!; [done|done| |].
    + intros e [He|He]%elem_of_app; auto.
    + intros e He H1 H2. apply elem_of_app. destruct (Z.eq_dec (pos e / P1) (rev64 v / P1)); [left; auto|].
      right. apply Hcov2; [done|rewrite Hdiv; lia|done].
Qed.

(** The end of the block of [2^(64-n)] reversed hashes that contains the cursor. *)
Definition block_end (v n : Z) : Z := (rev64 v / 2 ^ (64 - n) + 1) * 2 ^ (64 - n).

Lemma block_end_range v n : in_u 64 v -> 0 <= n <= 64 -> rev64 v < block_end v n <= 2 ^ 64.
Proof.
  intros Hv Hn. destruct (rev64_range v Hv) as [Hx1 Hx2]. unfold block_end.
  assert (0 < 2 ^ (64 - n)) as HP by (apply Z.pow_pos_nonneg; lia).
  assert (2 ^ 64 = 2 ^ n * 2 ^ (64 - n)) as E64 by (rewrite <- Z.pow_add_r by lia; f_equal; lia).
  set (P := 2 ^ (64 - n)) in *. pose proof (Z.div_mod (rev64 v) P ltac:(lia)).
  pose proof (Z.mod_pos_bound (rev64 v) P HP). split; [lia|].
  assert (rev64 v / P < 2 ^ n); [apply Z.div_lt_upper_bound; lia|]. nia.
Qed.

(** A table no larger than [2^N]. *)
Definition small_tables (N : Z) d : Prop := size (ht0 d) <= 2 ^ N /\ size (ht1 d) <= 2 ^ N.

Lemma live_pow2 ht t N : ht_live ht t -> size ht <= 2 ^ N -> 0 <= N ->
  exists n, size ht = 2 ^ n /\ 0 <= n <= N /\ sizemask ht = 2 ^ n - 1.
Proof.
  intros Hl Hle HN. destruct (live_size _ _ Hl) as (n & Hn & E). exists n. rewrite (live_mask _ _ Hl), E.
  split; [done|]. split; [|done]. split; [lia|]. rewrite E in Hle. apply Z.pow_le_mono_r_iff in Hle; lia.
Qed.

(** A position between [x] and the end of its block of size [P] lies in that block. *)
Lemma same_block P x y : 0 < P -> x <= y < (x / P + 1) * P -> y / P = x / P.
Proof.
  intros HP Hy. pose proof (Z.div_le_mono x y P HP ltac:(lia)).
  pose proof (Z.div_lt_upper_bound y P (x / P + 1) HP). lia.
Qed.

(** A block of the smaller table holds at most [2^n1] buckets of the larger one. *)
Lemma scan_fuel x n0 n1 : 0 <= n0 <= n1 -> n1 <= 62 -> 0 <= x ->
  (x / 2 ^ (64 - n0) + 1) * 2 ^ (n1 - n0) - x / 2 ^ (64 - n1) <= Z.of_nat (S (Z.to_nat (2 ^ n1))).
Proof.
  intros Hn Hn1 Hx. assert (2 ^ n1 = 2 ^ n0 * 2 ^ (n1 - n0)) as En by (rewrite <- Z.pow_add_r by lia; f_equal; lia).
  assert (0 < 2 ^ n0) by (apply Z.pow_pos_nonneg; lia).
  assert (2 ^ (64 - n0) = 2 ^ (n1 - n0) * 2 ^ (64 - n1)) as EP by (rewrite <- Z.pow_add_r by lia; f_equal; lia).
  assert (0 < 2 ^ (n1 - n0)) by (apply Z.pow_pos_nonneg; lia).
  assert (0 < 2 ^ (64 - n1)) by (apply Z.pow_pos_nonneg; lia).
  rewrite EP, (Z.mul_comm (2 ^ (n1 - n0)) (2 ^ (64 - n1))), <- Z.div_div by lia.
  set (q := x / 2 ^ (64 - n1)). set (Q := 2 ^ (n1 - n0)) in *.
  pose proof (Z.div_mod q Q ltac:(lia)). pose proof (Z.mod_pos_bound q Q ltac:(lia)).
  assert (Q <= 2 ^ n1) by nia. lia.
Qed.

(** The call in the middle of a rehash: a bucket of the smaller table [a] and its
    expansions in the larger table [b]. *)
Lemma scan_two_tables a b ta tb v N :
  ht_live a ta -> ht_live b tb -> size a <= size b -> size b <= 2 ^ N -> 0 <= N <= 62 -> in_u 64 v ->
  exists des v' n, (de ← bucket a (Z.land v (sizemask a));
    '(des, v') ← scan_loop (S (Z.to_nat (size b))) b (sizemask a) (sizemask b) v; Some (de ++ des, v'))
    = Some (des, v') /\ 0 <= n <= N /\ in_u 64 v' /\ rev64 v' = block_end v n mod 2 ^ 64 /\
    (forall e, e ∈ des -> e ∈ entries_ht a \/ e ∈ entries_ht b) /\
    (forall e, e ∈ entries_ht a \/ e ∈ entries_ht b -> rev64 v <= pos e < block_end v n -> e ∈ des).
Proof.
  intros Ha Hb Hab HbN HN Hv. unfold block_end.
  destruct (live_pow2 a ta N Ha ltac:(lia) ltac:(lia)) as (n0 & Es0 & Hn0 & Em0).
  destruct (live_pow2 b tb N Hb HbN ltac:(lia)) as (n1 & Es1 & Hn1 & Em1).
  assert (n0 <= n1) by (rewrite Es0, Es1 in Hab; apply Z.pow_le_mono_r_iff in Hab; lia).
  assert (0 < 2 ^ (64 - n1)) by (apply Z.pow_pos_nonneg; lia).
  destruct (bucket_cover a ta n0 v Ha Es0 ltac:(lia) Hv) as (c & -> & Hsub & Hcov). cbn [mbind option_bind].
  destruct (scan_loop_cover b tb n0 n1 (S (Z.to_nat (size b))) v Hb Es1) as (des & v' & E & Hv' & Er & Hsub' & Hcov');
    [lia|lia|done|rewrite Es1; apply scan_fuel; [lia|lia|apply (rev64_range v Hv)]|].
  rewrite Em0, Em1, E. cbn [mbind option_bind]. exists (c ++ des), v', n0.
  split; [done|]. split_and!; [lia|lia|done|done| |].
  - intros e [He|He]%elem_of_app; auto.
  - intros e [He|He] Hp; apply elem_of_app; [left|right].
    + apply Hcov; [done|]. apply same_block; [apply Z.pow_pos_nonneg; lia|done].
    + apply Hcov'; [done| |lia]. apply Z.div_le_mono; lia.
Qed.

(** One call of dictScan: it visits every entry from the cursor to the end of its
    block, and the next cursor is that end. *)
Lemma scan_spec d v N :
  dict_wf d -> zlen (entries d) < DICT_BOUND -> entries d <> [] -> in_u 64 v -> small_tables N d -> 0 <= N <= 62 ->
  exists des v' n, dictScan d v = Some (des, v') /\ 0 <= n <= N /\ in_u 64 v' /\
    rev64 v' = block_end v n mod 2 ^ 64 /\
    (forall e, e ∈ des -> e ∈ entries d) /\
    (forall e, e ∈ entries d -> rev64 v <= pos e < block_end v n -> e ∈ des).
Proof.
  intros Hwf Hb Hne Hv [Hs0 Hs1] HN. unfold dictScan.
  destruct (size_entries d Hwf Hb) as [-> _].
  destruct (Z.eqb_spec (zlen (entries d)) 0) as [E%zlen_0_nil|_]; [done|].
  destruct (wf_phase d Hwf) as [_ Hq0 Hq1|t Hi Hl Hq1|t0 t1 Hi Hl0 Hl1 Hnes Hlow].
  - destruct Hne. unfold entries. by rewrite Hq0, Hq1.
  - rewrite (proj2 (rehashing_false d) Hi). cbn [negb].
    destruct (live_pow2 _ _ N Hl Hs0 ltac:(lia)) as (n & Es & Hn & Em).
    destruct (bucket_cover _ _ n v Hl Es ltac:(lia) Hv) as (c & -> & Hsub & Hcov). cbn [mbind option_bind].
    destruct (next_cursor_rev v n Hv ltac:(lia)) as [Hv' Ev']. rewrite Em.
    assert (entries d = entries_ht (ht0 d)) as -> by (unfold entries; rewrite Hq1; apply app_nil_r).
    eexists c, _, n. split; [done|]. split_and!; [lia|lia|done|done|done|].
    intros e He Hp. apply Hcov; [done|]. apply same_block; [apply Z.pow_pos_nonneg; lia|done].
  - assert (dictIsRehashing d = true) as ->.
    { unfold dictIsRehashing. assert ((rehashidx d =? -1) = false) as -> by lia. done. }
    assert (forall e, e ∈ entries d <-> e ∈ entries_ht (ht0 d) \/ e ∈ entries_ht (ht1 d)) as Hent
      by (intros e; unfold entries; apply elem_of_app).
    cbn [negb]. destruct (Z.ltb_spec (size (ht1 d)) (size (ht0 d))).
    + destruct (scan_two_tables _ _ _ _ v N Hl1 Hl0 ltac:(lia) Hs0 HN Hv) as (des & v' & n & E & H1 & H2 & H3 & H4 & H5).
      exists des, v', n. split_and!; try done; try lia; intros e He; [apply Hent, or_comm, H4, He|apply H5, or_comm, Hent, He].
    + destruct (scan_two_tables _ _ _ _ v N Hl0 Hl1 ltac:(lia) Hs1 HN Hv) as (des & v' & n & E & H1 & H2 & H3 & H4 & H5).
      exists des, v', n. split_and!; try done; try lia; intros e He; [apply Hent, H4, He|apply H5, Hent, He].
Qed.

Lemma rev64_0 v : in_u 64 v -> (rev64 v = 0 <-> v = 0).
Proof.
  intros Hv. split; [|by intros ->]. intros E. rewrite <- (rev64_involutive v Hv), E. done.
Qed.

(** The keys of a state the scan can meet. *)
Definition scannable (N : Z) d : Prop :=
  dict_wf d /\ zlen (entries d) < DICT_BOUND /\ small_tables N d.

Lemma scan_run_cover N ds : forall v,
  0 <= N <= 62 -> Forall (scannable N) ds -> in_u 64 v -> rev64 v mod 2 ^ (64 - N) = 0 ->
  2 ^ N - rev64 v / 2 ^ (64 - N) <= zlen ds ->
  exists em, scan_run ds v = Some (em, true) /\
    (forall e, e ∈ em -> exists d, d ∈ ds /\ e ∈ entries d) /\
    (forall k, (forall d, d ∈ ds -> k ∈ (entries d).*1) -> rev64 v <= rev64 (dictHashKey k) -> k ∈ em.*1).
Proof.
  induction ds as [|d ds IH]; intros v HN Hds Hv Hmod Hlen; destruct (rev64_range v Hv) as [Hx0 Hx1].
  all: assert (0 < 2 ^ (64 - N)) as HP by (apply Z.pow_pos_nonneg; lia).
  all: assert (2 ^ 64 = 2 ^ N * 2 ^ (64 - N)) as E64 by (rewrite <- Z.pow_add_r by lia; f_equal; lia).
  { exfalso. rewrite zlen_nil in Hlen.
    assert (rev64 v / 2 ^ (64 - N) < 2 ^ N); [apply Z.div_lt_upper_bound; lia|lia]. }
  apply Forall_cons in Hds as [(Hwf & Hb & Hsm) Hds]. rewrite zlen_cons in Hlen. cbn [scan_run].
  destruct (decide (entries d = [])) as [Hemp|Hne].
  { assert (dictScan d v = Some ([], 0)) as ->.
    { unfold dictScan. destruct (size_entries d Hwf Hb) as [-> _]. by rewrite Hemp. }
    cbn. exists []. split; [done|]. split; [by intros e ?%elem_of_nil|].
    intros k Hk _. specialize (Hk d (list_elem_of_here _ _)). by rewrite Hemp in Hk. }
  destruct (scan_spec d v N Hwf Hb Hne Hv Hsm HN) as (des & v' & n & -> & Hn & Hv' & Er & Hsub & Hcov).
  cbn [mbind option_bind]. pose proof (block_end_range v n Hv ltac:(lia)) as Hend.
  assert (forall k, k ∈ (entries d).*1 -> rev64 v <= rev64 (dictHashKey k) < block_end v n -> k ∈ des.*1) as Hk.
  { intros k (e & -> & He)%list_elem_of_fmap Hp. apply list_elem_of_fmap_2. by apply Hcov. }
  destruct (Z.eqb_spec v' 0) as [->|Hv0].
  - exists des. split; [done|]. split.
    + intros e He. exists d. split; [left|by apply Hsub].
    + intros k Hin Hp. apply Hk; [apply Hin; left|]. split; [done|].
      change (rev64 0) with 0 in Er.
      assert (block_end v n = 2 ^ 64) as ->.
      { destruct (Z.eq_dec (block_end v n) (2 ^ 64)); [done|]. rewrite Z.mod_small in Er; lia. }
      apply (rev64_range _ (hash_range k)).
  - assert (block_end v n < 2 ^ 64) as Hlt.
    { destruct (Z.eq_dec (block_end v n) (2 ^ 64)) as [E|]; [|lia]. exfalso.
      rewrite E, Z.mod_same in Er by lia. apply (rev64_0 v' Hv') in Er. done. }
    rewrite Z.mod_small in Er by lia.
    assert (rev64 v' mod 2 ^ (64 - N) = 0) as Hmod'.
    { rewrite Er. unfold block_end. assert (2 ^ (64 - n) = 2 ^ (N - n) * 2 ^ (64 - N)) as ->
        by (rewrite <- Z.pow_add_r by lia; f_equal; lia). rewrite Z.mul_assoc. apply Z.mod_mul. lia. }
    destruct (IH v' HN Hds Hv' Hmod') as (em & -> & Hsub' & Hcov').
    { assert (rev64 v / 2 ^ (64 - N) < rev64 v' / 2 ^ (64 - N)); [|lia].
      apply Z.div_exact in Hmod, Hmod'; [|lia..]. nia. }
    cbn [mbind option_bind]. exists (des ++ em). split; [done|]. split.
    + intros e [He|He]%elem_of_app; [exists d; split; [left|by apply Hsub]|].
      destruct (Hsub' e He) as (d' & Hd' & He'). exists d'. split; [by right|done].
    + intros k Hin Hp. rewrite fmap_app, elem_of_app.
      destruct (Z.lt_ge_cases (rev64 (dictHashKey k)) (block_end v n)); [left|right].
      * apply Hk; [apply Hin; left|lia].
      * apply Hcov'; [|lia]. intros d' Hd'. apply Hin. by right.
Qed.

End Coverage.

(** ** Properties *)

(** C12. A full scan misses nothing: take any sequence of states of the
    dictionary, each well formed and with tables of at most 2^N buckets,
    however it was resized, rehashed or updated between the calls.  If there
    is a state for each of 2^N calls, scanning from cursor 0 comes back to
    cursor 0, every key present in all the states has been returned, and
    everything returned was in the dictionary at the time. *)
Theorem dictScan_complete {K V : Type} `{EqDecision K} `{DictType K} N (ds : list (dict K V)) :
  0 <= N <= 62 -> Forall (scannable N) ds -> 2 ^ N <= zlen ds ->
  exists em, scan_run ds 0 = Some (em, true) /\
    (forall e, e ∈ em -> exists d, d ∈ ds /\ e ∈ entries d) /\
    (forall k, (forall d, d ∈ ds -> k ∈ (entries d).*1) -> k ∈ em.*1).
Proof.
  intros HN Hds Hlen. assert (rev64 0 = 0) as E0 by done.
  destruct (scan_run_cover N ds 0 HN Hds) as (em & E & Hsub & Hcov); [done|by rewrite E0|by rewrite E0, Z.div_0_l, Z.sub_0_r by lia|].
  exists em. split; [done|]. split; [done|]. intros k Hk. apply Hcov; [done|]. rewrite E0.
  apply (rev64_range _ (hash_range k)).
Qed.

(** Four entries in a table of 4 buckets; then a fifth makes it grow to 8. *)
Definition demo_small : dict Z Z :=
  default dictInit (fst <$> dict_run dictInit [DAdd true 0 1; DAdd true 1 2; DAdd true 2 3; DAdd true 3 4]).

Lemma demo_scannable : scannable 3 demo_small /\ scannable 3 demo_rehash.
Proof.
  assert (forall ops, Forall (@dict_op_ok Z Z) ops -> zlen ops < DICT_BOUND ->
    dict_wf (default dictInit (fst <$> dict_run dictInit ops))) as Hwf.
  { intros ops Hok Hb. destruct (dict_run_refines ops dictInit init_wf Hok Hb) as (d & -> & Hwf & _). done. }
  split; (split; [apply Hwf; [repeat constructor|vm_compute; congruence]|]); vm_compute; repeat split; congruence.
Qed.

Lemma dictScan_complete_witness :
  exists em, scan_run (demo_small :: replicate 7 demo_rehash) 0 = Some (em, true) /\
    (forall e, e ∈ em -> exists d, d ∈ demo_small :: replicate 7 demo_rehash /\ e ∈ entries d) /\
    (forall k, (forall d, d ∈ demo_small :: replicate 7 demo_rehash -> k ∈ (entries d).*1) -> k ∈ em.*1).
Proof.
  refine (dictScan_complete 3 (demo_small :: replicate 7 demo_rehash) _ _ _); [lia| |vm_compute; congruence].
  constructor; [apply demo_scannable|]. apply Forall_replicate, demo_scannable.
Defined.

(** The parallel swaps of rev reverse the 64 bits of a word. *)
Theorem rev64_reverses v i :
  0 <= i < 64 -> Z.testbit (rev64 v) i = Z.testbit v (63 - i).
Proof. apply rev64_bit. Qed.

Lemma rev64_reverses_witness : Z.testbit (rev64 8) 60 = Z.testbit 8 3.
Proof. exact (rev64_reverses 8 60 ltac:(lia)). Defined.
