(* ===== verification/DictMap.v ===== *)
(** * The contract of dict.c for its clients

    [dict_repr d m]: the dictionary [d] is well formed and holds the finite map
    [m].  Each operation a client calls is specified on [m] only, so that the
    theorems about the client do not depend on tables and rehashing. *)

From stdpp Require Import base list numbers option gmap sets.
From Stdlib Require Import ZArith Lia.
From S2P Require Import Prelude Dict.

(** ** Shrinking a sparse table

    The clients shrink a dictionary after a deletion when less than a tenth of
    its buckets are used (server.c). *)
Definition HASHTABLE_MIN_FILL : Z := 10.

Definition dictSlots {K V} (d : dict K V) : Z := size (ht0 d) + size (ht1 d).

Definition htNeedsResize {K V} (d : dict K V) : bool :=
  let size := dictSlots d in
  let used := dictSize d in
  (DICT_HT_INITIAL_SIZE <? size) && (used * 100 / size <? HASHTABLE_MIN_FILL).

(** [if (htNeedsResize(d)) dictResize(d);] *)
Definition resize_if_needed {K V} (dict_can_resize : bool) (d : dict K V) : option (dict K V) :=
  if htNeedsResize d then '(d, _) ← dictResize dict_can_resize d; Some d else Some d.

Section Contract.
Context {K V : Type} `{Countable K} `{DictType K}.
Implicit Types (d : dict K V) (m : gmap K V).

Definition dict_repr d m : Prop := dict_wf d /\ to_map d = m.

(** The number of entries the 64 bit counters are proved for. *)
Definition fits m : Prop := Z.of_nat (base.size m) + 1 < DICT_BOUND.

Lemma repr_entries d m : dict_repr d m -> zlen (entries d) = Z.of_nat (base.size m).
Proof.
  intros [Hwf <-]. unfold to_map, zlen. f_equal.
  rewrite <- (length_map_to_list (list_to_map (entries d))). symmetry.
  apply Permutation_length. apply map_to_list_to_map, Hwf.
Qed.

Lemma repr_bound d m : dict_repr d m -> fits m -> zlen (entries d) + 1 < DICT_BOUND.
Proof. intros Hr Hf. by rewrite (repr_entries _ _ Hr). Qed.

Lemma repr_create : dict_repr (@dictCreate K V) ∅.
Proof. split; [apply init_wf|done]. Qed.

Lemma repr_find d m k : dict_repr d m -> fits m ->
  exists d', dictFind d k = Some (d', (fun v => (k, v)) <$> m !! k) /\ dict_repr d' m.
Proof.
  intros Hr Hf. pose proof (repr_bound _ _ Hr Hf) as Hb. destruct Hr as [Hwf <-].
  destruct (dict_find_spec d k Hwf) as (d' & r & E & Hwf' & _ & He & Hm); [lia|]. exists d'.
  split; [|split; [done|by apply to_map_perm]]. rewrite E. do 2 f_equal. destruct r as [[k' v]|].
  - destruct Hm as [Hk Hin]. cbn in Hk. subst k'. by rewrite (proj2 (to_map_Some d k v Hwf)).
  - by rewrite (proj2 (to_map_None d k)).
Qed.

Lemma repr_add can d m k v : dict_repr d m -> fits m -> m !! k = None ->
  exists d', dictAdd can d k v = Some (d', true) /\ dict_repr d' (<[k := v]> m).
Proof.
  intros Hr Hf Hk. pose proof (repr_bound _ _ Hr Hf) as Hb. destruct Hr as [Hwf <-].
  destruct (run_op_refines d (DAdd can k v) Hwf I Hb) as (d' & E & Hwf' & Hm & _).
  cbn [run_dict_op abs_dict_op] in *. rewrite Hk in *. cbn in E, Hm. exists d'. split; [|by split].
  destruct (dictAdd can d k v) as [[d1 b]|]; [|done]. cbn in E. congruence.
Qed.

Lemma repr_addraw can d m k v : dict_repr d m -> fits m ->
  exists d' r, dictAddRaw can d k v = Some (d', r) /\
    match m !! k with
    | None => (exists i, r = Slot i) /\ dict_repr d' (<[k := v]> m)
    | Some w => r = Exists (k, w) /\ dict_repr d' m
    end.
Proof.
  intros Hr Hf. pose proof (repr_bound _ _ Hr Hf) as Hb. destruct Hr as [Hwf <-].
  destruct (addraw_spec can d k v Hwf Hb) as (d' & r & E & Hwf' & _ & _ & Hm). exists d', r. split; [done|].
  destruct r as [i|[k' w]|]; [| |done].
  - destruct Hm as [Hk He]. rewrite (proj2 (to_map_None d k)) by done. split; [by exists i|]. split; [done|]. by rewrite (to_map_perm _ _ Hwf' He).
  - destruct Hm as (Hin & Hk & He). cbn in Hk. subst k'. rewrite (proj2 (to_map_Some d k w Hwf)) by done.
    split; [done|]. split; [done|]. by apply to_map_perm.
Qed.

Lemma repr_unlink d m k : dict_repr d m -> fits m ->
  exists d', dictUnlink d k = Some (d', (fun v => (k, v)) <$> m !! k) /\ dict_repr d' (delete k m).
Proof.
  intros Hr Hf. pose proof (repr_bound _ _ Hr Hf) as Hb. destruct Hr as [Hwf <-].
  destruct (delete_spec d k Hwf) as (d' & r & E & Hwf' & _ & Hm); [lia|]. exists d'. unfold dictUnlink. rewrite E.
  destruct r as [[k' v]|].
  - destruct Hm as [Hk He]. cbn in Hk. subst k'. pose proof (wf_nodup d Hwf) as Hn. rewrite He in Hn. cbn in Hn.
    apply NoDup_cons in Hn as [Hn _].
    rewrite (proj2 (to_map_Some d k v Hwf)) by (rewrite He; apply elem_of_cons; by left). split; [done|]. split; [done|].
    rewrite (to_map_perm _ _ Hwf He). cbn. rewrite delete_insert_id; [done|]. by apply to_map_None.
  - destruct Hm as [Hk He]. rewrite (proj2 (to_map_None d k)) by done. split; [done|]. split; [done|].
    rewrite delete_id by (by apply to_map_None). by apply to_map_perm.
Qed.

Lemma repr_delete d m k : dict_repr d m -> fits m ->
  exists d' b, dictDelete d k = Some (d', b) /\ dict_repr d' (delete k m).
Proof.
  intros Hr Hf. destruct (repr_unlink d m k Hr Hf) as (d' & E & Hr'). unfold dictUnlink in E. unfold dictDelete. rewrite E.
  cbn [mbind option_bind]. by eexists d', _.
Qed.

(** The answer of a deletion. *)
Lemma repr_delete_dom d m k : dict_repr d m -> fits m ->
  exists d', dictDelete d k = Some (d', bool_decide (k ∈ dom m)) /\ dict_repr d' (delete k m).
Proof.
  intros Hr Hf. destruct (repr_unlink d m k Hr Hf) as (d' & E & Hr'). unfold dictUnlink in E. unfold dictDelete. rewrite E.
  cbn [mbind option_bind]. exists d'. split; [|done].
  rewrite (bool_decide_ext (k ∈ dom m) (is_Some (m !! k))) by apply elem_of_dom. by destruct (m !! k).
Qed.

Lemma fits_delete m k : fits m -> fits (delete k m).
Proof. unfold fits. pose proof (map_subseteq_size _ _ (delete_subseteq m k)). lia. Qed.

Lemma nonempty_table d m k v : dict_repr d m -> m !! k = Some v -> ht0 d <> dictReset.
Proof.
  intros [Hwf <-] Hk. apply to_map_Some in Hk; [|done]. unfold entries in Hk.
  destruct (wf_phase d Hwf) as [_ Hr0 Hr1|t _ Hl _|t0 t1 _ Hl _ _ _]; [|intros E; rewrite E in Hl; by destruct Hl..].
  rewrite Hr0, Hr1 in Hk. by apply elem_of_nil in Hk.
Qed.

Lemma repr_set d m k v v' : dict_repr d m -> m !! k = Some v ->
  exists d', set_existing d k v' = Some d' /\ dict_repr d' (<[k := v']> m).
Proof.
  intros Hr Hk. pose proof (nonempty_table d m k v Hr Hk) as Hne. destruct Hr as [Hwf <-].
  apply to_map_Some in Hk as Hin; [|done].
  destruct (set_existing_spec d k v' (k, v) Hwf Hne Hin eq_refl) as (d' & rest & E & Hwf' & _ & E1 & E2).
  exists d'. split; [done|]. split; [done|]. rewrite (to_map_perm _ _ Hwf' E2), (to_map_perm _ _ Hwf E1). cbn.
  by rewrite insert_insert_eq.
Qed.

Lemma repr_resize can d m : dict_repr d m -> fits m -> exists d' b, dictResize can d = Some (d', b) /\ dict_repr d' m.
Proof.
  intros Hr Hf. pose proof (repr_bound _ _ Hr Hf) as Hb. destruct Hr as [Hwf <-].
  destruct (run_op_refines d (DResize can) Hwf I Hb) as (d' & E & Hwf' & Hm & _).
  cbn [run_dict_op abs_dict_op] in *. destruct (dictResize can d) as [[d1 b]|]; [|done]. cbn in *.
  exists d1, b. split; [done|]. injection E as ->. done.
Qed.

Lemma repr_resize_if can d m : dict_repr d m -> fits m -> exists d', resize_if_needed can d = Some d' /\ dict_repr d' m.
Proof.
  intros Hd Hf. unfold resize_if_needed. destruct (htNeedsResize d); [|by exists d].
  destruct (repr_resize can d m Hd Hf) as (d' & b & -> & Hd'). by exists d'.
Qed.

End Contract.

(** A hash of byte strings, for concrete runs of the clients. *)
Definition bytes_dict_type : DictType bytes.
Proof. refine {| dictHashKey := fun k => fold_left (fun a c => (a * 33 + c) mod 4294967296) k 5381 mod 2 ^ 64 |}. intros k. unfold in_u. apply Z.mod_pos_bound. lia. Defined.
