(* ===== verification/DictIter.v ===== *)
(** Iterators and random entries of dict.c.

    An entry is named by its key, which is unique in the dictionary: the pointers
    [entry] and [nextEntry] of an iterator are keys, and to follow one is to look
    the key up in the chain the iterator stands on, in the current state of the
    dictionary.  [None] is a pointer to an entry that has been released. *)
From stdpp Require Import base list numbers option gmap sets.
From Stdlib Require Import ZArith Lia.
From S2P Require Import Prelude Dict.

Section Iter.
Context {K V : Type} `{EqDecision K} `{DictType K}.
Implicit Types (d : dict K V) (ht : dictht K V) (c : list (K * V)).

(** ** Fingerprint *)

(** Thomas Wang's hash of a 64 bit integer, on a signed type that wraps around. *)
Definition wang (hash : Z) : Z :=
  let hash := i64 (Z.lnot hash + i64 (Z.shiftl hash 21)) in
  let hash := Z.lxor hash (Z.shiftr hash 24) in
  let hash := i64 (i64 (hash + i64 (Z.shiftl hash 3)) + i64 (Z.shiftl hash 8)) in
  let hash := Z.lxor hash (Z.shiftr hash 14) in
  let hash := i64 (i64 (hash + i64 (Z.shiftl hash 2)) + i64 (Z.shiftl hash 4)) in
  let hash := Z.lxor hash (Z.shiftr hash 28) in
  i64 (hash + i64 (Z.shiftl hash 31)).

(** [a0] and [a1] are the addresses of the two tables. *)
Definition dictFingerprint (a0 a1 : Z) d : Z :=
  fold_left (fun hash n => wang (i64 (hash + i64 n)))
    [a0; size (ht0 d); used (ht0 d); a1; size (ht1 d); used (ht1 d)] 0.

(** ** Iterators *)

Record dictIterator := mk_dictIter {
  it_table : Z; it_index : Z; it_safe : bool;
  it_entry : option K; it_nextEntry : option K; it_fingerprint : Z
}.

Definition dictGetIterator : dictIterator := mk_dictIter 0 (-1) false None None 0.
Definition dictGetSafeIterator : dictIterator := mk_dictIter 0 (-1) true None None 0.

Definition ht_at d (table : Z) : dictht K V := if table =? 0 then ht0 d else ht1 d.
Definition set_iterators (n : Z) d : dict K V := mk_dict (ht0 d) (ht1 d) (rehashidx d) n.

(** The chain from the entry of a key on. *)
Fixpoint chain_from (key : K) c : option (list (K * V)) :=
  match c with
  | [] => None
  | he :: c' => if bool_decide (key = he.1) then Some c else chain_from key c'
  end.

(** [if (iter->entry == NULL) ...]: the step to the next chain; [None] in the
    iterator's place is the end of the iteration.  The two results are the
    dictionary and the iterator, whose entry is the head of the chain. *)
Definition next_chain (a0 a1 : Z) d (it : dictIterator) : option (dict K V * dictIterator * bool) :=
  let first := (it_index it =? -1) && (it_table it =? 0) in
  let d' := if first && it_safe it then set_iterators (iterators d + 1) d else d in
  let fp := if first && negb (it_safe it) then dictFingerprint a0 a1 d else it_fingerprint it in
  let index := it_index it + 1 in
  let stop it := Some (d', it, false) in
  let go table index :=
    c ← bucket (ht_at d' table) index;
    Some (d', mk_dictIter table index (it_safe it) (fst <$> head c) (it_nextEntry it) fp, true) in
  if index >=? size (ht_at d' (it_table it)) then
    if dictIsRehashing d' && (it_table it =? 0) then go 1 0
    else stop (mk_dictIter (it_table it) index (it_safe it) None (it_nextEntry it) fp)
  else go (it_table it) index.

(** One more chain is left behind in every round but the first. *)
Fixpoint next_loop (fuel : nat) (a0 a1 : Z) d (it : dictIterator) : option (dict K V * dictIterator * option (K * V)) :=
  match fuel with
  | O => None
  | S fuel =>
      '(d, it, more) ←
        match it_entry it with
        | None => next_chain a0 a1 d it
        | Some _ => Some (d, mk_dictIter (it_table it) (it_index it) (it_safe it) (it_nextEntry it) (it_nextEntry it) (it_fingerprint it), true)
        end;
      if negb more then Some (d, it, None) else
      match it_entry it with
      | None => next_loop fuel a0 a1 d it
      | Some key =>
          c ← bucket (ht_at d (it_table it)) (it_index it);
          c ← chain_from key c;
          he ← head c;
          Some (d, mk_dictIter (it_table it) (it_index it) (it_safe it) (Some key) (fst <$> head (tail c)) (it_fingerprint it), Some he)
      end
  end.

Definition dictNext (a0 a1 : Z) d (it : dictIterator) : option (dict K V * dictIterator * option (K * V)) :=
  next_loop (S (S (Z.to_nat (size (ht0 d) + size (ht1 d))))) a0 a1 d it.

(** [None] is the failed assertion on the fingerprint. *)
Definition dictReleaseIterator (a0 a1 : Z) d (it : dictIterator) : option (dict K V) :=
  if negb ((it_index it =? -1) && (it_table it =? 0)) then
    if it_safe it then Some (set_iterators (iterators d - 1) d)
    else if it_fingerprint it =? dictFingerprint a0 a1 d then Some d else None
  else Some d.

(** ** Random entries *)

(** The chain a random number selects. *)
Definition random_bucket d (r : Z) : option (list (K * V)) :=
  if dictIsRehashing d then
    let h := u64 (rehashidx d + r mod u64 (size (ht0 d) + size (ht1 d) - rehashidx d)) in
    if h >=? size (ht0 d) then bucket (ht1 d) (h - size (ht0 d)) else bucket (ht0 d) h
  else bucket (ht0 d) (Z.land r (sizemask (ht0 d))).

(** The do-while loop that draws a bucket: [None] in the chain's place when the
    numbers [rnd] run out. *)
Fixpoint draw_bucket d (rnd : list Z) : option (option (list (K * V) * list Z)) :=
  match rnd with
  | [] => Some None
  | r :: rnd =>
      c ← random_bucket d r;
      match c with [] => draw_bucket d rnd | _ => Some (Some (c, rnd)) end
  end.

Inductive drawn := NoEntry | Entry (he : K * V) | OutOfNumbers.

Definition dictGetRandomKey d (rnd : list Z) : option (dict K V * drawn) :=
  if dictSize d =? 0 then Some (d, NoEntry) else
  d ← step_if_rehashing d;
  r ← draw_bucket d rnd;
  match r with
  | Some (c, r :: _) => he ← c.[r mod zlen c]; Some (d, Entry he)
  | _ => Some (d, OutOfNumbers)
  end.

(** The locals of dictGetSomeKeys: position, length of the run of empty buckets,
    entries stored so far and the random numbers left. *)
Record sample := mk_sample { s_i : Z; s_empty : Z; s_des : list (K * V); s_rnd : list Z }.

(** What a step of the loops does: go on, return, or run out of numbers. *)
Inductive sampled := More (s : sample) | Done (s : sample) | Dry.

(** [*des = he; des++; he = he->next; stored++; if (stored == count) return stored;] *)
Fixpoint collect c (count : Z) (s : sample) : sampled :=
  match c with
  | [] => More s
  | he :: c =>
      let s := mk_sample (s_i s) (s_empty s) (s_des s ++ [he]) (s_rnd s) in
      if zlen (s_des s) =? count then Done s else collect c count s
  end.

(** The body of the loop over the tables, for table [j]. *)
Definition sample_table d (tables maxsizemask count j : Z) (s : sample) : option sampled :=
  let skip := (tables =? 2) && (j =? 0) && (s_i s <? u64 (rehashidx d)) in
  if skip && (s_i s <? size (ht1 d)) then Some (More s) else
  let s := if skip then mk_sample (rehashidx d) (s_empty s) (s_des s) (s_rnd s) else s in
  if s_i s >=? size (ht_at d j) then Some (More s) else
  c ← bucket (ht_at d j) (s_i s);
  match c with
  | [] =>
      let emptylen := s_empty s + 1 in
      if (emptylen >=? 5) && (emptylen >? count) then
        match s_rnd s with
        | [] => Some Dry
        | r :: rnd => Some (More (mk_sample (Z.land r maxsizemask) 0 (s_des s) rnd))
        end
      else Some (More (mk_sample (s_i s) emptylen (s_des s) (s_rnd s)))
  | _ => Some (collect c count (mk_sample (s_i s) 0 (s_des s) (s_rnd s)))
  end.

(** [while(stored < count && maxsteps--)] *)
Fixpoint sample_loop (maxsteps : nat) d (tables maxsizemask count : Z) (s : sample) : option sampled :=
  if zlen (s_des s) >=? count then Some (Done s) else
  match maxsteps with
  | O => Some (Done s)
  | S maxsteps =>
      r ← sample_table d tables maxsizemask count 0 s;
      r ← match r with
          | More s => if tables =? 2 then sample_table d tables maxsizemask count 1 s else Some (More s)
          | _ => Some r
          end;
      match r with
      | More s => sample_loop maxsteps d tables maxsizemask count
                    (mk_sample (Z.land (s_i s + 1) maxsizemask) (s_empty s) (s_des s) (s_rnd s))
      | _ => Some r
      end
  end.

(** [for (j = 0; j < count; j++)]: rehash steps in proportion to [count]. *)
Fixpoint rehash_some (n : nat) d : option (dict K V) :=
  match n with
  | O => Some d
  | S n => if dictIsRehashing d then d ← dictRehashStep d; rehash_some n d else Some d
  end.

(** The entries stored and the numbers left; [None] in their place when the
    random numbers run out. *)
Definition dictGetSomeKeys d (count : Z) (rnd : list Z) : option (dict K V * option (list (K * V) * list Z)) :=
  let count := if dictSize d <? count then dictSize d else count in
  let maxsteps := u32 (count * 10) in
  d ← rehash_some (Z.to_nat count) d;
  let tables := if dictIsRehashing d then 2 else 1 in
  let maxsizemask := sizemask (ht0 d) in
  let maxsizemask := if (tables >? 1) && (maxsizemask <? sizemask (ht1 d)) then sizemask (ht1 d) else maxsizemask in
  match rnd with
  | [] => Some (d, None)
  | r :: rnd =>
      s ← sample_loop (Z.to_nat maxsteps) d tables maxsizemask count (mk_sample (Z.land r maxsizemask) 0 [] rnd);
      match s with
      | Dry => Some (d, None)
      | More s | Done s => Some (d, Some (s_des s, s_rnd s))
      end
  end.

Definition GETFAIR_NUM_ENTRIES : Z := 15.
Definition dictGetFairRandomKey d (rnd : list Z) : option (dict K V * drawn) :=
  '(d, r) ← dictGetSomeKeys d GETFAIR_NUM_ENTRIES rnd;
  match r with
  | None => Some (d, OutOfNumbers)
  | Some (des, rnd) =>
      if zlen des =? 0 then dictGetRandomKey d rnd
      else match rnd with
           | [] => Some (d, OutOfNumbers)
           | r :: _ => he ← des.[r mod zlen des]; Some (d, Entry he)
           end
  end.

(** ** What an iterator still has to visit *)

(** The chains of a table from index [i] on. *)
Definition from_index ht (i : Z) : list (K * V) :=
  match table ht with Some t => concat (zdrop i t) | None => [] end.

(** The second table is visited after the first. *)
Definition second d (table : Z) : list (K * V) :=
  if dictIsRehashing d && (table =? 0) then entries_ht (ht1 d) else [].

(** [upcoming d it l]: the iterator stands in a chain of which the part from
    [nextEntry] on is still to come, or before a chain. *)
Inductive upcoming d (it : dictIterator) : list (K * V) -> Prop :=
  | Before : it_entry it = None -> -1 <= it_index it -> it_table it = 0 \/ (it_table it = 1 /\ dictIsRehashing d = true) ->
      upcoming d it (from_index (ht_at d (it_table it)) (it_index it + 1) ++ second d (it_table it))
  | Inside k A B : it_entry it = Some k -> 0 <= it_index it ->
      it_table it = 0 \/ (it_table it = 1 /\ dictIsRehashing d = true) ->
      bucket (ht_at d (it_table it)) (it_index it) = Some (A ++ B) -> it_nextEntry it = fst <$> head B ->
      upcoming d it (B ++ from_index (ht_at d (it_table it)) (it_index it + 1) ++ second d (it_table it)).

Lemma chain_from_app key A B he : NoDup (A ++ he :: B).*1 -> he.1 = key -> chain_from key (A ++ he :: B) = Some (he :: B).
Proof.
  intros Hn <-. induction A as [|a A IH]; cbn [app chain_from]; [by rewrite bool_decide_eq_true_2|].
  cbn in Hn. apply NoDup_cons in Hn as [Hn1 Hn2]. rewrite bool_decide_eq_false_2; [by apply IH|].
  intros E. apply Hn1. rewrite <- E. apply list_elem_of_fmap_2, elem_of_app. right. by left.
Qed.

(** A table of a well formed dictionary, with its chains. *)
Definition table_ok ht : Prop := ht = dictReset \/ exists t, ht_live ht t.

Lemma wf_table_ok d j : dict_wf d -> table_ok (ht_at d j).
Proof.
  intros [Hp _]. unfold ht_at, table_ok. destruct Hp as [_ H0 H1|t _ Hl H1|t0 t1 _ Hl0 Hl1]; destruct (j =? 0); eauto.
Qed.

Lemma from_index_end ht i : table_ok ht -> size ht <= i -> from_index ht i = [].
Proof.
  intros [->|(t & Hl)] Hi; [done|]. unfold from_index. rewrite (live_table _ _ Hl).
  rewrite zdrop_all; [done|]. rewrite (live_len _ _ Hl). lia.
Qed.

Lemma from_index_step ht i : table_ok ht -> 0 <= i < size ht ->
  exists c, bucket ht i = Some c /\ from_index ht i = c ++ from_index ht (i + 1).
Proof.
  intros [->|(t & Hl)] Hi; [cbn in Hi; lia|]. destruct (bucket_live ht t i Hl Hi) as (c & Eb & Hc). exists c. split; [done|].
  unfold from_index. rewrite (live_table _ _ Hl). unfold zdrop. replace (Z.to_nat (i + 1)) with (S (Z.to_nat i)) by lia.
  by rewrite (drop_S t c) by done.
Qed.

Lemma from_index_all ht : table_ok ht -> from_index ht 0 = entries_ht ht.
Proof. intros _. unfold from_index, entries_ht. destruct (table ht); [|done]. by rewrite zdrop_0. Qed.

Lemma bucket_nodup d j i c : dict_wf d -> bucket (ht_at d j) i = Some c -> NoDup c.*1.
Proof.
  intros [_ Hn] Hb. unfold bucket, ht_at, entries, entries_ht in *. rewrite fmap_app in Hn. apply NoDup_app in Hn as (H0 & _ & H1).
  assert (forall t : list (list (K * V)), NoDup (concat t).*1 -> t.[i] = Some c -> NoDup c.*1) as Hc.
  { intros t Ht Hi. unfold znth in Hi. destruct (0 <=? i); [|done]. destruct (split_at t _ c Hi) as (l1 & l2 & -> & _).
    rewrite concat_app, fmap_app in Ht. apply NoDup_app in Ht as (_ & _ & Ht). cbn in Ht. rewrite fmap_app in Ht. by apply NoDup_app in Ht as (Ht & _). }
  destruct (j =? 0); [destruct (table (ht0 d)) as [t|]|destruct (table (ht1 d)) as [t|]]; try done; by apply (Hc t).
Qed.

Lemma upcoming_table d it l : upcoming d it l -> it_table it = 0 \/ (it_table it = 1 /\ dictIsRehashing d = true).
Proof. by destruct 1. Qed.

(** The first call of a safe iterator pauses rehashing. *)
Definition fresh_iter (it : dictIterator) : bool := (it_index it =? -1) && (it_table it =? 0).
Definition entered d (it : dictIterator) : dict K V :=
  if fresh_iter it && it_safe it then set_iterators (iterators d + 1) d else d.

Lemma entered_same d it : ht0 (entered d it) = ht0 d /\ ht1 (entered d it) = ht1 d /\ rehashidx (entered d it) = rehashidx d.
Proof. unfold entered. by destruct (_ && _). Qed.
Lemma same_wf d d' : ht0 d' = ht0 d -> ht1 d' = ht1 d -> rehashidx d' = rehashidx d -> dict_wf d -> dict_wf d'.
Proof.
  intros E0 E1 Er [Hp Hn]. split; [|unfold entries in *; by rewrite E0, E1].
  destruct Hp as [Hi H0 H1|t Hi Hl H1|t0 t1 Hi Hl0 Hl1 Hs Hlow].
  - apply Empty; congruence.
  - apply (Stable _ t); congruence.
  - apply (Rehashing _ t0 t1); rewrite ?E0, ?E1, ?Er; done.
Qed.

(** The number of chains left bounds the rounds of dictNext. *)
Definition rounds d (it : dictIterator) : Z :=
  (match it_entry it with Some _ => 1 | None => 0 end) + Z.max 0 (size (ht_at d (it_table it)) - (it_index it + 1)) +
  (if dictIsRehashing d && (it_table it =? 0) then size (ht1 d) else 0).

Lemma table_size d j : dict_wf d -> 0 <= size (ht_at d j).
Proof. intros Hwf. destruct (wf_table_ok d j Hwf) as [->|(t & Hl)]; [done|]. pose proof (size_pos _ _ Hl). lia. Qed.

Lemma rehashing_second d : dict_wf d -> dictIsRehashing d = true -> 0 < size (ht1 d).
Proof.
  intros [Hp _] Er. destruct Hp as [Hi|t Hi|t0 t1 _ _ Hl]; [by rewrite (proj2 (rehashing_false d)) in Er..|].
  pose proof (size_pos _ _ Hl). lia.
Qed.

Lemma next_chain_spec a0 a1 d it l : dict_wf d -> upcoming d it l -> it_entry it = None ->
  exists it' more, next_chain a0 a1 d it = Some (entered d it, it', more) /\ it_safe it' = it_safe it /\
    (fresh_iter it = false -> it_fingerprint it' = it_fingerprint it) /\
    (fresh_iter it = true -> it_safe it = false -> it_fingerprint it' = dictFingerprint a0 a1 d) /\ fresh_iter it' = false /\
    if (more : bool) then exists c l', l = c ++ l' /\ bucket (ht_at d (it_table it')) (it_index it') = Some c /\ 0 <= it_index it' /\
        (it_table it' = 0 \/ (it_table it' = 1 /\ dictIsRehashing d = true)) /\
        it_entry it' = fst <$> head c /\ l' = from_index (ht_at d (it_table it')) (it_index it' + 1) ++ second d (it_table it') /\
        Z.max 0 (size (ht_at d (it_table it')) - (it_index it' + 1)) +
          (if dictIsRehashing d && (it_table it' =? 0) then size (ht1 d) else 0) < rounds d it
    else l = [] /\ upcoming d it' [] /\ it_entry it' = None.
Proof.
  intros Hwf Hup He. destruct Hup as [_ Hi Htab|]; [|congruence]. unfold next_chain. fold (fresh_iter it) (entered d it).
  destruct (entered_same d it) as (E0 & E1 & Er).
  assert (forall j, ht_at (entered d it) j = ht_at d j) as Eht by (intros; unfold ht_at; by rewrite E0, E1).
  assert (dictIsRehashing (entered d it) = dictIsRehashing d) as Ereh by (unfold dictIsRehashing; by rewrite Er).
  rewrite Eht, Ereh, Z.geb_leb. pose proof (wf_table_ok d (it_table it) Hwf) as Hok. pose proof (table_size d (it_table it) Hwf).
  unfold rounds, second. rewrite He. destruct (Z.leb_spec (size (ht_at d (it_table it))) (it_index it + 1)) as [Hend|Hin].
  - rewrite (from_index_end _ _ Hok Hend). cbn [app]. destruct (dictIsRehashing d && (it_table it =? 0)) eqn:Es.
    + apply andb_true_iff in Es as [Ere Et]. pose proof (rehashing_second d Hwf Ere). pose proof (wf_table_ok d 1 Hwf) as Hok1.
      rewrite Eht. change (ht_at d 1) with (ht1 d) in *. destruct (from_index_step (ht1 d) 0 Hok1 ltac:(lia)) as (c & Ec & Efrom).
      rewrite Ec. cbn [mbind option_bind]. eexists _, true. split; [done|]. cbn [it_table it_index it_safe it_entry it_fingerprint].
      split; [done|]. split; [by intros ->|]. split; [by intros -> ->|]. split; [done|].
      exists c, (from_index (ht1 d) 1). rewrite from_index_all, <- from_index_all in Efrom by done. rewrite <- from_index_all by done.
      change (ht_at d 1) with (ht1 d). rewrite Ere. cbn [andb Z.eqb]. rewrite app_nil_r. split_and!; try done; lia.
    + eexists _, false. split; [done|]. cbn [it_safe it_fingerprint]. split; [done|]. split; [by intros ->|]. split; [by intros -> ->|].
      split; [unfold fresh_iter; cbn; lia|]. split; [done|]. split; [|done].
      assert (upcoming d (mk_dictIter (it_table it) (it_index it + 1) (it_safe it) None (it_nextEntry it)
        (if fresh_iter it && negb (it_safe it) then dictFingerprint a0 a1 d else it_fingerprint it))
        (from_index (ht_at d (it_table it)) (it_index it + 1 + 1) ++ second d (it_table it))) as Hu by (apply (Before d (mk_dictIter _ _ _ None _ _)); cbn; [done|lia|done]).
      rewrite from_index_end in Hu by (done || lia). unfold second in Hu. by rewrite Es in Hu.
  - destruct (from_index_step _ (it_index it + 1) Hok ltac:(lia)) as (c & Ec & Efrom). rewrite Ec. cbn [mbind option_bind].
    eexists _, true. split; [done|]. cbn [it_table it_index it_safe it_entry it_fingerprint].
    split; [done|]. split; [by intros ->|]. split; [by intros -> ->|]. split; [unfold fresh_iter; cbn; lia|].
    exists c, (from_index (ht_at d (it_table it)) (it_index it + 1 + 1) ++ second d (it_table it)). rewrite Efrom, <- app_assoc.
    split_and!; try done; lia.
Qed.

Ltac inside k A B := match goal with |- upcoming ?d ?it _ => apply (Inside d it k A B) end.

(** dictNext returns the first entry still to come. *)
Lemma next_loop_spec fuel a0 a1 : forall d it l, dict_wf d -> upcoming d it l -> rounds d it < Z.of_nat fuel ->
  exists it', next_loop fuel a0 a1 d it = Some (entered d it, it', head l) /\ upcoming (entered d it) it' (tail l) /\
    it_safe it' = it_safe it /\ (fresh_iter it = false -> it_fingerprint it' = it_fingerprint it) /\
    (fresh_iter it = true -> it_safe it = false -> it_fingerprint it' = dictFingerprint a0 a1 d) /\ fresh_iter it' = false /\
    (it_entry it' = fst <$> head l).
Proof.
  induction fuel as [|fuel IH]; intros d it l Hwf Hup Hf.
  { unfold rounds in Hf. pose proof (table_size d 1 Hwf). change (ht_at d 1) with (ht1 d) in *. destruct (it_entry it), (_ && _); lia. }
  cbn [next_loop]. destruct (it_entry it) as [k|] eqn:Ee.
  - destruct Hup as [Hn|k' A B Ek Hi Ht Hb Hnx]; [congruence|].
    assert (fresh_iter it = false) as Hfr by (unfold fresh_iter; lia).
    assert (entered d it = d) as Een by (unfold entered; by rewrite Hfr).
    cbn [mbind option_bind negb it_entry it_table it_index]. rewrite Hnx, Een. destruct B as [|he B]; cbn [head fmap option_fmap option_map].
    + set (it1 := mk_dictIter _ _ _ _ _ _).
      assert (entered d it1 = d) as Een1 by (unfold entered; by rewrite (Hfr : fresh_iter it1 = false)).
      destruct (IH d it1 (from_index (ht_at d (it_table it)) (it_index it + 1) ++ second d (it_table it)) Hwf) as (it' & E & Hr).
      * apply (Before d it1); cbn; [done|lia|done].
      * unfold rounds in *. rewrite Ee in Hf. cbn in *. lia.
      * rewrite Een1 in *. exists it'. split; [done|]. cbn [app]. done.
    + rewrite Hb. cbn [mbind option_bind]. pose proof (bucket_nodup _ _ _ _ Hwf Hb) as Hnd.
      rewrite (chain_from_app he.1 A B he Hnd eq_refl). cbn [mbind option_bind head tail].
      eexists. split; [done|]. cbn [it_safe it_fingerprint it_entry app tail]. split_and!; try done; [|by rewrite Hfr].
      inside he.1 (A ++ [he]) B; cbn; try done. by rewrite <- app_assoc.
  - destruct (next_chain_spec a0 a1 d it l Hwf Hup Ee) as (it1 & more & -> & Hs & Hfp & Hfp' & Hfr & Hmore). cbn [mbind option_bind].
    destruct (entered_same d it) as (E0 & E1 & Er).
    assert (dict_wf (entered d it)) as Hwf' by (by apply (same_wf d)).
    assert (forall j, ht_at (entered d it) j = ht_at d j) as Eht by (intros; unfold ht_at; by rewrite E0, E1).
    assert (dictIsRehashing (entered d it) = dictIsRehashing d) as Ereh by (unfold dictIsRehashing; by rewrite Er).
    assert (forall j, second (entered d it) j = second d j) as Esec by (intros; unfold second; by rewrite Ereh, E1).
    assert (entered (entered d it) it1 = entered d it) as Een1 by (unfold entered at 1; by rewrite Hfr).
    destruct more; cbn [negb].
    + destruct Hmore as (c & l' & -> & Hb & Hi & Ht & He1 & -> & Hr). rewrite He1. destruct c as [|he c]; cbn [head fmap option_fmap option_map].
      * destruct (IH (entered d it) it1 (from_index (ht_at d (it_table it1)) (it_index it1 + 1) ++ second d (it_table it1)) Hwf')
          as (it' & E & Hu & Hs' & Hf1 & Hf2 & Hf3 & He').
        -- rewrite <- Eht, <- Esec. apply Before; [done|lia|by rewrite Ereh].
        -- unfold rounds at 1. rewrite He1, Eht, Ereh, E1. cbn. lia.
        -- rewrite Een1 in *. exists it'. split; [done|]. cbn [app]. split; [done|]. split; [congruence|].
           split; [intros; rewrite Hf1 by done; auto|]. split; [intros; rewrite Hf1 by done; auto|done].
      * rewrite Eht, Hb. cbn [mbind option_bind chain_from]. rewrite bool_decide_eq_true_2 by done. cbn [mbind option_bind head tail].
        eexists. split; [done|]. cbn [it_safe it_fingerprint it_entry app tail]. split_and!; try done.
        rewrite <- Eht, <- Esec. inside he.1 [he] c; cbn; try done; [by rewrite Ereh|by rewrite Eht].
    + destruct Hmore as (-> & Hu & He1). exists it1. split; [done|]. cbn [tail head]. rewrite He1. split; [|done].
      inversion Hu as [? ? ? E|? ? ? ? ? ? ? ? E]; [|congruence]. rewrite <- Eht, <- Esec.
      apply Before; [done|done|by rewrite Ereh].
Qed.

Lemma next_spec a0 a1 d it l : dict_wf d -> upcoming d it l ->
  exists it', dictNext a0 a1 d it = Some (entered d it, it', head l) /\ upcoming (entered d it) it' (tail l) /\
    it_safe it' = it_safe it /\ (fresh_iter it = false -> it_fingerprint it' = it_fingerprint it) /\
    (fresh_iter it = true -> it_safe it = false -> it_fingerprint it' = dictFingerprint a0 a1 d) /\ fresh_iter it' = false /\
    (it_entry it' = fst <$> head l).
Proof.
  intros Hwf Hup. apply next_loop_spec; [done|done|]. unfold rounds. pose proof (table_size d 0 Hwf). pose proof (table_size d 1 Hwf).
  change (ht_at d 1) with (ht1 d) in *. change (ht_at d 0) with (ht0 d) in *.
  assert (it_entry it <> None -> 0 <= it_index it) as He by (destruct Hup; [done|lia]).
  assert (-1 <= it_index it) as Hi by (destruct Hup; lia).
  destruct (upcoming_table _ _ _ Hup) as [->|[-> ->]]; cbn [Z.eqb ht_at andb].
  - change (ht_at d 0) with (ht0 d). rewrite andb_true_r.
    destruct (it_entry it); [specialize (He ltac:(done))|]; destruct (dictIsRehashing d); lia.
  - change (ht_at d 1) with (ht1 d). destruct (it_entry it); [specialize (He ltac:(done))|]; lia.
Qed.

Lemma upcoming_start d safe : dict_wf d -> upcoming d (mk_dictIter 0 (-1) safe None None 0) (entries d).
Proof.
  intros Hwf. assert (entries d = from_index (ht_at d 0) (-1 + 1) ++ second d 0) as ->; [|apply (Before d (mk_dictIter 0 (-1) safe None None 0)); cbn; [done|lia|by left]].
  unfold entries, second. rewrite from_index_all by (by apply wf_table_ok). f_equal. cbn [Z.eqb]. rewrite andb_true_r.
  destruct (dictIsRehashing d) eqn:Er; [done|]. apply rehashing_false in Er.
  destruct (wf_phase d Hwf) as [_ _ ->|t _ _ ->|t0 t1 Hi]; [done|done|lia].
Qed.

(** An unsafe iterator of a client that only reads: it has still to return [l]. *)
Record reading (a0 a1 : Z) d (it : dictIterator) (l : list (K * V)) : Prop := {
  rd_wf : dict_wf d;
  rd_up : upcoming d it l;
  rd_safe : it_safe it = false;
  rd_fp : fresh_iter it = false -> it_fingerprint it = dictFingerprint a0 a1 d
}.

Lemma reading_start a0 a1 d : dict_wf d -> reading a0 a1 d dictGetIterator (entries d).
Proof. intros Hwf. split; [done|by apply upcoming_start|done|done]. Qed.

Lemma reading_next a0 a1 d it l : reading a0 a1 d it l ->
  exists it', dictNext a0 a1 d it = Some (d, it', head l) /\ reading a0 a1 d it' (tail l).
Proof.
  intros [Hwf Hu Hs Hf]. destruct (next_spec a0 a1 d it l Hwf Hu) as (it' & E & Hu' & Hs' & Hf1 & Hf2 & Hf3 & _).
  assert (entered d it = d) as Ed by (unfold entered; by rewrite Hs, andb_false_r). rewrite Ed in *.
  exists it'. split; [done|]. split; [done|done|congruence|]. intros _.
  destruct (fresh_iter it); [by apply Hf2|]. rewrite Hf1 by done. by apply Hf.
Qed.

Lemma reading_release a0 a1 d it l : reading a0 a1 d it l -> dictReleaseIterator a0 a1 d it = Some d.
Proof.
  intros [_ _ Hs Hf]. unfold dictReleaseIterator. fold (fresh_iter it). destruct (fresh_iter it); [done|].
  rewrite Hs, Hf, Z.eqb_refl; done.
Qed.

(** ** Operations while a safe iterator is in use *)

(** Everything but the entry of [k]. *)
Definition others (k : K) (l : list (K * V)) : list (K * V) := filter (fun e => e.1 <> k) l.

Lemma others_app k l l' : others k (l ++ l') = others k l ++ others k l'.
Proof. apply filter_app. Qed.
Lemma others_id k l : k ∉ l.*1 -> others k l = l.
Proof.
  intros Hk. induction l as [|e l IH]; [done|]. cbn in Hk. apply not_elem_of_cons in Hk as [Hk1 Hk2].
  unfold others. rewrite filter_cons_True by done. f_equal. by apply IH.
Qed.
Lemma others_delete k l : others k (chain_delete k l) = others k l.
Proof.
  induction l as [|e l IH]; [done|]. cbn [chain_delete]. case_bool_decide as E; unfold others in *.
  - rewrite (filter_cons_False _ e l); [done|]. intros Hn. by apply Hn.
  - rewrite !filter_cons_True by done. by f_equal.
Qed.

(** A chain [c'] that differs from [c] in the entry of [k] and leaves the rest of
    the chain behind any other entry in place. *)
Definition edits (k : K) c c' : Prop :=
  others k c' = others k c /\
  forall A B, c = A ++ B -> (fst <$> head B) <> Some k ->
    exists A' B', c' = A' ++ B' /\ (fst <$> head B') = (fst <$> head B) /\ others k B' = others k B.

Lemma edits_delete k c : NoDup c.*1 -> edits k c (chain_delete k c).
Proof.
  intros Hn. split; [apply others_delete|]. intros A B -> Hh.
  induction A as [|a A IH]; cbn [app chain_delete].
  - exists [], (chain_delete k B). split; [done|]. split; [|apply others_delete].
    destruct B as [|b B]; [done|]. cbn [chain_delete]. rewrite bool_decide_eq_false_2; [done|]. intros ->. by apply Hh.
  - cbn in Hn. apply NoDup_cons in Hn as [_ Hn]. case_bool_decide; [by exists A, B|].
    destruct (IH Hn) as (A' & B' & -> & H1 & H2). by exists (a :: A'), B'.
Qed.

Lemma edits_push k v c : edits k c ((k, v) :: c).
Proof.
  split; [unfold others; by rewrite filter_cons_False by (intros Hn; by apply Hn)|]. intros A B -> _. by exists ((k, v) :: A), B.
Qed.

Lemma others_from_index k ht ht' t i c c' n : table ht = Some t -> 0 <= i -> t !! Z.to_nat i = Some c ->
  table ht' = Some (<[Z.to_nat i := c']> t) -> others k c' = others k c ->
  others k (from_index ht' n) = others k (from_index ht n).
Proof.
  intros Et Hi Hc Et' Hk. unfold from_index. rewrite Et, Et'. unfold zdrop.
  destruct (decide (Z.to_nat i < Z.to_nat n)%nat); [by rewrite drop_insert_lt|]. rewrite drop_insert_ge by lia.
  assert (drop (Z.to_nat n) t !! (Z.to_nat i - Z.to_nat n)%nat = Some c) as Hd by (rewrite lookup_drop; rewrite <- Hc; f_equal; lia).
  destruct (split_at _ _ _ Hd) as (l1 & l2 & -> & _ & ->). rewrite !concat_app. cbn [concat]. by rewrite !others_app, Hk.
Qed.

(** Replacing one chain of table [j] keeps what is to come, up to the entry of [k]. *)
Lemma upcoming_edit d d' j i c c' k it l : (j = 0 \/ j = 1) -> bucket (ht_at d j) i = Some c ->
  (exists t, table (ht_at d j) = Some t /\ table (ht_at d' j) = Some (<[Z.to_nat i := c']> t)) ->
  table (ht_at d' (1 - j)) = table (ht_at d (1 - j)) -> dictIsRehashing d' = dictIsRehashing d -> edits k c c' ->
  upcoming d it l -> (it_entry it <> None -> it_nextEntry it <> Some k) -> exists l', upcoming d' it l' /\ others k l' = others k l.
Proof.
  intros Hj Hb (t & Et & Et') Eo Er [Hed Hsplit] Hup Hnx.
  assert (0 <= i /\ t !! Z.to_nat i = Some c) as [Hi Hc].
  { unfold bucket in Hb. rewrite Et in Hb. cbn in Hb. pose proof (znth_lt _ _ _ Hb). rewrite znth_nat in Hb by lia. split; [lia|done]. }
  assert (forall jj n, jj = 0 \/ jj = 1 -> others k (from_index (ht_at d' jj) n) = others k (from_index (ht_at d jj) n)) as Hfrom.
  { intros jj n Hjj. destruct (decide (jj = j)) as [->|Hne]; [by eapply others_from_index|].
    assert (jj = 1 - j) as -> by lia. unfold from_index. by rewrite Eo. }
  assert (forall ht : dictht K V, entries_ht ht = from_index ht 0) as Hent by (intros ht; unfold from_index, entries_ht; destruct (table ht); [by rewrite zdrop_0|done]).
  assert (forall jj, others k (second d' jj) = others k (second d jj)) as Hsec.
  { intros jj. unfold second. rewrite Er. destruct (_ && _); [|done]. rewrite !Hent. apply (Hfrom 1). by right. }
  destruct Hup as [He Hix Ht|kk A B He Hix Ht Hbk Hn].
  - eexists. split; [apply Before; [done|done|by rewrite Er]|]. rewrite !others_app, Hsec, Hfrom; [done|tauto].
  - assert (exists A' B', bucket (ht_at d' (it_table it)) (it_index it) = Some (A' ++ B') /\ it_nextEntry it = (fst <$> head B') /\
      others k B' = others k B) as (A' & B' & Hb' & Hn' & HB).
    { unfold bucket in *. destruct (decide (it_table it = j)) as [Ej|Ne].
      - rewrite Ej in *. rewrite Et in Hbk. rewrite Et'. cbn [mbind option_bind] in *. rewrite znth_nat in * by lia.
        destruct (decide (Z.to_nat (it_index it) = Z.to_nat i)) as [Ei|Ni].
        + rewrite Ei in *. rewrite list_lookup_insert_eq by (by eapply lookup_lt_Some). rewrite Hc in Hbk. injection Hbk as Hcc.
          destruct (Hsplit A B Hcc) as (A' & B' & -> & H1 & H2); [rewrite <- Hn; apply Hnx; by rewrite He|]. exists A', B'. split; [done|]. split; [by rewrite H1|done].
        + rewrite list_lookup_insert_ne by done. by exists A, B.
      - assert (it_table it = 1 - j) as Ej by lia. rewrite Ej in *. rewrite Eo. by exists A, B. }
    eexists. split; [apply (Inside _ _ kk A' B'); [done|done|by rewrite Er|done|done]|].
    rewrite !others_app, Hsec, Hfrom; [by rewrite HB|tauto].
Qed.

Lemma paused_step d : iterators d <> 0 -> step_if_rehashing d = Some d.
Proof.
  intros Hi. unfold step_if_rehashing, dictRehashStep. rewrite (proj2 (Z.eqb_neq _ _) Hi). by destruct (dictIsRehashing d).
Qed.

(** What an operation on [k] may change for an iterator that does not point to
    the entry of [k]. *)
Definition keeps_upcoming (k : K) d d' : Prop :=
  forall it l, upcoming d it l -> (it_entry it <> None -> it_nextEntry it <> Some k) ->
    exists l', upcoming d' it l' /\ others k l' = others k l.

Lemma keeps_refl k d : keeps_upcoming k d d.
Proof. intros it l Hu _. by exists l. Qed.

Lemma set_bucket_table ht i c ht' : set_bucket ht i c = Some ht' ->
  exists t, table ht = Some t /\ table ht' = Some (<[Z.to_nat i := c]> t).
Proof. unfold set_bucket. destruct (table ht) as [t|]; [|done]. cbn. destruct (t.[i]); [|done]. cbn. intros [= <-]. by exists t. Qed.

Lemma dict_delete_keeps d k d' r : dict_wf d -> iterators d <> 0 -> dictGenericDelete d k = Some (d', r) -> keeps_upcoming k d d'.
Proof.
  intros Hwf Hi. unfold dictGenericDelete. destruct (_ && _); [intros [= <- <-]; apply keeps_refl|].
  rewrite paused_step by done. cbn [mbind option_bind].
  assert (forall j c ht', (j = 0 \/ j = 1) -> bucket (ht_at d j) (Z.land (dictHashKey k) (sizemask (ht_at d j))) = Some c ->
    set_bucket (ht_at d j) (Z.land (dictHashKey k) (sizemask (ht_at d j))) (chain_delete k c) = Some ht' -> forall n,
    keeps_upcoming k d (if j =? 0 then set_ht0 (set_used ht' n) d else set_ht1 (set_used ht' n) d)) as Hkeep.
  { intros j c ht' Hj Hb Hs n it l Hu Hn. apply set_bucket_table in Hs as (t & E1 & E2).
    eapply (upcoming_edit d _ j _ c (chain_delete k c) k it l Hj Hb); [| | |by eapply edits_delete, bucket_nodup|done|done].
    - exists t. split; [done|]. by destruct Hj as [->| ->].
    - by destruct Hj as [->| ->].
    - by destruct Hj as [->| ->]. }
  destruct (bucket (ht0 d) _) as [c|] eqn:Eb; [|done]. cbn [mbind option_bind]. destruct (chain_find k c).
  - destruct (set_bucket _ _ _) as [ht'|] eqn:Es; [|done]. cbn [mbind option_bind]. intros [= <- <-].
    exact (Hkeep 0 c ht' (or_introl eq_refl) Eb Es _).
  - destruct (negb _); [intros [= <- <-]; apply keeps_refl|]. destruct (bucket (ht1 d) _) as [c1|] eqn:Eb1; [|done]. cbn [mbind option_bind].
    destruct (chain_find k c1); [|intros [= <- <-]; apply keeps_refl].
    destruct (set_bucket _ _ _) as [ht'|] eqn:Es; [|done]. cbn [mbind option_bind]. intros [= <- <-].
    exact (Hkeep 1 c1 ht' (or_intror eq_refl) Eb1 Es _).
Qed.

(** A table of empty chains has nothing to visit. *)
Lemma from_index_fresh n i : forall sz m u, from_index (mk_ht (Some (replicate n [])) sz m u : dictht K V) i = [].
Proof.
  intros sz m u. unfold from_index, zdrop. cbn. rewrite drop_replicate. induction (n - Z.to_nat i)%nat; [done|]. done.
Qed.

Lemma expand_keeps d sz d' b it l : dict_wf d -> dictExpand d sz = Some (d', b) -> upcoming d it l -> upcoming d' it l.
Proof.
  intros Hwf. unfold dictExpand. destruct (_ || _) eqn:Eg; [by intros [= <- <-]|].
  apply orb_false_iff in Eg as [Er _]. destruct (dictNextPower sz) as [n|]; [|done]. cbn [mbind option_bind].
  destruct (n =? _); [by intros [= <- <-]|].
  set (fr := mk_ht (Some (replicate (Z.to_nat n) [])) n (n - 1) 0 : dictht K V).
  assert (forall i, from_index fr i = []) as Hfr by (intros i; apply from_index_fresh).
  assert (entries_ht fr = []) as Hef by (rewrite <- (Hfr 0); unfold from_index, entries_ht; cbn; by rewrite zdrop_0).
  destruct (table (ht0 d)) as [t|] eqn:Et; intros [= <- <-] Hu;
    (assert (it_table it = 0) as E0 by (destruct (upcoming_table _ _ _ Hu) as [|[_ ?]]; [done|congruence])).
  - set (d1 := set_rehashidx 0 (set_ht1 fr d)).
    assert (second d1 0 = second d 0) as Es by (unfold second; rewrite Er; cbn; done).
    destruct Hu as [He Hx Ht|kk A B He Hx Ht Hb Hnx]; rewrite E0 in *; rewrite <- Es.
    + pose proof (Before d1 it He Hx (or_introl E0)) as Hu. by rewrite E0 in Hu.
    + pose proof (Inside d1 it kk A B He Hx (or_introl E0)) as Hu. rewrite E0 in Hu. by apply Hu.
  - set (d1 := set_ht0 fr d).
    assert (forall dd, dictIsRehashing dd = false -> second dd 0 = []) as Es by (intros dd E; unfold second; by rewrite E).
    destruct Hu as [He Hx Ht|kk A B He Hx Ht Hb Hnx]; rewrite E0 in *.
    + pose proof (Before d1 it He Hx (or_introl E0)) as Hu. rewrite E0, (Es d1 Er) in Hu. rewrite (Es d Er). 
      change (ht_at d1 0) with fr in Hu. rewrite Hfr in Hu. unfold from_index at 1, ht_at. cbn. by rewrite Et.
    + unfold bucket, ht_at in Hb. cbn in Hb. by rewrite Et in Hb.
Qed.

Lemma add_entry_keeps k v d idx d' : add_entry d idx (k, v) = Some d' -> keeps_upcoming k d d'.
Proof.
  unfold add_entry.
  assert (forall j c ht', (j = 0 \/ j = 1) -> bucket (ht_at d j) idx = Some c -> set_bucket (ht_at d j) idx ((k, v) :: c) = Some ht' -> forall n,
    keeps_upcoming k d (if j =? 0 then set_ht0 (set_used ht' n) d else set_ht1 (set_used ht' n) d)) as Hkeep.
  { intros j c ht' Hj Hb Hs n it l Hu Hn. apply set_bucket_table in Hs as (t & E1 & E2).
    eapply (upcoming_edit d _ j _ c ((k, v) :: c) k it l Hj Hb); [| | |apply edits_push|done|done];
      [exists t; split; [done|]|..]; by destruct Hj as [->| ->]. }
  destruct (dictIsRehashing d).
  - destruct (bucket (ht1 d) idx) as [c|] eqn:Eb; [|done]. cbn [mbind option_bind]. destruct (set_bucket _ _ _) as [ht'|] eqn:Es; [|done].
    cbn [mbind option_bind]. intros [= <-]. exact (Hkeep 1 c ht' (or_intror eq_refl) Eb Es _).
  - destruct (bucket (ht0 d) idx) as [c|] eqn:Eb; [|done]. cbn [mbind option_bind]. destruct (set_bucket _ _ _) as [ht'|] eqn:Es; [|done].
    cbn [mbind option_bind]. intros [= <-]. exact (Hkeep 0 c ht' (or_introl eq_refl) Eb Es _).
Qed.

Lemma bucket_entries d j i c e : dict_wf d -> bucket (ht_at d j) i = Some c -> e ∈ c -> e ∈ entries d.
Proof.
  intros Hwf Hb He. unfold bucket in Hb. unfold entries, entries_ht.
  assert (forall t : list (list (K * V)), t.[i] = Some c -> e ∈ concat t) as Hc.
  { intros t Ht. unfold znth in Ht. destruct (0 <=? i); [|done]. apply elem_of_concat. exists c. split; [done|by eapply list_elem_of_lookup_2]. }
  unfold ht_at in Hb. apply elem_of_app. destruct (j =? 0); [left|right]; [destruct (table (ht0 d))|destruct (table (ht1 d))]; try done; by apply Hc.
Qed.

Lemma keyindex_keeps can d k h d' r it l : dict_wf d -> dictKeyIndex can d k h = Some (d', r) -> upcoming d it l -> upcoming d' it l.
Proof.
  intros Hwf Ek Hu. unfold dictKeyIndex in Ek. destruct (dictExpandIfNeeded can d) as [[d2 ok]|] eqn:Ee; [|done]. cbn [mbind option_bind] in Ek.
  assert (upcoming d2 it l) as H2.
  { unfold dictExpandIfNeeded in Ee. destruct (dictIsRehashing d); [by injection Ee as <- _|].
    destruct (size (ht0 d) =? 0); [by eapply expand_keeps|]. destruct (_ && _); [by eapply expand_keeps|]. by injection Ee as <- _. }
  assert (d' = d2) as ->; [|done].
  destruct ok; cbn [negb] in Ek; [|by injection Ek as <- _]. destruct (bucket (ht0 d2) _); [|done]. cbn [mbind option_bind] in Ek.
  destruct (chain_find k _); [by injection Ek as <- _|]. destruct (negb _); [by injection Ek as <- _|].
  destruct (bucket (ht1 d2) _); [|done]. cbn [mbind option_bind] in Ek. destruct (chain_find k _); by injection Ek as <- _.
Qed.

(** An entry that is added is not the one the iterator has saved. *)
Lemma add_keeps can d k v d' b it l : dict_wf d -> iterators d <> 0 -> zlen (entries d) + 1 < DICT_BOUND -> dictAdd can d k v = Some (d', b) -> upcoming d it l ->
  exists l', upcoming d' it l' /\ others k l' = others k l.
Proof.
  intros Hwf Hi Hb. destruct (addraw_spec can d k v Hwf Hb) as (d0 & r0 & E0 & _ & _ & _ & Hr0). unfold dictAdd. rewrite E0. cbn [mbind option_bind].
  intros [= <- _] Hu. unfold dictAddRaw in E0. rewrite paused_step in E0 by done. cbn [mbind option_bind] in E0.
  destruct (dictKeyIndex can d k (dictHashKey k)) as [[d1 r]|] eqn:Ek; [|done]. cbn [mbind option_bind] in E0.
  pose proof (keyindex_keeps can d k _ d1 r it l Hwf Ek Hu) as Hu1.
  destruct r as [idx|he|]; cbn [mbind option_bind] in E0; [|by injection E0 as <- _; exists l|by injection E0 as <- _; exists l].
  destruct (add_entry d1 idx (k, v)) as [d2|] eqn:Ea; [|done]. cbn [mbind option_bind] in E0. injection E0 as <- <-.
  apply (add_entry_keeps k v d1 idx d2 Ea it l Hu1). intros He Hn. apply (proj1 Hr0).
  destruct Hu as [He'|kk A B _ _ _ Hbk Hnx]; [done|]. rewrite Hn in Hnx. destruct B as [|[k' v'] B]; [done|]. injection Hnx as <-.
  change k with (k, v').1. apply list_elem_of_fmap_2. eapply bucket_entries; [done|done|]. apply elem_of_app. right. left.
Qed.

Lemma find_keeps k d d' r : iterators d <> 0 -> dictFind d k = Some (d', r) -> d' = d.
Proof.
  intros Hi. unfold dictFind. destruct (dictSize d =? 0); [by intros [= <- _]|]. rewrite paused_step by done. cbn [mbind option_bind].
  destruct (bucket (ht0 d) _); [|done]. cbn [mbind option_bind]. destruct (chain_find k _); [by intros [= <- _]|].
  destruct (negb _); [by intros [= <- _]|]. destruct (bucket (ht1 d) _); [|done]. cbn [mbind option_bind]. by intros [= <- _].
Qed.

(** ** Iteration as a transition system

    The client of a safe iterator calls dictNext and, between the calls, looks up,
    adds and deletes; it does not delete the entry the iterator has saved as the
    next one.  The state records the entries returned and the keys added or
    deleted. *)
Record it_state := mk_st { st_d : dict K V; st_it : dictIterator; st_seen : list (K * V); st_touched : list K }.

Definition room d : Prop := zlen (entries d) + 1 < DICT_BOUND.

Inductive it_step (a0 a1 : Z) : it_state -> it_state -> Prop :=
  | StepNext d it seen tk d' it' he : dictNext a0 a1 d it = Some (d', it', Some he) ->
      it_step a0 a1 (mk_st d it seen tk) (mk_st d' it' (seen ++ [he]) tk)
  | StepFind d it seen tk k d' r : fresh_iter it = false -> room d -> dictFind d k = Some (d', r) ->
      it_step a0 a1 (mk_st d it seen tk) (mk_st d' it seen tk)
  | StepAdd d it seen tk can k v d' b : fresh_iter it = false -> room d ->
      dictAdd can d k v = Some (d', b) -> it_step a0 a1 (mk_st d it seen tk) (mk_st d' it seen (k :: tk))
  | StepDelete d it seen tk k d' b : fresh_iter it = false -> room d -> (it_entry it <> None -> it_nextEntry it <> Some k) ->
      dictDelete d k = Some (d', b) -> it_step a0 a1 (mk_st d it seen tk) (mk_st d' it seen (k :: tk)).

(** The entries of one key. *)
Definition only (k : K) (l : list (K * V)) : list (K * V) := filter (fun e => e.1 = k) l.

Lemma only_others k k' l : k <> k' -> only k (others k' l) = only k l.
Proof.
  intros Hk. unfold only, others. rewrite list_filter_filter. apply list_filter_iff. intros e. split; [tauto|]. intros ->. by split.
Qed.

(** Keys that were not touched are split between what was returned and what is
    to come; rehashing is paused after the first call. *)
Record it_inv (d0 : dict K V) (s : it_state) : Prop := {
  inv_wf : dict_wf (st_d s);
  inv_safe : it_safe (st_it s) = true;
  inv_paused : iterators (st_d s) = if fresh_iter (st_it s) then iterators d0 else iterators d0 + 1;
  inv_split : exists l, upcoming (st_d s) (st_it s) l /\
    forall k, k ∉ st_touched s -> only k (st_seen s ++ l) = only k (entries d0)
}.

Lemma it_inv_start d0 : dict_wf d0 -> it_inv d0 (mk_st d0 dictGetSafeIterator [] []).
Proof. intros Hwf. split; try done. exists (entries d0). split; [by apply upcoming_start|done]. Qed.

Lemma it_inv_edit d0 d it seen tk k d' : it_inv d0 (mk_st d it seen tk) -> dict_wf d' -> iterators d' = iterators d ->
  (forall l, upcoming d it l -> exists l', upcoming d' it l' /\ others k l' = others k l) -> it_inv d0 (mk_st d' it seen (k :: tk)).
Proof.
  intros [Hw Hs Hp (l & Hu & Hl)] Hwf' Hit Hk. split; cbn [st_d st_it st_seen st_touched] in *; [done|done|by rewrite Hit|].
  destruct (Hk l Hu) as (l' & Hu' & E). exists l'. split; [done|]. intros k' [Hk1 Hk2]%not_elem_of_cons. rewrite <- Hl by done.
  unfold only in *. rewrite !filter_app. f_equal. fold (only k' l') (only k' l). rewrite <- (only_others k' k l'), E by done. by apply only_others.
Qed.

Lemma it_inv_step a0 a1 d0 s s' : 0 <= iterators d0 -> it_inv d0 s -> it_step a0 a1 s s' -> it_inv d0 s'.
Proof.
  intros H0 Hinv Hstep. destruct Hstep as [d it seen tk d' it' he E|d it seen tk k d' r Hf Hroom E|d it seen tk can k v d' b Hf Hroom E|d it seen tk k d' b Hf Hroom Hn E];
    pose proof Hinv as [Hw Hs Hp (l & Hu & Hl)]; cbn [st_d st_it st_seen st_touched] in *; unfold room in *.
  - destruct (next_spec a0 a1 d it l Hw Hu) as (it1 & E1 & Hu1 & Hs1 & _ & _ & Hf1 & _). rewrite E1 in E. injection E as <- <- Hhd.
    destruct (entered_same d it) as (E0 & E2 & E3). split; cbn [st_d st_it st_seen st_touched]; [by apply (same_wf d)|congruence| |].
    + rewrite Hf1. unfold entered. rewrite Hs, andb_true_r. destruct (fresh_iter it); cbn; lia.
    + exists (tail l). split; [done|]. intros k Hk. destruct l as [|x l]; [done|]. cbn in Hhd. injection Hhd as ->. rewrite <- Hl by done.
      by rewrite <- app_assoc.
  - assert (d' = d) as ->; [|done]. apply (find_keeps k d d' r); [|done]. rewrite Hp, Hf. lia.
  - destruct (addraw_spec can d k v Hw ltac:(lia)) as (d1 & r & E1 & Hw1 & Hi1 & _). unfold dictAdd in E. rewrite E1 in E.
    cbn [mbind option_bind] in E. injection E as <- <-. eapply it_inv_edit; [done|done|done|]. intros l0.
    apply (add_keeps can d k v d1 (match r with Slot _ => true | _ => false end)); [done|rewrite Hp, Hf; lia|lia|]. unfold dictAdd. by rewrite E1.
  - destruct (delete_spec d k Hw ltac:(lia)) as (d1 & r & E1 & Hw1 & Hi1 & _). unfold dictDelete in E. rewrite E1 in E.
    cbn [mbind option_bind] in E. injection E as <- <-. eapply it_inv_edit; [done|done|done|]. intros l0 Hl0.
    by apply (dict_delete_keeps d k d1 r); [|rewrite Hp, Hf; lia|..].
Qed.

Lemma it_inv_reachable a0 a1 d0 s : dict_wf d0 -> 0 <= iterators d0 ->
  rtc (it_step a0 a1) (mk_st d0 dictGetSafeIterator [] []) s -> it_inv d0 s.
Proof.
  intros Hwf H0 Hr. pose proof (it_inv_start d0 Hwf) as Hi. induction Hr as [|x y z Hxy _ IH]; [done|]. apply IH. by eapply it_inv_step.
Qed.

Lemma from_index_incl ht i e : e ∈ from_index ht i -> e ∈ entries_ht ht.
Proof.
  unfold from_index, entries_ht. destruct (table ht) as [t|]; [|done]. intros He. rewrite <- (take_drop (Z.to_nat i) t), concat_app.
  apply elem_of_app. by right.
Qed.

Lemma upcoming_entries d it l e : dict_wf d -> upcoming d it l -> e ∈ l -> e ∈ entries d.
Proof.
  intros Hwf Hu. assert (forall j i, e ∈ from_index (ht_at d j) i -> e ∈ entries d) as Hf.
  { intros j i He%from_index_incl. unfold entries, ht_at in *. apply elem_of_app. destruct (j =? 0); auto. }
  assert (forall j, e ∈ second d j -> e ∈ entries d) as Hs.
  { intros j. unfold second. destruct (_ && _); [|by intros ?%elem_of_nil]. intros He. apply elem_of_app. by right. }
  destruct Hu as [_ _ _|k A B _ _ _ Hb _]; rewrite ?elem_of_app; [naive_solver|]. intros [He|[He|He]]; [|by eapply Hf|by eapply Hs].
  eapply bucket_entries; [done..|]. apply elem_of_app. by right.
Qed.

(** ** A whole iteration *)

Fixpoint iterate (fuel : nat) (a0 a1 : Z) d (it : dictIterator) : option (list (K * V) * dict K V * dictIterator) :=
  match fuel with
  | O => None
  | S fuel =>
      '(d, it, he) ← dictNext a0 a1 d it;
      match he with
      | None => Some ([], d, it)
      | Some he => '(l, d, it) ← iterate fuel a0 a1 d it; Some (he :: l, d, it)
      end
  end.

Lemma iterate_spec fuel a0 a1 : forall d it l, dict_wf d -> upcoming d it l -> (length l < fuel)%nat ->
  exists it', iterate fuel a0 a1 d it = Some (l, entered d it, it') /\ it_safe it' = it_safe it /\ fresh_iter it' = false /\
    (it_safe it = false -> it_fingerprint it' = if fresh_iter it then dictFingerprint a0 a1 d else it_fingerprint it).
Proof.
  induction fuel as [|fuel IH]; intros d it l Hwf Hu Hf; [lia|]. cbn [iterate].
  destruct (next_spec a0 a1 d it l Hwf Hu) as (it1 & -> & Hu1 & Hs1 & Hf1 & Hf2 & Hf3 & _). cbn [mbind option_bind].
  assert (it_safe it = false -> it_fingerprint it1 = if fresh_iter it then dictFingerprint a0 a1 d else it_fingerprint it) as Hfp.
  { destruct (fresh_iter it); auto. }
  destruct l as [|he l]; cbn [head]; [by exists it1|]. destruct (entered_same d it) as (E0 & E1 & Er).
  destruct (IH (entered d it) it1 l) as (it2 & -> & Hs2 & Hf4 & Hf5); [by apply (same_wf d)|done|cbn in Hf; lia|]. cbn [mbind option_bind].
  assert (entered (entered d it) it1 = entered d it) as -> by (unfold entered at 1; by rewrite Hf3).
  exists it2. split; [done|]. split; [congruence|]. split; [done|]. intros Hs. rewrite Hf5 by congruence. rewrite Hf3. auto.
Qed.

(** ** Random entries *)

Lemma size_at d j : dict_wf d -> ht0 d <> dictReset -> (j = 0 \/ dictIsRehashing d = true) ->
  4 <= size (ht_at d j) <= 2 ^ 62 /\ sizemask (ht_at d j) = size (ht_at d j) - 1 /\
  (forall r, 0 <= Z.land r (sizemask (ht_at d j)) < size (ht_at d j)) /\
  forall i, 0 <= i < size (ht_at d j) -> exists c, bucket (ht_at d j) i = Some c.
Proof.
  intros Hwf Hne Hj. assert (exists t, ht_live (ht_at d j) t) as (t & Hl).
  { destruct (wf_tables d Hwf Hne) as (t0 & Hl0 & Ht). destruct (decide (j = 0)) as [->|]; [by exists t0|]. destruct Hj as [|Er]; [done|].
    destruct Ht as [[E _]|[_ (t1 & Hl1)]]; [congruence|]. exists t1. unfold ht_at. by rewrite (proj2 (Z.eqb_neq _ _)). }
  split; [by eapply size_pos|]. split; [by eapply live_mask|]. split; [intros r; by eapply mask_range|].
  intros i Hi. destruct (bucket_live _ _ i Hl Hi) as (c & -> & _). by eexists.
Qed.

Lemma rehashidx_range d : dict_wf d -> dictIsRehashing d = true -> 0 <= rehashidx d <= size (ht0 d).
Proof. intros [Hp _] Er. destruct Hp as [Hi|t Hi|t0 t1 Hi]; [by rewrite (proj2 (rehashing_false d)) in Er..|done]. Qed.

Lemma draw_bucket_spec d rnd : dict_wf d -> ht0 d <> dictReset -> Forall (fun r => 0 <= r) rnd ->
  exists r, draw_bucket d rnd = Some r /\ match r with
    | Some (c, rnd') => c <> [] /\ (forall e, e ∈ c -> e ∈ entries d) /\ Forall (fun r => 0 <= r) rnd' | None => True end.
Proof.
  intros Hwf Hne. induction rnd as [|r rnd IH]; intros Hr; [by eexists|]. apply Forall_cons in Hr as [Hr0 Hr]. cbn [draw_bucket].
  assert (exists j i c, random_bucket d r = Some c /\ bucket (ht_at d j) i = Some c) as (j & i & c & -> & Hb).
  { unfold random_bucket. destruct (size_at d 0 Hwf Hne (or_introl eq_refl)) as (Hs0 & _ & Hm0 & Hb0). change (ht_at d 0) with (ht0 d) in *.
    destruct (dictIsRehashing d) eqn:Er.
    - pose proof (rehashidx_range d Hwf Er). destruct (size_at d 1 Hwf Hne (or_intror Er)) as (Hs1 & _ & _ & Hb1). change (ht_at d 1) with (ht1 d) in *.
      change (2 ^ 62) with 4611686018427387904 in *. cbv zeta. rewrite (u64_id (size (ht0 d) + _ - _)) by lia.
      pose proof (Z.mod_pos_bound r (size (ht0 d) + size (ht1 d) - rehashidx d) ltac:(lia)). rewrite u64_id by lia. rewrite Z.geb_leb.
      set (h := rehashidx d + _) in *. destruct (Z.leb_spec (size (ht0 d)) h).
      + destruct (Hb1 (h - size (ht0 d)) ltac:(lia)) as [c Ec]. by exists 1, (h - size (ht0 d)), c.
      + destruct (Hb0 h ltac:(lia)) as [c Ec]. by exists 0, h, c.
    - destruct (Hb0 _ (Hm0 r)) as [c Ec]. by exists 0, (Z.land r (sizemask (ht0 d))), c. }
  cbn [mbind option_bind]. destruct c as [|e c]; [by apply IH|]. eexists. split; [done|]. split; [done|]. split; [|done].
  intros e' He'. by eapply bucket_entries.
Qed.

Lemma pick_spec {A} (l : list A) r : 0 <= r -> l <> [] -> exists x, l.[r mod zlen l] = Some x /\ x ∈ l.
Proof.
  intros Hr Hl. assert (0 < zlen l) by (destruct l; [done|rewrite zlen_cons; pose proof (zlen_nonneg l); lia]).
  destruct (znth_is_Some l (r mod zlen l)) as [x Ex]; [apply Z.mod_pos_bound; lia|]. exists x. split; [done|].
  rewrite znth_nat in Ex by (apply Z.mod_pos_bound; lia). by eapply list_elem_of_lookup_2.
Qed.

Lemma random_key_spec d rnd : dict_wf d -> zlen (entries d) < DICT_BOUND -> Forall (fun r => 0 <= r) rnd ->
  exists d' r, dictGetRandomKey d rnd = Some (d', r) /\ dict_wf d' /\ entries d' ≡ₚ entries d /\
    match r with NoEntry => entries d = [] | Entry he => he ∈ entries d | OutOfNumbers => True end.
Proof.
  intros Hwf Hb Hr. unfold dictGetRandomKey. destruct (size_entries d Hwf Hb) as [-> _].
  destruct (Z.eqb_spec (zlen (entries d)) 0) as [E|E]; [exists d, NoEntry; split_and!; try done; by apply zlen_0_nil|].
  destruct (step_spec d Hwf Hb) as (d1 & -> & Hwf1 & He1 & _). cbn [mbind option_bind].
  assert (ht0 d1 <> dictReset) as Hne.
  { apply nonempty_ht0; [done|]. intros En. rewrite En in He1. apply E. rewrite <- (zlen_perm _ _ He1). done. }
  destruct (draw_bucket_spec d1 rnd Hwf1 Hne Hr) as (r & -> & Hc). cbn [mbind option_bind].
  destruct r as [[c [|r rnd']]|]; [by exists d1, OutOfNumbers| |by exists d1, OutOfNumbers].
  destruct Hc as (Hcn & Hce & Hrn). apply Forall_cons in Hrn as [Hr0 _]. destruct (pick_spec c r Hr0 Hcn) as (he & -> & Hin).
  cbn [mbind option_bind]. exists d1, (Entry he). split_and!; try done. rewrite <- He1. by apply Hce.
Qed.

Lemma rehash_some_spec n : forall d, dict_wf d -> zlen (entries d) < DICT_BOUND ->
  exists d', rehash_some n d = Some d' /\ dict_wf d' /\ entries d' ≡ₚ entries d.
Proof.
  induction n as [|n IH]; intros d Hwf Hb; cbn [rehash_some]; [by exists d|]. destruct (dictIsRehashing d) eqn:Er; [|by exists d].
  destruct (step_spec d Hwf Hb) as (d1 & E & Hwf1 & He1 & _). unfold step_if_rehashing in E. rewrite Er in E. rewrite E. cbn [mbind option_bind].
  destruct (IH d1 Hwf1) as (d2 & -> & Hwf2 & He2); [by rewrite (zlen_perm _ _ He1)|]. exists d2. split; [done|]. split; [done|]. by rewrite He2.
Qed.

(** The entries stored are entries of the dictionary, and no more than asked for. *)
Definition sample_ok d (count : Z) (s : sample) : Prop :=
  0 <= s_i s /\ zlen (s_des s) <= count /\ (forall e, e ∈ s_des s -> e ∈ entries d) /\ Forall (fun r => 0 <= r) (s_rnd s).
Definition sampled_ok d (count : Z) (r : sampled) : Prop :=
  match r with More s => sample_ok d count s /\ zlen (s_des s) < count | Done s => sample_ok d count s | Dry => True end.

Lemma collect_ok d count c : forall s, (forall e, e ∈ c -> e ∈ entries d) -> sample_ok d count s -> zlen (s_des s) < count ->
  sampled_ok d count (collect c count s).
Proof.
  induction c as [|he c IH]; intros s Hc (Hi & Hl & Hd & Hr) Hlt; cbn [collect]; [done|].
  set (s1 := mk_sample _ _ _ _). assert (zlen (s_des s1) = zlen (s_des s) + 1) as Hl1 by (cbn; len).
  assert (sample_ok d count s1) as Hs1.
  { split; [done|]. split; [lia|]. split; [|done]. intros e [He| ->%list_elem_of_singleton]%elem_of_app; [by apply Hd|]. apply Hc. left. }
  destruct (Z.eqb_spec (zlen (s_des s1)) count); [done|]. apply IH; [|done|lia]. intros e He. apply Hc. by right.
Qed.

Section Sampling.
Context (d : dict K V) (count mask : Z).
Hypothesis Hwf : dict_wf d.
Hypothesis Hne : ht0 d <> dictReset.
Hypothesis Hmask : 0 <= mask.

Lemma sample_table_ok j s : (j = 0 \/ j = 1 /\ dictIsRehashing d = true) -> sample_ok d count s -> zlen (s_des s) < count ->
  exists r, sample_table d (if dictIsRehashing d then 2 else 1) mask count j s = Some r /\ sampled_ok d count r.
Proof.
  intros Hj Hs Hlt. unfold sample_table. set (skip := _ && (s_i s <? u64 (rehashidx d))).
  destruct (skip && (s_i s <? size (ht1 d))); [exists (More s); split; [done|by split]|].
  set (s1 := if skip then _ else s).
  assert (sample_ok d count s1 /\ s_des s1 = s_des s) as [Hs1 Hd1].
  { subst s1 skip. destruct (dictIsRehashing d) eqn:Er; [|done]. destruct (_ && _); [|done]. destruct Hs as (Hi & Hl & Hd & Hr).
    pose proof (rehashidx_range d Hwf Er). split; [|done]. split; [cbn; lia|done]. }
  clearbody s1. clear skip. destruct Hs1 as (Hi & Hl & Hd & Hr). rewrite Z.geb_leb. destruct (Z.leb_spec (size (ht_at d j)) (s_i s1)).
  { eexists. split; [done|]. split; [by split_and!|by rewrite Hd1]. }
  destruct (size_at d j Hwf Hne ltac:(tauto)) as (_ & _ & _ & Hb). destruct (Hb (s_i s1) ltac:(lia)) as [c Ec]. rewrite Ec. cbn [mbind option_bind].
  destruct c as [|e c].
  - destruct (_ && _); [|eexists; split; [done|]; split; [by split_and!|by cbn; rewrite Hd1]].
    destruct (s_rnd s1) as [|r rnd] eqn:Ernd; [by eexists|]. apply Forall_cons in Hr as [Hr0 Hr].
    eexists. split; [done|]. split; [|by cbn; rewrite Hd1]. split; [cbn; apply Z.land_nonneg; lia|done].
  - eexists. split; [done|]. apply collect_ok; [intros x Hx; by eapply bucket_entries|by split_and!|by cbn; rewrite Hd1].
Qed.

Lemma sample_loop_ok n : forall s, sample_ok d count s ->
  exists r, sample_loop n d (if dictIsRehashing d then 2 else 1) mask count s = Some r /\ sampled_ok d count r.
Proof.
  induction n as [|n IH]; intros s Hs; cbn [sample_loop]; rewrite Z.geb_leb;
    (destruct (Z.leb_spec count (zlen (s_des s))); [by eexists|]); [by eexists|].
  destruct (sample_table_ok 0 s (or_introl eq_refl) Hs ltac:(lia)) as (r & -> & Hr). cbn [mbind option_bind].
  assert (exists r1, match r with
      | More s0 => if (if dictIsRehashing d then 2 else 1) =? 2
          then sample_table d (if dictIsRehashing d then 2 else 1) mask count 1 s0 else Some (More s0)
      | _ => Some r end = Some r1 /\ sampled_ok d count r1) as (r1 & -> & Hr1).
  { destruct r as [s0|s0|]; [|by eexists|by eexists]. destruct Hr as [Hs0 Hl0]. destruct (dictIsRehashing d) eqn:Er; cbn [Z.eqb].
    - pose proof (sample_table_ok 1 s0) as Ht. rewrite Er in Ht. apply Ht; [by right|done|done].
    - eexists. split; [done|]. by split. }
  cbn [mbind option_bind]. destruct r1 as [s1|s1|]; [|by eexists|by eexists]. destruct Hr1 as [(Hi & Hl & Hd & Hr') Hlt].
  apply IH. split; [cbn; apply Z.land_nonneg; lia|done].
Qed.

End Sampling.

Lemma some_keys_spec d count rnd : dict_wf d -> zlen (entries d) < DICT_BOUND -> 0 <= count -> Forall (fun r => 0 <= r) rnd ->
  exists d' r, dictGetSomeKeys d count rnd = Some (d', r) /\ dict_wf d' /\ entries d' ≡ₚ entries d /\
    match r with
    | Some (des, rnd') => zlen des <= count /\ zlen des <= zlen (entries d) /\ (forall e, e ∈ des -> e ∈ entries d) /\
        Forall (fun r => 0 <= r) rnd'
    | None => True
    end.
Proof.
  intros Hwf Hb Hc Hr. unfold dictGetSomeKeys. destruct (size_entries d Hwf Hb) as [-> _].
  set (n := if zlen (entries d) <? count then zlen (entries d) else count).
  assert (0 <= n <= count /\ n <= zlen (entries d)) as Hn by (subst n; pose proof (zlen_nonneg (entries d)); zcase; lia). clearbody n.
  destruct (rehash_some_spec (Z.to_nat n) d Hwf Hb) as (d1 & -> & Hwf1 & He1). cbn [mbind option_bind].
  destruct rnd as [|r rnd]; [by exists d1, None|]. apply Forall_cons in Hr as [Hr0 Hr].
  set (mask := if _ && _ then _ else _).
  assert (0 <= mask) as Hmask.
  { assert (forall j, 0 <= sizemask (ht_at d1 j)) as Hm.
    { intros j. destruct (wf_table_ok d1 j Hwf1) as [->|(t & Hl)]; [done|]. rewrite (live_mask _ _ Hl). pose proof (size_pos _ _ Hl). lia. }
    subst mask. destruct (_ && _); [apply (Hm 1)|apply (Hm 0)]. }
  clearbody mask. set (s0 := mk_sample _ _ _ _).
  assert (sample_ok d1 n s0) as Hs0 by (split_and!; [apply Z.land_nonneg; lia|cbn; rewrite zlen_nil; lia|by intros e ?%elem_of_nil|done]).
  assert (exists r1, sample_loop (Z.to_nat (u32 (n * 10))) d1 (if dictIsRehashing d1 then 2 else 1) mask n s0 = Some r1 /\ sampled_ok d1 n r1) as (r1 & -> & Hr1).
  { destruct (entries d1) as [|e0 l0] eqn:En; [|apply sample_loop_ok; [done|apply nonempty_ht0; [done|by rewrite En]|done|done]].
    apply zlen_perm in He1. rewrite zlen_nil in He1. assert (n = 0) as -> by lia. change (Z.to_nat (u32 (0 * 10))) with O.
    cbn. eexists. split; [done|]. done. }
  cbn [mbind option_bind]. assert (forall s, sample_ok d1 n s -> zlen (s_des s) <= count /\ zlen (s_des s) <= zlen (entries d) /\
    (forall e, e ∈ s_des s -> e ∈ entries d) /\ Forall (fun r => 0 <= r) (s_rnd s)) as Hok.
  { intros s (_ & Hl & Hd & Hrr). split_and!; [lia|lia| |done]. intros e He. rewrite <- He1. by apply Hd. }
  destruct r1 as [s1|s1|]; [destruct Hr1 as [Hr1 _]| |by exists d1, None]; eexists d1, _; split_and!; try done; by apply Hok.
Qed.

Lemma fair_spec d rnd : dict_wf d -> zlen (entries d) < DICT_BOUND -> Forall (fun r => 0 <= r) rnd ->
  exists d' r, dictGetFairRandomKey d rnd = Some (d', r) /\ dict_wf d' /\ entries d' ≡ₚ entries d /\
    match r with NoEntry => entries d = [] | Entry he => he ∈ entries d | OutOfNumbers => True end.
Proof.
  intros Hwf Hb Hr. unfold dictGetFairRandomKey, GETFAIR_NUM_ENTRIES.
  destruct (some_keys_spec d 15 rnd Hwf Hb ltac:(lia) Hr) as (d1 & r & -> & Hwf1 & He1 & Hs). cbn [mbind option_bind].
  destruct r as [[des rnd1]|]; [|by exists d1, OutOfNumbers]. destruct Hs as (_ & _ & Hin & Hr1).
  destruct (Z.eqb_spec (zlen des) 0) as [E|E].
  { destruct (random_key_spec d1 rnd1 Hwf1) as (d2 & r & -> & Hwf2 & He2 & Hm); [by rewrite (zlen_perm _ _ He1)|done|].
    exists d2, r. split_and!; [done|done|by rewrite He2|]. destruct r as [|he|]; [|by rewrite <- He1|done].
    rewrite Hm in He1. by apply Permutation_nil_l in He1. }
  destruct rnd1 as [|n rnd1]; [by exists d1, OutOfNumbers|]. pose proof (zlen_nonneg des).
  destruct (znth_is_Some des (n mod zlen des)) as [he Ehe]; [apply Z.mod_pos_bound; lia|]. rewrite Ehe. cbn [mbind option_bind].
  exists d1, (Entry he). split_and!; try done. apply Hin. rewrite znth_nat in Ehe by (apply Z.mod_pos_bound; lia). by eapply list_elem_of_lookup_2.
Qed.

End Iter.

(** ** Properties *)

(** An iteration that does not modify the dictionary returns every entry exactly once, table by table and
    bucket by bucket, also in the middle of a rehash, for safe and unsafe iterators; releasing the iterator
    passes the fingerprint check of an unsafe one, ends the pause of rehashing of a safe one and leaves the
    dictionary as it was. *)
Theorem dict_iteration {K V : Type} `{EqDecision K} `{DictType K} (a0 a1 : Z) (d : dict K V) (safe : bool) : dict_wf d ->
  exists d' it, iterate (S (length (entries d))) a0 a1 d (if safe then dictGetSafeIterator else dictGetIterator) =
      Some (entries d, d', it) /\ dictReleaseIterator a0 a1 d' it = Some d /\ NoDup (entries d).*1.
Proof.
  intros Hwf. assert (upcoming d (if safe then dictGetSafeIterator else dictGetIterator) (entries d)) as Hu by (destruct safe; by apply upcoming_start).
  destruct (iterate_spec (S (length (entries d))) a0 a1 _ _ _ Hwf Hu) as (it & -> & Hs & Hf & Hfp); [lia|].
  eexists _, it. split; [done|]. split; [|apply Hwf]. unfold dictReleaseIterator. fold (fresh_iter it). rewrite Hf, Hs. cbn [negb]. destruct safe.
  - cbn. f_equal. unfold entered. cbn. destruct d as [h0 h1 i n]. unfold set_iterators. cbn. f_equal. lia.
  - rewrite Hfp by done. cbn. by rewrite Z.eqb_refl.
Qed.

(** C13. A safe iterator whose client adds, deletes and looks up entries between the calls, but does not delete the entry
    that the iterator has saved as the next one of the chain it stands in (deleting the entry just returned is
    allowed): in every reachable state the next call completes and returns an entry
    that is in the dictionary, and when it returns NULL every entry whose key was neither added nor deleted
    has been returned exactly once. *)
Theorem dict_safe_iteration {K V : Type} `{EqDecision K} `{DictType K} (a0 a1 : Z) (d0 : dict K V) s :
  dict_wf d0 -> 0 <= iterators d0 -> rtc (it_step a0 a1) (mk_st d0 dictGetSafeIterator [] []) s ->
  exists d' it' r, dictNext a0 a1 (st_d s) (st_it s) = Some (d', it', r) /\ dict_wf d' /\
    (forall he, r = Some he -> he ∈ entries (st_d s)) /\
    (r = None -> forall k, k ∉ st_touched s -> filter (fun e => e.1 = k) (st_seen s) = filter (fun e => e.1 = k) (entries d0)).
Proof.
  intros Hwf H0 Hr. destruct (it_inv_reachable _ _ _ _ Hwf H0 Hr) as [Hw Hs Hp (l & Hu & Hl)].
  destruct (next_spec a0 a1 _ _ l Hw Hu) as (it1 & -> & _). eexists _, it1, _. split; [done|].
  destruct (entered_same (st_d s) (st_it s)) as (E0 & E1 & Er). split; [by apply (same_wf (st_d s))|].
  split; [intros he Hh; apply (upcoming_entries (st_d s) (st_it s) l); [done|done|]; destruct l; [done|]; injection Hh as ->; left|].
  intros Hn k Hk. destruct l as [|x l]; [|done]. specialize (Hl k Hk). by rewrite app_nil_r in Hl.
Qed.

(** dictGetRandomKey never reads outside the tables: it returns NULL only for an empty dictionary and
    otherwise an entry of it, and it does not change the entries. *)
Theorem dictGetRandomKey_entry {K V : Type} `{EqDecision K} `{DictType K} (d : dict K V) rnd :
  dict_wf d -> zlen (entries d) < DICT_BOUND -> Forall (fun r => 0 <= r) rnd ->
  exists d' r, dictGetRandomKey d rnd = Some (d', r) /\ dict_wf d' /\ entries d' ≡ₚ entries d /\
    match r with NoEntry => entries d = [] | Entry he => he ∈ entries d | OutOfNumbers => True end.
Proof. apply random_key_spec. Qed.

(** dictGetSomeKeys stores at most [count] entries, all of them entries of the dictionary, whatever the
    random numbers are. *)
Theorem dictGetSomeKeys_bounded {K V : Type} `{EqDecision K} `{DictType K} (d : dict K V) count rnd :
  dict_wf d -> zlen (entries d) < DICT_BOUND -> 0 <= count -> Forall (fun r => 0 <= r) rnd ->
  exists d' r, dictGetSomeKeys d count rnd = Some (d', r) /\ dict_wf d' /\ entries d' ≡ₚ entries d /\
    match r with
    | Some (des, _) => zlen des <= count /\ zlen des <= zlen (entries d) /\ (forall e, e ∈ des -> e ∈ entries d)
    | None => True
    end.
Proof.
  intros Hwf Hb Hc Hr. destruct (some_keys_spec d count rnd Hwf Hb Hc Hr) as (d' & r & E & H1 & H2 & H3). exists d', r. split_and!; try done.
  destruct r as [[des rnd']|]; [|done]. tauto.
Qed.

(** A safe iterator does not survive the deletion of the entry it has saved: the chain of bucket 0 holds 8, 4
    and 0; after 8 was returned, deleting 4 leaves [nextEntry] pointing to a released entry. *)
Definition demo_chain : dict Z Z :=
  default dictInit (fst <$> dict_run dictInit [DAdd true 0 1; DAdd true 4 2; DAdd true 8 3]).

Theorem dictNext_after_delete :
  exists d it d', dictNext 0 0 demo_chain dictGetSafeIterator = Some (d, it, Some (8, 3)) /\
    dictDelete d 4 = Some (d', true) /\ dictNext 0 0 d' it = None.
Proof. eexists _, _, _. split; [vm_compute; reflexivity|]. split; vm_compute; reflexivity. Qed.

(** ** Witnesses *)

Lemma dict_iteration_witness :
  exists d' it, iterate 6 0 0 demo_rehash dictGetIterator = Some (entries demo_rehash, d', it) /\
    dictReleaseIterator 0 0 d' it = Some demo_rehash /\ NoDup (entries demo_rehash).*1.
Proof. exact (dict_iteration 0 0 demo_rehash false demo_rehash_wf). Defined.

(** The first entry of [demo_rehash] is returned and deleted. *)
Definition demo_it1 : dictIterator := mk_dictIter 0 0 true (Some 0) None 0.
Definition demo_d1 : dict Z Z := set_iterators 1 demo_rehash.
Definition demo_d2 : dict Z Z := default dictInit (fst <$> dictDelete demo_d1 0).

Lemma demo_run : rtc (it_step 0 0) (mk_st demo_rehash dictGetSafeIterator [] []) (mk_st demo_d2 demo_it1 [(0, 1)] [0]).
Proof.
  eapply rtc_l; [apply (StepNext 0 0 demo_rehash dictGetSafeIterator [] [] demo_d1 demo_it1 (0, 1)); vm_compute; reflexivity|].
  eapply rtc_l; [|apply rtc_refl]. apply (StepDelete 0 0 demo_d1 demo_it1 [(0, 1)] [] 0 demo_d2 true);
    [reflexivity|vm_compute; reflexivity|vm_compute; congruence|vm_compute; reflexivity].
Qed.

Lemma dict_safe_iteration_witness :
  exists d' it' r, dictNext 0 0 demo_d2 demo_it1 = Some (d', it', r) /\ dict_wf d' /\
    (forall he, r = Some he -> he ∈ entries demo_d2) /\
    (r = None -> forall k, k ∉ [0] -> filter (fun e : Z * Z => e.1 = k) [(0, 1)] = filter (fun e : Z * Z => e.1 = k) (entries demo_rehash)).
Proof.
  refine (dict_safe_iteration 0 0 demo_rehash (mk_st demo_d2 demo_it1 [(0, 1)] [0]) demo_rehash_wf _ demo_run). vm_compute. congruence.
Defined.

Lemma dictGetRandomKey_entry_witness :
  exists d' r, dictGetRandomKey demo_rehash [3; 7; 11; 2] = Some (d', r) /\ dict_wf d' /\ entries d' ≡ₚ entries demo_rehash /\
    match r with NoEntry => entries demo_rehash = [] | Entry he => he ∈ entries demo_rehash | OutOfNumbers => True end.
Proof. apply (dictGetRandomKey_entry demo_rehash [3; 7; 11; 2] demo_rehash_wf); [vm_compute; reflexivity|repeat constructor; lia]. Defined.

Lemma dictGetSomeKeys_bounded_witness :
  exists d' r, dictGetSomeKeys demo_rehash 3 [5; 1] = Some (d', r) /\ dict_wf d' /\ entries d' ≡ₚ entries demo_rehash /\
    match r with
    | Some (des, _) => zlen des <= 3 /\ zlen des <= zlen (entries demo_rehash) /\ (forall e, e ∈ des -> e ∈ entries demo_rehash)
    | None => True
    end.
Proof. apply (dictGetSomeKeys_bounded demo_rehash 3 [5; 1] demo_rehash_wf); [vm_compute; reflexivity|lia|repeat constructor; lia]. Defined.
