(* ===== verification/Adlist.v ===== *)
(** * Doubly linked lists (adlist.c, adlist.h)

    The nodes live in a heap, a finite map from addresses; a pointer is an
    optional address, [None] for NULL.  Following NULL or an address that holds
    no node is [None] as a result.  The values are an arbitrary type [V]; the
    dup and match methods of a list are optional functions, as the fields are
    optional function pointers.  The free method releases values and has no
    other effect; zfree removes the node from the heap. *)

From stdpp Require Import base list numbers option gmap sets.
From Stdlib Require Import ZArith Lia.
From S2P Require Import Prelude.

Abbreviation loc := positive.

Record listNode (V : Type) := mk_node { prev : option loc; next : option loc; value : V }.
Arguments mk_node {V}. Arguments prev {V}. Arguments next {V}. Arguments value {V}.

Record list_ (V : Type) := mk_list {
  head_ : option loc; tail_ : option loc; len : Z;
  dup : option (V -> option V); match_ : option (V -> V -> bool)
}.
Arguments mk_list {V}. Arguments head_ {V}. Arguments tail_ {V}. Arguments len {V}.
Arguments dup {V}. Arguments match_ {V}.

Inductive direction := AL_START_HEAD | AL_START_TAIL.
Record listIter := mk_iter { iter_next : option loc; dir : direction }.

Section Ops.
Context {V : Type}.
Abbreviation heap := (gmap loc (listNode V)).
Implicit Types (h : heap) (L : list_ V) (l : loc).

Definition set_prev h l (p : option loc) : option heap :=
  n ← h !! l; Some (<[l := mk_node p (next n) (value n)]> h).
Definition set_next h l (p : option loc) : option heap :=
  n ← h !! l; Some (<[l := mk_node (prev n) p (value n)]> h).
Definition set_head L (p : option loc) : list_ V := mk_list p (tail_ L) (len L) (dup L) (match_ L).
Definition set_tail L (p : option loc) : list_ V := mk_list (head_ L) p (len L) (dup L) (match_ L).
Definition set_len L (n : Z) : list_ V := mk_list (head_ L) (tail_ L) n (dup L) (match_ L).

(** [zmalloc(sizeof(node))]: an address that holds no node. *)
Definition new_node h : loc := fresh (dom h : gset loc).

Definition listCreate : list_ V := mk_list None None 0 None None.

Fixpoint empty_loop (n : nat) h (current : option loc) : option heap :=
  match n with
  | O => Some h
  | S n =>
      l ← current;
      nd ← h !! l;
      empty_loop n (delete l h) (next nd)
  end.

Definition listEmpty h L : option (heap * list_ V) :=
  h ← empty_loop (Z.to_nat (len L)) h (head_ L);
  Some (h, set_len (set_tail (set_head L None) None) 0).

Definition listAddNodeHead h L (v : V) : option (heap * list_ V) :=
  let node := new_node h in
  if len L =? 0 then
    let h := <[node := mk_node None None v]> h in
    let L := set_tail (set_head L (Some node)) (Some node) in
    Some (h, set_len L (u64 (len L + 1)))
  else
    let h := <[node := mk_node None (head_ L) v]> h in
    hd ← head_ L;
    h ← set_prev h hd (Some node);
    let L := set_head L (Some node) in
    Some (h, set_len L (u64 (len L + 1))).

Definition listAddNodeTail h L (v : V) : option (heap * list_ V) :=
  let node := new_node h in
  if len L =? 0 then
    let h := <[node := mk_node None None v]> h in
    let L := set_tail (set_head L (Some node)) (Some node) in
    Some (h, set_len L (u64 (len L + 1)))
  else
    let h := <[node := mk_node (tail_ L) None v]> h in
    tl ← tail_ L;
    h ← set_next h tl (Some node);
    let L := set_tail L (Some node) in
    Some (h, set_len L (u64 (len L + 1))).

Definition listInsertNode h L (old_node : loc) (v : V) (after : bool) : option (heap * list_ V) :=
  let node := new_node h in
  old ← h !! old_node;
  let '(nd, L) :=
    if after then
      (mk_node (Some old_node) (next old) v,
       if bool_decide (tail_ L = Some old_node) then set_tail L (Some node) else L)
    else
      (mk_node (prev old) (Some old_node) v,
       if bool_decide (head_ L = Some old_node) then set_head L (Some node) else L) in
  let h := <[node := nd]> h in
  h ← match prev nd with Some p => set_next h p (Some node) | None => Some h end;
  h ← match next nd with Some n => set_prev h n (Some node) | None => Some h end;
  Some (h, set_len L (u64 (len L + 1))).

Definition listDelNode h L (node : loc) : option (heap * list_ V) :=
  nd ← h !! node;
  '(h, L) ← match prev nd with
            | Some p => h ← set_next h p (next nd); Some (h, L)
            | None => Some (h, set_head L (next nd))
            end;
  nd ← h !! node;
  '(h, L) ← match next nd with
            | Some n => h ← set_prev h n (prev nd); Some (h, L)
            | None => Some (h, set_tail L (prev nd))
            end;
  Some (delete node h, set_len L (u64 (len L - 1))).

Definition listGetIterator L (d : direction) : listIter :=
  match d with
  | AL_START_HEAD => mk_iter (head_ L) d
  | AL_START_TAIL => mk_iter (tail_ L) d
  end.

Definition listRewind L : listIter := mk_iter (head_ L) AL_START_HEAD.
Definition listRewindTail L : listIter := mk_iter (tail_ L) AL_START_TAIL.

Definition listNext h (iter : listIter) : option (option loc * listIter) :=
  match iter_next iter with
  | None => Some (None, iter)
  | Some current =>
      nd ← h !! current;
      let n := match dir iter with AL_START_HEAD => next nd | AL_START_TAIL => prev nd end in
      Some (Some current, mk_iter n (dir iter))
  end.

(** The loop of listDup: the values are copied in order; [Some (h, None)] when
    the dup method fails and the copy is released. *)
Fixpoint dup_loop (fuel : nat) h (copy : list_ V) (iter : listIter) : option (heap * option (list_ V)) :=
  match fuel with
  | O => None
  | S fuel =>
      '(node, iter) ← listNext h iter;
      match node with
      | None => Some (h, Some copy)
      | Some l =>
          nd ← h !! l;
          match (match dup copy with Some f => f (value nd) | None => Some (value nd) end) with
          | None => '(h, _) ← listEmpty h copy; Some (h, None)
          | Some v => '(h, copy) ← listAddNodeTail h copy v; dup_loop fuel h copy iter
          end
      end
  end.

Definition listDup h (orig : list_ V) : option (heap * option (list_ V)) :=
  let copy := mk_list None None 0 (dup orig) (match_ orig) in
  dup_loop (S (Z.to_nat (len orig))) h copy (listRewind orig).

Fixpoint search_key_loop `{EqDecision V} (fuel : nat) h L (iter : listIter) (key : V) : option (option loc) :=
  match fuel with
  | O => None
  | S fuel =>
      '(node, iter) ← listNext h iter;
      match node with
      | None => Some None
      | Some l =>
          nd ← h !! l;
          if match match_ L with Some f => f (value nd) key | None => bool_decide (key = value nd) end
          then Some (Some l) else search_key_loop fuel h L iter key
      end
  end.

Definition listSearchKey `{EqDecision V} h L (key : V) : option (option loc) :=
  search_key_loop (S (Z.to_nat (len L))) h L (listRewind L) key.

(** [while(index-- && n) n = n->prev;] or [n->next]. *)
Fixpoint index_loop (fuel : nat) (d : direction) h (index : Z) (n : option loc) : option (option loc) :=
  match fuel with
  | O => None
  | S fuel =>
      if index =? 0 then Some n else
      match n with
      | None => Some None
      | Some l =>
          nd ← h !! l;
          index_loop fuel d h (index - 1) (match d with AL_START_HEAD => next nd | AL_START_TAIL => prev nd end)
      end
  end.

(** [-index] on a long. *)
Definition neg_long (index : Z) : option Z := if index =? - 2 ^ 63 then None else Some (- index).

Definition listIndex h L (index : Z) : option (option loc) :=
  let fuel := S (S (Z.to_nat (len L))) in
  if index <? 0 then m ← neg_long index; index_loop fuel AL_START_TAIL h (m - 1) (tail_ L)
  else index_loop fuel AL_START_HEAD h index (head_ L).

Definition listRotateTailToHead h L : option (heap * list_ V) :=
  if len L <=? 1 then Some (h, L) else
  tail ← tail_ L;
  tn ← h !! tail;
  let L := set_tail L (prev tn) in
  t ← tail_ L;
  h ← set_next h t None;
  hd ← head_ L;
  h ← set_prev h hd (Some tail);
  h ← set_prev h tail None;
  h ← set_next h tail (head_ L);
  Some (h, set_head L (Some tail)).

Definition listRotateHeadToTail h L : option (heap * list_ V) :=
  if len L <=? 1 then Some (h, L) else
  head ← head_ L;
  hn ← h !! head;
  let L := set_head L (next hn) in
  hd ← head_ L;
  h ← set_prev h hd None;
  t ← tail_ L;
  h ← set_next h t (Some head);
  h ← set_next h head None;
  h ← set_prev h head (tail_ L);
  Some (h, set_tail L (Some head)).

Definition listJoin h L (O : list_ V) : option (heap * list_ V * list_ V) :=
  h ← match head_ O with Some hd => set_prev h hd (tail_ L) | None => Some h end;
  '(h, L) ← match tail_ L with
            | Some t => h ← set_next h t (head_ O); Some (h, L)
            | None => Some (h, set_head L (head_ O))
            end;
  let L := match tail_ O with Some t => set_tail L (Some t) | None => L end in
  let L := set_len L (u64 (len L + len O)) in
  Some (h, L, set_len (set_tail (set_head O None) None) 0).

(** ** Representation

    [linked h p ls n]: the nodes [ls], addresses with their values in order, are
    chained both ways in the heap, between [p] before them and [n] after. *)

Abbreviation nodes := (list (loc * V)).
Implicit Types (ls : nodes) (p n : option loc).

Definition first ls n : option loc := match ls with [] => n | x :: _ => Some x.1 end.
Fixpoint final p ls : option loc := match ls with [] => p | x :: r => final (Some x.1) r end.

Fixpoint linked h p ls n : Prop :=
  match ls with
  | [] => True
  | x :: r => h !! x.1 = Some (mk_node p (first r n) x.2) /\ linked h (Some x.1) r n
  end.

Record list_repr h L ls : Prop := {
  repr_linked : linked h None ls None;
  repr_nodup : NoDup ls.*1;
  repr_head : head_ L = first ls None;
  repr_tail : tail_ L = final None ls;
  repr_len : len L = zlen ls;
  repr_max : zlen ls < 2 ^ 60
}.

(** The heap outside the nodes [ls] is not touched. *)
Definition untouched h h' ls : Prop := forall l, l ∉ ls.*1 -> h' !! l = h !! l.

Lemma first_app ls ls' n : first (ls ++ ls') n = first ls (first ls' n).
Proof. by destruct ls. Qed.
Lemma final_app p ls ls' : final p (ls ++ ls') = final (final p ls) ls'.
Proof. revert p. induction ls as [|x ls IH]; intros p; [done|]. apply IH. Qed.
Lemma final_snoc p ls x : final p (ls ++ [x]) = Some x.1.
Proof. by rewrite final_app. Qed.

Lemma linked_app h p ls ls' n :
  linked h p (ls ++ ls') n <-> linked h p ls (first ls' n) /\ linked h (final p ls) ls' n.
Proof.
  revert p. induction ls as [|x ls IH]; intros p; cbn; [tauto|].
  rewrite IH, first_app. tauto.
Qed.

Lemma linked_frame h h' p ls n :
  (forall l, l ∈ ls.*1 -> h' !! l = h !! l) -> linked h p ls n -> linked h' p ls n.
Proof.
  revert p. induction ls as [|x ls IH]; intros p Hf; [done|]. cbn. intros [Hx Hr]. split.
  - rewrite Hf; [done|left].
  - apply IH; [|done]. intros l Hl. apply Hf. by right.
Qed.

Lemma linked_insert h l nd p ls n : l ∉ ls.*1 -> linked h p ls n -> linked (<[l := nd]> h) p ls n.
Proof. intros Hl. apply linked_frame. intros l' Hl'. rewrite lookup_insert_ne; [done|]. by intros ->. Qed.

Lemma linked_delete h l p ls n : l ∉ ls.*1 -> linked h p ls n -> linked (delete l h) p ls n.
Proof. intros Hl. apply linked_frame. intros l' Hl'. rewrite lookup_delete_ne; [done|]. by intros ->. Qed.

Lemma linked_dom h p ls n l : linked h p ls n -> l ∈ ls.*1 -> l ∈ dom h.
Proof.
  revert p. induction ls as [|x ls IH]; intros p; cbn; [by intros _ ?%elem_of_nil|].
  intros [Hx Hr] [->|Hl]%elem_of_cons; [by apply elem_of_dom_2 in Hx|by eapply IH].
Qed.

Lemma set_next_spec h p ls x n n' :
  NoDup (ls ++ [x]).*1 -> linked h p (ls ++ [x]) n ->
  exists h', set_next h x.1 n' = Some h' /\ linked h' p (ls ++ [x]) n' /\
    (forall l, l <> x.1 -> h' !! l = h !! l) /\ dom h' = dom h.
Proof.
  intros Hn Hl. rewrite linked_app in Hl. cbn in Hl. destruct Hl as (Hls & Hx & _).
  unfold set_next. rewrite Hx. cbn. eexists. split; [done|]. split_and!.
  - rewrite linked_app. cbn. rewrite lookup_insert_eq. split; [|done]. apply linked_insert; [|done].
    rewrite fmap_app in Hn. apply NoDup_app in Hn as (_ & Hd & _). intros Hin. apply (Hd _ Hin). left.
  - intros l Hne. by rewrite lookup_insert_ne.
  - apply dom_insert_lookup_L. by rewrite Hx.
Qed.

Lemma set_prev_spec h p p' x ls n :
  NoDup (x :: ls).*1 -> linked h p (x :: ls) n ->
  exists h', set_prev h x.1 p' = Some h' /\ linked h' p' (x :: ls) n /\
    (forall l, l <> x.1 -> h' !! l = h !! l) /\ dom h' = dom h.
Proof.
  intros Hn [Hx Hls]. unfold set_prev. rewrite Hx. cbn [mbind option_bind]. eexists. split; [done|]. split_and!.
  - cbn. rewrite lookup_insert_eq. split; [done|]. apply linked_insert; [|done].
    by apply NoDup_cons in Hn as [? _].
  - intros l Hne. by rewrite lookup_insert_ne.
  - apply dom_insert_lookup_L. by rewrite Hx.
Qed.

Lemma new_node_fresh h : new_node h ∉ dom h.
Proof. unfold new_node. apply (is_fresh (dom h : gset loc)). Qed.


Lemma repr_new h L ls : list_repr h L ls -> new_node h ∉ ls.*1.
Proof. intros Hr Hin. apply (new_node_fresh h). eapply linked_dom; [apply Hr|done]. Qed.

Lemma zlen_0 ls : zlen ls = 0 -> ls = [].
Proof. apply zlen_0_nil. Qed.

(** Split off the last node. *)
Lemma snoc_cases ls : ls = [] \/ exists r x, ls = r ++ [x].
Proof. destruct ls as [|x r _] using rev_ind; [by left|right; eauto]. Qed.

Lemma create_repr h : list_repr h listCreate [].
Proof. split; try done. constructor. Qed.

Lemma add_head_spec h L ls v :
  list_repr h L ls -> zlen ls + 1 < 2 ^ 60 ->
  exists h' L' l, listAddNodeHead h L v = Some (h', L') /\ list_repr h' L' ((l, v) :: ls) /\
    untouched h h' ((l, v) :: ls) /\ (l ∉ dom h) /\ dup L' = dup L /\ match_ L' = match_ L.
Proof.
  intros Hr Hm. pose proof (repr_new _ _ _ Hr) as Hnew. pose proof (new_node_fresh h) as Hfr.
  destruct Hr as [Hl Hn Hh Ht Hlen Hmax]. unfold listAddNodeHead. set (node := new_node h) in *.
  clearbody node. pose proof (zlen_nonneg ls). change (2 ^ 60) with 1152921504606846976 in *.
  assert (u64 (len L + 1) = zlen ((node, v) :: ls)) as Eu by (rewrite zlen_cons, u64_id; lia).
  assert (forall h', (forall l, l <> node -> l ∉ ls.*1 -> h' !! l = h !! l) -> untouched h h' ((node, v) :: ls)) as Hun.
  { intros h' Hf l Hl1. rewrite fmap_cons, not_elem_of_cons in Hl1. apply Hf; tauto. }
  destruct (Z.eqb_spec (len L) 0) as [E|E].
  - assert (ls = []) as -> by (apply zlen_0; lia). eexists _, _, node. split; [done|]. split_and!; try done.
    + split; cbn; try done.
      * by rewrite lookup_insert_eq.
      * constructor; [apply not_elem_of_nil|constructor].
    + apply Hun. intros l Hne _. by rewrite lookup_insert_ne.
  - destruct ls as [|x ls]; [rewrite zlen_nil in *; lia|]. rewrite Hh. cbn [first mbind option_bind].
    destruct (set_prev_spec (<[node := mk_node None (Some x.1) v]> h) None (Some node) x ls None Hn)
      as (h' & -> & Hl' & Hf & Hd).
    { by apply linked_insert. }
    cbn [mbind option_bind]. eexists _, _, node. split; [done|]. split_and!; try done.
    + split; cbn [head_ tail_ len set_head set_len]; try done.
      * split; [|exact Hl']. cbn. rewrite Hf; [by rewrite lookup_insert_eq|].
        intros E'. apply Hnew. cbn in E'. rewrite E'. left.
      * by constructor.
      * rewrite zlen_cons. cbn. lia.
    + apply Hun. intros l Hne Hl0. rewrite Hf by (intros ->; apply Hl0; left). by rewrite lookup_insert_ne.
Qed.

Lemma add_tail_spec h L ls v :
  list_repr h L ls -> zlen ls + 1 < 2 ^ 60 ->
  exists h' L' l, listAddNodeTail h L v = Some (h', L') /\ list_repr h' L' (ls ++ [(l, v)]) /\
    untouched h h' (ls ++ [(l, v)]) /\ (l ∉ dom h) /\ dup L' = dup L /\ match_ L' = match_ L.
Proof.
  intros Hr Hm. pose proof (repr_new _ _ _ Hr) as Hnew. pose proof (new_node_fresh h) as Hfr.
  destruct Hr as [Hl Hn Hh Ht Hlen Hmax]. unfold listAddNodeTail. set (node := new_node h) in *.
  clearbody node. pose proof (zlen_nonneg ls). change (2 ^ 60) with 1152921504606846976 in *.
  assert (u64 (len L + 1) = zlen (ls ++ [(node, v)])) as Eu
    by (rewrite zlen_app; change (zlen [(node, v)]) with 1; rewrite u64_id; lia).
  assert (zlen (ls ++ [(node, v)]) < 1152921504606846976) as Hmax'
    by (rewrite zlen_app; change (zlen [(node, v)]) with 1; lia).
  assert (forall h', (forall l, l <> node -> l ∉ ls.*1 -> h' !! l = h !! l) -> untouched h h' (ls ++ [(node, v)])) as Hun.
  { intros h' Hf l Hl1. rewrite fmap_app, not_elem_of_app in Hl1. cbn in Hl1.
    rewrite not_elem_of_cons in Hl1. apply Hf; tauto. }
  destruct (Z.eqb_spec (len L) 0) as [E|E].
  - assert (ls = []) as -> by (apply zlen_0; lia). eexists _, _, node. split; [done|]. split_and!; try done.
    + split; cbn; try done.
      * by rewrite lookup_insert_eq.
      * constructor; [apply not_elem_of_nil|constructor].
    + apply Hun. intros l Hne _. by rewrite lookup_insert_ne.
  - destruct (snoc_cases ls) as [->|(r & x & ->)]; [rewrite zlen_nil in *; lia|].
    rewrite Ht, final_snoc. cbn [mbind option_bind].
    destruct (set_next_spec (<[node := mk_node (Some x.1) None v]> h) None r x None (Some node) Hn)
      as (h' & -> & Hl' & Hf & Hd).
    { by apply linked_insert. }
    cbn [mbind option_bind]. eexists _, _, node. split; [done|].
    assert (x.1 <> node) as Hxn.
    { intros E'. apply Hnew. rewrite fmap_app, elem_of_app. right. rewrite <- E'. left. }
    split_and!; try done.
    + split; cbn [head_ tail_ len set_tail set_len]; try done.
      * rewrite linked_app. split; [exact Hl'|]. cbn. rewrite final_snoc.
        rewrite Hf by done. by rewrite lookup_insert_eq.
      * rewrite (fmap_app _ (r ++ [x])). apply NoDup_app. split; [done|]. split; [|by apply NoDup_singleton].
        intros l Hl0 ->%list_elem_of_singleton. done.
      * by rewrite Hh, !first_app.
      * by rewrite final_snoc.
    + apply Hun. intros l Hne Hl0.
      rewrite Hf by (intros ->; apply Hl0; rewrite fmap_app, elem_of_app; right; left). by rewrite lookup_insert_ne.
Qed.

(** ** Insertion and deletion in the middle *)

(** Let the last node of a segment, or nothing, point to [n'] next. *)
Definition link_last h p n' : option heap := match p with Some l => set_next h l n' | None => Some h end.
Definition link_first h n p' : option heap := match n with Some l => set_prev h l p' | None => Some h end.

Lemma link_last_spec h A n n' :
  NoDup A.*1 -> linked h None A n ->
  exists h', link_last h (final None A) n' = Some h' /\ linked h' None A n' /\
    (forall l, l ∉ A.*1 -> h' !! l = h !! l) /\ dom h' = dom h.
Proof.
  intros Hn Hl. destruct (snoc_cases A) as [->|(r & x & ->)]; [by exists h|].
  rewrite final_snoc. destruct (set_next_spec h None r x n n' Hn Hl) as (h' & E & Hl' & Hf & Hd).
  exists h'. split_and!; try done. intros l Hl0. apply Hf. intros ->. apply Hl0.
  rewrite fmap_app, elem_of_app. right. left.
Qed.

Lemma link_first_spec h p p' B :
  NoDup B.*1 -> linked h p B None ->
  exists h', link_first h (first B None) p' = Some h' /\ linked h' p' B None /\
    (forall l, l ∉ B.*1 -> h' !! l = h !! l) /\ dom h' = dom h.
Proof.
  intros Hn Hl. destruct B as [|x B]; [by exists h|].
  destruct (set_prev_spec h p p' x B None Hn Hl) as (h' & E & Hl' & Hf & Hd).
  exists h'. split_and!; try done. intros l Hl0. apply Hf. intros ->. apply Hl0. left.
Qed.

Lemma nodup_app_inv (A B : nodes) : NoDup (A ++ B).*1 ->
  NoDup A.*1 /\ NoDup B.*1 /\ (forall l, l ∈ A.*1 -> l ∉ B.*1).
Proof. rewrite fmap_app, NoDup_app. tauto. Qed.

(** A fresh node between two segments. *)
Lemma insert_between h A B node v :
  NoDup (A ++ B).*1 -> linked h None (A ++ B) None -> node ∉ (A ++ B).*1 ->
  exists h1 h2, link_last (<[node := mk_node (final None A) (first B None) v]> h) (final None A) (Some node) = Some h1 /\
    link_first h1 (first B None) (Some node) = Some h2 /\
    linked h2 None (A ++ (node, v) :: B) None /\
    (forall l, l <> node -> l ∉ (A ++ B).*1 -> h2 !! l = h !! l).
Proof.
  intros Hn Hl Hnode. destruct (nodup_app_inv A B Hn) as (HA & HB & Hd).
  rewrite linked_app in Hl. destruct Hl as [HlA HlB].
  rewrite fmap_app, not_elem_of_app in Hnode. destruct Hnode as [HnA HnB].
  set (h0 := <[node := _]> h).
  destruct (link_last_spec h0 A (first B None) (Some node) HA) as (h1 & E1 & Hl1 & Hf1 & _);
    [by apply linked_insert|].
  assert (linked h1 (final None A) B None) as HlB1.
  { apply (linked_frame h0); [|by apply linked_insert].
    intros l Hl0. apply Hf1. intros HlA0. by apply (Hd l). }
  destruct (link_first_spec h1 (final None A) (Some node) B HB HlB1) as (h2 & E2 & Hl2 & Hf2 & _).
  exists h1, h2. split; [done|]. split; [done|]. split.
  - rewrite linked_app. cbn. split; [|split; [|done]].
    + eapply linked_frame; [|exact Hl1]. intros l Hl0. apply Hf2. by apply Hd.
    + rewrite Hf2, Hf1 by done. apply lookup_insert_eq.
  - intros l Hne Hl0. rewrite fmap_app, not_elem_of_app in Hl0. destruct Hl0.
    rewrite Hf2, Hf1 by done. subst h0. by rewrite lookup_insert_ne.
Qed.

(** The updates of head and tail by an insertion. *)
Lemma nodup_insert (A B : nodes) node v :
  NoDup (A ++ B).*1 -> node ∉ (A ++ B).*1 -> NoDup (A ++ (node, v) :: B).*1.
Proof.
  rewrite !fmap_app. cbn. intros Hn Hnode.
  rewrite <- Permutation_middle. by constructor.
Qed.

Lemma final_cons_eq p x (B : nodes) : NoDup (x :: B).*1 -> (final p (x :: B) = Some x.1 <-> B = []).
Proof.
  intros Hn. cbn. split; [|by intros ->]. destruct (snoc_cases B) as [->|(r & y & ->)]; [done|].
  rewrite final_snoc. intros [= E]. exfalso. rewrite fmap_cons in Hn. apply NoDup_cons in Hn as [Hx _]. apply Hx.
  rewrite fmap_app, elem_of_app. right. rewrite <- E. left.
Qed.

Lemma first_snoc_eq (A : nodes) x n : NoDup (A ++ [x]).*1 -> (first (A ++ [x]) n = Some x.1 <-> A = []).
Proof.
  intros Hn. destruct A as [|y A]; [done|]. cbn. split; [|done]. intros [= E]. exfalso.
  rewrite <- app_comm_cons, fmap_cons in Hn. apply NoDup_cons in Hn as [Hy _]. apply Hy. rewrite fmap_app, elem_of_app. right. rewrite E. left.
Qed.

Lemma insert_spec h L A x B v after :
  list_repr h L (A ++ x :: B) -> zlen (A ++ x :: B) + 1 < 2 ^ 60 ->
  exists h' L' l, listInsertNode h L x.1 v after = Some (h', L') /\
    list_repr h' L' (if (after : bool) then A ++ x :: (l, v) :: B else A ++ (l, v) :: x :: B) /\
    untouched h h' ((l, v) :: A ++ x :: B) /\ (l ∉ dom h).
Proof.
  intros Hr Hm. pose proof (repr_new _ _ _ Hr) as Hnew. pose proof (new_node_fresh h) as Hfr.
  destruct Hr as [Hl Hn Hh Ht Hlen Hmax]. unfold listInsertNode. set (node := new_node h) in *. clearbody node.
  assert (h !! x.1 = Some (mk_node (final None A) (first B None) x.2)) as Ex.
  { rewrite linked_app in Hl. cbn in Hl. tauto. }
  rewrite Ex. cbn [mbind option_bind prev next].
  assert (NoDup (A ++ [x]).*1 /\ NoDup (x :: B).*1) as [HnA HnB].
  { split; [|apply nodup_app_inv in Hn; tauto]. assert (A ++ x :: B = (A ++ [x]) ++ B) as E by lapp.
    rewrite E in Hn. apply nodup_app_inv in Hn. tauto. }
  pose proof (zlen_nonneg (A ++ x :: B)). change (2 ^ 60) with 1152921504606846976 in *.
  destruct after.
  - assert (A ++ x :: B = (A ++ [x]) ++ B) as Es by lapp. rewrite Es in *.
    destruct (insert_between h (A ++ [x]) B node v Hn Hl Hnew) as (h1 & h2 & E1 & E2 & Hl2 & Hf).
    rewrite final_snoc in E1. cbn [link_last] in E1. cbn [prev next]. rewrite E1. cbn [mbind option_bind].
    unfold link_first in E2. rewrite E2. cbn [mbind option_bind].
    eexists h2, _, node. split; [done|].
    assert (A ++ x :: (node, v) :: B = (A ++ [x]) ++ (node, v) :: B) as -> by lapp.
    split; [|split; [intros l [? ?]%not_elem_of_cons; by apply Hf|done]].
    assert (tail_ L = final None (x :: B)) as Ht' by (rewrite Ht, final_app, final_snoc; done).
    split; [done|by apply nodup_insert| | | |].
    + case_bool_decide; cbn; rewrite Hh, !first_app; done.
    + rewrite final_app. cbn. case_bool_decide as Eb; cbn.
      * rewrite Ht' in Eb. apply final_cons_eq in Eb as ->; [done|done].
      * rewrite Ht'. rewrite Ht' in Eb. cbn in *. destruct B; [done|done].
    + case_bool_decide; cbn; rewrite !zlen_app, ?zlen_cons in *; rewrite u64_id; lia.
    + rewrite !zlen_app, !zlen_cons in *. lia.
  - destruct (insert_between h A (x :: B) node v Hn Hl Hnew) as (h1 & h2 & E1 & E2 & Hl2 & Hf).
    cbn [first] in E1. unfold link_last in E1. cbn [prev next]. rewrite E1. cbn [mbind option_bind].
    cbn [first link_first] in E2. rewrite E2. cbn [mbind option_bind].
    eexists h2, _, node. split; [done|].
    split; [|split; [intros l [? ?]%not_elem_of_cons; by apply Hf|done]].
    assert (head_ L = first (A ++ [x]) None) as Hh' by (rewrite Hh, !first_app; done).
    split; [done|by apply nodup_insert| | | |].
    + case_bool_decide as Eb; cbn.
      * rewrite Hh' in Eb. apply first_snoc_eq in Eb as ->; done.
      * rewrite Hh' in Eb |- *. rewrite !first_app in *. destruct A; done.
    + case_bool_decide; cbn; rewrite Ht, !final_app; done.
    + case_bool_decide; cbn; rewrite !zlen_app, !zlen_cons in *; rewrite u64_id; lia.
    + rewrite !zlen_app, !zlen_cons in *. lia.
Qed.

Lemma del_node_spec h L A x B :
  list_repr h L (A ++ x :: B) ->
  exists h' L', listDelNode h L x.1 = Some (h', L') /\ list_repr h' L' (A ++ B) /\
    untouched h h' (A ++ x :: B) /\ h' !! x.1 = None.
Proof.
  intros [Hl Hn Hh Ht Hlen Hmax]. unfold listDelNode.
  rewrite linked_app in Hl. cbn in Hl. destruct Hl as (HlA & Ex & HlB). rewrite Ex.
  cbn [mbind option_bind prev next].
  destruct (nodup_app_inv A (x :: B) Hn) as (HA & HxB & Hd). apply NoDup_cons in HxB as HxB'.
  destruct HxB' as [HxnB HB]. assert (x.1 ∉ A.*1) as HxA by (intros Hin; apply (Hd _ Hin); left).
  assert (forall l, l ∈ A.*1 -> l ∉ B.*1) as HAB by (intros l Hin Hin'; apply (Hd _ Hin); by right).
  destruct (link_last_spec h A (Some x.1) (first B None) HA HlA) as (h1 & E1 & Hl1 & Hf1 & _).
  assert ((match final None A with
    | Some p => h ← set_next h p (first B None); Some (h, L)
    | None => Some (h, set_head L (first B None)) end) =
    Some (h1, match final None A with Some _ => L | None => set_head L (first B None) end)) as ->.
  { unfold link_last in E1. destruct (final None A); [by rewrite E1|by injection E1 as ->]. }
  cbn [mbind option_bind]. rewrite Hf1 by done. rewrite Ex. cbn [mbind option_bind prev next].
  assert (linked h1 (Some x.1) B None) as HlB1.
  { eapply linked_frame; [|exact HlB]. intros l Hl0. apply Hf1. intros Hin. by apply (HAB l). }
  destruct (link_first_spec h1 (Some x.1) (final None A) B HB HlB1) as (h2 & E2 & Hl2 & Hf2 & _).
  set (L1 := match final None A with Some _ => L | None => _ end).
  assert ((match first B None with
    | Some n => h ← set_prev h1 n (final None A); Some (h, L1)
    | None => Some (h1, set_tail L1 (final None A)) end) =
    Some (h2, match first B None with Some _ => L1 | None => set_tail L1 (final None A) end)) as ->.
  { unfold link_first in E2. destruct (first B None); [by rewrite E2|by injection E2 as ->]. }
  cbn [mbind option_bind]. eexists _, _. split; [done|]. split_and!.
  - assert (NoDup (A ++ B).*1) as HnAB by (rewrite fmap_app; by apply NoDup_app).
    pose proof (zlen_nonneg A). pose proof (zlen_nonneg B). change (2 ^ 60) with 1152921504606846976 in *.
    rewrite zlen_app, zlen_cons in *.
    split; [|done| | | |].
    + rewrite linked_app. split; apply linked_delete; try done.
      eapply linked_frame; [|exact Hl1]. intros l Hl0. apply Hf2. by apply HAB.
    + subst L1. rewrite first_app in *. destruct A as [|a A]; cbn in *; [by destruct (first B None)|].
      destruct (snoc_cases A) as [->|(r & y & ->)]; cbn in *; rewrite ?final_snoc in *;
        (destruct (first B None); cbn; congruence).
    + subst L1. rewrite final_app in Ht |- *. cbn in Ht. destruct B as [|b B]; cbn in *; [by destruct (final None A)|].
      destruct (final None A); cbn; congruence.
    + subst L1. cbn. rewrite zlen_app. destruct (final None A), (first B None); cbn; rewrite u64_id; lia.
    + rewrite zlen_app. change (2 ^ 60) with 1152921504606846976. lia.
  - intros l Hl0. rewrite fmap_app, not_elem_of_app in Hl0. cbn in Hl0. rewrite not_elem_of_cons in Hl0.
    destruct Hl0 as (H1 & H2 & H3). rewrite lookup_delete_ne by done. by rewrite Hf2, Hf1.
  - apply lookup_delete_eq.
Qed.

(** ** Rotation, concatenation, release *)

Lemma nodup_swap (A B : nodes) : NoDup (A ++ B).*1 -> NoDup (B ++ A).*1.
Proof. rewrite !fmap_app. by rewrite Permutation_app_comm. Qed.

Lemma zlen_swap (A B : nodes) : zlen (B ++ A) = zlen (A ++ B).
Proof. rewrite !zlen_app. lia. Qed.

Lemma untouched_2 h h1 h2 ls : untouched h h1 ls -> untouched h1 h2 ls -> untouched h h2 ls.
Proof. intros H1 H2 l Hl. by rewrite H2, H1. Qed.

Lemma first_nonnil a (A : nodes) n : first (a :: A) n = Some a.1.
Proof. done. Qed.

Lemma final_nonnil a (A : nodes) p p' : final p (a :: A) = final p' (a :: A).
Proof. done. Qed.

Lemma set_both h l p n nd : h !! l = Some nd ->
  set_prev h l p = Some (<[l := mk_node p (next nd) (value nd)]> h) /\
  set_next (<[l := mk_node p (next nd) (value nd)]> h) l n = Some (<[l := mk_node p n (value nd)]> h).
Proof.
  intros E. unfold set_prev, set_next. rewrite E. split; [done|]. cbn. rewrite lookup_insert_eq. cbn.
  by rewrite insert_insert_eq.
Qed.

Lemma set_both' h l p n nd : h !! l = Some nd ->
  set_next h l n = Some (<[l := mk_node (prev nd) n (value nd)]> h) /\
  set_prev (<[l := mk_node (prev nd) n (value nd)]> h) l p = Some (<[l := mk_node p n (value nd)]> h).
Proof.
  intros E. unfold set_prev, set_next. rewrite E. split; [done|]. cbn. rewrite lookup_insert_eq. cbn.
  by rewrite insert_insert_eq.
Qed.

Lemma untouched_insert h h' ls l nd : l ∈ ls.*1 -> untouched h h' ls -> untouched h (<[l := nd]> h') ls.
Proof. intros Hl Hu l' Hl'. rewrite lookup_insert_ne; [by apply Hu|]. by intros ->. Qed.

Lemma rotate_tail_spec h L a A x :
  list_repr h L ((a :: A) ++ [x]) ->
  exists h' L', listRotateTailToHead h L = Some (h', L') /\ list_repr h' L' (x :: a :: A) /\
    untouched h h' (x :: a :: A).
Proof.
  intros [Hl Hn Hh Ht Hlen Hmax]. unfold listRotateTailToHead. set (As := a :: A) in *.
  destruct (nodup_app_inv _ _ Hn) as (HA & _ & Hd).
  assert (x.1 ∉ As.*1) as HxA by (intros Hin; apply (Hd _ Hin); left).
  rewrite (proj2 (Z.leb_gt _ _)).
  2:{ rewrite Hlen, zlen_app. subst As. rewrite zlen_cons. change (zlen [x]) with 1. pose proof (zlen_nonneg A). lia. }
  rewrite linked_app in Hl. cbn [linked first] in Hl. destruct Hl as (HlA & Ex & _).
  rewrite Ht, final_snoc. cbn [mbind option_bind]. rewrite Ex. cbn [mbind option_bind prev tail_ set_tail].
  destruct (link_last_spec h As (Some x.1) None HA HlA) as (h1 & E1 & Hl1 & Hf1 & _).
  assert (exists t, final None As = Some t) as [t Et].
  { destruct (snoc_cases As) as [Ea|(r & y & ->)]; [done|]. rewrite final_snoc. eauto. }
  rewrite Et in *. cbn [link_last] in E1. cbn [mbind option_bind]. rewrite E1. cbn [mbind option_bind head_ set_tail].
  destruct (link_first_spec h1 None (Some x.1) As HA Hl1) as (h2 & E2 & Hl2 & Hf2 & _).
  rewrite Hh, first_app. change (first As (first [x] None)) with (Some a.1). cbn [mbind option_bind].
  change (first As None) with (Some a.1) in E2. cbn [link_first] in E2. rewrite E2. cbn [mbind option_bind].
  assert (h2 !! x.1 = Some (mk_node (Some t) None x.2)) as Ex2 by (by rewrite Hf2, Hf1).
  destruct (set_both h2 x.1 None (Some a.1) _ Ex2) as [Es1 Es2]. rewrite Es1. cbn [mbind option_bind]. rewrite Es2. cbn [mbind option_bind].
  eexists _, _. split; [done|]. split.
  - split; cbn [head_ tail_ len set_head set_tail]; try done.
    + cbn [linked]. rewrite lookup_insert_eq. split; [done|]. by apply linked_insert.
    + by apply (nodup_swap As [x]).
    + rewrite Hlen. apply (zlen_swap [x] As).
    + change (zlen ([x] ++ As) < 2 ^ 60). by rewrite (zlen_swap As [x]).
  - apply untouched_insert; [left|]. intros l Hl0. rewrite fmap_cons, not_elem_of_cons in Hl0.
    rewrite Hf2, Hf1; tauto.
Qed.

Lemma rotate_head_spec h L x a A :
  list_repr h L (x :: a :: A) ->
  exists h' L', listRotateHeadToTail h L = Some (h', L') /\ list_repr h' L' ((a :: A) ++ [x]) /\
    untouched h h' (x :: a :: A).
Proof.
  intros [Hl Hn Hh Ht Hlen Hmax]. unfold listRotateHeadToTail. set (As := a :: A) in *.
  destruct (nodup_app_inv [x] _ Hn) as (_ & HA & Hd).
  assert (x.1 ∉ As.*1) as HxA by (apply Hd; left).
  rewrite (proj2 (Z.leb_gt _ _)).
  2:{ rewrite Hlen, zlen_cons. subst As. rewrite zlen_cons. pose proof (zlen_nonneg A). lia. }
  cbn [linked] in Hl. destruct Hl as (Ex & HlA).
  rewrite Hh. cbn [first mbind option_bind]. rewrite Ex. cbn [mbind option_bind next head_ set_head].
  destruct (link_first_spec h (Some x.1) None As HA HlA) as (h1 & E1 & Hl1 & Hf1 & _).
  change (first As None) with (Some a.1) in *. cbn [link_first] in E1. cbn [mbind option_bind]. rewrite E1.
  cbn [mbind option_bind tail_ set_head]. rewrite Ht. change (final None (x :: As)) with (final None As).
  destruct (link_last_spec h1 As None (Some x.1) HA Hl1) as (h2 & E2 & Hl2 & Hf2 & _).
  assert (exists t, final None As = Some t) as [t Et].
  { destruct (snoc_cases As) as [Ea|(r & y & ->)]; [done|]. rewrite final_snoc. eauto. }
  rewrite Et in *. cbn [link_last] in E2. cbn [mbind option_bind]. rewrite E2. cbn [mbind option_bind].
  assert (h2 !! x.1 = Some (mk_node None (Some a.1) x.2)) as Ex2 by (by rewrite Hf2, Hf1).
  destruct (set_both' h2 x.1 (Some t) None _ Ex2) as [Es1 Es2]. rewrite Es1. cbn [mbind option_bind]. rewrite Es2. cbn [mbind option_bind].
  eexists _, _. split; [done|]. split.
  - split; cbn [head_ tail_ len set_head set_tail]; try done.
    + rewrite linked_app. cbn [linked first]. rewrite lookup_insert_eq, Et. split; [by apply linked_insert|done].
    + by apply (nodup_swap [x] As).
    + by rewrite final_snoc.
    + rewrite Hlen. symmetry. apply (zlen_swap [x] As).
    + by rewrite (zlen_swap [x] As).
  - apply untouched_insert; [left|]. intros l Hl0. rewrite fmap_cons, not_elem_of_cons in Hl0.
    rewrite Hf2, Hf1; tauto.
Qed.

Lemma join_spec h L O A B :
  list_repr h L A -> list_repr h O B -> (forall l, l ∈ A.*1 -> l ∉ B.*1) -> zlen A + zlen B < 2 ^ 60 ->
  exists h' L' O', listJoin h L O = Some (h', L', O') /\ list_repr h' L' (A ++ B) /\ list_repr h' O' [] /\
    untouched h h' (A ++ B).
Proof.
  intros [HlA HnA HhA HtA HlenA _] [HlB HnB HhB HtB HlenB _] Hd Hm. unfold listJoin.
  pose proof (zlen_nonneg A). pose proof (zlen_nonneg B). change (2 ^ 60) with 1152921504606846976 in *.
  destruct (link_first_spec h None (final None A) B HnB HlB) as (h1 & E1 & Hl1 & Hf1 & _).
  rewrite HhB, HtA. change (match first B None with Some hd => set_prev h hd (final None A) | None => Some h end)
    with (link_first h (first B None) (final None A)). rewrite E1. cbn [mbind option_bind].
  assert (linked h1 None A None) as HlA1 by (apply (linked_frame h); [intros l Hl0; apply Hf1; by apply Hd|done]).
  destruct (link_last_spec h1 A None (first B None) HnA HlA1) as (h2 & E2 & Hl2 & Hf2 & _).
  assert ((match final None A with
    | Some t => h ← set_next h1 t (first B None); Some (h, L)
    | None => Some (h1, set_head L (first B None)) end) =
    Some (h2, match final None A with Some _ => L | None => set_head L (first B None) end)) as ->.
  { unfold link_last in E2. destruct (final None A); [by rewrite E2|by injection E2 as ->]. }
  cbn [mbind option_bind]. eexists _, _, _. split; [done|].
  assert (linked h2 (final None A) B None) as HlB2.
  { apply (linked_frame h1); [|done]. intros l Hl0. apply Hf2. intros Hin. by apply (Hd l). }
  split_and!.
  - split.
    + by rewrite linked_app.
    + rewrite fmap_app. by apply NoDup_app.
    + rewrite HtB, first_app. destruct A as [|a A]; cbn.
      * destruct (final None B); done.
      * destruct (snoc_cases A) as [->|(r & y & ->)]; cbn; rewrite ?final_snoc;
          destruct (final None B); cbn; done.
    + rewrite HtB, final_app. destruct (snoc_cases B) as [->|(r & y & ->)]; cbn; [|by rewrite !final_snoc].
      destruct (final None A) eqn:E; cbn; by rewrite HtA.
    + rewrite HtB, zlen_app, HlenB. destruct (final None A), (final None B); cbn; rewrite u64_id; lia.
    + rewrite zlen_app. done.
  - split; try done. constructor.
  - intros l Hl0. rewrite fmap_app, not_elem_of_app in Hl0. destruct Hl0. by rewrite Hf2, Hf1.
Qed.

Lemma empty_loop_spec ls : forall h p, linked h p ls None -> NoDup ls.*1 ->
  exists h', empty_loop (length ls) h (first ls None) = Some h' /\ untouched h h' ls /\
    (forall l, l ∈ ls.*1 -> h' !! l = None).
Proof.
  induction ls as [|x ls IH]; intros h p Hl Hn.
  - exists h. split_and!; [done|done|]. intros l Hl0. by apply not_elem_of_nil in Hl0.
  - destruct Hl as [Ex Hl]. rewrite fmap_cons in Hn. apply NoDup_cons in Hn as [Hx Hn]. cbn [length empty_loop first].
    cbn [mbind option_bind]. rewrite Ex. cbn [mbind option_bind next].
    destruct (IH (delete x.1 h) (Some x.1)) as (h' & E & Hu & Hnone); [by apply linked_delete|done|].
    exists h'. split; [done|]. split.
    + intros l Hl0. rewrite fmap_cons, not_elem_of_cons in Hl0. destruct Hl0.
      rewrite Hu by done. by rewrite lookup_delete_ne.
    + intros l [->|Hl0]%elem_of_cons; [|by apply Hnone]. rewrite Hu by done. apply lookup_delete_eq.
Qed.

Lemma list_empty_spec h L ls : list_repr h L ls ->
  exists h' L', listEmpty h L = Some (h', L') /\ list_repr h' L' [] /\ untouched h h' ls /\
    (forall l, l ∈ ls.*1 -> h' !! l = None).
Proof.
  intros [Hl Hn Hh Ht Hlen Hmax]. destruct (empty_loop_spec ls h None Hl Hn) as (h' & E & Hu & Hnone).
  unfold listEmpty. rewrite Hlen, Hh. unfold zlen. rewrite Nat2Z.id, E. cbn [mbind option_bind].
  eexists _, _. split; [done|]. split_and!; try done. split; try done. constructor.
Qed.

(** ** Lookup and iteration *)

Lemma index_loop_head ls : forall fuel h p i, linked h p ls None -> 0 <= i -> (length ls < fuel)%nat ->
  index_loop fuel AL_START_HEAD h i (first ls None) = Some (fst <$> ls !! Z.to_nat i).
Proof.
  induction ls as [|x ls IH]; intros [|fuel] h p i Hl Hi Hf; cbn [length] in Hf; [lia| |lia|];
    cbn [index_loop first].
  - by destruct (i =? 0).
  - destruct Hl as [Ex Hl]. destruct (Z.eqb_spec i 0) as [->|Hi0]; [done|].
    rewrite Ex. cbn [mbind option_bind next]. rewrite (IH fuel h (Some x.1)); [|done|lia|lia].
    by replace (Z.to_nat i) with (S (Z.to_nat (i - 1))) by lia.
Qed.

Lemma index_loop_tail ls : forall fuel h n i, linked h None ls n -> 0 <= i -> (length ls < fuel)%nat ->
  index_loop fuel AL_START_TAIL h i (final None ls) = Some (fst <$> reverse ls !! Z.to_nat i).
Proof.
  induction ls as [|x ls IH] using rev_ind; intros [|fuel] h n i Hl Hi Hf; rewrite ?length_app in Hf;
    cbn [length] in Hf; [lia| |lia|]; cbn [index_loop].
  - by destruct (i =? 0).
  - rewrite linked_app in Hl. cbn in Hl. destruct Hl as (Hl & Ex & _). rewrite reverse_snoc, final_snoc.
    destruct (Z.eqb_spec i 0) as [->|Hi0]; [done|].
    rewrite Ex. cbn [mbind option_bind prev]. rewrite (IH fuel h (Some x.1)); [|done|lia|lia].
    by replace (Z.to_nat i) with (S (Z.to_nat (i - 1))) by lia.
Qed.

Lemma index_spec h L ls i : i <> - 2 ^ 63 -> list_repr h L ls ->
  listIndex h L i = Some (fst <$> (al_pos i (length ls) ≫= fun k => ls !! k)).
Proof.
  intros Hi0 [Hl Hn Hh Ht Hlen Hmax]. unfold listIndex, neg_long, al_pos. rewrite (proj2 (Z.eqb_neq _ _) Hi0), Hlen, Hh, Ht. unfold zlen. rewrite Nat2Z.id.
  destruct (Z.ltb_spec i 0) as [Hi|Hi].
  - cbn [mbind option_bind]. rewrite (index_loop_tail ls _ _ None); [|done|lia|lia]. do 2 f_equal.
    destruct (Z.leb_spec 0 (Z.of_nat (length ls) + i)) as [Hk|Hk]; cbn [andb].
    + destruct (Z.ltb_spec (Z.of_nat (length ls) + i) (Z.of_nat (length ls))); [|lia]. cbn.
      rewrite reverse_lookup by lia. f_equal. lia.
    + cbn. apply lookup_ge_None. rewrite length_reverse. lia.
  - rewrite (index_loop_head ls _ _ None); [|done|lia|lia]. do 2 f_equal.
    destruct (Z.leb_spec 0 i); [|lia]. cbn [andb].
    destruct (Z.ltb_spec i (Z.of_nat (length ls))); [done|]. cbn. apply lookup_ge_None. lia.
Qed.

Lemma next_head h p x ls : linked h p (x :: ls) None ->
  listNext h (mk_iter (first (x :: ls) None) AL_START_HEAD) = Some (Some x.1, mk_iter (first ls None) AL_START_HEAD).
Proof. intros [Ex _]. unfold listNext. cbn [iter_next first]. by rewrite Ex. Qed.

(** The comparison listSearchKey makes of a value and the key. *)
Definition key_matches `{EqDecision V} L (key v : V) : bool :=
  match match_ L with Some f => f v key | None => bool_decide (key = v) end.

Lemma search_key_loop_spec `{EqDecision V} L key ls : forall fuel h p, linked h p ls None -> (length ls < fuel)%nat ->
  let r := search_key_loop fuel h L (mk_iter (first ls None) AL_START_HEAD) key in
  (r = Some None /\ Forall (fun x => key_matches L key x.2 = false) ls) \/
  (exists A x B, r = Some (Some x.1) /\ ls = A ++ x :: B /\ key_matches L key x.2 = true /\
     Forall (fun x => key_matches L key x.2 = false) A).
Proof.
  induction ls as [|x ls IH]; intros [|fuel] h p Hl Hf; cbn [length] in Hf; [lia| |lia|]; cbn [search_key_loop].
  - left. by split.
  - rewrite (next_head h p) by done. cbn [mbind option_bind]. destruct Hl as [Ex Hl]. rewrite Ex.
    cbn [mbind option_bind value]. fold (key_matches L key x.2).
    destruct (key_matches L key x.2) eqn:Ek.
    + right. exists [], x, ls. split_and!; try done.
    + destruct (IH fuel h (Some x.1) Hl ltac:(lia)) as [[Er Ha]|(A & y & B & Er & -> & Em & Ha)].
      * left. split; [done|]. by constructor.
      * right. exists (x :: A), y, B. split_and!; try done. by constructor.
Qed.

Lemma search_key_spec `{EqDecision V} h L ls key : list_repr h L ls ->
  (listSearchKey h L key = Some None /\ Forall (fun x => key_matches L key x.2 = false) ls) \/
  (exists A x B, listSearchKey h L key = Some (Some x.1) /\ ls = A ++ x :: B /\ key_matches L key x.2 = true /\
     Forall (fun x => key_matches L key x.2 = false) A).
Proof.
  intros [Hl Hn Hh Ht Hlen Hmax]. unfold listSearchKey, listRewind. rewrite Hlen, Hh. unfold zlen. rewrite Nat2Z.id.
  apply (search_key_loop_spec L key ls (S (length ls)) h None Hl). lia.
Qed.

(** ** Copying *)

Definition dup_value L (v : V) : option V := match dup L with Some f => f v | None => Some v end.

(** The heap is [h] and the nodes of the list, all of them fresh for [h]. *)
Record owns h h' L ls : Prop := {
  owns_repr : list_repr h' L ls;
  owns_only : untouched h h' ls;
  owns_fresh : forall l, l ∈ ls.*1 -> l ∉ dom h
}.

Lemma owns_create h : owns h h listCreate [].
Proof. split; [apply create_repr|done|]. intros l Hl. by apply not_elem_of_nil in Hl. Qed.

Lemma owns_new h h' L ls l : owns h h' L ls -> l ∉ dom h' -> l ∉ dom h.
Proof.
  intros [Hr Hu Hf] Hl Hd. destruct (decide (l ∈ ls.*1)) as [Hin|Hin]; [by apply (Hf l)|].
  rewrite elem_of_dom, <- (Hu l Hin), <- elem_of_dom in Hd. done.
Qed.

(** One more node. *)
Lemma owns_add h h1 h2 L L' ls ls' l v : owns h h1 L ls -> list_repr h2 L' ls' -> ls' ≡ₚ (l, v) :: ls ->
  untouched h1 h2 ((l, v) :: ls) -> (l ∉ dom h1) -> owns h h2 L' ls'.
Proof.
  intros Ho Hr Hp Hu Hl. pose proof (owns_new _ _ _ _ _ Ho Hl) as Hl0. destruct Ho as [_ Hu0 Hf0]. split; [done| |].
  - intros k Hk. rewrite Hp in Hk. rewrite Hu by done. apply Hu0. rewrite fmap_cons, not_elem_of_cons in Hk. tauto.
  - intros k Hk. rewrite Hp in Hk. rewrite fmap_cons in Hk. apply elem_of_cons in Hk as [->|Hk]; [done|by apply Hf0].
Qed.

(** Some nodes less, the rest in any order. *)
Lemma owns_less h h1 h2 L L' ls ls' gone : owns h h1 L ls -> list_repr h2 L' ls' -> ls ≡ₚ ls' ++ gone ->
  untouched h1 h2 ls -> (forall l, l ∈ gone.*1 -> h2 !! l = None) -> owns h h2 L' ls'.
Proof.
  intros [_ Hu0 Hf0] Hr Hp Hu Hg. split; [done| |].
  - intros k Hk. destruct (decide (k ∈ gone.*1)) as [Hin|Hin].
    + rewrite (Hg k Hin). symmetry. apply not_elem_of_dom. apply Hf0. rewrite Hp, fmap_app, elem_of_app. by right.
    + assert (k ∉ ls.*1) as Hk0 by (rewrite Hp, fmap_app, not_elem_of_app; done). by rewrite Hu, Hu0.
  - intros k Hk. apply Hf0. rewrite Hp, fmap_app, elem_of_app. by left.
Qed.

Lemma dup_loop_spec h : forall ls fuel h1 copy cs p,
  linked h p ls None -> owns h h1 copy cs -> (length ls < fuel)%nat -> zlen cs + zlen ls < 2 ^ 60 ->
  (exists vs h' L' ls', mapM (dup_value copy) ls.*2 = Some vs /\
     dup_loop fuel h1 copy (mk_iter (first ls None) AL_START_HEAD) = Some (h', Some L') /\
     owns h h' L' ls' /\ ls'.*2 = cs.*2 ++ vs /\ dup L' = dup copy /\ match_ L' = match_ copy) \/
  (mapM (dup_value copy) ls.*2 = None /\
     dup_loop fuel h1 copy (mk_iter (first ls None) AL_START_HEAD) = Some (h, None)).
Proof.
  induction ls as [|x ls IH]; intros [|fuel] h1 copy cs p Hl Ho Hf Hm; cbn [length] in Hf; [lia| |lia|]; cbn [dup_loop].
  - left. exists [], h1, copy, cs. rewrite app_nil_r. by split_and!.
  - pose proof (zlen_nonneg ls). rewrite zlen_cons in Hm. change (2 ^ 60) with 1152921504606846976 in *.
    assert (linked h1 p (x :: ls) None) as Hl1.
    { apply (linked_frame h); [|done]. intros l Hin. apply (owns_only _ _ _ _ Ho). intros Hc.
      apply (owns_fresh _ _ _ _ Ho l Hc). by eapply linked_dom. }
    rewrite (next_head h1 p) by done. cbn [mbind option_bind]. destruct Hl as [Ex Hl].
    rewrite (proj1 Hl1). cbn [mbind option_bind value]. fold (dup_value copy x.2).
    rewrite fmap_cons. cbn [mapM].
    destruct (dup_value copy x.2) as [v|] eqn:Ed.
    + destruct (add_tail_spec h1 copy cs v (owns_repr _ _ _ _ Ho)) as (h2 & L2 & l & E2 & Hr2 & Hu2 & Hfr & Ed2 & Em2);
        [cbn; lia|]. rewrite E2. cbn [mbind option_bind].
      assert (cs ++ [(l, v)] ≡ₚ (l, v) :: cs) as Hp by (symmetry; apply Permutation_cons_append).
      assert (owns h h2 L2 (cs ++ [(l, v)])) as Ho2.
      { apply (owns_add h h1 h2 copy L2 cs _ l v); try done. intros k Hk. apply Hu2. by rewrite Hp. }
      assert (dup_value L2 = dup_value copy) as Edv by (unfold dup_value; by rewrite Ed2).
      destruct (IH fuel h2 L2 (cs ++ [(l, v)]) (Some x.1)) as [(vs & h' & L' & ls' & Em & Er & Ho' & Ev & Ed' & Em')|[Em Er]];
        [done|done|lia|rewrite zlen_app; change (zlen [(l, v)]) with 1; cbn; lia| |].
      * left. exists (v :: vs), h', L', ls'. rewrite Edv in Em. rewrite Em. split; [done|]. split; [done|].
        split; [done|]. split; [|split; congruence]. rewrite Ev, fmap_app. lapp.
      * right. rewrite Edv in Em. rewrite Em. by split.
    + right. split; [done|].
      destruct (list_empty_spec h1 copy cs (owns_repr _ _ _ _ Ho)) as (h2 & L2 & E2 & Hr2 & Hu2 & Hn2).
      rewrite E2. cbn [mbind option_bind]. do 2 f_equal. apply map_eq. intros k.
      assert (owns h h2 L2 []) as Ho2 by (by apply (owns_less h h1 h2 copy L2 cs [] cs)).
      apply (owns_only _ _ _ _ Ho2). apply not_elem_of_nil.
Qed.

(** ** Sequences of operations *)

Inductive list_op :=
| AddHead (v : V) | AddTail (v : V) | InsertAt (i : Z) (v : V) (after : bool) | DelAt (i : Z)
| RotateTail | RotateHead | Empty.

Definition list_run_op h L (op : list_op) : option (heap * list_ V) :=
  match op with
  | AddHead v => listAddNodeHead h L v
  | AddTail v => listAddNodeTail h L v
  | InsertAt i v after =>
      r ← listIndex h L i;
      match r with Some l => listInsertNode h L l v after | None => Some (h, L) end
  | DelAt i =>
      r ← listIndex h L i;
      match r with Some l => listDelNode h L l | None => Some (h, L) end
  | RotateTail => listRotateTailToHead h L
  | RotateHead => listRotateHeadToTail h L
  | Empty => listEmpty h L
  end.

Fixpoint list_run_ops h L (ops : list list_op) : option (heap * list_ V) :=
  match ops with
  | [] => Some (h, L)
  | op :: ops => '(h, L) ← list_run_op h L op; list_run_ops h L ops
  end.

(** The index of an operation is not LONG_MIN, which listIndex negates. *)
Definition list_op_ok (op : list_op) : Prop :=
  match op with InsertAt i _ _ | DelAt i => i <> - 2 ^ 63 | _ => True end.

(** The same operations on a sequence of values. *)
Definition seq_op (vs : list V) (op : list_op) : list V :=
  match op with
  | AddHead v => v :: vs
  | AddTail v => vs ++ [v]
  | InsertAt i v after =>
      match al_pos i (length vs) with
      | Some k => let k := if after then S k else k in take k vs ++ v :: drop k vs
      | None => vs
      end
  | DelAt i => match al_pos i (length vs) with Some k => take k vs ++ drop (S k) vs | None => vs end
  | RotateTail => drop (length vs - 1) vs ++ take (length vs - 1) vs
  | RotateHead => drop 1 vs ++ take 1 vs
  | Empty => []
  end.

Lemma al_pos_split i ls k : al_pos i (length ls) = Some k ->
  exists A x B, ls = A ++ x :: B /\ length A = k.
Proof.
  unfold al_pos. destruct (_ && _) eqn:E; [|done]. intros [= <-]. apply andb_true_iff in E as [E1%Z.leb_le E2%Z.ltb_lt].
  set (z := if i <? 0 then _ else _) in *. clearbody z.
  destruct (lookup_lt_is_Some_2 ls (Z.to_nat z)) as [x Hx]; [lia|].
  exists (take (Z.to_nat z) ls), x, (drop (S (Z.to_nat z)) ls). split; [by rewrite take_drop_middle|].
  rewrite length_take. lia.
Qed.

Lemma values_split A x (B : nodes) :
  take (length A) (A ++ x :: B).*2 = A.*2 /\ drop (length A) (A ++ x :: B).*2 = x.2 :: B.*2 /\
  take (S (length A)) (A ++ x :: B).*2 = A.*2 ++ [x.2] /\ drop (S (length A)) (A ++ x :: B).*2 = B.*2.
Proof.
  assert (length A.*2 = length A) as El by apply length_fmap.
  rewrite fmap_app, fmap_cons, <- El.
  assert (A.*2 ++ x.2 :: B.*2 = (A.*2 ++ [x.2]) ++ B.*2) as Ea by lapp. split_and!.
  - apply take_app_length.
  - apply drop_app_length.
  - replace (S (length A.*2)) with (length (A.*2 ++ [x.2])) by (rewrite length_app; cbn; lia).
    rewrite Ea. apply take_app_length.
  - replace (S (length A.*2)) with (length (A.*2 ++ [x.2])) by (rewrite length_app; cbn; lia).
    rewrite Ea. apply drop_app_length.
Qed.

Lemma insert_at_spec h h1 L ls i v after : i <> - 2 ^ 63 -> owns h h1 L ls -> zlen ls + 1 < 2 ^ 60 ->
  exists h' L' ls', list_run_op h1 L (InsertAt i v after) = Some (h', L') /\ owns h h' L' ls' /\
    ls'.*2 = seq_op ls.*2 (InsertAt i v after).
Proof.
  intros Hi Ho Hm. cbn [list_run_op seq_op]. rewrite (index_spec h1 L ls i Hi (owns_repr _ _ _ _ Ho)), length_fmap.
  cbn [mbind option_bind]. destruct (al_pos i (length ls)) as [k|] eqn:Ek; cbn; [|by exists h1, L, ls].
  destruct (al_pos_split i ls k Ek) as (A & x & B & -> & <-). rewrite list_lookup_middle by done. cbn.
  destruct (insert_spec h1 L A x B v after (owns_repr _ _ _ _ Ho) Hm) as (h2 & L2 & l & E2 & Hr2 & Hu2 & Hfr).
  rewrite E2. eexists _, _, _. split; [done|]. destruct (values_split A x B) as (V1 & V2 & V3 & V4). split.
  - eapply (owns_add h h1); [exact Ho|exact Hr2| |exact Hu2|exact Hfr].
    destruct after; [|by rewrite <- Permutation_middle].
    assert (forall C, A ++ x :: C = (A ++ [x]) ++ C) as E by (intros; lapp).
    rewrite (E ((l, v) :: B)), (E B). by rewrite <- Permutation_middle.
  - destruct after; rewrite ?V1, ?V2, ?V3, ?V4, !fmap_app; lapp.
Qed.

Lemma del_at_spec h h1 L ls i : i <> - 2 ^ 63 -> owns h h1 L ls ->
  exists h' L' ls', list_run_op h1 L (DelAt i) = Some (h', L') /\ owns h h' L' ls' /\ ls'.*2 = seq_op ls.*2 (DelAt i).
Proof.
  intros Hi Ho. cbn [list_run_op seq_op]. rewrite (index_spec h1 L ls i Hi (owns_repr _ _ _ _ Ho)), length_fmap.
  cbn [mbind option_bind]. destruct (al_pos i (length ls)) as [k|] eqn:Ek; cbn; [|by exists h1, L, ls].
  destruct (al_pos_split i ls k Ek) as (A & x & B & -> & <-). rewrite list_lookup_middle by done. cbn.
  destruct (del_node_spec h1 L A x B (owns_repr _ _ _ _ Ho)) as (h2 & L2 & E2 & Hr2 & Hu2 & Hx).
  rewrite E2. eexists _, _, _. split; [done|]. destruct (values_split A x B) as (V1 & V2 & V3 & V4). split.
  - eapply (owns_less h h1 h2 L L2 _ _ [x]); [exact Ho|exact Hr2| |exact Hu2|].
    + rewrite <- Permutation_middle. apply Permutation_cons_append.
    + intros l [->|Hl]%elem_of_cons; [done|by apply not_elem_of_nil in Hl].
  - by rewrite V1, V4, fmap_app.
Qed.

(** A permutation of the nodes keeps the ownership. *)
Lemma owns_perm h h1 h2 L L' ls ls' : owns h h1 L ls -> list_repr h2 L' ls' -> ls ≡ₚ ls' ->
  untouched h1 h2 ls -> owns h h2 L' ls'.
Proof.
  intros Ho Hr Hp Hu. apply (owns_less h h1 h2 L L' ls ls' []); [done|done|by rewrite app_nil_r|done|].
  intros l Hl. by apply not_elem_of_nil in Hl.
Qed.

Lemma rotate_short h h1 L ls (tail : bool) : owns h h1 L ls -> zlen ls <= 1 ->
  exists h' L' ls', list_run_op h1 L (if tail then RotateTail else RotateHead) = Some (h', L') /\ owns h h' L' ls' /\
    ls'.*2 = seq_op ls.*2 (if tail then RotateTail else RotateHead).
Proof.
  intros Ho Hs. exists h1, L, ls. pose proof (repr_len _ _ _ (owns_repr _ _ _ _ Ho)) as El.
  destruct tail; cbn [list_run_op]; unfold listRotateTailToHead, listRotateHeadToTail; rewrite El;
    (destruct (Z.leb_spec (zlen ls) 1); [|lia]); (split; [done|]); (split; [done|]);
    (destruct ls as [|x [|y ls]]; [done|done|rewrite !zlen_cons in Hs; pose proof (zlen_nonneg ls); lia]).
Qed.

Lemma rotate_op_spec h h1 L ls (tail : bool) : owns h h1 L ls ->
  exists h' L' ls', list_run_op h1 L (if tail then RotateTail else RotateHead) = Some (h', L') /\ owns h h' L' ls' /\
    ls'.*2 = seq_op ls.*2 (if tail then RotateTail else RotateHead).
Proof.
  intros Ho. destruct (Z_le_gt_dec (zlen ls) 1) as [Hs|Hs]; [by apply rotate_short|].
  destruct tail; cbn [list_run_op seq_op].
  - destruct (snoc_cases ls) as [->|(r & x & ->)]; [rewrite zlen_nil in Hs; lia|].
    destruct r as [|a A]; [unfold zlen in Hs; cbn in Hs; lia|].
    destruct (rotate_tail_spec h1 L a A x (owns_repr _ _ _ _ Ho)) as (h2 & L2 & E2 & Hr2 & Hu2).
    assert ((a :: A) ++ [x] ≡ₚ x :: a :: A) as Hp by (symmetry; apply Permutation_cons_append).
    eexists h2, L2, _. split; [done|]. split.
    + eapply owns_perm; [exact Ho|exact Hr2|done|]. intros l Hl. rewrite Hp in Hl. by apply Hu2.
    + destruct (values_split (a :: A) x []) as (V1 & V2 & _). rewrite length_fmap, length_app.
      replace (length (a :: A) + length [x] - 1)%nat with (length (a :: A)) by (cbn; lia). by rewrite V1, V2.
  - destruct ls as [|x [|a A]]; [unfold zlen in Hs; cbn in Hs; lia..|].
    destruct (rotate_head_spec h1 L x a A (owns_repr _ _ _ _ Ho)) as (h2 & L2 & E2 & Hr2 & Hu2).
    exists h2, L2, ((a :: A) ++ [x]). split; [done|]. split; [|by rewrite fmap_app].
    eapply owns_perm; [exact Ho|exact Hr2|apply Permutation_cons_append|done].
Qed.

Lemma seq_op_length vs op : (length (seq_op vs op) <= S (length vs))%nat.
Proof.
  destruct op; cbn [seq_op]; [done|rewrite length_app; cbn; lia| | | | |cbn; lia].
  - destruct (al_pos _ _); [|lia]. cbn zeta. rewrite length_app, length_take. cbn. rewrite length_drop. lia.
  - destruct (al_pos _ _); [|lia]. rewrite length_app, length_take, length_drop. lia.
  - rewrite length_app, length_drop, length_take. lia.
  - rewrite length_app, length_drop, length_take. lia.
Qed.

Lemma list_run_op_spec h h1 L ls op : list_op_ok op -> owns h h1 L ls -> zlen ls + 1 < 2 ^ 60 ->
  exists h' L' ls', list_run_op h1 L op = Some (h', L') /\ owns h h' L' ls' /\ ls'.*2 = seq_op ls.*2 op.
Proof.
  intros Hok Ho Hm. destruct op as [v|v|i v after|i| | |].
  - destruct (add_head_spec h1 L ls v (owns_repr _ _ _ _ Ho) Hm) as (h2 & L2 & l & E2 & Hr2 & Hu2 & Hfr & _).
    exists h2, L2, ((l, v) :: ls). split; [done|]. split; [|done]. by eapply (owns_add h h1 h2 L L2 ls _ l v).
  - destruct (add_tail_spec h1 L ls v (owns_repr _ _ _ _ Ho) Hm) as (h2 & L2 & l & E2 & Hr2 & Hu2 & Hfr & _).
    assert (ls ++ [(l, v)] ≡ₚ (l, v) :: ls) as Hp by (symmetry; apply Permutation_cons_append).
    exists h2, L2, (ls ++ [(l, v)]). split; [done|]. split; [|by rewrite fmap_app].
    eapply (owns_add h h1 h2 L L2 ls _ l v); try done. intros k Hk. apply Hu2. by rewrite Hp.
  - by apply insert_at_spec.
  - by apply del_at_spec.
  - by apply (rotate_op_spec h h1 L ls true).
  - by apply (rotate_op_spec h h1 L ls false).
  - destruct (list_empty_spec h1 L ls (owns_repr _ _ _ _ Ho)) as (h2 & L2 & E2 & Hr2 & Hu2 & Hn2).
    exists h2, L2, []. split; [done|]. split; [|done]. by apply (owns_less h h1 h2 L L2 ls [] ls).
Qed.

Lemma list_run_ops_spec h ops : forall h1 L ls, Forall list_op_ok ops -> owns h h1 L ls -> zlen ls + zlen ops < 2 ^ 60 ->
  exists h' L' ls', list_run_ops h1 L ops = Some (h', L') /\ owns h h' L' ls' /\ ls'.*2 = fold_left seq_op ops ls.*2.
Proof.
  induction ops as [|op ops IH]; intros h1 L ls Hok Ho Hm; cbn [list_run_ops fold_left]; [by exists h1, L, ls|].
  apply Forall_cons in Hok as [Hop Hok].
  rewrite zlen_cons in Hm. pose proof (zlen_nonneg ops).
  destruct (list_run_op_spec h h1 L ls op Hop Ho ltac:(lia)) as (h2 & L2 & ls2 & E2 & Ho2 & Ev). rewrite E2, <- Ev.
  cbn [mbind option_bind]. apply IH; [done|done|].
  pose proof (seq_op_length ls.*2 op) as Hs. rewrite <- Ev, !length_fmap in Hs. unfold zlen in *. lia.
Qed.

End Ops.
Arguments list_op : clear implicits.

(** ** Properties *)

(** C24. The linked list implements a sequence and leaks nothing: any sequence of
    listAddNodeHead, listAddNodeTail, listInsertNode and listDelNode at a node
    that listIndex found, the two rotations and listEmpty, started on a new list
    in any heap, runs without following a NULL or freed pointer; the nodes it
    leaves are chained in both directions, with head, tail and len in agreement,
    and hold the values that the same operations on a sequence give; the heap is
    the heap before and these nodes, which are all new.  The index LONG_MIN, which
    listIndex would negate, is excluded. *)
Theorem adlist_refines_list {V} (h : gmap loc (listNode V)) (ops : list (list_op V)) :
  zlen ops < 2 ^ 60 -> Forall list_op_ok ops ->
  exists h' L' ls, list_run_ops h listCreate ops = Some (h', L') /\ list_repr h' L' ls /\
    ls.*2 = fold_left seq_op ops [] /\
    (forall l, l ∉ ls.*1 -> h' !! l = h !! l) /\ (forall l, l ∈ ls.*1 -> l ∉ dom h).
Proof.
  intros Hm Hok. destruct (list_run_ops_spec h ops h listCreate [] Hok (owns_create h) ltac:(done)) as (h' & L' & ls & E & Ho & Ev).
  exists h', L', ls. split_and!; [done|apply Ho|done|apply Ho|apply Ho].
Qed.

(** listJoin on two lists with no node in common moves all nodes of the
    second behind those of the first, in order and without copying them, leaves
    the second list empty and valid, and touches no other node. *)
Theorem listJoin_appends {V} (h : gmap loc (listNode V)) L O A B :
  list_repr h L A -> list_repr h O B -> (forall l, l ∈ A.*1 -> l ∉ B.*1) -> zlen A + zlen B < 2 ^ 60 ->
  exists h' L' O', listJoin h L O = Some (h', L', O') /\
    list_repr h' L' (A ++ B) /\ list_repr h' O' [] /\ untouched h h' (A ++ B).
Proof. apply join_spec. Qed.

(** listDup gives a list with its own new nodes that holds the duplicates of
    the values in order and the same methods, and leaves the original as it was;
    when the dup method fails on some value, the result is NULL and the heap is
    the one before the call: the partial copy is released. *)
Theorem listDup_copies {V} (h : gmap loc (listNode V)) L ls :
  list_repr h L ls ->
  match mapM (dup_value L) ls.*2 with
  | Some vs => exists h' L' ls', listDup h L = Some (h', Some L') /\ list_repr h' L' ls' /\ ls'.*2 = vs /\
      dup L' = dup L /\ match_ L' = match_ L /\ list_repr h' L ls /\
      (forall l, l ∈ dom h -> h' !! l = h !! l) /\ (forall l, l ∈ ls'.*1 -> l ∉ dom h)
  | None => listDup h L = Some (h, None)
  end.
Proof.
  intros Hr. pose proof (repr_max _ _ _ Hr) as Hmax. destruct Hr as [Hl Hn Hh Ht Hlen _].
  unfold listDup, listRewind. rewrite Hlen, Hh. unfold zlen at 1 2. rewrite Nat2Z.id.
  set (copy := mk_list None None 0 (dup L) (match_ L)).
  assert (owns h h copy []) as Ho.
  { destruct (owns_create (V := V) h) as [[H1 H2 H3 H4 H5 H6] Hu Hf]. by split. }
  destruct (dup_loop_spec h ls (S (length ls)) h copy [] None Hl Ho ltac:(lia) ltac:(rewrite zlen_nil; lia))
    as [(vs & h' & L' & ls' & Em & -> & Ho' & Ev & Ed & Em')|[Em ->]];
    change (dup_value copy) with (dup_value L) in Em; rewrite Em; [|done].
  assert (forall l, l ∈ dom h -> h' !! l = h !! l) as Hk.
  { intros l Hl0. apply (owns_only _ _ _ _ Ho'). intros Hin. by apply (owns_fresh _ _ _ _ Ho' l). }
  exists h', L', ls'. split_and!; try done; [apply Ho'| |apply Ho'].
  split; try done. apply (linked_frame h); [|done]. intros l Hin. apply Hk. by eapply linked_dom.
Qed.

(** listSearchKey returns the first node whose value matches the key, by the
    match method or, without one, by equality, and NULL when no node matches. *)
Theorem listSearchKey_first {V} `{EqDecision V} (h : gmap loc (listNode V)) L ls key :
  list_repr h L ls ->
  (listSearchKey h L key = Some None /\ Forall (fun x => key_matches L key x.2 = false) ls) \/
  (exists A x B, listSearchKey h L key = Some (Some x.1) /\ ls = A ++ x :: B /\ key_matches L key x.2 = true /\
     Forall (fun x => key_matches L key x.2 = false) A).
Proof. apply search_key_spec. Qed.

(** ** Instances *)

Definition demo_heap : gmap loc (listNode Z) :=
  {[ 1%positive := mk_node None (Some 2%positive) 10; 2%positive := mk_node (Some 1%positive) None 20;
     3%positive := mk_node None None 30 ]}.
Definition demo_list : list_ Z := mk_list (Some 1%positive) (Some 2%positive) 2 (Some (fun v => if v =? 0 then None else Some v)) None.
Definition demo_nodes : list (loc * Z) := [(1%positive, 10); (2%positive, 20)].
Definition demo_other : list_ Z := mk_list (Some 3%positive) (Some 3%positive) 1 None None.

Lemma demo_repr : list_repr demo_heap demo_list demo_nodes.
Proof. split; try done. cbn. repeat (constructor; [set_solver|]). constructor. Qed.
Lemma demo_other_repr : list_repr demo_heap demo_other [(3%positive, 30)].
Proof. split; try done. cbn. repeat (constructor; [set_solver|]). constructor. Qed.

Definition demo_list_ops : list (list_op Z) :=
  [AddTail 1; AddTail 2; AddHead 0; InsertAt 1 7 true; InsertAt (-1) 8 false; DelAt 0; RotateTail; RotateHead;
   DelAt 9; RotateTail].

Lemma adlist_refines_list_witness :
  exists h' L' ls, list_run_ops demo_heap listCreate demo_list_ops = Some (h', L') /\ list_repr h' L' ls /\
    ls.*2 = [2; 1; 7; 8].
Proof.
  destruct (adlist_refines_list demo_heap demo_list_ops) as (h' & L' & ls & H1 & H2 & H3 & _); [reflexivity|repeat constructor; discriminate|].
  exists h', L', ls. exact (conj H1 (conj H2 H3)).
Defined.

Lemma listJoin_appends_witness :
  exists h' L' O', listJoin demo_heap demo_list demo_other = Some (h', L', O') /\
    list_repr h' L' [(1%positive, 10); (2%positive, 20); (3%positive, 30)].
Proof.
  destruct (listJoin_appends demo_heap demo_list demo_other demo_nodes [(3%positive, 30)] demo_repr demo_other_repr)
    as (h' & L' & O' & H1 & H2 & _); [cbn; set_solver|reflexivity|].
  exists h', L', O'. exact (conj H1 H2).
Defined.

Lemma listDup_copies_witness :
  exists h' L' ls', listDup demo_heap demo_list = Some (h', Some L') /\ list_repr h' L' ls' /\ ls'.*2 = [10; 20].
Proof.
  destruct (listDup_copies demo_heap demo_list demo_nodes demo_repr) as (h' & L' & ls' & H1 & H2 & H3 & _).
  exists h', L', ls'. exact (conj H1 (conj H2 H3)).
Defined.

Lemma listSearchKey_first_witness :
  exists A x B, listSearchKey demo_heap demo_list 20 = Some (Some x.1) /\ demo_nodes = A ++ x :: B /\
    key_matches demo_list 20 x.2 = true.
Proof.
  destruct (listSearchKey_first demo_heap demo_list demo_nodes 20 demo_repr) as [[H1 _]|(A & x & B & H1 & H2 & H3 & _)].
  - discriminate H1.
  - exists A, x, B. exact (conj H1 (conj H2 H3)).
Defined.
