(* ===== verification/Ziplist.v ===== *)
(** * ziplist.c: lists of strings and integers in one byte block

    A ziplist is a block of bytes: a header (total bytes, offset of the last
    entry, number of entries), the entries and the end byte 255.  An entry is the
    length of the entry before it (in 1 or 5 bytes), an encoding and the data.
    The operations below work on the block as the C code does; a pointer into the
    block is its offset, and a routine that reallocates the block returns it.
    The host is little-endian, so [intrev32ifbe] and [memrev*ifbe] are the
    identity.  This file holds the code, ZiplistSpec its theorems. *)

From stdpp Require Import base list numbers option.
From Stdlib Require Import ZArith Lia.
From S2P Require Import Prelude Util.

Definition ZIP_END : Z := 255.
Definition ZIP_BIG_PREVLEN : Z := 254.
Definition ZIP_STR_MASK : Z := 192.
Definition ZIP_STR_06B : Z := 0.
Definition ZIP_STR_14B : Z := 64.
Definition ZIP_STR_32B : Z := 128.
Definition ZIP_INT_16B : Z := 192.
Definition ZIP_INT_32B : Z := 208.
Definition ZIP_INT_64B : Z := 224.
Definition ZIP_INT_24B : Z := 240.
Definition ZIP_INT_8B : Z := 254.
Definition ZIP_INT_IMM_MASK : Z := 15.
Definition ZIP_INT_IMM_MIN : Z := 241.
Definition ZIP_INT_IMM_MAX : Z := 253.
Definition INT24_MAX : Z := 8388607.
Definition INT24_MIN : Z := -8388608.
Definition UINT16_MAX : Z := 65535.
Definition UCHAR_MAX : Z := 255.
Definition ZIPLIST_HEADER_SIZE : Z := 10.
Definition ZIPLIST_END_SIZE : Z := 1.

Definition ZIP_IS_STR (enc : Z) : bool := Z.land enc ZIP_STR_MASK <? ZIP_STR_MASK.

(** ** Header fields: the macro as an rvalue and as an lvalue *)

Definition ZIPLIST_BYTES (zl : bytes) : option Z := b ← load zl 0 4; Some (le_val b).
Definition set_ZIPLIST_BYTES (zl : bytes) (v : Z) : option bytes := store zl 0 (le_bytes 4 v).
Definition ZIPLIST_TAIL_OFFSET (zl : bytes) : option Z := b ← load zl 4 4; Some (le_val b).
Definition set_ZIPLIST_TAIL_OFFSET (zl : bytes) (v : Z) : option bytes := store zl 4 (le_bytes 4 v).
Definition ZIPLIST_LENGTH (zl : bytes) : option Z := b ← load zl 8 2; Some (le_val b).
Definition set_ZIPLIST_LENGTH (zl : bytes) (v : Z) : option bytes := store zl 8 (le_bytes 2 v).

Definition ZIPLIST_ENTRY_HEAD : Z := ZIPLIST_HEADER_SIZE.
Definition ZIPLIST_ENTRY_TAIL (zl : bytes) : option Z := ZIPLIST_TAIL_OFFSET zl.
Definition ZIPLIST_ENTRY_END (zl : bytes) : option Z := b ← ZIPLIST_BYTES zl; Some (b - 1).

Definition ZIPLIST_INCR_LENGTH (zl : bytes) (incr : Z) : option bytes :=
  l ← ZIPLIST_LENGTH zl;
  if l <? UINT16_MAX then set_ZIPLIST_LENGTH zl (l + incr) else Some zl.

(** ** Entries *)

Record zlentry := mk_zlentry {
  prevrawlensize : Z; prevrawlen : Z; lensize : Z; e_len : Z; headersize : Z; e_encoding : Z; e_p : Z
}.

Definition ZIP_ENTRY_ENCODING (zl : bytes) (ptr : Z) : option Z :=
  encoding ← zl.[ptr];
  Some (if encoding <? ZIP_STR_MASK then Z.land encoding ZIP_STR_MASK else encoding).

(** A panic is [None]. *)
Definition zipIntSize (encoding : Z) : option Z :=
  if encoding =? ZIP_INT_8B then Some 1
  else if encoding =? ZIP_INT_16B then Some 2
  else if encoding =? ZIP_INT_24B then Some 3
  else if encoding =? ZIP_INT_32B then Some 4
  else if encoding =? ZIP_INT_64B then Some 8
  else if (ZIP_INT_IMM_MIN <=? encoding) && (encoding <=? ZIP_INT_IMM_MAX) then Some 0
  else None.

(** The bytes [buf[0..len)] zipStoreEntryEncoding prepares. *)
Definition encoding_buf (encoding rawlen : Z) : bytes :=
  if ZIP_IS_STR encoding then
    if rawlen <=? 63 then [Z.lor ZIP_STR_06B rawlen]
    else if rawlen <=? 16383 then
      [Z.lor ZIP_STR_14B (Z.land (Z.shiftr rawlen 8) 63); Z.land rawlen 255]
    else
      [ZIP_STR_32B; Z.land (Z.shiftr rawlen 24) 255; Z.land (Z.shiftr rawlen 16) 255;
       Z.land (Z.shiftr rawlen 8) 255; Z.land rawlen 255]
  else [encoding].

(** zipStoreEntryEncoding with [p == NULL]: the number of bytes. *)
Definition zipEntryEncodingSize (encoding rawlen : Z) : Z := zlen (encoding_buf encoding rawlen).

(** The result is the block and the number of bytes. *)
Definition zipStoreEntryEncoding (zl : bytes) (p encoding rawlen : Z) : option (bytes * Z) :=
  let buf := encoding_buf encoding rawlen in
  zl ← store zl p buf;
  Some (zl, zlen buf).

(** Encoding, [lensize] and [len] at [ptr]. *)
Definition ZIP_DECODE_LENGTH (zl : bytes) (ptr : Z) : option (Z * Z * Z) :=
  encoding ← ZIP_ENTRY_ENCODING zl ptr;
  if encoding <? ZIP_STR_MASK then
    if encoding =? ZIP_STR_06B then
      b0 ← zl.[ptr]; Some (encoding, 1, Z.land b0 63)
    else if encoding =? ZIP_STR_14B then
      b0 ← zl.[ptr]; b1 ← zl.[ptr + 1];
      Some (encoding, 2, Z.lor (Z.shiftl (Z.land b0 63) 8) b1)
    else if encoding =? ZIP_STR_32B then
      b1 ← zl.[ptr + 1]; b2 ← zl.[ptr + 2]; b3 ← zl.[ptr + 3]; b4 ← zl.[ptr + 4];
      Some (encoding, 5,
        u32 (Z.lor (Z.lor (Z.lor (Z.shiftl b1 24) (Z.shiftl b2 16)) (Z.shiftl b3 8)) b4))
    else None
  else
    n ← zipIntSize encoding; Some (encoding, 1, n).

Definition zipStorePrevEntryLengthLarge (zl : bytes) (p len : Z) : option (bytes * Z) :=
  zl ← store zl p [ZIP_BIG_PREVLEN];
  zl ← store zl (p + 1) (le_bytes 4 len);
  Some (zl, 5).

(** zipStorePrevEntryLength with [p == NULL]: the number of bytes. *)
Definition zipPrevEntryLengthSize (len : Z) : Z := if u32 len <? ZIP_BIG_PREVLEN then 1 else 5.

Definition zipStorePrevEntryLength (zl : bytes) (p len : Z) : option (bytes * Z) :=
  if u32 len <? ZIP_BIG_PREVLEN then zl ← store zl p [u32 len]; Some (zl, 1)
  else zipStorePrevEntryLengthLarge zl p len.

Definition ZIP_DECODE_PREVLENSIZE (zl : bytes) (ptr : Z) : option Z :=
  c ← zl.[ptr]; Some (if c <? ZIP_BIG_PREVLEN then 1 else 5).

(** [prevlensize] and [prevlen] at [ptr]. *)
Definition ZIP_DECODE_PREVLEN (zl : bytes) (ptr : Z) : option (Z * Z) :=
  prevlensize ← ZIP_DECODE_PREVLENSIZE zl ptr;
  if prevlensize =? 1 then c ← zl.[ptr]; Some (prevlensize, c)
  else b ← load zl (ptr + 1) 4; Some (prevlensize, le_val b).

Definition zipPrevLenByteDiff (zl : bytes) (p len : Z) : option Z :=
  prevlensize ← ZIP_DECODE_PREVLENSIZE zl p;
  Some (zipPrevEntryLengthSize len - prevlensize).

Definition zipRawEntryLength (zl : bytes) (p : Z) : option Z :=
  prevlensize ← ZIP_DECODE_PREVLENSIZE zl p;
  '(_, lensize, len) ← ZIP_DECODE_LENGTH zl (p + prevlensize);
  Some (u32 (prevlensize + lensize + len)).

(** The value and its encoding, when the [entrylen] bytes are an integer. *)
Definition zipTryEncoding (entry : bytes) (entrylen : Z) : option (option (Z * Z)) :=
  if (entrylen >=? 32) || (entrylen =? 0) then Some None else
  s ← load entry 0 entrylen;
  match string2ll s with
  | None => Some None
  | Some value =>
      let encoding :=
        if (0 <=? value) && (value <=? 12) then u8 (ZIP_INT_IMM_MIN + value)
        else if (-128 <=? value) && (value <=? 127) then ZIP_INT_8B
        else if (-32768 <=? value) && (value <=? 32767) then ZIP_INT_16B
        else if (INT24_MIN <=? value) && (value <=? INT24_MAX) then ZIP_INT_24B
        else if (-2147483648 <=? value) && (value <=? 2147483647) then ZIP_INT_32B
        else ZIP_INT_64B in
      Some (Some (value, encoding))
  end.

Definition zipSaveInteger (zl : bytes) (p value encoding : Z) : option bytes :=
  if encoding =? ZIP_INT_8B then store zl p [u8 value]
  else if encoding =? ZIP_INT_16B then store zl p (le_bytes 2 value)
  else if encoding =? ZIP_INT_24B then
    store zl p (drop 1 (le_bytes 4 (Z.shiftl value 8)))
  else if encoding =? ZIP_INT_32B then store zl p (le_bytes 4 value)
  else if encoding =? ZIP_INT_64B then store zl p (le_bytes 8 value)
  else if (ZIP_INT_IMM_MIN <=? encoding) && (encoding <=? ZIP_INT_IMM_MAX) then Some zl
  else None.

Definition zipLoadInteger (zl : bytes) (p encoding : Z) : option Z :=
  if encoding =? ZIP_INT_8B then c ← zl.[p]; Some (i8 c)
  else if encoding =? ZIP_INT_16B then b ← load zl p 2; Some (i16 (le_val b))
  else if encoding =? ZIP_INT_32B then b ← load zl p 4; Some (i32 (le_val b))
  else if encoding =? ZIP_INT_24B then
    b ← load zl p 3; Some (Z.shiftr (i32 (le_val (0 :: b))) 8)
  else if encoding =? ZIP_INT_64B then b ← load zl p 8; Some (i64 (le_val b))
  else if (ZIP_INT_IMM_MIN <=? encoding) && (encoding <=? ZIP_INT_IMM_MAX) then
    Some (Z.land encoding ZIP_INT_IMM_MASK - 1)
  else None.

Definition zipEntry (zl : bytes) (p : Z) : option zlentry :=
  '(psize, plen) ← ZIP_DECODE_PREVLEN zl p;
  '(enc, lsize, len) ← ZIP_DECODE_LENGTH zl (p + psize);
  Some (mk_zlentry psize plen lsize len (psize + lsize) enc p).

(** ** Operations *)

Section Ops.
Context `{FreshMem}.

Definition ziplistNew : option bytes :=
  let bytes := ZIPLIST_HEADER_SIZE + ZIPLIST_END_SIZE in
  let zl := malloc bytes in
  zl ← set_ZIPLIST_BYTES zl bytes;
  zl ← set_ZIPLIST_TAIL_OFFSET zl ZIPLIST_HEADER_SIZE;
  zl ← set_ZIPLIST_LENGTH zl 0;
  store zl (bytes - 1) [ZIP_END].

(** [len] is an [unsigned int]. *)
Definition ziplistResize (zl : bytes) (len : Z) : option bytes :=
  let len := u32 len in
  let zl := realloc zl len in
  zl ← set_ZIPLIST_BYTES zl len;
  store zl (len - 1) [ZIP_END].

Fixpoint cascade_loop (fuel : nat) (zl : bytes) (p curlen : Z) : option bytes :=
  match fuel with
  | O => None
  | S fuel =>
      c ← zl.[p];
      if c =? ZIP_END then Some zl else
      cur ← zipEntry zl p;
      let rawlen := u32 (headersize cur + e_len cur) in
      let rawlensize := zipPrevEntryLengthSize rawlen in
      c ← zl.[p + rawlen];
      if c =? ZIP_END then Some zl else
      next ← zipEntry zl (p + rawlen);
      if prevrawlen next =? rawlen then Some zl else
      if prevrawlensize next <? rawlensize then
        let extra := rawlensize - prevrawlensize next in
        zl ← ziplistResize zl (curlen + extra);
        let np := p + rawlen in
        t ← ZIPLIST_TAIL_OFFSET zl;
        zl ← (if negb (t =? np) then set_ZIPLIST_TAIL_OFFSET zl (t + extra) else Some zl);
        zl ← memmove zl (np + rawlensize) (np + prevrawlensize next)
                        (curlen - np - prevrawlensize next - 1);
        '(zl, _) ← zipStorePrevEntryLength zl np rawlen;
        cascade_loop fuel zl (p + rawlen) (curlen + extra)
      else if prevrawlensize next >? rawlensize then
        '(zl, _) ← zipStorePrevEntryLengthLarge zl (p + rawlen) rawlen; Some zl
      else
        '(zl, _) ← zipStorePrevEntryLength zl (p + rawlen) rawlen; Some zl
  end.

(** A round of the loop moves to the next entry, so the number of rounds is at
    most the number of entries, which is at most the number of bytes. *)
Definition __ziplistCascadeUpdate (zl : bytes) (p : Z) : option bytes :=
  curlen ← ZIPLIST_BYTES zl;
  cascade_loop (S (length zl)) zl p curlen.

(** [for (i = 0; p[0] != ZIP_END && i < num; i++)]: the new [p] and [deleted]. *)
Fixpoint delete_loop (fuel : nat) (zl : bytes) (p i num deleted : Z) : option (Z * Z) :=
  match fuel with
  | O => None
  | S fuel =>
      c ← zl.[p];
      if negb (c =? ZIP_END) && (i <? num) then
        n ← zipRawEntryLength zl p;
        delete_loop fuel zl (p + n) (i + 1) num (deleted + 1)
      else Some (p, deleted)
  end.

(** The part under [if (p[0] != ZIP_END)] and its else branch: the block with
    its tail moved and the new value of [nextdiff]. *)
Definition delete_move (zl : bytes) (first : zlentry) (p totlen : Z) : option (bytes * Z) :=
  c ← zl.[p];
  if negb (c =? ZIP_END) then
    nextdiff ← zipPrevLenByteDiff zl p (prevrawlen first);
    let p := p - nextdiff in
    '(zl, _) ← zipStorePrevEntryLength zl p (prevrawlen first);
    t ← ZIPLIST_TAIL_OFFSET zl;
    zl ← set_ZIPLIST_TAIL_OFFSET zl (t - totlen);
    tail ← zipEntry zl p;
    c ← zl.[p + u32 (headersize tail + e_len tail)];
    zl ← (if negb (c =? ZIP_END) then
            t ← ZIPLIST_TAIL_OFFSET zl;
            set_ZIPLIST_TAIL_OFFSET zl (t + nextdiff)
          else Some zl);
    bytes ← ZIPLIST_BYTES zl;
    zl ← memmove zl (e_p first) p (bytes - p - 1);
    Some (zl, nextdiff)
  else
    zl ← set_ZIPLIST_TAIL_OFFSET zl (e_p first - prevrawlen first);
    Some (zl, 0).

Definition __ziplistDelete (zl : bytes) (p num : Z) : option bytes :=
  first ← zipEntry zl p;
  '(p, deleted) ← delete_loop (S (length zl)) zl p 0 num 0;
  let totlen := u32 (p - e_p first) in
  if totlen >? 0 then
    '(zl, nextdiff) ← delete_move zl first p totlen;
    let offset := e_p first in
    bytes ← ZIPLIST_BYTES zl;
    zl ← ziplistResize zl (bytes - totlen + nextdiff);
    zl ← ZIPLIST_INCR_LENGTH zl (- deleted);
    if negb (nextdiff =? 0) then __ziplistCascadeUpdate zl offset else Some zl
  else Some zl.

(** The length of the entry before the insertion point. *)
Definition insert_prevlen (zl : bytes) (p : Z) : option Z :=
  c ← zl.[p];
  if negb (c =? ZIP_END) then
    '(_, prevlen) ← ZIP_DECODE_PREVLEN zl p; Some prevlen
  else
    ptail ← ZIPLIST_ENTRY_TAIL zl;
    c ← zl.[ptail];
    if negb (c =? ZIP_END) then zipRawEntryLength zl ptail else Some 0.

(** [nextdiff] and [forcelarge]. *)
Definition insert_nextdiff (zl : bytes) (p reqlen : Z) : option (Z * bool) :=
  c ← zl.[p];
  nextdiff ← (if negb (c =? ZIP_END) then zipPrevLenByteDiff zl p reqlen else Some 0);
  if (nextdiff =? -4) && (reqlen <? 4) then Some (0, true) else Some (nextdiff, false).

(** The memory move and the tail offset, after the block has been resized. *)
Definition insert_move (zl : bytes) (p curlen reqlen nextdiff : Z) (forcelarge : bool) : option bytes :=
  c ← zl.[p];
  if negb (c =? ZIP_END) then
    zl ← memmove zl (p + reqlen) (p - nextdiff) (curlen - p - 1 + nextdiff);
    '(zl, _) ← (if forcelarge then zipStorePrevEntryLengthLarge zl (p + reqlen) reqlen
                else zipStorePrevEntryLength zl (p + reqlen) reqlen);
    t ← ZIPLIST_TAIL_OFFSET zl;
    zl ← set_ZIPLIST_TAIL_OFFSET zl (t + reqlen);
    tail ← zipEntry zl (p + reqlen);
    c ← zl.[p + (reqlen + headersize tail + e_len tail)];
    if negb (c =? ZIP_END) then
      t ← ZIPLIST_TAIL_OFFSET zl;
      set_ZIPLIST_TAIL_OFFSET zl (t + nextdiff)
    else Some zl
  else set_ZIPLIST_TAIL_OFFSET zl p.

(** Write the entry at [p]. *)
Definition insert_write (zl : bytes) (p prevlen encoding value : Z) (s : bytes) (slen : Z) : option bytes :=
  '(zl, n) ← zipStorePrevEntryLength zl p prevlen;
  let p := p + n in
  '(zl, n) ← zipStoreEntryEncoding zl p encoding slen;
  let p := p + n in
  zl ← (if ZIP_IS_STR encoding then b ← load s 0 slen; store zl p b
        else zipSaveInteger zl p value encoding);
  ZIPLIST_INCR_LENGTH zl 1.

Definition __ziplistInsert (zl : bytes) (p : Z) (s : bytes) (slen : Z) : option bytes :=
  curlen ← ZIPLIST_BYTES zl;
  prevlen ← insert_prevlen zl p;
  enc ← zipTryEncoding s slen;
  '(value, encoding, reqlen) ←
    match enc with
    | Some (value, encoding) => n ← zipIntSize encoding; Some (value, encoding, n)
    | None => Some (123456789, 0, slen)
    end;
  let reqlen := reqlen + zipPrevEntryLengthSize prevlen in
  let reqlen := reqlen + zipEntryEncodingSize encoding slen in
  '(nextdiff, forcelarge) ← insert_nextdiff zl p reqlen;
  zl ← ziplistResize zl (curlen + reqlen + nextdiff);
  zl ← insert_move zl p curlen reqlen nextdiff forcelarge;
  zl ← (if negb (nextdiff =? 0) then __ziplistCascadeUpdate zl (p + reqlen) else Some zl);
  insert_write zl p prevlen encoding value s slen.

(** The two blocks are different objects; the result is the merged block. *)
Definition ziplistMerge (first second : bytes) : option bytes :=
  first_bytes ← ZIPLIST_BYTES first;
  first_len ← ZIPLIST_LENGTH first;
  second_bytes ← ZIPLIST_BYTES second;
  second_len ← ZIPLIST_LENGTH second;
  let append := first_len >=? second_len in
  let '(target, target_bytes, source, source_bytes) :=
    if append then (first, first_bytes, second, second_bytes)
    else (second, second_bytes, first, first_bytes) in
  let zlbytes := first_bytes + second_bytes - ZIPLIST_HEADER_SIZE - ZIPLIST_END_SIZE in
  let zllength := first_len + second_len in
  let zllength := if zllength <? UINT16_MAX then zllength else UINT16_MAX in
  first_offset ← ZIPLIST_TAIL_OFFSET first;
  second_offset ← ZIPLIST_TAIL_OFFSET second;
  let target := realloc target zlbytes in
  target ←
    (if append then
       b ← load source ZIPLIST_HEADER_SIZE (source_bytes - ZIPLIST_HEADER_SIZE);
       store target (target_bytes - ZIPLIST_END_SIZE) b
     else
       target ← memmove target (source_bytes - ZIPLIST_END_SIZE) ZIPLIST_HEADER_SIZE
                               (target_bytes - ZIPLIST_HEADER_SIZE);
       b ← load source 0 (source_bytes - ZIPLIST_END_SIZE);
       store target 0 b);
  target ← set_ZIPLIST_BYTES target zlbytes;
  target ← set_ZIPLIST_LENGTH target zllength;
  target ← set_ZIPLIST_TAIL_OFFSET target
             ((first_bytes - ZIPLIST_END_SIZE) + (second_offset - ZIPLIST_HEADER_SIZE));
  __ziplistCascadeUpdate target first_offset.

Inductive where_ := ZIPLIST_HEAD | ZIPLIST_TAIL.

Definition ziplistPush (zl : bytes) (s : bytes) (slen : Z) (at_ : where_) : option bytes :=
  p ← match at_ with ZIPLIST_HEAD => Some ZIPLIST_ENTRY_HEAD | ZIPLIST_TAIL => ZIPLIST_ENTRY_END zl end;
  __ziplistInsert zl p s slen.

(** [while (prevlen > 0 && index--)]. *)
Fixpoint index_back (fuel : nat) (zl : bytes) (p prevlen index : Z) : option (Z * Z) :=
  match fuel with
  | O => None
  | S fuel =>
      if prevlen >? 0 then
        if index =? 0 then Some (p, index - 1) else
        let p := p - prevlen in
        '(_, prevlen) ← ZIP_DECODE_PREVLEN zl p;
        index_back fuel zl p prevlen (index - 1)
      else Some (p, index)
  end.

(** [while (p[0] != ZIP_END && index--)]. *)
Fixpoint index_forward (fuel : nat) (zl : bytes) (p index : Z) : option (Z * Z) :=
  match fuel with
  | O => None
  | S fuel =>
      c ← zl.[p];
      if negb (c =? ZIP_END) then
        if index =? 0 then Some (p, index - 1) else
        n ← zipRawEntryLength zl p;
        index_forward fuel zl (p + n) (index - 1)
      else Some (p, index)
  end.

(** [-index] on an int. *)
Definition neg_int (index : Z) : option Z := if index =? -2147483648 then None else Some (- index).

Definition ziplistIndex (zl : bytes) (index : Z) : option (option Z) :=
  '(p, index) ←
    (if index <? 0 then
       m ← neg_int index;
       let index := m - 1 in
       p ← ZIPLIST_ENTRY_TAIL zl;
       c ← zl.[p];
       if negb (c =? ZIP_END) then
         '(_, prevlen) ← ZIP_DECODE_PREVLEN zl p;
         index_back (S (length zl)) zl p prevlen index
       else Some (p, index)
     else index_forward (S (length zl)) zl ZIPLIST_ENTRY_HEAD index);
  c ← zl.[p];
  if (c =? ZIP_END) || (index >? 0) then Some None else Some (Some p).

Definition ziplistNext (zl : bytes) (p : Z) : option (option Z) :=
  c ← zl.[p];
  if c =? ZIP_END then Some None else
  n ← zipRawEntryLength zl p;
  let p := p + n in
  c ← zl.[p];
  if c =? ZIP_END then Some None else Some (Some p).

Definition ziplistPrev (zl : bytes) (p : Z) : option (option Z) :=
  c ← zl.[p];
  if c =? ZIP_END then
    p ← ZIPLIST_ENTRY_TAIL zl;
    c ← zl.[p];
    Some (if c =? ZIP_END then None else Some p)
  else if p =? ZIPLIST_ENTRY_HEAD then Some None
  else
    '(_, prevlen) ← ZIP_DECODE_PREVLEN zl p;
    if prevlen >? 0 then Some (Some (p - prevlen)) else None.

(** What ziplistGet stores: [*sstr] and [*slen], or [*sval]. *)
Inductive zget := GetStr (sstr slen : Z) | GetInt (sval : Z).

Definition ziplistGet (zl : bytes) (p : option Z) : option (option zget) :=
  match p with
  | None => Some None
  | Some p =>
      c ← zl.[p];
      if c =? ZIP_END then Some None else
      entry ← zipEntry zl p;
      if ZIP_IS_STR (e_encoding entry) then Some (Some (GetStr (p + headersize entry) (e_len entry)))
      else v ← zipLoadInteger zl (p + headersize entry) (e_encoding entry); Some (Some (GetInt v))
  end.

Definition ziplistInsert (zl : bytes) (p : Z) (s : bytes) (slen : Z) : option bytes :=
  __ziplistInsert zl p s slen.

(** The result is the block and the new [*p]. *)
Definition ziplistDelete (zl : bytes) (p : Z) : option (bytes * Z) :=
  let offset := p in
  zl ← __ziplistDelete zl p 1;
  Some (zl, offset).

Definition ziplistDeleteRange (zl : bytes) (index num : Z) : option bytes :=
  p ← ziplistIndex zl index;
  match p with
  | None => Some zl
  | Some p => __ziplistDelete zl p num
  end.

Definition ziplistCompare (zl : bytes) (p : Z) (sstr : bytes) (slen : Z) : option bool :=
  c ← zl.[p];
  if c =? ZIP_END then Some false else
  entry ← zipEntry zl p;
  if ZIP_IS_STR (e_encoding entry) then
    if e_len entry =? slen then
      m ← memcmp (Z.to_nat slen) (zdrop (p + headersize entry) zl) sstr; Some (m =? 0)
    else Some false
  else
    enc ← zipTryEncoding sstr slen;
    match enc with
    | Some (sval, _) =>
        zval ← zipLoadInteger zl (p + headersize entry) (e_encoding entry); Some (zval =? sval)
    | None => Some false
    end.

(** The comparison of an integer entry in ziplistFind, with the cached encoding
    [vencoding] and value [vll] of the searched string. *)
Definition find_int (zl : bytes) (q encoding : Z) (vstr : bytes) (vlen vencoding vll : Z)
  : option (bool * Z * Z) :=
  '(vencoding, vll) ←
    (if vencoding =? 0 then
       enc ← zipTryEncoding vstr vlen;
       let '(vencoding, vll) := match enc with Some (v, e) => (e, v) | None => (UCHAR_MAX, vll) end in
       if vencoding =? 0 then None else Some (vencoding, vll)
     else Some (vencoding, vll));
  if negb (vencoding =? UCHAR_MAX) then
    ll ← zipLoadInteger zl q encoding; Some (ll =? vll, vencoding, vll)
  else Some (false, vencoding, vll).

Fixpoint find_loop (fuel : nat) (zl : bytes) (p : Z) (vstr : bytes) (vlen skip skipcnt vencoding vll : Z)
  : option (option Z) :=
  match fuel with
  | O => None
  | S fuel =>
      c ← zl.[p];
      if c =? ZIP_END then Some None else
      prevlensize ← ZIP_DECODE_PREVLENSIZE zl p;
      '(encoding, lensize, len) ← ZIP_DECODE_LENGTH zl (p + prevlensize);
      let q := p + prevlensize + lensize in
      if skipcnt =? 0 then
        '(found, vencoding, vll) ←
          (if ZIP_IS_STR encoding then
             if len =? vlen then
               m ← memcmp (Z.to_nat vlen) (zdrop q zl) vstr; Some (m =? 0, vencoding, vll)
             else Some (false, vencoding, vll)
           else find_int zl q encoding vstr vlen vencoding vll);
        if (found : bool) then Some (Some p)
        else find_loop fuel zl (q + len) vstr vlen skip (i32 skip) vencoding vll
      else find_loop fuel zl (q + len) vstr vlen skip (skipcnt - 1) vencoding vll
  end.

Definition ziplistFind (zl : bytes) (p : Z) (vstr : bytes) (vlen skip : Z) : option (option Z) :=
  find_loop (S (length zl)) zl p vstr vlen skip 0 0 0.

Fixpoint len_loop (fuel : nat) (zl : bytes) (p len : Z) : option Z :=
  match fuel with
  | O => None
  | S fuel =>
      c ← zl.[p];
      if negb (c =? ZIP_END) then
        n ← zipRawEntryLength zl p;
        len_loop fuel zl (p + n) (u32 (len + 1))
      else Some len
  end.

(** The result is the length and the block, whose length field may be restored. *)
Definition ziplistLen (zl : bytes) : option (Z * bytes) :=
  l ← ZIPLIST_LENGTH zl;
  if l <? UINT16_MAX then Some (l, zl)
  else
    len ← len_loop (S (length zl)) zl ZIPLIST_HEADER_SIZE 0;
    zl ← (if len <? UINT16_MAX then set_ZIPLIST_LENGTH zl len else Some zl);
    Some (len, zl).

Definition ziplistBlobLen (zl : bytes) : option Z := ZIPLIST_BYTES zl.

End Ops.
