(* ===== verification/ZiplistSpec.v ===== *)
(** * ziplist.c: layout, invariant and theorems

    The abstract value of a ziplist is the list of the strings that were put into
    it; a string that is the decimal numeral of a 64 bit integer is stored as an
    integer.  [zrepr zl ss] says that the block [zl] holds the strings [ss]: every
    prevlen field has the length of the entry before, in a field wide enough for
    it, the tail offset points to the last entry, and the header agrees. *)

From stdpp Require Import base list numbers option.
From Stdlib Require Import ZArith Lia.
From S2P Require Import Prelude Util Ziplist.

(** ** Encoding headers *)

(** Check a predicate on the numbers below a bound by evaluation. *)
Lemma range_check (f : Z -> bool) n :
  forallb f (zseq 0 n) = true -> forall x, 0 <= x < n -> f x = true.
Proof.
  intros Hf x Hx. rewrite forallb_forall in Hf. apply Hf. unfold zseq.
  apply in_map_iff. exists x. split; [lia|]. apply in_map_iff. exists (Z.to_nat x). split; [lia|].
  apply in_seq. lia.
Qed.

(** The head of a string entry, read back. *)
Lemma head6_check x : 0 <= x < 64 ->
  Z.lor ZIP_STR_06B x = x /\ (x <? ZIP_STR_MASK) = true /\ Z.land x ZIP_STR_MASK = 0.
Proof.
  intros Hx. apply (range_check (fun x => (Z.lor ZIP_STR_06B x =? x) && (x <? ZIP_STR_MASK) &&
    (Z.land x ZIP_STR_MASK =? 0)) 64) in Hx; [|by vm_compute].
  rewrite !andb_true_iff, !Z.eqb_eq in Hx. tauto.
Qed.

Lemma head14_check x : 0 <= x < 64 ->
  (Z.lor ZIP_STR_14B x <? ZIP_STR_MASK) = true /\ Z.land (Z.lor ZIP_STR_14B x) ZIP_STR_MASK = 64 /\
  Z.land (Z.lor ZIP_STR_14B x) 63 = x.
Proof.
  intros Hx. apply (range_check (fun x => (Z.lor ZIP_STR_14B x <? ZIP_STR_MASK) &&
    (Z.land (Z.lor ZIP_STR_14B x) ZIP_STR_MASK =? 64) && (Z.land (Z.lor ZIP_STR_14B x) 63 =? x)) 64) in Hx;
    [|by vm_compute].
  rewrite !andb_true_iff, !Z.eqb_eq in Hx. tauto.
Qed.

Lemma be32_value n : 0 <= n < 4294967296 ->
  u32 (Z.lor (Z.lor (Z.lor (Z.shiftl (Z.land (Z.shiftr n 24) 255) 24) (Z.shiftl (Z.land (Z.shiftr n 16) 255) 16))
    (Z.shiftl (Z.land (Z.shiftr n 8) 255) 8)) (Z.land n 255)) = n.
Proof.
  intros Hn. rewrite !land_255, !Z.shiftr_div_pow2 by lia.
  change (2 ^ 24) with 16777216. change (2 ^ 16) with 65536. change (2 ^ 8) with 256.
  set (b1 := n / 16777216 mod 256). set (b2 := n / 65536 mod 256). set (b3 := n / 256 mod 256). set (b4 := n mod 256).
  assert (0 <= b1 < 256 /\ 0 <= b2 < 256 /\ 0 <= b3 < 256 /\ 0 <= b4 < 256) as (H1 & H2 & H3 & H4) by (subst b1 b2 b3 b4; dlia).
  assert (n = ((b1 * 256 + b2) * 256 + b3) * 256 + b4) as E by (subst b1 b2 b3 b4; dlia). clearbody b1 b2 b3 b4.
  rewrite (lor_shiftl b1 (Z.shiftl b2 16) 24) by (rewrite ?Z.shiftl_mul_pow2 by lia; lia).
  rewrite (Z.shiftl_mul_pow2 b2) by lia.
  replace (b1 * 2 ^ 24 + b2 * 2 ^ 16) with (Z.shiftl (b1 * 256 + b2) 16) by (rewrite Z.shiftl_mul_pow2 by lia; lia).
  rewrite (lor_shiftl _ (Z.shiftl b3 8) 16) by (rewrite ?Z.shiftl_mul_pow2 by lia; lia).
  rewrite (Z.shiftl_mul_pow2 b3) by lia.
  replace ((b1 * 256 + b2) * 2 ^ 16 + b3 * 2 ^ 8) with (Z.shiftl ((b1 * 256 + b2) * 256 + b3) 8)
    by (rewrite Z.shiftl_mul_pow2 by lia; lia).
  rewrite lor_shiftl by lia. change (2 ^ 8) with 256. rewrite <- E. by apply u32_small.
Qed.

(** ** The body of an entry: its encoding and data *)

(** The integer a string is stored as, with its encoding. *)
Definition zint (s : bytes) : option (Z * Z) :=
  match zipTryEncoding s (zlen s) with Some (Some x) => Some x | _ => None end.

Definition int_bytes (encoding value : Z) : bytes :=
  if encoding =? ZIP_INT_8B then [u8 value]
  else if encoding =? ZIP_INT_16B then le_bytes 2 value
  else if encoding =? ZIP_INT_24B then drop 1 (le_bytes 4 (Z.shiftl value 8))
  else if encoding =? ZIP_INT_32B then le_bytes 4 value
  else if encoding =? ZIP_INT_64B then le_bytes 8 value
  else [].

Definition ehead (s : bytes) : bytes :=
  match zint s with Some (_, e) => [e] | None => encoding_buf 0 (zlen s) end.
Definition edata (s : bytes) : bytes :=
  match zint s with Some (v, e) => int_bytes e v | None => s end.
Definition body (s : bytes) : bytes := ehead s ++ edata s.

(** The encoding zipEntry reports. *)
Definition ecode (s : bytes) : Z :=
  match zint s with
  | Some (_, e) => e
  | None => if zlen s <=? 63 then ZIP_STR_06B else if zlen s <=? 16383 then ZIP_STR_14B else ZIP_STR_32B
  end.

Lemma try_encoding s r : zipTryEncoding (s ++ r) (zlen s) = Some (zint s).
Proof.
  unfold zint, zipTryEncoding. destruct (_ || _); [done|].
  assert (forall r, load (s ++ r) 0 (zlen s) = Some s) as E by (intros r'; by apply (load_at [] s r')).
  pose proof (E []) as E0. rewrite app_nil_r in E0. rewrite E, E0. cbn [mbind option_bind].
  by destruct (string2ll s).
Qed.

(** The integer encodings and the values they hold. *)
Definition enc_width (e : Z) : option Z :=
  if e =? ZIP_INT_8B then Some 1 else if e =? ZIP_INT_16B then Some 2 else if e =? ZIP_INT_24B then Some 3
  else if e =? ZIP_INT_32B then Some 4 else if e =? ZIP_INT_64B then Some 8 else None.

Definition enc_holds (e v : Z) : Prop :=
  (0 <= v <= 12 /\ e = ZIP_INT_IMM_MIN + v) \/ (exists n, enc_width e = Some n /\ in_s (8 * n) v).

Lemma zint_inv s v e : zint s = Some (v, e) -> in_s 64 v /\ s = sdec v /\ enc_holds e v.
Proof.
  unfold zint, zipTryEncoding. destruct (_ || _); [done|]. destruct (load _ _ _) as [s'|] eqn:El; [|done].
  assert (s' = s) as ->.
  { unfold load in El. destruct (_ && _); [|done]. injection El as <-. rewrite zdrop_0 by lia. apply ztake_all. lia. }
  cbn [mbind option_bind]. destruct (string2ll s) as [w|] eqn:Es; [|done].
  apply string2ll_sound in Es as [Hw ->]. intros [= -> <-]. split; [done|]. split; [done|].
  unfold enc_holds. destruct (Z.leb_spec 0 v), (Z.leb_spec v 12); cbn [andb];
    [left; split; [lia|]; unfold u8, ZIP_INT_IMM_MIN; apply wrapu_small; unfold in_u; cbn; lia| | |];
    (right; repeat match goal with |- context [ if ?a && ?b then _ else _ ] => destruct a eqn:?, b eqn:?; cbn [andb] end;
     (eexists; split; [reflexivity|]); unfold in_s, INT24_MIN, INT24_MAX in *; cbn; lia).
Qed.

Lemma enc_holds_int e v : enc_holds e v ->
  ZIP_IS_STR e = false /\ (e <? ZIP_STR_MASK) = false /\ zipIntSize e = Some (zlen (int_bytes e v)) /\
  e <> 0 /\ e <> 255.
Proof.
  intros [[Hv ->]|(n & Hn & _)].
  - assert (v ∈ [0;1;2;3;4;5;6;7;8;9;10;11;12]) as Hin by (rewrite !elem_of_cons; lia).
    repeat (apply elem_of_cons in Hin as [->|Hin]; [by vm_compute; split_and!|]). by apply not_elem_of_nil in Hin.
  - unfold enc_width in Hn. unfold int_bytes.
    repeat (case_match; [simplify_eq; match goal with H : (e =? _) = true |- _ => apply Z.eqb_eq in H as -> end;
      split_and!; try done; cbn [Z.eqb ZIP_INT_8B ZIP_INT_16B]; by rewrite ?zlen_le_bytes|]). done.
Qed.

Lemma ehead_int s v e : zint s = Some (v, e) -> body s = e :: int_bytes e v.
Proof. intros E. unfold body, ehead, edata. by rewrite E. Qed.

Lemma ehead_str s : zint s = None -> ehead s = encoding_buf 0 (zlen s) /\ edata s = s.
Proof. intros E. unfold ehead, edata. by rewrite E. Qed.

Lemma znth_at_k {A} (P : list A) l Q zl k x :
  zl = P ++ l ++ Q -> 0 <= k -> znth l k = Some x -> znth zl (zlen P + k) = Some x.
Proof.
  intros -> Hk Hx. pose proof (znth_lt _ _ _ Hx). rewrite znth_app_r by lia.
  replace (zlen P + k - zlen P) with k by lia. rewrite znth_app_l by lia. done.
Qed.

Lemma decode_at zl P s Q p :
  zl = P ++ body s ++ Q -> p = zlen P -> zlen s < 4294967296 ->
  ZIP_DECODE_LENGTH zl p = Some (ecode s, zlen (ehead s), zlen (edata s)).
Proof.
  intros Hz -> Hs. unfold body in Hz. assert (zl = P ++ ehead s ++ (edata s ++ Q)) as Hz' by (rewrite Hz; lapp).
  pose proof (fun k x Hk => znth_at_k P (ehead s) (edata s ++ Q) zl k x Hz' Hk) as Hget. clear Hz Hz'.
  assert (forall x, znth (ehead s) 0 = Some x -> zl.[zlen P] = Some x) as Hget0.
  { intros x Hx. apply Hget in Hx; [|lia]. by rewrite Z.add_0_r in Hx. }
  pose proof (zlen_nonneg s) as Hs0. unfold ZIP_DECODE_LENGTH, ZIP_ENTRY_ENCODING.
  destruct (zint s) as [[v e]|] eqn:Ez.
  - apply zint_inv in Ez as Hz. destruct Hz as (_ & _ & Hh). destruct (enc_holds_int e v Hh) as (_ & He & Hsz & _).
    unfold ecode, ehead, edata in *. rewrite Ez in *. rewrite (Hget0 e) by done. cbn [mbind option_bind].
    rewrite He, He, Hsz. done.
  - destruct (ehead_str s Ez) as [Eh Ed]. rewrite Ed. unfold ecode. rewrite Ez. rewrite Eh in *.
    unfold encoding_buf in *. change (ZIP_IS_STR 0) with true in *. cbn match in *.
    destruct (Z.leb_spec (zlen s) 63); [|destruct (Z.leb_spec (zlen s) 16383)].
    + destruct (head6_check (zlen s)) as (E1 & E2 & E3); [lia|].
      rewrite (Hget0 _ eq_refl). cbn [mbind option_bind]. rewrite E1, E2, E3. cbn [mbind option_bind Z.ltb Z.eqb].
      change (0 <? ZIP_STR_MASK) with true. cbn match. change (0 =? ZIP_STR_06B) with true. cbn match.
      rewrite land_63, Z.mod_small by lia. done.
    + set (x := Z.land (Z.shiftr (zlen s) 8) 63) in *.
      assert (x = zlen s / 256) as Ex.
      { subst x. rewrite land_63, Z.shiftr_div_pow2 by lia. change (2 ^ 8) with 256. apply Z.mod_small. dlia. }
      assert (0 <= x < 64) as Hx by (rewrite Ex; dlia). destruct (head14_check x Hx) as (E1 & E2 & E3).
      rewrite (Hget0 _ eq_refl). cbn [mbind option_bind]. rewrite E1, E2. change (64 <? ZIP_STR_MASK) with true.
      cbn match. change (64 =? ZIP_STR_06B) with false. change (64 =? ZIP_STR_14B) with true. cbn match.
      rewrite (Hget 1 _ ltac:(lia) eq_refl). cbn [mbind option_bind]. rewrite E3.
      rewrite lor_shiftl, Ex, land_255 by (rewrite ?land_255; cbn; dlia). do 2 f_equal.
      change (2 ^ 8) with 256. dlia.
    + rewrite (Hget0 _ eq_refl). cbn [mbind option_bind].
      change (ZIP_STR_32B <? ZIP_STR_MASK) with true. cbn match. change (Z.land ZIP_STR_32B ZIP_STR_MASK) with 128.
      change (128 <? ZIP_STR_MASK) with true. change (128 =? ZIP_STR_06B) with false.
      change (128 =? ZIP_STR_14B) with false. change (128 =? ZIP_STR_32B) with true. cbn match.
      rewrite (Hget 1 _ ltac:(lia) eq_refl), (Hget 2 _ ltac:(lia) eq_refl), (Hget 3 _ ltac:(lia) eq_refl),
        (Hget 4 _ ltac:(lia) eq_refl). cbn [mbind option_bind]. rewrite be32_value by lia. done.
Qed.

(** The size of a body. *)
Lemma body_size s : 1 <= zlen (ehead s) <= 5 /\ zlen (body s) = zlen (ehead s) + zlen (edata s) /\
  1 <= zlen (body s) <= zlen s + 9.
Proof.
  unfold body. rewrite zlen_app. pose proof (zlen_nonneg (edata s)). pose proof (zlen_nonneg s).
  assert (1 <= zlen (ehead s) <= 5 /\ zlen (edata s) <= zlen s + 9 - zlen (ehead s)) as [H1 H2]; [|lia].
  unfold ehead, edata. destruct (zint s) as [[v e]|] eqn:Ez.
  - change (zlen [e]) with 1. split; [lia|].
    unfold int_bytes. repeat case_match; rewrite ?zlen_le_bytes; unfold zlen in *; cbn [length drop le_bytes]; lia.
  - unfold encoding_buf. change (ZIP_IS_STR 0) with true. cbn match. repeat case_match; unfold zlen; cbn [length]; lia.
Qed.

(** ** Layout *)

Definition psz (b : bool) : Z := if b then 5 else 1.
(** The prevlen field, in its large or small form. *)
Definition prevfield (b : bool) (pl : Z) : bytes := if b then ZIP_BIG_PREVLEN :: le_bytes 4 pl else [pl].
(** Whether a length needs the large form. *)
Definition big (pl : Z) : bool := negb (pl <? ZIP_BIG_PREVLEN).

Abbreviation ent := (bool * bytes)%type.
Implicit Types (e : ent) (es : list ent).

Definition elen e : Z := psz e.1 + zlen (body e.2).
Definition ebytes (pl : Z) e : bytes := prevfield e.1 pl ++ body e.2.
Fixpoint enc (pl : Z) es : bytes :=
  match es with [] => [] | e :: r => ebytes pl e ++ enc (elen e) r end.
Fixpoint elens es : Z := match es with [] => 0 | e :: r => elen e + elens r end.

Definition prev_ok (b : bool) (pl : Z) : Prop := 0 <= pl < 4294967296 /\ (b = false -> pl < 254).
Fixpoint chain_ok (pl : Z) es : Prop :=
  match es with [] => True | e :: r => prev_ok e.1 pl /\ chain_ok (elen e) r end.

(** The length of the last of the entries [es], [pl] when there is none. *)
Fixpoint lastlen (pl : Z) es : Z := match es with [] => pl | e :: r => lastlen (elen e) r end.

(** The most bytes the strings can take. *)
Definition room (ss : list bytes) : Z := foldr (fun s n => zlen (body s) + 5 + n) 0 ss.

Definition hd (t o c : Z) : bytes := le_bytes 4 t ++ le_bytes 4 o ++ le_bytes 2 c.
Definition tail_off es : Z := 10 + elens (removelast es).
Definition block (c : Z) es : bytes := hd (11 + elens es) (tail_off es) c ++ enc 0 es ++ [ZIP_END].

(** The length field: the number of entries, or 65535 when it is not known. *)
Definition cnt_ok (c : Z) (n : Z) : Prop := c = 65535 \/ (c = n /\ n < 65535).

Definition zrepr (zl : bytes) (ss : list bytes) : Prop :=
  exists c es, zl = block c es /\ chain_ok 0 es /\ es.*2 = ss /\ cnt_ok c (zlen ss) /\ 11 + room ss < 4294967296.

Lemma elen_pos e : 2 <= elen e.
Proof. unfold elen, psz. destruct (body_size e.2) as (_ & _ & H). destruct e.1; lia. Qed.
Lemma elens_nonneg es : 0 <= elens es.
Proof. induction es as [|e es IH]; cbn; [lia|]. pose proof (elen_pos e). lia. Qed.
Lemma elens_app es es' : elens (es ++ es') = elens es + elens es'.
Proof. induction es as [|e es IH]; cbn; [lia|]. lia. Qed.
Lemma psz_prevfield b pl : zlen (prevfield b pl) = psz b.
Proof. by destruct b. Qed.
Lemma zlen_ebytes pl e : zlen (ebytes pl e) = elen e.
Proof. unfold ebytes, elen. by rewrite zlen_app, psz_prevfield. Qed.
Lemma zlen_enc pl es : zlen (enc pl es) = elens es.
Proof. revert pl. induction es as [|e es IH]; intros pl; cbn; [done|]. by rewrite zlen_app, zlen_ebytes, IH. Qed.
Lemma lastlen_app pl es es' : lastlen pl (es ++ es') = lastlen (lastlen pl es) es'.
Proof. revert pl. induction es as [|e es IH]; intros pl; cbn; auto. Qed.
Lemma enc_app pl es es' : enc pl (es ++ es') = enc pl es ++ enc (lastlen pl es) es'.
Proof. revert pl. induction es as [|e es IH]; intros pl; cbn; [done|]. rewrite IH. lapp. Qed.
Lemma chain_app pl es es' : chain_ok pl (es ++ es') <-> chain_ok pl es /\ chain_ok (lastlen pl es) es'.
Proof. revert pl. induction es as [|e es IH]; intros pl; cbn; [tauto|]. rewrite IH. tauto. Qed.
Lemma room_app ss ss' : room (ss ++ ss') = room ss + room ss'.
Proof. unfold room. induction ss as [|s ss IH]; cbn; lia. Qed.
Lemma room_nonneg ss : 0 <= room ss.
Proof. unfold room. induction ss as [|s ss IH]; cbn; [lia|]. pose proof (zlen_nonneg (body s)). lia. Qed.
Lemma elens_room es : elens es <= room es.*2.
Proof.
  induction es as [|[b s] es IH]; [done|]. cbn [elens fmap list_fmap]. unfold elen, psz, room in *. cbn [foldr fst snd].
  destruct b; lia.
Qed.
Lemma elens_cons e es : elens (e :: es) = elen e + elens es.
Proof. done. Qed.
Lemma elens_length es : 2 * zlen es <= elens es.
Proof. induction es as [|e es IH]; [done|]. rewrite zlen_cons, elens_cons. pose proof (elen_pos e). lia. Qed.
Lemma zlen_hd t o c : zlen (hd t o c) = 10.
Proof. done. Qed.
Lemma zlen_block c es : zlen (block c es) = 11 + elens es.
Proof. unfold block. rewrite !zlen_app, zlen_hd, zlen_enc. change (zlen [ZIP_END]) with 1. lia. Qed.

#[export] Hint Rewrite zlen_hd zlen_ebytes zlen_enc elens_app elens_cons psz_prevfield zlen_block : redis_len.

(** ** Header fields *)

Lemma le4_val v : 0 <= v < 4294967296 -> le_val (le_bytes 4 v) = v.
Proof. intros. rewrite le_val_bytes. by apply Z.mod_small. Qed.
Lemma le2_val v : 0 <= v < 65536 -> le_val (le_bytes 2 v) = v.
Proof. intros. rewrite le_val_bytes. by apply Z.mod_small. Qed.
Lemma le4_mod v w : v mod 4294967296 = w mod 4294967296 -> le_bytes 4 v = le_bytes 4 w.
Proof.
  intros E. apply le_val_inj; [apply le_bytes_ok..|by rewrite !length_le_bytes|]. rewrite !le_val_bytes. done.
Qed.

Lemma get_bytes t o c X : 0 <= t < 4294967296 -> ZIPLIST_BYTES (hd t o c ++ X) = Some t.
Proof.
  intros Ht. unfold ZIPLIST_BYTES. rewrite (load_at [] (le_bytes 4 t) (le_bytes 4 o ++ le_bytes 2 c ++ X));
    [|unfold hd; lapp|done|done]. cbn [mbind option_bind]. by rewrite le4_val.
Qed.
Lemma set_bytes t t' o c X : set_ZIPLIST_BYTES (hd t o c ++ X) t' = Some (hd t' o c ++ X).
Proof.
  unfold set_ZIPLIST_BYTES. rewrite (store_at [] (le_bytes 4 t) (le_bytes 4 o ++ le_bytes 2 c ++ X));
    [|unfold hd; lapp|done|done]. unfold hd. lapp.
Qed.
Lemma get_tail t o c X : 0 <= o < 4294967296 -> ZIPLIST_TAIL_OFFSET (hd t o c ++ X) = Some o.
Proof.
  intros Ht. unfold ZIPLIST_TAIL_OFFSET. rewrite (load_at (le_bytes 4 t) (le_bytes 4 o) (le_bytes 2 c ++ X));
    [|unfold hd; lapp|done|done]. cbn [mbind option_bind]. by rewrite le4_val.
Qed.
Lemma set_tail t o o' c X : set_ZIPLIST_TAIL_OFFSET (hd t o c ++ X) o' = Some (hd t o' c ++ X).
Proof.
  unfold set_ZIPLIST_TAIL_OFFSET. rewrite (store_at (le_bytes 4 t) (le_bytes 4 o) (le_bytes 2 c ++ X));
    [|unfold hd; lapp|done|done]. unfold hd. lapp.
Qed.
Lemma get_length t o c X : 0 <= c < 65536 -> ZIPLIST_LENGTH (hd t o c ++ X) = Some c.
Proof.
  intros Ht. unfold ZIPLIST_LENGTH. rewrite (load_at (le_bytes 4 t ++ le_bytes 4 o) (le_bytes 2 c) X);
    [|unfold hd; lapp|done|done]. cbn [mbind option_bind]. by rewrite le2_val.
Qed.
Lemma set_length t o c c' X : set_ZIPLIST_LENGTH (hd t o c ++ X) c' = Some (hd t o c' ++ X).
Proof.
  unfold set_ZIPLIST_LENGTH. rewrite (store_at (le_bytes 4 t ++ le_bytes 4 o) (le_bytes 2 c) X);
    [|unfold hd; lapp|done|done]. unfold hd. lapp.
Qed.

(** The tail offset only counts modulo 2^32. *)
Lemma hd_mod t o o' c : o mod 4294967296 = o' mod 4294967296 -> hd t o c = hd t o' c.
Proof. intros E. unfold hd. by rewrite (le4_mod o o'). Qed.

(** ** Reading and writing entries *)

Definition small_ent e : Prop := zlen e.2 < 4294967296 /\ elen e < 4294967296.

Lemma first_byte b pl : prev_ok b pl -> exists c r, prevfield b pl = c :: r /\ (c =? ZIP_END) = false /\
  (if c <? ZIP_BIG_PREVLEN then 1 else 5) = psz b.
Proof.
  intros [H1 H2]. unfold prevfield, ZIP_END, ZIP_BIG_PREVLEN. destruct b.
  - exists 254, (le_bytes 4 pl). done.
  - exists pl, []. specialize (H2 eq_refl). split; [done|]. split; [lia|]. by zbool.
Qed.

Lemma byte_at zl P pl e Q p : zl = P ++ ebytes pl e ++ Q -> p = zlen P -> prev_ok e.1 pl ->
  exists c, zl.[p] = Some c /\ (c =? ZIP_END) = false /\ (if c <? ZIP_BIG_PREVLEN then 1 else 5) = psz e.1.
Proof.
  intros -> -> Hp. destruct (first_byte _ _ Hp) as (c & r & E & Hc & Hs). exists c. split; [|done].
  unfold ebytes. rewrite E. cbn [app]. by apply znth_app_mid.
Qed.

Lemma prevsize_at zl P pl e Q p : zl = P ++ ebytes pl e ++ Q -> p = zlen P -> prev_ok e.1 pl ->
  ZIP_DECODE_PREVLENSIZE zl p = Some (psz e.1).
Proof.
  intros Hz Hp Hok. destruct (byte_at zl P pl e Q p Hz Hp Hok) as (c & E & _ & Hs).
  unfold ZIP_DECODE_PREVLENSIZE. rewrite E. cbn [mbind option_bind]. by rewrite Hs.
Qed.

Lemma prevlen_at zl P pl e Q p : zl = P ++ ebytes pl e ++ Q -> p = zlen P -> prev_ok e.1 pl ->
  ZIP_DECODE_PREVLEN zl p = Some (psz e.1, pl).
Proof.
  intros Hz Hp Hok. unfold ZIP_DECODE_PREVLEN. rewrite (prevsize_at zl P pl e Q p) by done. cbn [mbind option_bind].
  destruct Hok as [H1 H2]. unfold ebytes in Hz. destruct e as [[|] s]; cbn [fst snd psz prevfield] in *.
  - change (5 =? 1) with false. cbn match.
    rewrite (load_at (P ++ [ZIP_BIG_PREVLEN]) (le_bytes 4 pl) (body s ++ Q)); [|rewrite Hz; lapp|len|done].
    cbn [mbind option_bind]. by rewrite le4_val.
  - change (1 =? 1) with true. cbn match. rewrite (znth_at P pl (body s ++ Q)); [done|by rewrite Hz|done].
Qed.

Lemma zipEntry_at zl P pl e Q p : zl = P ++ ebytes pl e ++ Q -> p = zlen P -> prev_ok e.1 pl -> small_ent e ->
  zipEntry zl p = Some (mk_zlentry (psz e.1) pl (zlen (ehead e.2)) (zlen (edata e.2))
    (psz e.1 + zlen (ehead e.2)) (ecode e.2) p).
Proof.
  intros Hz Hp Hok [Hs _]. unfold zipEntry. rewrite (prevlen_at zl P pl e Q p) by done. cbn [mbind option_bind].
  rewrite (decode_at zl (P ++ prevfield e.1 pl) e.2 Q); [done|rewrite Hz; unfold ebytes; lapp| |done].
  rewrite zlen_app, psz_prevfield. lia.
Qed.

Lemma elen_eq e : psz e.1 + zlen (ehead e.2) + zlen (edata e.2) = elen e.
Proof. unfold elen. destruct (body_size e.2) as (_ & -> & _). lia. Qed.

Lemma rawlen_at zl P pl e Q p : zl = P ++ ebytes pl e ++ Q -> p = zlen P -> prev_ok e.1 pl -> small_ent e ->
  zipRawEntryLength zl p = Some (elen e).
Proof.
  intros Hz Hp Hok [Hs Hl]. unfold zipRawEntryLength. rewrite (prevsize_at zl P pl e Q p) by done. cbn [mbind option_bind].
  rewrite (decode_at zl (P ++ prevfield e.1 pl) e.2 Q); [|rewrite Hz; unfold ebytes; lapp| |done].
  - cbn [mbind option_bind]. rewrite elen_eq. pose proof (elen_pos e). by rewrite u32_small by lia.
  - rewrite zlen_app, psz_prevfield. lia.
Qed.

Lemma size_big pl : 0 <= pl < 4294967296 -> zipPrevEntryLengthSize pl = psz (big pl).
Proof. intros. unfold zipPrevEntryLengthSize, big. rewrite u32_small by lia. by destruct (pl <? ZIP_BIG_PREVLEN). Qed.

Lemma prev_ok_big pl : 0 <= pl < 4294967296 -> prev_ok (big pl) pl.
Proof. intros. split; [done|]. unfold big, ZIP_BIG_PREVLEN. destruct (Z.ltb_spec pl 254); [done|discriminate]. Qed.

Lemma store_large_at P old Q p pl : p = zlen P -> zlen old = 5 ->
  zipStorePrevEntryLengthLarge (P ++ old ++ Q) p pl = Some (P ++ prevfield true pl ++ Q, 5).
Proof.
  intros -> Ho. destruct (zsplit 1 old) as (o1 & o4 & -> & H1 & H4); [lia|].
  unfold zipStorePrevEntryLengthLarge.
  rewrite (store_at P o1 (o4 ++ Q)); [|lapp|done|done]. cbn [mbind option_bind].
  rewrite (store_at (P ++ [ZIP_BIG_PREVLEN]) o4 Q); [|lapp|len|rewrite zlen_le_bytes; lia].
  cbn [mbind option_bind prevfield]. do 2 f_equal. lapp.
Qed.

Lemma store_prev_at P old Q p pl : p = zlen P -> 0 <= pl < 4294967296 -> zlen old = psz (big pl) ->
  zipStorePrevEntryLength (P ++ old ++ Q) p pl = Some (P ++ prevfield (big pl) pl ++ Q, psz (big pl)).
Proof.
  intros Hp Hpl Ho. unfold zipStorePrevEntryLength. rewrite u32_small by lia. unfold big in *.
  destruct (pl <? ZIP_BIG_PREVLEN); cbn [negb psz prevfield] in *.
  - rewrite (store_at P old Q) by done. done.
  - by apply store_large_at.
Qed.

(** ** Moving memory *)

(** A block grown by [zlen J] bytes at its end, and a part of it moved there. *)
Lemma memmove_right A g rest J Q dst src n :
  src = zlen A + zlen g -> dst = src + zlen J -> n = zlen rest ->
  memmove (A ++ g ++ rest ++ J ++ Q) dst src n =
  Some (A ++ ztake (zlen g + zlen J) (g ++ rest ++ J) ++ rest ++ Q).
Proof.
  intros -> -> ->. unfold memmove. rewrite (load_at (A ++ g) rest (J ++ Q)); [|lapp|len|done].
  cbn [mbind option_bind].
  assert (zlen (g ++ rest ++ J) = zlen g + zlen J + zlen rest) as El by len.
  pose proof (zlen_nonneg g). pose proof (zlen_nonneg J). pose proof (zlen_nonneg rest).
  rewrite (store_at (A ++ ztake (zlen g + zlen J) (g ++ rest ++ J)) (zdrop (zlen g + zlen J) (g ++ rest ++ J)) Q).
  - by rewrite <- app_assoc.
  - rewrite <- !app_assoc. f_equal. rewrite (app_assoc (ztake _ _)), ztake_zdrop. lapp.
  - rewrite zlen_app, zlen_ztake by lia. lia.
  - rewrite zlen_zdrop by lia. lia.
Qed.

(** A part of a block moved to the front over [g]. *)
Lemma memmove_left A g rest Q dst src n :
  dst = zlen A -> src = zlen A + zlen g -> n = zlen rest ->
  exists J, memmove (A ++ g ++ rest ++ Q) dst src n = Some (A ++ rest ++ J ++ Q) /\ zlen J = zlen g.
Proof.
  intros -> -> ->. unfold memmove. rewrite (load_at (A ++ g) rest Q); [|lapp|len|done].
  cbn [mbind option_bind]. pose proof (zlen_nonneg g). pose proof (zlen_nonneg rest).
  exists (zdrop (zlen rest) (g ++ rest)). split.
  - rewrite (store_at A (ztake (zlen rest) (g ++ rest)) (zdrop (zlen rest) (g ++ rest) ++ Q)); [done| |done|].
    + f_equal. by rewrite !app_assoc, ztake_zdrop.
    + rewrite zlen_ztake; [done|]. rewrite zlen_app. lia.
  - rewrite zlen_zdrop; rewrite zlen_app; lia.
Qed.

Section Ops.
Context `{FreshMem}.

Lemma ziplist_grow t o c X T k :
  T = 11 + zlen X -> 0 <= k -> T + k < 4294967296 ->
  exists J, ziplistResize (hd t o c ++ X ++ [ZIP_END]) (T + k) = Some (hd (T + k) o c ++ X ++ J ++ [ZIP_END]) /\
    zlen J = k /\ exists r, J ++ [ZIP_END] = ZIP_END :: r.
Proof.
  intros HT Hk Hmax. pose proof (zlen_nonneg X). unfold ziplistResize. rewrite u32_small by lia.
  destruct (realloc_grow (hd t o c ++ X ++ [ZIP_END]) (T + k)) as (junk & -> & Hj & _).
  { rewrite !zlen_app, zlen_hd. change (zlen [ZIP_END]) with 1. lia. }
  rewrite !zlen_app, zlen_hd in Hj. change (zlen [ZIP_END]) with 1 in Hj.
  replace ((hd t o c ++ X ++ [ZIP_END]) ++ junk) with (hd t o c ++ (X ++ [ZIP_END] ++ junk)) by lapp.
  rewrite set_bytes. cbn [mbind option_bind].
  destruct (Z.eq_dec k 0) as [->|Hk0].
  - exists []. assert (junk = []) as -> by (apply zlen_0_nil; lia). split; [|split; [done|by exists []]].
    rewrite (store_at (hd (T + 0) o c ++ X) [ZIP_END] []); [|lapp|len|done]. unfold hd. lapp.
  - destruct (zlen_snoc_inv junk (k - 1)) as (j & x & -> & Hj1); [lia|lia|].
    exists (ZIP_END :: j). split; [|split; [rewrite zlen_cons; lia|by exists (j ++ [ZIP_END])]].
    rewrite (store_at (hd (T + k) o c ++ X ++ [ZIP_END] ++ j) [x] []); [f_equal; lapp|lapp| |done].
    rewrite !zlen_app, zlen_hd. change (zlen [ZIP_END]) with 1. lia.
Qed.

Lemma ziplist_shrink t o c X Y T' :
  T' = 11 + zlen X -> 1 <= zlen Y -> T' < 4294967296 ->
  ziplistResize (hd t o c ++ X ++ Y) T' = Some (hd T' o c ++ X ++ [ZIP_END]).
Proof.
  intros HT Hy Hmax. pose proof (zlen_nonneg X). unfold ziplistResize. rewrite u32_small by lia.
  destruct Y as [|y Y]; [rewrite zlen_nil in Hy; lia|].
  rewrite realloc_shrink by (rewrite !zlen_app, zlen_hd, zlen_cons; pose proof (zlen_nonneg Y); lia).
  replace (hd t o c ++ X ++ y :: Y) with ((hd t o c ++ X ++ [y]) ++ Y) by lapp.
  rewrite ztake_app_l by (rewrite !zlen_app, zlen_hd; change (zlen [y]) with 1; lia).
  rewrite set_bytes. cbn [mbind option_bind].
  rewrite (store_at (hd T' o c ++ X) [y] []); [f_equal; lapp|lapp| |done].
  rewrite !zlen_app, zlen_hd. lia.
Qed.

(** ** The cascade *)

Lemma removelast_cons2 (a b : ent) l : removelast (a :: b :: l) = a :: removelast (b :: l).
Proof. done. Qed.

Lemma zint_short s x : zint s = Some x -> zlen s < 32.
Proof.
  unfold zint, zipTryEncoding. destruct (_ || _) eqn:E; [done|]. intros _.
  apply orb_false_iff in E as [E _]. rewrite Z.geb_leb in E. lia.
Qed.

Lemma small_of_room e : zlen (body e.2) + 5 < 4294967296 -> small_ent e.
Proof.
  intros Hb. split; [|unfold elen, psz; destruct e.1; lia].
  destruct (zint e.2) as [x|] eqn:E; [apply zint_short in E; lia|].
  apply ehead_str in E as [_ E]. destruct (body_size e.2) as (H1 & H2 & _). rewrite E in H2. lia.
Qed.

Lemma elens_removelast r R : elens (removelast (r :: R)) = 0 <-> R = [].
Proof.
  split; [|by intros ->]. destruct R as [|x R]; [done|]. rewrite removelast_cons2, elens_cons.
  pose proof (elen_pos r). pose proof (elens_nonneg (removelast (x :: R))). lia.
Qed.

Lemma elen_room e ss : elen e + room ss <= room (e.2 :: ss).
Proof. unfold elen, psz, room. cbn [foldr]. destruct e.1; lia. Qed.

(** The memory part of a growing step. *)
Lemma cascade_grow t o c X L r pl' R T np (k : bytes -> option bytes) :
  T = 11 + zlen X + elens (r :: R) -> np = 10 + zlen X -> r.1 = false ->
  o = 10 + zlen X + elens (removelast (r :: R)) -> 254 <= L < 4294967296 -> T + 4 < 4294967296 -> 0 <= c < 65536 ->
  (zl ← ziplistResize (hd t o c ++ X ++ enc pl' (r :: R) ++ [ZIP_END]) (T + 4);
   t ← ZIPLIST_TAIL_OFFSET zl;
   zl ← (if negb (t =? np) then set_ZIPLIST_TAIL_OFFSET zl (t + 4) else Some zl);
   zl ← memmove zl (np + 5) (np + 1) (T - np - 1 - 1);
   '(zl, _) ← zipStorePrevEntryLength zl np L;
   k zl) =
  k (hd (T + 4) (10 + zlen X + elens (removelast ((true, r.2) :: R))) c ++
     X ++ ebytes L (true, r.2) ++ enc (elen r) R ++ [ZIP_END]).
Proof.
  intros HT -> Hr Ho HL Hmax Hc. pose proof (zlen_nonneg X). pose proof (elens_nonneg R).
  replace (X ++ enc pl' (r :: R) ++ [ZIP_END]) with ((X ++ enc pl' (r :: R)) ++ [ZIP_END]) by lapp.
  destruct (ziplist_grow t o c (X ++ enc pl' (r :: R)) T 4) as (J & -> & HJ & _);
    [rewrite zlen_app, zlen_enc; lia|lia|lia|]. cbn [mbind option_bind].
  pose proof (elens_nonneg (removelast (r :: R))). pose proof (elen_pos r).
  assert (elens (removelast (r :: R)) <= elens (r :: R)) as Hle.
  { destruct R as [|x R' _] using rev_ind; [cbn; lia|]. rewrite app_comm_cons, removelast_last, elens_app.
    cbn [elens]. pose proof (elen_pos x). lia. }
  rewrite get_tail by lia. cbn [mbind option_bind].
  assert (elen (true, r.2) = elen r + 4) as Er by (unfold elen, psz; rewrite Hr; cbn [fst snd]; lia).
  set (o' := 10 + zlen X + elens (removelast ((true, r.2) :: R))).
  assert ((if negb (o =? 10 + zlen X) then set_ZIPLIST_TAIL_OFFSET (hd (T + 4) o c ++ (X ++ enc pl' (r :: R)) ++ J ++ [ZIP_END]) (o + 4)
    else Some (hd (T + 4) o c ++ (X ++ enc pl' (r :: R)) ++ J ++ [ZIP_END])) =
    Some (hd (T + 4) o' c ++ (X ++ enc pl' (r :: R)) ++ J ++ [ZIP_END])) as ->.
  { destruct (Z.eqb_spec o (10 + zlen X)) as [E|E]; cbn [negb].
    - assert (R = []) as -> by (apply (elens_removelast r); lia). subst o'. change (removelast [(true, r.2)]) with (@nil ent).
      change (elens []) with 0. do 2 f_equal. rewrite E. f_equal. lia.
    - rewrite set_tail. do 3 f_equal. subst o'.
      destruct R as [|x R]; [change (elens (removelast [r])) with 0 in *; lia|].
      rewrite !removelast_cons2, !elens_cons in *. lia. }
  cbn [mbind option_bind enc]. unfold ebytes at 1. rewrite Hr. cbn [prevfield].
  set (rest := body r.2 ++ enc (elen r) R).
  assert (zlen rest = elens (r :: R) - 1) as Hrest.
  { subst rest. rewrite zlen_app, zlen_enc, elens_cons. assert (elen r = 1 + zlen (body r.2)) by (unfold elen; by rewrite Hr). lia. }
  replace (hd (T + 4) o' c ++ (X ++ ([pl'] ++ body r.2) ++ enc (elen r) R) ++ J ++ [ZIP_END])
    with ((hd (T + 4) o' c ++ X) ++ [pl'] ++ rest ++ J ++ [ZIP_END]) by (subst rest; lapp).
  rewrite memmove_right; [|rewrite zlen_app, zlen_hd; change (zlen [pl']) with 1; lia|lia|lia].
  cbn [mbind option_bind]. change (zlen [pl']) with 1.
  assert (big L = true) as Eb by (unfold big, ZIP_BIG_PREVLEN; destruct (Z.ltb_spec L 254); [lia|done]).
  rewrite store_prev_at; [|rewrite zlen_app, zlen_hd; lia|lia|].
  - rewrite Eb. cbn [mbind option_bind]. unfold ebytes. cbn [fst snd psz]. subst rest. f_equal. lapp.
  - rewrite Eb. rewrite zlen_ztake; [cbn [psz]; lia|]. rewrite !zlen_app. change (zlen [pl']) with 1.
    pose proof (zlen_nonneg rest). lia.
Qed.

(** A step that keeps the size of the field: the length is written in the form
    the field has, the long form for a short length included. *)
Lemma cascade_store zl P Q p pl L r :
  zl = P ++ ebytes pl r ++ Q -> p = zlen P -> 0 <= L < 4294967296 -> psz (big L) <= psz r.1 ->
  (if psz r.1 >? psz (big L) then '(zl, _) ← zipStorePrevEntryLengthLarge zl p L; Some zl
   else '(zl, _) ← zipStorePrevEntryLength zl p L; Some zl) = Some (P ++ ebytes L r ++ Q).
Proof.
  intros -> Hp HL Hle. unfold ebytes. rewrite <- !app_assoc. rewrite Z.gtb_ltb.
  destruct (Z.ltb_spec (psz (big L)) (psz r.1)) as [Hlt|Hge].
  - assert (r.1 = true) as -> by (destruct r.1, (big L); cbn in Hlt; try lia; done).
    rewrite store_large_at by done. done.
  - assert (r.1 = big L) as -> by (destruct r.1, (big L); cbn in *; try lia; done).
    rewrite store_prev_at; [done|done|lia|apply psz_prevfield].
Qed.

Lemma prev_ok_fits b L : 0 <= L < 4294967296 -> psz (big L) <= psz b -> prev_ok b L.
Proof.
  intros HL Hle. split; [lia|]. intros ->. destruct (big L) eqn:Eb; [cbn in Hle; lia|].
  unfold big, ZIP_BIG_PREVLEN in Eb. destruct (Z.ltb_spec L 254); [done|discriminate].
Qed.

(** The cascade stops at the last entry. *)
Lemma cascade_last fuel X e ple c T o :
  prev_ok e.1 ple -> 11 + zlen X + room [e.2] < 4294967296 ->
  let zl := hd T o c ++ X ++ ebytes ple e ++ [ZIP_END] in cascade_loop (S fuel) zl (10 + zlen X) T = Some zl.
Proof.
  intros Hp Hroom zl. cbn [cascade_loop]. pose proof (zlen_nonneg X). pose proof (elen_pos e).
  pose proof (elen_room e []) as Her. pose proof (small_of_room e) as Hse. unfold room in *. cbn [foldr] in *.
  destruct (byte_at zl (hd T o c ++ X) ple e [ZIP_END] (10 + zlen X)) as (x & -> & Hx & _); [subst zl; lapp|len|done|].
  cbn [mbind option_bind]. rewrite Hx.
  rewrite (zipEntry_at zl (hd T o c ++ X) ple e [ZIP_END]); [|subst zl; lapp|len|done|apply Hse; lia].
  cbn [mbind option_bind headersize e_len]. rewrite elen_eq, u32_small by lia.
  rewrite (znth_at (hd T o c ++ X ++ ebytes ple e) ZIP_END []); [|subst zl; lapp|len]. done.
Qed.

(** The cascade restores the prevlen fields after the entry [e]: [R] follows it,
    chained from some other length [pl']. *)
Lemma cascade_spec R : forall fuel X e ple pl' c T o,
  prev_ok e.1 ple -> chain_ok pl' R -> 0 <= c < 65536 ->
  11 + zlen X + room (e :: R).*2 < 4294967296 -> (length R < fuel)%nat ->
  T = 11 + zlen X + elens (e :: R) -> o = 10 + zlen X + elens (removelast (e :: R)) ->
  exists R', cascade_loop fuel (hd T o c ++ X ++ ebytes ple e ++ enc pl' R ++ [ZIP_END]) (10 + zlen X) T =
    Some (hd (11 + zlen X + elens (e :: R')) (10 + zlen X + elens (removelast (e :: R'))) c ++
          X ++ ebytes ple e ++ enc (elen e) R' ++ [ZIP_END]) /\
    chain_ok (elen e) R' /\ R'.*2 = R.*2.
Proof.
  induction R as [|r R IH]; intros [|fuel] X e ple pl' c T o Hp Hc Hcc Hroom Hf HT Ho; cbn [length] in Hf;
    [lia| |lia|]; pose proof (zlen_nonneg X); pose proof (elen_pos e); rewrite fmap_cons in Hroom;
    pose proof (elen_room e) as Her.
  - exists []. cbn [enc app]. rewrite cascade_last by done. by rewrite HT, Ho.
  - cbn [cascade_loop]. set (zl := hd T o c ++ _). set (Q := enc pl' (r :: R) ++ [ZIP_END]) in *.
    specialize (Her (r :: R).*2). rewrite fmap_cons in *. pose proof (elen_room r R.*2) as Her2.
    pose proof (room_nonneg R.*2) as Hr0. destruct Hc as [Hpr Hc]. pose proof (elen_pos r).
    assert (small_ent e) as Hse by (apply small_of_room; unfold room in *; cbn [foldr] in *; pose proof (zlen_nonneg (body r.2)); lia).
    assert (small_ent r) as Hsr by (apply small_of_room; unfold room in *; cbn [foldr] in *; pose proof (zlen_nonneg (body e.2)); lia).
    destruct (byte_at zl (hd T o c ++ X) ple e Q (10 + zlen X)) as (x & -> & Hx & _); [subst zl; lapp|len|done|].
    cbn [mbind option_bind]. rewrite Hx.
    rewrite (zipEntry_at zl (hd T o c ++ X) ple e Q); [|subst zl; lapp|len|done|done].
    cbn [mbind option_bind headersize e_len]. rewrite elen_eq, u32_small by lia.
    set (P := hd T o c ++ X ++ ebytes ple e). set (Q2 := enc (elen r) R ++ [ZIP_END]).
    assert (zl = P ++ ebytes pl' r ++ Q2) as Hz by (subst zl P Q2 Q; cbn [enc]; lapp).
    assert (10 + zlen X + elen e = zlen P) as HP by (subst P; len).
    destruct (byte_at zl P pl' r Q2 (10 + zlen X + elen e) Hz HP Hpr) as (y & -> & Hy & _).
    cbn [mbind option_bind]. rewrite Hy.
    rewrite (zipEntry_at zl P pl' r Q2) by done. cbn [mbind option_bind prevrawlen prevrawlensize].
    rewrite size_big by lia.
    destruct (Z.eqb_spec pl' (elen e)) as [->|Hne].
    { exists (r :: R). split; [|done]. subst zl Q. by rewrite HT, Ho. }
    destruct (Z.ltb_spec (psz r.1) (psz (big (elen e)))) as [Hlt|Hge].
    + assert (r.1 = false /\ big (elen e) = true) as [Er Eb] by (destruct r.1, (big (elen e)); cbn in Hlt; try lia; done).
      assert (254 <= elen e) as Hbig by (unfold big, ZIP_BIG_PREVLEN in Eb; destruct (Z.ltb_spec (elen e) 254); [done|lia]).
      rewrite Er, Eb. cbn [psz]. change (5 - 1) with 4.
      replace zl with (hd T o c ++ (X ++ ebytes ple e) ++ enc pl' (r :: R) ++ [ZIP_END]) by (subst zl Q; lapp).
      assert (elen (true, r.2) = elen r + 4) as Er' by (unfold elen; rewrite Er; cbn [fst snd psz]; lia).
      pose proof (elens_nonneg R). pose proof (elens_room R).
      assert (elen r + 4 + elens R <= room (r.2 :: R.*2)) as Hrr.
      { pose proof (elen_room (true, r.2) R.*2). cbn [snd] in *. lia. }
      rewrite cascade_grow; [|rewrite zlen_app, zlen_ebytes, HT, !elens_cons; lia|rewrite zlen_app, zlen_ebytes; lia|done
        |rewrite Ho, removelast_cons2, elens_cons, zlen_app, zlen_ebytes; lia|lia|rewrite HT, !elens_cons; lia|done].
      destruct (IH fuel (X ++ ebytes ple e) (true, r.2) (elen e) (elen r) c (T + 4)
        (10 + zlen (X ++ ebytes ple e) + elens (removelast ((true, r.2) :: R)))) as (R' & E & Hch & Hss).
      * cbn [fst]. rewrite <- Eb. apply prev_ok_big. lia.
      * done.
      * done.
      * rewrite zlen_app, zlen_ebytes, fmap_cons. cbn [snd]. lia.
      * lia.
      * rewrite HT, zlen_app, zlen_ebytes, !elens_cons. lia.
      * done.
      * exists ((true, r.2) :: R'). rewrite zlen_app, zlen_ebytes in E.
        replace (10 + (zlen X + elen e)) with (10 + zlen X + elen e) in E by lia.
        rewrite zlen_app, zlen_ebytes. replace (10 + (zlen X + elen e)) with (10 + zlen X + elen e) by lia.
        rewrite E. split; [|split; [|by rewrite !fmap_cons, Hss]].
        -- rewrite removelast_cons2, !elens_cons. cbn [enc]. f_equal.
           replace (11 + (zlen X + elen e) + (elen (true, r.2) + elens R')) with (11 + zlen X + (elen e + (elen (true, r.2) + elens R'))) by lia.
           replace (10 + zlen X + elen e + elens (removelast ((true, r.2) :: R')))
             with (10 + zlen X + (elen e + elens (removelast ((true, r.2) :: R')))) by lia. lapp.
        -- split; [|done]. cbn [fst]. rewrite <- Eb. apply prev_ok_big. lia.
    + rewrite (cascade_store zl P Q2 _ pl' (elen e) r Hz HP) by lia.
      exists (r :: R). split; [|split; [|done]].
      * subst P Q2. rewrite HT, Ho. cbn [enc]. f_equal. lapp.
      * split; [|done]. apply prev_ok_fits; lia.
Qed.

Lemma cascade_update X e ple pl' R c T o :
  prev_ok e.1 ple -> chain_ok pl' R -> 0 <= c < 65536 -> 11 + zlen X + room (e :: R).*2 < 4294967296 ->
  T = 11 + zlen X + elens (e :: R) -> o = 10 + zlen X + elens (removelast (e :: R)) ->
  exists R', __ziplistCascadeUpdate (hd T o c ++ X ++ ebytes ple e ++ enc pl' R ++ [ZIP_END]) (10 + zlen X) =
    Some (hd (11 + zlen X + elens (e :: R')) (10 + zlen X + elens (removelast (e :: R'))) c ++
          X ++ ebytes ple e ++ enc (elen e) R' ++ [ZIP_END]) /\
    chain_ok (elen e) R' /\ R'.*2 = R.*2.
Proof.
  intros Hp Hc Hcc Hroom HT Ho. unfold __ziplistCascadeUpdate.
  pose proof (zlen_nonneg X). pose proof (elens_room (e :: R)). pose proof (elens_nonneg (e :: R)).
  rewrite get_bytes by lia. cbn [mbind option_bind]. apply cascade_spec; try done.
  pose proof (elens_length R). rewrite elens_cons in *. pose proof (elen_pos e).
  assert (zlen (hd T o c ++ X ++ ebytes ple e ++ enc pl' R ++ [ZIP_END]) = 11 + zlen X + elen e + elens R) as El.
  { rewrite !zlen_app, zlen_hd, zlen_ebytes, zlen_enc. change (zlen [ZIP_END]) with 1. lia. }
  unfold zlen in *. lia.
Qed.

(** ** Insertion *)

Lemma save_at P old Q p (ec v : Z) : enc_holds ec v -> p = zlen P -> zlen old = zlen (int_bytes ec v) ->
  zipSaveInteger (P ++ old ++ Q) p v ec = Some (P ++ int_bytes ec v ++ Q).
Proof.
  intros Hh -> Ho. unfold zipSaveInteger. unfold int_bytes in *. destruct Hh as [[Hv ->]|(n & Hn & _)].
  - unfold ZIP_INT_IMM_MIN, ZIP_INT_IMM_MAX, ZIP_INT_8B, ZIP_INT_16B, ZIP_INT_24B, ZIP_INT_32B, ZIP_INT_64B in *.
    revert Ho. zbool. intros Ho. change (zlen []) with 0 in Ho. apply zlen_0_nil in Ho as ->. done.
  - unfold enc_width in Hn.
    repeat (case_match; [by rewrite (store_at P old Q) by done|]). done.
Qed.

(** The choice of the encoding in __ziplistInsert. *)
Lemma choose_encoding s r : zlen s < 4294967296 ->
  exists value encoding n,
    match zint s with
    | Some (value, encoding) => n ← zipIntSize encoding; Some (value, encoding, n)
    | None => Some (123456789, 0, zlen s)
    end = Some (value, encoding, n) /\
    n = zlen (edata s) /\ encoding_buf encoding (zlen s) = ehead s /\
    (forall P old Q p, p = zlen P -> zlen old = zlen (edata s) ->
       (if ZIP_IS_STR encoding then b ← load (s ++ r) 0 (zlen s); store (P ++ old ++ Q) p b
        else zipSaveInteger (P ++ old ++ Q) p value encoding) = Some (P ++ edata s ++ Q)).
Proof.
  intros Hs. destruct (zint s) as [[v e]|] eqn:Ez.
  - pose proof Ez as (_ & _ & Hh)%zint_inv. destruct (enc_holds_int e v Hh) as (Hi & _ & Hsz & _). rewrite Hsz.
    exists v, e, (zlen (int_bytes e v)). unfold edata, ehead, encoding_buf. rewrite Ez, Hi. split_and!; try done.
    intros P old Q p Hp Ho. by apply save_at.
  - destruct (ehead_str s Ez) as [Eh Ed]. exists 123456789, 0, (zlen s). rewrite Ed. split_and!; try done.
    intros P old Q p Hp Ho. change (ZIP_IS_STR 0) with true. cbn match.
    rewrite (load_at [] s r) by done. cbn [mbind option_bind]. by apply store_app.
Qed.

(** The prevlen of the new entry. *)
Lemma insert_prevlen_spec c A R : chain_ok 0 (A ++ R) -> 11 + room (A ++ R).*2 < 4294967296 ->
  insert_prevlen (block c (A ++ R)) (10 + elens A) = Some (lastlen 0 A).
Proof.
  intros Hc Hroom. unfold insert_prevlen. pose proof (elens_room (A ++ R)). pose proof (elens_nonneg A).
  pose proof (elens_nonneg R). rewrite elens_app in *.
  destruct R as [|r R].
  - rewrite app_nil_r in *. unfold block at 1. set (t := 11 + elens A).
    rewrite (znth_at (hd t (tail_off A) c ++ enc 0 A) ZIP_END []); [|lapp|len]. cbn [mbind option_bind].
    change (ZIP_END =? ZIP_END) with true. cbn [negb]. unfold block, ZIPLIST_ENTRY_TAIL.
    destruct A as [|a A' _] using rev_ind.
    + rewrite get_tail by (unfold tail_off; cbn; lia). done.
    + assert (tail_off (A' ++ [a]) = 10 + elens A') as Et by (unfold tail_off; by rewrite removelast_last).
      pose proof (elens_nonneg A'). rewrite elens_app in *. cbn [elens] in *. pose proof (elen_pos a).
      rewrite get_tail by lia. cbn [mbind option_bind]. rewrite Et. apply chain_app in Hc as [_ [Hc _]].
      set (hh := hd _ _ _).
      assert (hh ++ enc 0 (A' ++ [a]) ++ [ZIP_END] = (hh ++ enc 0 A') ++ ebytes (lastlen 0 A') a ++ [ZIP_END]) as Eb
        by (rewrite enc_app; cbn [enc]; lapp).
      assert (10 + elens A' = zlen (hh ++ enc 0 A')) as Ep by (subst hh; len).
      destruct (byte_at _ _ _ _ _ _ Eb Ep Hc) as (x & -> & Hx & _). cbn [mbind option_bind]. rewrite Hx. cbn [negb].
      rewrite (rawlen_at _ _ _ _ _ _ Eb Ep Hc); [by rewrite lastlen_app|].
      apply small_of_room. rewrite fmap_app, room_app in Hroom. pose proof (room_nonneg A'.*2).
      unfold room in Hroom at 2. cbn in Hroom. lia.
  - apply chain_app in Hc as [_ [Hc _]]. unfold block. set (hh := hd _ _ _).
    assert (hh ++ enc 0 (A ++ r :: R) ++ [ZIP_END] =
      (hh ++ enc 0 A) ++ ebytes (lastlen 0 A) r ++ enc (elen r) R ++ [ZIP_END]) as Eb by (rewrite enc_app; cbn [enc]; lapp).
    assert (10 + elens A = zlen (hh ++ enc 0 A)) as Ep by (subst hh; len).
    destruct (byte_at _ _ _ _ _ _ Eb Ep Hc) as (x & -> & Hx & _). cbn [mbind option_bind]. rewrite Hx. cbn [negb].
    by rewrite (prevlen_at _ _ _ _ _ _ Eb Ep Hc).
Qed.

(** Open a gap of [L] bytes before an entry, with the prevlen field of the entry
    resized from the form [b] to the form [b']. *)
Lemma move_gap A F D J Q (b b' : bool) L :
  4 <= zlen A -> zlen F = psz b -> zlen J = L + (psz b' - psz b) -> 0 <= L ->
  exists G F', memmove (A ++ F ++ D ++ J ++ Q) (zlen A + L) (zlen A - (psz b' - psz b))
      (zlen F + zlen D + (psz b' - psz b)) = Some (A ++ G ++ F' ++ D ++ Q) /\
    zlen G = L /\ zlen F' = psz b'.
Proof.
  intros HA HF HJ HL0. pose proof (zlen_nonneg J). pose proof (zlen_nonneg D). pose proof (zlen_nonneg F).
  destruct (decide (b = b')) as [->|Hne].
  - exists (ztake L (F ++ D ++ J)), F. rewrite Z.sub_diag, Z.add_0_r in HJ. subst L.
    split_and!; [|rewrite zlen_ztake; rewrite ?zlen_app; lia|done].
    replace (A ++ F ++ D ++ J ++ Q) with (A ++ [] ++ (F ++ D) ++ J ++ Q) by lapp.
    rewrite memmove_right; [|rewrite (@zlen_nil Z); lia|lia|rewrite zlen_app; lia].
    rewrite (@zlen_nil Z), Z.add_0_l. cbn [app]. f_equal. lapp.
  - destruct b, b'; try done; cbn [psz] in *; clear Hne.
    + destruct (zsplit 4 F) as (F4 & F1 & -> & Hf4 & Hf1); [lia|]. rewrite zlen_app in *.
      exists (ztake L (F4 ++ (F1 ++ D) ++ J)), F1.
      split_and!; [|rewrite zlen_ztake; rewrite ?zlen_app; lia|lia].
      replace (A ++ (F4 ++ F1) ++ D ++ J ++ Q) with (A ++ F4 ++ (F1 ++ D) ++ J ++ Q) by lapp.
      rewrite memmove_right; [|lia|lia|rewrite zlen_app; lia].
      replace (zlen F4 + zlen J) with L by lia. f_equal. lapp.
    + destruct (zsplit (zlen A - 4) A) as (A' & g & -> & HA' & Hg); [lia|].
      exists (ztake L (F ++ D ++ J)), (g ++ F).
      split_and!; [|rewrite zlen_ztake; rewrite ?zlen_app; lia|rewrite zlen_app; lia].
      replace ((A' ++ g) ++ F ++ D ++ J ++ Q) with (A' ++ [] ++ (g ++ F ++ D) ++ J ++ Q) by lapp.
      rewrite memmove_right; [|rewrite (@zlen_nil Z); lia|lia|rewrite !zlen_app; lia].
      rewrite (@zlen_nil Z), Z.add_0_l. cbn [app]. rewrite <- (app_assoc g), ztake_app_ge by lia.
      replace (zlen J - zlen g) with L by lia. f_equal. lapp.
Qed.

(** The form of the prevlen field of the entry after an inserted one of [L] bytes. *)
Definition force (r : ent) (L : Z) : bool := (psz (big L) - psz r.1 =? -4) && (L <? 4).
Definition newb (r : ent) (L : Z) : bool := if force r L then true else big L.

Lemma newb_ok r L : 0 <= L < 4294967296 -> prev_ok (newb r L) L.
Proof. intros HL. unfold newb. destruct (force r L); [|by apply prev_ok_big]. by split. Qed.

Lemma newb_diff r L : 2 <= L -> 0 <= L + (psz (newb r L) - psz r.1).
Proof.
  intros HL. unfold newb, force. destruct (Z.eqb_spec (psz (big L) - psz r.1) (-4)), (Z.ltb_spec L 4); cbn [andb];
    destruct r.1, (big L); cbn [psz] in *; lia.
Qed.

Lemma insert_nextdiff_spec zl P pl r Q p L : zl = P ++ ebytes pl r ++ Q -> p = zlen P -> prev_ok r.1 pl ->
  0 <= L < 4294967296 ->
  insert_nextdiff zl p L = Some (psz (newb r L) - psz r.1, force r L).
Proof.
  intros Hz Hp Hok HL. unfold insert_nextdiff.
  destruct (byte_at zl P pl r Q p Hz Hp Hok) as (x & -> & Hx & _). cbn [mbind option_bind]. rewrite Hx. cbn [negb].
  unfold zipPrevLenByteDiff. rewrite (prevsize_at zl P pl r Q p) by done. cbn [mbind option_bind].
  rewrite size_big by lia. unfold newb. fold (force r L). destruct (force r L) eqn:Ef; [|done].
  unfold force in Ef. apply andb_true_iff in Ef as [E1%Z.eqb_eq _].
  destruct r.1, (big L); cbn [psz] in *; done || lia.
Qed.

(** The byte after an entry is the end byte exactly when it is the last one. *)
Lemma after_entry zl P pl e R p : zl = P ++ ebytes pl e ++ enc (elen e) R ++ [ZIP_END] -> p = zlen P + elen e ->
  chain_ok (elen e) R -> exists x, zl.[p] = Some x /\ (x =? ZIP_END) = bool_decide (R = []).
Proof.
  intros -> -> Hc. destruct R as [|r R].
  - exists ZIP_END. split; [|done]. apply (znth_at (P ++ ebytes pl e) ZIP_END []); [lapp|len].
  - destruct Hc as [Hc _].
    destruct (byte_at (P ++ ebytes pl e ++ enc (elen e) (r :: R) ++ [ZIP_END]) (P ++ ebytes pl e) (elen e) r
      (enc (elen r) R ++ [ZIP_END]) (zlen P + elen e)) as (x & Ex & Hx & _); [cbn [enc]; lapp|len|done|].
    by exists x.
Qed.

Lemma removelast_head_change (r r' : ent) R d : elen r' = elen r + d ->
  elens (removelast (r' :: R)) = elens (removelast (r :: R)) + (if bool_decide (R = []) then 0 else d).
Proof.
  intros E. destruct R as [|x R]; [done|]. rewrite !removelast_cons2, !elens_cons. cbn. lia.
Qed.

Lemma elens_removelast_le es : elens (removelast es) <= elens es.
Proof.
  destruct es as [|x es _] using rev_ind; [done|]. rewrite removelast_last, elens_app. cbn [elens].
  pose proof (elen_pos x). lia.
Qed.

Lemma insert_move_spec T t o c A pl r R J L p :
  prev_ok r.1 pl -> chain_ok (elen r) R -> zlen J = L + (psz (newb r L) - psz r.1) -> 2 <= L ->
  T = 11 + zlen A + elens (r :: R) -> o = 10 + zlen A + elens (removelast (r :: R)) -> p = 10 + zlen A ->
  11 + zlen A + L + room (r :: R).*2 < 4294967296 ->
  exists G, insert_move (hd t o c ++ A ++ enc pl (r :: R) ++ J ++ [ZIP_END]) p T L
      (psz (newb r L) - psz r.1) (force r L) =
    Some (hd t (10 + zlen A + L + elens (removelast ((newb r L, r.2) :: R))) c ++
          (A ++ G) ++ ebytes L (newb r L, r.2) ++ enc (elen r) R ++ [ZIP_END]) /\ zlen G = L.
Proof.
  intros Hok Hc HJ HL HT Ho -> Hmax. pose proof (zlen_nonneg A). pose proof (elens_nonneg R).
  rewrite fmap_cons in Hmax. pose proof (elen_room r R.*2). pose proof (elen_room (newb r L, r.2) R.*2) as Hnr.
  cbn [snd] in Hnr. pose proof (room_nonneg R.*2). pose proof (elen_pos r). pose proof (elens_room R).
  set (b := newb r L) in *. set (nd := psz b - psz r.1) in *.
  set (D := body r.2 ++ enc (elen r) R). unfold insert_move. cbn [enc].
  replace (hd t o c ++ A ++ (ebytes pl r ++ enc (elen r) R) ++ J ++ [ZIP_END])
    with ((hd t o c ++ A) ++ prevfield r.1 pl ++ D ++ J ++ [ZIP_END]) by (subst D; unfold ebytes; lapp).
  destruct (byte_at ((hd t o c ++ A) ++ prevfield r.1 pl ++ D ++ J ++ [ZIP_END]) (hd t o c ++ A) pl r
    (enc (elen r) R ++ J ++ [ZIP_END]) (10 + zlen A)) as (x & -> & Hx & _); [subst D; unfold ebytes; lapp|len|done|].
  cbn [mbind option_bind]. rewrite Hx. cbn [negb].
  assert (zlen (hd t o c ++ A) = 10 + zlen A) as Ea by len.
  assert (T - (10 + zlen A) - 1 + nd = zlen (prevfield r.1 pl) + zlen D + nd) as ->.
  { subst D. rewrite psz_prevfield, zlen_app, zlen_enc, HT, elens_cons. unfold elen at 1. lia. }
  destruct (move_gap (hd t o c ++ A) (prevfield r.1 pl) D J [ZIP_END] r.1 b L) as (G & F & E & HG & HF);
    [lia|apply psz_prevfield|done|lia|]. fold nd in E. rewrite Ea in E. rewrite E. clear E. cbn [mbind option_bind].
  exists G. split; [|done].
  assert ((if force r L then zipStorePrevEntryLengthLarge ((hd t o c ++ A) ++ G ++ F ++ D ++ [ZIP_END]) (10 + zlen A + L) L
    else zipStorePrevEntryLength ((hd t o c ++ A) ++ G ++ F ++ D ++ [ZIP_END]) (10 + zlen A + L) L) =
    Some (hd t o c ++ (A ++ G) ++ ebytes L (b, r.2) ++ enc (elen r) R ++ [ZIP_END], psz b)) as ->.
  { replace ((hd t o c ++ A) ++ G ++ F ++ D ++ [ZIP_END]) with ((hd t o c ++ A ++ G) ++ F ++ (D ++ [ZIP_END])) by lapp.
    subst b. unfold newb in *. unfold ebytes. cbn [fst snd]. destruct (force r L).
    - rewrite store_large_at; [|len|done]. subst D. do 2 f_equal. lapp.
    - rewrite store_prev_at; [|len|lia|done]. subst D. do 2 f_equal. lapp. }
  cbn [mbind option_bind]. pose proof (elens_removelast_le (r :: R)). pose proof (elens_nonneg (removelast (r :: R))).
  rewrite elens_cons in *. rewrite get_tail by lia. cbn [mbind option_bind]. rewrite set_tail. cbn [mbind option_bind].
  assert (prev_ok b L) as Hb by (apply newb_ok; lia).
  assert (elen (b, r.2) = elen r + nd) as Eb by (unfold elen; cbn [fst snd]; lia).
  assert (zlen (hd t (o + L) c ++ A ++ G) = 10 + zlen A + L) as Ea2 by len.
  set (zl := hd t (o + L) c ++ (A ++ G) ++ _).
  assert (zl = (hd t (o + L) c ++ A ++ G) ++ ebytes L (b, r.2) ++ enc (elen r) R ++ [ZIP_END]) as Ez by (subst zl; lapp).
  rewrite (zipEntry_at zl _ _ _ _ _ Ez); [|lia|done|].
  2:{ apply small_of_room. cbn [snd]. unfold room in Hmax. cbn [foldr] in Hmax. unfold room in *. lia. }
  cbn [mbind option_bind headersize e_len].
  assert (exists x, zl.[10 + zlen A + (L + (psz (b, r.2).1 + zlen (ehead (b, r.2).2)) + zlen (edata (b, r.2).2))] = Some x /\
    (x =? ZIP_END) = bool_decide (R = [])) as (y & -> & Hy).
  { pose proof (elen_eq (b, r.2)) as Ee. destruct R as [|x1 R1].
    - exists ZIP_END. split; [|done]. apply (znth_at ((hd t (o + L) c ++ A ++ G) ++ ebytes L (b, r.2)) ZIP_END []); [by rewrite Ez; lapp|].
      rewrite zlen_app, zlen_ebytes, Ea2. lia.
    - destruct Hc as [Hc _].
      destruct (byte_at zl ((hd t (o + L) c ++ A ++ G) ++ ebytes L (b, r.2)) (elen r) x1 (enc (elen x1) R1 ++ [ZIP_END])
        (10 + zlen A + (L + (psz (b, r.2).1 + zlen (ehead (b, r.2).2)) + zlen (edata (b, r.2).2)))) as (y & Ey & Hy & _);
        [rewrite Ez; cbn [enc]; lapp|rewrite zlen_app, zlen_ebytes, Ea2; lia|done|].
      exists y. split; [exact Ey|exact Hy]. }
  cbn [mbind option_bind]. rewrite Hy. rewrite (removelast_head_change r (b, r.2) R nd Eb). subst zl.
  destruct (bool_decide (R = [])) eqn:Er; cbn [negb].
  - do 3 f_equal. lia.
  - rewrite get_tail by lia. cbn [mbind option_bind]. rewrite set_tail. do 3 f_equal. lia.
Qed.

Lemma insert_write_spec t o c A G Q pl s r p value encoding :
  0 <= pl < 4294967296 -> zlen G = elen (big pl, s) -> p = 10 + zlen A -> 0 <= c < 65536 ->
  encoding_buf encoding (zlen s) = ehead s ->
  (forall P old Q p, p = zlen P -> zlen old = zlen (edata s) ->
     (if ZIP_IS_STR encoding then b ← load (s ++ r) 0 (zlen s); store (P ++ old ++ Q) p b
      else zipSaveInteger (P ++ old ++ Q) p value encoding) = Some (P ++ edata s ++ Q)) ->
  insert_write (hd t o c ++ A ++ G ++ Q) p pl encoding value (s ++ r) (zlen s) =
  Some (hd t o (if c <? UINT16_MAX then c + 1 else c) ++ A ++ ebytes pl (big pl, s) ++ Q).
Proof.
  intros Hpl HG -> Hc Eh Hdata. unfold insert_write. destruct (body_size s) as (H1 & H2 & _).
  pose proof (zlen_nonneg (edata s)). unfold elen in HG. cbn [fst snd] in HG.
  destruct (zsplit (psz (big pl)) G) as (G1 & G' & -> & HG1 & HG'); [unfold psz in *; destruct (big pl); lia|].
  rewrite zlen_app in HG.
  destruct (zsplit (zlen (ehead s)) G') as (G2 & G3 & -> & HG2 & HG3); [lia|]. rewrite zlen_app in HG.
  replace (hd t o c ++ A ++ (G1 ++ G2 ++ G3) ++ Q) with ((hd t o c ++ A) ++ G1 ++ (G2 ++ G3 ++ Q)) by lapp.
  rewrite store_prev_at; [|len|done|done]. cbn [mbind option_bind].
  unfold zipStoreEntryEncoding. rewrite Eh.
  rewrite (store_at ((hd t o c ++ A) ++ prevfield (big pl) pl) G2 (G3 ++ Q)); [|lapp|len|done]. cbn [mbind option_bind].
  set (P := ((hd t o c ++ A) ++ prevfield (big pl) pl) ++ ehead s).
  replace (((hd t o c ++ A) ++ prevfield (big pl) pl) ++ ehead s ++ G3 ++ Q) with (P ++ G3 ++ Q) by (subst P; lapp).
  rewrite (Hdata P G3 Q); [|subst P; len|lia]. cbn [mbind option_bind]. unfold ZIPLIST_INCR_LENGTH. subst P.
  replace ((((hd t o c ++ A) ++ prevfield (big pl) pl) ++ ehead s) ++ edata s ++ Q)
    with (hd t o c ++ A ++ ebytes pl (big pl, s) ++ Q) by (unfold ebytes, body; cbn [fst snd]; lapp).
  rewrite get_length by done. cbn [mbind option_bind]. destruct (c <? UINT16_MAX); [|done]. by rewrite set_length.
Qed.

Definition incr_cnt (c : Z) : Z := if c <? UINT16_MAX then c + 1 else c.

(** Make the gap of the new entry, cascade included: the state before it is written. *)
Lemma insert_gap c A R L J nd fl T :
  chain_ok (lastlen 0 A) R -> 0 <= c < 65536 -> 2 <= L -> 11 + elens A + L + room R.*2 < 4294967296 ->
  T = 11 + elens A + elens R ->
  insert_nextdiff (block c (A ++ R)) (10 + elens A) L = Some (nd, fl) -> zlen J = L + nd ->
  (exists r, J ++ [ZIP_END] = ZIP_END :: r) ->
  exists G R',
    (zl ← insert_move (hd (T + L + nd) (tail_off (A ++ R)) c ++ (enc 0 A ++ enc (lastlen 0 A) R) ++ J ++ [ZIP_END])
            (10 + elens A) T L nd fl;
     if negb (nd =? 0) then __ziplistCascadeUpdate zl (10 + elens A + L) else Some zl) =
    Some (hd (11 + elens A + L + elens R') (10 + elens A + (if bool_decide (R' = []) then 0 else L + elens (removelast R'))) c ++
          enc 0 A ++ G ++ enc L R' ++ [ZIP_END]) /\
    zlen G = L /\ chain_ok L R' /\ R'.*2 = R.*2.
Proof.
  intros Hc Hcc HL Hmax HT Hnd HJ [rj Hrj]. pose proof (elens_nonneg A). pose proof (zlen_enc 0 A) as HA.
  destruct R as [|r R].
  - unfold insert_nextdiff, block in Hnd. rewrite app_nil_r in Hnd.
    rewrite (znth_at (hd (11 + elens A) (tail_off A) c ++ enc 0 A) ZIP_END []) in Hnd; [|lapp|len].
    change (ZIP_END =? ZIP_END) with true in Hnd. cbn in Hnd. injection Hnd as <- <-.
    exists J, []. cbn [enc]. rewrite !app_nil_r, Z.add_0_r in *. cbn [negb Z.eqb bool_decide].
    unfold insert_move. rewrite Hrj. rewrite (znth_at (hd (T + L) (tail_off A) c ++ enc 0 A) ZIP_END rj); [|lapp|len].
    cbn [mbind option_bind]. change (ZIP_END =? ZIP_END) with true. cbn [negb]. rewrite set_tail. cbn [mbind option_bind].
    change (0 =? 0) with true. cbn [negb]. split; [|done]. rewrite <- Hrj. cbn [elens app].
    replace (T + L) with (11 + elens A + L + 0) by (cbn [elens] in HT; lia). rewrite bool_decide_true by done.
    replace (10 + elens A + 0) with (10 + elens A) by lia. done.
  - destruct Hc as [Hpr Hc]. rewrite fmap_cons in Hmax.
    rewrite (insert_nextdiff_spec _ (hd (11 + elens (A ++ r :: R)) (tail_off (A ++ r :: R)) c ++ enc 0 A) (lastlen 0 A) r
      (enc (elen r) R ++ [ZIP_END])) in Hnd; [|unfold block; rewrite enc_app; cbn [enc]; lapp|len|done
      |pose proof (room_nonneg (r.2 :: R.*2)); lia]. injection Hnd as <- <-.
    assert (tail_off (A ++ r :: R) = 10 + zlen (enc 0 A) + elens (removelast (r :: R))) as Eo.
    { unfold tail_off. rewrite removelast_app, elens_app by done. lia. }
    replace ((enc 0 A ++ enc (lastlen 0 A) (r :: R)) ++ J ++ [ZIP_END])
      with (enc 0 A ++ enc (lastlen 0 A) (r :: R) ++ J ++ [ZIP_END]) by lapp.
    set (b := newb r L) in *. set (nd := psz b - psz r.1) in *.
    destruct (insert_move_spec T (T + L + nd) (tail_off (A ++ r :: R)) c (enc 0 A) (lastlen 0 A) r R J L (10 + elens A))
      as (G & E & HG); [done|done|done|done|lia|done|lia|rewrite fmap_cons; lia|].
    fold b nd in E. rewrite E. cbn [mbind option_bind]. clear E.
    assert (elen (b, r.2) = elen r + nd) as Eb by (unfold elen; cbn [fst snd]; lia).
    assert (prev_ok b L) as Hb by (apply newb_ok; pose proof (room_nonneg (r.2 :: R.*2)); lia).
    destruct (Z.eqb_spec nd 0) as [E0|E0]; cbn [negb].
    + exists G, ((b, r.2) :: R). rewrite bool_decide_false by done. assert (elen (b, r.2) = elen r) as Eb' by lia.
      split_and!; [|done| |by rewrite fmap_cons].
      * rewrite E0, HA. cbn [enc]. rewrite elens_cons in *. rewrite Eb'.
        replace (T + L + 0) with (11 + elens A + L + (elen r + elens R)) by lia.
        replace (10 + elens A + (L + elens (removelast ((b, r.2) :: R)))) with (10 + elens A + L + elens (removelast ((b, r.2) :: R))) by lia.
        f_equal. lapp.
      * split; [done|]. by rewrite Eb'.
    + assert (10 + elens A + L = 10 + zlen (enc 0 A ++ G)) as Ep by len. rewrite Ep.
      destruct (cascade_update (enc 0 A ++ G) (b, r.2) L (elen r) R c (T + L + nd)
        (10 + zlen (enc 0 A) + L + elens (removelast ((b, r.2) :: R)))) as (R' & E & Hch & Hss);
        [done|done|done|rewrite fmap_cons; cbn [snd]; len|rewrite zlen_app, elens_cons in *; lia|len|].
      rewrite E. exists G, ((b, r.2) :: R'). rewrite bool_decide_false by done.
      split_and!; [|done|done|by rewrite !fmap_cons, Hss].
      replace (10 + zlen (enc 0 A ++ G)) with (10 + elens A + L) by lia.
      replace (11 + zlen (enc 0 A ++ G)) with (11 + elens A + L) by lia. cbn [enc].
      replace (10 + elens A + (L + elens (removelast ((b, r.2) :: R')))) with (10 + elens A + L + elens (removelast ((b, r.2) :: R'))) by lia.
      f_equal. lapp.
Qed.

Lemma insert_nextdiff_total c A R L : chain_ok (lastlen 0 A) R -> 2 <= L < 4294967296 ->
  exists nd fl, insert_nextdiff (block c (A ++ R)) (10 + elens A) L = Some (nd, fl) /\
    0 <= L + nd /\ nd + elens R <= room R.*2.
Proof.
  intros Hc HL. destruct R as [|r R].
  - exists 0, false. split; [|cbn; lia]. unfold insert_nextdiff, block. rewrite app_nil_r.
    rewrite (znth_at (hd (11 + elens A) (tail_off A) c ++ enc 0 A) ZIP_END []); [|lapp|len]. done.
  - destruct Hc as [Hpr _]. exists (psz (newb r L) - psz r.1), (force r L). split; [|split].
    + apply (insert_nextdiff_spec _ (hd (11 + elens (A ++ r :: R)) (tail_off (A ++ r :: R)) c ++ enc 0 A) (lastlen 0 A) r
        (enc (elen r) R ++ [ZIP_END])); [unfold block; rewrite enc_app; cbn [enc]; lapp|len|done|lia].
    + apply newb_diff. lia.
    + rewrite elens_cons, fmap_cons. pose proof (elen_room (newb r L, r.2) R.*2). pose proof (elens_room R).
      unfold elen in *. cbn [fst snd] in *. lia.
Qed.

Lemma block_bytes c es : 11 + elens es < 4294967296 -> ZIPLIST_BYTES (block c es) = Some (11 + elens es).
Proof. intros. pose proof (elens_nonneg es). unfold block. rewrite get_bytes by lia. done. Qed.
Lemma block_tail c es : 11 + elens es < 4294967296 -> ZIPLIST_TAIL_OFFSET (block c es) = Some (tail_off es).
Proof.
  intros. pose proof (elens_nonneg (removelast es)). pose proof (elens_removelast_le es). unfold block, tail_off.
  by rewrite get_tail by lia.
Qed.
Lemma block_length c es : 0 <= c < 65536 -> ZIPLIST_LENGTH (block c es) = Some c.
Proof. intros. unfold block. by rewrite get_length. Qed.

Lemma lastlen_range A ss : 11 + room (A.*2 ++ ss) < 4294967296 -> 0 <= lastlen 0 A < 4294967296.
Proof.
  intros Hm. rewrite room_app in Hm. pose proof (room_nonneg ss). pose proof (elens_room A).
  destruct A as [|a A' _] using rev_ind; [done|]. rewrite lastlen_app. cbn [lastlen]. rewrite elens_app in *.
  cbn [elens] in *. pose proof (elen_pos a). pose proof (elens_nonneg A'). lia.
Qed.

Lemma insert_entry_spec c A R s r : chain_ok 0 (A ++ R) -> 0 <= c < 65536 ->
  11 + room (A.*2 ++ s :: R.*2) < 4294967296 ->
  exists x R', __ziplistInsert (block c (A ++ R)) (10 + elens A) (s ++ r) (zlen s) =
      Some (block (incr_cnt c) (A ++ x :: R')) /\ x.2 = s /\ R'.*2 = R.*2 /\ chain_ok 0 (A ++ x :: R').
Proof.
  intros Hc Hcc Hmax. pose proof (lastlen_range A _ Hmax) as Hpl. rewrite room_app in Hmax.
  pose proof (room_nonneg A.*2). pose proof (room_nonneg R.*2). pose proof (elens_room A). pose proof (elens_room R).
  pose proof (elens_nonneg A). pose proof (elens_nonneg R). pose proof (zlen_nonneg (body s)).
  assert (zlen (body s) + 5 + room R.*2 = room (s :: R.*2)) as Er by done.
  assert (zlen s < 4294967296) as Hs by (apply (small_of_room (true, s)); cbn [snd]; lia).
  unfold __ziplistInsert. rewrite block_bytes by (rewrite elens_app; lia). cbn [mbind option_bind].
  rewrite insert_prevlen_spec by (done || (rewrite fmap_app, room_app; lia)).
  cbn [mbind option_bind]. rewrite try_encoding. cbn [mbind option_bind].
  destruct (choose_encoding s r Hs) as (value & encoding & n & -> & -> & Eh & Hdata). cbn [mbind option_bind].
  unfold zipEntryEncodingSize. rewrite Eh. apply chain_app in Hc as [HcA HcR]. set (pl := lastlen 0 A) in *.
  rewrite size_big by done. set (x := (big pl, s)).
  assert (zlen (edata s) + psz (big pl) + zlen (ehead s) = elen x) as -> by (pose proof (elen_eq x); cbn [fst snd x] in *; lia).
  pose proof (elen_pos x) as HL. pose proof (elen_room x R.*2) as HLr. cbn [snd x] in HLr.
  destruct (insert_nextdiff_total c A R (elen x) HcR ltac:(lia)) as (nd & fl & End & Hnd & Hfit).
  rewrite End. cbn [mbind option_bind].
  destruct (ziplist_grow (11 + elens (A ++ R)) (tail_off (A ++ R)) c (enc 0 A ++ enc pl R) (11 + elens (A ++ R)) (elen x + nd))
    as (J & EJ & HJ & Hrj); [rewrite zlen_app, !zlen_enc, elens_app; lia|lia|rewrite elens_app; lia|].
  unfold block. rewrite enc_app. fold pl. rewrite Z.add_assoc in EJ. rewrite EJ. cbn [mbind option_bind].
  destruct (insert_gap c A R (elen x) J nd fl (11 + elens (A ++ R))) as (G & R' & E & HG & HcR' & Hss);
    [done|done|lia|lia|rewrite elens_app; lia|done|done|done|].
  fold pl in E. exists x, R'.
  destruct (insert_move _ _ _ _ _ _) as [zl|]; [|done]. cbn [mbind option_bind] in E |- *. rewrite E. cbn [mbind option_bind].
  rewrite (insert_write_spec _ _ c (enc 0 A) G _ pl s r _ value encoding); [|exact Hpl|exact HG|by rewrite zlen_enc|exact Hcc|exact Eh|exact Hdata].
  split; [|split; [done|split; [done|]]].
  - unfold block, incr_cnt. rewrite enc_app, elens_app, elens_cons. cbn [enc]. fold pl.
    replace (tail_off (A ++ x :: R')) with (10 + elens A + (if bool_decide (R' = []) then 0 else elen x + elens (removelast R'))).
    + replace (11 + (elens A + (elen x + elens R'))) with (11 + elens A + elen x + elens R') by lia. f_equal. lapp.
    + unfold tail_off. rewrite removelast_app, elens_app by done.
      destruct R' as [|r' R']; [rewrite bool_decide_true by done; change (elens (removelast [x])) with 0; lia|].
      rewrite bool_decide_false, removelast_cons2, elens_cons by done. lia.
  - apply chain_app. split; [done|]. split; [|done]. fold pl. by apply prev_ok_big.
Qed.

(** ** Deletion *)

Lemma small_all es : 11 + room es.*2 < 4294967296 -> Forall small_ent es.
Proof.
  induction es as [|e es IH]; intros Hr; [done|]. rewrite fmap_cons in Hr. unfold room in Hr. cbn [foldr] in Hr.
  fold (room es.*2) in Hr. pose proof (room_nonneg es.*2). pose proof (zlen_nonneg (body e.2)).
  constructor; [apply small_of_room; lia|apply IH; lia].
Qed.

Lemma delete_loop_spec D R : forall fuel zl P pl p i num del,
  zl = P ++ enc pl (D ++ R) ++ [ZIP_END] -> p = zlen P -> chain_ok pl (D ++ R) -> Forall small_ent D ->
  (i + zlen D = num \/ (R = [] /\ i + zlen D <= num)) -> (length D < fuel)%nat ->
  delete_loop fuel zl p i num del = Some (p + elens D, del + zlen D).
Proof.
  induction D as [|d D IH]; intros [|fuel] zl P pl p i num del Hz Hp Hc Hs Hn Hf; cbn [length] in Hf;
    [lia| |lia|]; cbn [delete_loop].
  - rewrite zlen_nil in *. cbn [app elens] in *.
    assert (exists x, zl.[p] = Some x /\ negb (x =? ZIP_END) && (i <? num) = false) as (x & -> & Hx).
    { destruct R as [|r R].
      - exists ZIP_END. split; [|done]. by apply (znth_at P ZIP_END []).
      - destruct Hn as [Hn|[? _]]; [|done]. destruct Hc as [Hc _].
        destruct (byte_at zl P pl r (enc (elen r) R ++ [ZIP_END]) p) as (x & Ex & _); [rewrite Hz; cbn [enc]; lapp|done|done|].
        exists x. split; [done|]. zbool. apply andb_false_r. }
    cbn [mbind option_bind]. rewrite Hx. change (zlen (@nil ent)) with 0. by rewrite !Z.add_0_r.
  - rewrite zlen_cons in *. pose proof (zlen_nonneg D). apply Forall_cons_1 in Hs as [Hs1 Hs]. destruct Hc as [Hc1 Hc].
    assert (zl = P ++ ebytes pl d ++ enc (elen d) (D ++ R) ++ [ZIP_END]) as Hz1 by (rewrite Hz; cbn [app enc]; lapp).
    destruct (byte_at zl P pl d _ p Hz1 Hp Hc1) as (x & -> & Hx & _). cbn [mbind option_bind]. rewrite Hx.
    assert ((i <? num) = true) as -> by (apply Z.ltb_lt; lia). cbn [negb andb].
    rewrite (rawlen_at zl P pl d _ p Hz1 Hp Hc1 Hs1). cbn [mbind option_bind].
    rewrite (IH fuel zl (P ++ ebytes pl d) (elen d)); [|by rewrite Hz1; lapp|rewrite zlen_app, zlen_ebytes; lia|done|done
      |destruct Hn as [Hn|[-> Hn]]; [left; lia|right; split; [done|lia]]|lia].
    rewrite elens_cons. do 2 f_equal; lia.
Qed.

(** Rewrite the prevlen field of the entry after the deleted bytes [G]; the field
    may take bytes of [G] or leave some to it. *)
Lemma delete_field P G Q pl pl' r p nd :
  zlen P + zlen G = p -> 0 <= pl < 4294967296 -> nd = psz (big pl) - psz r.1 -> (nd <= zlen G) ->
  exists G', zipStorePrevEntryLength (P ++ G ++ ebytes pl' r ++ Q) (p - nd) pl =
    Some (P ++ G' ++ ebytes pl (big pl, r.2) ++ Q, psz (big pl)) /\ zlen G' = zlen G - nd.
Proof.
  intros Hp Hpl -> Hfit. pose proof (zlen_nonneg G). unfold ebytes. cbn [fst snd].
  set (F := prevfield r.1 pl'). assert (zlen F = psz r.1) as HF by apply psz_prevfield.
  destruct (decide (r.1 = big pl)) as [E|E].
  - exists G. rewrite E, Z.sub_diag. split; [|lia].
    replace (P ++ G ++ (F ++ body r.2) ++ Q) with ((P ++ G) ++ F ++ (body r.2 ++ Q)) by lapp.
    rewrite store_prev_at; [|len|done|by rewrite <- E]. do 2 f_equal. lapp.
  - destruct r.1, (big pl) eqn:Eb; try done; cbn [psz] in *; clear E.
    + destruct (zsplit 4 F) as (F4 & F1 & -> & Hf4 & Hf1); [lia|]. exists (G ++ F4). split; [|len].
      replace (P ++ G ++ ((F4 ++ F1) ++ body r.2) ++ Q) with ((P ++ G ++ F4) ++ F1 ++ (body r.2 ++ Q)) by lapp.
      rewrite store_prev_at; [|len|done|rewrite Eb; cbn [psz]; lia]. rewrite Eb. do 2 f_equal. lapp.
    + destruct (zsplit (zlen G - 4) G) as (G1 & g & -> & Hg1 & Hg); [lia|]. rewrite zlen_app in *. exists G1. split; [|lia].
      replace (P ++ (G1 ++ g) ++ (F ++ body r.2) ++ Q) with ((P ++ G1) ++ (g ++ F) ++ (body r.2 ++ Q)) by lapp.
      rewrite store_prev_at; [|len|done|rewrite Eb; cbn [psz]; len]. rewrite Eb. do 2 f_equal. lapp.
Qed.

Lemma delete_move_spec t c A D pl pl' r R first p :
  e_p first = 10 + zlen A -> prevrawlen first = pl -> 0 <= pl < 4294967296 ->
  p = 10 + zlen A + zlen D -> prev_ok r.1 pl' -> chain_ok (elen r) R -> psz (big pl) - psz r.1 <= zlen D ->
  11 + zlen A + zlen D + room (r :: R).*2 < 4294967296 ->
  t = 11 + zlen A + zlen D + elens (r :: R) ->
  exists J, delete_move (hd t (10 + zlen A + zlen D + elens (removelast (r :: R))) c ++ A ++ D ++ enc pl' (r :: R) ++ [ZIP_END])
      first p (zlen D) =
    Some (hd t (10 + zlen A + elens (removelast ((big pl, r.2) :: R))) c ++
          (A ++ ebytes pl (big pl, r.2) ++ enc (elen r) R) ++ J ++ [ZIP_END], psz (big pl) - psz r.1).
Proof.
  intros He Hpr Hpl Hp Hok Hc Hfit Hmax Ht. set (nd := psz (big pl) - psz r.1) in *. set (b := big pl) in *.
  pose proof (zlen_nonneg A). pose proof (zlen_nonneg D). rewrite fmap_cons in Hmax. pose proof (elen_room r R.*2) as Hr1.
  pose proof (elen_room (b, r.2) R.*2) as Hr2. cbn [snd] in Hr2. pose proof (elens_nonneg (removelast (r :: R))).
  pose proof (elens_removelast_le (r :: R)). pose proof (elens_room R). pose proof (elens_nonneg R). rewrite elens_cons in *.
  set (o := 10 + zlen A + zlen D + elens (removelast (r :: R))) in *. unfold delete_move. cbn [enc].
  replace (hd t o c ++ A ++ D ++ (ebytes pl' r ++ enc (elen r) R) ++ [ZIP_END])
    with ((hd t o c ++ A) ++ D ++ ebytes pl' r ++ (enc (elen r) R ++ [ZIP_END])) by lapp.
  destruct (byte_at ((hd t o c ++ A) ++ D ++ ebytes pl' r ++ (enc (elen r) R ++ [ZIP_END])) ((hd t o c ++ A) ++ D) pl' r
    (enc (elen r) R ++ [ZIP_END]) p) as (x & -> & Hx & _); [lapp|len|done|]. cbn [mbind option_bind]. rewrite Hx. cbn [negb].
  unfold zipPrevLenByteDiff. rewrite (prevsize_at _ ((hd t o c ++ A) ++ D) pl' r (enc (elen r) R ++ [ZIP_END]));
    [|lapp|len|done]. cbn [mbind option_bind]. rewrite Hpr, size_big by done. fold b nd.
  destruct (delete_field (hd t o c ++ A) D (enc (elen r) R ++ [ZIP_END]) pl pl' r p nd) as (G & -> & HG);
    [len|done|done|done|]. fold b. cbn [mbind option_bind].
  assert (forall o, (hd t o c ++ A) ++ G ++ ebytes pl (b, r.2) ++ enc (elen r) R ++ [ZIP_END] =
    hd t o c ++ (A ++ G ++ ebytes pl (b, r.2) ++ enc (elen r) R ++ [ZIP_END])) as Eas by (intros; lapp).
  rewrite Eas, get_tail by (subst o; lia). cbn [mbind option_bind]. rewrite set_tail. cbn [mbind option_bind]. rewrite <- Eas.
  assert (elen (b, r.2) = elen r + nd) as Eb by (unfold elen; cbn [fst snd]; lia).
  pose proof (elen_pos r). pose proof (elen_pos (b, r.2)).
  set (zl := (hd t (o - zlen D) c ++ A) ++ _).
  assert (zl = ((hd t (o - zlen D) c ++ A) ++ G) ++ ebytes pl (b, r.2) ++ (enc (elen r) R ++ [ZIP_END])) as Ez by (subst zl; lapp).
  assert (p - nd = zlen ((hd t (o - zlen D) c ++ A) ++ G)) as Epp by len.
  rewrite (zipEntry_at zl _ _ _ _ _ Ez Epp); [|by apply prev_ok_big|].
  2:{ apply small_of_room. cbn [snd]. unfold room in *. cbn [foldr] in *. lia. }
  cbn [mbind option_bind headersize e_len]. rewrite elen_eq, u32_small by lia.
  assert (exists y, zl.[p - nd + elen (b, r.2)] = Some y /\ (y =? ZIP_END) = bool_decide (R = [])) as (y & -> & Hy).
  { destruct R as [|x1 R1].
    - exists ZIP_END. split; [|done]. apply (znth_at (((hd t (o - zlen D) c ++ A) ++ G) ++ ebytes pl (b, r.2)) ZIP_END []); [by rewrite Ez; lapp|].
      rewrite zlen_app, zlen_ebytes. lia.
    - destruct Hc as [Hc _].
      destruct (byte_at zl (((hd t (o - zlen D) c ++ A) ++ G) ++ ebytes pl (b, r.2)) (elen r) x1 (enc (elen x1) R1 ++ [ZIP_END])
        (p - nd + elen (b, r.2))) as (y & Ey & Hy & _); [rewrite Ez; cbn [enc]; lapp|rewrite zlen_app, zlen_ebytes; lia|done|].
      exists y. split; [exact Ey|exact Hy]. }
  cbn [mbind option_bind]. rewrite Hy.
  assert ((if negb (bool_decide (R = [])) then t0 ← ZIPLIST_TAIL_OFFSET zl; set_ZIPLIST_TAIL_OFFSET zl (t0 + nd) else Some zl) =
    Some (hd t (10 + zlen A + elens (removelast ((b, r.2) :: R))) c ++ (A ++ G ++ ebytes pl (b, r.2) ++ enc (elen r) R ++ [ZIP_END]))) as ->.
  { rewrite (removelast_head_change r (b, r.2) R nd Eb). subst zl. rewrite Eas. destruct (bool_decide (R = [])); cbn [negb].
    - do 3 f_equal. lia.
    - rewrite get_tail by (subst o; lia). cbn [mbind option_bind]. rewrite set_tail. do 3 f_equal. lia. }
  cbn [mbind option_bind]. rewrite get_bytes by lia. cbn [mbind option_bind]. set (o' := 10 + zlen A + _).
  replace (hd t o' c ++ A ++ G ++ ebytes pl (b, r.2) ++ enc (elen r) R ++ [ZIP_END])
    with ((hd t o' c ++ A) ++ G ++ (ebytes pl (b, r.2) ++ enc (elen r) R) ++ [ZIP_END]) by lapp.
  destruct (memmove_left (hd t o' c ++ A) G (ebytes pl (b, r.2) ++ enc (elen r) R) [ZIP_END] (e_p first) (p - nd) (t - (p - nd) - 1))
    as (J & -> & HJ); [len|len|rewrite zlen_app, zlen_ebytes, zlen_enc; lia|].
  cbn [mbind option_bind]. exists J. lapp.
Qed.

Definition decr_cnt (c n : Z) : Z := if c <? UINT16_MAX then c - n else c.

Lemma incr_length t o c X n : 0 <= c < 65536 ->
  ZIPLIST_INCR_LENGTH (hd t o c ++ X) n = Some (hd t o (if c <? UINT16_MAX then c + n else c) ++ X).
Proof.
  intros Hc. unfold ZIPLIST_INCR_LENGTH. rewrite get_length by done. cbn [mbind option_bind].
  destruct (c <? UINT16_MAX); [by rewrite set_length|done].
Qed.

(** The end of __ziplistDelete when an entry [r] follows the deleted ones. *)
Lemma delete_finish t o c A J pl r R nd c' n :
  chain_ok 0 A -> pl = lastlen 0 A -> 0 <= pl < 4294967296 -> chain_ok (elen r) R -> 0 <= c < 65536 -> 0 <= c' < 65536 ->
  nd = psz (big pl) - psz r.1 -> o = 10 + elens A + elens (removelast ((big pl, r.2) :: R)) ->
  11 + elens A + room (r :: R).*2 < 4294967296 -> c' = (if c <? UINT16_MAX then c + n else c) ->
  exists R',
    (zl ← ziplistResize (hd t o c ++ (enc 0 A ++ ebytes pl (big pl, r.2) ++ enc (elen r) R) ++ J ++ [ZIP_END])
            (11 + elens A + elens (r :: R) + nd);
     zl ← ZIPLIST_INCR_LENGTH zl n;
     if negb (nd =? 0) then __ziplistCascadeUpdate zl (10 + elens A) else Some zl) =
    Some (block c' (A ++ R')) /\ R'.*2 = (r :: R).*2 /\ chain_ok 0 (A ++ R').
Proof.
  intros HcA Hpl Hplr Hc Hcc Hcc' Hnd Ho Hmax Hc'. set (b := big pl) in *. rewrite fmap_cons in *.
  assert (elen (b, r.2) = elen r + nd) as Eb by (unfold elen; cbn [fst snd]; lia).
  pose proof (elen_room (b, r.2) R.*2) as Hr. cbn [snd] in Hr. pose proof (elens_room R). pose proof (elens_nonneg A).
  pose proof (zlen_nonneg J). rewrite elens_cons. assert (zlen (enc 0 A) = elens A) as HA by apply zlen_enc.
  rewrite ziplist_shrink; [|rewrite !zlen_app, zlen_ebytes, !zlen_enc; lia|rewrite zlen_app; change (zlen [ZIP_END]) with 1; lia|lia].
  cbn [mbind option_bind]. rewrite incr_length, <- Hc' by done. cbn [mbind option_bind].
  assert (prev_ok b pl) as Hb by (by apply prev_ok_big).
  assert (forall R', 11 + elens A + elens ((b, r.2) :: R') = 11 + elens (A ++ (b, r.2) :: R') /\
    10 + elens A + elens (removelast ((b, r.2) :: R')) = tail_off (A ++ (b, r.2) :: R')) as Eh.
  { intros R'. unfold tail_off. rewrite removelast_app, !elens_app by done. lia. }
  replace (hd (11 + elens A + (elen r + elens R) + nd) o c' ++ (enc 0 A ++ ebytes pl (b, r.2) ++ enc (elen r) R) ++ [ZIP_END])
    with (hd (11 + elens A + elens ((b, r.2) :: R)) o c' ++ enc 0 A ++ ebytes pl (b, r.2) ++ enc (elen r) R ++ [ZIP_END])
    by (rewrite elens_cons, Eb; replace (11 + elens A + (elen r + nd + elens R)) with (11 + elens A + (elen r + elens R) + nd) by lia; lapp).
  destruct (Z.eqb_spec nd 0) as [E0|E0]; cbn [negb].
  - exists ((b, r.2) :: R). rewrite fmap_cons. split_and!; [|done|].
    + unfold block. destruct (Eh R) as [<- <-]. rewrite Ho, enc_app, <- Hpl. cbn [enc]. rewrite Eb, E0, Z.add_0_r. f_equal. lapp.
    + apply chain_app. split; [done|]. rewrite <- Hpl. split; [done|]. by rewrite Eb, E0, Z.add_0_r.
  - rewrite <- HA.
    destruct (cascade_update (enc 0 A) (b, r.2) pl (elen r) R c' (11 + zlen (enc 0 A) + elens ((b, r.2) :: R)) o) as (R' & -> & Hch & Hss);
      [done|done|done|rewrite fmap_cons; cbn [snd]; lia|done|rewrite HA; done|].
    exists ((b, r.2) :: R'). rewrite fmap_cons, Hss. split_and!; [|done|].
    + unfold block. rewrite HA. destruct (Eh R') as [<- <-]. rewrite enc_app, <- Hpl. cbn [enc]. f_equal. lapp.
    + apply chain_app. split; [done|]. rewrite <- Hpl. by split.
Qed.

(** The same when the last entry was deleted. *)
Lemma delete_finish_tail t o c A Y c' n :
  chain_ok 0 A -> 0 <= c < 65536 -> o = tail_off A -> 11 + elens A < 4294967296 ->
  c' = (if c <? UINT16_MAX then c + n else c) -> 1 <= zlen Y ->
  (zl ← ziplistResize (hd t o c ++ enc 0 A ++ Y) (11 + elens A); ZIPLIST_INCR_LENGTH zl n) = Some (block c' A).
Proof.
  intros HcA Hcc Ho Hmax Hc' HY. rewrite ziplist_shrink; [|by rewrite zlen_enc|done|done].
  cbn [mbind option_bind]. rewrite incr_length, <- Hc' by done. unfold block. by rewrite Ho.
Qed.

Lemma tail_off_last A : 10 + elens A - lastlen 0 A = tail_off A.
Proof.
  destruct A as [|a A _] using rev_ind; [done|]. unfold tail_off. rewrite removelast_last, lastlen_app, elens_app.
  cbn [elens lastlen]. lia.
Qed.

(** The first deleted entry leaves room for a longer field of the entry that follows. *)
Lemma delete_fits d pl b : prev_ok d.1 pl -> psz (big pl) - psz b <= elen d.
Proof.
  intros [_ Hd]. unfold elen. pose proof (zlen_nonneg (body d.2)).
  destruct d.1; cbn [psz]; [unfold psz; destruct (big pl), b; lia|].
  unfold big, ZIP_BIG_PREVLEN. destruct (Z.ltb_spec pl 254); [|specialize (Hd eq_refl); lia]. cbn [negb psz].
  unfold psz; destruct b; lia.
Qed.

Lemma delete_entries_spec c A D R num : D <> [] -> chain_ok 0 (A ++ D ++ R) -> 0 <= c < 65536 ->
  (c = UINT16_MAX \/ zlen D <= c) -> 11 + room (A ++ D ++ R).*2 < 4294967296 ->
  (zlen D = num \/ (R = [] /\ zlen D <= num)) ->
  exists R', __ziplistDelete (block c (A ++ D ++ R)) (10 + elens A) num = Some (block (decr_cnt c (zlen D)) (A ++ R')) /\
    R'.*2 = R.*2 /\ chain_ok 0 (A ++ R').
Proof.
  intros HD Hc Hcc Hcnt Hmax Hnum. pose proof Hmax as Hsm%small_all. rewrite !fmap_app, !room_app in Hmax.
  pose proof (room_nonneg A.*2). pose proof (room_nonneg D.*2). pose proof (room_nonneg R.*2).
  pose proof (elens_room A). pose proof (elens_room D). pose proof (elens_room R). pose proof (elens_nonneg A).
  pose proof (elens_nonneg D). pose proof (elens_nonneg R). pose proof (zlen_nonneg D).
  assert (0 <= lastlen 0 A < 4294967296) as Hpl by (apply (lastlen_range A (D.*2 ++ R.*2)); rewrite !room_app; lia).
  apply chain_app in Hc as [HcA Hc]. set (pl := lastlen 0 A) in *.
  apply Forall_app in Hsm as [_ [HsD _]%Forall_app].
  set (hh := hd (11 + elens (A ++ D ++ R)) (tail_off (A ++ D ++ R)) c).
  assert (block c (A ++ D ++ R) = (hh ++ enc 0 A) ++ enc pl (D ++ R) ++ [ZIP_END]) as Eb.
  { unfold block. fold hh. rewrite enc_app. fold pl. lapp. }
  assert (10 + elens A = zlen (hh ++ enc 0 A)) as Ep by (subst hh; len).
  destruct D as [|d D]; [done|]. unfold __ziplistDelete.
  rewrite (zipEntry_at _ (hh ++ enc 0 A) pl d (enc (elen d) (D ++ R) ++ [ZIP_END])); [|rewrite Eb; cbn [app enc]; lapp|done|apply Hc|by inversion HsD].
  cbn [mbind option_bind]. set (first := mk_zlentry _ _ _ _ _ _ _).
  rewrite (delete_loop_spec (d :: D) R _ _ (hh ++ enc 0 A) pl); [|done|done|done|done|done|].
  2:{ pose proof (elens_length (d :: D)). pose proof (zlen_block c (A ++ (d :: D) ++ R)) as Hb. rewrite !elens_app in Hb.
      unfold zlen in *. lia. }
  cbn [mbind option_bind e_p]. set (Ds := d :: D) in *. pose proof (elen_pos d).
  assert (elens Ds = elen d + elens D) as HDs by done. pose proof (elens_nonneg D).
  change (e_p first) with (10 + elens A). replace (10 + elens A + elens Ds - (10 + elens A)) with (elens Ds) by lia.
  rewrite u32_small by lia. rewrite Z.gtb_ltb. destruct (Z.ltb_spec 0 (elens Ds)); [|lia].
  set (n := - (0 + zlen Ds)).
  assert (decr_cnt c (zlen Ds) = (if c <? UINT16_MAX then c + n else c)) as Ec
    by (unfold decr_cnt; destruct (c <? UINT16_MAX); lia).
  assert (0 <= decr_cnt c (zlen Ds) < 65536) as Hc'.
  { unfold decr_cnt, UINT16_MAX in *. destruct (Z.ltb_spec c 65535); lia. }
  set (T := 11 + elens (A ++ Ds ++ R)). assert (T = 11 + elens A + elens Ds + elens R) as ET by (subst T; rewrite !elens_app; lia).
  assert (zlen (enc pl Ds) = elens Ds) as HlD by apply zlen_enc. assert (zlen (enc 0 A) = elens A) as HlA by apply zlen_enc.
  rewrite Eb. destruct R as [|r R].
  - exists []. rewrite !app_nil_r in *. split; [|by rewrite ?app_nil_r].
    unfold delete_move. rewrite (znth_at ((hh ++ enc 0 A) ++ enc pl Ds) ZIP_END []); [|lapp|len].
    cbn [mbind option_bind]. change (ZIP_END =? ZIP_END) with true. cbn [negb]. subst hh. rewrite <- app_assoc, set_tail.
    cbn [mbind option_bind]. rewrite get_bytes by (subst T; cbn [elens] in *; lia). cbn [mbind option_bind].
    change (0 =? 0) with true. cbn [negb].
    pose proof (delete_finish_tail T (10 + elens A - pl) c A (enc pl Ds ++ [ZIP_END]) (decr_cnt c (zlen Ds)) n HcA Hcc) as Hfin.
    cbn [elens] in *. fold T. replace (T - elens Ds + 0) with (11 + elens A) by lia. change (prevrawlen first) with pl.
    change (e_p first) with (10 + elens A).
    destruct (ziplistResize _ _) as [zl|]; cbn [mbind option_bind] in *.
    + rewrite Hfin; [done|by apply tail_off_last|lia|done|rewrite zlen_app; change (zlen [ZIP_END]) with 1; lia].
    + apply Hfin; [by apply tail_off_last|lia|done|rewrite zlen_app; change (zlen [ZIP_END]) with 1; lia].
  - apply chain_app in Hc as [HcD [Hpr HcR]].
    assert (tail_off (A ++ Ds ++ r :: R) = 10 + zlen (enc 0 A) + zlen (enc pl Ds) + elens (removelast (r :: R))) as Eo.
    { unfold tail_off. rewrite !removelast_app, !elens_app by done. lia. }
    subst hh. fold T. rewrite Eo. rewrite enc_app. set (pl' := lastlen pl Ds) in *.
    replace ((hd T (10 + zlen (enc 0 A) + zlen (enc pl Ds) + elens (removelast (r :: R))) c ++ enc 0 A) ++
      (enc pl Ds ++ enc pl' (r :: R)) ++ [ZIP_END]) with
      (hd T (10 + zlen (enc 0 A) + zlen (enc pl Ds) + elens (removelast (r :: R))) c ++ enc 0 A ++
      enc pl Ds ++ enc pl' (r :: R) ++ [ZIP_END]) by lapp.
    assert (psz (big pl) - psz r.1 <= elens Ds) as Hfit by (destruct HcD as [Hd _]; pose proof (delete_fits d pl r.1 Hd); lia).
    rewrite <- HlD.
    destruct (delete_move_spec T c (enc 0 A) (enc pl Ds) pl pl' r R first (10 + elens A + zlen (enc pl Ds))) as (J & ->);
      [by rewrite HlA|done|done|lia|done|done|lia|lia|lia|].
    cbn [mbind option_bind]. rewrite get_bytes by lia. cbn [mbind option_bind]. rewrite HlD, HlA.
    replace (T - elens Ds + (psz (big pl) - psz r.1)) with (11 + elens A + elens (r :: R) + (psz (big pl) - psz r.1)) by lia.
    change (e_p first) with (10 + elens A).
    apply delete_finish; try done. lia.
Qed.

End Ops.
