(* ===== verification/ZiplistApi.v ===== *)
(** * ziplist.c: navigation, search, merge and the refinement theorem

    The exported operations on a represented ziplist (ZiplistSpec): positions,
    reading, forward and backward traversal, comparison and search, the length,
    the merge of two lists, and sequences of operations against a list of strings. *)

From stdpp Require Import base list numbers option.
From Stdlib Require Import ZArith Lia.
From S2P Require Import Prelude Util Ziplist ZiplistSpec.

Implicit Types (e : ent) (es : list ent).

(** ** Integers stored in entries *)

Lemma le_load k v : (0 < k)%nat -> in_s (8 * Z.of_nat k) v -> wraps (8 * Z.of_nat k) (le_val (le_bytes k v)) = v.
Proof. intros Hk Hv. rewrite le_val_bytes. apply wraps_wrapu; [lia|done]. Qed.

Lemma load24 v : in_s 24 v -> Z.shiftr (i32 (le_val (0 :: drop 1 (le_bytes 4 (Z.shiftl v 8))))) 8 = v.
Proof.
  intros Hv. unfold in_s in Hv. change (2 ^ (24 - 1)) with 8388608 in Hv.
  assert (0 :: drop 1 (le_bytes 4 (Z.shiftl v 8)) = le_bytes 4 (Z.shiftl v 8)) as ->.
  { cbn [le_bytes drop]. f_equal. rewrite Z.shiftl_mul_pow2 by lia. change (2 ^ 8) with 256. dlia. }
  assert (i32 (le_val (le_bytes 4 (Z.shiftl v 8))) = Z.shiftl v 8) as ->.
  { apply (le_load 4); [lia|]. unfold in_s. rewrite Z.shiftl_mul_pow2 by lia.
    change (2 ^ (8 * Z.of_nat 4 - 1)) with 2147483648. change (2 ^ 8) with 256. lia. }
  rewrite Z.shiftr_shiftl_l by lia. apply Z.shiftl_0_r.
Qed.

Lemma load_int_at zl P (ec v : Z) Q p : enc_holds ec v -> zl = P ++ int_bytes ec v ++ Q -> p = zlen P ->
  zipLoadInteger zl p ec = Some v.
Proof.
  intros Hh Hz Hp. unfold zipLoadInteger. destruct Hh as [[Hv ->]|(n & Hn & Hv)].
  - assert (v ∈ [0;1;2;3;4;5;6;7;8;9;10;11;12]) as Hin by (rewrite !elem_of_cons; lia).
    repeat (apply elem_of_cons in Hin as [->|Hin]; [by vm_compute|]). by apply not_elem_of_nil in Hin.
  - unfold enc_width in Hn. unfold int_bytes in Hz.
    repeat match type of Hn with
    | (if ?ec =? ?k then _ else _) = _ => destruct (Z.eqb_spec ec k) as [->|]; [injection Hn as <-|]
    end; [| | | | |done].
    + change (ZIP_INT_8B =? ZIP_INT_8B) with true. cbn match.
      rewrite (znth_at P (u8 v) Q); [|done|done]. cbn [mbind option_bind]. f_equal.
      apply (wraps_wrapu 8); [lia|exact Hv].
    + change (ZIP_INT_16B =? ZIP_INT_8B) with false. change (ZIP_INT_16B =? ZIP_INT_16B) with true. cbn match.
      rewrite (load_at P (le_bytes 2 v) Q) by done. cbn [mbind option_bind]. f_equal.
      apply (le_load 2); [lia|exact Hv].
    + change (ZIP_INT_24B =? ZIP_INT_8B) with false. change (ZIP_INT_24B =? ZIP_INT_16B) with false.
      change (ZIP_INT_24B =? ZIP_INT_32B) with false. change (ZIP_INT_24B =? ZIP_INT_24B) with true. cbn match.
      rewrite (load_at P (drop 1 (le_bytes 4 (Z.shiftl v 8))) Q) by done. cbn [mbind option_bind]. f_equal. by apply load24.
    + change (ZIP_INT_32B =? ZIP_INT_8B) with false. change (ZIP_INT_32B =? ZIP_INT_16B) with false.
      change (ZIP_INT_32B =? ZIP_INT_32B) with true. cbn match.
      rewrite (load_at P (le_bytes 4 v) Q) by done. cbn [mbind option_bind]. f_equal.
      apply (le_load 4); [lia|exact Hv].
    + change (ZIP_INT_64B =? ZIP_INT_8B) with false. change (ZIP_INT_64B =? ZIP_INT_16B) with false.
      change (ZIP_INT_64B =? ZIP_INT_32B) with false. change (ZIP_INT_64B =? ZIP_INT_24B) with false.
      change (ZIP_INT_64B =? ZIP_INT_64B) with true. cbn match.
      rewrite (load_at P (le_bytes 8 v) Q) by done. cbn [mbind option_bind]. f_equal.
      apply (le_load 8); [lia|exact Hv].
Qed.

Lemma zint_eq s s' v ec v' ec' : zint s = Some (v, ec) -> zint s' = Some (v', ec') -> (v = v' <-> s = s').
Proof.
  intros (Hv & Es & _)%zint_inv (Hv' & Es' & _)%zint_inv. rewrite Es, Es'. split; [by intros ->|by apply sdec_inj].
Qed.

(** Every integer of 64 bits is stored as an integer. *)
Lemma zint_sdec v : in_s 64 v -> exists ec, zint (sdec v) = Some (v, ec).
Proof.
  intros Hv. unfold zint, zipTryEncoding.
  assert (1 <= zlen (sdec v) < 32) as Hl.
  { pose proof Hv as Hv'. unfold in_s in Hv'. change (2 ^ (64 - 1)) with 9223372036854775808 in Hv'.
    assert (forall w, 0 <= w <= 9223372036854775808 -> 1 <= zlen (udec w) <= 20) as Hu.
    { intros w Hw. assert (0 <= w < 10 ^ 20) as Hw2 by (change (10 ^ 20) with 100000000000000000000; lia).
      pose proof (udec_length_pos w Hw2). split; [lia|].
      destruct (udec_length w Hw2) as [[_ ->]|[_ [Hp _]]]; [lia|].
      destruct (Z.le_gt_cases (zlen (udec w)) 20); [done|].
      assert (10 ^ 20 <= 10 ^ (zlen (udec w) - 1)) by (apply Z.pow_le_mono_r; lia). lia. }
    unfold sdec. destruct (Z.ltb_spec v 0); [rewrite zlen_cons; specialize (Hu (- v)); lia|specialize (Hu v); lia]. }
  rewrite Z.geb_leb. zbool.
  rewrite (load_at [] (sdec v) []); [|by rewrite app_nil_r|done|done].
  cbn [mbind option_bind]. rewrite string2ll_complete by done. eauto.
Qed.

(** ** Positions *)

Record zl_at (zl : bytes) (c : Z) es : Prop := {
  at_block : zl = block c es;
  at_chain : chain_ok 0 es;
  at_cnt : cnt_ok c (zlen es);
  at_room : 11 + room es.*2 < 4294967296
}.

Lemma zrepr_at zl ss : zrepr zl ss <-> exists c es, zl_at zl c es /\ es.*2 = ss.
Proof.
  split.
  - intros (c & es & Hz & Hc & <- & Hn & Hr). exists c, es. split; [|done]. rewrite zlen_fmap in Hn. by split.
  - intros (c & es & [Hz Hc Hn Hr] & <-). exists c, es. rewrite zlen_fmap. by split_and!.
Qed.

(** The offset of entry [k], the end of the list for [k = length es]. *)
Definition pos es (k : nat) : Z := 10 + elens (take k es).

Lemma cnt_range c n : 0 <= n -> cnt_ok c n -> 0 <= c < 65536.
Proof. intros ? [->|[-> ?]]; lia. Qed.

Lemma at_small zl c es : zl_at zl c es -> Forall small_ent es.
Proof. intros [_ _ _ Hr]. by apply small_all. Qed.

Lemma at_total zl c es : zl_at zl c es -> 11 + elens es < 4294967296.
Proof. intros [_ _ _ Hr]. pose proof (elens_room es). lia. Qed.

Lemma entry_split zl c es k e : zl_at zl c es -> es !! k = Some e ->
  exists P Q, zl = P ++ ebytes (lastlen 0 (take k es)) e ++ Q /\ pos es k = zlen P /\
    Q = enc (elen e) (drop (S k) es) ++ [ZIP_END] /\
    prev_ok e.1 (lastlen 0 (take k es)) /\ chain_ok (elen e) (drop (S k) es) /\ small_ent e.
Proof.
  intros Ha Hk. pose proof (at_small _ _ _ Ha) as Hs. destruct Ha as [-> Hc _ _].
  pose proof (take_drop_middle es k e Hk) as E.
  rewrite <- E in Hc. apply chain_app in Hc as [_ [Hp Hc]].
  exists (hd (11 + elens es) (tail_off es) c ++ enc 0 (take k es)), (enc (elen e) (drop (S k) es) ++ [ZIP_END]).
  split_and!; try done.
  - unfold block. rewrite <- E at 3. rewrite enc_app. cbn [enc]. lapp.
  - unfold pos. len.
  - by eapply Forall_lookup_1.
Qed.

Lemma entry_not_end zl c es k e : zl_at zl c es -> es !! k = Some e ->
  exists x, zl.[pos es k] = Some x /\ (x =? ZIP_END) = false.
Proof.
  intros Ha Hk. destruct (entry_split _ _ _ _ _ Ha Hk) as (P & Q & Hz & HP & _ & Hp & _).
  destruct (byte_at zl P _ e Q _ Hz HP Hp) as (x & Ex & Hx & _). eauto.
Qed.

Lemma end_byte zl c es : zl_at zl c es -> zl.[pos es (length es)] = Some ZIP_END.
Proof.
  intros [-> _ _ _]. unfold pos, block. rewrite firstn_all.
  apply (znth_at (hd (11 + elens es) (tail_off es) c ++ enc 0 es) ZIP_END []); [lapp|len].
Qed.

Lemma pos_next es k e : es !! k = Some e -> pos es k + elen e = pos es (S k).
Proof. intros Hk. unfold pos. rewrite (take_S_r es k e Hk), elens_app. cbn [elens]. lia. Qed.

Lemma pos_byte zl c es k : zl_at zl c es -> (k <= length es)%nat ->
  exists x, zl.[pos es k] = Some x /\ (x =? ZIP_END) = bool_decide (k = length es).
Proof.
  intros Ha Hk. destruct (decide (k = length es)) as [->|Hne].
  - exists ZIP_END. by rewrite (end_byte _ _ _ Ha), bool_decide_true.
  - destruct (lookup_lt_is_Some_2 es k) as [e He]; [lia|]. rewrite bool_decide_false by done.
    by eapply entry_not_end.
Qed.

Lemma entry_rawlen zl c es k e : zl_at zl c es -> es !! k = Some e -> zipRawEntryLength zl (pos es k) = Some (elen e).
Proof.
  intros Ha Hk. destruct (entry_split _ _ _ _ _ Ha Hk) as (P & Q & Hz & HP & _ & Hp & _ & Hs).
  by apply (rawlen_at zl P (lastlen 0 (take k es)) e Q).
Qed.

Lemma entry_prevlen zl c es k e : zl_at zl c es -> es !! k = Some e ->
  ZIP_DECODE_PREVLEN zl (pos es k) = Some (psz e.1, lastlen 0 (take k es)).
Proof.
  intros Ha Hk. destruct (entry_split _ _ _ _ _ Ha Hk) as (P & Q & Hz & HP & _ & Hp & _ & Hs).
  by apply (prevlen_at zl P _ e Q).
Qed.

(** The length field of the entry before is 0 exactly for the head. *)
Lemma lastlen_prev es k : (k <= length es)%nat ->
  lastlen 0 (take k es) = match k with O => 0 | S j => pos es k - pos es j end /\
  (lastlen 0 (take k es) >? 0) = negb (bool_decide (k = O)).
Proof.
  intros Hk. destruct k as [|j]; [done|]. destruct (lookup_lt_is_Some_2 es j) as [e He]; [lia|].
  rewrite <- (pos_next es j e He), (take_S_r es j e He), lastlen_app. cbn [lastlen].
  pose proof (elen_pos e). rewrite Z.gtb_ltb. zbool. split; [lia|done].
Qed.

Lemma tail_off_pos es e es' : es = es' ++ [e] -> tail_off es = pos es (length es').
Proof. intros ->. unfold tail_off, pos. by rewrite removelast_last, take_app_length. Qed.

Lemma at_tail zl c es : zl_at zl c es -> ZIPLIST_TAIL_OFFSET zl = Some (tail_off es).
Proof. intros Ha. rewrite (at_block _ _ _ Ha). apply block_tail. by eapply at_total. Qed.

(** ** ziplistIndex *)

Section Nav.
Context `{FreshMem}.

Lemma index_forward_spec zl c es : zl_at zl c es -> forall n k fuel i, n = (length es - k)%nat -> (k <= length es)%nat ->
  0 <= i -> (n < fuel)%nat ->
  index_forward fuel zl (pos es k) i =
  Some (if i <? Z.of_nat n then (pos es (k + Z.to_nat i), -1) else (pos es (length es), i - Z.of_nat n)).
Proof.
  intros Ha. induction n as [|n IH]; intros k [|fuel] i Hn Hk Hi Hf; [lia| |lia|]; cbn [index_forward];
    destruct (pos_byte zl c es k Ha Hk) as (x & -> & Hx); cbn [mbind option_bind]; rewrite Hx.
  - assert (k = length es) as -> by lia. rewrite bool_decide_true by done. cbn [negb].
    destruct (Z.ltb_spec i (Z.of_nat 0)); [lia|]. do 2 f_equal. lia.
  - rewrite bool_decide_false by lia. cbn [negb]. destruct (Z.eqb_spec i 0) as [->|Hi0].
    { destruct (Z.ltb_spec 0 (Z.of_nat (S n))); [|lia]. by rewrite Nat.add_0_r. }
    destruct (lookup_lt_is_Some_2 es k) as [e He]; [lia|].
    rewrite (entry_rawlen zl c es k e) by done. cbn [mbind option_bind]. rewrite (pos_next es k e He).
    rewrite (IH (S k)) by lia. destruct (Z.ltb_spec (i - 1) (Z.of_nat n)), (Z.ltb_spec i (Z.of_nat (S n))); try lia.
    + do 3 f_equal. lia.
    + do 2 f_equal. lia.
Qed.

Lemma index_back_spec zl c es : zl_at zl c es -> forall k fuel i, (k < length es)%nat -> 0 <= i -> (k < fuel)%nat ->
  exists i', index_back fuel zl (pos es k) (lastlen 0 (take k es)) i = Some (pos es (k - Z.to_nat i), i') /\
    (i' >? 0) = (Z.of_nat k <? i).
Proof.
  intros Ha. induction k as [|k IH]; intros [|fuel] i Hk Hi Hf; [lia| |lia|]; cbn [index_back];
    destruct (lastlen_prev es _ (Nat.lt_le_incl _ _ Hk)) as [El ->].
  - cbn. exists i. split; [done|]. rewrite Z.gtb_ltb. done.
  - rewrite bool_decide_false by done. cbn [negb]. destruct (Z.eqb_spec i 0) as [->|Hi0].
    { exists (0 - 1). rewrite Nat.sub_0_r. split; [done|]. rewrite Z.gtb_ltb. by zbool. }
    rewrite El. replace (pos es (S k) - (pos es (S k) - pos es k)) with (pos es k) by lia.
    destruct (lookup_lt_is_Some_2 es k) as [e He]; [lia|]. rewrite (entry_prevlen zl c es k e) by done.
    cbn [mbind option_bind]. destruct (IH fuel (i - 1)) as (i' & E & Hi'); [lia|lia|lia|]. rewrite E. exists i'. split.
    + do 3 f_equal. lia.
    + rewrite Hi'. destruct (Z.ltb_spec (Z.of_nat k) (i - 1)), (Z.ltb_spec (Z.of_nat (S k)) i); lia || done.
Qed.

Lemma fuel_entries zl c es : zl_at zl c es -> (length es < length zl)%nat.
Proof.
  intros [-> _ _ _]. pose proof (zlen_block c es). pose proof (elens_length es). pose proof (zlen_nonneg es).
  unfold zlen in *. lia.
Qed.

Lemma ziplistIndex_spec zl c es i : zl_at zl c es -> i <> -2147483648 ->
  ziplistIndex zl i = Some (pos es <$> al_pos i (length es)).
Proof.
  intros Ha Hi. pose proof (fuel_entries _ _ _ Ha) as Hf. unfold ziplistIndex, al_pos.
  destruct (Z.ltb_spec i 0) as [Hneg|Hpos].
  - unfold neg_int. rewrite (proj2 (Z.eqb_neq _ _) Hi). cbn [mbind option_bind]. unfold ZIPLIST_ENTRY_TAIL.
    rewrite (at_tail _ _ _ Ha). cbn [mbind option_bind].
    destruct es as [|e es' _] using rev_ind.
    + assert (zl.[tail_off []] = Some ZIP_END) as Hend by exact (end_byte _ _ _ Ha). rewrite Hend. cbn [mbind option_bind].
      change (ZIP_END =? ZIP_END) with true. cbn [negb]. cbn [mbind option_bind]. rewrite Hend. cbn [mbind option_bind].
      change (ZIP_END =? ZIP_END) with true. cbn [orb length]. destruct (Z.leb_spec 0 (Z.of_nat 0 + i)); [lia|done].
    + rewrite (tail_off_pos _ e es') by done. set (es := es' ++ [e]) in *.
      assert (length es = S (length es')) as Hl by (subst es; rewrite length_app; cbn; lia).
      assert (es !! length es' = Some e) as He by (subst es; by apply list_lookup_middle).
      destruct (entry_not_end zl c es (length es') e Ha He) as (x & -> & Hx). cbn [mbind option_bind]. rewrite Hx. cbn [negb].
      rewrite (entry_prevlen zl c es (length es') e) by done. cbn [mbind option_bind].
      destruct (index_back_spec zl c es Ha (length es') (S (length zl)) (- i - 1)) as (i' & -> & Hi'); [lia|lia|lia|].
      cbn [mbind option_bind]. destruct (pos_byte zl c es (length es' - Z.to_nat (- i - 1)) Ha) as (y & -> & Hy); [lia|].
      cbn [mbind option_bind]. rewrite Hy, Hi', bool_decide_false by lia. cbn [orb].
      destruct (Z.ltb_spec (Z.of_nat (length es')) (- i - 1)).
      * assert ((0 <=? Z.of_nat (length es) + i) = false) as -> by lia. done.
      * assert ((0 <=? Z.of_nat (length es) + i) = true) as -> by lia.
        assert ((Z.of_nat (length es) + i <? Z.of_nat (length es)) = true) as -> by lia. cbn. do 3 f_equal. lia.
  - change ZIPLIST_ENTRY_HEAD with (pos es 0).
    rewrite (index_forward_spec zl c es Ha (length es) 0); [|lia|lia|lia|lia].
    destruct (Z.ltb_spec i (Z.of_nat (length es))); cbn [mbind option_bind].
    + destruct (pos_byte zl c es (0 + Z.to_nat i) Ha) as (y & -> & Hy); [lia|]. cbn [mbind option_bind].
      rewrite Hy, bool_decide_false by lia. cbn. zbool. done.
    + rewrite (end_byte _ _ _ Ha). cbn [mbind option_bind]. change (ZIP_END =? ZIP_END) with true. cbn [orb].
      by rewrite andb_false_r.
Qed.

(** ** Traversal and reading *)

(** The pointer to entry [k], NULL past the end. *)
Definition ptr es (k : nat) : option Z := if (k <? length es)%nat then Some (pos es k) else None.

Lemma ziplistNext_spec zl c es k : zl_at zl c es -> (k < length es)%nat ->
  ziplistNext zl (pos es k) = Some (ptr es (S k)).
Proof.
  intros Ha Hk. destruct (lookup_lt_is_Some_2 es k Hk) as [e He]. unfold ziplistNext, ptr.
  destruct (entry_not_end _ _ _ _ _ Ha He) as (x & -> & Hx). cbn [mbind option_bind]. rewrite Hx.
  rewrite (entry_rawlen _ _ _ _ _ Ha He). cbn [mbind option_bind]. rewrite (pos_next es k e He).
  destruct (pos_byte zl c es (S k) Ha Hk) as (y & -> & Hy). cbn [mbind option_bind]. rewrite Hy.
  case_bool_decide; destruct (Nat.ltb_spec (S k) (length es)); lia || done.
Qed.

Lemma ziplistNext_end zl c es : zl_at zl c es -> ziplistNext zl (pos es (length es)) = Some None.
Proof. intros Ha. unfold ziplistNext. by rewrite (end_byte _ _ _ Ha). Qed.

Lemma pos_head es k : (k <= length es)%nat -> (pos es k =? ZIPLIST_ENTRY_HEAD) = bool_decide (k = O).
Proof.
  intros Hk. unfold pos, ZIPLIST_ENTRY_HEAD, ZIPLIST_HEADER_SIZE. destruct k as [|k]; [done|].
  destruct (lookup_lt_is_Some_2 es k) as [e He]; [lia|]. rewrite (take_S_r es k e He), elens_app. cbn [elens].
  pose proof (elen_pos e). pose proof (elens_nonneg (take k es)). rewrite bool_decide_false by done. lia.
Qed.

Lemma ziplistPrev_spec zl c es k : zl_at zl c es -> (k <= length es)%nat ->
  ziplistPrev zl (pos es k) = Some (match k with O => None | S j => Some (pos es j) end).
Proof.
  intros Ha Hk. unfold ziplistPrev. destruct (pos_byte zl c es k Ha Hk) as (x & -> & Hx).
  cbn [mbind option_bind]. rewrite Hx. case_bool_decide as Ek.
  - unfold ZIPLIST_ENTRY_TAIL. rewrite (at_tail _ _ _ Ha). cbn [mbind option_bind].
    destruct es as [|e es' _] using rev_ind.
    + subst k. assert (zl.[tail_off []] = Some ZIP_END) as -> by exact (end_byte _ _ _ Ha). done.
    + rewrite (tail_off_pos _ e es') by done. set (es := es' ++ [e]) in *.
      assert (es !! length es' = Some e) as He by (subst es; by apply list_lookup_middle).
      destruct (entry_not_end zl c es (length es') e Ha He) as (y & -> & Hy). cbn [mbind option_bind]. rewrite Hy.
      assert (k = S (length es')) as -> by (rewrite Ek; subst es; rewrite length_app; cbn; lia). done.
  - rewrite pos_head by done. destruct k as [|k]; [done|]. rewrite bool_decide_false by done.
    destruct (lookup_lt_is_Some_2 es (S k)) as [e He]; [lia|]. rewrite (entry_prevlen _ _ _ _ _ Ha He).
    cbn [mbind option_bind]. destruct (lastlen_prev es (S k) Hk) as [El ->]. rewrite bool_decide_false by done. cbn [negb].
    rewrite El. do 2 f_equal. lia.
Qed.

(** What ziplistGet reports for the string [s]. *)
Definition reads_as (zl : bytes) (g : zget) (s : bytes) : Prop :=
  match g with
  | GetStr off n => load zl off n = Some s /\ zint s = None
  | GetInt v => in_s 64 v /\ s = sdec v
  end.

Lemma ecode_str s : ZIP_IS_STR (ecode s) = bool_decide (zint s = None).
Proof.
  unfold ecode. destruct (zint s) as [[v ec]|] eqn:E.
  - apply zint_inv in E as (_ & _ & Hh). by apply enc_holds_int in Hh as (-> & _).
  - by repeat case_match.
Qed.

(** The data of an entry inside the block. *)
Lemma entry_data zl c es k e : zl_at zl c es -> es !! k = Some e ->
  exists P Q, zl = P ++ edata e.2 ++ Q /\ zlen P = pos es k + (psz e.1 + zlen (ehead e.2)) /\
    zipEntry zl (pos es k) = Some (mk_zlentry (psz e.1) (lastlen 0 (take k es)) (zlen (ehead e.2)) (zlen (edata e.2))
      (psz e.1 + zlen (ehead e.2)) (ecode e.2) (pos es k)).
Proof.
  intros Ha Hk. destruct (entry_split _ _ _ _ _ Ha Hk) as (P & Q & Hz & HP & _ & Hp & _ & Hs).
  exists (P ++ prevfield e.1 (lastlen 0 (take k es)) ++ ehead e.2), Q. split_and!.
  - rewrite Hz. unfold ebytes, body. lapp.
  - rewrite !zlen_app, psz_prevfield. lia.
  - by apply (zipEntry_at zl P _ e Q).
Qed.

Lemma ziplistGet_spec zl c es k e : zl_at zl c es -> es !! k = Some e ->
  exists g, ziplistGet zl (Some (pos es k)) = Some (Some g) /\ reads_as zl g e.2.
Proof.
  intros Ha Hk. unfold ziplistGet. destruct (entry_not_end _ _ _ _ _ Ha Hk) as (x & -> & Hx).
  cbn [mbind option_bind]. rewrite Hx. destruct (entry_data _ _ _ _ _ Ha Hk) as (P & Q & Hz & HP & ->).
  cbn [mbind option_bind e_encoding headersize e_len]. rewrite ecode_str. unfold edata in *.
  destruct (zint e.2) as [[v ec]|] eqn:Ei.
  - rewrite bool_decide_false by done. pose proof Ei as (Hv & Es & Hh)%zint_inv.
    assert (ecode e.2 = ec) as -> by (unfold ecode; by rewrite Ei).
    rewrite (load_int_at zl P ec v Q) by done. exists (GetInt v). by split.
  - rewrite bool_decide_true by done. eexists. split; [done|]. cbn [reads_as]. split; [|done].
    by apply (load_at P e.2 Q).
Qed.

(** ** Comparison and search *)

Lemma compare_str zl P s Q q v r : zl = P ++ s ++ Q -> q = zlen P -> zlen s = zlen v ->
  exists m, memcmp (Z.to_nat (zlen v)) (zdrop q zl) (v ++ r) = Some m /\ (m =? 0) = bool_decide (s = v).
Proof.
  intros -> -> El. rewrite zdrop_app_r by done.
  assert (length s = length v) as El' by (unfold zlen in El; lia).
  replace (Z.to_nat (zlen v)) with (length v) by (unfold zlen; lia).
  destruct (memcmp_eq (length v) (s ++ Q) (v ++ r)) as (m & E & Hm); [rewrite length_app; lia..|].
  exists m. split; [done|]. rewrite take_app_length, <- El', take_app_length in Hm.
  case_bool_decide as Ed; [apply Z.eqb_eq; tauto|apply Z.eqb_neq; tauto].
Qed.

Lemma ziplistCompare_spec zl c es k e v r : zl_at zl c es -> es !! k = Some e ->
  ziplistCompare zl (pos es k) (v ++ r) (zlen v) = Some (bool_decide (e.2 = v)).
Proof.
  intros Ha Hk. unfold ziplistCompare. destruct (entry_not_end _ _ _ _ _ Ha Hk) as (x & -> & Hx).
  cbn [mbind option_bind]. rewrite Hx. destruct (entry_data _ _ _ _ _ Ha Hk) as (P & Q & Hz & HP & ->).
  cbn [mbind option_bind e_encoding headersize e_len]. rewrite ecode_str. unfold edata in *.
  destruct (zint e.2) as [[w ec]|] eqn:Ei.
  - rewrite bool_decide_false, try_encoding by done. cbn [mbind option_bind].
    assert (ecode e.2 = ec) as -> by (unfold ecode; by rewrite Ei).
    destruct (zint v) as [[w' ec']|] eqn:Ev.
    + pose proof Ei as (_ & _ & Hh)%zint_inv. rewrite (load_int_at zl P ec w Q) by done. cbn [mbind option_bind].
      f_equal. pose proof (zint_eq _ _ _ _ _ _ Ei Ev). case_bool_decide; [apply Z.eqb_eq|apply Z.eqb_neq]; tauto.
    + rewrite bool_decide_false; [done|]. intros <-. congruence.
  - rewrite bool_decide_true by done. destruct (Z.eqb_spec (zlen e.2) (zlen v)) as [El|El].
    + destruct (compare_str zl P e.2 Q (pos es k + (psz e.1 + zlen (ehead e.2))) v r Hz) as (m & -> & Hm); [done|done|].
      cbn [mbind option_bind]. by rewrite Hm.
    + rewrite bool_decide_false; [done|]. by intros <-.
Qed.

(** The cached encoding of the searched string in ziplistFind. *)
Definition cache_ok (v : bytes) (venc vll : Z) : Prop :=
  venc = 0 \/ match zint v with Some (w, ec) => venc = ec /\ vll = w | None => venc = UCHAR_MAX end.

Lemma find_int_spec zl P s Q q w ec v r venc vll :
  zint s = Some (w, ec) -> zl = P ++ int_bytes ec w ++ Q -> q = zlen P -> cache_ok v venc vll ->
  exists venc' vll', find_int zl q ec (v ++ r) (zlen v) venc vll = Some (bool_decide (s = v), venc', vll') /\
    cache_ok v venc' vll'.
Proof.
  intros Ei Hz Hq Hc. pose proof Ei as (_ & _ & Hh)%zint_inv. pose proof (load_int_at zl P ec w Q q Hh Hz Hq) as Hload.
  unfold find_int. rewrite try_encoding. cbn [mbind option_bind].
  assert (exists venc' vll', (if venc =? 0 then
      let '(vencoding, vll) := match zint v with Some (v, e) => (e, v) | None => (UCHAR_MAX, vll) end in
      if vencoding =? 0 then None else Some (vencoding, vll) else Some (venc, vll)) = Some (venc', vll') /\
    venc' <> 0 /\ cache_ok v venc' vll') as (venc' & vll' & -> & Hne & Hc').
  { destruct (Z.eqb_spec venc 0) as [->|Hv0].
    - unfold cache_ok. destruct (zint v) as [[w' ec']|] eqn:Ev.
      + pose proof Ev as (_ & _ & Hh')%zint_inv. destruct (enc_holds_int _ _ Hh') as (_ & _ & _ & He & _).
        exists ec', w'. rewrite (proj2 (Z.eqb_neq _ _) He). split; [done|]. split; [done|]. by right.
      + exists UCHAR_MAX, vll. split; [done|]. split; [done|]. by right.
    - exists venc, vll. by split_and!. }
  cbn [mbind option_bind]. destruct Hc' as [?|Hc']; [done|].
  destruct (zint v) as [[w' ec']|] eqn:Ev.
  - destruct Hc' as [-> ->]. pose proof Ev as (_ & _ & Hh')%zint_inv. destruct (enc_holds_int _ _ Hh') as (_ & _ & _ & _ & He).
    rewrite (proj2 (Z.eqb_neq ec' UCHAR_MAX) He). cbn [negb]. rewrite Hload. cbn [mbind option_bind].
    exists ec', w'. split; [|right; by rewrite Ev]. do 3 f_equal. pose proof (zint_eq _ _ _ _ _ _ Ei Ev).
    case_bool_decide; [apply Z.eqb_eq|apply Z.eqb_neq]; tauto.
  - rewrite Hc'. change (UCHAR_MAX =? UCHAR_MAX) with true. cbn [negb]. exists UCHAR_MAX, vll'.
    split; [|right; by rewrite Ev]. rewrite bool_decide_false; [done|]. intros <-. congruence.
Qed.

(** The entries ziplistFind looks at, counted from the current one. *)
Definition selected (skip cnt j : nat) : Prop := (cnt <= j)%nat /\ ((j - cnt) mod S skip)%nat = O.

Lemma selected_next skip j : selected skip 0 (S j) <-> selected skip skip j.
Proof.
  unfold selected. rewrite Nat.sub_0_r. destruct (Nat.le_gt_cases skip j) as [Hle|Hgt].
  - replace (S j) with ((j - skip) + 1 * S skip)%nat by lia. rewrite Nat.Div0.mod_add. split; [by intros [_ ?]|intros [_ ?]; split; [lia|done]].
  - rewrite Nat.mod_small by lia. split; [intros [_ ?]; lia|intros [? _]; lia].
Qed.

Lemma selected_skip skip cnt j : selected skip (S cnt) (S j) <-> selected skip cnt j.
Proof. unfold selected. replace (S j - S cnt)%nat with (j - cnt)%nat by lia. split; intros [? ?]; split; (lia || done). Qed.

(** The first selected string equal to [v], from entry [k] on. *)
Definition finds es (v : bytes) (k skip cnt : nat) (res : option Z) : Prop :=
  match res with
  | None => forall j, selected skip cnt j -> es.*2 !! (k + j)%nat <> Some v
  | Some p => exists j, p = pos es (k + j) /\ selected skip cnt j /\ es.*2 !! (k + j)%nat = Some v /\
      forall i, (i < j)%nat -> selected skip cnt i -> es.*2 !! (k + i)%nat <> Some v
  end.

Lemma finds_step es v k skip cnt cnt' res :
  (forall j, selected skip cnt (S j) <-> selected skip cnt' j) ->
  (selected skip cnt 0 -> es.*2 !! k <> Some v) -> finds es v (S k) skip cnt' res -> finds es v k skip cnt res.
Proof.
  intros Hs H0 Hf. destruct res as [p|]; cbn in *.
  - destruct Hf as (j & -> & Hj & Hv & Hmin). exists (S j). rewrite Nat.add_succ_r. split_and!; [done|by apply Hs|done|].
    intros [|i] Hi Hsel; [rewrite Nat.add_0_r; by apply H0|]. rewrite Nat.add_succ_r. apply Hmin; [lia|by apply Hs].
  - intros [|j] Hj; [rewrite Nat.add_0_r; by apply H0|]. rewrite Nat.add_succ_r. apply Hf. by apply Hs.
Qed.

Lemma find_loop_spec zl c es v r skip : zl_at zl c es -> Z.of_nat skip < 2147483648 ->
  forall n k fuel cnt venc vll, n = (length es - k)%nat -> (k <= length es)%nat -> (n < fuel)%nat -> cache_ok v venc vll ->
  exists res, find_loop fuel zl (pos es k) (v ++ r) (zlen v) (Z.of_nat skip) (Z.of_nat cnt) venc vll = Some res /\
    finds es v k skip cnt res.
Proof.
  intros Ha Hskip. induction n as [|n IH]; intros k [|fuel] cnt venc vll Hn Hk Hf Hc; [lia| |lia|]; cbn [find_loop];
    destruct (pos_byte zl c es k Ha Hk) as (x & -> & Hx); cbn [mbind option_bind]; rewrite Hx.
  - rewrite bool_decide_true by lia. exists None. split; [done|]. intros j _ E.
    apply lookup_lt_Some in E. rewrite length_fmap in E. lia.
  - rewrite bool_decide_false by lia. destruct (lookup_lt_is_Some_2 es k) as [e He]; [lia|].
    destruct (entry_split _ _ _ _ _ Ha He) as (P & Q & Hz & HP & _ & Hp & _ & Hsm).
    rewrite (prevsize_at zl P _ e Q _ Hz HP Hp). cbn [mbind option_bind].
    rewrite (decode_at zl (P ++ prevfield e.1 (lastlen 0 (take k es))) e.2 Q);
      [|rewrite Hz; unfold ebytes; lapp|rewrite zlen_app, psz_prevfield; lia|apply Hsm].
    cbn [mbind option_bind]. set (q := pos es k + psz e.1 + zlen (ehead e.2)).
    assert (q + zlen (edata e.2) = pos es (S k)) as Eq by (rewrite <- (pos_next es k e He), <- elen_eq; lia).
    assert (es.*2 !! k = Some e.2) as He2 by (by rewrite list_lookup_fmap, He).
    destruct cnt as [|cnt].
    + change (Z.of_nat 0 =? 0) with true. cbn match. rewrite ecode_str.
      assert (exists venc' vll', (if bool_decide (zint e.2 = None) then
          if zlen (edata e.2) =? zlen v then m ← memcmp (Z.to_nat (zlen v)) (zdrop q zl) (v ++ r); Some (m =? 0, venc, vll)
          else Some (false, venc, vll) else find_int zl q (ecode e.2) (v ++ r) (zlen v) venc vll) =
        Some (bool_decide (e.2 = v), venc', vll') /\ cache_ok v venc' vll') as (venc' & vll' & -> & Hc').
      { destruct (entry_data _ _ _ _ _ Ha He) as (P' & Q' & Hz' & HP' & _). unfold edata in *.
        destruct (zint e.2) as [[w ec]|] eqn:Ei.
        - rewrite bool_decide_false by done. assert (ecode e.2 = ec) as -> by (unfold ecode; by rewrite Ei).
          apply (find_int_spec zl P' e.2 Q' q w ec v r venc vll Ei Hz'); [lia|done].
        - rewrite bool_decide_true by done. exists venc, vll. split; [|done].
          destruct (Z.eqb_spec (zlen e.2) (zlen v)) as [El|El].
          + destruct (compare_str zl P' e.2 Q' q v r Hz') as (m & -> & Hm); [lia|done|]. cbn [mbind option_bind]. by rewrite Hm.
          + rewrite bool_decide_false; [done|]. by intros <-. }
      cbn [mbind option_bind].
      destruct (decide (e.2 = v)) as [Ev|Ev]; [rewrite bool_decide_true by done|rewrite bool_decide_false by done].
      * exists (Some (pos es k)). split; [done|]. exists O. rewrite Nat.add_0_r. split_and!; [done|split; [lia|apply Nat.Div0.mod_0_l]|by rewrite He2, Ev|lia].
      * rewrite Eq, i32_small by lia.
        destruct (IH (S k) fuel skip venc' vll') as (res & -> & Hres); [lia|lia|lia|done|].
        exists res. split; [done|]. apply (finds_step es v k skip 0 skip res); [apply selected_next| |done].
        intros _. rewrite He2. congruence.
    + rewrite (proj2 (Z.eqb_neq (Z.of_nat (S cnt)) 0)) by lia. rewrite Eq.
      replace (Z.of_nat (S cnt) - 1) with (Z.of_nat cnt) by lia.
      destruct (IH (S k) fuel cnt venc vll) as (res & -> & Hres); [lia|lia|lia|done|].
      exists res. split; [done|]. apply (finds_step es v k skip (S cnt) cnt res); [apply selected_skip| |done].
      intros [Hlt _]. lia.
Qed.

(** ** Creation and length *)

Lemma ziplistNew_spec : exists zl, ziplistNew = Some zl /\ zl_at zl 0 [].
Proof.
  unfold ziplistNew. change (ZIPLIST_HEADER_SIZE + ZIPLIST_END_SIZE) with 11.
  destruct (zsplit 4 (malloc 11)) as (t & r1 & E & Ht & Hr1); [rewrite zlen_malloc; lia|].
  rewrite zlen_malloc in Hr1 by lia. rewrite E.
  destruct (zsplit 4 r1) as (o & r2 & -> & Ho & Hr2); [lia|]. destruct (zsplit 2 r2) as (c & x & -> & Hc & Hx); [lia|].
  unfold set_ZIPLIST_BYTES. rewrite (store_at [] t (o ++ c ++ x)); [|done|done|done]. cbn [mbind option_bind app].
  unfold set_ZIPLIST_TAIL_OFFSET. rewrite (store_at (le_bytes 4 11) o (c ++ x)); [|done|done|done]. cbn [mbind option_bind].
  unfold set_ZIPLIST_LENGTH. rewrite (store_at (le_bytes 4 11 ++ le_bytes 4 10) c x); [|done|done|done]. cbn [mbind option_bind].
  rewrite (store_at ((le_bytes 4 11 ++ le_bytes 4 10) ++ le_bytes 2 0) x []); [|by rewrite app_nil_r, <- app_assoc|done|rewrite Hx; change (zlen [ZIP_END]) with 1; lia].
  eexists. split; [done|]. split; [done|done|by right|done].
Qed.

Lemma len_loop_spec zl c es : zl_at zl c es -> forall n k fuel l, n = (length es - k)%nat -> (k <= length es)%nat ->
  (n < fuel)%nat -> 0 <= l -> l + Z.of_nat n < 4294967296 ->
  len_loop fuel zl (pos es k) l = Some (l + Z.of_nat n).
Proof.
  intros Ha. induction n as [|n IH]; intros k [|fuel] l Hn Hk Hf Hl Hm; [lia| |lia|]; cbn [len_loop];
    destruct (pos_byte zl c es k Ha Hk) as (x & -> & Hx); cbn [mbind option_bind]; rewrite Hx.
  - rewrite bool_decide_true by lia. cbn [negb]. f_equal. lia.
  - rewrite bool_decide_false by lia. cbn [negb]. destruct (lookup_lt_is_Some_2 es k) as [e He]; [lia|].
    rewrite (entry_rawlen _ _ _ _ _ Ha He). cbn [mbind option_bind]. rewrite (pos_next es k e He), u32_small by lia.
    rewrite (IH (S k)) by lia. f_equal. lia.
Qed.

Lemma at_few zl c es : zl_at zl c es -> zlen es < 4294967296.
Proof. intros Ha. pose proof (at_total _ _ _ Ha). pose proof (elens_length es). lia. Qed.

Lemma ziplistLen_spec zl c es : zl_at zl c es ->
  exists zl' c', ziplistLen zl = Some (zlen es, zl') /\ zl_at zl' c' es.
Proof.
  intros Ha. pose proof (fuel_entries _ _ _ Ha) as Hf. pose proof (at_few _ _ _ Ha). pose proof (zlen_nonneg es).
  unfold ziplistLen. pose proof (cnt_range c (zlen es) ltac:(lia) (at_cnt _ _ _ Ha)) as Hc.
  assert (ZIPLIST_LENGTH zl = Some c) as -> by (rewrite (at_block _ _ _ Ha); by apply block_length).
  cbn [mbind option_bind]. unfold UINT16_MAX in *. destruct (Z.ltb_spec c 65535) as [Hlt|Hge].
  - exists zl, c. split; [|done]. destruct (at_cnt _ _ _ Ha) as [->|[-> _]]; [lia|done].
  - change ZIPLIST_HEADER_SIZE with (pos es 0).
    rewrite (len_loop_spec zl c es Ha (length es) 0) by (unfold zlen in *; lia). cbn [mbind option_bind].
    change (0 + Z.of_nat (length es)) with (zlen es).
    destruct (Z.ltb_spec (zlen es) 65535).
    + rewrite (at_block _ _ _ Ha). unfold block. rewrite set_length. cbn [mbind option_bind].
      eexists _, (zlen es). split; [done|]. destruct Ha as [_ Hch _ Hr]. split; [done|done|by right|done].
    + exists zl, c. by split.
Qed.

(** ** Merge *)

(** The two blocks behind each other under a new header, whichever is reallocated. *)
Lemma merge_blocks c1 c2 es1 es2 t o c (append : bool) (k : bytes -> option bytes) :
  let T1 := 11 + elens es1 in let T2 := 11 + elens es2 in
  let '(target, target_bytes, source, source_bytes) :=
    if append then (block c1 es1, T1, block c2 es2, T2) else (block c2 es2, T2, block c1 es1, T1) in
  (let target := realloc target (T1 + T2 - ZIPLIST_HEADER_SIZE - ZIPLIST_END_SIZE) in
   target ←
     (if append then
        b ← load source ZIPLIST_HEADER_SIZE (source_bytes - ZIPLIST_HEADER_SIZE);
        store target (target_bytes - ZIPLIST_END_SIZE) b
      else
        target ← memmove target (source_bytes - ZIPLIST_END_SIZE) ZIPLIST_HEADER_SIZE
                                (target_bytes - ZIPLIST_HEADER_SIZE);
        b ← load source 0 (source_bytes - ZIPLIST_END_SIZE);
        store target 0 b);
   target ← set_ZIPLIST_BYTES target t;
   target ← set_ZIPLIST_LENGTH target c;
   target ← set_ZIPLIST_TAIL_OFFSET target o;
   k target) = k (hd t o c ++ enc 0 es1 ++ enc 0 es2 ++ [ZIP_END]).
Proof.
  cbv zeta. unfold ZIPLIST_HEADER_SIZE, ZIPLIST_END_SIZE. set (T1 := 11 + elens es1). set (T2 := 11 + elens es2).
  pose proof (elens_nonneg es1). pose proof (elens_nonneg es2).
  unfold block. fold T1 T2. set (h1 := hd T1 _ c1). set (h2 := hd T2 _ c2).
  destruct append.
  - destruct (realloc_grow (h1 ++ enc 0 es1 ++ [ZIP_END]) (T1 + T2 - 10 - 1)) as (junk & -> & Hj & _).
    { rewrite !zlen_app, zlen_enc. change (zlen h1) with 10. change (zlen [ZIP_END]) with 1. lia. }
    rewrite !zlen_app, zlen_enc in Hj. change (zlen h1) with 10 in Hj. change (zlen [ZIP_END]) with 1 in Hj.
    rewrite (load_at h2 (enc 0 es2 ++ [ZIP_END]) []); [|lapp|done|len]. cbn [mbind option_bind].
    rewrite (store_at (h1 ++ enc 0 es1) ([ZIP_END] ++ junk) []); [|lapp|rewrite zlen_app, zlen_enc; change (zlen h1) with 10; lia
      |rewrite !zlen_app, zlen_enc; change (zlen [ZIP_END]) with 1; lia].
    cbn [mbind option_bind]. rewrite app_nil_r, <- app_assoc. subst h1.
    rewrite set_bytes. cbn [mbind option_bind]. rewrite set_length. cbn [mbind option_bind]. by rewrite set_tail.
  - destruct (realloc_grow (h2 ++ enc 0 es2 ++ [ZIP_END]) (T1 + T2 - 10 - 1)) as (junk & -> & Hj & _).
    { rewrite !zlen_app, zlen_enc. change (zlen h2) with 10. change (zlen [ZIP_END]) with 1. lia. }
    rewrite !zlen_app, zlen_enc in Hj. change (zlen h2) with 10 in Hj. change (zlen [ZIP_END]) with 1 in Hj.
    replace ((h2 ++ enc 0 es2 ++ [ZIP_END]) ++ junk) with (h2 ++ [] ++ (enc 0 es2 ++ [ZIP_END]) ++ junk ++ []) by (rewrite ?app_nil_r; lapp).
    rewrite memmove_right; [|done|lia|rewrite zlen_app, zlen_enc; change (zlen [ZIP_END]) with 1; lia].
    cbn [mbind option_bind]. rewrite (@zlen_nil Z), Z.add_0_l, app_nil_r. cbn [app].
    rewrite (load_at [] (h1 ++ enc 0 es1) [ZIP_END]); [|lapp|done|rewrite zlen_app, zlen_enc; change (zlen h1) with 10; lia].
    cbn [mbind option_bind]. set (g := ztake (zlen junk) _).
    assert (zlen g = elens es1) as Hg.
    { subst g. rewrite zlen_ztake; [lia|]. rewrite !zlen_app, zlen_enc. change (zlen [ZIP_END]) with 1. lia. }
    rewrite (store_at [] (h2 ++ g) (enc 0 es2 ++ [ZIP_END])); [|lapp|done|rewrite !zlen_app, zlen_enc; change (zlen h2) with 10; change (zlen h1) with 10; lia].
    cbn [mbind option_bind app]. rewrite <- app_assoc. subst h1.
    rewrite set_bytes. cbn [mbind option_bind]. rewrite set_length. cbn [mbind option_bind]. by rewrite set_tail.
Qed.

Definition merge_cnt (c1 c2 : Z) : Z := if c1 + c2 <? UINT16_MAX then c1 + c2 else UINT16_MAX.

Lemma merge_cnt_ok c1 c2 n1 n2 : 0 <= n1 -> 0 <= n2 -> cnt_ok c1 n1 -> cnt_ok c2 n2 -> cnt_ok (merge_cnt c1 c2) (n1 + n2).
Proof.
  unfold merge_cnt, cnt_ok, UINT16_MAX. intros ? ? [->|[-> ?]] [->|[-> ?]];
    match goal with |- context [ ?a <? ?b ] => destruct (Z.ltb_spec a b) end; lia.
Qed.

(** The cascade over the seam of two lists, the second of which is not empty. *)
Lemma merge_seam es1 r R c : chain_ok 0 es1 -> chain_ok 0 (r :: R) -> 0 <= c < 65536 ->
  11 + room (es1 ++ r :: R).*2 < 4294967296 ->
  exists es', __ziplistCascadeUpdate (hd (11 + elens (es1 ++ r :: R)) (tail_off (es1 ++ r :: R)) c ++ enc 0 es1 ++ enc 0 (r :: R) ++ [ZIP_END])
      (tail_off es1) = Some (block c es') /\ chain_ok 0 es' /\ es'.*2 = (es1 ++ r :: R).*2.
Proof.
  intros Hc1 Hc2 Hc Hroom. rewrite fmap_app, room_app in Hroom.
  destruct es1 as [|e A _] using rev_ind.
  - cbn [app enc] in *. destruct Hc2 as [Hp Hc2].
    destruct (cascade_update [] r 0 (elen r) R c (11 + elens (r :: R)) (10 + elens (removelast (r :: R)))) as (R' & E & Hch & Hss);
      [done|done|done|cbn [fmap list_fmap] in *; change (zlen (@nil Z)) with 0; change (room []) with 0 in *; lia|change (zlen (@nil Z)) with 0; lia..|].
    change (zlen (@nil Z)) with 0 in E. cbn [app] in E. change (tail_off []) with (10 + 0). unfold tail_off. rewrite <- app_assoc, E.
    exists (r :: R'). split_and!; [|by split|by rewrite !fmap_cons, Hss]. unfold block, tail_off. cbn [enc]. rewrite <- app_assoc. do 3 f_equal; lia.
  - apply chain_app in Hc1 as [HcA [Hp _]]. assert (zlen (enc 0 A) = elens A) as HA by apply zlen_enc.
    rewrite fmap_app, room_app in Hroom. pose proof (elens_room A).
    assert ((A ++ [e]) ++ r :: R = A ++ e :: r :: R) as -> by lapp.
    destruct (cascade_update (enc 0 A) e (lastlen 0 A) 0 (r :: R) c (11 + elens (A ++ e :: r :: R)) (tail_off (A ++ e :: r :: R)))
      as (R' & E & Hch & Hss); [done|done|done| |rewrite elens_app; lia|unfold tail_off; rewrite removelast_app, elens_app by done; lia|].
    { rewrite HA. change (room [e].*2) with (zlen (body e.2) + 5 + 0) in Hroom. rewrite fmap_cons.
      change (room (e.2 :: (r :: R).*2)) with (zlen (body e.2) + 5 + room (r :: R).*2). lia. }
    assert (tail_off (A ++ [e]) = 10 + zlen (enc 0 A)) as -> by (unfold tail_off; rewrite removelast_last; lia).
    rewrite enc_app. cbn [enc] in *. rewrite app_nil_r.
    replace ((enc 0 A ++ ebytes (lastlen 0 A) e) ++ (ebytes 0 r ++ enc (elen r) R) ++ [ZIP_END])
      with (enc 0 A ++ ebytes (lastlen 0 A) e ++ (ebytes 0 r ++ enc (elen r) R) ++ [ZIP_END]) by lapp.
    rewrite E. exists (A ++ e :: R'). split_and!.
    + unfold block, tail_off. rewrite enc_app, removelast_app, !elens_app by done. cbn [enc]. rewrite HA.
      replace (11 + (elens A + elens (e :: R'))) with (11 + elens A + elens (e :: R')) by lia.
      replace (10 + (elens A + elens (removelast (e :: R')))) with (10 + elens A + elens (removelast (e :: R'))) by lia. f_equal. lapp.
    + apply chain_app. by split.
    + by rewrite !fmap_app, !fmap_cons, Hss.
Qed.

Lemma merge_empty c : __ziplistCascadeUpdate (hd 11 10 c ++ [ZIP_END]) 10 = Some (block c []).
Proof.
  unfold __ziplistCascadeUpdate. rewrite get_bytes by lia. cbn [mbind option_bind cascade_loop].
  by rewrite (znth_at (hd 11 10 c) ZIP_END []).
Qed.

Lemma ziplistMerge_spec zl1 c1 es1 zl2 c2 es2 : zl_at zl1 c1 es1 -> zl_at zl2 c2 es2 -> (es2 = [] -> es1 = []) ->
  11 + room (es1 ++ es2).*2 < 4294967296 ->
  exists zl c es, ziplistMerge zl1 zl2 = Some zl /\ zl_at zl c es /\ es.*2 = es1.*2 ++ es2.*2.
Proof.
  intros H1 H2 Hne Hroom. pose proof (at_total _ _ _ H1). pose proof (at_total _ _ _ H2).
  pose proof (at_tail _ _ _ H1) as Ht1. pose proof (at_tail _ _ _ H2) as Ht2.
  destruct H1 as [-> Hc1 Hn1 _]. destruct H2 as [-> Hc2 Hn2 _].
  pose proof (zlen_nonneg es1) as Hz1. pose proof (zlen_nonneg es2) as Hz2.
  pose proof (cnt_range _ _ Hz1 Hn1) as Hr1. pose proof (cnt_range _ _ Hz2 Hn2) as Hr2.
  pose proof (merge_cnt_ok _ _ _ _ Hz1 Hz2 Hn1 Hn2) as Hcnt.
  unfold ziplistMerge. rewrite !block_bytes, !block_length by done. cbn [mbind option_bind].
  change (if c1 + c2 <? UINT16_MAX then c1 + c2 else UINT16_MAX) with (merge_cnt c1 c2). set (c := merge_cnt c1 c2) in *.
  rewrite Ht1, Ht2. cbn [mbind option_bind].
  set (T := 11 + elens es1 + (11 + elens es2) - ZIPLIST_HEADER_SIZE - ZIPLIST_END_SIZE).
  set (o := 11 + elens es1 - ZIPLIST_END_SIZE + (tail_off es2 - ZIPLIST_HEADER_SIZE)).
  pose proof (merge_blocks c1 c2 es1 es2 T o c (c1 >=? c2) (fun z => __ziplistCascadeUpdate z (tail_off es1))) as Hm.
  destruct (c1 >=? c2); cbv zeta in Hm; cbn match in Hm |- *; fold T in Hm; rewrite Hm; clear Hm;
    (enough (exists es', __ziplistCascadeUpdate (hd T o c ++ enc 0 es1 ++ enc 0 es2 ++ [ZIP_END]) (tail_off es1) = Some (block c es') /\
       chain_ok 0 es' /\ es'.*2 = (es1 ++ es2).*2) as (es' & E & Hch & Hss);
     [exists (block c es'), c, es'; rewrite fmap_app in *; split_and!; [done| |done]; split; [done|done| |by rewrite Hss];
      apply (f_equal zlen) in Hss; rewrite zlen_app, !zlen_fmap in Hss; by rewrite Hss|]).
  all: unfold ZIPLIST_HEADER_SIZE, ZIPLIST_END_SIZE in *.
  all: pose proof (cnt_range c (zlen es1 + zlen es2) ltac:(lia) Hcnt) as Hc.
  all: destruct es2 as [|r R].
  1,3: pose proof (Hne eq_refl); subst es1; exists []; split; [exact (merge_empty c)|done].
  all: assert (T = 11 + elens (es1 ++ r :: R)) as -> by (subst T; rewrite elens_app; lia).
  all: assert (o = tail_off (es1 ++ r :: R)) as -> by (subst o; unfold tail_off; rewrite removelast_app, elens_app by done; lia).
  all: by apply merge_seam.
Qed.

(** ** Sequences of operations *)

Inductive zl_op :=
| ZPush (s : bytes) (w : where_) | ZInsert (i : Z) (s : bytes) | ZDelete (i : Z)
| ZDeleteRange (i num : Z) | ZLen.

Definition run_zl_op (zl : bytes) (op : zl_op) : option bytes :=
  match op with
  | ZPush s w => ziplistPush zl s (zlen s) w
  | ZInsert i s =>
      p ← ziplistIndex zl i;
      match p with Some p => ziplistInsert zl p s (zlen s) | None => Some zl end
  | ZDelete i =>
      p ← ziplistIndex zl i;
      match p with Some p => '(zl, _) ← ziplistDelete zl p; Some zl | None => Some zl end
  | ZDeleteRange i num => ziplistDeleteRange zl i num
  | ZLen => '(_, zl) ← ziplistLen zl; Some zl
  end.

Fixpoint run_zl_ops (zl : bytes) (ops : list zl_op) : option bytes :=
  match ops with [] => Some zl | op :: ops => zl ← run_zl_op zl op; run_zl_ops zl ops end.

(** The same operations on a list of strings. *)
Definition abs_zl_op (ss : list bytes) (op : zl_op) : list bytes :=
  match op with
  | ZPush s ZIPLIST_HEAD => s :: ss
  | ZPush s ZIPLIST_TAIL => ss ++ [s]
  | ZInsert i s => match al_pos i (length ss) with Some k => take k ss ++ s :: drop k ss | None => ss end
  | ZDelete i => match al_pos i (length ss) with Some k => take k ss ++ drop (S k) ss | None => ss end
  | ZDeleteRange i num =>
      match al_pos i (length ss) with Some k => take k ss ++ drop (k + Z.to_nat num) ss | None => ss end
  | ZLen => ss
  end.

Definition zl_op_ok (op : zl_op) : Prop :=
  match op with
  | ZInsert i _ | ZDelete i => i <> -2147483648
  | ZDeleteRange i num => i <> -2147483648 /\ 0 <= num
  | _ => True
  end.

(** An upper bound of the bytes an operation adds. *)
Definition zl_cost (op : zl_op) : Z := match op with ZPush s _ | ZInsert _ s => zlen s + 14 | _ => 0 end.

Lemma room_cons s ss : room (s :: ss) = zlen (body s) + 5 + room ss.
Proof. done. Qed.

Lemma room_perm_insert ss1 s ss2 : room (ss1 ++ s :: ss2) <= room (ss1 ++ ss2) + (zlen s + 14).
Proof. rewrite !room_app, room_cons. destruct (body_size s) as (_ & _ & Hb). lia. Qed.

Lemma incr_ok c n : 0 <= n -> cnt_ok c n -> cnt_ok (incr_cnt c) (n + 1).
Proof.
  unfold incr_cnt, cnt_ok, UINT16_MAX. intros ? [->|[-> ?]]; [by left|].
  destruct (Z.ltb_spec n 65535); lia.
Qed.

Lemma decr_ok c n d : 0 <= d <= n -> cnt_ok c n -> cnt_ok (decr_cnt c d) (n - d).
Proof.
  unfold decr_cnt, cnt_ok, UINT16_MAX. intros ? [->|[-> ?]]; [by left|].
  destruct (Z.ltb_spec n 65535); lia.
Qed.

Lemma insert_at_pos zl c es k s : zl_at zl c es -> (k <= length es)%nat -> 11 + room es.*2 + (zlen s + 14) < 4294967296 ->
  exists zl', __ziplistInsert zl (pos es k) s (zlen s) = Some zl' /\ zrepr zl' (take k es.*2 ++ s :: drop k es.*2).
Proof.
  intros [-> Hc Hn Hr] Hk Hm. pose proof (zlen_nonneg es).
  assert (es = take k es ++ drop k es) as E by (by rewrite take_drop).
  assert (11 + room ((take k es).*2 ++ s :: (drop k es).*2) < 4294967296) as Hroom.
  { pose proof (room_perm_insert (take k es).*2 s (drop k es).*2) as Hp. rewrite <- fmap_app, take_drop in Hp. lia. }
  rewrite E in Hc. destruct (insert_entry_spec c (take k es) (drop k es) s [] Hc) as (x & R' & Hi & Hx & HR & Hch);
    [by apply (cnt_range c (zlen es))|done|].
  rewrite <- E, app_nil_r in Hi. exists (block (incr_cnt c) (take k es ++ x :: R')). split; [exact Hi|].
  apply zrepr_at. exists (incr_cnt c), (take k es ++ x :: R').
  assert ((take k es ++ x :: R').*2 = take k es.*2 ++ s :: drop k es.*2) as Ess
    by (rewrite fmap_app, fmap_cons, HR, Hx, fmap_take, fmap_drop; done).
  split; [|done]. split; [done|done| |].
  - assert (zlen (take k es ++ x :: R') = zlen es + 1) as ->; [|by apply incr_ok].
    apply (f_equal zlen) in HR. rewrite !zlen_fmap in HR. rewrite zlen_app, zlen_cons, HR.
    unfold zlen. rewrite length_take, length_drop. lia.
  - rewrite Ess. by rewrite fmap_take, fmap_drop in Hroom.
Qed.

Lemma delete_none zl c es k : zl_at zl c es -> (k < length es)%nat -> __ziplistDelete zl (pos es k) 0 = Some zl.
Proof.
  intros Ha Hk. destruct (lookup_lt_is_Some_2 es k Hk) as [e He]. unfold __ziplistDelete.
  destruct (entry_data _ _ _ _ _ Ha He) as (P & Q & _ & _ & ->). cbn [mbind option_bind delete_loop].
  destruct (entry_not_end _ _ _ _ _ Ha He) as (x & -> & Hx). cbn [mbind option_bind]. rewrite Hx. cbn [negb andb].
  change (0 <? 0) with false. cbn [mbind option_bind e_p]. rewrite Z.sub_diag. done.
Qed.

(** Deletion keeps the entries before [k] and therefore their offsets. *)
Lemma delete_keeps zl c es k num : zl_at zl c es -> (k < length es)%nat -> 0 <= num ->
  exists zl' c' es', __ziplistDelete zl (pos es k) num = Some zl' /\ zl_at zl' c' es' /\ take k es' = take k es /\
    es'.*2 = take k es.*2 ++ drop (k + Z.to_nat num) es.*2.
Proof.
  intros Ha Hk Hnum. destruct (Z.eq_dec num 0) as [->|Hn0].
  { exists zl, c, es. split; [by eapply delete_none|]. by rewrite Nat.add_0_r, take_drop. }
  destruct Ha as [-> Hc Hn Hr]. pose proof (zlen_nonneg es).
  set (A := take k es). set (D := take (Z.to_nat num) (drop k es)). set (R := drop (k + Z.to_nat num) es).
  assert (es = A ++ D ++ R) as E.
  { subst A D R. rewrite <- drop_drop, take_drop. by rewrite take_drop. }
  assert (length D = Nat.min (Z.to_nat num) (length es - k)) as HlD by (subst D; by rewrite length_take, length_drop).
  assert (zlen es = zlen A + zlen D + zlen R) as Hle by (rewrite E at 1; rewrite !zlen_app; lia).
  pose proof (zlen_nonneg A). pose proof (zlen_nonneg R).
  rewrite E in Hc, Hr. destruct (delete_entries_spec c A D R num) as (R' & Hi & HR & Hch); try done.
  - intros ED. rewrite ED in HlD. cbn in HlD. lia.
  - by apply (cnt_range c (zlen es)).
  - destruct Hn as [->|[-> _]]; [by left|right; lia].
  - unfold zlen. destruct (Nat.le_gt_cases (Z.to_nat num) (length es - k)); [left; lia|right].
    split; [subst R; apply drop_ge; lia|lia].
  - rewrite <- E in Hi. exists (block (decr_cnt c (zlen D)) (A ++ R')), (decr_cnt c (zlen D)), (A ++ R'). split; [exact Hi|].
    assert (length A = k) as HlA by (subst A; rewrite length_take; lia).
    split; [|split; [by apply take_app_length'|subst A R; by rewrite fmap_app, HR, fmap_take, fmap_drop]].
    split; [done|done| |].
    + assert (zlen (A ++ R') = zlen es - zlen D) as ->; [|apply decr_ok; [pose proof (zlen_nonneg D); lia|done]].
      apply (f_equal zlen) in HR. rewrite !zlen_fmap in HR. rewrite zlen_app, HR. lia.
    + rewrite fmap_app, HR, room_app. rewrite !fmap_app, !room_app in Hr. pose proof (room_nonneg D.*2). lia.
Qed.

Lemma delete_at_pos zl c es k num : zl_at zl c es -> (k < length es)%nat -> 0 <= num ->
  exists zl', __ziplistDelete zl (pos es k) num = Some zl' /\ zrepr zl' (take k es.*2 ++ drop (k + Z.to_nat num) es.*2).
Proof.
  intros Ha Hk Hnum. destruct (delete_keeps zl c es k num Ha Hk Hnum) as (zl' & c' & es' & E & Ha' & _ & Es).
  exists zl'. split; [done|]. apply zrepr_at. by exists c', es'.
Qed.

Lemma zrepr_index zl ss i : zrepr zl ss -> i <> -2147483648 ->
  exists c es, zl_at zl c es /\ es.*2 = ss /\ length es = length ss /\
    ziplistIndex zl i = Some (pos es <$> al_pos i (length ss)).
Proof.
  intros (c & es & Ha & <-)%zrepr_at Hi. exists c, es. rewrite length_fmap. split_and!; try done.
  by apply ziplistIndex_spec with c.
Qed.

Lemma al_pos_lt i n k : al_pos i n = Some k -> (k < n)%nat.
Proof. unfold al_pos. destruct (_ && _) eqn:E; [|done]. intros [= <-]. apply andb_true_iff in E. lia. Qed.

Lemma push_pos zl c es w : zl_at zl c es ->
  match w with ZIPLIST_HEAD => Some ZIPLIST_ENTRY_HEAD | ZIPLIST_TAIL => ZIPLIST_ENTRY_END zl end =
  Some (pos es (match w with ZIPLIST_HEAD => O | ZIPLIST_TAIL => length es end)).
Proof.
  intros Ha. destruct w; [done|]. unfold ZIPLIST_ENTRY_END. pose proof (at_total _ _ _ Ha).
  rewrite (at_block _ _ _ Ha), block_bytes by done. cbn [mbind option_bind]. unfold pos. rewrite firstn_all. f_equal. lia.
Qed.

Lemma run_zl_op_spec zl ss op : zrepr zl ss -> zl_op_ok op -> 11 + room ss + zl_cost op < 4294967296 ->
  exists zl', run_zl_op zl op = Some zl' /\ zrepr zl' (abs_zl_op ss op).
Proof.
  intros Hz Hok Hm. destruct op as [s w|i s|i|i num|]; cbn [run_zl_op abs_zl_op zl_cost zl_op_ok] in *.
  - apply zrepr_at in Hz as (c & es & Ha & <-). unfold ziplistPush. rewrite (push_pos zl c es w Ha). cbn [mbind option_bind].
    destruct (insert_at_pos zl c es (match w with ZIPLIST_HEAD => O | ZIPLIST_TAIL => length es end) s Ha) as (zl' & -> & Hz');
      [destruct w; lia|lia|]. exists zl'. split; [done|]. destruct w; [done|].
    by rewrite take_ge, drop_ge in Hz' by (rewrite length_fmap; lia).
  - destruct (zrepr_index zl ss i Hz Hok) as (c & es & Ha & <- & El & ->). cbn [mbind option_bind].
    destruct (al_pos i _) as [k|] eqn:Ek; cbn; [|by exists zl]. apply al_pos_lt in Ek. apply (insert_at_pos zl c es k s Ha); lia.
  - destruct (zrepr_index zl ss i Hz Hok) as (c & es & Ha & <- & El & ->). cbn [mbind option_bind].
    destruct (al_pos i _) as [k|] eqn:Ek; cbn; [|by exists zl]. apply al_pos_lt in Ek. unfold ziplistDelete.
    destruct (delete_at_pos zl c es k 1 Ha) as (zl' & -> & Hz'); [lia|lia|]. exists zl'. split; [done|].
    by rewrite Nat.add_1_r in Hz'.
  - destruct Hok as [Hi Hnum]. unfold ziplistDeleteRange.
    destruct (zrepr_index zl ss i Hz Hi) as (c & es & Ha & <- & El & ->). cbn [mbind option_bind].
    destruct (al_pos i _) as [k|] eqn:Ek; cbn; [|by exists zl]. apply al_pos_lt in Ek. apply (delete_at_pos zl c es k num Ha); lia.
  - apply zrepr_at in Hz as (c & es & Ha & <-). destruct (ziplistLen_spec zl c es Ha) as (zl' & c' & -> & Ha').
    exists zl'. split; [done|]. apply zrepr_at. by exists c', es.
Qed.

Lemma room_abs ss op : zl_op_ok op -> room (abs_zl_op ss op) <= room ss + zl_cost op.
Proof.
  intros Hok. assert (forall k j, (k <= j)%nat -> room (take k ss ++ drop j ss) <= room ss) as Hdel.
  { intros k j Hkj. rewrite room_app. assert (ss = take k ss ++ take (j - k) (drop k ss) ++ drop j ss) as E.
    { replace (drop j ss) with (drop (j - k) (drop k ss)) by (rewrite drop_drop; f_equal; lia). by rewrite !take_drop. }
    rewrite E at 3. rewrite !room_app. pose proof (room_nonneg (take (j - k) (drop k ss))). lia. }
  destruct op as [s [|]|i s|i|i num|]; cbn [abs_zl_op zl_cost]; try lia.
  - apply (room_perm_insert [] s ss).
  - pose proof (room_perm_insert ss s []) as Hp. rewrite app_nil_r in Hp. lia.
  - destruct (al_pos _ _) as [k|]; [|pose proof (zlen_nonneg s); lia].
    pose proof (room_perm_insert (take k ss) s (drop k ss)) as Hp. rewrite take_drop in Hp. lia.
  - destruct (al_pos _ _) as [k|]; [|lia]. specialize (Hdel k (S k)). lia.
  - destruct (al_pos _ _) as [k|]; [|lia]. specialize (Hdel k (k + Z.to_nat num)%nat). lia.
Qed.

Definition zl_total (ops : list zl_op) : Z := foldr (fun op n => zl_cost op + n) 0 ops.

Lemma zl_total_nonneg ops : 0 <= zl_total ops.
Proof.
  induction ops as [|op ops IH]; [done|]. cbn. fold (zl_total ops).
  assert (0 <= zl_cost op); [|lia]. destruct op; cbn; try lia; pose proof (zlen_nonneg s); lia.
Qed.

Lemma run_zl_ops_spec ops : forall zl ss, zrepr zl ss -> Forall zl_op_ok ops -> 11 + room ss + zl_total ops < 4294967296 ->
  exists zl', run_zl_ops zl ops = Some zl' /\ zrepr zl' (fold_left abs_zl_op ops ss).
Proof.
  induction ops as [|op ops IH]; intros zl ss Hz Hok Hm; cbn [run_zl_ops fold_left]; [by exists zl|].
  apply Forall_cons_1 in Hok as [Hop Hok]. cbn in Hm. fold (zl_total ops) in Hm. pose proof (zl_total_nonneg ops).
  destruct (run_zl_op_spec zl ss op Hz Hop) as (zl' & -> & Hz'); [lia|]. cbn [mbind option_bind].
  apply IH; [done|done|]. pose proof (room_abs ss op Hop). lia.
Qed.

End Nav.

