(* ===== verification/ZiplistProps.v ===== *)
(** * ziplist.c: the properties

    The contract of the ziplist for its callers, stated on the functions of
    Ziplist.v and proved from the lemmas of ZiplistSpec and ZiplistApi. *)

From stdpp Require Import base list numbers option.
From Stdlib Require Import ZArith Lia.
From S2P Require Import Prelude Util Ziplist ZiplistSpec ZiplistApi.

Section Links.
Context `{FreshMem}.

Lemma zl_new_repr : exists zl, ziplistNew = Some zl /\ zrepr zl [].
Proof. destruct ziplistNew_spec as (zl & Hn & Ha). exists zl. split; [done|]. apply zrepr_at. by exists 0, []. Qed.

Lemma run_new ops : Forall zl_op_ok ops -> 11 + zl_total ops < 4294967296 ->
  exists zl, (zl ← ziplistNew; run_zl_ops zl ops) = Some zl /\ zrepr zl (fold_left abs_zl_op ops []).
Proof.
  intros Hok Hm. destruct zl_new_repr as (zl & -> & Hz). cbn [mbind option_bind].
  apply run_zl_ops_spec; [done|done|]. cbn. lia.
Qed.

Lemma zl_at_len zl c es : zl_at zl c es -> zlen zl = 11 + elens es.
Proof. intros [-> _ _ _]. apply zlen_block. Qed.

Lemma al_pos_nonneg i n k : 0 <= i -> al_pos i n = Some k -> k = Z.to_nat i.
Proof. unfold al_pos. intros Hi. rewrite (proj2 (Z.ltb_ge i 0)) by done. destruct (_ && _); congruence. Qed.

(** What a client reads: the text of an entry, and the texts of the entries that a step leads to from [p] on. *)
Definition entry_text (zl : bytes) (p : Z) : option bytes :=
  g ← ziplistGet zl (Some p);
  g ← g;
  match g with GetStr off n => load zl off n | GetInt v => Some (sdec v) end.

Fixpoint zl_walk (step : bytes -> Z -> option (option Z)) (fuel : nat) (zl : bytes) (p : option Z) : option (list bytes) :=
  match p, fuel with
  | None, _ => Some []
  | Some _, O => None
  | Some p, S fuel => s ← entry_text zl p; q ← step zl p; ss ← zl_walk step fuel zl q; Some (s :: ss)
  end.

Lemma entry_text_spec zl c es k e : zl_at zl c es -> es !! k = Some e -> entry_text zl (pos es k) = Some e.2.
Proof.
  intros Ha He. unfold entry_text. destruct (ziplistGet_spec zl c es k e Ha He) as (g & -> & Hr). cbn [mbind option_bind].
  destruct g as [off n|v]; [apply Hr|]. destruct Hr as [_ ->]. done.
Qed.

Lemma walk_next zl c es : zl_at zl c es -> forall fuel k, (length es - k <= fuel)%nat -> zl_walk ziplistNext fuel zl (ptr es k) = Some (drop k es).*2.
Proof.
  intros Ha. induction fuel as [|fuel IH]; intros k Hf; unfold ptr; destruct (Nat.ltb_spec k (length es)) as [Hk|Hk]; cbn [zl_walk];
    [lia|by rewrite drop_ge by lia| |by rewrite drop_ge by lia].
  destruct (lookup_lt_is_Some_2 es k Hk) as [e He]. rewrite (entry_text_spec zl c es k e Ha He). cbn [mbind option_bind].
  rewrite (ziplistNext_spec zl c es k Ha Hk). cbn [mbind option_bind]. rewrite IH by lia. by rewrite (drop_S es e k He).
Qed.

Lemma walk_prev zl c es : zl_at zl c es -> forall fuel k, (k <= fuel)%nat -> (k <= length es)%nat ->
  zl_walk ziplistPrev fuel zl (match k with O => None | S j => Some (pos es j) end) = Some (rev (take k es).*2).
Proof.
  intros Ha. induction fuel as [|fuel IH]; intros [|k] Hf Hk; try lia; [done..|]. cbn [zl_walk].
  destruct (lookup_lt_is_Some_2 es k ltac:(lia)) as [e He]. rewrite (entry_text_spec zl c es k e Ha He). cbn [mbind option_bind].
  rewrite (ziplistPrev_spec zl c es k Ha) by lia. cbn [mbind option_bind]. rewrite IH by lia. rewrite (take_S_r es k e He), fmap_app, rev_app_distr. done.
Qed.

End Links.

(** C8. Ziplist. Starting from a new ziplist, any sequence of pushes at either end, insertions before the
    entry with an index, deletions by index and of ranges, and length queries completes without leaving the
    block as long as the strings pushed fit 32 bit sizes, and the block then holds the strings that the
    same operations on a list of strings give, whatever cascade of prevlen updates they caused. *)
Theorem ziplist_refines_list `{FreshMem} ops :
  Forall zl_op_ok ops -> 11 + zl_total ops < 4294967296 ->
  exists zl, (zl ← ziplistNew; run_zl_ops zl ops) = Some zl /\ zrepr zl (fold_left abs_zl_op ops []) /\
    exists zl', ziplistLen zl = Some (zlen (fold_left abs_zl_op ops []), zl').
Proof.
  intros Hok Hm. destruct (run_new ops Hok Hm) as (zl & Hr & Hz). exists zl. split_and!; [done|done|].
  apply zrepr_at in Hz as (c & es & Ha & <-). rewrite zlen_fmap.
  destruct (ziplistLen_spec zl c es Ha) as (zl' & c' & Hl & _). by exists zl'.
Qed.

(** C20. Ziplist. After any such sequence the list can be read in both directions: from ziplistIndex 0 on, ziplistNext and
    ziplistGet give the strings of the abstract list in their order, and from ziplistIndex -1 on, ziplistPrev and
    ziplistGet give the same strings in the reverse order; as many steps as the block has bytes are enough.  The
    byte count of the header is the size of the block.  So the entry lengths, the prevlen fields and the tail offset
    survive every cascade update. *)
Theorem ziplist_reads_both_ways `{FreshMem} ops :
  Forall zl_op_ok ops -> 11 + zl_total ops < 4294967296 ->
  exists zl, (zl ← ziplistNew; run_zl_ops zl ops) = Some zl /\ ZIPLIST_BYTES zl = Some (zlen zl) /\
    (p ← ziplistIndex zl 0; zl_walk ziplistNext (length zl) zl p) = Some (fold_left abs_zl_op ops []) /\
    (p ← ziplistIndex zl (-1); zl_walk ziplistPrev (length zl) zl p) = Some (rev (fold_left abs_zl_op ops [])).
Proof.
  intros Hok Hm. destruct (run_new ops Hok Hm) as (zl & Hr & (c & es & Ha & Hss)%zrepr_at). exists zl. split; [done|]. rewrite <- Hss.
  pose proof (zl_at_len _ _ _ Ha) as Hl. pose proof (fuel_entries _ _ _ Ha) as Hfuel. split; [|split].
  - rewrite Hl, (at_block _ _ _ Ha), block_bytes; [done|]. by apply at_total with zl c.
  - rewrite (ziplistIndex_spec zl c es) by done. cbn [mbind option_bind]. etransitivity; [|exact (walk_next zl c es Ha (length zl) 0 ltac:(lia))]. f_equal.
    unfold al_pos, ptr. by destruct es.
  - rewrite (ziplistIndex_spec zl c es) by done. cbn [mbind option_bind].
    pose proof (walk_prev zl c es Ha (length zl) (length es) ltac:(lia) ltac:(lia)) as E. rewrite firstn_all in E. rewrite <- E. f_equal.
    unfold al_pos. change (-1 <? 0) with true. cbv iota. destruct (length es) as [|n]; [done|]. replace (Z.of_nat (S n) + -1) with (Z.of_nat n) by lia.
    rewrite (proj2 (Z.leb_le 0 (Z.of_nat n))), (proj2 (Z.ltb_lt (Z.of_nat n) (Z.of_nat (S n)))) by lia. cbn [andb fmap option_fmap option_map]. by rewrite Nat2Z.id.
Qed.

(** Ziplist. ziplistIndex gives the entry an index names, from the head or, negative, from the tail,
    and NULL outside the list; ziplistGet at that entry returns the string stored there, or the integer
    whose decimal numeral it is. *)
Theorem ziplistIndex_get zl ss i :
  zrepr zl ss -> i <> -2147483648 ->
  match al_pos i (length ss) with
  | Some k => exists p g s, ziplistIndex zl i = Some (Some p) /\ ss !! k = Some s /\
      ziplistGet zl (Some p) = Some (Some g) /\ reads_as zl g s
  | None => ziplistIndex zl i = Some None
  end.
Proof.
  intros Hz Hi. destruct (zrepr_index zl ss i Hz Hi) as (c & es & Ha & <- & El & ->).
  destruct (al_pos i _) as [k|] eqn:Ek; [|done]. apply al_pos_lt in Ek.
  destruct (lookup_lt_is_Some_2 es k) as [e He]; [lia|].
  destruct (ziplistGet_spec zl c es k e Ha He) as (g & Hg & Hr). exists (pos es k), g, e.2.
  split_and!; try done. by rewrite list_lookup_fmap, He.
Qed.

(** Ziplist. From the entry with index i, ziplistNext goes to the entry with index i + 1 and
    ziplistPrev to the one with index i - 1; they return NULL at the ends. *)
Theorem ziplist_walk zl ss i p :
  zrepr zl ss -> 0 <= i -> ziplistIndex zl i = Some (Some p) ->
  ziplistNext zl p = ziplistIndex zl (i + 1) /\
  ziplistPrev zl p = (if i =? 0 then Some None else ziplistIndex zl (i - 1)).
Proof.
  intros (c & es & Ha & _)%zrepr_at Hi. rewrite !(ziplistIndex_spec zl c es) by (done || lia). intros Hp.
  destruct (al_pos i _) as [k|] eqn:Ek; [|done]. injection Hp as <-. pose proof (al_pos_lt _ _ _ Ek) as Hk.
  pose proof (al_pos_nonneg _ _ _ Hi Ek) as ->.
  rewrite (ziplistNext_spec zl c es _ Ha Hk), (ziplistPrev_spec zl c es) by (done || lia). unfold ptr. split.
  - unfold al_pos. rewrite (proj2 (Z.ltb_ge (i + 1) 0)) by lia. replace (Z.to_nat (i + 1)) with (S (Z.to_nat i)) by lia.
    destruct (Nat.ltb_spec (S (Z.to_nat i)) (length es)).
    + rewrite (proj2 (Z.leb_le _ _)), (proj2 (Z.ltb_lt _ _)) by lia. done.
    + rewrite (proj2 (Z.ltb_ge (i + 1) (Z.of_nat (length es)))), andb_false_r by lia. done.
  - destruct (Z.eqb_spec i 0) as [->|Hne]; [done|]. unfold al_pos. rewrite (proj2 (Z.ltb_ge (i - 1) 0)) by lia.
    rewrite (proj2 (Z.leb_le _ _)), (proj2 (Z.ltb_lt (i - 1) _)) by lia. cbn [andb fmap option_fmap option_map].
    by replace (Z.to_nat i) with (S (Z.to_nat (i - 1))) by lia.
Qed.

(** Ziplist. ziplistFind from the head, comparing every (skip + 1)-th entry, returns the first of
    those that holds the string searched for, whether it was stored as a string or as an integer, and
    NULL when none does. *)
Theorem ziplistFind_first zl ss v r skip :
  zrepr zl ss -> Z.of_nat skip < 2147483648 ->
  exists res, ziplistFind zl ZIPLIST_ENTRY_HEAD (v ++ r) (zlen v) (Z.of_nat skip) = Some res /\
  match res with
  | None => forall j, (j mod S skip = 0)%nat -> ss !! j <> Some v
  | Some p => exists j, (j mod S skip = 0)%nat /\ ss !! j = Some v /\ ziplistIndex zl (Z.of_nat j) = Some (Some p) /\
      forall i, (i < j)%nat -> (i mod S skip = 0)%nat -> ss !! i <> Some v
  end.
Proof.
  intros (c & es & Ha & <-)%zrepr_at Hs. unfold ziplistFind. pose proof (fuel_entries _ _ _ Ha).
  destruct (find_loop_spec zl c es v r skip Ha Hs (length es) 0 (S (length zl)) 0 0 0) as (res & Hf & Hr);
    [lia|lia|lia|by left|]. exists res. split; [exact Hf|]. unfold finds, selected in Hr. destruct res as [p|].
  - destruct Hr as (j & -> & [_ Hj] & Hv & Hfirst). rewrite Nat.sub_0_r in Hj. exists j. split_and!; [done|done| |].
    + rewrite (ziplistIndex_spec zl c es) by (done || lia). pose proof (lookup_lt_Some _ _ _ Hv) as Hlt.
      rewrite length_fmap in Hlt. unfold al_pos. rewrite (proj2 (Z.ltb_ge _ 0)) by lia.
      rewrite (proj2 (Z.leb_le _ _)), (proj2 (Z.ltb_lt _ _)) by lia. cbn. by rewrite Nat2Z.id.
    + intros i Hi Hm. apply (Hfirst i Hi). rewrite Nat.sub_0_r. split; [lia|done].
  - intros j Hj. apply (Hr j). rewrite Nat.sub_0_r. split; [lia|done].
Qed.

(** Ziplist. ziplistMerge of two ziplists, the second not empty unless both are, gives a ziplist that
    holds the strings of the first followed by those of the second, whichever of the two blocks it
    extends, as long as the result fits 32 bit sizes. *)
Theorem ziplistMerge_appends `{FreshMem} zl1 zl2 ss1 ss2 :
  zrepr zl1 ss1 -> zrepr zl2 ss2 -> (ss2 = [] -> ss1 = []) -> 11 + room (ss1 ++ ss2) < 4294967296 ->
  exists zl, ziplistMerge zl1 zl2 = Some zl /\ zrepr zl (ss1 ++ ss2).
Proof.
  intros (c1 & es1 & H1 & <-)%zrepr_at (c2 & es2 & H2 & <-)%zrepr_at He Hr.
  destruct (ziplistMerge_spec zl1 c1 es1 zl2 c2 es2 H1 H2) as (zl & c & es & Hm & Ha & Es).
  - intros ->. by eapply fmap_nil_inv, He.
  - by rewrite fmap_app.
  - exists zl. split; [done|]. apply zrepr_at. by exists c, es.
Qed.

(** Ziplist. Merging an empty ziplist behind a non-empty one leaves a tail offset that does not point
    to the last entry: the merged list of length 1 has no entry at index -1. *)
Theorem ziplistMerge_empty_second `{FreshMem} :
  exists zl1 zl2 zl, (zl ← ziplistNew; ziplistPush zl [97] 1 ZIPLIST_TAIL) = Some zl1 /\ ziplistNew = Some zl2 /\
    ziplistMerge zl1 zl2 = Some zl /\ ziplistLen zl = Some (1, zl) /\
    ziplistIndex zl 0 = Some (Some 10) /\ ziplistIndex zl (-1) = Some None.
Proof.
  eexists _, _, _. split_and!; [vm_compute; reflexivity..].
Qed.

(** ** Witnesses *)

Definition demo_zl_ops : list zl_op :=
  [ZPush [97; 98] ZIPLIST_TAIL; ZPush [49; 50] ZIPLIST_TAIL; ZPush (repeat 120 260) ZIPLIST_HEAD;
   ZInsert 1 [45; 55]; ZDelete 0; ZLen; ZPush (repeat 120 254) ZIPLIST_HEAD; ZDeleteRange (-2) 1].

Lemma ziplist_refines_list_witness :
  exists zl, (zl ← ziplistNew; run_zl_ops zl demo_zl_ops) = Some zl /\
    zrepr zl [repeat 120 254; [45; 55]; [49; 50]].
Proof.
  destruct (ziplist_refines_list demo_zl_ops) as (zl & Hr & Hz & _);
    [repeat constructor; discriminate|vm_compute; reflexivity|].
  exists zl. split; [exact Hr|exact Hz].
Defined.

Definition demo_zl : bytes := [20;0;0;0; 16;0;0;0; 3;0; 0;2;97;98; 4;248; 2;254;20; 255].
Definition demo_strings : list bytes := [[97; 98]; [55]; [50; 48]].

Lemma ziplist_reads_both_ways_witness :
  exists zl, (zl ← ziplistNew; run_zl_ops zl demo_zl_ops) = Some zl /\ ZIPLIST_BYTES zl = Some (zlen zl) /\
    (p ← ziplistIndex zl 0; zl_walk ziplistNext (length zl) zl p) = Some [repeat 120 254; [45; 55]; [49; 50]] /\
    (p ← ziplistIndex zl (-1); zl_walk ziplistPrev (length zl) zl p) = Some [[49; 50]; [45; 55]; repeat 120 254].
Proof.
  exact (ziplist_reads_both_ways demo_zl_ops ltac:(repeat constructor; discriminate) ltac:(vm_compute; reflexivity)).
Defined.

Lemma demo_zrepr : zrepr demo_zl demo_strings.
Proof.
  exists 3, [(false, [97; 98]); (false, [55]); (false, [50; 48])].
  split_and!; [vm_compute; reflexivity| |reflexivity|right; split; reflexivity|vm_compute; reflexivity].
  repeat (split; [vm_compute; intuition congruence|]); done.
Qed.

Lemma ziplistIndex_get_witness :
  exists p g s, ziplistIndex demo_zl (-1) = Some (Some p) /\ demo_strings !! 2%nat = Some s /\
    ziplistGet demo_zl (Some p) = Some (Some g) /\ reads_as demo_zl g s.
Proof. exact (ziplistIndex_get demo_zl demo_strings (-1) demo_zrepr ltac:(discriminate)). Defined.

Lemma ziplist_walk_witness :
  ziplistNext demo_zl 14 = ziplistIndex demo_zl 2 /\ ziplistPrev demo_zl 14 = ziplistIndex demo_zl 0.
Proof. exact (ziplist_walk demo_zl demo_strings 1 14 demo_zrepr ltac:(lia) ltac:(vm_compute; reflexivity)). Defined.

Lemma ziplistFind_first_witness :
  exists res, ziplistFind demo_zl ZIPLIST_ENTRY_HEAD [50; 48] 2 1 = Some res.
Proof.
  destruct (ziplistFind_first demo_zl demo_strings [50; 48] [] 1 demo_zrepr ltac:(lia)) as (res & Hf & _).
  exists res. exact Hf.
Defined.

Lemma ziplistMerge_appends_witness :
  exists zl, ziplistMerge demo_zl demo_zl = Some zl /\ zrepr zl (demo_strings ++ demo_strings).
Proof.
  apply (ziplistMerge_appends demo_zl demo_zl demo_strings demo_strings demo_zrepr demo_zrepr);
    [discriminate|vm_compute; reflexivity].
Defined.
