(* ===== verification/Object.v ===== *)
(** * String objects of object.c

    A string object is a raw string, a short string embedded in the object, or
    an integer kept in the pointer field.  The functions below create, encode,
    decode, compare and measure such objects.  The theorems say that a client
    sees the same string whatever the encoding is.  Not modelled: the type and lru
    fields and the freeing of objects. *)

From stdpp Require Import base list numbers option strings.
From Stdlib Require Import ZArith Lia.
From S2P Require Import Prelude Util Sds SdsText.

Definition OBJ_ENCODING_RAW : Z := 0.
Definition OBJ_ENCODING_INT : Z := 1.
Definition OBJ_ENCODING_HT : Z := 2.
Definition OBJ_ENCODING_ZIPLIST : Z := 5.
Definition OBJ_ENCODING_INTSET : Z := 6.
Definition OBJ_ENCODING_EMBSTR : Z := 8.

Definition OBJ_SHARED_INTEGERS : Z := 10000.
Definition OBJ_SHARED_REFCOUNT : Z := 2147483647.
Definition OBJ_STATIC_REFCOUNT : Z := 2147483646.
Definition OBJ_FIRST_SPECIAL_REFCOUNT : Z := OBJ_STATIC_REFCOUNT.
Definition OBJ_ENCODING_EMBSTR_SIZE_LIMIT : Z := 44.
Definition MAXMEMORY_FLAG_NO_SHARED_INTEGERS : Z := 3.

(** The [ptr] field, tagged with the encoding that says how to read it. *)
Inductive str_ptr := PtrRaw (s : sds) | PtrEmb (s : sds) | PtrInt (v : Z).
Record strobj := mk_str { o_ptr : str_ptr; refcount : Z }.

Definition str_encoding (o : strobj) : Z :=
  match o_ptr o with PtrRaw _ => OBJ_ENCODING_RAW | PtrEmb _ => OBJ_ENCODING_EMBSTR | PtrInt _ => OBJ_ENCODING_INT end.

(** The sds of a RAW or EMBSTR object. *)
Definition sdsEncodedObject (o : strobj) : option sds :=
  match o_ptr o with PtrRaw s | PtrEmb s => Some s | PtrInt _ => None end.

(** [None] is the panic on an object on the stack. *)
Definition incrRefCount (o : strobj) : option strobj :=
  if refcount o <? OBJ_FIRST_SPECIAL_REFCOUNT then Some (mk_str (o_ptr o) (refcount o + 1))
  else if refcount o =? OBJ_SHARED_REFCOUNT then Some o
  else if refcount o =? OBJ_STATIC_REFCOUNT then None
  else Some o.

(** server.c: the preallocated integers. *)
Definition shared_integer (value : Z) : strobj := mk_str (PtrInt value) OBJ_SHARED_REFCOUNT.

Definition isSdsRepresentableAsLongLong (s : bytes) : option Z := string2ll s.

Section Ops.
Context `{FreshMem}.
(** [server.maxmemory] and [server.maxmemory_policy]. *)
Context (maxmemory maxmemory_policy : Z).

Definition createRawStringObject (ptr : sds_init) (len : Z) : option strobj :=
  s ← sdsnewlen ptr len; Some (mk_str (PtrRaw s) 1).

(** The length fields of the embedded header have 8 bits. *)
Definition createEmbeddedStringObject (ptr : sds_init) (len : Z) : option strobj :=
  let b := malloc (len + 1) in
  b ← match ptr with
      | InitNoInit => store b len [0]
      | InitPtr p => src ← load p 0 len; b ← store b 0 src; store b len [0]
      | InitNull => Some (replicate (Z.to_nat (len + 1)) 0)
      end;
  Some (mk_str (PtrEmb (mk_sds SDS_TYPE_8 (u8 len) (u8 len) b)) 1).

Definition createStringObject (ptr : sds_init) (len : Z) : option strobj :=
  if len <=? OBJ_ENCODING_EMBSTR_SIZE_LIMIT then createEmbeddedStringObject ptr len
  else createRawStringObject ptr len.

Definition shared_allowed : bool :=
  (maxmemory =? 0) || (Z.land maxmemory_policy MAXMEMORY_FLAG_NO_SHARED_INTEGERS =? 0).

(** [long] has 64 bits, so the branch that prints the number is not taken. *)
Definition createStringObjectFromLongLongWithOptions (value : Z) (valueobj : bool) : option strobj :=
  let valueobj := if shared_allowed then false else valueobj in
  if (0 <=? value) && (value <? OBJ_SHARED_INTEGERS) && negb valueobj then incrRefCount (shared_integer value)
  else if (LLONG_MIN <=? value) && (value <=? LLONG_MAX) then Some (mk_str (PtrInt value) 1)
  else s ← sdsfromlonglong value; Some (mk_str (PtrRaw s) 1).

Definition createStringObjectFromLongLong (value : Z) : option strobj :=
  createStringObjectFromLongLongWithOptions value false.

Definition createStringObjectFromLongLongForValue (value : Z) : option strobj :=
  createStringObjectFromLongLongWithOptions value true.

Definition dupStringObject (o : strobj) : option strobj :=
  match o_ptr o with
  | PtrRaw s => createRawStringObject (InitPtr (buf s)) (sdslen s)
  | PtrEmb s => createEmbeddedStringObject (InitPtr (buf s)) (sdslen s)
  | PtrInt v => Some (mk_str (PtrInt v) 1)
  end.

(** The bytes of a string: [sdslen(s)] bytes from its start. *)
Definition sds_bytes (s : sds) : option bytes := load (buf s) 0 (sdslen s).

Definition isObjectRepresentableAsLongLong (o : strobj) : option (option Z) :=
  match o_ptr o with
  | PtrInt v => Some (Some v)
  | PtrRaw s | PtrEmb s => c ← sds_bytes s; Some (isSdsRepresentableAsLongLong c)
  end.

Definition trimStringObjectIfNeeded (o : strobj) : option strobj :=
  match o_ptr o with
  | PtrRaw s => if sdsavail s >? sdslen s / 10 then s ← sdsRemoveFreeSpace s; Some (mk_str (PtrRaw s) (refcount o)) else Some o
  | _ => Some o
  end.

(** The object that replaces [o], whose reference is dropped. *)
Definition tryObjectEncoding (o : strobj) : option strobj :=
  match sdsEncodedObject o with
  | None => Some o
  | Some s =>
      if refcount o >? 1 then Some o else
      let len := sdslen s in
      value ← (if len <=? 20 then c ← sds_bytes s; Some (string2l c) else Some None);
      match value with
      | Some value =>
          if shared_allowed && (0 <=? value) && (value <? OBJ_SHARED_INTEGERS) then incrRefCount (shared_integer value)
          else match o_ptr o with
               | PtrRaw _ => Some (mk_str (PtrInt value) (refcount o))
               | _ => createStringObjectFromLongLongForValue value
               end
      | None =>
          if len <=? OBJ_ENCODING_EMBSTR_SIZE_LIMIT then
            match o_ptr o with
            | PtrEmb _ => Some o
            | _ => createEmbeddedStringObject (InitPtr (buf s)) (sdslen s)
            end
          else trimStringObjectIfNeeded o
      end
  end.

(** The buffer of 32 bytes holds every 64 bit integer. *)
Definition getDecodedObject (o : strobj) : option strobj :=
  match o_ptr o with
  | PtrRaw _ | PtrEmb _ => incrRefCount o
  | PtrInt v =>
      '(_, b) ← ll2string (malloc 32) 32 v;
      len ← strlen b;
      createStringObject (InitPtr b) len
  end.

(** The characters and the length compareStringObjectsWithFlags works on. *)
Definition cmp_operand (o : strobj) : option (bytes * Z) :=
  match o_ptr o with
  | PtrRaw s | PtrEmb s => Some (buf s, sdslen s)
  | PtrInt v => '(n, b) ← ll2string (malloc 128) 128 v; Some (b, n)
  end.

(** With REDIS_COMPARE_BINARY; [same] tells whether [a] and [b] are one object. *)
Definition compareStringObjects (same : bool) (a b : strobj) : option Z :=
  if same then Some 0 else
  '(astr, alen) ← cmp_operand a;
  '(bstr, blen) ← cmp_operand b;
  let minlen := if alen <? blen then alen else blen in
  cmp ← memcmp (Z.to_nat minlen) astr bstr;
  if cmp =? 0 then Some (i32 (alen - blen)) else Some cmp.

Definition equalStringObjects (same : bool) (a b : strobj) : option bool :=
  match o_ptr a, o_ptr b with
  | PtrInt v, PtrInt w => Some (v =? w)
  | _, _ => r ← compareStringObjects same a b; Some (r =? 0)
  end.

Definition stringObjectLen (o : strobj) : Z :=
  match o_ptr o with PtrRaw s | PtrEmb s => sdslen s | PtrInt v => sdigits10 v end.

(** C_OK with the number, or C_ERR; a missing object counts as 0. *)
Definition getLongLongFromObject (o : option strobj) : option (option Z) :=
  match o with
  | None => Some (Some 0)
  | Some o =>
      match o_ptr o with
      | PtrRaw s | PtrEmb s => c ← sds_bytes s; Some (string2ll c)
      | PtrInt v => Some (Some v)
      end
  end.

(** The contents of [sdsfromlonglong(v)]. *)
Definition sds_of_ll (v : Z) : option bytes := s ← sdsfromlonglong v; sds_bytes s.

End Ops.

(** ** The string an object stands for *)

Definition str_repr (o : strobj) (c : bytes) : Prop :=
  match o_ptr o with
  | PtrRaw s => exists free, sds_repr s c free
  | PtrEmb s => sds_repr s c 0 /\ zlen c <= OBJ_ENCODING_EMBSTR_SIZE_LIMIT
  | PtrInt v => in_s 64 v /\ c = sdec v
  end.

Section Contents.
Context `{FreshMem} (mm mp : Z).

Lemma sds_bytes_repr s c free : sds_repr s c free -> sds_bytes s = Some c.
Proof. intros Hs. unfold sds_bytes. rewrite (at_len _ _ _ _ Hs). by eapply load_contents. Qed.

Lemma sds_of_ll_spec v : in_s 64 v -> v <> LLONG_MIN -> sds_of_ll v = Some (sdec v).
Proof.
  intros Hv Hmin. unfold sds_of_ll. destruct (sdsfromlonglong_decimal v Hv) as [Hs _]. destruct (Hs Hmin) as (s & -> & Hr).
  cbn [mbind option_bind]. by eapply sds_bytes_repr.
Qed.

(** A string object that is not an integer. *)
Lemma str_sds o c s : str_repr o c -> sdsEncodedObject o = Some s -> exists free, sds_repr s c free.
Proof. unfold str_repr, sdsEncodedObject. destruct (o_ptr o); intros Hr [= <-]; [done|]. by exists 0; destruct Hr. Qed.

Lemma embedded_spec p c : load p 0 (zlen c) = Some c -> zlen c <= OBJ_ENCODING_EMBSTR_SIZE_LIMIT ->
  exists o, createEmbeddedStringObject (InitPtr p) (zlen c) = Some o /\ str_repr o c /\ str_encoding o = OBJ_ENCODING_EMBSTR.
Proof.
  intros Hl Hc. unfold createEmbeddedStringObject, OBJ_ENCODING_EMBSTR_SIZE_LIMIT in *. rewrite Hl. cbn [mbind option_bind].
  pose proof (zlen_nonneg c). assert (zlen (malloc (zlen c + 1)) = zlen c + 1) as Hm by (rewrite zlen_malloc; lia).
  destruct (zsplit (zlen c) (malloc (zlen c + 1))) as (A & B & E & HA & _); [lia|]. rewrite E in *. rewrite zlen_app in Hm.
  assert (exists x, B = [x]) as [x ->] by (destruct B as [|x [|y B]]; rewrite ?zlen_nil, ?zlen_cons in Hm; [lia|by exists x|pose proof (zlen_nonneg B); lia]).
  rewrite (store_at [] A [x] (A ++ [x]) 0 c) by done. cbn [mbind option_bind app]. rewrite (store_at c [x] [] (c ++ [x]) (zlen c) [0]) by (by rewrite ?app_nil_r).
  cbn [mbind option_bind]. eexists. split; [done|]. split; [|done]. unfold str_repr. cbn [o_ptr]. assert (u8 (zlen c) = zlen c) as -> by (apply wrapu_small; unfold in_u; cbn; lia). split; [|done].
  split.
  - rewrite Z.add_0_r. apply hdr_n; cbn [flags hlen halloc]; unfold SDS_TYPE_8; try lia. change (2 ^ hdr_bits 1) with 256. lia.
  - exists []. split; [done|]. split; [done|by right].
Qed.

Lemma create_string_spec p c : load p 0 (zlen c) = Some c -> zlen c < SDS_BOUND ->
  exists o, createStringObject (InitPtr p) (zlen c) = Some o /\ str_repr o c.
Proof.
  intros Hl Hc. unfold createStringObject. destruct (Z.leb_spec (zlen c) OBJ_ENCODING_EMBSTR_SIZE_LIMIT).
  - destruct (embedded_spec p c Hl) as (o & E & Hr & _); [done|]. by exists o.
  - unfold createRawStringObject. destruct (newptr_spec p c (zlen c) Hl) as (s & -> & Hs); [pose proof (zlen_nonneg c); lia|].
    eexists. split; [done|]. by exists 0.
Qed.

Lemma sdec_bound v : in_s 64 v -> 0 <= zlen (sdec v) <= 20.
Proof. intros Hv. pose proof (sdec_length v Hv). pose proof (zlen_nonneg (sdec v)). unfold SDS_LLSTR_SIZE in *. lia. Qed.

Lemma from_ll_spec v b : in_s 64 v ->
  exists o, createStringObjectFromLongLongWithOptions mm mp v b = Some o /\ str_repr o (sdec v) /\ o_ptr o = PtrInt v.
Proof.
  intros Hv. unfold createStringObjectFromLongLongWithOptions. destruct (_ && negb _); [by exists (shared_integer v)|].
  unfold in_s in Hv. change (2 ^ (64 - 1)) with 9223372036854775808 in Hv. unfold LLONG_MIN, LLONG_MAX in *. zbool.
  cbn [andb]. eexists. split; [done|]. by split.
Qed.

(** An integer encoded string is never longer than 20 characters. *)
Lemma short_numeral c : string2l c = (if zlen c <=? 20 then string2l c else None).
Proof.
  destruct (Z.leb_spec (zlen c) 20) as [|Hl]; [done|]. unfold string2l. destruct (string2ll c) as [v|] eqn:E; [|done].
  apply string2ll_sound in E as [Hv ->]. pose proof (sdec_bound v Hv). lia.
Qed.

Lemma string2l_ll c : string2l c = string2ll c.
Proof.
  unfold string2l. destruct (string2ll c) as [v|] eqn:E; [|done]. apply string2ll_sound in E as [Hv _]. cbn [mbind option_bind].
  unfold in_s in Hv. change (2 ^ (64 - 1)) with 9223372036854775808 in Hv. unfold LLONG_MIN, LLONG_MAX. rewrite Z.gtb_ltb. by zbool.
Qed.

Lemma trim_object_spec o c : str_repr o c -> zlen c < SDS_BOUND ->
  exists o', trimStringObjectIfNeeded o = Some o' /\ str_repr o' c /\ str_encoding o' = str_encoding o.
Proof.
  intros Hr Hc. unfold trimStringObjectIfNeeded, str_encoding. destruct (o_ptr o) as [s|s|v] eqn:E; [|exists o; by rewrite E..].
  destruct (_ >? _); [|exists o; by rewrite E]. unfold str_repr in Hr. rewrite E in Hr. destruct Hr as [free Hs].
  destruct (remove_free_spec s c free Hs Hc) as (s' & -> & Hs'). eexists. split; [done|]. split; [by exists 0|done].
Qed.

Lemma try_encoding_spec o c : str_repr o c -> zlen c < SDS_BOUND ->
  exists o', tryObjectEncoding mm mp o = Some o' /\ str_repr o' c /\ (1 < refcount o -> o' = o) /\
    (refcount o <= 1 -> str_encoding o' = OBJ_ENCODING_INT <-> is_Some (string2ll c)).
Proof.
  intros Hr Hc. unfold tryObjectEncoding. destruct (sdsEncodedObject o) as [s|] eqn:Es.
  2:{ exists o. split_and!; try done. intros _. unfold str_repr, sdsEncodedObject, str_encoding in *. destruct (o_ptr o) as [| |v]; try done.
      destruct Hr as [Hv ->]. rewrite string2ll_complete by done. naive_solver. }
  destruct (str_sds o c s Hr Es) as [free Hs]. rewrite Z.gtb_ltb. destruct (Z.ltb_spec 1 (refcount o)) as [|Href]; [by exists o; split_and!; try done; lia|].
  match goal with |- exists o', ?e = _ /\ _ => enough (exists o', e = Some o' /\ str_repr o' c /\ (refcount o <= 1 -> str_encoding o' = OBJ_ENCODING_INT <-> is_Some (string2ll c))) as
    (o' & E' & Hr' & He') by (exists o'; split_and!; try done; lia) end.
  rewrite (at_len _ _ _ _ Hs), (sds_bytes_repr _ _ _ Hs). cbn [mbind option_bind].
  assert ((if zlen c <=? 20 then Some (string2l c) else Some None) = Some (string2ll c)) as ->.
  { rewrite <- string2l_ll, short_numeral. by destruct (zlen c <=? 20). }
  cbn [mbind option_bind]. destruct (string2ll c) as [v|] eqn:Ev.
  - apply string2ll_sound in Ev as [Hv ->].
    destruct (_ && _ && _); [exists (shared_integer v); split_and!; try done; by split|].
    destruct (o_ptr o); [eexists; split; [done|]; split_and!; [done|by split]| |];
      (unfold createStringObjectFromLongLongForValue; destruct (from_ll_spec v true Hv) as (o' & -> & Hr' & Ep); exists o'; split_and!; try done; unfold str_encoding; rewrite Ep; by split).
  - assert (forall o', str_encoding o' <> OBJ_ENCODING_INT -> str_encoding o' = OBJ_ENCODING_INT <-> is_Some (None : option Z)) as Hno
      by (intros o' Hne; split; [done|by intros []]).
    assert (str_encoding o <> OBJ_ENCODING_INT) as Ho by (unfold str_encoding, sdsEncodedObject in *; by destruct (o_ptr o)).
    destruct (Z.leb_spec (zlen c) OBJ_ENCODING_EMBSTR_SIZE_LIMIT) as [Hle|_].
    + destruct (embedded_spec (buf s) c) as (o' & E' & Hr' & Ee); [by eapply load_contents|done|].
      destruct (o_ptr o) eqn:Ep; [exists o'|by exists o; split_and!; auto|exists o']; (split_and!; [done..|]; intros _; apply Hno; by rewrite Ee).
    + destruct (trim_object_spec o c Hr Hc) as (o' & -> & Hr' & Ee). exists o'. split_and!; try done. intros _. apply Hno. by rewrite Ee.
Qed.

Lemma numeral_not_0 v : in_s 64 v -> 0 ∉ sdec v.
Proof.
  intros Hv Hin. unfold in_s in Hv. change (2 ^ (64 - 1)) with 9223372036854775808 in Hv.
  assert (forall w, 0 <= w < 10 ^ 20 -> 0 ∉ udec w) as Hu.
  { intros w Hw H0. pose proof (udec_digits w Hw) as Hd. rewrite Forall_forall in Hd. apply Hd in H0. lia. }
  unfold sdec in Hin. destruct (Z.ltb_spec v 0); [apply elem_of_cons in Hin as [|Hin]; [done|]|]; by eapply Hu; [|done]; lia.
Qed.

(** Printing a number into a local buffer of [n] bytes. *)
Lemma ll2string_local n v : in_s 64 v -> 21 <= n ->
  exists rest, ll2string (malloc n) n v = Some (zlen (sdec v), sdec v ++ 0 :: rest).
Proof.
  intros Hv Hn. rewrite ll2string_spec by (rewrite ?zlen_malloc; done || lia). pose proof (sdec_bound v Hv). zbool. by eexists.
Qed.

Lemma decoded_spec o c : str_repr o c -> refcount o <> OBJ_STATIC_REFCOUNT ->
  exists o', getDecodedObject o = Some o' /\ str_repr o' c /\ is_Some (sdsEncodedObject o').
Proof.
  intros Hr Hst. unfold getDecodedObject.
  assert (is_Some (sdsEncodedObject o) -> exists o', incrRefCount o = Some o' /\ str_repr o' c /\ is_Some (sdsEncodedObject o')) as Hi.
  { intros Hs. unfold incrRefCount. destruct (_ <? _); [by eexists|]. destruct (_ =? OBJ_SHARED_REFCOUNT); [by exists o|].
    destruct (Z.eqb_spec (refcount o) OBJ_STATIC_REFCOUNT); [done|by exists o]. }
  destruct (o_ptr o) as [s|s|v] eqn:Ep; [apply Hi; unfold sdsEncodedObject; by rewrite Ep..|]. clear Hi.
  unfold str_repr in Hr. rewrite Ep in Hr. destruct Hr as [Hv ->]. pose proof (sdec_bound v Hv).
  destruct (ll2string_local 32 v Hv ltac:(lia)) as (rest & ->). cbn [mbind option_bind].
  rewrite strlen_app by (by apply numeral_not_0). cbn [mbind option_bind].
  unfold createStringObject. assert ((zlen (sdec v) <=? OBJ_ENCODING_EMBSTR_SIZE_LIMIT) = true) as -> by (apply Z.leb_le; unfold OBJ_ENCODING_EMBSTR_SIZE_LIMIT; lia).
  destruct (embedded_spec (sdec v ++ 0 :: rest) (sdec v)) as (o' & -> & Hr' & Ee); [apply load_prefix|unfold OBJ_ENCODING_EMBSTR_SIZE_LIMIT; lia|].
  exists o'. split_and!; try done. unfold str_encoding, sdsEncodedObject in *. by destruct (o_ptr o').
Qed.

Lemma operand_spec o c : str_repr o c -> exists rest, cmp_operand o = Some (c ++ rest, zlen c).
Proof.
  intros Hr. unfold cmp_operand, str_repr in *.
  assert (forall s free, sds_repr s c free -> exists rest, Some (buf s, sdslen s) = Some (c ++ rest, zlen c)) as Hs.
  { intros s free Hs. rewrite (at_len _ _ _ _ Hs). destruct (at_buf _ _ _ _ Hs) as (j & -> & _). by eexists. }
  destruct (o_ptr o) as [s|s|v]; [destruct Hr as [free Hr]; by eapply Hs|destruct Hr as [Hr _]; by eapply Hs|].
  destruct Hr as [Hv ->]. destruct (ll2string_local 128 v Hv ltac:(lia)) as (rest & ->). by eexists.
Qed.

Lemma compare_spec a b c1 c2 : str_repr a c1 -> str_repr b c2 -> zlen c1 < 2147483648 -> zlen c2 < 2147483648 ->
  exists r, compareStringObjects false a b = Some r /\ Z.sgn r = sign_of (lex c1 c2).
Proof.
  intros H1 H2 Hl1 Hl2. unfold compareStringObjects. destruct (operand_spec a c1 H1) as (r1 & ->). destruct (operand_spec b c2 H2) as (r2 & ->).
  cbn [mbind option_bind].
  assert (Z.to_nat (if zlen c1 <? zlen c2 then zlen c1 else zlen c2) = Nat.min (length c1) (length c2)) as -> by (unfold zlen; zcase; lia).
  destruct (memcmp_lex c1 r1 c2 r2) as (m & -> & Hm). cbn [mbind option_bind].
  pose proof (zlen_nonneg c1). pose proof (zlen_nonneg c2). destruct (m =? 0); eexists; (split; [done|]).
  - rewrite <- Hm. rewrite i32_small by lia. zcase; [|zcase]; lia.
  - rewrite Hm. by destruct (lex c1 c2).
Qed.

Lemma sdigits10_sdec v : in_s 64 v -> sdigits10 v = zlen (sdec v).
Proof.
  intros Hv. unfold in_s in Hv. change (2 ^ (64 - 1)) with 9223372036854775808 in Hv. unfold sdigits10, sdec.
  destruct (Z.ltb_spec v 0); [|apply digits10_udec; unfold in_u; cbn; lia].
  rewrite zlen_cons. destruct (Z.eqb_spec v LLONG_MIN) as [->|]; [done|]. cbn [negb]. rewrite u64_id by lia.
  rewrite digits10_udec by (unfold in_u; cbn; lia). lia.
Qed.

Lemma strlen_spec o c : str_repr o c -> stringObjectLen o = zlen c.
Proof.
  intros Hr. unfold stringObjectLen, str_repr in *. destruct (o_ptr o) as [s|s|v].
  - destruct Hr as [free Hs]. by rewrite (at_len _ _ _ _ Hs).
  - destruct Hr as [Hs _]. by rewrite (at_len _ _ _ _ Hs).
  - destruct Hr as [Hv ->]. by apply sdigits10_sdec.
Qed.

Lemma getll_spec o c : str_repr o c -> getLongLongFromObject (Some o) = Some (string2ll c).
Proof.
  intros Hr. unfold getLongLongFromObject, str_repr in *. destruct (o_ptr o) as [s|s|v].
  - destruct Hr as [free Hs]. by rewrite (sds_bytes_repr _ _ _ Hs).
  - destruct Hr as [Hs _]. by rewrite (sds_bytes_repr _ _ _ Hs).
  - destruct Hr as [Hv ->]. by rewrite string2ll_complete.
Qed.

End Contents.

(** ** Properties *)

(** C31. Encoding a string object never changes the string it stands for: tryObjectEncoding completes, the object it
    returns holds the same bytes.  An object with more than one reference is returned as it is; the result for any other
    object is integer encoded exactly when its contents are the canonical numeral of a 64 bit integer. *)
Theorem tryObjectEncoding_same `{FreshMem} maxmemory policy o c :
  str_repr o c -> zlen c < SDS_BOUND ->
  exists o', tryObjectEncoding maxmemory policy o = Some o' /\ str_repr o' c /\ (1 < refcount o -> o' = o) /\
    (refcount o <= 1 -> str_encoding o' = OBJ_ENCODING_INT <-> is_Some (string2ll c)).
Proof. apply try_encoding_spec. Qed.

(** C32. Comparing, measuring and decoding string objects depends on the strings only and not on their encodings:
    compareStringObjects has the sign of the lexicographic order, equalStringObjects decides equality,
    stringObjectLen is the length, getLongLongFromObject parses the string, and getDecodedObject gives an
    object with the bytes in memory.  The lengths have to differ by less than 2^31, as the comparison
    returns their difference as an int. *)
Theorem string_objects_by_contents `{FreshMem} a b c1 c2 :
  str_repr a c1 -> str_repr b c2 -> zlen c1 < 2147483648 -> zlen c2 < 2147483648 -> refcount a <> OBJ_STATIC_REFCOUNT ->
  (exists r, compareStringObjects false a b = Some r /\ Z.sgn r = sign_of (lex c1 c2)) /\
  equalStringObjects false a b = Some (bool_decide (c1 = c2)) /\
  stringObjectLen a = zlen c1 /\ getLongLongFromObject (Some a) = Some (string2ll c1) /\
  (exists d, getDecodedObject a = Some d /\ str_repr d c1 /\ is_Some (sdsEncodedObject d)).
Proof.
  intros H1 H2 Hl1 Hl2 Hst. destruct (compare_spec a b c1 c2 H1 H2 Hl1 Hl2) as (r & Er & Hs).
  split_and!; [by exists r| |by apply strlen_spec|by apply getll_spec|by apply decoded_spec].
  assert ((r =? 0) = bool_decide (c1 = c2)) as Hd.
  { rewrite (bool_decide_ext (c1 = c2) (lex c1 c2 = Eq)) by (by rewrite lex_eq). destruct (lex c1 c2); cbn in Hs; destruct (Z.eqb_spec r 0); (done || lia). }
  unfold equalStringObjects. rewrite Er, <- Hd. unfold str_repr in H1, H2.
  destruct (o_ptr a) as [| |v]; [done..|]. destruct (o_ptr b) as [| |w]; [done..|].
  destruct H1 as [Hv ->], H2 as [Hw ->]. cbn [mbind option_bind]. rewrite Hd. f_equal. symmetry.
  destruct (Z.eqb_spec v w) as [->|Hne]; [by apply bool_decide_eq_true_2|]. apply bool_decide_eq_false_2. intros E. by apply Hne, sdec_inj.
Qed.

(** ** Concrete objects *)

Definition demo_raw : strobj := mk_str (PtrRaw (mk_sds SDS_TYPE_8 3 9 [45; 55; 48; 0; 1; 1; 1; 1; 1; 1])) 1.

Lemma demo_raw_repr : str_repr demo_raw (bytes_of_string "-70").
Proof.
  exists 6. split; [apply hdr_n; vm_compute; (done || split; congruence)|].
  exists [1; 1; 1; 1; 1; 1]. split; [done|]. split; [vm_compute; congruence|by right].
Qed.

Lemma tryObjectEncoding_same_witness :
  exists o', tryObjectEncoding 0 0 demo_raw = Some o' /\ str_repr o' (bytes_of_string "-70") /\ (1 < refcount demo_raw -> o' = demo_raw) /\
    (refcount demo_raw <= 1 -> str_encoding o' = OBJ_ENCODING_INT <-> is_Some (string2ll (bytes_of_string "-70"))).
Proof. exact (tryObjectEncoding_same 0 0 demo_raw (bytes_of_string "-70") demo_raw_repr ltac:(vm_compute; reflexivity)). Defined.

Lemma string_objects_by_contents_witness :
  (exists r, compareStringObjects false demo_raw (mk_str (PtrInt (-70)) 1) = Some r /\
     Z.sgn r = sign_of (lex (bytes_of_string "-70") (bytes_of_string "-70"))) /\
  equalStringObjects false demo_raw (mk_str (PtrInt (-70)) 1) = Some (bool_decide (bytes_of_string "-70" = bytes_of_string "-70")) /\
  stringObjectLen demo_raw = zlen (bytes_of_string "-70") /\
  getLongLongFromObject (Some demo_raw) = Some (string2ll (bytes_of_string "-70")) /\
  (exists d, getDecodedObject demo_raw = Some d /\ str_repr d (bytes_of_string "-70") /\ is_Some (sdsEncodedObject d)).
Proof.
  exact (string_objects_by_contents demo_raw (mk_str (PtrInt (-70)) 1) _ _ demo_raw_repr
    ltac:(split; [split; vm_compute; congruence|done]) ltac:(vm_compute; reflexivity) ltac:(vm_compute; reflexivity) ltac:(vm_compute; congruence)).
Defined.
