(* ===== verification/SetType.v ===== *)
(** * The set type of t_set.c

    A set object is an intset while all its elements are integers and there are
    few of them, and a dictionary without values otherwise.  The elements are
    byte strings: the contents of the sds the callers pass.  The model composes
    the models of intset.c, dict.c, sds.c and util.c the way t_set.c does; the
    theorems say that the object behaves as a finite set of strings whatever its
    encoding is, and that the conversion and the iterators lose nothing. *)

From stdpp Require Import base list numbers option strings gmap sets sorting.
From Stdlib Require Import ZArith Lia.
From S2P Require Import Prelude Util Intset Sds SdsText Object Dict DictMap DictIter.

(** The encoding of the object and what its pointer refers to. *)
Inductive set_obj := SetIntset (iset : intset) | SetHT (d : dict bytes unit).
Implicit Types (o : set_obj) (value ele : bytes) (X : gset bytes).

Definition set_obj_encoding o : Z :=
  match o with SetIntset _ => OBJ_ENCODING_INTSET | SetHT _ => OBJ_ENCODING_HT end.

Definition createSetObject : set_obj := SetHT dictCreate.
Definition createIntsetObject : set_obj := SetIntset intsetNew.

Definition setTypeCreate value : set_obj :=
  match isSdsRepresentableAsLongLong value with
  | Some _ => createIntsetObject
  | None => createSetObject
  end.

(** The iterator without its [subject], which is passed along. *)
Record setTypeIterator := mk_si { si_encoding : Z; si_ii : Z; si_di : @dictIterator bytes }.

Definition setTypeInitIterator o : setTypeIterator := mk_si (set_obj_encoding o) 0 dictGetIterator.

Definition setTypeSize o : Z :=
  match o with SetHT d => dictSize d | SetIntset iset => intsetLen iset end.

Section Ops.
Context `{DictType bytes} `{FreshMem}.
(** The global of dict.c, the limit of the configuration and the addresses of
    the two tables, which the fingerprint of an iterator hashes. *)
Context (dict_can_resize : bool) (set_max_intset_entries : Z) (a0 a1 : Z).

Definition setTypeReleaseIterator o (si : setTypeIterator) : option set_obj :=
  match o with
  | SetHT d => if si_encoding si =? OBJ_ENCODING_HT then d ← dictReleaseIterator a0 a1 d (si_di si); Some (SetHT d) else None
  | SetIntset _ => if si_encoding si =? OBJ_ENCODING_INTSET then Some o else None
  end.

(** The encoding and what is stored through [sdsele] and [llele], or -1.  The
    encoding the iterator remembers has to be the one of the object. *)
Definition setTypeNext o (si : setTypeIterator) : option (set_obj * setTypeIterator * option (Z * option bytes * Z)) :=
  match o with
  | SetHT d =>
      if si_encoding si =? OBJ_ENCODING_HT then
        '(d, di, de) ← dictNext a0 a1 d (si_di si);
        Some (SetHT d, mk_si (si_encoding si) (si_ii si) di,
              match de with None => None | Some he => Some (si_encoding si, Some he.1, -123456789) end)
      else None
  | SetIntset iset =>
      if si_encoding si =? OBJ_ENCODING_INTSET then
        v ← intsetGet iset (u32 (si_ii si));
        Some (o, mk_si (si_encoding si) (i32 (si_ii si + 1)) (si_di si),
              match v with None => None | Some llele => Some (si_encoding si, None, llele) end)
      else None
  end.

Definition setTypeNextObject o (si : setTypeIterator) : option (set_obj * setTypeIterator * option bytes) :=
  '(o, si, r) ← setTypeNext o si;
  match r with
  | None => Some (o, si, None)
  | Some (encoding, sdsele, intele) =>
      if encoding =? OBJ_ENCODING_INTSET then s ← sds_of_ll intele; Some (o, si, Some s)
      else if encoding =? OBJ_ENCODING_HT then s ← sdsele; Some (o, si, Some s)
      else None
  end.

(** The element drawn; [OutOfNumbers] when the random numbers run out. *)
Definition setTypeRandomElement o (rnd : list Z) : option (set_obj * option (Z * option bytes * Z)) :=
  match o with
  | SetHT d =>
      '(d, de) ← dictGetFairRandomKey d rnd;
      match de with
      | Entry he => Some (SetHT d, Some (OBJ_ENCODING_HT, Some he.1, -123456789))
      | NoEntry => None
      | OutOfNumbers => Some (SetHT d, None)
      end
  | SetIntset iset =>
      match rnd with
      | [] => Some (o, None)
      | r :: _ => llele ← intsetRandom iset r; Some (o, Some (OBJ_ENCODING_INTSET, None, llele))
      end
  end.

(** [while (setTypeNext(si,&element,&intele) != -1)] of the conversion. *)
Fixpoint convert_loop (fuel : nat) o (si : setTypeIterator) (d : dict bytes unit) :
    option (set_obj * setTypeIterator * dict bytes unit) :=
  match fuel with
  | O => None
  | S fuel =>
      '(o, si, r) ← setTypeNext o si;
      match r with
      | None => Some (o, si, d)
      | Some (_, _, intele) =>
          element ← sds_of_ll intele;
          '(d, ok) ← dictAdd dict_can_resize d element tt;
          if ok : bool then convert_loop fuel o si d else None
      end
  end.

(** One call of setTypeNext per element and one that answers -1. *)
Definition setTypeConvert o (enc : Z) : option set_obj :=
  match o with
  | SetIntset iset =>
      if enc =? OBJ_ENCODING_HT then
        '(d, _) ← dictExpand dictCreate (intsetLen iset);
        '(o, si, d) ← convert_loop (S (Z.to_nat (intsetLen iset))) o (setTypeInitIterator o) d;
        _ ← setTypeReleaseIterator o si;
        Some (SetHT d)
      else None
  | SetHT _ => None
  end.

Definition setTypeAdd o value : option (set_obj * bool) :=
  match o with
  | SetHT ht =>
      '(ht, r) ← dictAddRaw dict_can_resize ht value tt;
      match r with Slot _ => Some (SetHT ht, true) | _ => Some (SetHT ht, false) end
  | SetIntset iset =>
      match isSdsRepresentableAsLongLong value with
      | Some llval =>
          '(iset, success) ← intsetAdd iset llval;
          if success : bool then
            if intsetLen iset >? set_max_intset_entries then
              o ← setTypeConvert (SetIntset iset) OBJ_ENCODING_HT; Some (o, true)
            else Some (SetIntset iset, true)
          else Some (SetIntset iset, false)
      | None =>
          o ← setTypeConvert o OBJ_ENCODING_HT;
          match o with
          | SetHT ht => '(ht, ok) ← dictAdd dict_can_resize ht value tt; if ok : bool then Some (SetHT ht, true) else None
          | SetIntset _ => None
          end
      end
  end.

Definition setTypeRemove o value : option (set_obj * bool) :=
  match o with
  | SetHT d =>
      '(d, ok) ← dictDelete d value;
      if ok : bool then d ← resize_if_needed dict_can_resize d; Some (SetHT d, true) else Some (SetHT d, false)
  | SetIntset iset =>
      match isSdsRepresentableAsLongLong value with
      | Some llval => '(iset, success) ← intsetRemove iset llval; Some (SetIntset iset, success)
      | None => Some (o, false)
      end
  end.

(** dictFind may move a bucket, so the object is returned as well. *)
Definition setTypeIsMember o value : option (set_obj * bool) :=
  match o with
  | SetHT d => '(d, de) ← dictFind d value; Some (SetHT d, match de with Some _ => true | None => false end)
  | SetIntset iset =>
      match isSdsRepresentableAsLongLong value with
      | Some llval => b ← intsetFind iset llval; Some (o, b)
      | None => Some (o, false)
      end
  end.

End Ops.

(** ** The set an object stands for *)

Section Refinement.
Context `{DictType bytes} `{FreshMem} (can : bool) (max : Z) (a0 a1 : Z).

(** The numerals of a list of integers. *)
Definition numerals (l : list Z) : list bytes := sdec <$> l.

(** [set_elems o L]: the object holds the strings [L], in the order in which an
    iteration returns them.  The least 64 bit integer is excluded: its numeral
    cannot be made by sdsfromlonglong. *)
Inductive set_elems : set_obj -> list bytes -> Prop :=
  | ElemsInt iset l : Intset.repr iset l -> Forall (fun v => v <> LLONG_MIN) l -> set_elems (SetIntset iset) (numerals l)
  | ElemsHT d : dict_wf d -> set_elems (SetHT d) (entries d).*1.

Definition set_repr o X : Prop := exists L, set_elems o L /\ X = list_to_set L.

Lemma repr_64 iset l : Intset.repr iset l -> Forall (in_s 64) l.
Proof.
  intros Hr. eapply Forall_impl; [apply Hr|]. intros x. unfold in_s.
  destruct (repr_enc _ _ Hr) as [-> | [-> | ->]]; cbn; lia.
Qed.

Lemma numerals_in l v : Forall (in_s 64) l -> in_s 64 v -> sdec v ∈ numerals l <-> v ∈ l.
Proof.
  intros Hl Hv. unfold numerals. rewrite list_elem_of_fmap. split; [|by exists v].
  intros (w & E & Hw). rewrite Forall_forall in Hl. by rewrite (sdec_inj v w Hv (Hl w Hw) E).
Qed.

(** What is no canonical numeral is in no intset. *)
Lemma numerals_not_in l s : Forall (in_s 64) l -> string2ll s = None -> s ∉ numerals l.
Proof.
  intros Hl Hs (w & -> & Hw)%list_elem_of_fmap. rewrite Forall_forall in Hl. by rewrite string2ll_complete in Hs by auto.
Qed.

Lemma numerals_nodup l : StronglySorted Z.lt l -> Forall (in_s 64) l -> NoDup (numerals l).
Proof.
  induction 1 as [|x l Hs IH Hx]; intros Hl; [constructor|]. apply Forall_cons in Hl as [Hx64 Hl].
  constructor; [|by apply IH]. rewrite numerals_in by done. intros Hin.
  rewrite Forall_forall in Hx. apply Hx in Hin. lia.
Qed.

Lemma elems_nodup o L : set_elems o L -> NoDup L.
Proof. intros [iset l Hr _|d Hwf]; [apply numerals_nodup; [apply Hr|by eapply repr_64]|apply Hwf]. Qed.

Lemma set_size o X L : set_elems o L -> X = list_to_set L -> zlen L = Z.of_nat (base.size X).
Proof. intros He ->. rewrite size_list_to_set by (by eapply elems_nodup). done. Qed.

(** *** The dictionary encoding *)

Lemma ht_repr d m : dict_repr d m -> set_repr (SetHT d) (dom m).
Proof. intros [Hwf <-]. exists (entries d).*1. split; [by constructor|]. apply dom_list_to_map_L. Qed.

Lemma ht_inv d X : set_repr (SetHT d) X -> exists m, dict_repr d m /\ X = dom m.
Proof.
  intros (L & He & ->). inversion He; subst. exists (to_map d). split; [done|]. symmetry. apply dom_list_to_map_L.
Qed.

Lemma dom_size (m : gmap bytes unit) : base.size (dom m) = base.size m.
Proof. apply size_dom. Qed.

Lemma dom_fits (m : gmap bytes unit) : Z.of_nat (base.size (dom m)) <= INTSET_MAX -> fits m.
Proof. rewrite dom_size. unfold fits, INTSET_MAX, DICT_BOUND. lia. Qed.

(** *** Iteration *)

(** [set_upcoming o si L]: the iterator has still to return [L]. *)
Inductive set_upcoming : set_obj -> setTypeIterator -> list bytes -> Prop :=
  | UpInt iset A B di : Intset.repr iset (A ++ B) -> Forall (fun v => v <> LLONG_MIN) (A ++ B) ->
      set_upcoming (SetIntset iset) (mk_si OBJ_ENCODING_INTSET (zlen A) di) (numerals B)
  | UpHT d ii di l : reading a0 a1 d di l -> set_upcoming (SetHT d) (mk_si OBJ_ENCODING_HT ii di) l.*1.

Lemma set_upcoming_start o L : set_elems o L -> set_upcoming o (setTypeInitIterator o) L.
Proof.
  intros [iset l Hr Hm|d Hwf]; [by apply (UpInt iset [] l)|]. by apply UpHT, reading_start.
Qed.

(** What setTypeNext stores for the element [x]. *)
Definition stored o (sdsele : option bytes) (llele : Z) (x : bytes) : Prop :=
  match o with
  | SetHT _ => sdsele = Some x /\ llele = -123456789
  | SetIntset _ => sdsele = None /\ in_s 64 llele /\ llele <> LLONG_MIN /\ x = sdec llele
  end.

Lemma set_step_spec o si L : set_upcoming o si L ->
  exists si' r, setTypeNext a0 a1 o si = Some (o, si', r) /\
    match L with
    | [] => r = None /\ setTypeReleaseIterator a0 a1 o si' = Some o
    | x :: L => set_upcoming o si' L /\ exists s n, r = Some (set_obj_encoding o, s, n) /\ stored o s n x
    end.
Proof.
  intros [iset A B di Hr Hm|d ii di l Hrd]; cbn [setTypeNext si_encoding si_ii si_di set_obj_encoding Z.eqb Pos.eqb].
  - pose proof (zlen_nonneg A). pose proof (repr_max _ _ Hr) as Hmax. unfold INTSET_MAX in Hmax. rewrite zlen_app in Hmax.
    pose proof (zlen_nonneg B).
    rewrite u32_id by lia. destruct (intsetGet_in_order iset (A ++ B) (zlen A) Hr) as [-> _]; [lia|]. cbn [mbind option_bind].
    eexists _, _. split; [done|]. destruct B as [|x B]; cbn [numerals fmap list_fmap].
    + rewrite znth_nat by lia. rewrite lookup_ge_None_2 by (unfold zlen in *; rewrite length_app; cbn; lia). done.
    + rewrite (znth_at A x B) by done. rewrite zlen_cons in Hmax. pose proof (zlen_nonneg B). rewrite i32_small by lia.
      pose proof (repr_64 _ _ Hr) as H64. apply Forall_app in H64 as [_ [H64 _]%Forall_cons].
      apply Forall_app in Hm as Hm'. destruct Hm' as [_ [Hmx _]%Forall_cons].
      split; [|by eexists _, _]. replace (zlen A + 1) with (zlen (A ++ [x])) by len.
      apply UpInt; by rewrite <- app_assoc.
  - destruct (reading_next a0 a1 d di l Hrd) as (di' & -> & Hrd'). cbn [mbind option_bind].
    eexists _, _. split; [done|]. destruct l as [|[k []] l]; cbn [head fmap list_fmap fst].
    + split; [done|]. cbn [setTypeReleaseIterator si_encoding si_di Z.eqb Pos.eqb OBJ_ENCODING_HT]. by rewrite (reading_release _ _ _ _ _ Hrd').
    + split; [by apply UpHT|]. by eexists _, _.
Qed.

Lemma set_next_object_spec o si L : set_upcoming o si L ->
  exists si', setTypeNextObject a0 a1 o si = Some (o, si', head L) /\
    match L with [] => setTypeReleaseIterator a0 a1 o si' = Some o | x :: L => set_upcoming o si' L end.
Proof.
  intros Hu. destruct (set_step_spec o si L Hu) as (si' & r & E & Hn). exists si'. unfold setTypeNextObject. rewrite E.
  cbn [mbind option_bind]. destruct L as [|x L]; [by destruct Hn as [-> ?]|]. destruct Hn as [Hu' (s & n & -> & Hx)].
  destruct o as [iset|d]; cbn [set_obj_encoding Z.eqb Pos.eqb OBJ_ENCODING_HT OBJ_ENCODING_INTSET].
  - destruct Hx as (-> & Hn & Hmin & ->). by rewrite sds_of_ll_spec.
  - by destruct Hx as (-> & ->).
Qed.

(** *** Conversion *)

Lemma list_to_set_snoc (L : list bytes) x : list_to_set (L ++ [x]) = ({[x]} ∪ list_to_set L : gset bytes).
Proof. set_solver. Qed.

Lemma dict_add_new d m x : dict_repr d m -> fits m -> x ∉ dom m ->
  exists d', dictAdd can d x tt = Some (d', true) /\ dict_repr d' (<[x := tt]> m) /\ dom (<[x := tt]> m) = {[x]} ∪ dom m.
Proof.
  intros Hd Hf Hx. destruct (repr_add can d m x tt Hd Hf) as (d' & E & Hd'); [by apply not_elem_of_dom|].
  exists d'. split_and!; try done. by rewrite dom_insert_L.
Qed.

Lemma convert_loop_spec fuel o : forall si A B d m, set_obj_encoding o = OBJ_ENCODING_INTSET -> set_upcoming o si B ->
  NoDup (A ++ B) -> zlen (A ++ B) <= INTSET_MAX -> dict_repr d m -> dom m = list_to_set A -> (length B < fuel)%nat ->
  exists si' d' m', convert_loop can a0 a1 fuel o si d = Some (o, si', d') /\
    setTypeReleaseIterator a0 a1 o si' = Some o /\ dict_repr d' m' /\ dom m' = list_to_set (A ++ B).
Proof.
  induction fuel as [|fuel IH]; intros si A B d m Ho Hu Hn Hmax Hd Hm Hf; [lia|]. cbn [convert_loop].
  destruct (set_step_spec o si B Hu) as (si' & r & -> & Hnext). cbn [mbind option_bind]. destruct B as [|x B].
  - destruct Hnext as [-> Hrel]. rewrite app_nil_r. by eexists _, d, m.
  - destruct Hnext as [Hu' (s & n & -> & Hx)]. destruct o as [iset|]; [|done]. destruct Hx as (_ & Hn64 & Hmin & ->).
    rewrite sds_of_ll_spec by done. cbn [mbind option_bind].
    rewrite zlen_app, zlen_cons in Hmax. pose proof (zlen_nonneg B).
    apply NoDup_app in Hn as Hn'. destruct Hn' as (HnA & Hdis & _).
    destruct (dict_add_new d m (sdec n) Hd) as (d1 & -> & Hd1 & Hm1).
    { apply dom_fits. rewrite Hm, size_list_to_set by done. unfold zlen in *. lia. }
    { rewrite Hm, elem_of_list_to_set. intros Hin. apply (Hdis _ Hin). by left. }
    cbn [mbind option_bind]. replace (A ++ sdec n :: B) with ((A ++ [sdec n]) ++ B) in * by (by rewrite <- app_assoc).
    apply (IH si' (A ++ [sdec n]) B d1 (<[sdec n := tt]> m) Ho Hu' Hn); [rewrite !zlen_app, zlen_cons, zlen_nil; lia|done|by rewrite Hm1, list_to_set_snoc, Hm|cbn in Hf; lia].
Qed.

Lemma convert_spec iset L : set_elems (SetIntset iset) L ->
  exists d m, setTypeConvert can a0 a1 (SetIntset iset) OBJ_ENCODING_HT = Some (SetHT d) /\ dict_repr d m /\ dom m = list_to_set L.
Proof.
  intros He. pose proof (set_upcoming_start _ _ He) as Hu. pose proof (elems_nodup _ _ He) as Hn.
  assert (intsetLen iset = zlen L /\ zlen L <= INTSET_MAX) as [El Hmax].
  { inversion He as [? l Hr|]; subst. unfold intsetLen, numerals, zlen. rewrite length_fmap, (repr_len _ _ Hr). split; [done|apply Hr]. }
  cbn [setTypeConvert Z.eqb Pos.eqb OBJ_ENCODING_HT]. rewrite El.
  destruct (expand_spec (dictCreate (K := bytes) (V := unit)) (zlen L)) as (d & b & -> & Hwf & Hent & _);
    [apply init_wf|unfold INTSET_MAX in *; lia|]. cbn [mbind option_bind].
  destruct (convert_loop_spec (S (Z.to_nat (zlen L))) (SetIntset iset) _ [] L d ∅ eq_refl Hu Hn Hmax) as (si' & d' & m' & -> & Hrel & Hd' & Hm');
    [split; [done|unfold to_map; by rewrite Hent]|by rewrite dom_empty_L|unfold zlen; lia|].
  cbn [mbind option_bind]. rewrite Hrel. by eexists d', m'.
Qed.

(** *** The operations *)

Lemma ht_add d m v : dict_repr d m -> Z.of_nat (base.size (dom m)) <= INTSET_MAX ->
  exists d' r, dictAddRaw can d v tt = Some (d', r) /\ set_repr (SetHT d') ({[v]} ∪ dom m) /\
    match r with Slot _ => true | _ => false end = bool_decide (v ∉ dom m).
Proof.
  intros Hd Hs. pose proof (dom_fits m Hs) as Hf. destruct (repr_addraw can d m v tt Hd Hf) as (d' & r & E & Hr).
  exists d', r. split; [done|]. destruct (m !! v) as [[]|] eqn:Em.
  - destruct Hr as [-> Hd']. assert (v ∈ dom m) as Hv by (by apply elem_of_dom_2 in Em).
    rewrite bool_decide_eq_false_2 by (by intros ?). replace ({[v]} ∪ dom m) with (dom m) by set_solver. split; [by apply ht_repr|done].
  - destruct Hr as [[i ->] Hd']. apply not_elem_of_dom in Em. rewrite bool_decide_eq_true_2 by done.
    split; [|done]. rewrite <- dom_insert_L with (x := tt). by apply ht_repr.
Qed.

(** An intset that holds the integers [l] is the set of their numerals. *)
Lemma int_repr iset l X : Intset.repr iset l -> Forall (fun v => v <> LLONG_MIN) l ->
  (forall x, x ∈ X <-> x ∈ numerals l) -> set_repr (SetIntset iset) X.
Proof.
  intros Hr Hm HX. exists (numerals l). split; [by constructor|]. apply sets.set_eq. intros x. by rewrite HX, elem_of_list_to_set.
Qed.

(** The numerals of an updated list. *)
Lemma numerals_add l l' v : (forall x, x ∈ l' <-> x = v \/ x ∈ l) -> forall x, x ∈ ({[sdec v]} ∪ list_to_set (numerals l) : gset bytes) <-> x ∈ numerals l'.
Proof.
  intros Hl x. rewrite elem_of_union, elem_of_singleton, elem_of_list_to_set. unfold numerals. rewrite !list_elem_of_fmap.
  setoid_rewrite Hl. naive_solver.
Qed.

Lemma numerals_remove l l' v : Forall (in_s 64) l -> in_s 64 v -> (forall x, x ∈ l' <-> x <> v /\ x ∈ l) ->
  forall x, x ∈ (list_to_set (numerals l) ∖ {[sdec v]} : gset bytes) <-> x ∈ numerals l'.
Proof.
  intros H64 Hv Hl x. rewrite elem_of_difference, elem_of_singleton, elem_of_list_to_set. unfold numerals. rewrite !list_elem_of_fmap.
  setoid_rewrite Hl. rewrite Forall_forall in H64. split.
  - intros [(y & -> & Hy) Hne]. exists y. split_and!; try done. congruence.
  - intros (y & -> & Hne & Hy). split; [by exists y|]. intros E. apply Hne. by apply sdec_inj; auto.
Qed.

Lemma add_repr o X v : set_repr o X -> Z.of_nat (base.size X) < INTSET_MAX -> v <> sdec LLONG_MIN ->
  exists o', setTypeAdd can max a0 a1 o v = Some (o', bool_decide (v ∉ X)) /\ set_repr o' ({[v]} ∪ X).
Proof.
  intros Hr Hs Hmin. destruct o as [iset|d].
  - destruct Hr as (L & He & ->). pose proof (set_size _ _ _ He eq_refl) as Hz. inversion He as [? l Hr Hm|]; subst.
    pose proof (repr_64 _ _ Hr) as H64. cbn [setTypeAdd]. unfold isSdsRepresentableAsLongLong.
    destruct (string2ll v) as [n|] eqn:En.
    + apply string2ll_sound in En as [Hn ->].
      assert (n <> LLONG_MIN) as Hn' by congruence.
      destruct (Intset.add_spec iset l n Hr) as (iset' & b & l' & -> & Hr' & Hb & _ & Hl'); [unfold zlen, numerals in *; rewrite length_fmap in Hz; lia|done|].
      cbn [mbind option_bind]. rewrite (bool_iff_decide b (sdec n ∉ (list_to_set (numerals l) : gset bytes))).
      2:{ rewrite Hb, elem_of_list_to_set. by rewrite numerals_in. }
      pose proof (numerals_add l l' n Hl') as HX.
      assert (Forall (fun v => v <> LLONG_MIN) l') as Hm'.
      { apply Forall_forall. intros x [->|Hx]%Hl'; [done|]. rewrite Forall_forall in Hm. by apply Hm. }
      destruct (bool_decide _); [|by eexists; split; [done|by eapply int_repr]].
      rewrite Z.gtb_ltb. destruct (max <? intsetLen iset'); [|by eexists; split; [done|by eapply int_repr]].
      destruct (convert_spec iset' (numerals l')) as (d & m & -> & Hd & Hdm); [by constructor|]. cbn [mbind option_bind].
      eexists. split; [done|]. replace (_ ∪ _) with (dom m); [by apply ht_repr|]. rewrite Hdm. apply sets.set_eq. intros x. by rewrite HX, elem_of_list_to_set.
    + destruct (convert_spec iset (numerals l) He) as (d & m & -> & Hd & Hdm). cbn [mbind option_bind].
      assert (v ∉ dom m) as Hv by (rewrite Hdm, elem_of_list_to_set; by apply numerals_not_in).
      destruct (dict_add_new d m v Hd) as (d' & -> & Hd' & Hm'); [apply dom_fits; rewrite Hdm; lia|done|]. cbn [mbind option_bind].
      rewrite <- Hdm. rewrite bool_decide_eq_true_2 by done. eexists. split; [done|]. rewrite <- Hm'. by apply ht_repr.
  - apply ht_inv in Hr as (m & Hd & ->). cbn [setTypeAdd]. destruct (ht_add d m v Hd) as (d' & r & -> & Hr' & <-); [lia|].
    cbn [mbind option_bind]. exists (SetHT d'). by destruct r.
Qed.

Lemma remove_repr o X v : set_repr o X -> Z.of_nat (base.size X) <= INTSET_MAX ->
  exists o', setTypeRemove can o v = Some (o', bool_decide (v ∈ X)) /\ set_repr o' (X ∖ {[v]}).
Proof.
  intros Hr Hs. destruct o as [iset|d].
  - destruct Hr as (L & He & ->). inversion He as [? l Hr Hm|]; subst. pose proof (repr_64 _ _ Hr) as H64.
    cbn [setTypeRemove]. unfold isSdsRepresentableAsLongLong. destruct (string2ll v) as [n|] eqn:En.
    + apply string2ll_sound in En as [Hn ->].
      destruct (Intset.remove_spec iset l n Hr Hn) as (iset' & b & l' & -> & Hr' & Hb & _ & Hl'). cbn [mbind option_bind].
      rewrite (bool_iff_decide b (sdec n ∈ (list_to_set (numerals l) : gset bytes))).
      2:{ rewrite Hb, elem_of_list_to_set. by rewrite numerals_in. }
      eexists. split; [done|]. apply (int_repr iset' l'); [done| |by apply numerals_remove].
      apply Forall_forall. intros x [_ Hx]%Hl'. rewrite Forall_forall in Hm. by apply Hm.
    + pose proof (numerals_not_in l v H64 En) as Hv. rewrite bool_decide_eq_false_2 by (by rewrite elem_of_list_to_set).
      eexists. split; [done|]. apply (int_repr iset l); [done..|]. intros x. rewrite elem_of_difference, elem_of_list_to_set. set_solver.
  - apply ht_inv in Hr as (m & Hd & ->). pose proof (dom_fits m Hs) as Hf. cbn [setTypeRemove].
    destruct (repr_delete_dom d m v Hd Hf) as (d' & -> & Hd'). cbn [mbind option_bind]. rewrite <- dom_delete_L.
    destruct (bool_decide (v ∈ dom m)); [|by eexists; split; [done|by apply ht_repr]].
    destruct (repr_resize_if can d' _ Hd') as (d'' & -> & Hd''); [by apply fits_delete|]. cbn [mbind option_bind].
    eexists; split; [done|by apply ht_repr].
Qed.

Lemma member_repr o X v : set_repr o X -> Z.of_nat (base.size X) <= INTSET_MAX ->
  exists o', setTypeIsMember o v = Some (o', bool_decide (v ∈ X)) /\ set_repr o' X.
Proof.
  intros Hr Hs. destruct o as [iset|d].
  - exists (SetIntset iset). split; [|done]. destruct Hr as (L & He & ->). inversion He as [? l Hr Hm|]; subst. pose proof (repr_64 _ _ Hr) as H64.
    cbn [setTypeIsMember]. unfold isSdsRepresentableAsLongLong. destruct (string2ll v) as [n|] eqn:En.
    + apply string2ll_sound in En as [Hn ->]. destruct (Intset.find_spec iset l n Hr Hn) as (b & -> & Hb). cbn [mbind option_bind].
      rewrite (bool_iff_decide b (sdec n ∈ (list_to_set (numerals l) : gset bytes))); [done|].
      rewrite Hb, elem_of_list_to_set. by rewrite numerals_in.
    + rewrite bool_decide_eq_false_2; [done|]. rewrite elem_of_list_to_set. by apply numerals_not_in.
  - apply ht_inv in Hr as (m & Hd & ->). pose proof (dom_fits m Hs) as Hf. cbn [setTypeIsMember].
    destruct (repr_find d m v Hd Hf) as (d' & -> & Hd'). cbn [mbind option_bind]. exists (SetHT d'). split; [|by apply ht_repr].
    rewrite (bool_decide_ext (v ∈ dom m) (is_Some (m !! v))) by apply elem_of_dom. by destruct (m !! v).
Qed.

Lemma size_repr o X : set_repr o X -> Z.of_nat (base.size X) <= INTSET_MAX -> setTypeSize o = Z.of_nat (base.size X).
Proof.
  intros (L & He & ->) Hs. rewrite <- (set_size _ _ _ He eq_refl) in *. destruct He as [iset l Hr _|d Hwf]; cbn [setTypeSize].
  - unfold intsetLen, numerals, zlen. by rewrite length_fmap, (repr_len _ _ Hr).
  - destruct (size_entries d Hwf) as [-> _]; unfold zlen in *; rewrite length_fmap in *; [unfold INTSET_MAX, DICT_BOUND in *; lia|done].
Qed.

Lemma random_repr o X rnd : set_repr o X -> Z.of_nat (base.size X) <= INTSET_MAX -> X <> ∅ -> Forall (fun r => 0 <= r) rnd ->
  exists o' r, setTypeRandomElement o rnd = Some (o', r) /\ set_repr o' X /\
    (forall enc s n, r = Some (enc, s, n) -> enc = set_obj_encoding o /\ exists x, stored o s n x /\ x ∈ X).
Proof.
  intros (L & He & ->) Hs Hne Hr. rewrite <- (set_size _ _ _ He eq_refl) in Hs. destruct He as [iset l Hi Hm|d Hwf]; cbn [setTypeRandomElement].
  - destruct rnd as [|r rnd]; [eexists _, None; split; [done|]; split; [|done]; eexists; split; [by constructor|done]|].
    assert (0 < zlen l) as Hl by (destruct l as [|x l]; [done|len]).
    destruct (znth_is_Some l (r mod zlen l)) as [x Hx]; [by apply Z.mod_pos_bound|]. unfold intsetRandom.
    rewrite (repr_len _ _ Hi). zbool. rewrite (repr_get _ _ _ _ Hi Hx). cbn [mbind option_bind].
    eexists _, _. split; [done|]. split; [eexists; split; [by constructor|done]|]. intros enc s n [= <- <- <-]. split; [done|].
    rewrite znth_nat in Hx by (by apply Z.mod_pos_bound). apply list_elem_of_lookup_2 in Hx. pose proof (repr_64 _ _ Hi) as H64.
    rewrite Forall_forall in H64, Hm. exists (sdec x). cbn [stored]. split; [by auto|]. rewrite elem_of_list_to_set. by apply list_elem_of_fmap_2.
  - unfold zlen in Hs. rewrite length_fmap in Hs.
    destruct (fair_spec d rnd Hwf) as (d' & r & -> & Hwf' & Hp & Hm); [unfold zlen, INTSET_MAX, DICT_BOUND in *; lia|done|].
    cbn [mbind option_bind]. assert (set_repr (SetHT d') (list_to_set (entries d).*1)) as Hr'.
    { exists (entries d').*1. split; [by constructor|]. apply list_to_set_perm_L. by rewrite Hp. }
    destruct r as [|he|]; [by rewrite Hm in Hne| |by eexists _, None].
    eexists _, _. split; [done|]. split; [done|]. intros enc s n [= <- <- <-]. split; [done|]. exists he.1. split; [done|].
    rewrite elem_of_list_to_set. by apply list_elem_of_fmap_2.
Qed.

End Refinement.

(** ** Properties *)

(** The operations of a client, and the finite set they act on.  An answer is
    the value the C function returns. *)
Inductive sop := SAdd (v : bytes) | SRemove (v : bytes) | SIsMember (v : bytes) | SSize.

Definition sop_value (op : sop) : option bytes :=
  match op with SAdd v | SRemove v | SIsMember v => Some v | SSize => None end.

Section Run.
Context `{DictType bytes} `{FreshMem} (can : bool) (max : Z) (a0 a1 : Z).

Definition run_sop o (op : sop) : option (set_obj * Z) :=
  match op with
  | SAdd v => '(o, b) ← setTypeAdd can max a0 a1 o v; Some (o, Z.b2z b)
  | SRemove v => '(o, b) ← setTypeRemove can o v; Some (o, Z.b2z b)
  | SIsMember v => '(o, b) ← setTypeIsMember o v; Some (o, Z.b2z b)
  | SSize => Some (o, setTypeSize o)
  end.

Fixpoint run_sops o (ops : list sop) : option (set_obj * list Z) :=
  match ops with
  | [] => Some (o, [])
  | op :: ops => '(o, r) ← run_sop o op; '(o, rs) ← run_sops o ops; Some (o, r :: rs)
  end.

Definition abs_sop X (op : sop) : gset bytes * Z :=
  match op with
  | SAdd v => ({[v]} ∪ X, Z.b2z (bool_decide (v ∉ X)))
  | SRemove v => (X ∖ {[v]}, Z.b2z (bool_decide (v ∈ X)))
  | SIsMember v => (X, Z.b2z (bool_decide (v ∈ X)))
  | SSize => (X, Z.of_nat (base.size X))
  end.

Fixpoint abs_sops X (ops : list sop) : gset bytes * list Z :=
  match ops with
  | [] => (X, [])
  | op :: ops => let '(X, r) := abs_sop X op in let '(X, rs) := abs_sops X ops in (X, r :: rs)
  end.

Lemma sop_repr o X op : set_repr o X -> Z.of_nat (base.size X) < INTSET_MAX -> sop_value op <> Some (sdec LLONG_MIN) ->
  exists o', run_sop o op = Some (o', (abs_sop X op).2) /\ set_repr o' (abs_sop X op).1 /\
    Z.of_nat (base.size (abs_sop X op).1) <= Z.of_nat (base.size X) + 1.
Proof.
  intros Hr Hs Hv. destruct op as [v|v|v|]; cbn [run_sop abs_sop fst snd sop_value] in *.
  - destruct (add_repr can max a0 a1 o X v Hr Hs) as (o' & -> & Hr'); [congruence|]. exists o'. split_and!; try done.
    pose proof (size_union_alt {[v]} X). rewrite size_singleton in *. pose proof (subseteq_size (X ∖ {[v]}) X ltac:(set_solver)). lia.
  - destruct (remove_repr can o X v Hr) as (o' & -> & Hr'); [lia|]. exists o'. split_and!; try done.
    pose proof (subseteq_size (X ∖ {[v]}) X ltac:(set_solver)). lia.
  - destruct (member_repr o X v Hr) as (o' & -> & Hr'); [lia|]. exists o'. split_and!; try done. lia.
  - rewrite (size_repr o X Hr) by lia. exists o. split_and!; try done. lia.
Qed.

Lemma sops_repr ops : forall o X, set_repr o X -> Z.of_nat (base.size X) + zlen ops <= INTSET_MAX ->
  Forall (fun op => sop_value op <> Some (sdec LLONG_MIN)) ops ->
  exists o', run_sops o ops = Some (o', (abs_sops X ops).2) /\ set_repr o' (abs_sops X ops).1.
Proof.
  induction ops as [|op ops IH]; intros o X Hr Hs Hv; [by exists o|]. apply Forall_cons in Hv as [Hv Hvs].
  rewrite zlen_cons in Hs. pose proof (zlen_nonneg ops). cbn [run_sops abs_sops].
  destruct (sop_repr o X op Hr ltac:(lia) Hv) as (o1 & -> & Hr1 & Hs1). cbn [mbind option_bind].
  destruct (abs_sop X op) as [X1 r]. cbn [fst snd] in *.
  destruct (IH o1 X1 Hr1 ltac:(lia) Hvs) as (o2 & -> & Hr2). cbn [mbind option_bind].
  destruct (abs_sops X1 ops) as [X2 rs]. by exists o2.
Qed.

Lemma set_create_repr v : set_repr (setTypeCreate v) ∅.
Proof.
  unfold setTypeCreate. destruct (isSdsRepresentableAsLongLong v).
  - exists (numerals []). split; [|done]. constructor; [apply Intset.new_repr|constructor].
  - replace ∅ with (dom (∅ : gmap bytes unit)) by apply dom_empty_L. apply ht_repr, repr_create.
Qed.

(** All the elements, by the iterator of the type. *)
Fixpoint set_iterate (fuel : nat) o (si : setTypeIterator) : option (list bytes * set_obj * setTypeIterator) :=
  match fuel with
  | O => None
  | S fuel =>
      '(o, si, e) ← setTypeNextObject a0 a1 o si;
      match e with
      | None => Some ([], o, si)
      | Some e => '(l, o, si) ← set_iterate fuel o si; Some (e :: l, o, si)
      end
  end.

Lemma set_iterate_spec fuel : forall o si L, set_upcoming a0 a1 o si L -> (length L < fuel)%nat ->
  exists si', set_iterate fuel o si = Some (L, o, si') /\ setTypeReleaseIterator a0 a1 o si' = Some o.
Proof.
  induction fuel as [|fuel IH]; intros o si L Hu Hf; [lia|]. cbn [set_iterate].
  destruct (set_next_object_spec a0 a1 o si L Hu) as (si1 & -> & Hn). cbn [mbind option_bind]. destruct L as [|x L]; cbn [head]; [by exists si1|].
  destruct (IH o si1 L Hn ltac:(cbn in Hf; lia)) as (si2 & -> & Hrel). by exists si2.
Qed.

End Run.

(** C10. The set type refines a finite set of byte strings: any sequence of additions, removals, membership tests
    and size queries on an object made for its first element completes, gives the answers of the mathematical
    set, and ends in an object that holds exactly its elements, across the conversions from intset to
    dictionary and the rehashing of the dictionary.  The least 64 bit integer is excluded, because
    sdsfromlonglong overflows on it. *)
Theorem set_refines `{DictType bytes} `{FreshMem} can max a0 a1 value ops :
  zlen ops <= INTSET_MAX -> Forall (fun op => sop_value op <> Some (sdec LLONG_MIN)) ops ->
  exists o, run_sops can max a0 a1 (setTypeCreate value) ops = Some (o, (abs_sops ∅ ops).2) /\
    set_repr o (abs_sops ∅ ops).1.
Proof. intros Hs Hv. apply sops_repr; [apply set_create_repr|rewrite size_empty; lia|done]. Qed.

(** An iteration over a set object with setTypeNextObject returns every element of the set exactly once in
    either encoding, and releasing the iterator leaves the object as it was. *)
Theorem set_iteration `{DictType bytes} `{FreshMem} a0 a1 o X :
  set_repr o X ->
  exists L si, set_iterate a0 a1 (S (base.size X)) o (setTypeInitIterator o) = Some (L, o, si) /\
    setTypeReleaseIterator a0 a1 o si = Some o /\ NoDup L /\ (forall x, x ∈ L <-> x ∈ X).
Proof.
  intros (L & He & ->). pose proof (elems_nodup _ _ He) as Hn.
  destruct (set_iterate_spec a0 a1 (S (base.size (list_to_set L : gset bytes))) o (setTypeInitIterator o) L) as (si & E & Hrel).
  { by apply set_upcoming_start. } { rewrite size_list_to_set by done. lia. }
  exists L, si. split_and!; try done. intros x. by rewrite elem_of_list_to_set.
Qed.

(** setTypeRandomElement on a non-empty set returns an element of it, tagged with the encoding the caller
    has to look at, and leaves the set unchanged, whatever the random numbers are. *)
Theorem setTypeRandomElement_member `{DictType bytes} `{FreshMem} o X rnd :
  set_repr o X -> Z.of_nat (base.size X) <= INTSET_MAX -> X <> ∅ -> Forall (fun r => 0 <= r) rnd ->
  exists o' r, setTypeRandomElement o rnd = Some (o', r) /\ set_repr o' X /\
    (forall enc s n, r = Some (enc, s, n) -> enc = set_obj_encoding o /\ exists x, stored o s n x /\ x ∈ X).
Proof. apply random_repr. Qed.

(** ** A concrete run

    An intset of integers that becomes a dictionary when "x" is added. *)
#[local] Existing Instance bytes_dict_type.

Definition demo_sops : list sop :=
  [SAdd (bytes_of_string "5"); SAdd (bytes_of_string "-7"); SAdd (bytes_of_string "5"); SIsMember (bytes_of_string "05"); SSize;
   SAdd (bytes_of_string "x"); SRemove (bytes_of_string "-7"); SIsMember (bytes_of_string "5"); SSize].

Definition demo_setobj : set_obj :=
  default createSetObject (fst <$> run_sops true 512 0 0 (setTypeCreate (bytes_of_string "5")) demo_sops).

Lemma set_refines_witness :
  exists o, run_sops true 512 0 0 (setTypeCreate (bytes_of_string "5")) demo_sops = Some (o, [1; 1; 0; 0; 2; 1; 1; 1; 2]) /\
    set_repr o (abs_sops ∅ demo_sops).1.
Proof.
  exact (set_refines true 512 0 0 (bytes_of_string "5") demo_sops ltac:(vm_compute; congruence)
    ltac:(repeat constructor; vm_compute; congruence)).
Defined.

Lemma demo_setobj_repr : set_repr demo_setobj {[bytes_of_string "5"; bytes_of_string "x"]}.
Proof.
  exists [bytes_of_string "x"; bytes_of_string "5"]. split; [|apply sets.set_eq; set_solver].
  destruct (sops_repr true 512 0 0 demo_sops (setTypeCreate (bytes_of_string "5")) ∅) as (o & E & L & He & _);
    [apply set_create_repr|vm_compute; congruence|repeat constructor; vm_compute; congruence|].
  assert (demo_setobj = o) as <- by (unfold demo_setobj; by rewrite E). revert He.
  assert (exists d, demo_setobj = SetHT d /\ (entries d).*1 = [bytes_of_string "x"; bytes_of_string "5"]) as (d & -> & <-) by (eexists; split; vm_compute; reflexivity).
  intros He. inversion He; subst. by constructor.
Qed.

Lemma set_iteration_witness :
  exists L si, set_iterate 0 0 3 demo_setobj (setTypeInitIterator demo_setobj) = Some (L, demo_setobj, si) /\
    setTypeReleaseIterator 0 0 demo_setobj si = Some demo_setobj /\ NoDup L /\
    (forall x, x ∈ L <-> x ∈ ({[bytes_of_string "5"; bytes_of_string "x"]} : gset bytes)).
Proof. exact (set_iteration 0 0 demo_setobj _ demo_setobj_repr). Defined.

Lemma setTypeRandomElement_member_witness :
  exists o' r, setTypeRandomElement demo_setobj [7; 3; 1; 2] = Some (o', r) /\ set_repr o' {[bytes_of_string "5"; bytes_of_string "x"]} /\
    (forall enc s n, r = Some (enc, s, n) -> enc = set_obj_encoding demo_setobj /\
      exists x, stored demo_setobj s n x /\ x ∈ ({[bytes_of_string "5"; bytes_of_string "x"]} : gset bytes)).
Proof.
  exact (setTypeRandomElement_member demo_setobj _ [7; 3; 1; 2] demo_setobj_repr ltac:(vm_compute; congruence)
    ltac:(set_solver) ltac:(repeat constructor; lia)).
Defined.
