(* ===== verification/SetAlgebra.v ===== *)
(** * Intersection, union and difference of sets (t_set.c)

    The work of SINTER, SUNION, SDIFF and their STORE variants, from the array of
    set objects the keys refer to up to the result.  The objects live in a store
    and the array holds references, since the same key may be given twice: the
    code compares pointers and modifies the objects it looks into.  The lookup of
    the keys and the reply to the client are not part of the model. *)

From stdpp Require Import base list numbers option strings gmap sets.
From Stdlib Require Import ZArith Lia.
From S2P Require Import Prelude Util Intset Sds SdsText Object Dict DictMap DictIter SetType.

(** The library function [qsort]: which permutation it computes for equal
    elements is unspecified. *)
Class Qsort := {
  qsort : forall {A : Type}, (A -> A -> Z) -> list A -> list A;
  qsort_perm : forall (A : Type) (cmp : A -> A -> Z) (l : list A), qsort cmp l ≡ₚ l
}.

Definition SET_OP_UNION : Z := 0.
Definition SET_OP_DIFF : Z := 1.

Implicit Types (st : gmap positive set_obj) (l : positive) (X Y : gset bytes).

Section Ops.
Context `{DictType bytes} `{FreshMem} `{Qsort} (dict_can_resize : bool) (set_max_intset_entries : Z).
(** The addresses of the tables of the dictionary at a reference. *)
Context (addr : positive -> Z * Z).

Definition card_at st l : Z := match st !! l with Some o => setTypeSize o | None => 0 end.

Definition qsortCompareSetsByCardinality st (s1 s2 : positive) : Z :=
  if card_at st s1 >? card_at st s2 then 1 else if card_at st s1 <? card_at st s2 then -1 else 0.

Definition opt_size st (s : option positive) : Z := match s with Some l => card_at st l | None => 0 end.

Definition qsortCompareSetsByRevCardinality st (s1 s2 : option positive) : Z :=
  let first := opt_size st s1 in
  let second := opt_size st s2 in
  if first <? second then 1 else if first >? second then -1 else 0.

Definition add_to (o : set_obj) (ele : bytes) : option (set_obj * bool) := setTypeAdd dict_can_resize set_max_intset_entries 0 0 o ele.

(** A membership test on the object at [l]. *)
Definition member_at st l (ele : bytes) : option (gmap positive set_obj * bool) :=
  o ← st !! l; '(o, b) ← setTypeIsMember o ele; Some (<[l := o]> st, b).

(** ** Intersection *)

(** [for (j = 1; j < setnum; j++)]: is the current element in all the other sets? *)
Fixpoint in_all st (s0 : positive) (rest : list positive) (encoding : Z) (elesds : option bytes) (intobj : Z) : option (gmap positive set_obj * bool) :=
  match rest with
  | [] => Some (st, true)
  | s :: rest =>
      if bool_decide (s = s0) then in_all st s0 rest encoding elesds intobj else
      o ← st !! s;
      '(st, found) ←
        (if encoding =? OBJ_ENCODING_INTSET then
           match o with
           | SetIntset iset => b ← intsetFind iset intobj; Some (st, b)
           | SetHT _ => ele ← sds_of_ll intobj; member_at st s ele
           end
         else if encoding =? OBJ_ENCODING_HT then ele ← elesds; member_at st s ele
         else Some (st, true));
      if found : bool then in_all st s0 rest encoding elesds intobj else Some (st, false)
  end.

(** The text of addReplyBulkLongLong. *)
Definition bulk_ll (v : Z) : option bytes := '(n, b) ← ll2string (malloc 64) 64 v; load b 0 n.

(** The locals of the loop over the first set: the elements sent so far, and the
    set that a STORE command builds. *)
Record inter_state := mk_inter { it_reply : list bytes; it_cardinality : Z; it_dst : set_obj }.

(** An element that all sets contain. *)
Definition take_element (dstkey : bool) (encoding : Z) (elesds : option bytes) (intobj : Z) (c : inter_state) : option inter_state :=
  if negb dstkey then
    ele ← (if encoding =? OBJ_ENCODING_HT then elesds else bulk_ll intobj);
    Some (mk_inter (it_reply c ++ [ele]) (it_cardinality c + 1) (it_dst c))
  else
    ele ← (if encoding =? OBJ_ENCODING_INTSET then sds_of_ll intobj else elesds);
    '(dst, _) ← add_to (it_dst c) ele;
    Some (mk_inter (it_reply c) (it_cardinality c) dst).

Fixpoint inter_loop (fuel : nat) (dstkey : bool) st (s0 : positive) (rest : list positive) (si : setTypeIterator) (c : inter_state) :
    option (gmap positive set_obj * setTypeIterator * inter_state) :=
  match fuel with
  | O => None
  | S fuel =>
      o ← st !! s0;
      '(o, si, r) ← setTypeNext (addr s0).1 (addr s0).2 o si;
      let st := <[s0 := o]> st in
      match r with
      | None => Some (st, si, c)
      | Some (encoding, elesds, intobj) =>
          '(st, all) ← in_all st s0 rest encoding elesds intobj;
          c ← (if all : bool then take_element dstkey encoding elesds intobj c else Some c);
          inter_loop fuel dstkey st s0 rest si c
      end
  end.

(** From the sorting of the array on, for a non-empty array without NULL. *)
Definition sinter (dstkey : bool) st (sets : list positive) : option (gmap positive set_obj * inter_state) :=
  match qsort (qsortCompareSetsByCardinality st) sets with
  | [] => None
  | s0 :: rest =>
      o ← st !! s0;
      '(st, si, c) ← inter_loop (S (Z.to_nat (setTypeSize o))) dstkey st s0 rest (setTypeInitIterator o) (mk_inter [] 0 createIntsetObject);
      o ← st !! s0;
      o ← setTypeReleaseIterator (addr s0).1 (addr s0).2 o si;
      Some (<[s0 := o]> st, c)
  end.

(** ** Union and difference *)

(** [while((ele = setTypeNextObject(si)) != NULL) ...] over the object at [l],
    with the body [f] acting on the store and the locals. *)
Fixpoint for_each {C : Type} (fuel : nat) (f : gmap positive set_obj -> bytes -> C -> option (gmap positive set_obj * C)) st l (si : setTypeIterator) (c : C) :
    option (gmap positive set_obj * setTypeIterator * C) :=
  match fuel with
  | O => None
  | S fuel =>
      o ← st !! l;
      '(o, si, e) ← setTypeNextObject (addr l).1 (addr l).2 o si;
      let st := <[l := o]> st in
      match e with
      | None => Some (st, si, c)
      | Some ele => '(st, c) ← f st ele c; for_each fuel f st l si c
      end
  end.

(** With the creation and the release of the iterator. *)
Definition iterate_set {C : Type} (f : gmap positive set_obj -> bytes -> C -> option (gmap positive set_obj * C)) st l (c : C) : option (gmap positive set_obj * C) :=
  o ← st !! l;
  '(st, si, c) ← for_each (S (Z.to_nat (setTypeSize o))) f st l (setTypeInitIterator o) c;
  o ← st !! l;
  o ← setTypeReleaseIterator (addr l).1 (addr l).2 o si;
  Some (<[l := o]> st, c).

(** The set built so far and its cardinality. *)
Definition dst_state : Type := set_obj * Z.

Definition add_element st (ele : bytes) (c : dst_state) : option (gmap positive set_obj * dst_state) :=
  '(dst, b) ← add_to c.1 ele; Some (st, (dst, if b : bool then c.2 + 1 else c.2)).

Definition remove_element st (ele : bytes) (c : dst_state) : option (gmap positive set_obj * dst_state) :=
  '(dst, b) ← setTypeRemove dict_can_resize c.1 ele; Some (st, (dst, if b : bool then c.2 - 1 else c.2)).

Fixpoint union_loop st (sets : list (option positive)) (c : dst_state) : option (gmap positive set_obj * dst_state) :=
  match sets with
  | [] => Some (st, c)
  | None :: sets => union_loop st sets c
  | Some l :: sets => '(st, c) ← iterate_set add_element st l c; union_loop st sets c
  end.

(** Algorithm 1, inner loop: is the element in none of the other sets? *)
Fixpoint in_none st (s0 : positive) (rest : list (option positive)) (ele : bytes) : option (gmap positive set_obj * bool) :=
  match rest with
  | [] => Some (st, true)
  | None :: rest => in_none st s0 rest ele
  | Some s :: rest =>
      if bool_decide (s = s0) then Some (st, false) else
      '(st, b) ← member_at st s ele;
      if b : bool then Some (st, false) else in_none st s0 rest ele
  end.

Definition diff_element (s0 : positive) (rest : list (option positive)) st (ele : bytes) (c : dst_state) : option (gmap positive set_obj * dst_state) :=
  '(st, none) ← in_none st s0 rest ele;
  if none : bool then '(dst, _) ← add_to c.1 ele; Some (st, (dst, c.2 + 1)) else Some (st, c).

(** Algorithm 2 after the first set was added; the loop over the sets ends when
    nothing is left. *)
Fixpoint diff_loop st (rest : list (option positive)) (c : dst_state) : option (gmap positive set_obj * dst_state) :=
  match rest with
  | [] => Some (st, c)
  | None :: rest => diff_loop st rest c
  | Some l :: rest =>
      '(st, c) ← iterate_set remove_element st l c;
      if c.2 =? 0 then Some (st, c) else diff_loop st rest c
  end.

(** The work of the two algorithms. *)
Fixpoint diff_work st (size0 : Z) (sets : list (option positive)) (one two : Z) : Z * Z :=
  match sets with
  | [] => (one, two)
  | None :: sets => diff_work st size0 sets one two
  | Some l :: sets => diff_work st size0 sets (i64 (one + size0)) (i64 (two + card_at st l))
  end.

Definition diff_algo st (s0 : positive) (sets : list (option positive)) : Z :=
  let '(one, two) := diff_work st (card_at st s0) sets 0 0 in
  if Z.quot one 2 <=? two then 1 else 2.

(** The sets, the result and its cardinality. *)
Definition sunionDiff st (sets : list (option positive)) (op : Z) : option (gmap positive set_obj * dst_state) :=
  let c := (createIntsetObject, 0) in
  if op =? SET_OP_UNION then union_loop st sets c
  else match sets with
  | Some s0 :: rest =>
      if diff_algo st s0 sets =? 1 then
        let rest := if 1 <? zlen sets then qsort (qsortCompareSetsByRevCardinality st) rest else rest in
        iterate_set (diff_element s0 rest) st s0 c
      else
        '(st, c) ← iterate_set add_element st s0 c;
        if c.2 =? 0 then Some (st, c) else diff_loop st rest c
  | _ => Some (st, c)
  end.

End Ops.

(** ** The sets a store holds *)

Section Spec.
Context `{DictType bytes} `{FreshMem} `{Qsort} (can : bool) (max : Z) (addr : positive -> Z * Z).
Context (Xs : gmap positive (gset bytes)).

(** The set at [l], empty when there is none. *)
Definition set_at l : gset bytes := default ∅ (Xs !! l).

Lemma set_at_lookup l X : Xs !! l = Some X -> set_at l = X.
Proof. unfold set_at. by intros ->. Qed.

Definition small_set X : Prop := Z.of_nat (base.size X) < INTSET_MAX /\ sdec LLONG_MIN ∉ X.

Definition holds st : Prop := forall l X, Xs !! l = Some X -> exists o, st !! l = Some o /\ set_repr o X /\ small_set X.

Lemma holds_insert st l o X : holds st -> Xs !! l = Some X -> set_repr o X -> holds (<[l := o]> st).
Proof.
  intros Hst HX Hr l' X' HX'. destruct (decide (l' = l)) as [->|].
  - rewrite lookup_insert_eq. exists o. split; [done|]. rewrite HX in HX'. injection HX' as <-. split; [done|].
    by destruct (Hst l X HX) as (? & _ & _ & ?).
  - rewrite lookup_insert_ne by done. by apply Hst.
Qed.

Lemma member_at_spec st l X x : holds st -> Xs !! l = Some X ->
  exists st', member_at st l x = Some (st', bool_decide (x ∈ X)) /\ holds st' /\ forall l', l' <> l -> st' !! l' = st !! l'.
Proof.
  intros Hst HX. destruct (Hst l X HX) as (o & Ho & Hr & Hsm & _). unfold member_at. rewrite Ho. cbn [mbind option_bind].
  destruct (member_repr o X x Hr) as (o' & -> & Hr'); [lia|]. cbn [mbind option_bind]. eexists. split; [done|].
  split; [by eapply holds_insert|]. intros l' Hl'. by rewrite lookup_insert_ne.
Qed.

Lemma find_int_repr iset X n : set_repr (SetIntset iset) X -> in_s 64 n -> intsetFind iset n = Some (bool_decide (sdec n ∈ X)).
Proof.
  intros (L & He & ->) Hn. inversion He as [? l Hr Hm|]; subst. destruct (Intset.find_spec iset l n Hr Hn) as (b & -> & Hb). f_equal.
  apply bool_iff_decide. rewrite Hb, elem_of_list_to_set. by rewrite (numerals_in l n (repr_64 _ _ Hr) Hn).
Qed.

(** ** Iteration *)

Section ForEach.
Context {C : Type} (f : gmap positive set_obj -> bytes -> C -> option (gmap positive set_obj * C)) (s0 : positive) (o0 : set_obj) (L : list bytes).
Context (Inv : list bytes -> gmap positive set_obj -> C -> Prop).
Hypothesis Hbody : forall A x B st c, L = A ++ x :: B -> Inv A st c -> st !! s0 = Some o0 ->
  exists st' c', f st x c = Some (st', c') /\ Inv (A ++ [x]) st' c' /\ st' !! s0 = Some o0.

Lemma for_each_spec fuel : forall si A B st c, set_upcoming (addr s0).1 (addr s0).2 o0 si B -> L = A ++ B -> st !! s0 = Some o0 -> Inv A st c ->
  (length B < fuel)%nat ->
  exists st' si' c', for_each addr fuel f st s0 si c = Some (st', si', c') /\ Inv L st' c' /\ st' !! s0 = Some o0 /\
    setTypeReleaseIterator (addr s0).1 (addr s0).2 o0 si' = Some o0.
Proof.
  induction fuel as [|fuel IH]; intros si A B st c Hu HL Ho HI Hf; [lia|]. cbn [for_each]. rewrite Ho. cbn [mbind option_bind].
  destruct (set_next_object_spec _ _ o0 si B Hu) as (si' & -> & Hn). cbn [mbind option_bind]. rewrite insert_id by done.
  destruct B as [|x B]; cbn [head]; [rewrite app_nil_r in HL; subst A; by exists st, si', c|].
  destruct (Hbody A x B st c HL HI Ho) as (st1 & c1 & -> & HI1 & Ho1). cbn [mbind option_bind].
  apply (IH si' (A ++ [x]) B st1 c1 Hn); [by rewrite <- app_assoc|done|done|cbn in Hf; lia].
Qed.

Lemma iterate_set_spec st c : set_elems o0 L -> zlen L <= INTSET_MAX -> st !! s0 = Some o0 -> Inv [] st c ->
  exists st' c', iterate_set addr f st s0 c = Some (st', c') /\ Inv L st' c' /\ st' !! s0 = Some o0.
Proof.
  intros He HL Ho HI. unfold iterate_set. rewrite Ho. cbn [mbind option_bind].
  assert (setTypeSize o0 = zlen L) as ->.
  { rewrite (size_repr o0 (list_to_set L)); [|by exists L|by rewrite <- (set_size o0 _ L He eq_refl)]. by rewrite <- (set_size o0 _ L He eq_refl). }
  destruct (for_each_spec (S (Z.to_nat (zlen L))) (setTypeInitIterator o0) [] L st c) as (st' & si' & c' & -> & HI' & Ho' & Hrel);
    [by apply set_upcoming_start|done|done|done|unfold zlen; lia|].
  cbn [mbind option_bind]. rewrite Ho'. cbn [mbind option_bind]. rewrite Hrel. cbn [mbind option_bind].
  exists st', c'. by rewrite insert_id.
Qed.

End ForEach.

(** ** Intersection *)

Lemma size_list_to_set_le (A : list bytes) : (base.size (list_to_set A : gset bytes) <= length A)%nat.
Proof.
  induction A as [|x A IH]; [by rewrite list_to_set_nil, size_empty|]. rewrite list_to_set_cons, size_union_alt, size_singleton. cbn [length].
  pose proof (subseteq_size (list_to_set A ∖ {[x]} : gset bytes) (list_to_set A) ltac:(set_solver)). lia.
Qed.

(** The test of the inner loop: the set that is iterated is skipped. *)
Definition in_others (s0 : positive) (rest : list positive) (x : bytes) : Prop := Forall (fun l => l = s0 \/ x ∈ set_at l) rest.
#[local] Instance in_others_dec s0 rest x : Decision (in_others s0 rest x).
Proof. unfold in_others. apply _. Defined.

Section Inter.
Context (s0 : positive) (rest : list positive).
Hypothesis Hrest : Forall (fun l => is_Some (Xs !! l)) rest.

Lemma in_all_spec o0 st s n x : stored o0 s n x -> holds st ->
  exists st', in_all st s0 rest (set_obj_encoding o0) s n = Some (st', bool_decide (in_others s0 rest x)) /\ holds st' /\ st' !! s0 = st !! s0.
Proof.
  intros Hx. revert st. induction rest as [|l ls IH]; intros st Hst; [by exists st|].
  apply Forall_cons in Hrest as [[X HX] Hls]. cbn [in_all].
  assert (set_at l = X) as El by (by apply set_at_lookup). destruct (bool_decide_reflect (l = s0)) as [Hl|Hl].
  { destruct (IH Hls st Hst) as (st' & -> & Hst' & E0). exists st'. split_and!; try done. do 2 f_equal. apply bool_decide_ext. unfold in_others. rewrite Forall_cons. naive_solver. }
  destruct (Hst l X HX) as (o & Ho & Hr & Hsm & _). rewrite Ho. cbn [mbind option_bind].
  set (test := if set_obj_encoding o0 =? OBJ_ENCODING_INTSET then _ else _).
  assert (exists st1, test = Some (st1, bool_decide (x ∈ X)) /\ holds st1 /\ st1 !! s0 = st !! s0) as (st1 & -> & Hst1 & E1).
  { destruct (member_at_spec st l X x Hst HX) as (st1 & Em & Hst1 & Hother). unfold test. clear test. destruct o0 as [iset0|d0]; cbn [stored set_obj_encoding] in *.
    - cbn [Z.eqb Pos.eqb OBJ_ENCODING_INTSET]. destruct Hx as (-> & Hn & Hmin & ->). destruct o as [iset|d].
      + rewrite (find_int_repr iset X n Hr Hn). by exists st.
      + rewrite sds_of_ll_spec by done. cbn [mbind option_bind]. exists st1. split_and!; try done. by apply Hother.
    - cbn [Z.eqb Pos.eqb OBJ_ENCODING_INTSET OBJ_ENCODING_HT]. destruct Hx as [-> _]. cbn [mbind option_bind]. exists st1. split_and!; try done. by apply Hother. }
  cbn [mbind option_bind]. destruct (bool_decide_reflect (x ∈ X)) as [Hin|Hin].
  - destruct (IH Hls st1 Hst1) as (st' & -> & Hst' & E0). exists st'. split_and!; [|done|congruence]. do 2 f_equal. apply bool_decide_ext. unfold in_others. rewrite Forall_cons, El. naive_solver.
  - exists st1. split_and!; try done. rewrite bool_decide_eq_false_2; [done|]. unfold in_others. rewrite Forall_cons, El. naive_solver.
Qed.

Lemma bulk_ll_spec n : in_s 64 n -> bulk_ll n = Some (sdec n).
Proof. intros Hn. unfold bulk_ll. destruct (ll2string_local 64 n Hn ltac:(lia)) as (r & ->). cbn [mbind option_bind]. apply load_prefix. Qed.

(** The locals after the elements [A] of the first set. *)
Definition inter_inv (dstkey : bool) (A : list bytes) (c : inter_state) : Prop :=
  if dstkey then set_repr (it_dst c) (list_to_set (filter (in_others s0 rest) A))
  else it_reply c = filter (in_others s0 rest) A /\ it_cardinality c = zlen (filter (in_others s0 rest) A).

Lemma take_element_spec dstkey o0 s n x A c : stored o0 s n x -> in_others s0 rest x -> x <> sdec LLONG_MIN -> zlen A < INTSET_MAX ->
  inter_inv dstkey A c -> exists c', take_element can max dstkey (set_obj_encoding o0) s n c = Some c' /\ inter_inv dstkey (A ++ [x]) c'.
Proof.
  intros Hx Hin Hmin HA HI. unfold take_element, inter_inv in *. rewrite filter_app, filter_cons_True, filter_nil by done. destruct dstkey; cbn [negb].
  - assert ((if set_obj_encoding o0 =? OBJ_ENCODING_INTSET then sds_of_ll n else s) = Some x) as ->.
    { destruct o0; cbn in Hx |- *; [|by destruct Hx as [-> _]]. destruct Hx as (-> & Hn & Hm & ->). by apply sds_of_ll_spec. }
    cbn [mbind option_bind]. unfold add_to. destruct (add_repr can max 0 0 (it_dst c) _ x HI) as (dst & -> & Hr'); [|done|].
    { assert (base.size (list_to_set (filter (in_others s0 rest) A) : gset bytes) <= length A)%nat; [|unfold zlen in HA; lia].
      etrans; [apply size_list_to_set_le|apply length_filter]. }
    cbn [mbind option_bind]. eexists. split; [done|]. cbn. by rewrite list_to_set_snoc.
  - assert ((if set_obj_encoding o0 =? OBJ_ENCODING_HT then s else bulk_ll n) = Some x) as ->.
    { destruct o0; cbn in Hx |- *; [|by destruct Hx as [-> _]]. destruct Hx as (-> & Hn & Hm & ->). by apply bulk_ll_spec. }
    cbn [mbind option_bind]. eexists. split; [done|]. cbn. destruct HI as [-> ->]. split; [done|]. by rewrite zlen_app.
Qed.

Lemma inter_loop_spec dstkey o0 L fuel : forall si A B st c, set_upcoming (addr s0).1 (addr s0).2 o0 si B -> L = A ++ B ->
  sdec LLONG_MIN ∉ L -> zlen L < INTSET_MAX -> holds st -> st !! s0 = Some o0 -> inter_inv dstkey A c -> (length B < fuel)%nat ->
  exists st' si' c', inter_loop can max addr fuel dstkey st s0 rest si c = Some (st', si', c') /\ inter_inv dstkey L c' /\
    holds st' /\ st' !! s0 = Some o0 /\ setTypeReleaseIterator (addr s0).1 (addr s0).2 o0 si' = Some o0.
Proof.
  induction fuel as [|fuel IH]; intros si A B st c Hu HL Hmin Hmax Hst Ho HI Hf; [lia|]. cbn [inter_loop]. rewrite Ho. cbn [mbind option_bind].
  destruct (set_step_spec _ _ o0 si B Hu) as (si' & r & -> & Hn). cbn [mbind option_bind]. rewrite insert_id by done.
  destruct B as [|x B]; [destruct Hn as [-> Hrel]; rewrite app_nil_r in HL; subst A; by exists st, si', c|].
  destruct Hn as [Hu' (s & n & -> & Hx)]. destruct (in_all_spec o0 st s n x Hx Hst) as (st1 & -> & Hst1 & E1). cbn [mbind option_bind].
  assert (x <> sdec LLONG_MIN) as Hxm by (intros ->; apply Hmin; rewrite HL; apply elem_of_app; right; by left).
  assert (zlen A < INTSET_MAX) as HA by (rewrite HL, zlen_app in Hmax; pose proof (zlen_nonneg (x :: B)); lia).
  assert (exists c1, (if bool_decide (in_others s0 rest x) then take_element can max dstkey (set_obj_encoding o0) s n c else Some c) = Some c1 /\
    inter_inv dstkey (A ++ [x]) c1) as (c1 & -> & HI1).
  { case_bool_decide as Hin; [by apply take_element_spec|]. exists c. split; [done|]. unfold inter_inv in *.
    rewrite filter_app, filter_cons_False, filter_nil, app_nil_r by done. done. }
  cbn [mbind option_bind]. apply (IH si' (A ++ [x]) B st1 c1 Hu'); [by rewrite <- app_assoc|done|done|done|congruence|done|cbn in Hf; lia].
Qed.

End Inter.

Lemma sinter_spec dstkey st sets : holds st -> sets <> [] -> Forall (fun l => is_Some (Xs !! l)) sets ->
  exists st' c, sinter can max addr dstkey st sets = Some (st', c) /\ holds st' /\
    exists R, NoDup R /\ (forall x, x ∈ R <-> Forall (fun l => x ∈ set_at l) sets) /\
      if dstkey then set_repr (it_dst c) (list_to_set R) else it_reply c = R /\ it_cardinality c = zlen R.
Proof.
  intros Hst Hne Hsets. unfold sinter. pose proof (qsort_perm _ (qsortCompareSetsByCardinality st) sets) as Hp.
  destruct (qsort _ sets) as [|s0 rest]; [by apply Permutation_nil_l in Hp|]. rewrite <- Hp in Hsets. apply Forall_cons in Hsets as [[X0 HX0] Hrest].
  destruct (Hst s0 X0 HX0) as (o0 & Ho & (L & He & EX) & Hsm & Hmin0). rewrite Ho. cbn [mbind option_bind].
  pose proof (SetType.set_size o0 X0 L He EX) as Hz. assert (sdec LLONG_MIN ∉ L) as Hmin by (rewrite EX, elem_of_list_to_set in Hmin0; done).
  rewrite (size_repr o0 X0) by (by exists L || lia). rewrite <- Hz.
  destruct (inter_loop_spec s0 rest Hrest dstkey o0 L (S (Z.to_nat (zlen L))) (setTypeInitIterator o0) [] L st (mk_inter [] 0 createIntsetObject))
    as (st' & si' & c & -> & HI & Hst' & Ho' & Hrel); [by apply set_upcoming_start|done|done|lia|done|done| |unfold zlen; lia|].
  { destruct dstkey; [|done]. unfold inter_inv. rewrite filter_nil. exact (set_create_repr (bytes_of_string "0")). }
  cbn [mbind option_bind]. rewrite Ho'. cbn [mbind option_bind]. rewrite Hrel. cbn [mbind option_bind]. rewrite insert_id by done.
  exists st', c. split; [done|]. split; [done|]. exists (filter (in_others s0 rest) L). split_and!.
  - apply NoDup_filter. by eapply elems_nodup.
  - intros x. rewrite list_elem_of_filter, <- Hp, Forall_cons. unfold in_others. rewrite !Forall_forall.
    assert (x ∈ L <-> x ∈ set_at s0) as -> by (rewrite (set_at_lookup s0 X0 HX0), EX; by rewrite elem_of_list_to_set). naive_solver.
  - done.
Qed.

(** ** Union and difference *)

(** The set under construction and its size. *)
Definition building Y (c : dst_state) : Prop := set_repr c.1 Y /\ c.2 = Z.of_nat (base.size Y).

Lemma building_start : building ∅ (createIntsetObject, 0).
Proof. split; [exact (set_create_repr (bytes_of_string "0"))|]. by rewrite size_empty. Qed.

Lemma no_elements U : ∅ ∖ U = (∅ : gset bytes).
Proof. set_solver. Qed.

Lemma building_zero Y U c : building Y c -> c.2 = 0 -> building (Y ∖ U) c.
Proof.
  intros [Hr Hz] E. assert (Y = ∅) as -> by (apply leibniz_equiv, size_empty_inv; lia). rewrite no_elements. by split.
Qed.

Lemma size_insert X x : base.size ({[x]} ∪ X) = if bool_decide (x ∉ X) then S (base.size X) else base.size X.
Proof.
  case_bool_decide as Hx; [by rewrite size_union, size_singleton by set_solver|]. f_equal. apply sets.set_eq. set_solver.
Qed.

Lemma size_remove X x : base.size X = if bool_decide (x ∈ X) then S (base.size (X ∖ {[x]})) else base.size (X ∖ {[x]}).
Proof.
  case_bool_decide as Hx; [|f_equal; apply sets.set_eq; set_solver].
  change (S (base.size (X ∖ {[x]}))) with (1 + base.size (X ∖ {[x]}))%nat. rewrite <- (size_singleton (C := gset bytes) x), <- size_union by set_solver. f_equal.
  apply union_difference_L. set_solver.
Qed.

Lemma add_element_spec st Y x c : building Y c -> Z.of_nat (base.size Y) < INTSET_MAX -> x <> sdec LLONG_MIN ->
  exists c', add_element can max st x c = Some (st, c') /\ building ({[x]} ∪ Y) c'.
Proof.
  intros [Hr Hc] Hs Hx. unfold add_element, add_to. destruct (add_repr can max 0 0 c.1 Y x Hr Hs Hx) as (o' & -> & Hr'). cbn [mbind option_bind].
  eexists. split; [done|]. split; [done|]. cbn. rewrite size_insert, Hc. case_bool_decide; lia.
Qed.

Lemma remove_element_spec st Y x c : building Y c -> Z.of_nat (base.size Y) <= INTSET_MAX ->
  exists c', remove_element can st x c = Some (st, c') /\ building (Y ∖ {[x]}) c'.
Proof.
  intros [Hr Hc] Hs. unfold remove_element. destruct (remove_repr can c.1 Y x Hr Hs) as (o' & -> & Hr'). cbn [mbind option_bind].
  eexists. split; [done|]. split; [done|]. cbn. rewrite Hc, (size_remove Y x). case_bool_decide; lia.
Qed.

(** The loops over one set. *)
Lemma iterate_add st l X Y c : holds st -> Xs !! l = Some X -> building Y c -> Z.of_nat (base.size (Y ∪ X)) < INTSET_MAX ->
  exists st' c', iterate_set addr (add_element can max) st l c = Some (st', c') /\ holds st' /\ building (Y ∪ X) c'.
Proof.
  intros Hst HX Hc Hs. destruct (Hst l X HX) as (o & Ho & (L & He & EX) & Hsm & Hmin). pose proof (SetType.set_size o X L He EX) as Hz.
  destruct (iterate_set_spec (add_element can max) l o L (fun A st' c' => st' = st /\ building (Y ∪ list_to_set A) c')) with (st := st) (c := c)
    as (st' & c' & E & [-> Hc'] & _); [|done|lia|done| |].
  - intros A x B st1 c1 HL [-> Hb] _. destruct (add_element_spec st (Y ∪ list_to_set A) x c1 Hb) as (c' & -> & H').
    + pose proof (subseteq_size (Y ∪ list_to_set A) (Y ∪ X)) as Hsub. rewrite EX, HL, list_to_set_app in Hsub. specialize (Hsub ltac:(set_solver)).
      rewrite <- list_to_set_app, <- HL, <- EX in Hsub. lia.
    + intros ->. apply Hmin. rewrite EX, HL. set_solver.
    + exists st, c'. split_and!; try done. rewrite list_to_set_snoc. by replace (Y ∪ _) with ({[x]} ∪ (Y ∪ list_to_set A)) by (apply sets.set_eq; set_solver).
  - split; [done|]. by rewrite list_to_set_nil, union_empty_r_L.
  - exists st, c'. by rewrite EX.
Qed.

Lemma iterate_remove st l X Y c : holds st -> Xs !! l = Some X -> building Y c -> Z.of_nat (base.size Y) <= INTSET_MAX ->
  exists st' c', iterate_set addr (remove_element can) st l c = Some (st', c') /\ holds st' /\ building (Y ∖ X) c'.
Proof.
  intros Hst HX Hc Hs. destruct (Hst l X HX) as (o & Ho & (L & He & EX) & Hsm & Hmin). pose proof (SetType.set_size o X L He EX) as Hz.
  destruct (iterate_set_spec (remove_element can) l o L (fun A st' c' => st' = st /\ building (Y ∖ list_to_set A) c')) with (st := st) (c := c)
    as (st' & c' & E & [-> Hc'] & _); [|done|lia|done| |].
  - intros A x B st1 c1 HL [-> Hb] _. destruct (remove_element_spec st (Y ∖ list_to_set A) x c1 Hb) as (c' & -> & H').
    + pose proof (subseteq_size (Y ∖ list_to_set A) Y ltac:(set_solver)). lia.
    + exists st, c'. split_and!; try done. rewrite list_to_set_snoc. by replace (Y ∖ _) with (Y ∖ list_to_set A ∖ {[x]}) by (apply sets.set_eq; set_solver).
  - split; [done|]. by rewrite list_to_set_nil, difference_empty_L.
  - exists st, c'. by rewrite EX.
Qed.

Definition opt_set (s : option positive) : gset bytes := match s with Some l => set_at l | None => ∅ end.
Definition opt_held (s : option positive) : Prop := match s with Some l => is_Some (Xs !! l) | None => True end.

Fixpoint union_of (sets : list (option positive)) : gset bytes :=
  match sets with
  | [] => ∅
  | s :: sets => opt_set s ∪ union_of sets
  end.

Lemma elem_of_union_of sets (x : bytes) : x ∈ union_of sets <-> exists s, s ∈ sets /\ x ∈ opt_set s.
Proof. induction sets as [|s sets IH]; cbn [union_of]; set_solver. Qed.

#[local] Instance union_of_perm : Proper ((≡ₚ) ==> (=)) union_of.
Proof. intros a b Hab. apply sets.set_eq. intros x. rewrite !elem_of_union_of. by setoid_rewrite Hab. Qed.

Lemma union_loop_spec sets : forall st Y c, Forall opt_held sets -> holds st -> building Y c ->
  Z.of_nat (base.size (Y ∪ union_of sets)) < INTSET_MAX ->
  exists st' c', union_loop can max addr st sets c = Some (st', c') /\ holds st' /\ building (Y ∪ union_of sets) c'.
Proof.
  induction sets as [|[l|] sets IH]; intros st Y c Hh Hst Hc Hs; cbn [union_loop union_of opt_set] in *.
  - exists st, c. by rewrite union_empty_r_L.
  - apply Forall_cons in Hh as [[X HX] Hh]. rewrite (set_at_lookup l X HX), union_assoc_L in *.
    destruct (iterate_add st l X Y c Hst HX Hc) as (st1 & c1 & -> & Hst1 & Hc1).
    { pose proof (subseteq_size (Y ∪ X) (Y ∪ X ∪ union_of sets) ltac:(set_solver)). lia. }
    cbn [mbind option_bind]. by apply IH.
  - apply Forall_cons in Hh as [_ Hh]. rewrite union_empty_l_L in *. by apply IH.
Qed.

Lemma in_none_spec s0 x st rest : Forall opt_held rest -> x ∈ set_at s0 -> holds st ->
  exists st', in_none st s0 rest x = Some (st', bool_decide (x ∉ union_of rest)) /\ holds st' /\ st' !! s0 = st !! s0.
Proof.
  intros Hh Hx. revert st Hh. induction rest as [|[l|] rest IH]; intros st Hh Hst; cbn [in_none union_of opt_set].
  - exists st. rewrite bool_decide_eq_true_2 by set_solver. done.
  - apply Forall_cons in Hh as [[X HX] Hh]. destruct (bool_decide_reflect (l = s0)) as [->|Hl].
    { exists st. rewrite bool_decide_eq_false_2 by set_solver. done. }
    destruct (member_at_spec st l X x Hst HX) as (st1 & -> & Hst1 & Hother). cbn [mbind option_bind]. rewrite (set_at_lookup l X HX).
    destruct (bool_decide_reflect (x ∈ X)) as [Hin|Hin].
    + exists st1. rewrite bool_decide_eq_false_2 by set_solver. split_and!; try done. by apply Hother.
    + destruct (IH st1 Hh Hst1) as (st' & -> & Hst' & E). exists st'. split_and!; [|done|rewrite E; by apply Hother].
      do 2 f_equal. apply bool_decide_ext. set_solver.
  - apply Forall_cons in Hh as [_ Hh]. destruct (IH st Hh Hst) as (st' & -> & Hst' & E). exists st'. split_and!; try done. by rewrite union_empty_l_L.
Qed.

(** Algorithm 1. *)
Lemma diff_one_spec st s0 rest X c : holds st -> Xs !! s0 = Some X -> Forall opt_held rest -> building ∅ c ->
  exists st' c', iterate_set addr (diff_element can max s0 rest) st s0 c = Some (st', c') /\ holds st' /\ building (X ∖ union_of rest) c'.
Proof.
  intros Hst HX Hh Hc. set (U := union_of rest). destruct (Hst s0 X HX) as (o & Ho & (L & He & EX) & Hsm & Hmin). pose proof (SetType.set_size o X L He EX) as Hz.
  destruct (iterate_set_spec (diff_element can max s0 rest) s0 o L (fun A st' c' => holds st' /\ building (list_to_set A ∖ U) c')) with (st := st) (c := c)
    as (st' & c' & E & [Hst' Hc'] & _); [|done|lia|done| |].
  - intros A x B st1 c1 HL [Hst1 Hb] Ho1. unfold diff_element.
    assert (x ∈ set_at s0 /\ x <> sdec LLONG_MIN /\ x ∉ A) as (Hx & Hxm & HxA).
    { rewrite (set_at_lookup s0 X HX), EX, HL. split_and!; [set_solver|intros ->; apply Hmin; rewrite EX, HL; set_solver|].
      pose proof (elems_nodup o L He) as Hnd. rewrite HL in Hnd. apply NoDup_app in Hnd as (_ & Hd & _). intros HA. by apply (Hd x HA); left. }
    destruct (in_none_spec s0 x st1 rest Hh Hx Hst1) as (st2 & -> & Hst2 & E2). cbn [mbind option_bind]. fold U. destruct (bool_decide_reflect (x ∉ U)) as [Hin|Hin].
    + destruct Hb as [Hr1 Hc1]. assert (x ∉ (list_to_set A ∖ U : gset bytes)) as Hnew by set_solver.
      destruct (add_repr can max 0 0 c1.1 _ x Hr1) as (o' & Ea & Hr'); [|done|].
      { pose proof (subseteq_size (list_to_set A ∖ U) X) as Hsub. rewrite EX, HL in Hsub. specialize (Hsub ltac:(set_solver)). rewrite <- HL, <- EX in Hsub. lia. }
      unfold add_to. rewrite Ea. cbn [mbind option_bind]. eexists st2, _. split; [done|]. split; [split; [done|]|congruence].
      replace (list_to_set (A ++ [x]) ∖ U) with ({[x]} ∪ (list_to_set A ∖ U) : gset bytes) by (apply sets.set_eq; set_solver).
      split; [done|]. cbn. rewrite size_insert, Hc1, bool_decide_eq_true_2 by done. lia.
    + exists st2, c1. split_and!; try done; [|congruence]. by replace (list_to_set (A ++ [x]) ∖ U) with (list_to_set A ∖ U : gset bytes) by (apply sets.set_eq; set_solver).
  - split; [done|]. by replace (list_to_set [] ∖ U) with (∅ : gset bytes) by set_solver.
  - exists st', c'. by rewrite EX.
Qed.

(** Algorithm 2. *)
Lemma diff_loop_spec rest : forall st Y c, Forall opt_held rest -> holds st -> building Y c -> Z.of_nat (base.size Y) <= INTSET_MAX ->
  exists st' c', diff_loop can addr st rest c = Some (st', c') /\ holds st' /\ building (Y ∖ union_of rest) c'.
Proof.
  induction rest as [|[l|] rest IH]; intros st Y c Hh Hst Hc Hs; cbn [diff_loop union_of opt_set] in *.
  - exists st, c. by rewrite difference_empty_L.
  - apply Forall_cons in Hh as [[X HX] Hh]. rewrite (set_at_lookup l X HX).
    destruct (iterate_remove st l X Y c Hst HX Hc Hs) as (st1 & c1 & -> & Hst1 & Hc1). cbn [mbind option_bind].
    replace (Y ∖ (X ∪ union_of rest)) with (Y ∖ X ∖ union_of rest) by (apply sets.set_eq; set_solver).
    destruct (Z.eqb_spec c1.2 0) as [E|E].
    + exists st1, c1. split_and!; try done. by apply building_zero.
    + apply IH; try done. pose proof (subseteq_size (Y ∖ X) Y ltac:(set_solver)). lia.
  - apply Forall_cons in Hh as [_ Hh]. rewrite union_empty_l_L. by apply IH.
Qed.

Lemma sunionDiff_union st sets : Forall opt_held sets -> holds st -> Z.of_nat (base.size (union_of sets)) < INTSET_MAX ->
  exists st' c, sunionDiff can max addr st sets SET_OP_UNION = Some (st', c) /\ holds st' /\ building (union_of sets) c.
Proof.
  intros Hh Hst Hs. destruct (union_loop_spec sets st ∅ _ Hh Hst building_start) as (st' & c & E & Hst' & Hc); rewrite union_empty_l_L in *; [done|].
  by exists st', c.
Qed.

Lemma sunionDiff_diff st s0 rest : opt_held s0 -> Forall opt_held rest -> holds st ->
  exists st' c, sunionDiff can max addr st (s0 :: rest) SET_OP_DIFF = Some (st', c) /\ holds st' /\ building (opt_set s0 ∖ union_of rest) c.
Proof.
  intros Hs0 Hh Hst. unfold sunionDiff. cbn [SET_OP_DIFF SET_OP_UNION Z.eqb]. destruct s0 as [l|]; cbn [opt_set].
  2: { exists st, (createIntsetObject, 0). split_and!; try done. rewrite no_elements. apply building_start. }
  destruct Hs0 as [X HX]. rewrite (set_at_lookup l X HX). destruct (diff_algo st l _ =? 1).
  - set (rest' := if _ <? _ then _ else rest). assert (rest' ≡ₚ rest) as Hp by (unfold rest'; case_match; [apply qsort_perm|done]).
    destruct (diff_one_spec st l rest' X (createIntsetObject, 0) Hst HX) as (st' & c & E & Hst' & Hc); [by rewrite Hp|apply building_start|].
    rewrite Hp in Hc. by exists st', c.
  - destruct (Hst l X HX) as (_ & _ & _ & Hsm & _).
    destruct (iterate_add st l X ∅ _ Hst HX building_start) as (st1 & c1 & -> & Hst1 & Hc1); rewrite union_empty_l_L in *; [done|].
    cbn [mbind option_bind]. destruct (Z.eqb_spec c1.2 0) as [E|E].
    + exists st1, c1. split_and!; try done. by apply building_zero.
    + apply diff_loop_spec; try done. lia.
Qed.

End Spec.

(** C19. SINTER and SINTERSTORE compute the intersection: for any array of references to sets, repeated or not, in
    any order and in any mix of encodings, the loop over the smallest set completes, sends every element of the
    intersection exactly once together with their number (or builds a set of them), and the store still
    holds the same sets. *)
Theorem sinter_correct `{DictType bytes} `{FreshMem} `{Qsort} can max addr Xs dstkey st sets :
  holds Xs st -> sets <> [] -> Forall (fun l => is_Some (Xs !! l)) sets ->
  exists st' c, sinter can max addr dstkey st sets = Some (st', c) /\ holds Xs st' /\
    exists R, NoDup R /\ (forall x, x ∈ R <-> Forall (fun l => x ∈ set_at Xs l) sets) /\
      if dstkey then set_repr (it_dst c) (list_to_set R) else it_reply c = R /\ it_cardinality c = zlen R.
Proof. apply sinter_spec. Qed.

(** SUNION builds the union of the sets, missing keys counting as empty, with its cardinality. *)
Theorem sunion_correct `{DictType bytes} `{FreshMem} `{Qsort} can max addr Xs st sets :
  Forall (opt_held Xs) sets -> holds Xs st -> Z.of_nat (base.size (union_of Xs sets)) < INTSET_MAX ->
  exists st' c, sunionDiff can max addr st sets SET_OP_UNION = Some (st', c) /\ holds Xs st' /\
    set_repr c.1 (union_of Xs sets) /\ c.2 = Z.of_nat (base.size (union_of Xs sets)).
Proof. apply sunionDiff_union. Qed.

(** C18. SDIFF builds the first set without the elements of the others, with its cardinality, by whichever of the
    two algorithms the estimate of the work selects, also when the first set is given again. *)
Theorem sdiff_correct `{DictType bytes} `{FreshMem} `{Qsort} can max addr Xs st s0 rest :
  opt_held Xs s0 -> Forall (opt_held Xs) rest -> holds Xs st ->
  exists st' c, sunionDiff can max addr st (s0 :: rest) SET_OP_DIFF = Some (st', c) /\ holds Xs st' /\
    set_repr c.1 (opt_set Xs s0 ∖ union_of Xs rest) /\ c.2 = Z.of_nat (base.size (opt_set Xs s0 ∖ union_of Xs rest)).
Proof. apply sunionDiff_diff. Qed.

(** ** A concrete store

    The intset of 5 and 9 and the dictionary of "5" and "x", with an insertion sort. *)
#[local] Existing Instance bytes_dict_type.

Fixpoint sort_insert {A : Type} (cmp : A -> A -> Z) (x : A) (l : list A) : list A :=
  match l with
  | [] => [x]
  | y :: l' => if cmp x y <=? 0 then x :: l else y :: sort_insert cmp x l'
  end.

Lemma sort_insert_perm {A : Type} (cmp : A -> A -> Z) (x : A) (l : list A) : sort_insert cmp x l ≡ₚ x :: l.
Proof. induction l as [|y l IH]; [done|]. cbn [sort_insert]. case_match; [done|]. rewrite IH. apply Permutation_swap. Qed.

#[local] Instance insertion_sort : Qsort.
Proof.
  refine {| qsort A cmp := foldr (sort_insert cmp) [] |}.
  intros A cmp l. induction l as [|x l IH]; [done|]. cbn [foldr]. by rewrite sort_insert_perm, IH.
Defined.

Definition demo_ints : list sop := [SAdd (bytes_of_string "5"); SAdd (bytes_of_string "9")].
Definition demo_intobj : set_obj :=
  default createSetObject (fst <$> run_sops true 512 0 0 createIntsetObject demo_ints).

Lemma demo_intobj_repr : set_repr demo_intobj {[bytes_of_string "5"; bytes_of_string "9"]}.
Proof.
  destruct (sops_repr true 512 0 0 demo_ints createIntsetObject ∅) as (o & E & Hr);
    [exact (set_create_repr (bytes_of_string "5"))|vm_compute; congruence|repeat constructor; vm_compute; congruence|].
  unfold demo_intobj. rewrite E. cbn [fmap option_fmap option_map fst default from_option id]. 
  replace {[_; _]} with (abs_sops ∅ demo_ints).1; [done|]. cbn [abs_sops demo_ints fst abs_sop]. apply sets.set_eq. set_solver.
Qed.

Definition demo_sets : gmap positive (gset bytes) :=
  {[ 1%positive := {[bytes_of_string "5"; bytes_of_string "9"]}; 2%positive := {[bytes_of_string "5"; bytes_of_string "x"]} ]}.
Definition demo_objs : gmap positive set_obj := {[ 1%positive := demo_intobj; 2%positive := demo_setobj ]}.

Lemma demo_objs_hold : holds demo_sets demo_objs.
Proof.
  intros l X HX. unfold demo_sets, demo_objs in *. apply lookup_insert_Some in HX as [[<- <-]|[Hl HX]]; [|apply lookup_singleton_Some in HX as [<- <-]].
  - exists demo_intobj. rewrite lookup_insert_eq. split; [done|]. split; [apply demo_intobj_repr|]. split; [by vm_compute|].
    apply (bool_decide_unpack _). by vm_compute.
  - exists demo_setobj. rewrite lookup_insert_ne, lookup_singleton_eq by done. split; [done|]. split; [apply demo_setobj_repr|].
    split; [by vm_compute|]. apply (bool_decide_unpack _). by vm_compute.
Qed.

Lemma sinter_correct_witness :
  exists st' c, sinter true 512 (fun _ => (0, 0)) false demo_objs [2%positive; 1%positive; 2%positive] = Some (st', c) /\ holds demo_sets st' /\
    exists R, NoDup R /\ (forall x, x ∈ R <-> Forall (fun l => x ∈ set_at demo_sets l) [2%positive; 1%positive; 2%positive]) /\
      it_reply c = R /\ it_cardinality c = zlen R.
Proof.
  exact (sinter_correct true 512 (fun _ => (0, 0)) demo_sets false demo_objs [2%positive; 1%positive; 2%positive] demo_objs_hold
    ltac:(congruence) ltac:(repeat constructor; eexists; vm_compute; reflexivity)).
Defined.

Lemma sunion_correct_witness :
  exists st' c, sunionDiff true 512 (fun _ => (0, 0)) demo_objs [Some 1%positive; None; Some 2%positive] SET_OP_UNION = Some (st', c) /\ holds demo_sets st' /\
    set_repr c.1 (union_of demo_sets [Some 1%positive; None; Some 2%positive]) /\ c.2 = 3.
Proof.
  exact (sunion_correct true 512 (fun _ => (0, 0)) demo_sets demo_objs [Some 1%positive; None; Some 2%positive]
    ltac:(repeat constructor; eexists; vm_compute; reflexivity) demo_objs_hold ltac:(by vm_compute)).
Defined.

Lemma sdiff_correct_witness :
  exists st' c, sunionDiff true 512 (fun _ => (0, 0)) demo_objs [Some 2%positive; None; Some 1%positive] SET_OP_DIFF = Some (st', c) /\ holds demo_sets st' /\
    set_repr c.1 (opt_set demo_sets (Some 2%positive) ∖ union_of demo_sets [None; Some 1%positive]) /\ c.2 = 1.
Proof.
  exact (sdiff_correct true 512 (fun _ => (0, 0)) demo_sets demo_objs (Some 2%positive) [None; Some 1%positive]
    ltac:(eexists; vm_compute; reflexivity) ltac:(repeat constructor; eexists; vm_compute; reflexivity) demo_objs_hold).
Defined.
