(* ===== verification/HashType.v ===== *)
(** * The hash type of t_hash.c

    A hash object is a ziplist of alternating fields and values while it is
    small, and a dictionary otherwise.  Fields and values are byte strings: the
    contents of the sds the callers pass and get.  The model composes the models
    of ziplist.c, dict.c, sds.c and object.c the way t_hash.c does; the theorems
    say that the object behaves as a finite map whatever its encoding is. *)

From stdpp Require Import base list numbers option strings gmap.
From Stdlib Require Import ZArith Lia.
From S2P Require Import Prelude Util Sds SdsText Object Dict DictMap DictIter Ziplist ZiplistSpec ZiplistApi.

Definition OBJ_HASH_KEY : Z := 1.
Definition OBJ_HASH_VALUE : Z := 2.

(** The encoding of the object and what its pointer refers to. *)
Inductive hash_obj := HashZiplist (zl : bytes) | HashHT (d : dict bytes bytes).
Implicit Types (o : hash_obj) (field value : bytes) (m : gmap bytes bytes).

Definition hash_encoding o : Z :=
  match o with HashZiplist _ => OBJ_ENCODING_ZIPLIST | HashHT _ => OBJ_ENCODING_HT end.

(** What the lookups store: the bytes at [*vstr], or [*vll] when [*vstr] is NULL. *)
Inductive hval := VStr (s : bytes) | VLL (v : Z).

(** The iterator without its [subject], which is passed along; [hi_de] is the
    entry the dictionary iterator returned last. *)
Record hashTypeIterator := mk_hi {
  hi_encoding : Z; hi_fptr : option Z; hi_vptr : option Z;
  hi_di : @dictIterator bytes; hi_de : option (bytes * bytes)
}.

Definition hashTypeInitIterator o : hashTypeIterator := mk_hi (hash_encoding o) None None dictGetIterator None.

Section Ops.
Context `{DictType bytes} `{FreshMem}.
(** The global of dict.c, the limits of the configuration and the addresses of
    the two tables of a dictionary. *)
Context (dict_can_resize : bool) (hash_max_ziplist_entries hash_max_ziplist_value : Z) (a0 a1 : Z).

Definition createHashObject : option hash_obj := zl ← ziplistNew; Some (HashZiplist zl).

(** [fptr = ziplistIndex(zl, ZIPLIST_HEAD); if (fptr != NULL) fptr = ziplistFind(fptr, field, sdslen(field), 1);] *)
Definition find_field (zl field : bytes) : option (option Z) :=
  fptr ← ziplistIndex zl 0;
  match fptr with
  | None => Some None
  | Some fptr => ziplistFind zl fptr field (zlen field) 1
  end.

(** -1 is [None]. *)
Definition hashTypeGetFromZiplist o field : option (option zget) :=
  match o with
  | HashHT _ => None
  | HashZiplist zl =>
      fptr ← find_field zl field;
      match fptr with
      | None => Some None
      | Some fptr =>
          vptr ← ziplistNext zl fptr;
          match vptr with
          | None => None
          | Some vptr => g ← ziplistGet zl (Some vptr); match g with None => None | Some g => Some (Some g) end
          end
      end
  end.

(** dictFind may move a bucket, so the object is returned as well. *)
Definition hashTypeGetFromHashTable o field : option (hash_obj * option bytes) :=
  match o with
  | HashZiplist _ => None
  | HashHT d => '(d, de) ← dictFind d field; Some (HashHT d, match de with Some he => Some he.2 | None => None end)
  end.

(** The bytes a [zget] of the block [zl] refers to. *)
Definition zget_val (zl : bytes) (g : zget) : option hval :=
  match g with GetStr off len => s ← load zl off len; Some (VStr s) | GetInt v => Some (VLL v) end.

Definition hashTypeGetValue o field : option (hash_obj * option hval) :=
  match o with
  | HashZiplist zl =>
      g ← hashTypeGetFromZiplist o field;
      match g with None => Some (o, None) | Some g => v ← zget_val zl g; Some (o, Some v) end
  | HashHT _ => '(o, value) ← hashTypeGetFromHashTable o field; Some (o, match value with Some s => Some (VStr s) | None => None end)
  end.

(** A new string object with the value. *)
Definition hashTypeGetValueObject (maxmemory maxmemory_policy : Z) o field : option (hash_obj * option strobj) :=
  '(o, v) ← hashTypeGetValue o field;
  match v with
  | None => Some (o, None)
  | Some (VStr s) => so ← createStringObject (InitPtr s) (zlen s); Some (o, Some so)
  | Some (VLL v) => so ← createStringObjectFromLongLong maxmemory maxmemory_policy v; Some (o, Some so)
  end.

Definition hashTypeGetValueLength o field : option (hash_obj * Z) :=
  match o with
  | HashZiplist _ =>
      g ← hashTypeGetFromZiplist o field;
      Some (o, match g with None => 0 | Some (GetStr _ vlen) => vlen | Some (GetInt vll) => sdigits10 vll end)
  | HashHT _ => '(o, aux) ← hashTypeGetFromHashTable o field; Some (o, match aux with None => 0 | Some s => zlen s end)
  end.

Definition hashTypeExists o field : option (hash_obj * bool) :=
  match o with
  | HashZiplist _ => g ← hashTypeGetFromZiplist o field; Some (o, match g with None => false | Some _ => true end)
  | HashHT _ => '(o, v) ← hashTypeGetFromHashTable o field; Some (o, match v with None => false | Some _ => true end)
  end.

(** ziplistLen may restore the length field of the block. *)
Definition hashTypeLength o : option (hash_obj * Z) :=
  match o with
  | HashZiplist zl => '(n, zl) ← ziplistLen zl; Some (HashZiplist zl, n / 2)
  | HashHT d => Some (o, dictSize d)
  end.

(** C_OK is [true]; [None] is a failed assertion. *)
Definition hashTypeNext o (hi : hashTypeIterator) : option (hash_obj * hashTypeIterator * bool) :=
  match o with
  | HashZiplist zl =>
      if negb (hi_encoding hi =? OBJ_ENCODING_ZIPLIST) then None else
      fptr ← match hi_fptr hi, hi_vptr hi with
             | None, None => ziplistIndex zl 0
             | Some _, Some vptr => ziplistNext zl vptr
             | _, _ => None
             end;
      match fptr with
      | None => Some (o, hi, false)
      | Some fptr =>
          vptr ← ziplistNext zl fptr;
          match vptr with
          | None => None
          | Some vptr => Some (o, mk_hi (hi_encoding hi) (Some fptr) (Some vptr) (hi_di hi) (hi_de hi), true)
          end
      end
  | HashHT d =>
      if negb (hi_encoding hi =? OBJ_ENCODING_HT) then None else
      '(d, di, de) ← dictNext a0 a1 d (hi_di hi);
      Some (HashHT d, mk_hi (hi_encoding hi) (hi_fptr hi) (hi_vptr hi) di de, match de with None => false | Some _ => true end)
  end.

Definition hashTypeReleaseIterator o (hi : hashTypeIterator) : option hash_obj :=
  match o with
  | HashZiplist _ => Some o
  | HashHT d => d ← dictReleaseIterator a0 a1 d (hi_di hi); Some (HashHT d)
  end.

Definition hashTypeCurrentFromZiplist (zl : bytes) (hi : hashTypeIterator) (what : Z) : option zget :=
  if negb (hi_encoding hi =? OBJ_ENCODING_ZIPLIST) then None else
  g ← ziplistGet zl (if negb (Z.land what OBJ_HASH_KEY =? 0) then hi_fptr hi else hi_vptr hi);
  g.

Definition hashTypeCurrentFromHashTable (hi : hashTypeIterator) (what : Z) : option bytes :=
  if negb (hi_encoding hi =? OBJ_ENCODING_HT) then None else
  de ← hi_de hi;
  Some (if negb (Z.land what OBJ_HASH_KEY =? 0) then de.1 else de.2).

Definition hashTypeCurrentObject o (hi : hashTypeIterator) (what : Z) : option hval :=
  match o with
  | HashZiplist zl => g ← hashTypeCurrentFromZiplist zl hi what; zget_val zl g
  | HashHT _ => ele ← hashTypeCurrentFromHashTable hi what; Some (VStr ele)
  end.

(** The contents of the new string. *)
Definition hashTypeCurrentObjectNewSds o (hi : hashTypeIterator) (what : Z) : option bytes :=
  v ← hashTypeCurrentObject o hi what;
  match v with
  | VStr s => Some s
  | VLL vll => sds_of_ll vll
  end.

(** [while (hashTypeNext(hi) != C_ERR)] of the conversion; [None] when dictAdd
    finds a duplicate. *)
Fixpoint hash_convert_loop (fuel : nat) o (hi : hashTypeIterator) (d : dict bytes bytes) :
    option (hash_obj * hashTypeIterator * dict bytes bytes) :=
  match fuel with
  | O => None
  | S fuel =>
      '(o, hi, more) ← hashTypeNext o hi;
      if negb more then Some (o, hi, d) else
      key ← hashTypeCurrentObjectNewSds o hi OBJ_HASH_KEY;
      value ← hashTypeCurrentObjectNewSds o hi OBJ_HASH_VALUE;
      '(d, ok) ← dictAdd dict_can_resize d key value;
      if ok : bool then hash_convert_loop fuel o hi d else None
  end.

(** Every pair takes more than one byte of the block. *)
Definition hashTypeConvertZiplist o (enc : Z) : option hash_obj :=
  match o with
  | HashHT _ => None
  | HashZiplist zl =>
      if enc =? OBJ_ENCODING_ZIPLIST then Some o
      else if enc =? OBJ_ENCODING_HT then
        '(o, hi, d) ← hash_convert_loop (S (length zl)) o (hashTypeInitIterator o) dictCreate;
        _ ← hashTypeReleaseIterator o hi;
        Some (HashHT d)
      else None
  end.

Definition hashTypeConvert o (enc : Z) : option hash_obj :=
  match o with HashZiplist _ => hashTypeConvertZiplist o enc | HashHT _ => None end.

(** The arguments of the command, of which only the string encoded ones count. *)
Fixpoint try_conversion_args o (args : list strobj) : option hash_obj :=
  match args with
  | [] => Some o
  | a :: args =>
      match sdsEncodedObject a with
      | Some s => if sdslen s >? hash_max_ziplist_value then hashTypeConvert o OBJ_ENCODING_HT else try_conversion_args o args
      | None => try_conversion_args o args
      end
  end.

(** [for (i = start; i <= end; i++)] *)
Definition hashTypeTryConversion o (argv : list strobj) (start end_ : Z) : option hash_obj :=
  match o with
  | HashHT _ => Some o
  | HashZiplist _ => try_conversion_args o (ztake (end_ - start + 1) (zdrop start argv))
  end.

(** The flags only say who owns the two strings afterwards.  The result is 1
    for an update and 0 for an insertion; dictAdd is called without looking at
    its answer. *)
Definition hashTypeSet o field value : option (hash_obj * bool) :=
  match o with
  | HashZiplist zl =>
      fptr ← find_field zl field;
      '(zl, update) ←
        match fptr with
        | Some fptr =>
            vptr ← ziplistNext zl fptr;
            match vptr with
            | None => None
            | Some vptr =>
                '(zl, vptr) ← ziplistDelete zl vptr;
                zl ← ziplistInsert zl vptr value (zlen value);
                Some (zl, true)
            end
        | None =>
            zl ← ziplistPush zl field (zlen field) ZIPLIST_TAIL;
            zl ← ziplistPush zl value (zlen value) ZIPLIST_TAIL;
            Some (zl, false)
        end;
      '(o, length) ← hashTypeLength (HashZiplist zl);
      o ← (if length >? hash_max_ziplist_entries then hashTypeConvert o OBJ_ENCODING_HT else Some o);
      Some (o, update)
  | HashHT d =>
      '(d, de) ← dictFind d field;
      match de with
      | Some _ => d ← set_existing d field value; Some (HashHT d, true)
      | None => '(d, _) ← dictAdd dict_can_resize d field value; Some (HashHT d, false)
      end
  end.

Definition hashTypeDelete o field : option (hash_obj * bool) :=
  match o with
  | HashZiplist zl =>
      fptr ← find_field zl field;
      match fptr with
      | None => Some (o, false)
      | Some fptr =>
          '(zl, fptr) ← ziplistDelete zl fptr;
          '(zl, _) ← ziplistDelete zl fptr;
          Some (HashZiplist zl, true)
      end
  | HashHT d =>
      '(d, ok) ← dictDelete d field;
      if ok : bool then d ← resize_if_needed dict_can_resize d; Some (HashHT d, true) else Some (HashHT d, false)
  end.

End Ops.

(** ** Pairs in a ziplist *)

(** Fields and values alternate. *)
Fixpoint flat (ps : list (bytes * bytes)) : list bytes :=
  match ps with [] => [] | p :: ps => p.1 :: p.2 :: flat ps end.

Lemma flat_app ps qs : flat (ps ++ qs) = flat ps ++ flat qs.
Proof. induction ps as [|p ps IH]; [done|]. cbn. by rewrite IH. Qed.

Lemma flat_length ps : length (flat ps) = (2 * length ps)%nat.
Proof. induction ps as [|p ps IH]; cbn; lia. Qed.

Lemma flat_even ps i : flat ps !! (2 * i)%nat = fst <$> ps !! i.
Proof.
  revert i. induction ps as [|p ps IH]; intros [|i]; try done. cbn [flat]. replace (2 * S i)%nat with (S (S (2 * i))) by lia. apply IH.
Qed.

Lemma flat_odd ps i : flat ps !! S (2 * i) = snd <$> ps !! i.
Proof.
  revert i. induction ps as [|p ps IH]; intros [|i]; try done. cbn [flat]. replace (S (2 * S i)) with (S (S (S (2 * i)))) by lia. apply IH.
Qed.

Lemma flat_take A B : take (2 * length A) (flat (A ++ B)) = flat A.
Proof. rewrite flat_app. apply take_app_length'. by rewrite flat_length. Qed.

Lemma flat_drop A B : drop (2 * length A) (flat (A ++ B)) = flat B.
Proof. rewrite flat_app. apply drop_app_length'. by rewrite flat_length. Qed.

(** ** Maps of pair lists *)

Section Pairs.
Implicit Types (A B ps : list (bytes * bytes)).

Definition pmap ps : gmap bytes bytes := list_to_map ps.

Lemma pmap_mid A f v B : NoDup (A ++ (f, v) :: B).*1 -> pmap (A ++ (f, v) :: B) = <[f := v]> (pmap (A ++ B)) /\ f ∉ (A ++ B).*1.
Proof.
  intros Hn. unfold pmap. rewrite (list_to_map_proper (A ++ (f, v) :: B) ((f, v) :: A ++ B)); [|done|by rewrite Permutation_middle].
  rewrite <- Permutation_middle in Hn. cbn in Hn. by apply NoDup_cons in Hn as [Hf _].
Qed.

Lemma pmap_lookup A f v B : NoDup (A ++ (f, v) :: B).*1 -> pmap (A ++ (f, v) :: B) !! f = Some v.
Proof. intros Hn. destruct (pmap_mid A f v B Hn) as [-> _]. apply lookup_insert_eq. Qed.

Lemma pmap_update A f v v' B : NoDup (A ++ (f, v) :: B).*1 ->
  NoDup (A ++ (f, v') :: B).*1 /\ pmap (A ++ (f, v') :: B) = <[f := v']> (pmap (A ++ (f, v) :: B)).
Proof.
  intros Hn. assert (NoDup (A ++ (f, v') :: B).*1) as Hn' by (by rewrite fmap_app, fmap_cons in *). split; [done|].
  destruct (pmap_mid A f v B Hn) as [-> _]. destruct (pmap_mid A f v' B Hn') as [-> _]. by rewrite insert_insert_eq.
Qed.

Lemma pmap_remove A f v B : NoDup (A ++ (f, v) :: B).*1 ->
  NoDup (A ++ B).*1 /\ pmap (A ++ B) = delete f (pmap (A ++ (f, v) :: B)).
Proof.
  intros Hn. destruct (pmap_mid A f v B Hn) as [-> Hf]. split.
  - rewrite <- Permutation_middle in Hn. cbn in Hn. by apply NoDup_cons in Hn as [_ Hn].
  - rewrite delete_insert_id; [done|]. by apply not_elem_of_list_to_map.
Qed.

Lemma pmap_add ps f v : NoDup ps.*1 -> f ∉ ps.*1 -> NoDup (ps ++ [(f, v)]).*1 /\ pmap (ps ++ [(f, v)]) = <[f := v]> (pmap ps).
Proof.
  intros Hn Hf. assert (NoDup (ps ++ [(f, v)]).*1) as Hn'.
  { rewrite fmap_app. apply NoDup_app. split_and!; [done| |apply NoDup_singleton]. set_solver. }
  split; [done|]. destruct (pmap_mid ps f v [] Hn') as [-> _]. by rewrite app_nil_r.
Qed.

Lemma pmap_none ps f : f ∉ ps.*1 -> pmap ps !! f = None.
Proof. apply not_elem_of_list_to_map. Qed.

End Pairs.

(** ** The map a hash object stands for *)

Section Refinement.
Context `{DictType bytes} `{FreshMem} (can : bool) (max_entries max_value : Z) (a0 a1 : Z).

(** The least 64 bit integer is excluded, as sdsfromlonglong overflows on it. *)
Definition printable (s : bytes) : Prop := s <> sdec LLONG_MIN.

(** [hash_pairs n o ps]: the object holds the pairs [ps], and a ziplist of them
    takes at most [n] bytes besides its header. *)
Inductive hash_pairs (n : Z) : hash_obj -> list (bytes * bytes) -> Prop :=
  | PairsZl zl ps : zrepr zl (flat ps) -> NoDup ps.*1 -> Forall printable (flat ps) -> room (flat ps) <= n -> hash_pairs n (HashZiplist zl) ps
  | PairsHT d : dict_wf d -> hash_pairs n (HashHT d) (entries d).

Definition hash_repr n o m : Prop := exists ps, hash_pairs n o ps /\ m = pmap ps.

Lemma ht_hash n d m : dict_repr d m -> hash_repr n (HashHT d) m.
Proof. intros [Hwf <-]. exists (entries d). by split; [constructor|]. Qed.

Lemma ht_hash_inv n d m : hash_repr n (HashHT d) m -> dict_repr d m.
Proof. intros (ps & Hp & ->). inversion Hp; subst. by split. Qed.

Lemma find_field_spec zl c es ps f : zl_at zl c es -> es.*2 = flat ps ->
  exists r, find_field zl f = Some r /\
    match r with
    | None => f ∉ ps.*1
    | Some p => exists A v B, ps = A ++ (f, v) :: B /\ p = pos es (2 * length A)
    end.
Proof.
  intros Ha Hes. unfold find_field. rewrite (ziplistIndex_spec zl c es 0 Ha) by lia. cbn [mbind option_bind].
  assert (length es = (2 * length ps)%nat) as Hl by (by rewrite <- flat_length, <- Hes, length_fmap).
  destruct ps as [|p0 ps0].
  { destruct es; [|done]. exists None. split; [done|]. apply not_elem_of_nil. }
  set (ps := p0 :: ps0) in *. assert (al_pos 0 (length es) = Some O) as -> by (rewrite Hl; done).
  cbn [fmap option_fmap option_map]. unfold ziplistFind.
  destruct (find_loop_spec zl c es f [] 1 Ha ltac:(lia) (length es) 0 (S (length zl)) 0 0 0) as (r & E & Hf);
    [lia|lia|pose proof (fuel_entries _ _ _ Ha); lia|by left|].
  rewrite app_nil_r in E. exists r. split; [exact E|]. unfold finds in Hf. rewrite Hes in Hf. destruct r as [p|].
  - destruct Hf as (j & -> & [_ Hj] & Hv & _). rewrite Nat.sub_0_r in Hj. apply Nat.Div0.mod_divides in Hj as [i ->].
    cbn [Nat.add] in Hv. rewrite flat_even in Hv.
    apply fmap_Some in Hv as ([f' v] & Hi & ->). apply list_elem_of_split_length in Hi as (A & B & -> & ->). by exists A, v, B.
  - intros ([f' v] & -> & Hin)%list_elem_of_fmap. apply list_elem_of_lookup in Hin as [i Hi].
    apply (Hf (2 * i)%nat); [split; [lia|]; rewrite Nat.sub_0_r; rewrite Nat.mul_comm; apply Nat.Div0.mod_mul|].
    cbn [Nat.add]. by rewrite flat_even, Hi.
Qed.

(** *** Lookups *)

Lemma pair_entries (es : list ent) A f v B : es.*2 = flat (A ++ (f, v) :: B) ->
  (exists e, es !! (2 * length A)%nat = Some e /\ e.2 = f) /\ (exists e, es !! S (2 * length A) = Some e /\ e.2 = v) /\
  (S (2 * length A) < length es)%nat.
Proof.
  intros Hes. assert ((A ++ (f, v) :: B) !! length A = Some (f, v)) as Hi by (by apply list_lookup_middle).
  assert (es.*2 !! (2 * length A)%nat = Some f) as H1 by (by rewrite Hes, flat_even, Hi).
  assert (es.*2 !! S (2 * length A) = Some v) as H2 by (by rewrite Hes, flat_odd, Hi).
  rewrite list_lookup_fmap in H1, H2. apply fmap_Some in H1 as (e1 & H1 & E1), H2 as (e2 & H2 & E2).
  split_and!; [by exists e1|by exists e2|by eapply lookup_lt_Some].
Qed.

Lemma next_pair zl c es k : zl_at zl c es -> (S k < length es)%nat -> ziplistNext zl (pos es k) = Some (Some (pos es (S k))).
Proof.
  intros Ha Hk. rewrite (ziplistNext_spec zl c es k Ha) by lia. unfold ptr. by destruct (Nat.ltb_spec (S k) (length es)); [|lia].
Qed.

Lemma get_zl_spec zl c es ps f : zl_at zl c es -> es.*2 = flat ps -> NoDup ps.*1 ->
  exists g, hashTypeGetFromZiplist (HashZiplist zl) f = Some g /\
    match pmap ps !! f with None => g = None | Some v => exists z, g = Some z /\ reads_as zl z v end.
Proof.
  intros Ha Hes Hn. cbn [hashTypeGetFromZiplist]. destruct (find_field_spec zl c es ps f Ha Hes) as (r & -> & Hr). cbn [mbind option_bind].
  destruct r as [p|]; [|exists None; by rewrite pmap_none]. destruct Hr as (A & v & B & -> & ->).
  destruct (pair_entries es A f v B Hes) as (_ & (e & He & <-) & Hlt). rewrite pmap_lookup by done.
  rewrite (next_pair zl c es _ Ha Hlt). cbn [mbind option_bind].
  destruct (ziplistGet_spec zl c es _ e Ha He) as (g & -> & Hg). cbn [mbind option_bind]. exists (Some g). split; [done|]. by exists g.
Qed.

(** What the value functions report for the string [v]. *)
Definition hval_is (h : hval) v : Prop :=
  match h with VStr s => s = v | VLL n => in_s 64 n /\ v = sdec n end.

Lemma zget_val_spec zl g v : reads_as zl g v -> exists h, zget_val zl g = Some h /\ hval_is h v.
Proof. destruct g as [off n|n]; cbn; [intros [-> _]; by exists (VStr v)|intros Hv; by exists (VLL n)]. Qed.

Lemma ht_get d m f : dict_repr d m -> fits m ->
  exists d', hashTypeGetFromHashTable (HashHT d) f = Some (HashHT d', m !! f) /\ dict_repr d' m.
Proof.
  intros Hd Hf. cbn [hashTypeGetFromHashTable]. destruct (repr_find d m f Hd Hf) as (d' & -> & Hd'). cbn [mbind option_bind].
  exists d'. split; [|done]. by destruct (m !! f).
Qed.

(** The lookups of one field in either encoding. *)
Lemma get_repr n o m f : hash_repr n o m -> fits m ->
  exists o1 h o2 o3, hash_repr n o1 m /\ hash_repr n o2 m /\ hash_repr n o3 m /\
    hashTypeGetValue o f = Some (o1, h) /\
    hashTypeGetValueLength o f = Some (o2, match m !! f with None => 0 | Some v => zlen v end) /\
    hashTypeExists o f = Some (o3, bool_decide (is_Some (m !! f))) /\
    match m !! f with None => h = None | Some v => exists w, h = Some w /\ hval_is w v end.
Proof.
  intros Hr Hf. destruct o as [zl|d].
  - destruct Hr as (ps & Hp & ->). inversion Hp as [? ? Hz Hn Hmin Hroom|]; subst.
    apply zrepr_at in Hz as Hz'. destruct Hz' as (c & es & Ha & Hes). destruct (get_zl_spec zl c es ps f Ha Hes Hn) as (g & Eg & Hg).
    assert (hash_repr n (HashZiplist zl) (pmap ps)) as Hr by (exists ps; by split; [constructor|]).
    cbn [hashTypeGetValue hashTypeGetValueLength hashTypeExists]. rewrite Eg. cbn [mbind option_bind].
    destruct (pmap ps !! f) as [v|]; [|subst g; rewrite bool_decide_false by (by intros []); by eexists _, None, _, _; split_and!].
    destruct Hg as (z & -> & Hz1). destruct (zget_val_spec zl z v Hz1) as (h & -> & Hh). cbn [mbind option_bind].
    rewrite bool_decide_true by done. eexists _, (Some h), _, _. split_and!; [exact Hr..|done| |done|by exists h].
    do 2 f_equal. destruct z as [off len|w]; cbn in Hz1; [destruct Hz1 as [Hl _]; by apply zlen_load in Hl|].
    destruct Hz1 as [Hw ->]. by apply sdigits10_sdec.
  - apply ht_hash_inv in Hr as Hd. destruct (ht_get d m f Hd Hf) as (d' & E & Hd'). pose proof (ht_hash n d' m Hd') as Hr'.
    cbn [hashTypeGetValue hashTypeGetValueLength hashTypeExists]. rewrite E. cbn [mbind option_bind].
    eexists _, _, _, _. split_and!; [exact Hr'..|done|by destruct (m !! f)|by destruct (m !! f)|].
    destruct (m !! f) as [v|]; [|done]. by exists (VStr v).
Qed.

(** *** Iteration *)

(** The cursor of a ziplist iterator after the pairs [A]. *)
Definition cursor (es : list ent) (A : list (bytes * bytes)) (hi : hashTypeIterator) : Prop :=
  hi_encoding hi = OBJ_ENCODING_ZIPLIST /\
  match length A with
  | O => hi_fptr hi = None /\ hi_vptr hi = None
  | S k => hi_fptr hi = Some (pos es (2 * k)) /\ hi_vptr hi = Some (pos es (S (2 * k)))
  end.

(** [hash_upcoming o hi cur ps]: [cur] is the pair the iterator stands on and
    [ps] are the pairs it has still to return. *)
Inductive hash_upcoming : hash_obj -> hashTypeIterator -> option (bytes * bytes) -> list (bytes * bytes) -> Prop :=
  | UpZl zl c es A B hi : zl_at zl c es -> es.*2 = flat (A ++ B) -> Forall printable (flat (A ++ B)) -> cursor es A hi ->
      hash_upcoming (HashZiplist zl) hi (last A) B
  | UpHash d hi l cur : reading a0 a1 d (hi_di hi) l -> hi_encoding hi = OBJ_ENCODING_HT -> hi_de hi = cur ->
      hash_upcoming (HashHT d) hi cur l.

Lemma hash_upcoming_start n o ps : hash_pairs n o ps -> hash_upcoming o (hashTypeInitIterator o) None ps.
Proof.
  intros [zl ps' Hz Hn Hp _|d Hwf].
  - apply zrepr_at in Hz as (c & es & Ha & Hes). by apply (UpZl zl c es [] ps').
  - apply UpHash; [by apply reading_start|done|done].
Qed.

Lemma index_0 zl c es : zl_at zl c es -> ziplistIndex zl 0 = Some (ptr es 0).
Proof.
  intros Ha. rewrite (ziplistIndex_spec zl c es 0 Ha) by lia. unfold ptr, al_pos. by destruct es.
Qed.

Lemma hash_next_spec o hi cur ps : hash_upcoming o hi cur ps ->
  exists hi', hashTypeNext a0 a1 o hi = Some (o, hi', match ps with [] => false | _ => true end) /\
    match ps with
    | [] => hashTypeReleaseIterator a0 a1 o hi' = Some o
    | p :: ps => hash_upcoming o hi' (Some p) ps
    end.
Proof.
  intros [zl c es A B hi' Ha Hes Hp [He Hc]|d hi' l cur' Hrd He _]; cbn [hashTypeNext]; rewrite He; cbn [Z.eqb Pos.eqb negb OBJ_ENCODING_ZIPLIST OBJ_ENCODING_HT].
  - assert (match hi_fptr hi', hi_vptr hi' with None, None => ziplistIndex zl 0 | Some _, Some vptr => ziplistNext zl vptr | _, _ => None end =
      Some (ptr es (2 * length A))) as ->.
    { destruct (length A) as [|k] eqn:EA; destruct Hc as [-> ->]; [by eapply index_0|].
      rewrite (ziplistNext_spec zl c es _ Ha); [by replace (2 * S k)%nat with (S (S (2 * k))) by lia|].
      apply (f_equal length) in Hes. rewrite length_fmap, flat_length, length_app in Hes. lia. }
    cbn [mbind option_bind]. apply (f_equal length) in Hes as Hl. rewrite length_fmap, flat_length, length_app in Hl.
    unfold ptr. destruct B as [|[f v] B].
    + destruct (Nat.ltb_spec (2 * length A) (length es)); [cbn in Hl; lia|]. by exists hi'.
    + destruct (pair_entries es A f v B Hes) as (_ & _ & Hlt). destruct (Nat.ltb_spec (2 * length A) (length es)); [|lia].
      rewrite (next_pair zl c es _ Ha Hlt). cbn [mbind option_bind]. eexists. split; [done|].
      replace (Some (f, v)) with (last (A ++ [(f, v)])) by apply last_snoc.
      apply (UpZl zl c es (A ++ [(f, v)]) B); try by rewrite <- app_assoc. 1: done.
      split; [done|]. rewrite length_app, Nat.add_1_r. done.
  - destruct (reading_next a0 a1 d _ l Hrd) as (di' & -> & Hrd'). cbn [mbind option_bind]. eexists. split; [by destruct l as [|]|].
    destruct l as [|p l]; cbn [hashTypeReleaseIterator hi_di]; [by rewrite (reading_release _ _ _ _ _ Hrd')|]. by apply UpHash.
Qed.

(** The pair the iterator stands on. *)
Lemma hash_current_spec o hi p ps : hash_upcoming o hi (Some p) ps ->
  hashTypeCurrentObjectNewSds o hi OBJ_HASH_KEY = Some p.1 /\ hashTypeCurrentObjectNewSds o hi OBJ_HASH_VALUE = Some p.2.
Proof.
  inversion 1 as [zl c es A B hi' Ha Hes Hp [He Hc] E1 E2 E3|d hi' l cur' Hrd He Hde]; subst.
  - destruct A as [|p' A _] using rev_ind; [done|]. rewrite last_snoc in E3. injection E3 as ->.
    rewrite length_app, Nat.add_1_r in Hc. destruct Hc as [Hfp Hvp]. rewrite <- app_assoc in Hes. destruct p as [f v].
    destruct (pair_entries es A f v ps Hes) as ((e1 & He1 & E1) & (e2 & He2 & E2) & _).
    assert (forall k e what, es !! k = Some e -> (if negb (Z.land what OBJ_HASH_KEY =? 0) then hi_fptr hi else hi_vptr hi) = Some (pos es k) ->
      hashTypeCurrentObjectNewSds (HashZiplist zl) hi what = Some e.2) as Hread.
    { intros k e what Hk Hw. unfold hashTypeCurrentObjectNewSds, hashTypeCurrentObject, hashTypeCurrentFromZiplist. rewrite He, Hw. cbn [negb Z.eqb Pos.eqb OBJ_ENCODING_ZIPLIST].
      destruct (ziplistGet_spec zl c es k e Ha Hk) as (g & -> & Hg). cbn [mbind option_bind].
      assert (printable e.2) as Hpr.
      { rewrite Forall_forall in Hp. apply Hp. rewrite <- app_assoc, <- Hes. apply list_elem_of_fmap. exists e. split; [done|by eapply list_elem_of_lookup_2]. }
      destruct (zget_val_spec zl g e.2 Hg) as (h & -> & Hh). cbn [mbind option_bind]. destruct h as [s|w]; cbn in Hh; [by subst|].
      destruct Hh as [Hw64 Ew]. rewrite Ew. apply sds_of_ll_spec; [done|]. intros ->. by apply Hpr. }
    split; [rewrite (Hread (2 * length A)%nat e1)|rewrite (Hread (S (2 * length A)) e2)]; cbn [fst snd]; try done; by f_equal.
  - unfold hashTypeCurrentObjectNewSds, hashTypeCurrentObject, hashTypeCurrentFromHashTable. rewrite He, Hde. done.
Qed.

(** *** Conversion *)

Lemma pmap_size ps : NoDup ps.*1 -> base.size (pmap ps) = length ps.
Proof. intros Hn. unfold pmap. rewrite <- length_map_to_list. apply Permutation_length. by apply map_to_list_to_map. Qed.

Definition PAIRS_MAX : Z := 2 ^ 32.

Lemma pmap_fits ps : NoDup ps.*1 -> zlen ps <= PAIRS_MAX -> fits (pmap ps).
Proof. intros Hn Hl. unfold fits. rewrite pmap_size by done. unfold zlen, PAIRS_MAX, DICT_BOUND in *. lia. Qed.

Lemma hash_convert_loop_spec fuel o : forall hi cur A B d, hash_upcoming o hi cur B -> NoDup (A ++ B).*1 ->
  zlen (A ++ B) <= PAIRS_MAX -> dict_repr d (pmap A) -> (length B < fuel)%nat ->
  exists hi' d', hash_convert_loop can a0 a1 fuel o hi d = Some (o, hi', d') /\
    hashTypeReleaseIterator a0 a1 o hi' = Some o /\ dict_repr d' (pmap (A ++ B)).
Proof.
  induction fuel as [|fuel IH]; intros hi cur A B d Hu Hn Hmax Hd Hf; [lia|]. cbn [hash_convert_loop].
  destruct (hash_next_spec o hi cur B Hu) as (hi' & -> & Hnext). cbn [mbind option_bind]. destruct B as [|[f v] B]; cbn [negb].
  - rewrite app_nil_r. by eexists _, d.
  - destruct (hash_current_spec _ _ _ _ Hnext) as [-> ->]. cbn [mbind option_bind fst snd].
    assert (NoDup A.*1 /\ f ∉ A.*1) as [HnA HfA].
    { rewrite fmap_app in Hn. apply NoDup_app in Hn as (HnA & Hdis & _). split; [done|]. intros Hin. apply (Hdis _ Hin). by left. }
    destruct (pmap_add A f v HnA HfA) as [_ Ep].
    destruct (repr_add can d (pmap A) f v Hd) as (d1 & -> & Hd1).
    { apply pmap_fits; [done|]. rewrite zlen_app in Hmax. pose proof (zlen_nonneg ((f, v) :: B)). lia. }
    { by apply pmap_none. }
    cbn [mbind option_bind]. rewrite <- Ep in Hd1. replace (A ++ (f, v) :: B) with ((A ++ [(f, v)]) ++ B) in * by (by rewrite <- app_assoc).
    apply (IH hi' (Some (f, v)) (A ++ [(f, v)]) B d1 Hnext Hn Hmax Hd1). cbn in Hf. lia.
Qed.

Lemma zl_pairs_small zl ps : zrepr zl (flat ps) -> (length ps < length zl)%nat /\ zlen ps <= PAIRS_MAX.
Proof.
  intros (c & es & Ha & Hes)%zrepr_at. pose proof (fuel_entries _ _ _ Ha). pose proof (at_few _ _ _ Ha).
  apply (f_equal length) in Hes. rewrite length_fmap, flat_length in Hes. unfold zlen, PAIRS_MAX in *. lia.
Qed.

Lemma hash_convert_spec n zl ps : hash_pairs n (HashZiplist zl) ps ->
  exists d, hashTypeConvert can a0 a1 (HashZiplist zl) OBJ_ENCODING_HT = Some (HashHT d) /\ dict_repr d (pmap ps).
Proof.
  intros Hp. pose proof (hash_upcoming_start _ _ _ Hp) as Hu. inversion Hp as [? ? Hz Hn _ _|]; subst.
  destruct (zl_pairs_small zl ps Hz) as [Hl Hm].
  cbn [hashTypeConvert hashTypeConvertZiplist Z.eqb Pos.eqb OBJ_ENCODING_ZIPLIST OBJ_ENCODING_HT].
  destruct (hash_convert_loop_spec (S (length zl)) (HashZiplist zl) _ _ [] ps dictCreate Hu Hn Hm (repr_create)) as (hi' & d & -> & Hrel & Hd); [lia|].
  cbn [mbind option_bind]. rewrite Hrel. by exists d.
Qed.

(** *** Updates *)

Lemma length_repr n o m : hash_repr n o m -> fits m ->
  exists o', hashTypeLength o = Some (o', Z.of_nat (base.size m)) /\ hash_repr n o' m /\ hash_encoding o' = hash_encoding o.
Proof.
  intros (ps & Hp & ->) Hf. destruct Hp as [zl ps Hz Hn Hmin Hroom|d Hwf]; cbn [hashTypeLength].
  - apply zrepr_at in Hz as (c & es & Ha & Hes). destruct (ziplistLen_spec zl c es Ha) as (zl' & c' & -> & Ha'). cbn [mbind option_bind].
    exists (HashZiplist zl'). split; [|split; [|done]].
    + do 2 f_equal. rewrite pmap_size by done. apply (f_equal length) in Hes. rewrite length_fmap, flat_length in Hes.
      unfold zlen. rewrite Hes, Nat2Z.inj_mul, Z.mul_comm. by apply Z.div_mul.
    + exists ps. split; [|done]. constructor; try done. apply zrepr_at. by exists c', es.
  - exists (HashHT d). assert (dict_repr d (pmap (entries d))) as Hd by done. split; [|split; [by apply ht_hash|done]].
    pose proof (repr_bound _ _ Hd Hf). destruct (size_entries d Hwf) as [-> _]; [lia|]. by rewrite (repr_entries _ _ Hd).
Qed.

Lemma printable_mid A B f v v' : Forall printable (flat (A ++ (f, v) :: B)) -> printable v' -> Forall printable (flat (A ++ (f, v') :: B)).
Proof. rewrite !flat_app. cbn [flat fst snd]. rewrite !Forall_app, !Forall_cons. tauto. Qed.

Lemma room_le ss1 s ss2 : room (ss1 ++ ss2) <= room (ss1 ++ s :: ss2).
Proof. rewrite !room_app, room_cons. pose proof (zlen_nonneg (body s)). lia. Qed.

(** Cutting one element out of a list. *)
Lemma cut_mid (P Q : list bytes) x k : length P = k -> take k (P ++ x :: Q) ++ drop (k + Z.to_nat 1) (P ++ x :: Q) = P ++ Q.
Proof.
  intros <-. rewrite take_app_length. f_equal. rewrite cons_middle, app_assoc. apply drop_app_length'. rewrite length_app. done.
Qed.

(** Replacing the value of a pair in place. *)
Lemma zl_update zl A f v v' B : zrepr zl (flat (A ++ (f, v) :: B)) -> forall c es, zl_at zl c es -> es.*2 = flat (A ++ (f, v) :: B) ->
  11 + room (flat (A ++ (f, v) :: B)) + (zlen v' + 14) < 4294967296 ->
  exists zl1 zl2, ziplistDelete zl (pos es (S (2 * length A))) = Some (zl1, pos es (S (2 * length A))) /\
    ziplistInsert zl1 (pos es (S (2 * length A))) v' (zlen v') = Some zl2 /\ zrepr zl2 (flat (A ++ (f, v') :: B)) /\
    room (flat (A ++ (f, v') :: B)) <= room (flat (A ++ (f, v) :: B)) + (zlen v' + 14).
Proof.
  intros _ c es Ha Hes Hroom. destruct (pair_entries es A f v B Hes) as (_ & _ & Hlt).
  destruct (delete_keeps zl c es (S (2 * length A)) 1 Ha Hlt) as (zl1 & c1 & es1 & E1 & Ha1 & Ht1 & Hes1); [lia|].
  assert (flat (A ++ (f, v) :: B) = (flat A ++ [f]) ++ v :: flat B) as Ef by (rewrite flat_app, <- app_assoc; done).
  assert (length (flat A ++ [f]) = S (2 * length A)) as El by (rewrite length_app, flat_length; cbn; lia).
  rewrite Hes, Ef, cut_mid in Hes1 by done.
  unfold ziplistDelete. rewrite E1. cbn [mbind option_bind]. exists zl1.
  assert (pos es (S (2 * length A)) = pos es1 (S (2 * length A))) as Epos by (unfold pos; by rewrite Ht1). rewrite Epos.
  pose proof (room_le (flat A ++ [f]) v (flat B)) as Hr1. rewrite Ef in Hroom.
  destruct (insert_at_pos zl1 c1 es1 (S (2 * length A)) v' Ha1) as (zl2 & E2 & Hz2).
  { apply (f_equal length) in Hes1. rewrite length_fmap, length_app, El in Hes1. lia. } { rewrite Hes1. lia. }
  exists zl2. split; [done|]. split; [exact E2|]. rewrite Hes1, take_app_length', drop_app_length' in Hz2 by done.
  assert (flat (A ++ (f, v') :: B) = (flat A ++ [f]) ++ v' :: flat B) as Ef' by (rewrite flat_app, <- app_assoc; done).
  split; [by rewrite Ef'|]. rewrite Ef, Ef'. pose proof (room_perm_insert (flat A ++ [f]) v' (flat B)). lia.
Qed.

(** Appending a pair. *)
Lemma zl_append zl ps f v : zrepr zl (flat ps) -> 11 + room (flat ps) + (zlen f + 14) + (zlen v + 14) < 4294967296 ->
  exists zl1 zl2, ziplistPush zl f (zlen f) ZIPLIST_TAIL = Some zl1 /\ ziplistPush zl1 v (zlen v) ZIPLIST_TAIL = Some zl2 /\
    zrepr zl2 (flat (ps ++ [(f, v)])) /\ room (flat (ps ++ [(f, v)])) <= room (flat ps) + (zlen f + 14) + (zlen v + 14).
Proof.
  intros Hz Hroom. pose proof (zlen_nonneg f). pose proof (zlen_nonneg v).
  destruct (run_zl_op_spec zl (flat ps) (ZPush f ZIPLIST_TAIL) Hz I) as (zl1 & E1 & Hz1); [cbn [zl_cost]; lia|]. cbn [run_zl_op abs_zl_op] in *.
  pose proof (room_perm_insert (flat ps) f []) as H1r. rewrite app_nil_r in H1r.
  destruct (run_zl_op_spec zl1 _ (ZPush v ZIPLIST_TAIL) Hz1 I) as (zl2 & E2 & Hz2); [cbn [zl_cost]; lia|]. cbn [run_zl_op abs_zl_op] in *.
  pose proof (room_perm_insert (flat ps ++ [f]) v []) as H2r. rewrite app_nil_r in H2r.
  exists zl1, zl2. split_and!; try done; rewrite flat_app; cbn [flat fst snd]; change [f; v] with ([f] ++ [v]); rewrite app_assoc; [done|lia].
Qed.

(** Removing the two entries of a pair. *)
Lemma zl_remove zl A f v B c es : zl_at zl c es -> es.*2 = flat (A ++ (f, v) :: B) ->
  exists zl1 zl2, ziplistDelete zl (pos es (2 * length A)) = Some (zl1, pos es (2 * length A)) /\
    ziplistDelete zl1 (pos es (2 * length A)) = Some (zl2, pos es (2 * length A)) /\ zrepr zl2 (flat (A ++ B)).
Proof.
  intros Ha Hes. destruct (pair_entries es A f v B Hes) as (_ & _ & Hlt).
  destruct (delete_keeps zl c es (2 * length A) 1 Ha) as (zl1 & c1 & es1 & E1 & Ha1 & Ht1 & Hes1); [lia|lia|].
  rewrite Hes, flat_app in Hes1. cbn [flat fst snd] in Hes1. rewrite cut_mid in Hes1 by apply flat_length.
  assert (pos es (2 * length A) = pos es1 (2 * length A)) as Epos by (unfold pos; by rewrite Ht1).
  unfold ziplistDelete. rewrite E1. cbn [mbind option_bind]. exists zl1.
  apply (f_equal length) in Hes1 as Hl1. rewrite length_fmap, length_app, flat_length in Hl1. cbn [length] in Hl1.
  destruct (delete_at_pos zl1 c1 es1 (2 * length A) 1 Ha1) as (zl2 & E2 & Hz2); [lia|lia|].
  exists zl2. split; [done|]. rewrite Epos, E2. split; [done|]. rewrite Hes1 in Hz2.
  rewrite cut_mid in Hz2 by apply flat_length.
  by rewrite flat_app.
Qed.

(** The bytes an insertion may add to a ziplist. *)
Definition set_cost (f v : bytes) : Z := (zlen f + 14) + (zlen v + 14).

(** The conversion at the end of hashTypeSet. *)
Lemma set_finish n zl ps (update : bool) : hash_pairs n (HashZiplist zl) ps -> fits (pmap ps) ->
  exists o', ('(o, length) ← hashTypeLength (HashZiplist zl);
    o ← (if length >? max_entries then hashTypeConvert can a0 a1 o OBJ_ENCODING_HT else Some o);
    Some (o, update)) = Some (o', update) /\ hash_repr n o' (pmap ps).
Proof.
  intros Hp Hf. destruct (length_repr n (HashZiplist zl) (pmap ps)) as (o1 & -> & (ps1 & Hp1 & E1) & He1); [by exists ps|done|].
  cbn [mbind option_bind]. destruct (_ >? _); [|exists o1; split; [done|by exists ps1]].
  destruct o1 as [zl1|]; [|done]. destruct (hash_convert_spec n zl1 ps1 Hp1) as (d & -> & Hd). cbn [mbind option_bind].
  exists (HashHT d). split; [done|]. rewrite E1. by apply ht_hash.
Qed.

Lemma set_repr_hash n o m f v : hash_repr n o m -> fits (<[f := v]> m) -> printable f -> printable v ->
  11 + n + set_cost f v < 4294967296 ->
  exists o', hashTypeSet can max_entries a0 a1 o f v = Some (o', bool_decide (is_Some (m !! f))) /\
    hash_repr (n + set_cost f v) o' (<[f := v]> m).
Proof.
  intros Hr Hf Hpf Hpv Hn. unfold set_cost in *. pose proof (zlen_nonneg f). pose proof (zlen_nonneg v). destruct o as [zl|d].
  - destruct Hr as (ps & Hp & ->). inversion Hp as [? ? Hz Hnd Hmin Hroom|]; subst. cbn [hashTypeSet].
    apply zrepr_at in Hz as Hz'. destruct Hz' as (c & es & Ha & Hes). destruct (find_field_spec zl c es ps f Ha Hes) as (r & -> & Hfind). cbn [mbind option_bind].
    destruct r as [p|].
    + destruct Hfind as (A & w & B & -> & ->). destruct (pair_entries es A f w B Hes) as (_ & _ & Hlt).
      rewrite (next_pair zl c es _ Ha Hlt). cbn [mbind option_bind].
      destruct (zl_update zl A f w v B Hz c es Ha Hes) as (zl1 & zl2 & -> & E2 & Hz2 & Hr2); [lia|]. cbn [mbind option_bind]. rewrite E2. cbn [mbind option_bind].
      destruct (pmap_update A f w v B Hnd) as [Hnd' Ep]. rewrite pmap_lookup, bool_decide_true by done. rewrite <- Ep in *.
      apply set_finish; [|done]. constructor; [done|done|by eapply printable_mid|lia].
    + destruct (zl_append zl ps f v Hz) as (zl1 & zl2 & -> & E2 & Hz2 & Hr2); [lia|]. cbn [mbind option_bind]. rewrite E2. cbn [mbind option_bind].
      destruct (pmap_add ps f v Hnd Hfind) as [Hnd' Ep]. rewrite pmap_none, bool_decide_false by (done || by intros []). rewrite <- Ep in *.
      apply set_finish; [|done]. constructor; [done|done| |lia]. rewrite flat_app. apply Forall_app. split; [done|]. by repeat constructor.
  - apply ht_hash_inv in Hr as Hd. cbn [hashTypeSet].
    assert (fits m) as Hfm by (unfold fits in *; rewrite map_size_insert in Hf; destruct (m !! f); unfold id in Hf; lia).
    destruct (repr_find d m f Hd Hfm) as (d1 & -> & Hd1). cbn [mbind option_bind]. destruct (m !! f) as [w|] eqn:Em; cbn [fmap option_fmap option_map].
    + destruct (repr_set d1 m f w v Hd1 Em) as (d2 & -> & Hd2). cbn [mbind option_bind]. rewrite bool_decide_true by done.
      exists (HashHT d2). split; [done|by apply ht_hash].
    + destruct (repr_add can d1 m f v Hd1 Hfm Em) as (d2 & -> & Hd2). cbn [mbind option_bind]. rewrite bool_decide_false by (by intros []).
      exists (HashHT d2). split; [done|by apply ht_hash].
Qed.

Lemma delete_repr_hash n o m f : hash_repr n o m -> fits m ->
  exists o', hashTypeDelete can o f = Some (o', bool_decide (is_Some (m !! f))) /\ hash_repr n o' (delete f m).
Proof.
  intros Hr Hf. destruct o as [zl|d].
  - destruct Hr as (ps & Hp & ->). inversion Hp as [? ? Hz Hnd Hmin Hroom|]; subst. cbn [hashTypeDelete].
    apply zrepr_at in Hz as Hz'. destruct Hz' as (c & es & Ha & Hes). destruct (find_field_spec zl c es ps f Ha Hes) as (r & -> & Hfind). cbn [mbind option_bind].
    destruct r as [p|].
    + destruct Hfind as (A & w & B & -> & ->). destruct (zl_remove zl A f w B c es Ha Hes) as (zl1 & zl2 & -> & E2 & Hz2). cbn [mbind option_bind]. rewrite E2. cbn [mbind option_bind].
      destruct (pmap_remove A f w B Hnd) as [Hnd' Ep]. rewrite pmap_lookup, bool_decide_true by done. rewrite <- Ep.
      exists (HashZiplist zl2). split; [done|]. exists (A ++ B). split; [|done]. constructor; [done|done| |].
      * rewrite !flat_app in *. cbn [flat fst snd] in Hmin. rewrite !Forall_app, !Forall_cons in *. tauto.
      * rewrite !flat_app in *. cbn [flat fst snd] in Hroom. pose proof (room_le (flat A) w (flat B)) as H1r. pose proof (room_le (flat A) f (w :: flat B)) as H2r. lia.
    + rewrite pmap_none, bool_decide_false by (done || by intros []). exists (HashZiplist zl). split; [done|].
      rewrite delete_id by (by apply pmap_none). exists ps. by split; [constructor|].
  - apply ht_hash_inv in Hr as Hd. cbn [hashTypeDelete]. destruct (repr_delete_dom d m f Hd Hf) as (d' & -> & Hd'). cbn [mbind option_bind].
    rewrite (bool_decide_ext (f ∈ dom m) (is_Some (m !! f))) by apply elem_of_dom.
    destruct (bool_decide _); [|by eexists; split; [done|by apply ht_hash]].
    destruct (repr_resize_if can d' _ Hd') as (d'' & -> & Hd''); [by apply fits_delete|]. cbn [mbind option_bind].
    eexists; split; [done|by apply ht_hash].
Qed.

Lemma create_hash : exists o, createHashObject = Some o /\ hash_repr 0 o ∅.
Proof.
  destruct ziplistNew_spec as (zl & E & Ha). exists (HashZiplist zl). unfold createHashObject. rewrite E. split; [done|].
  exists []. split; [|done]. constructor; [apply zrepr_at; by exists 0, []|constructor|constructor|done].
Qed.

Lemma try_conversion_repr n zl m args : hash_repr n (HashZiplist zl) m ->
  exists o', try_conversion_args can max_value a0 a1 (HashZiplist zl) args = Some o' /\ hash_repr n o' m.
Proof.
  intros Hr. induction args as [|a args IH]; [by exists (HashZiplist zl)|].
  cbn [try_conversion_args]. destruct (sdsEncodedObject a) as [s|]; [|exact IH]. destruct (_ >? _); [|exact IH].
  destruct Hr as (ps & Hp & ->). destruct (hash_convert_spec n zl ps Hp) as (d & -> & Hd). exists (HashHT d). split; [done|by apply ht_hash].
Qed.

End Refinement.

(** ** Properties *)

(** The operations of a client, and the finite map they act on. *)
Inductive hop := HSet (f v : bytes) | HDel (f : bytes) | HGet (f : bytes) | HStrlen (f : bytes) | HExists (f : bytes) | HLen
  | HTryConversion (args : list strobj).

(** The answer: the integer the C function returns, and the value of a lookup. *)
Definition hop_answer : Type := Z * option bytes.

Section Run.
Context `{DictType bytes} `{FreshMem} (can : bool) (max_entries max_value : Z) (a0 a1 : Z).

Definition hval_bytes (h : hval) : bytes := match h with VStr s => s | VLL v => sdec v end.

Definition run_hop o (op : hop) : option (hash_obj * hop_answer) :=
  match op with
  | HSet f v => '(o, b) ← hashTypeSet can max_entries a0 a1 o f v; Some (o, (Z.b2z b, None))
  | HDel f => '(o, b) ← hashTypeDelete can o f; Some (o, (Z.b2z b, None))
  | HGet f => '(o, h) ← hashTypeGetValue o f; Some (o, (0, match h with Some h => Some (hval_bytes h) | None => None end))
  | HStrlen f => '(o, n) ← hashTypeGetValueLength o f; Some (o, (n, None))
  | HExists f => '(o, b) ← hashTypeExists o f; Some (o, (Z.b2z b, None))
  | HLen => '(o, n) ← hashTypeLength o; Some (o, (n, None))
  | HTryConversion args => o ← hashTypeTryConversion can max_value a0 a1 o args 0 (zlen args - 1); Some (o, (0, None))
  end.

Fixpoint run_hops o (ops : list hop) : option (hash_obj * list hop_answer) :=
  match ops with
  | [] => Some (o, [])
  | op :: ops => '(o, r) ← run_hop o op; '(o, rs) ← run_hops o ops; Some (o, r :: rs)
  end.

Definition abs_hop m (op : hop) : gmap bytes bytes * hop_answer :=
  match op with
  | HSet f v => (<[f := v]> m, (Z.b2z (bool_decide (is_Some (m !! f))), None))
  | HDel f => (delete f m, (Z.b2z (bool_decide (is_Some (m !! f))), None))
  | HGet f => (m, (0, m !! f))
  | HStrlen f => (m, (match m !! f with None => 0 | Some v => zlen v end, None))
  | HExists f => (m, (Z.b2z (bool_decide (is_Some (m !! f))), None))
  | HLen => (m, (Z.of_nat (base.size m), None))
  | HTryConversion _ => (m, (0, None))
  end.

Fixpoint abs_hops m (ops : list hop) : gmap bytes bytes * list hop_answer :=
  match ops with
  | [] => (m, [])
  | op :: ops => let '(m, r) := abs_hop m op in let '(m, rs) := abs_hops m ops in (m, r :: rs)
  end.

Definition hop_ok (op : hop) : Prop := match op with HSet f v => printable f /\ printable v | _ => True end.
Definition hop_cost (op : hop) : Z := match op with HSet f v => set_cost f v | _ => 0 end.
Definition hops_cost (ops : list hop) : Z := foldr (fun op n => hop_cost op + n) 0 ops.

Lemma hop_cost_nonneg op : 0 <= hop_cost op.
Proof. destruct op as [f v| | | | | |]; cbn; try lia. unfold set_cost. pose proof (zlen_nonneg f). pose proof (zlen_nonneg v). lia. Qed.
Lemma hops_cost_nonneg ops : 0 <= hops_cost ops.
Proof. unfold hops_cost. induction ops as [|op ops IH]; [done|]. cbn [foldr]. pose proof (hop_cost_nonneg op). lia. Qed.

Lemma fits_small m (k : Z) : Z.of_nat (base.size m) <= k -> k <= PAIRS_MAX -> fits m.
Proof. unfold fits, PAIRS_MAX, DICT_BOUND. lia. Qed.

Lemma size_insert_le m f v : Z.of_nat (base.size (<[f := v]> m)) <= Z.of_nat (base.size m) + 1.
Proof. rewrite map_size_insert. destruct (m !! f); unfold id; lia. Qed.

Lemma weaken_repr n n' o m : n <= n' -> hash_repr n o m -> hash_repr n' o m.
Proof. intros Hn (ps & Hp & ->). exists ps. split; [|done]. destruct Hp; constructor; try done. lia. Qed.

Lemma get_answer h (mv : option bytes) : match mv with None => h = None | Some v => exists w, h = Some w /\ hval_is w v end ->
  match h with Some h => Some (hval_bytes h) | None => None end = mv.
Proof. destruct mv as [v|]; [|by intros ->]. intros (w & -> & Hw). destruct w; cbn in *; [by subst|by destruct Hw as [_ ->]]. Qed.

Lemma hop_repr n o m op : hash_repr n o m -> Z.of_nat (base.size m) < PAIRS_MAX -> hop_ok op -> 11 + n + hop_cost op < 4294967296 ->
  exists o', run_hop o op = Some (o', (abs_hop m op).2) /\ hash_repr (n + hop_cost op) o' (abs_hop m op).1 /\
    Z.of_nat (base.size (abs_hop m op).1) <= Z.of_nat (base.size m) + 1.
Proof.
  intros Hr Hs Hok Hn. assert (fits m) as Hf by (eapply fits_small; [reflexivity|lia]).
  destruct op as [f v|f|f|f|f| |args]; cbn [run_hop abs_hop fst snd hop_cost hop_ok] in *; rewrite ?Z.add_0_r.
  - destruct Hok as [Hpf Hpv]. pose proof (size_insert_le m f v) as Hsz.
    destruct (set_repr_hash can max_entries a0 a1 n o m f v Hr) as (o' & -> & Hr'); [by eapply fits_small; [exact Hsz|lia]|done..|].
    exists o'. by split_and!.
  - destruct (delete_repr_hash can n o m f Hr Hf) as (o' & -> & Hr'). exists o'. split_and!; try done.
    pose proof (map_subseteq_size _ _ (delete_subseteq m f)). lia.
  - destruct (get_repr n o m f Hr Hf) as (o1 & h & o2 & o3 & Hr1 & _ & _ & -> & _ & _ & Hh). exists o1. cbn [mbind option_bind].
    rewrite (get_answer _ _ Hh). split_and!; try done. lia.
  - destruct (get_repr n o m f Hr Hf) as (o1 & h & o2 & o3 & _ & Hr2 & _ & _ & -> & _ & _). exists o2. split_and!; try done. lia.
  - destruct (get_repr n o m f Hr Hf) as (o1 & h & o2 & o3 & _ & _ & Hr3 & _ & _ & -> & _). exists o3. split_and!; try done. lia.
  - destruct (length_repr n o m Hr Hf) as (o' & -> & Hr' & _). exists o'. split_and!; try done. lia.
  - unfold hashTypeTryConversion. destruct o as [zl|d]; [|exists (HashHT d); split_and!; try done; lia].
    destruct (try_conversion_repr can max_value a0 a1 n zl m (ztake (zlen args - 1 - 0 + 1) (zdrop 0 args)) Hr) as (o' & -> & Hr').
    exists o'. split_and!; try done. lia.
Qed.

Lemma hops_repr ops : forall n o m, hash_repr n o m -> Z.of_nat (base.size m) + zlen ops <= PAIRS_MAX -> Forall hop_ok ops ->
  11 + n + hops_cost ops < 4294967296 ->
  exists o', run_hops o ops = Some (o', (abs_hops m ops).2) /\ hash_repr (n + hops_cost ops) o' (abs_hops m ops).1.
Proof.
  induction ops as [|op ops IH]; intros n o m Hr Hs Hok Hn; [exists o; cbn; by rewrite Z.add_0_r|].
  apply Forall_cons in Hok as [Hop Hok]. rewrite zlen_cons in Hs. pose proof (zlen_nonneg ops). cbn [hops_cost foldr] in Hn. fold (hops_cost ops) in Hn.
  pose proof (hops_cost_nonneg ops). cbn [run_hops abs_hops].
  destruct (hop_repr n o m op Hr ltac:(lia) Hop ltac:(lia)) as (o1 & -> & Hr1 & Hs1). cbn [mbind option_bind].
  destruct (abs_hop m op) as [m1 r]. cbn [fst snd] in *.
  destruct (IH (n + hop_cost op) o1 m1 Hr1 ltac:(lia) Hok ltac:(lia)) as (o2 & -> & Hr2). cbn [mbind option_bind].
  destruct (abs_hops m1 ops) as [m2 rs]. exists o2. cbn [hops_cost foldr]. fold (hops_cost ops). by rewrite Z.add_assoc.
Qed.

End Run.

(** C9. The hash type refines a finite map from strings to strings: any sequence of updates, deletions, lookups,
    length and existence queries and conversion checks on a new hash completes, gives the answers of the map, and
    ends in an object that holds exactly its pairs, in the ziplist encoding as in the dictionary encoding and across
    the conversion, whatever the limits of the configuration are.  The bytes of the operations are bounded so that
    a ziplist of all of them fits its 32 bit size field. *)
Theorem hash_refines `{DictType bytes} `{FreshMem} can max_entries max_value a0 a1 ops :
  zlen ops <= PAIRS_MAX -> Forall hop_ok ops -> 11 + hops_cost ops < 4294967296 ->
  exists o0 o, createHashObject = Some o0 /\
    run_hops can max_entries max_value a0 a1 o0 ops = Some (o, (abs_hops ∅ ops).2) /\
    hash_repr (hops_cost ops) o (abs_hops ∅ ops).1.
Proof.
  intros Hl Hok Hc. destruct create_hash as (o0 & E & Hr). exists o0.
  destruct (hops_repr can max_entries max_value a0 a1 ops 0 o0 ∅ Hr) as (o & Er & Hr'); [rewrite map_size_empty; lia|done|lia|]. by exists o.
Qed.

(** All the pairs, by the iterator of the type. *)
Fixpoint hash_iterate `{FreshMem} (fuel : nat) (a0 a1 : Z) o (hi : hashTypeIterator) :
    option (list (bytes * bytes) * hash_obj * hashTypeIterator) :=
  match fuel with
  | O => None
  | S fuel =>
      '(o, hi, more) ← hashTypeNext a0 a1 o hi;
      if negb more then Some ([], o, hi) else
      k ← hashTypeCurrentObjectNewSds o hi OBJ_HASH_KEY;
      v ← hashTypeCurrentObjectNewSds o hi OBJ_HASH_VALUE;
      '(l, o, hi) ← hash_iterate fuel a0 a1 o hi;
      Some ((k, v) :: l, o, hi)
  end.

Lemma hash_iterate_spec `{DictType bytes} `{FreshMem} a0 a1 fuel : forall o hi cur ps, hash_upcoming a0 a1 o hi cur ps -> (length ps < fuel)%nat ->
  exists hi', hash_iterate fuel a0 a1 o hi = Some (ps, o, hi') /\ hashTypeReleaseIterator a0 a1 o hi' = Some o.
Proof.
  induction fuel as [|fuel IH]; intros o hi cur ps Hu Hf; [lia|]. cbn [hash_iterate].
  destruct (hash_next_spec a0 a1 o hi cur ps Hu) as (hi1 & -> & Hn). cbn [mbind option_bind].
  destruct ps as [|p ps]; cbn [negb]; [by exists hi1|].
  destruct (hash_current_spec a0 a1 o hi1 p ps Hn) as [-> ->]. cbn [mbind option_bind].
  destruct (IH o hi1 (Some p) ps Hn ltac:(cbn in Hf; lia)) as (hi2 & -> & Hrel). exists hi2. by destruct p.
Qed.

(** An iteration over a hash object returns every pair of the map exactly once in either encoding, with numbers
    printed back to the strings they were stored from, and releasing the iterator leaves the object as it was. *)
Theorem hash_iteration `{DictType bytes} `{FreshMem} a0 a1 n o m :
  hash_repr n o m ->
  exists l hi, hash_iterate (S (base.size m)) a0 a1 o (hashTypeInitIterator o) = Some (l, o, hi) /\
    hashTypeReleaseIterator a0 a1 o hi = Some o /\ l ≡ₚ map_to_list m.
Proof.
  intros (ps & Hp & ->). assert (NoDup ps.*1) as Hn by (destruct Hp as [|d Hwf]; [done|apply Hwf]).
  destruct (hash_iterate_spec a0 a1 (S (base.size (pmap ps))) o (hashTypeInitIterator o) None ps) as (hi & E & Hrel).
  { by eapply hash_upcoming_start. } { rewrite pmap_size by done. lia. }
  exists ps, hi. split_and!; try done. symmetry. by apply map_to_list_to_map.
Qed.

(** ** A concrete run

    A ziplist that becomes a dictionary with its third pair. *)
#[local] Existing Instance bytes_dict_type.

Definition demo_hops : list hop :=
  [HSet (bytes_of_string "a") (bytes_of_string "1"); HSet (bytes_of_string "b") (bytes_of_string "xyz"); HSet (bytes_of_string "a") (bytes_of_string "22");
   HGet (bytes_of_string "a"); HStrlen (bytes_of_string "b"); HLen; HSet (bytes_of_string "c") (bytes_of_string "-5"); HDel (bytes_of_string "b");
   HGet (bytes_of_string "c"); HExists (bytes_of_string "b"); HLen].

Lemma demo_hops_ok : Forall hop_ok demo_hops.
Proof. repeat constructor; vm_compute; congruence. Qed.

Lemma hash_refines_witness :
  exists o0 o, createHashObject = Some o0 /\
    run_hops true 2 64 0 0 o0 demo_hops = Some (o, (abs_hops ∅ demo_hops).2) /\
    hash_repr (hops_cost demo_hops) o (abs_hops ∅ demo_hops).1.
Proof.
  exact (hash_refines true 2 64 0 0 demo_hops ltac:(vm_compute; congruence) demo_hops_ok ltac:(vm_compute; reflexivity)).
Defined.

(** The ziplist of "a" with 7 and "b" with "yes". *)
Definition demo_hash : hash_obj :=
  default (HashHT dictCreate) (o ← createHashObject; fst <$> run_hops true 9 64 0 0 o [HSet [97] [55]; HSet [98] [121; 101; 115]]).

Lemma demo_hash_repr : hash_repr 100 demo_hash {[ [97] := [55]; [98] := [121; 101; 115] ]}.
Proof.
  destruct create_hash as (o0 & E0 & Hr). set (ops := [HSet [97] [55]; HSet [98] [121; 101; 115]]).
  destruct (hops_repr true 9 64 0 0 ops 0 o0 ∅ Hr) as (o & E & Hr');
    [vm_compute; congruence|repeat constructor; vm_compute; congruence|vm_compute; reflexivity|].
  assert (demo_hash = o) as -> by (unfold demo_hash; rewrite E0; cbn [mbind option_bind]; fold ops; by rewrite E).
  eapply weaken_repr; [|exact Hr']. vm_compute. congruence.
Qed.

Lemma hash_iteration_witness :
  exists l hi, hash_iterate 3 0 0 demo_hash (hashTypeInitIterator demo_hash) = Some (l, demo_hash, hi) /\
    hashTypeReleaseIterator 0 0 demo_hash hi = Some demo_hash /\
    l ≡ₚ map_to_list ({[ [97] := [55]; [98] := [121; 101; 115] ]} : gmap bytes bytes).
Proof. exact (hash_iteration 0 0 100 demo_hash _ demo_hash_repr). Defined.
