(* ===== verification/Skiplist.v ===== *)
(** * Sorted sets: the skiplist of t_zset.c

    The nodes live in a heap, a finite map from addresses; following NULL or an
    address that holds no node is [None] as a result.  A score is a C double,
    a [spec_float]; the comparisons are those of IEEE 754, so every comparison
    with NaN is false.  An element is the contents of its sds string, [None] for
    NULL; sdscmp compares contents (SdsText).  The forward pointer and the span
    of level i of a node are the i-th pair of [level].  random() is a list of the
    values its calls return.  Memory obtained from zmalloc holds unspecified
    values, [fresh_level] and [fresh_backward].

    The descent from the top level to level 0 that every operation starts with
    is one definition, [descend], with the condition of the inner while loop as
    an argument. *)

From stdpp Require Import base list numbers option gmap sets.
From Stdlib Require Import ZArith Lia Floats.SpecFloat.
From S2P Require Import Prelude Sds SdsText Dict.

Abbreviation loc := positive.

Definition ZSKIPLIST_MAXLEVEL : nat := 32.

Record zskiplistNode := mk_zn {
  ele : option bytes; score : spec_float; backward : option loc; level : list (option loc * Z)
}.
Record zskiplist := mk_zsl { header : loc; tail : option loc; length_ : Z; level_ : nat }.

(** Ranges by score. *)
Record zrangespec := mk_range { min : spec_float; max : spec_float; minex : bool; maxex : bool }.

(** The ends of a range by element: shared.minstring, shared.maxstring or a string. *)
Inductive lexstr := minstring | maxstring | LexStr (s : bytes).
Record zlexrangespec := mk_lexrange { lmin : lexstr; lmax : lexstr; lminex : bool; lmaxex : bool }.

Definition isnan (x : spec_float) : bool := match x with S754_nan => true | _ => false end.

(** The value of sdscmp on two strings, from their contents. *)
Definition elecmp (a b : option bytes) : option Z := x ← a; y ← b; Some (sign_of (lex x y)).

Abbreviation heap := (gmap loc zskiplistNode).
Implicit Types (h : heap) (zsl : zskiplist) (x : loc) (i : nat).

(** ** Access to the fields *)

Definition level_at h x i : option (option loc * Z) := n ← h !! x; level n !! i.
Definition set_level h x i (v : option loc * Z) : option heap :=
  n ← h !! x; _ ← level n !! i;
  Some (<[x := mk_zn (ele n) (score n) (backward n) (<[i := v]> (level n))]> h).
Definition set_backward h x (b : option loc) : option heap :=
  n ← h !! x; Some (<[x := mk_zn (ele n) (score n) b (level n)]> h).
Definition set_score h x (s : spec_float) : option heap :=
  n ← h !! x; Some (<[x := mk_zn (ele n) s (backward n) (level n)]> h).
Definition zsl_tail zsl (t : option loc) := mk_zsl (header zsl) t (length_ zsl) (level_ zsl).
Definition zsl_length zsl (n : Z) := mk_zsl (header zsl) (tail zsl) n (level_ zsl).
Definition zsl_level zsl (n : nat) := mk_zsl (header zsl) (tail zsl) (length_ zsl) n.

(** An address that holds no node. *)
Definition new_zn h : loc := fresh (dom h : gset loc).

(** ** The descent *)

(** [while (x->level[i].forward && go(...)) { rank += x->level[i].span; x = x->level[i].forward; }]
    where [go] sees the forward node, the rank so far and the span. *)
Fixpoint advance (go : zskiplistNode -> Z -> Z -> option bool) (wrap : Z -> Z) (fuel : nat) h x i (rank : Z)
    : option (loc * Z) :=
  match fuel with
  | O => None
  | S fuel =>
      '(forward, span) ← level_at h x i;
      match forward with
      | None => Some (x, rank)
      | Some f =>
          n ← h !! f;
          b ← go n rank span;
          if (b : bool) then advance go wrap fuel h f i (wrap (rank + span)) else Some (x, rank)
      end
  end.

(** [for (i = n-1; i >= 0; i--)]: the node and the rank reached at level 0, and
    the arrays update and rank, level 0 first. *)
Fixpoint descend (go : zskiplistNode -> Z -> Z -> option bool) (wrap : Z -> Z) (fuel : nat) h (n : nat)
    x (rank : Z) (update : list (loc * Z)) : option (loc * Z * list (loc * Z)) :=
  match n with
  | O => Some (x, rank, update)
  | S i =>
      '(x, rank) ← advance go wrap fuel h x i rank;
      descend go wrap fuel h i x rank ((x, rank) :: update)
  end.

Definition search (go : zskiplistNode -> Z -> Z -> option bool) (wrap : Z -> Z) h zsl :=
  descend go wrap (S (Z.to_nat (length_ zsl))) h (level_ zsl) (header zsl) 0 [].

(** [forward->score < score || (forward->score == score && sdscmp(forward->ele,ele) < 0)] *)
Definition before (sc : spec_float) (e : option bytes) (n : zskiplistNode) (rank span : Z) : option bool :=
  if SFltb (score n) sc then Some true
  else if SFeqb (score n) sc then c ← elecmp (ele n) e; Some (c <? 0)
  else Some false.

(** ** Creation *)

Section Ops.
Context (fresh_level : option loc * Z) (fresh_backward : option loc).

Definition zslCreateNode (lv : nat) (sc : spec_float) (e : option bytes) : zskiplistNode :=
  mk_zn e sc fresh_backward (replicate lv fresh_level).

Fixpoint create_loop (n : nat) h x i : option heap :=
  match n with
  | O => Some h
  | S n => h ← set_level h x i (None, 0); create_loop n h x (S i)
  end.

Definition zslCreate h : option (heap * zskiplist) :=
  let x := new_zn h in
  let h := <[x := zslCreateNode ZSKIPLIST_MAXLEVEL (S754_zero false) None]> h in
  h ← create_loop ZSKIPLIST_MAXLEVEL h x 0;
  h ← set_backward h x None;
  Some (h, mk_zsl x None 0 1).

Definition zslFreeNode h x : option heap := _ ← h !! x; Some (delete x h).

Fixpoint free_loop (fuel : nat) h (node : option loc) : option heap :=
  match node with
  | None => Some h
  | Some x =>
      match fuel with
      | O => None
      | S fuel => '(next, _) ← level_at h x 0; h ← zslFreeNode h x; free_loop fuel h next
      end
  end.

Definition zslFree h zsl : option heap :=
  '(node, _) ← level_at h (header zsl) 0;
  free_loop (Z.to_nat (length_ zsl)) (delete (header zsl) h) node.

(** [(random()&0xFFFF) < (ZSKIPLIST_P * 0xFFFF)] with ZSKIPLIST_P = 1/4. *)
Fixpoint random_loop (rnd : list Z) (lv : Z) : option (Z * list Z) :=
  match rnd with
  | [] => None
  | r :: rnd => if 4 * Z.land r 65535 <? 65535 then random_loop rnd (lv + 1) else Some (lv, rnd)
  end.

Definition zslRandomLevel (rnd : list Z) : option (nat * list Z) :=
  '(lv, rnd) ← random_loop rnd 1;
  Some (if lv <? Z.of_nat ZSKIPLIST_MAXLEVEL then Z.to_nat lv else ZSKIPLIST_MAXLEVEL, rnd).

(** ** Insertion *)

(** [if (x->level[0].forward) x->level[0].forward->backward = b; else zsl->tail = b;] *)
Definition relink h zsl (xf b : option loc) : option (heap * zskiplist) :=
  match xf with
  | Some f => h ← set_backward h f b; Some (h, zsl)
  | None => Some (h, zsl_tail zsl b)
  end.

(** Levels not used before: rank[i] = 0, update[i] is the header. *)
Fixpoint raise_loop (n : nat) h zsl i (update : list (loc * Z)) : option (heap * list (loc * Z)) :=
  match n with
  | O => Some (h, update)
  | S n =>
      '(forward, _) ← level_at h (header zsl) i;
      h ← set_level h (header zsl) i (forward, length_ zsl);
      raise_loop n h zsl (S i) (update ++ [(header zsl, 0)])
  end.

Fixpoint link_loop (n : nat) h x i (update : list (loc * Z)) : option heap :=
  match n with
  | O => Some h
  | S n =>
      '(u, rank_i) ← update !! i;
      '(_, rank_0) ← update !! O;
      '(uf, us) ← level_at h u i;
      '(_, xs) ← level_at h x i;
      h ← set_level h x i (uf, xs);
      h ← set_level h u i (Some x, us);
      '(xf, _) ← level_at h x i;
      h ← set_level h x i (xf, u64 (us - u32 (rank_0 - rank_i)));
      h ← set_level h u i (Some x, u32 (u32 (rank_0 - rank_i) + 1));
      link_loop n h x (S i) update
  end.

(** [update[i]->level[i].span++] on the levels above the new node. *)
Fixpoint bump_loop (n : nat) h i (update : list (loc * Z)) : option heap :=
  match n with
  | O => Some h
  | S n =>
      '(u, _) ← update !! i;
      '(uf, us) ← level_at h u i;
      h ← set_level h u i (uf, u64 (us + 1));
      bump_loop n h (S i) update
  end.

Definition zslInsert h zsl (rnd : list Z) (sc : spec_float) (e : bytes) : option (heap * zskiplist * list Z * loc) :=
  if isnan sc then None else
  '(_, _, update) ← search (before sc (Some e)) u32 h zsl;
  '(lv, rnd) ← zslRandomLevel rnd;
  '(h, update) ← raise_loop (lv - level_ zsl) h zsl (level_ zsl) update;
  let zsl := if (level_ zsl <? lv)%nat then zsl_level zsl lv else zsl in
  let x := new_zn h in
  let h := <[x := zslCreateNode lv sc (Some e)]> h in
  h ← link_loop lv h x 0 update;
  h ← bump_loop (level_ zsl - lv) h lv update;
  '(u0, _) ← update !! O;
  h ← set_backward h x (if bool_decide (u0 = header zsl) then None else Some u0);
  '(xf, _) ← level_at h x 0;
  '(h, zsl) ← relink h zsl xf (Some x);
  Some (h, zsl_length zsl (u64 (length_ zsl + 1)), rnd, x).

(** ** Deletion *)

Fixpoint unlink_loop (n : nat) h x i (update : list (loc * Z)) : option heap :=
  match n with
  | O => Some h
  | S n =>
      '(u, _) ← update !! i;
      '(uf, us) ← level_at h u i;
      h ← (if bool_decide (uf = Some x) then
             '(xf, xs) ← level_at h x i; set_level h u i (xf, u64 (us + u64 (xs - 1)))
           else set_level h u i (uf, u64 (us - 1)));
      unlink_loop n h x (S i) update
  end.

(** [while(zsl->level > 1 && header->level[zsl->level-1].forward == NULL) zsl->level--] *)
Fixpoint shrink_loop (n : nat) h x : option nat :=
  match n with
  | S (S _ as m) =>
      '(f, _) ← level_at h x m;
      match f with None => shrink_loop m h x | Some _ => Some n end
  | _ => Some n
  end.

Definition zslDeleteNode h zsl x (update : list (loc * Z)) : option (heap * zskiplist) :=
  h ← unlink_loop (level_ zsl) h x 0 update;
  n ← h !! x;
  '(xf, _) ← level n !! O;
  '(h, zsl) ← relink h zsl xf (backward n);
  lv ← shrink_loop (level_ zsl) h (header zsl);
  let zsl := zsl_level zsl lv in
  Some (h, zsl_length zsl (u64 (length_ zsl - 1))).

(** [score == x->score && sdscmp(x->ele,ele) == 0] *)
Definition same (sc : spec_float) (e : option bytes) (n : zskiplistNode) : option bool :=
  if SFeqb sc (score n) then c ← elecmp (ele n) e; Some (c =? 0) else Some false.

(** The result is the node found; [keep] when the caller passes a pointer to receive it. *)
Definition zslDelete h zsl (sc : spec_float) (e : bytes) (keep : bool) : option (heap * zskiplist * option loc) :=
  '(x, _, update) ← search (before sc (Some e)) u32 h zsl;
  '(xf, _) ← level_at h x 0;
  match xf with
  | None => Some (h, zsl, None)
  | Some x =>
      n ← h !! x;
      b ← same sc (Some e) n;
      if (b : bool) then
        '(h, zsl) ← zslDeleteNode h zsl x update;
        h ← (if keep then Some h else zslFreeNode h x);
        Some (h, zsl, Some x)
      else Some (h, zsl, None)
  end.

(** [x->backward == NULL || x->backward->score < newscore], and the same forward. *)
Definition stays h (n : zskiplistNode) (newscore : spec_float) : option bool :=
  '(xf, _) ← level n !! O;
  b ← match backward n with None => Some true | Some b => m ← h !! b; Some (SFltb (score m) newscore) end;
  if negb b then Some false else
  match xf with None => Some true | Some f => m ← h !! f; Some (SFltb newscore (score m)) end.

Definition zslUpdateScore h zsl (rnd : list Z) (curscore : spec_float) (e : bytes) (newscore : spec_float)
    : option (heap * zskiplist * list Z * loc) :=
  '(x, _, update) ← search (before curscore (Some e)) u32 h zsl;
  '(xf, _) ← level_at h x 0;
  x ← xf;
  n ← h !! x;
  b ← same curscore (Some e) n;
  if negb b then None else
  s ← stays h n newscore;
  if (s : bool) then h ← set_score h x newscore; Some (h, zsl, rnd, x) else
  '(h, zsl) ← zslDeleteNode h zsl x update;
  n ← h !! x;
  e ← ele n;
  '(h, zsl, rnd, newnode) ← zslInsert h zsl rnd newscore e;
  h ← zslFreeNode h x;
  Some (h, zsl, rnd, newnode).

End Ops.

(** ** Ranges by score *)

Definition zslValueGteMin (value : spec_float) (spec : zrangespec) : bool :=
  if minex spec then SFltb (min spec) value else SFleb (min spec) value.
Definition zslValueLteMax (value : spec_float) (spec : zrangespec) : bool :=
  if maxex spec then SFltb value (max spec) else SFleb value (max spec).

Definition zslIsInRange h zsl (range : zrangespec) : option bool :=
  if SFltb (max range) (min range) || (SFeqb (min range) (max range) && (minex range || maxex range)) then Some false else
  match tail zsl with
  | None => Some false
  | Some x =>
      n ← h !! x;
      if negb (zslValueGteMin (score n) range) then Some false else
      '(f, _) ← level_at h (header zsl) 0;
      match f with
      | None => Some false
      | Some x => n ← h !! x; Some (zslValueLteMax (score n) range)
      end
  end.

Definition zslFirstInRange h zsl (range : zrangespec) : option (option loc) :=
  b ← zslIsInRange h zsl range;
  if negb b then Some None else
  '(x, _, _) ← search (fun n _ _ => Some (negb (zslValueGteMin (score n) range))) u64 h zsl;
  '(xf, _) ← level_at h x 0;
  x ← xf;
  n ← h !! x;
  Some (if zslValueLteMax (score n) range then Some x else None).

Definition zslLastInRange h zsl (range : zrangespec) : option (option loc) :=
  b ← zslIsInRange h zsl range;
  if negb b then Some None else
  '(x, _, _) ← search (fun n _ _ => Some (zslValueLteMax (score n) range)) u64 h zsl;
  n ← h !! x;
  Some (if zslValueGteMin (score n) range then Some x else None).

(** ** Ranges by element *)

Definition sdscmplex (a b : lexstr) : Z :=
  match a, b with
  | minstring, minstring | maxstring, maxstring => 0
  | minstring, _ | _, maxstring => -1
  | maxstring, _ | _, minstring => 1
  | LexStr a, LexStr b => sign_of (lex a b)
  end.

Definition zslLexValueGteMin (value : bytes) (spec : zlexrangespec) : bool :=
  if lminex spec then 0 <? sdscmplex (LexStr value) (lmin spec) else 0 <=? sdscmplex (LexStr value) (lmin spec).
Definition zslLexValueLteMax (value : bytes) (spec : zlexrangespec) : bool :=
  if lmaxex spec then sdscmplex (LexStr value) (lmax spec) <? 0 else sdscmplex (LexStr value) (lmax spec) <=? 0.

Definition zslIsInLexRange h zsl (range : zlexrangespec) : option bool :=
  let cmp := sdscmplex (lmin range) (lmax range) in
  if (0 <? cmp) || ((cmp =? 0) && (lminex range || lmaxex range)) then Some false else
  match tail zsl with
  | None => Some false
  | Some x =>
      n ← h !! x;
      e ← ele n;
      if negb (zslLexValueGteMin e range) then Some false else
      '(f, _) ← level_at h (header zsl) 0;
      match f with
      | None => Some false
      | Some x => n ← h !! x; e ← ele n; Some (zslLexValueLteMax e range)
      end
  end.

Definition zslFirstInLexRange h zsl (range : zlexrangespec) : option (option loc) :=
  b ← zslIsInLexRange h zsl range;
  if negb b then Some None else
  '(x, _, _) ← search (fun n _ _ => e ← ele n; Some (negb (zslLexValueGteMin e range))) u64 h zsl;
  '(xf, _) ← level_at h x 0;
  x ← xf;
  n ← h !! x;
  e ← ele n;
  Some (if zslLexValueLteMax e range then Some x else None).

Definition zslLastInLexRange h zsl (range : zlexrangespec) : option (option loc) :=
  b ← zslIsInLexRange h zsl range;
  if negb b then Some None else
  '(x, _, _) ← search (fun n _ _ => e ← ele n; Some (zslLexValueLteMax e range)) u64 h zsl;
  n ← h !! x;
  e ← ele n;
  Some (if zslLexValueGteMin e range then Some x else None).

(** A string object, or one encoded as an integer. *)
Inductive robj := ObjInt (v : Z) | ObjStr (s : bytes).

(** The exclusive flag and the end of the range, or C_ERR. *)
Definition zslParseLexRangeItem (s : bytes) : option (lexstr * bool) :=
  let c := s ++ [0] in
  c0 ← c !! O;
  if c0 =? 43 then (c1 ← c !! 1%nat; if negb (c1 =? 0) then None else Some (maxstring, true))
  else if c0 =? 45 then (c1 ← c !! 1%nat; if negb (c1 =? 0) then None else Some (minstring, true))
  else if c0 =? 40 then Some (LexStr (drop 1 s), true)
  else if c0 =? 91 then Some (LexStr (drop 1 s), false)
  else None.

Definition zslParseLexRange (mn mx : robj) : option zlexrangespec :=
  match mn, mx with
  | ObjStr a, ObjStr b =>
      '(lo, loex) ← zslParseLexRangeItem a;
      '(hi, hiex) ← zslParseLexRangeItem b;
      Some (mk_lexrange lo hi loex hiex)
  | _, _ => None
  end.

(** ** Ranks *)

Fixpoint rank_loop (e : bytes) (go : zskiplistNode -> Z -> Z -> option bool) (fuel : nat) h (n : nat) x (rank : Z)
    : option Z :=
  match n with
  | O => Some 0
  | S i =>
      '(x, rank) ← advance go u64 fuel h x i rank;
      nd ← h !! x;
      found ← match ele nd with None => Some false | Some y => c ← elecmp (Some y) (Some e); Some (c =? 0) end;
      if (found : bool) then Some rank else rank_loop e go fuel h i x rank
  end.

(** [... && sdscmp(x->level[i].forward->ele,ele) <= 0] *)
Definition upto (sc : spec_float) (e : option bytes) (n : zskiplistNode) (rank span : Z) : option bool :=
  if SFltb (score n) sc then Some true
  else if SFeqb (score n) sc then c ← elecmp (ele n) e; Some (c <=? 0)
  else Some false.

Definition zslGetRank h zsl (sc : spec_float) (e : bytes) : option Z :=
  rank_loop e (upto sc (Some e)) (S (Z.to_nat (length_ zsl))) h (level_ zsl) (header zsl) 0.

Fixpoint byrank_loop (rank : Z) (fuel : nat) h (n : nat) x (traversed : Z) : option (option loc) :=
  match n with
  | O => Some None
  | S i =>
      '(x, traversed) ← advance (fun _ t span => Some (u64 (t + span) <=? rank)) u64 fuel h x i traversed;
      if traversed =? rank then Some (Some x) else byrank_loop rank fuel h i x traversed
  end.

Definition zslGetElementByRank h zsl (rank : Z) : option (option loc) :=
  byrank_loop rank (S (Z.to_nat (length_ zsl))) h (level_ zsl) (header zsl) 0.

(** ** Deletion of ranges, from the skiplist and from the dict of the sorted set *)

Section DeleteRange.
Context `{DictType bytes}.

(** [while (x && cond) { next = ...; zslDeleteNode; dictDelete; zslFreeNode; removed++; x = next; }]
    with the value of [traversed] for the loop by rank. *)
Fixpoint delrange_loop (cond : zskiplistNode -> Z -> option bool) (fuel : nat) h zsl (d : dict bytes loc)
    (x : option loc) (update : list (loc * Z)) (traversed removed : Z) : option (heap * zskiplist * dict bytes loc * Z) :=
  match x with
  | None => Some (h, zsl, d, removed)
  | Some x =>
      match fuel with
      | O => None
      | S fuel =>
          n ← h !! x;
          b ← cond n traversed;
          if negb b then Some (h, zsl, d, removed) else
          '(next, _) ← level_at h x 0;
          '(h, zsl) ← zslDeleteNode h zsl x update;
          n ← h !! x;
          e ← ele n;
          '(d, _) ← dictDelete d e;
          h ← zslFreeNode h x;
          delrange_loop cond fuel h zsl d next update (u64 (traversed + 1)) (u64 (removed + 1))
      end
  end.

Definition zslDeleteRangeByScore h zsl (range : zrangespec) (d : dict bytes loc) :=
  '(x, _, update) ← search (fun n _ _ => Some (if minex range then SFleb (score n) (min range)
                                             else SFltb (score n) (min range))) u64 h zsl;
  '(xf, _) ← level_at h x 0;
  delrange_loop (fun n _ => Some (if maxex range then SFltb (score n) (max range) else SFleb (score n) (max range)))
    (S (Z.to_nat (length_ zsl))) h zsl d xf update 0 0.

Definition zslDeleteRangeByLex h zsl (range : zlexrangespec) (d : dict bytes loc) :=
  '(x, _, update) ← search (fun n _ _ => e ← ele n; Some (negb (zslLexValueGteMin e range))) u64 h zsl;
  '(xf, _) ← level_at h x 0;
  delrange_loop (fun n _ => e ← ele n; Some (zslLexValueLteMax e range))
    (S (Z.to_nat (length_ zsl))) h zsl d xf update 0 0.

Definition zslDeleteRangeByRank h zsl (start end_ : Z) (d : dict bytes loc) :=
  '(x, traversed, update) ← search (fun _ t span => Some (u64 (t + span) <? start)) u64 h zsl;
  '(xf, _) ← level_at h x 0;
  delrange_loop (fun _ t => Some (t <=? end_)) (S (Z.to_nat (length_ zsl))) h zsl d xf update (u64 (traversed + 1)) 0.

End DeleteRange.
