(* ===== verification/SkiplistSpec.v ===== *)
(** * Sorted sets: layout and lemmas of the skiplist

    The abstract value of a skiplist is the list of its nodes in order, each with
    its address, score, element and height.  [sl_repr h zsl L] says that the heap
    holds that list: level i of a node points to the next node higher than i and
    its span is the distance to it, or to the end of the list when there is none;
    the header does the same from before the first node. *)

From stdpp Require Import base list numbers option gmap sets sorting.
From Stdlib Require Import ZArith Lia Floats.SpecFloat.
From S2P Require Import Prelude Sds SdsText Dict Skiplist.

(** ** The order of scores *)

(** Doubles other than NaN are ordered as these triples, lexicographically. *)
Definition fkey (x : spec_float) : Z * Z * Z :=
  match x with
  | S754_zero _ | S754_nan => (0, 0, 0)
  | S754_infinity s => (if s then -2 else 2, 0, 0)
  | S754_finite true m e => (-1, -e, Z.neg m)
  | S754_finite false m e => (1, e, Z.pos m)
  end.

Definition klt (a b : Z * Z * Z) : Prop :=
  a.1.1 < b.1.1 \/ (a.1.1 = b.1.1 /\ (a.1.2 < b.1.2 \/ (a.1.2 = b.1.2 /\ a.2 < b.2))).

Lemma klt_irrefl a : ~ klt a a.
Proof. unfold klt. lia. Qed.
Lemma klt_trans a b c : klt a b -> klt b c -> klt a c.
Proof. unfold klt. lia. Qed.
Lemma klt_total a b : klt a b \/ a = b \/ klt b a.
Proof.
  destruct a as [[a1 a2] a3], b as [[b1 b2] b3]. unfold klt; cbn.
  assert (a1 = b1 /\ a2 = b2 /\ a3 = b3 \/ ~ (a1 = b1 /\ a2 = b2 /\ a3 = b3)) as [(-> & -> & ->)|?] by lia; [by right; left|lia].
Qed.

Lemma SFcompare_key x y : isnan x = false -> isnan y = false ->
  match SFcompare x y with
  | Some Lt => klt (fkey x) (fkey y) | Some Eq => fkey x = fkey y | Some Gt => klt (fkey y) (fkey x) | None => False
  end.
Proof.
  destruct x as [?|[]| |[] m e], y as [?|[]| |[] m' e']; try done; intros _ _; unfold klt; cbn; try lia.
  - destruct (Z.compare_spec e e') as [->| |]; cbn; [|lia..]. fold (Pos.compare m m').
    destruct (Pos.compare_spec m m') as [->| |]; cbn; [done|lia..].
  - destruct (Z.compare_spec e e') as [->| |]; cbn; [|lia..]. fold (Pos.compare m m').
    destruct (Pos.compare_spec m m') as [->| |]; cbn; [done|lia..].
Qed.

Lemma SFltb_key x y : isnan x = false -> isnan y = false -> SFltb x y = true <-> klt (fkey x) (fkey y).
Proof.
  intros Hx Hy. pose proof (SFcompare_key x y Hx Hy) as Hc. unfold SFltb.
  destruct (SFcompare x y) as [[]|]; try done; split; intros Hk; try done.
  - rewrite Hc in Hk. by apply klt_irrefl in Hk.
  - destruct (klt_irrefl (fkey x)). by eapply klt_trans.
Qed.

Lemma SFeqb_key x y : isnan x = false -> isnan y = false -> SFeqb x y = true <-> fkey x = fkey y.
Proof.
  intros Hx Hy. pose proof (SFcompare_key x y Hx Hy) as Hc. unfold SFeqb.
  destruct (SFcompare x y) as [[]|]; try done; split; intros Hk; try done; rewrite Hk in Hc; by apply klt_irrefl in Hc.
Qed.

Lemma SFleb_key x y : isnan x = false -> isnan y = false -> SFleb x y = true <-> klt (fkey x) (fkey y) \/ fkey x = fkey y.
Proof.
  intros Hx Hy. pose proof (SFcompare_key x y Hx Hy) as Hc. unfold SFleb.
  destruct (SFcompare x y) as [[]|]; try done; split; intros Hk; try done; [by right|by left|].
  destruct Hk as [Hk|Hk]; [destruct (klt_irrefl (fkey x)); by eapply klt_trans|].
  rewrite Hk in Hc. by apply klt_irrefl in Hc.
Qed.

(** ** The order of the nodes: by score, then by element *)

Definition slt (a b : spec_float * bytes) : Prop :=
  klt (fkey a.1) (fkey b.1) \/ (fkey a.1 = fkey b.1 /\ lex a.2 b.2 = Lt).
(** Equal scores, as the code compares them, and the same element. *)
Definition seq_ (a b : spec_float * bytes) : Prop := fkey a.1 = fkey b.1 /\ a.2 = b.2.

Lemma lex_refl a : lex a a = Eq.
Proof. by apply lex_eq. Qed.

Lemma slt_irrefl a b : seq_ a b -> ~ slt a b.
Proof. intros [E1 E2] [H|[_ H]]; [rewrite E1 in H; by apply klt_irrefl in H|]. by rewrite E2, lex_refl in H. Qed.

Lemma slt_trans a b c : slt a b -> slt b c -> slt a c.
Proof.
  intros [H1|[E1 H1]] [H2|[E2 H2]]; unfold slt.
  - left. by eapply klt_trans.
  - left. by rewrite <- E2.
  - left. by rewrite E1.
  - right. split; [congruence|]. by eapply lex_lt_trans.
Qed.

Lemma slt_total a b : slt a b \/ seq_ a b \/ slt b a.
Proof.
  unfold slt, seq_. destruct (klt_total (fkey a.1) (fkey b.1)) as [H|[E|H]]; [by left; left| |by right; right; left].
  destruct (lex a.2 b.2) eqn:El.
  - right; left. split; [done|by apply lex_eq].
  - left; right. done.
  - right; right; right. split; [done|]. by rewrite lex_antisym, El.
Qed.

#[global] Instance klt_dec a b : Decision (klt a b).
Proof. unfold klt. apply _. Defined.
#[global] Instance comparison_eq_dec : EqDecision comparison.
Proof. solve_decision. Defined.
#[global] Instance slt_dec a b : Decision (slt a b).
Proof. unfold slt. apply _. Defined.
#[global] Instance seq_dec a b : Decision (seq_ a b).
Proof. unfold seq_. apply _. Defined.

(** ** Nodes and layout *)

Record znode := mk_z { z_loc : loc; z_score : spec_float; z_ele : bytes; z_h : nat }.
Definition zkey (z : znode) : spec_float * bytes := (z_score z, z_ele z).
Implicit Types (h : heap) (zsl : zskiplist) (x : loc) (i : nat).
Implicit Types (z : znode) (L A B R : list znode).

Definition low i z : Prop := (z_h z <= i)%nat.

(** The level i pointer and span of a node followed by the nodes [R]. *)
Fixpoint fwd i R : option loc * Z :=
  match R with
  | [] => (None, 0)
  | z :: R => if (i <? z_h z)%nat then (Some (z_loc z), 1) else ((fwd i R).1, (fwd i R).2 + 1)
  end.

(** The nodes of [A] are in the heap, level i of a node being [g i] of the nodes
    of [A] after it. *)
Fixpoint chain h (g : nat -> list znode -> option loc * Z) (prev : option loc) A : Prop :=
  match A with
  | [] => True
  | z :: A =>
      h !! z_loc z = Some (mk_zn (Some (z_ele z)) (z_score z) prev ((fun i => g i A) <$> seq 0 (z_h z))) /\
      chain h g (Some (z_loc z)) A
  end.

Record hdr_ok h (hd : loc) (n : nat) (g : nat -> list znode -> option loc * Z) A (lv : list (option loc * Z)) : Prop := {
  hdr_node : h !! hd = Some (mk_zn None (S754_zero false) None lv);
  hdr_size : length lv = ZSKIPLIST_MAXLEVEL;
  hdr_used : forall i, (i < n)%nat -> lv !! i = Some (g i A);
  hdr_free : forall i v, (n <= i)%nat -> lv !! i = Some v -> v.1 = None
}.

(** The last address of [A], or [d]. *)
Definition final (d : option loc) A : option loc := match last A with Some z => Some (z_loc z) | None => d end.
Definition node_of (hd : loc) A : loc := match last A with Some z => z_loc z | None => hd end.

Definition SL_MAX : Z := 2 ^ 32 - 2.

Record sl_shape h zsl L : Prop := {
  sl_hdr : exists lv, hdr_ok h (header zsl) (level_ zsl) fwd L lv;
  sl_chain : chain h fwd None L;
  sl_nodup : NoDup (header zsl :: (z_loc <$> L));
  sl_tail : tail zsl = final None L;
  sl_len : length_ zsl = zlen L;
  sl_max : zlen L <= SL_MAX;
  sl_level : (1 <= level_ zsl <= ZSKIPLIST_MAXLEVEL)%nat;
  sl_heights : Forall (fun z => (1 <= z_h z <= level_ zsl)%nat) L
}.

Definition sorted_nodes L : Prop := StronglySorted slt (zkey <$> L) /\ Forall (fun z => isnan (z_score z) = false) L.

Record sl_repr h zsl L : Prop := {
  repr_shape : sl_shape h zsl L;
  repr_order : sorted_nodes L
}.

Lemma fwd_nonneg i R : 0 <= (fwd i R).2.
Proof. induction R as [|z R IH]; cbn [fwd]; [done|]. destruct (i <? z_h z)%nat; cbn; lia. Qed.

Lemma fwd_le i R : (fwd i R).2 <= zlen R.
Proof.
  induction R as [|z R IH]; cbn [fwd]; [done|]. rewrite zlen_cons. pose proof (zlen_nonneg R).
  destruct (i <? z_h z)%nat; cbn; lia.
Qed.

Lemma fwd_low i A R : Forall (low i) A -> fwd i (A ++ R) = ((fwd i R).1, zlen A + (fwd i R).2).
Proof.
  induction 1 as [|z A Hz HA IH]; [cbn [app]; by destruct (fwd i R)|]. unfold low in Hz. cbn [app fwd].
  rewrite (proj2 (Nat.ltb_ge _ _)) by lia. rewrite IH, zlen_cons. cbn. f_equal. lia.
Qed.

Lemma fwd_all_low i A : Forall (low i) A -> fwd i A = (None, zlen A).
Proof. intros Ha. rewrite <- (app_nil_r A) at 1. rewrite (fwd_low i A [] Ha). cbn. f_equal. lia. Qed.

Lemma fwd_hit i z R : (i < z_h z)%nat -> fwd i (z :: R) = (Some (z_loc z), 1).
Proof. intros Hz. cbn [fwd]. by rewrite (proj2 (Nat.ltb_lt _ _)). Qed.

(** The first node higher than [i]. *)
Lemma first_high i R : Forall (low i) R \/ exists N z R', R = N ++ z :: R' /\ Forall (low i) N /\ (i < z_h z)%nat.
Proof.
  induction R as [|z R IH]; [by left|]. destruct (Nat.le_gt_cases (z_h z) i) as [Hz|Hz].
  - destruct IH as [IH|(N & z' & R' & -> & HN & Hz')]; [by left; constructor|].
    right. exists (z :: N), z', R'. split_and!; [done|by constructor|done].
  - right. exists [], z, R. done.
Qed.

Lemma fwd_none i R : (fwd i R).1 = None -> Forall (low i) R.
Proof.
  destruct (first_high i R) as [?|(N & z & R' & -> & HN & Hz)]; [done|]. by rewrite fwd_low, fwd_hit.
Qed.

Lemma fwd_high i N z R R' : Forall (low i) N -> (i < z_h z)%nat -> fwd i (N ++ z :: R) = fwd i (N ++ z :: R').
Proof. intros HN Hz. by rewrite !fwd_low, !fwd_hit. Qed.

(** The part of [A] up to the last node higher than [i]. *)
Fixpoint pre i A : list znode :=
  match A with
  | [] => []
  | z :: A => match pre i A with [] => if (i <? z_h z)%nat then [z] else [] | P => z :: P end
  end.

Lemma pre_low i A : Forall (low i) A -> pre i A = [].
Proof. induction 1 as [|z A Hz HA IH]; [done|]. unfold low in Hz. cbn [pre]. by rewrite IH, (proj2 (Nat.ltb_ge _ _)). Qed.

Lemma pre_high i N z R : (i < z_h z)%nat -> pre i (N ++ z :: R) = N ++ z :: pre i R.
Proof.
  intros Hz. induction N as [|y N IH]; cbn [app pre].
  - rewrite (proj2 (Nat.ltb_lt _ _)) by done. by destruct (pre i R).
  - rewrite IH. by destruct N.
Qed.

Lemma pre_cases i A : (pre i A = [] /\ Forall (low i) A) \/
  exists N z R, A = N ++ z :: R /\ pre i A = N ++ [z] /\ (i < z_h z)%nat /\ Forall (low i) R.
Proof.
  induction A as [|z A IH] using rev_ind; [by left|]. destruct (Nat.le_gt_cases (z_h z) i) as [Hz|Hz].
  - destruct IH as [[E Ha]|(N & y & R & -> & E & Hy & HR)].
    + left. rewrite pre_low; [split; [done|]|]; apply Forall_app; split; try done; by constructor.
    + right. exists N, y, (R ++ [z]). rewrite <- app_assoc. cbn. split_and!; [done| |done|].
      * rewrite pre_high, pre_low; try done. apply Forall_app. split; [done|by constructor].
      * apply Forall_app. split; [done|by constructor].
  - right. exists A, z, []. by rewrite pre_high.
Qed.

Lemma pre_split i A : exists R, A = pre i A ++ R /\ Forall (low i) R.
Proof.
  destruct (pre_cases i A) as [[-> Ha]|(N & z & R & -> & -> & _ & HR)]; [by exists A|].
  exists R. by rewrite <- app_assoc.
Qed.

Lemma pre_step i A R : A = pre (S i) A ++ R -> pre (S i) A ++ pre i R = pre i A.
Proof.
  intros E. destruct (pre_cases (S i) A) as [[Ep _]|(N & z & R' & EA & Ep & Hz & _)]; rewrite Ep in E |- *.
  - cbn in E. by subst.
  - rewrite E, <- !app_assoc. cbn. rewrite pre_high by lia. done.
Qed.

(** ** Reading the heap *)

Lemma zsl_final_app d A B : final d (A ++ B) = final (final d A) B.
Proof. unfold final. rewrite last_app. by destruct (last B). Qed.

Lemma zsl_chain_app h g p A B :
  chain h g p (A ++ B) <-> chain h (fun i R => g i (R ++ B)) p A /\ chain h g (final p A) B.
Proof.
  revert p. induction A as [|z A IH]; intros p; [by cbn; intuition|]. cbn [app chain]. rewrite IH.
  change (z :: A) with ([z] ++ A). rewrite (zsl_final_app p [z] A). cbn. tauto.
Qed.

Lemma chain_mid h g p A z B : chain h g p (A ++ z :: B) ->
  h !! z_loc z = Some (mk_zn (Some (z_ele z)) (z_score z) (final p A) ((fun i => g i B) <$> seq 0 (z_h z))).
Proof. intros (_ & Hz & _)%zsl_chain_app. done. Qed.

Lemma lookup_levels {T} (g : nat -> T) n i : (i < n)%nat -> (g <$> seq 0 n) !! i = Some (g i).
Proof. intros Hi. by rewrite list_lookup_fmap, lookup_seq_lt. Qed.

Lemma node_of_snoc hd A z : node_of hd (A ++ [z]) = z_loc z.
Proof. unfold node_of. by rewrite last_snoc. Qed.

(** The node at the end of the prefix [A] has a level [i]. *)
Definition tall (n : nat) i A : Prop := match last A with Some z => (i < z_h z)%nat | None => (i < n)%nat end.

Lemma level_at_node h zsl A R i : sl_shape h zsl (A ++ R) -> tall (level_ zsl) i A ->
  level_at h (node_of (header zsl) A) i = Some (fwd i R).
Proof.
  intros Hs. destruct A as [|z A _] using rev_ind; unfold tall, level_at.
  - cbn. intros Hi. destruct (sl_hdr _ _ _ Hs) as (lv & [-> _ Hu _]). cbn. by apply Hu.
  - rewrite last_snoc, node_of_snoc. intros Hi. pose proof (sl_chain _ _ _ Hs) as Hc. rewrite <- app_assoc in Hc.
    rewrite (chain_mid _ _ _ _ _ _ Hc). cbn. by apply (lookup_levels (fun i => fwd i R)).
Qed.

(** ** The descent *)

(** Whether the condition [go] of a descent lets it pass the node [z], the [n]-th. *)
Definition goes (go : zskiplistNode -> Z -> Z -> option bool) (n : Z) z (b : bool) : Prop :=
  forall nd r s, ele nd = Some (z_ele z) -> score nd = z_score z -> 0 <= r -> 0 <= s -> r + s = n -> go nd r s = Some b.

(** The descent stops between [A] and [B]. *)
Record stops (go : zskiplistNode -> Z -> Z -> option bool) A B : Prop := {
  stops_go : forall N z R, A = N ++ z :: R -> goes go (zlen N + 1) z true;
  stops_stop : forall N z R, B = N ++ z :: R -> goes go (zlen A + zlen N + 1) z false
}.

Section Descent.
Context (h : heap) (zsl : zskiplist) (A B : list znode) (go : zskiplistNode -> Z -> Z -> option bool) (wrap : Z -> Z).
Hypothesis Hs : sl_shape h zsl (A ++ B).
Hypothesis Hgo : stops go A B.
Hypothesis Hwrap : forall n, 0 <= n < 4294967296 -> wrap n = n.

Lemma advance_stop i P R fuel : A = P ++ R -> tall (level_ zsl) i P -> Forall (low i) R ->
  advance go wrap (S fuel) h (node_of (header zsl) P) i (zlen P) = Some (node_of (header zsl) P, zlen P).
Proof.
  intros EA Ht HR. pose proof Hs as Hs'. rewrite EA, <- app_assoc in Hs'. cbn [advance].
  rewrite (level_at_node _ _ _ _ _ Hs' Ht). cbn [mbind option_bind]. rewrite (fwd_low i R B HR).
  destruct (first_high i B) as [HB|(N & z & B' & EB & HN & Hz)]; [by rewrite (fwd_all_low i B HB)|].
  rewrite EB, (fwd_low i N _ HN), (fwd_hit i z B' Hz). cbn [fst snd].
  pose proof (sl_chain _ _ _ Hs) as Hc. rewrite EB, app_assoc in Hc. rewrite (chain_mid _ _ _ _ _ _ Hc). cbn [mbind option_bind].
  pose proof (zlen_nonneg P). pose proof (zlen_nonneg R). pose proof (zlen_nonneg N).
  rewrite (stops_stop _ _ _ Hgo N z B' EB); [done|done|done|lia|lia|]. rewrite EA, zlen_app. lia.
Qed.

Lemma advance_spec i n : forall P R fuel, length R = n -> A = P ++ R -> tall (level_ zsl) i P -> (n < fuel)%nat ->
  advance go wrap fuel h (node_of (header zsl) P) i (zlen P) =
  Some (node_of (header zsl) (P ++ pre i R), zlen (P ++ pre i R)).
Proof.
  induction n as [n IH] using (well_founded_induction lt_wf). intros P R [|fuel] En EA Ht Hf; [lia|].
  destruct (first_high i R) as [HR|(N & z & R' & ER & HN & Hz)].
  { rewrite (pre_low i R HR), app_nil_r. by apply advance_stop with R. }
  pose proof Hs as Hs'. rewrite EA, <- app_assoc in Hs'. cbn [advance].
  rewrite (level_at_node _ _ _ _ _ Hs' Ht). cbn [mbind option_bind].
  rewrite ER, <- app_assoc, (fwd_low i N _ HN). cbn [app]. rewrite (fwd_hit i z _ Hz). cbn [fst snd].
  pose proof (sl_chain _ _ _ Hs') as Hc. rewrite ER, <- app_assoc, app_assoc in Hc. cbn [app] in Hc.
  rewrite (chain_mid _ _ _ _ _ _ Hc). cbn [mbind option_bind].
  pose proof (zlen_nonneg P). pose proof (zlen_nonneg N). pose proof (zlen_nonneg R'). pose proof (zlen_nonneg B).
  pose proof (sl_max _ _ _ Hs) as Hm. rewrite EA, ER, !zlen_app, zlen_cons in Hm. unfold SL_MAX in Hm.
  assert (A = (P ++ N) ++ z :: R') as EA' by (by rewrite EA, ER, <- app_assoc).
  rewrite (stops_go _ _ _ Hgo _ _ _ EA'); [|done|done|lia|lia|rewrite zlen_app; lia].
  replace (z_loc z) with (node_of (header zsl) ((P ++ N) ++ [z])) by apply node_of_snoc.
  rewrite Hwrap by lia. replace (zlen P + (zlen N + 1)) with (zlen ((P ++ N) ++ [z])) by (rewrite !zlen_app, zlen_cons, zlen_nil; lia).
  rewrite (IH (length R')) with (R := R'); [|by rewrite <- En, ER, length_app; cbn; lia|done| | |].
  - by rewrite (pre_high i N z R' Hz), <- !app_assoc.
  - by rewrite EA', <- !app_assoc.
  - unfold tall. by rewrite last_snoc.
  - rewrite ER, length_app in En. cbn in En. lia.
Qed.

(** The arrays update and rank: the last node before the position at each level. *)
Definition updates n : list (loc * Z) := (fun i => (node_of (header zsl) (pre i A), zlen (pre i A))) <$> seq 0 n.

Lemma tall_pre i n : (i < n)%nat -> (i < level_ zsl)%nat -> tall (level_ zsl) i (pre n A).
Proof.
  intros Hi Hl. unfold tall. destruct (pre_cases n A) as [[-> _]|(N & z & R & _ & -> & Hz & _)]; [done|].
  rewrite last_snoc. lia.
Qed.

Lemma descend_spec fuel n : (length A < fuel)%nat -> (n <= level_ zsl)%nat -> forall upd,
  upd = (fun i => (node_of (header zsl) (pre i A), zlen (pre i A))) <$> seq n (level_ zsl - n) ->
  descend go wrap fuel h n (node_of (header zsl) (pre n A)) (zlen (pre n A)) upd =
  Some (node_of (header zsl) (pre 0 A), zlen (pre 0 A), updates (level_ zsl)).
Proof.
  intros Hf. induction n as [|i IH]; intros Hn upd Eu; cbn [descend].
  { rewrite Eu, Nat.sub_0_r. done. }
  destruct (pre_split (S i) A) as (R & ER & HR).
  pose proof (f_equal length ER) as El. rewrite length_app in El.
  rewrite (advance_spec i (length R) (pre (S i) A) R fuel eq_refl ER); [|apply tall_pre; lia|lia].
  cbn [mbind option_bind]. rewrite (pre_step i A R ER). apply IH; [lia|].
  rewrite Eu. replace (level_ zsl - i)%nat with (S (level_ zsl - S i)) by lia. done.
Qed.

Lemma pre_0 : pre 0 A = A.
Proof.
  pose proof (sl_heights _ _ _ Hs) as Hh. apply Forall_app in Hh as [Hh _].
  destruct (pre_split 0 A) as (R & ER & HR). destruct R as [|z R _] using rev_ind; [by rewrite app_nil_r in ER|].
  apply Forall_app in HR as [_ Hz]. rewrite ER in Hh. rewrite app_assoc in Hh. apply Forall_app in Hh as [_ Hh].
  apply Forall_cons_1 in Hh as [Hh _]. apply Forall_cons_1 in Hz as [Hz _]. unfold low in Hz. lia.
Qed.

Lemma zsl_search_spec : search go wrap h zsl = Some (node_of (header zsl) A, zlen A, updates (level_ zsl)).
Proof.
  assert (pre (level_ zsl) A = []) as Ep.
  { apply pre_low. pose proof (sl_heights _ _ _ Hs) as Hh. apply Forall_app in Hh as [Hh _].
    eapply Forall_impl; [exact Hh|]. unfold low. lia. }
  unfold search. pose proof (descend_spec (S (Z.to_nat (length_ zsl))) (level_ zsl)) as Hd. rewrite Ep in Hd.
  rewrite (sl_len _ _ _ Hs) in *. cbn [node_of last] in Hd. change (zlen (@nil znode)) with 0 in Hd.
  change (node_of (header zsl) []) with (header zsl) in Hd. rewrite Hd; [by rewrite pre_0| |done|by rewrite Nat.sub_diag].
  unfold zlen. rewrite Nat2Z.id, length_app. lia.
Qed.

Lemma search_next : level_at h (node_of (header zsl) A) 0 = Some (fwd 0 B).
Proof.
  apply level_at_node; [done|]. rewrite <- pre_0. destruct (pre_cases 0 A) as [[-> _]|(N & z & R & _ & -> & Hz & _)]; unfold tall.
  - cbn. pose proof (sl_level _ _ _ Hs). lia.
  - rewrite last_snoc. lia.
Qed.

End Descent.

(** ** Writing the heap *)

Definition with_level (n : zskiplistNode) i (v : option loc * Z) : zskiplistNode :=
  mk_zn (ele n) (score n) (backward n) (<[i := v]> (level n)).

Lemma set_level_in h x i n v w : h !! x = Some n -> level n !! i = Some w ->
  set_level h x i v = Some (<[x := with_level n i v]> h).
Proof. intros Hx Hi. unfold set_level. rewrite Hx. cbn. by rewrite Hi. Qed.

Lemma chain_ext h g g' p A : (forall N z R, A = N ++ z :: R -> forall k, (k < z_h z)%nat -> g k R = g' k R) ->
  chain h g p A -> chain h g' p A.
Proof.
  revert p. induction A as [|z A IH]; intros p Hg; [done|]. cbn [chain]. intros [Hz Hc]. split.
  - rewrite Hz. do 2 f_equal. apply list_fmap_ext. intros j k Hk. apply lookup_seq in Hk as [-> Hk].
    apply (Hg [] z A eq_refl). lia.
  - apply IH; [|done]. intros N y R -> k Hk. by apply (Hg (z :: N) y R).
Qed.

Lemma chain_frame h h' g p A : (forall l, l ∈ z_loc <$> A -> h' !! l = h !! l) -> chain h g p A -> chain h' g p A.
Proof.
  revert p. induction A as [|z A IH]; intros p Hf; [done|]. cbn [chain]. intros [Hz Hc]. split.
  - rewrite Hf; [done|]. rewrite fmap_cons. apply elem_of_cons. by left.
  - apply IH; [|done]. intros l Hl. apply Hf. rewrite fmap_cons. apply elem_of_cons. by right.
Qed.

Lemma chain_insert h g p A x n : x ∉ z_loc <$> A -> chain h g p A -> chain (<[x := n]> h) g p A.
Proof. intros Hx. apply chain_frame. intros l Hl. rewrite lookup_insert_ne; [done|]. by intros ->. Qed.

(** Levels below [j] as [g2], the others as [g1]. *)
Definition mix (j : nat) (g1 g2 : nat -> list znode -> option loc * Z) (k : nat) R : option loc * Z :=
  if (k <? j)%nat then g2 k R else g1 k R.

Lemma mix_same j g1 g2 k R : k <> j -> mix j g1 g2 k R = mix (S j) g1 g2 k R.
Proof. intros Hk. unfold mix. destruct (Nat.ltb_spec k j), (Nat.ltb_spec k (S j)); done || lia. Qed.
Lemma mix_old j g1 g2 R : mix j g1 g2 j R = g1 j R.
Proof. unfold mix. by rewrite Nat.ltb_irrefl. Qed.
Lemma mix_new j g1 g2 R : mix (S j) g1 g2 j R = g2 j R.
Proof. unfold mix. by rewrite (proj2 (Nat.ltb_lt _ _)) by lia. Qed.

Lemma levels_insert j g1 g2 R m : (j < m)%nat ->
  <[j := g2 j R]> ((fun k => mix j g1 g2 k R) <$> seq 0 m) = (fun k => mix (S j) g1 g2 k R) <$> seq 0 m.
Proof.
  intros Hj. apply list_eq. intros k. destruct (decide (k = j)) as [->|Hne].
  - rewrite list_lookup_insert_eq by (rewrite length_fmap, length_seq; lia).
    rewrite (lookup_levels (fun k => mix (S j) g1 g2 k R)) by lia. by rewrite mix_new.
  - rewrite list_lookup_insert_ne by done. rewrite !list_lookup_fmap. destruct (seq 0 m !! k) as [k'|] eqn:E; [|done].
    apply lookup_seq in E as [-> _]. cbn. f_equal. by apply mix_same.
Qed.

(** The header and the nodes [A], with the levels given by [g]. *)
Definition anchored h (hd : loc) (n : nat) g A : Prop := (exists lv, hdr_ok h hd n g A lv) /\ chain h g None A.

Lemma anchored_insert h hd n g A x nd : x ∉ hd :: (z_loc <$> A) -> anchored h hd n g A -> anchored (<[x := nd]> h) hd n g A.
Proof.
  intros Hx [(lv & [Hn Hsz Hu Hf]) Hc]. apply not_elem_of_cons in Hx as [Hhd Hx]. split; [|by apply chain_insert].
  exists lv. split; [|done..]. by rewrite lookup_insert_ne.
Qed.

Lemma mix_full h hd n g1 g2 A : Forall (fun z => (1 <= z_h z <= n)%nat) A -> anchored h hd n (mix n g1 g2) A -> anchored h hd n g2 A.
Proof.
  intros Hh [(l & [H1 H2 H3 H4]) Hc]. split.
  - exists l. split; try done. intros k Hk. rewrite H3 by done. unfold mix. by rewrite (proj2 (Nat.ltb_lt _ _)).
  - eapply chain_ext; [|exact Hc]. intros N z R EA k Hk. unfold mix. rewrite (proj2 (Nat.ltb_lt _ _)); [done|].
    rewrite EA in Hh. apply Forall_app in Hh as [_ Hz]. apply Forall_cons_1 in Hz as [Hz _]. lia.
Qed.

Lemma anchored_frame h h' hd n g A : (forall l, l ∈ hd :: (z_loc <$> A) -> h' !! l = h !! l) ->
  anchored h hd n g A -> anchored h' hd n g A.
Proof.
  intros Hf [(ls & [H1 H2 H3 H4]) Hc]. split.
  - exists ls. split; [|done..]. rewrite Hf; [done|]. apply elem_of_cons. by left.
  - eapply chain_frame; [|exact Hc]. intros l Hl. apply Hf. apply elem_of_cons. by right.
Qed.

Section Slot.
Context (hd : loc) (n : nat) (g1 g2 : nat -> list znode -> option loc * Z) (A : list znode).
Hypothesis Hnd : NoDup (hd :: (z_loc <$> A)).
Hypothesis Hn : (n <= ZSKIPLIST_MAXLEVEL)%nat.
(** A node sees no change behind the next node higher than the level. *)
Hypothesis Hagree : forall k N z R, (k < z_h z)%nat -> g1 k (N ++ z :: R) = g2 k (N ++ z :: R).

Lemma slot_header h i lv : (i < n)%nat -> Forall (low i) A ->
  hdr_ok h hd n (mix i g1 g2) A lv -> chain h (mix i g1 g2) None A ->
  lv !! i = Some (g1 i A) /\
  anchored (<[hd := with_level (mk_zn None (S754_zero false) None lv) i (g2 i A)]> h) hd n (mix (S i) g1 g2) A.
Proof.
  intros Hi HA [Hh Hsz Hu Hf] Hc. split; [by rewrite Hu, mix_old|]. apply NoDup_cons in Hnd as [Hhd _]. split.
  - exists (<[i := g2 i A]> lv). split.
    + by rewrite lookup_insert_eq.
    + by rewrite length_insert.
    + intros k Hk. destruct (decide (k = i)) as [->|Hne].
      * rewrite list_lookup_insert_eq by lia. by rewrite mix_new.
      * rewrite list_lookup_insert_ne by done. rewrite Hu by done. by rewrite mix_same.
    + intros k v Hk. rewrite list_lookup_insert_ne by lia. by apply Hf.
  - apply chain_insert; [done|]. eapply chain_ext; [|exact Hc]. intros N z R -> k Hk.
    apply mix_same. apply Forall_app in HA as [_ HA]. apply Forall_cons_1 in HA as [Hz _]. unfold low in Hz. lia.
Qed.

Lemma slot_node h i N z R : A = N ++ z :: R -> (i < z_h z)%nat -> Forall (low i) R ->
  anchored h hd n (mix i g1 g2) A ->
  exists nu, h !! z_loc z = Some nu /\ level nu !! i = Some (g1 i R) /\
    anchored (<[z_loc z := with_level nu i (g2 i R)]> h) hd n (mix (S i) g1 g2) A.
Proof.
  intros EA Hi HR [(lv & [Hh Hsz Hu Hf]) Hc]. rewrite EA, fmap_app, fmap_cons in Hnd.
  apply NoDup_cons in Hnd as [Hhd Hnd']. apply NoDup_app in Hnd' as (_ & Hdis & HndR). apply NoDup_cons in HndR as [HzR _].
  rewrite EA in Hc. pose proof Hc as Hz. apply chain_mid in Hz. eexists. split; [exact Hz|]. cbn [level].
  split; [rewrite lookup_levels by done; by rewrite mix_old|].
  rewrite EA. split.
  - exists lv. split; [|done| |done].
    + rewrite lookup_insert_ne; [done|]. intros E. apply Hhd. rewrite <- E. apply elem_of_app. right. apply elem_of_cons. by left.
    + intros k Hk. rewrite Hu, EA by done. destruct (decide (k = i)) as [->|Hne]; [|by rewrite mix_same].
      by rewrite mix_old, mix_new, Hagree.
  - apply zsl_chain_app in Hc as (HcN & _ & HcR). apply zsl_chain_app. split; [|split].
    + apply chain_insert; [intros Hin; by eapply (Hdis _ Hin), elem_of_cons; left|].
      eapply chain_ext; [|exact HcN]. intros N' y R' -> k Hk. cbn. destruct (decide (k = i)) as [->|Hne]; [|by rewrite mix_same].
      by rewrite mix_old, mix_new, Hagree.
    + rewrite lookup_insert_eq. unfold with_level. cbn. do 2 f_equal. by apply levels_insert.
    + apply chain_insert; [done|]. eapply chain_ext; [|exact HcR]. intros N' y R' -> k Hk. apply mix_same.
      apply Forall_app in HR as [_ HR]. apply Forall_cons_1 in HR as [Hy _]. unfold low in Hy. lia.
Qed.

(** Writing level [i] of the last node of [A] higher than [i], or of the header. *)
Lemma slot_spec h i : (i < n)%nat -> anchored h hd n (mix i g1 g2) A ->
  exists R nu, A = pre i A ++ R /\ Forall (low i) R /\
    h !! node_of hd (pre i A) = Some nu /\ level nu !! i = Some (g1 i R) /\
    anchored (<[node_of hd (pre i A) := with_level nu i (g2 i R)]> h) hd n (mix (S i) g1 g2) A.
Proof.
  intros Hi Ha. destruct (pre_cases i A) as [[Ep HA]|(N & z & R & EA & Ep & Hz & HR)]; rewrite Ep.
  - destruct Ha as [(lv & Hh) Hc]. exists A, (mk_zn None (S754_zero false) None lv).
    destruct (slot_header h i lv Hi HA Hh Hc) as [Hl Ha']. split_and!; try done. by destruct Hh.
  - destruct (slot_node h i N z R EA Hz HR Ha) as (nu & Hnu & Hl & Ha'). exists R, nu.
    rewrite node_of_snoc. split_and!; try done. by rewrite <- app_assoc.
Qed.

End Slot.

Lemma node_of_in hd i A : node_of hd (pre i A) ∈ hd :: (z_loc <$> A).
Proof.
  destruct (pre_cases i A) as [[-> _]|(N & z & R & EA & -> & _ & _)]; [apply elem_of_cons; by left|].
  rewrite node_of_snoc. apply elem_of_cons. right. rewrite EA, fmap_app, fmap_cons.
  apply elem_of_app. right. apply elem_of_cons. by left.
Qed.

Lemma level_at_in h x i n : h !! x = Some n -> level_at h x i = level n !! i.
Proof. intros Hx. unfold level_at. by rewrite Hx. Qed.

(** ** Insertion *)

(** One round of the loop of zslInsert, from what it reads. *)
Lemma link_round h x u i update m nx nu r0 ri uf us w :
  update !! i = Some (u, ri) -> (exists v0, update !! O = Some (v0, r0)) -> u <> x ->
  h !! x = Some nx -> level nx !! i = Some w -> h !! u = Some nu -> level nu !! i = Some (uf, us) ->
  link_loop (S m) h x i update =
  link_loop m (<[u := with_level nu i (Some x, u32 (u32 (r0 - ri) + 1))]>
    (<[x := with_level nx i (uf, u64 (us - u32 (r0 - ri)))]> h)) x (S i) update.
Proof.
  intros Hi (v0 & H0) Hux Hx Hwx Hu Hwu. cbn [link_loop]. rewrite Hi. cbn [mbind option_bind]. rewrite H0. cbn [mbind option_bind].
  rewrite (level_at_in h u i nu Hu), Hwu. cbn [mbind option_bind].
  rewrite (level_at_in h x i nx Hx), Hwx. destruct w as [w1 w2]. cbn [mbind option_bind].
  pose proof (lookup_lt_Some _ _ _ Hwx) as Hlx. pose proof (lookup_lt_Some _ _ _ Hwu) as Hlu.
  rewrite (set_level_in _ _ _ _ _ _ Hx Hwx). cbn [mbind option_bind].
  rewrite (set_level_in _ u i nu _ (uf, us)); [|by rewrite lookup_insert_ne|done]. cbn [mbind option_bind].
  rewrite (level_at_in _ x i (with_level nx i (uf, w2))) by (by rewrite lookup_insert_ne, lookup_insert_eq).
  unfold with_level at 3. cbn [level]. rewrite list_lookup_insert_eq by done. cbn [mbind option_bind].
  rewrite (set_level_in _ x i (with_level nx i (uf, w2)) _ (uf, w2));
    [|by rewrite lookup_insert_ne, lookup_insert_eq|by apply list_lookup_insert_eq]. cbn [mbind option_bind].
  rewrite (set_level_in _ u i (with_level nu i (Some x, us)) _ (Some x, us));
    [|by rewrite lookup_insert_ne, lookup_insert_eq|by apply list_lookup_insert_eq]. cbn [mbind option_bind].
  f_equal. apply map_eq. intros l. unfold with_level. cbn. rewrite !list_insert_insert_eq.
  destruct (decide (l = u)) as [->|?]; [by rewrite !lookup_insert_eq|]. rewrite !(lookup_insert_ne _ u l) by done.
  destruct (decide (l = x)) as [->|?]; [by rewrite !lookup_insert_eq|]. by repeat rewrite lookup_insert_ne by done.
Qed.

Lemma mid_nodup hd A z B : NoDup (hd :: (z_loc <$> A ++ z :: B)) ->
  NoDup (hd :: (z_loc <$> A)) /\ (z_loc z ∉ hd :: (z_loc <$> A)) /\ (z_loc z ∉ z_loc <$> B) /\ NoDup (z_loc <$> B) /\
  (forall l, l ∈ hd :: (z_loc <$> A) -> l ∉ z_loc <$> B).
Proof.
  intros H. rewrite fmap_app, fmap_cons, app_comm_cons in H.
  apply NoDup_app in H as (H1 & H2 & H3). apply NoDup_cons in H3 as [H3 H4]. split_and!; try done.
  - intros Hin. by eapply (H2 _ Hin), elem_of_cons; left.
  - intros l Hl Hin. by eapply (H2 l Hl), elem_of_cons; right.
Qed.

Section Link.
Context (hd x : loc) (n lv : nat) (A B : list znode) (e : bytes) (sc : spec_float) (update : list (loc * Z)).
Abbreviation zx := (mk_z x sc e lv).
Hypothesis Hnd : NoDup (hd :: (z_loc <$> A ++ zx :: B)).
Hypothesis Hn : (lv <= n <= ZSKIPLIST_MAXLEVEL)%nat.
Hypothesis Hh : Forall (fun z => (1 <= z_h z <= n)%nat) A.
Hypothesis Hmax : zlen A + zlen B < SL_MAX.
Hypothesis Hupd : update = (fun i => (node_of hd (pre i A), zlen (pre i A))) <$> seq 0 n.

Let g1 (k : nat) R := fwd k (R ++ B).
Let g2 (k : nat) R := fwd k (R ++ zx :: B).

Lemma link_agree k N z R : (k < z_h z)%nat -> g1 k (N ++ z :: R) = g2 k (N ++ z :: R).
Proof.
  intros Hz. unfold g1, g2. rewrite <- !app_assoc. cbn [app].
  destruct (first_high k N) as [HN|(N' & y & R' & -> & HN & Hy)]; [by apply fwd_high|].
  rewrite <- !app_assoc. cbn [app]. by apply fwd_high.
Qed.

(** The new node with its levels below [i] filled in. *)
Definition filled h i : Prop := exists ls b, h !! x = Some (mk_zn (Some e) sc b ls) /\ length ls = lv /\
  forall k, (k < i)%nat -> ls !! k = Some (fwd k B).

Record link_inv h i : Prop := {
  li_anch : anchored h hd n (mix i g1 g2) A;
  li_new : filled h i
}.

Lemma upd_at i : (i < n)%nat -> update !! i = Some (node_of hd (pre i A), zlen (pre i A)).
Proof. intros Hi. rewrite Hupd. by rewrite (lookup_levels (fun i => (node_of hd (pre i A), zlen (pre i A)))). Qed.

Lemma pre_all : pre 0 A = A.
Proof.
  destruct (pre_split 0 A) as (R & ER & HR). destruct R as [|z R _] using rev_ind; [by rewrite app_nil_r in ER|].
  apply Forall_app in HR as [_ Hz]. pose proof Hh as H. rewrite ER, app_assoc in H. apply Forall_app in H as [_ H].
  apply Forall_cons_1 in H as [H _]. apply Forall_cons_1 in Hz as [Hz _]. unfold low in Hz. lia.
Qed.

(** The effect of a round outside the header, [A] and the new node is none. *)
Definition frame h h' : Prop := forall l, l ∉ hd :: (z_loc <$> A) -> l <> x -> h' !! l = h !! l.

Lemma link_step h i m : (i < lv)%nat -> link_inv h i ->
  exists h', link_loop (S m) h x i update = link_loop m h' x (S i) update /\ link_inv h' (S i) /\ frame h h'.
Proof.
  intros Hi [Ha (ls & b & Hx & Hls & Hfill)]. destruct (mid_nodup _ _ _ _ Hnd) as (HndA & HxA & _).
  set (nx := with_level (mk_zn (Some e) sc b ls) i (fwd i B)).
  destruct (slot_spec hd n g1 g2 A HndA ltac:(lia) link_agree (<[x := nx]> h) i) as (R & nu & EA & HR & Hnu & Hl & Ha');
    [lia|by apply anchored_insert|]. set (u := node_of hd (pre i A)) in *.
  assert (u <> x) as Hux by (intros E; apply HxA; rewrite <- E; apply node_of_in).
  rewrite lookup_insert_ne in Hnu by done.
  destruct (lookup_lt_is_Some_2 ls i) as [w Hw]; [lia|].
  exists (<[u := with_level nu i (g2 i R)]> (<[x := nx]> h)). split_and!.
  - assert (g1 i R = ((fwd i B).1, zlen R + (fwd i B).2)) as E1 by (by apply fwd_low). rewrite E1 in Hl.
    rewrite (link_round h x u i update m (mk_zn (Some e) sc b ls) nu (zlen A) (zlen (pre i A)) (fwd i B).1 (zlen R + (fwd i B).2) w);
      try done; [|apply upd_at; lia|exists (node_of hd A); rewrite upd_at, pre_all by lia; done].
    pose proof (f_equal zlen EA) as El. rewrite zlen_app in El. pose proof (fwd_le i B). pose proof (fwd_nonneg i B).
    pose proof (zlen_nonneg R). pose proof (zlen_nonneg (pre i A)). pose proof (zlen_nonneg B). unfold SL_MAX in Hmax.
    rewrite (u32_id (zlen A - zlen (pre i A))) by lia. rewrite u32_id by lia. rewrite u64_id by lia.
    assert (g2 i R = (Some x, zlen R + 1)) as E2 by (unfold g2; rewrite fwd_low, fwd_hit by done; done). rewrite E2.
    replace (zlen A - zlen (pre i A)) with (zlen R) by lia. rewrite Z.add_simpl_l.
    unfold nx. by destruct (fwd i B).
  - split; [done|]. exists (<[i := fwd i B]> ls), b. rewrite lookup_insert_ne, lookup_insert_eq by done.
    rewrite length_insert. split_and!; try done. intros k Hk. destruct (decide (k = i)) as [->|Hne].
    + apply list_lookup_insert_eq. lia.
    + rewrite list_lookup_insert_ne by done. apply Hfill. lia.
  - intros l HlA Hlx. rewrite !lookup_insert_ne; [done|done|]. intros E. apply HlA. rewrite <- E. apply node_of_in.
Qed.

Lemma link_loop_spec m : forall h i, (i + m = lv)%nat -> link_inv h i ->
  exists h', link_loop m h x i update = Some h' /\ link_inv h' lv /\ frame h h'.
Proof.
  induction m as [|m IH]; intros h i Hm Hinv.
  - exists h. replace i with lv in Hinv by lia. done.
  - destruct (link_step h i m) as (h1 & -> & H1 & F1); [lia|done|]. destruct (IH h1 (S i)) as (h' & -> & H' & F'); [lia|done|].
    exists h'. split_and!; try done. intros l Hl Hx. by rewrite F', F1.
Qed.

Lemma bump_loop_spec m : forall h i, (i + m = n)%nat -> (lv <= i)%nat -> anchored h hd n (mix i g1 g2) A ->
  exists h', bump_loop m h i update = Some h' /\ anchored h' hd n g2 A /\
    forall l, l ∉ hd :: (z_loc <$> A) -> h' !! l = h !! l.
Proof.
  induction m as [|m IH]; intros h i Hm Hi Ha.
  - exists h. split_and!; try done. apply (mix_full h hd n g1 g2 A); [done|]. by replace n with i at 2 by lia.
  - cbn [bump_loop]. rewrite upd_at by lia. cbn [mbind option_bind]. destruct (mid_nodup _ _ _ _ Hnd) as (HndA & _).
    destruct (slot_spec hd n g1 g2 A HndA ltac:(lia) link_agree h i) as (R & nu & EA & HR & Hnu & Hl & Ha'); [lia|done|].
    rewrite (level_at_in _ _ _ _ Hnu), Hl. assert (g1 i R = ((fwd i B).1, zlen R + (fwd i B).2)) as E1 by (by apply fwd_low).
    rewrite E1 in Hl |- *. cbn [mbind option_bind]. rewrite (set_level_in _ _ _ _ _ _ Hnu Hl). cbn [mbind option_bind].
    pose proof (f_equal zlen EA) as El. rewrite zlen_app in El. pose proof (fwd_le i B). pose proof (fwd_nonneg i B).
    pose proof (zlen_nonneg R). pose proof (zlen_nonneg (pre i A)). unfold SL_MAX in Hmax. rewrite u64_id by lia.
    assert (g2 i R = ((fwd i B).1, zlen R + (fwd i B).2 + 1)) as E2.
    { unfold g2. rewrite fwd_low by done. cbn [fwd z_h]. rewrite (proj2 (Nat.ltb_ge i lv)) by lia. cbn. f_equal. lia. }
    rewrite E2 in Ha'. destruct (IH _ (S i) ltac:(lia) ltac:(lia) Ha') as (h' & -> & Hg & Hf). exists h'. split_and!; try done.
    intros l Hl'. rewrite Hf by done. apply lookup_insert_ne. intros E. apply Hl'. rewrite <- E. apply node_of_in.
Qed.

End Link.

Lemma anchored_app h hd n A B : anchored h hd n fwd (A ++ B) <->
  anchored h hd n (fun k R => fwd k (R ++ B)) A /\ chain h fwd (final None A) B.
Proof.
  unfold anchored. rewrite zsl_chain_app. split.
  - intros [(l & [H1 H2 H3 H4]) [Hc1 Hc2]]. split; [split|]; try done. by exists l.
  - intros [[(l & [H1 H2 H3 H4]) Hc1] Hc2]. split; [|done]. by exists l.
Qed.

Lemma shape_anchored h zsl L : sl_shape h zsl L -> anchored h (header zsl) (level_ zsl) fwd L.
Proof. intros Hs. split; apply Hs. Qed.

Lemma anchored_dom h hd n L l : anchored h hd n fwd L -> l ∈ hd :: (z_loc <$> L) -> is_Some (h !! l).
Proof.
  intros [(lv & Hh) Hc] Hl. apply elem_of_cons in Hl as [->|Hl]; [eexists; apply Hh|].
  apply list_elem_of_fmap in Hl as (z & -> & Hz). apply list_elem_of_split in Hz as (N & R & ->).
  eexists. by eapply chain_mid.
Qed.

Lemma new_zn_fresh h : h !! new_zn h = None.
Proof. apply not_elem_of_dom. unfold new_zn. apply (is_fresh (dom h : gset loc)). Qed.

Lemma random_level rnd lv rnd' : zslRandomLevel rnd = Some (lv, rnd') -> (1 <= lv <= ZSKIPLIST_MAXLEVEL)%nat.
Proof.
  unfold zslRandomLevel. assert (forall r v w r', 1 <= v -> random_loop r v = Some (w, r') -> 1 <= w) as Hr.
  { induction r as [|y r IH]; intros v w r' Hv; [done|]. cbn [random_loop].
    destruct (_ <? _); [apply IH; lia|]. by intros [= <- <-]. }
  destruct (random_loop rnd 1) as [[w r']|] eqn:E; [|done]. cbn [mbind option_bind]. apply Hr in E; [|lia].
  intros [= <- <-]. destruct (Z.ltb_spec w (Z.of_nat ZSKIPLIST_MAXLEVEL)); unfold ZSKIPLIST_MAXLEVEL in *; lia.
Qed.

(** The levels the header did not use before. *)
Lemma raise_loop_spec zsl A B m : let L := A ++ B in length_ zsl = zlen L -> NoDup (header zsl :: (z_loc <$> L)) ->
  forall h i, (i + m <= ZSKIPLIST_MAXLEVEL)%nat -> Forall (low i) L -> anchored h (header zsl) i fwd L ->
  exists h', raise_loop m h zsl i (updates zsl A i) = Some (h', updates zsl A (i + m)) /\
    anchored h' (header zsl) (i + m) fwd L /\ forall l, l <> header zsl -> h' !! l = h !! l.
Proof.
  intros L Hlen Hnd. apply NoDup_cons in Hnd as [Hhd _]. induction m as [|m IH]; intros h i Hi Hlow Ha.
  { rewrite Nat.add_0_r. by exists h. }
  destruct Ha as [(lv & [Hn Hsz Hu Hf]) Hc]. cbn [raise_loop]. rewrite (level_at_in _ _ _ _ Hn). cbn [level].
  destruct (lookup_lt_is_Some_2 lv i) as [[f s] Hv]; [lia|]. rewrite Hv. cbn [mbind option_bind].
  pose proof (Hf i _ ltac:(lia) Hv) as Ef. cbn in Ef. subst f.
  rewrite (set_level_in _ _ i _ _ _ Hn Hv). cbn [mbind option_bind].
  replace (updates zsl A i ++ [(header zsl, 0)]) with (updates zsl A (S i)).
  2:{ unfold updates. rewrite seq_S, fmap_app. cbn. f_equal. rewrite pre_low; [done|]. by apply Forall_app in Hlow as [? _]. }
  destruct (IH (<[header zsl := with_level (mk_zn None (S754_zero false) None lv) i (None, length_ zsl)]> h) (S i)) as (h' & Hr & Ha' & Hfr).
  - lia.
  - eapply Forall_impl; [exact Hlow|]. unfold low. lia.
  - split; [|by apply chain_insert]. exists (<[i := (None, length_ zsl)]> lv). split.
    + by rewrite lookup_insert_eq.
    + by rewrite length_insert.
    + intros k Hk. destruct (decide (k = i)) as [->|Hne].
      * rewrite list_lookup_insert_eq by lia. by rewrite fwd_all_low, Hlen.
      * rewrite list_lookup_insert_ne by done. apply Hu. lia.
    + intros k v Hk. rewrite list_lookup_insert_ne by lia. apply Hf. lia.
  - exists h'. rewrite Nat.add_succ_r. split_and!; [exact Hr|done|]. intros l Hl. rewrite Hfr by done. by apply lookup_insert_ne.
Qed.

Lemma set_backward_in h x b n : h !! x = Some n ->
  set_backward h x b = Some (<[x := mk_zn (ele n) (score n) b (level n)]> h).
Proof. intros Hx. unfold set_backward. by rewrite Hx. Qed.

Lemma relink_spec h zsl p B b : chain h fwd p B -> NoDup (z_loc <$> B) -> Forall (fun z => (1 <= z_h z)%nat) B ->
  exists h', relink h zsl (fwd 0 B).1 b = Some (h', match B with [] => zsl_tail zsl b | _ => zsl end) /\
    chain h' fwd b B /\ forall l, l ∉ z_loc <$> B -> h' !! l = h !! l.
Proof.
  intros Hc Hnd Hh. destruct B as [|z B]; [by exists h|]. apply Forall_cons_1 in Hh as [Hz _].
  rewrite fwd_hit by lia. cbn [fst relink]. destruct Hc as [Hn Hc]. rewrite (set_backward_in _ _ _ _ Hn). cbn [mbind option_bind ele score level].
  rewrite fmap_cons in Hnd. apply NoDup_cons in Hnd as [Hz' _]. eexists. split_and!; [done| |].
  - split; [by rewrite lookup_insert_eq|]. by apply chain_insert.
  - intros l Hl. rewrite fmap_cons in Hl. apply not_elem_of_cons in Hl as [Hl _]. by apply lookup_insert_ne.
Qed.

Lemma final_node hd d A : A <> [] -> final d A = Some (node_of hd A).
Proof. destruct A as [|z A _] using rev_ind; [done|]. intros _. unfold final, node_of. by rewrite last_snoc. Qed.

Lemma insert_back hd A : NoDup (hd :: (z_loc <$> A)) ->
  (if bool_decide (node_of hd A = hd) then None else Some (node_of hd A)) = final None A.
Proof.
  intros Hnd. apply NoDup_cons in Hnd as [Hhd _]. destruct A as [|z A _] using rev_ind; [by rewrite bool_decide_true|].
  rewrite bool_decide_false; [symmetry; apply final_node; by destruct A|]. rewrite node_of_snoc. intros E. apply Hhd.
  rewrite <- E, fmap_app. apply elem_of_app. right. apply elem_of_cons. by left.
Qed.

(** The tail of the list after an insertion: [relink] and zslInsert agree on it. *)
Lemma insert_tail zsl x A B z : tail zsl = final None (A ++ B) -> z_loc z = x ->
  tail (match B with [] => zsl_tail zsl (Some x) | _ => zsl end) = final None (A ++ z :: B).
Proof.
  intros Ht <-. rewrite (zsl_final_app None A (z :: B)). destruct B as [|y B]; [done|]. rewrite Ht.
  rewrite zsl_final_app. unfold final. by rewrite last_cons_cons.
Qed.

Lemma shape_intro h zsl L n : anchored h (header zsl) n fwd L -> level_ zsl = n -> NoDup (header zsl :: (z_loc <$> L)) ->
  tail zsl = final None L -> length_ zsl = zlen L -> zlen L <= SL_MAX -> (1 <= n <= ZSKIPLIST_MAXLEVEL)%nat ->
  Forall (fun z => (1 <= z_h z <= n)%nat) L -> sl_shape h zsl L.
Proof. intros [Hh Hc] <- Hnd Ht Hl Hm Hn Hf. by split. Qed.

Section Insert.
Context (fl : option loc * Z) (fb : option loc).

Lemma link_all h hd n lv x sc e A B : let z := mk_z x sc e lv in
  NoDup (hd :: (z_loc <$> A ++ z :: B)) -> (1 <= lv <= n)%nat -> (n <= ZSKIPLIST_MAXLEVEL)%nat ->
  Forall (fun z => (1 <= z_h z <= n)%nat) (A ++ B) -> zlen A + zlen B < SL_MAX -> anchored h hd n fwd (A ++ B) ->
  let upd := (fun i => (node_of hd (pre i A), zlen (pre i A))) <$> seq 0 n in
  exists h1 h2, link_loop lv (<[x := zslCreateNode fl fb lv sc (Some e)]> h) x 0 upd = Some h1 /\
    bump_loop (n - lv) h1 lv upd = Some h2 /\
    anchored h2 hd n (fun k R => fwd k (R ++ z :: B)) A /\
    (exists b, h2 !! x = Some (mk_zn (Some e) sc b ((fun k => fwd k B) <$> seq 0 lv))) /\
    chain h2 fwd (final None A) B /\ forall l, l ∉ hd :: (z_loc <$> A) -> l <> x -> h2 !! l = h !! l.
Proof.
  intros z Hnd Hlv Hn Hh Hmax Ha upd. apply Forall_app in Hh as [HhA HhB]. apply anchored_app in Ha as [Ha HcB].
  destruct (mid_nodup _ _ _ _ Hnd) as (HndA & HxA & HxB & HndB & Hdis).
  destruct (link_loop_spec hd x n lv A B e sc upd Hnd ltac:(lia) HhA Hmax eq_refl lv (<[x := zslCreateNode fl fb lv sc (Some e)]> h) 0)
    as (h1 & H1 & [Ha1 (ls & b & Hx1 & Hls & Hf1)] & F1); [lia| |].
  { split; [by apply anchored_insert|]. exists (replicate lv fl), fb. rewrite lookup_insert_eq, length_replicate. split_and!; [done|done|lia]. }
  destruct (bump_loop_spec hd x n lv A B e sc upd Hnd ltac:(lia) HhA Hmax eq_refl (n - lv) h1 lv) as (h2 & H2 & Ha2 & F2); [lia|lia|done|].
  assert (forall l, l ∉ hd :: (z_loc <$> A) -> l <> x -> h2 !! l = h !! l) as F.
  { intros l Hl Hlx. rewrite F2, F1 by done. by apply lookup_insert_ne. }
  exists h1, h2. split_and!; try done.
  - exists b. rewrite F2, Hx1 by done. do 2 f_equal. apply list_eq. intros k.
    destruct (decide (k < lv)%nat) as [Hk|Hk]; [by rewrite Hf1, lookup_levels|].
    rewrite !lookup_ge_None_2; [done|rewrite length_fmap, length_seq; lia|lia].
  - eapply chain_frame; [|exact HcB]. intros l Hl. apply F; [|by intros ->].
    intros Hin. by apply (Hdis l Hin).
Qed.

Lemma insert_finish h zsl hd n lv x sc e b bk A B {T} (k : heap -> zskiplist -> option T) : let z := mk_z x sc e lv in
  NoDup (hd :: (z_loc <$> A ++ z :: B)) -> (1 <= lv)%nat -> Forall (fun z => (1 <= z_h z)%nat) B -> bk = final None A ->
  anchored h hd n (fun k R => fwd k (R ++ z :: B)) A ->
  h !! x = Some (mk_zn (Some e) sc b ((fun k => fwd k B) <$> seq 0 lv)) -> chain h fwd (final None A) B ->
  exists h', (h ← set_backward h x bk; '(xf, _) ← level_at h x 0; '(h, zsl) ← relink h zsl xf (Some x); k h zsl) =
      k h' (match B with [] => zsl_tail zsl (Some x) | _ => zsl end) /\
    anchored h' hd n fwd (A ++ z :: B) /\ forall l, l ∉ x :: (z_loc <$> B) -> h' !! l = h !! l.
Proof.
  intros z Hnd Hlv HhB -> Ha Hx Hc. destruct (mid_nodup _ _ _ _ Hnd) as (HndA & HxA & HxB & HndB & Hdis).
  rewrite (set_backward_in _ _ _ _ Hx). cbn [mbind option_bind ele score level].
  set (h3 := <[x := _]> h). assert (h3 !! x = Some (mk_zn (Some e) sc (final None A) ((fun k => fwd k B) <$> seq 0 lv))) as Hx3
    by apply lookup_insert_eq. rewrite (level_at_in _ _ _ _ Hx3). cbn [level]. rewrite lookup_levels by lia.
  destruct (relink_spec h3 zsl (final None A) B (Some x)) as (h' & Hrl & Hc' & Hf); [by apply chain_insert|done|done|].
  destruct (fwd 0 B) as [f s]. cbn [fst mbind option_bind] in *. rewrite Hrl. cbn [mbind option_bind]. exists h'. split_and!; [done| |].
  - apply anchored_app. assert (forall l, l ∈ hd :: (z_loc <$> A) -> h' !! l = h !! l) as HfA.
    { intros l Hl. rewrite Hf by (by apply Hdis). apply lookup_insert_ne. by intros ->. }
    split; [by apply (anchored_frame h)|split; [by rewrite Hf|done]].
  - intros l Hl. apply not_elem_of_cons in Hl as [Hlx HlB]. rewrite Hf by done. by apply lookup_insert_ne.
Qed.

Lemma zsl_insert_spec h zsl A B rnd lv rnd' sc e :
  sl_shape h zsl (A ++ B) -> stops (before sc (Some e)) A B -> isnan sc = false -> zlen (A ++ B) < SL_MAX ->
  zslRandomLevel rnd = Some (lv, rnd') ->
  exists h' zsl' x, zslInsert fl fb h zsl rnd sc e = Some (h', zsl', rnd', x) /\
    sl_shape h' zsl' (A ++ mk_z x sc e lv :: B) /\ h !! x = None /\ header zsl' = header zsl /\
    forall l, l ∉ header zsl :: (z_loc <$> A ++ B) -> l <> x -> h' !! l = h !! l.
Proof.
  intros Hs Hgo Hnan Hmax Hr. unfold zslInsert. rewrite Hnan.
  rewrite (zsl_search_spec h zsl A B _ u32 Hs Hgo u32_id). cbn [mbind option_bind]. rewrite Hr. cbn [mbind option_bind].
  pose proof (random_level _ _ _ Hr) as Hlv. pose proof Hs as [_ _ Hnd Htl Hlen _ Hlvl Hhs].
  assert (Forall (low (level_ zsl)) (A ++ B)) as Hlow by (eapply Forall_impl; [exact Hhs|]; unfold low; lia).
  destruct (raise_loop_spec zsl A B (lv - level_ zsl) Hlen Hnd h (level_ zsl)) as (h0 & -> & Ha0 & F0);
    [lia|done|by apply shape_anchored|]. cbn [mbind option_bind].
  set (n := (level_ zsl + (lv - level_ zsl))%nat) in *. set (x := new_zn h0).
  assert (h0 !! x = None) as Hx by apply new_zn_fresh.
  assert (x ∉ header zsl :: (z_loc <$> A ++ B)) as Hxn.
  { intros Hin. destruct (anchored_dom _ _ _ _ _ Ha0 Hin) as [nd Hnd']. congruence. }
  set (zsl1 := if (level_ zsl <? lv)%nat then zsl_level zsl lv else zsl).
  assert (level_ zsl1 = n /\ header zsl1 = header zsl /\ tail zsl1 = tail zsl /\ length_ zsl1 = length_ zsl) as (Ev1 & Eh1 & Et1 & El1).
  { unfold zsl1, n. destruct (Nat.ltb_spec (level_ zsl) lv); cbn; split_and!; try done; lia. }
  assert (NoDup (header zsl :: (z_loc <$> A ++ mk_z x sc e lv :: B))) as HndX.
  { rewrite fmap_app, fmap_cons in *. cbn [z_loc]. rewrite app_comm_cons in *. rewrite <- Permutation_middle. by apply NoDup_cons. }
  assert (Forall (fun z => (1 <= z_h z <= n)%nat) (A ++ B)) as Hhn by (eapply Forall_impl; [exact Hhs|]; cbn; lia).
  destruct (link_all h0 (header zsl) n lv x sc e A B HndX) as (h1 & h2 & Hl1 & Hl2 & Ha2 & (b & Hx2) & Hc2 & F2);
    [lia|lia|done|rewrite zlen_app in Hmax; lia|done|].
  unfold updates. rewrite Ev1, Hl1. cbn [mbind option_bind]. rewrite Hl2. cbn [mbind option_bind].
  rewrite (lookup_levels (fun i => (node_of (header zsl) (pre i A), zlen (pre i A)))) by lia. cbn [mbind option_bind].
  rewrite (pre_0 h zsl A B Hs), Eh1, insert_back by (rewrite fmap_app in Hnd; rewrite app_comm_cons in Hnd; by apply NoDup_app in Hnd as [? _]).
  destruct (insert_finish h2 zsl1 (header zsl) n lv x sc e b (final None A) A B
    (fun h zsl => Some (h, zsl_length zsl (u64 (length_ zsl + 1)), rnd', x)) HndX) as (h' & -> & Ha' & F');
    [lia|apply Forall_app in Hhn as [_ HhB]; eapply Forall_impl; [exact HhB|cbn; lia]|done..|].
  set (zsl2 := match B with [] => zsl_tail zsl1 (Some x) | _ => zsl1 end).
  assert (header zsl2 = header zsl /\ level_ zsl2 = n /\ length_ zsl2 = length_ zsl) as (Eh2 & Ev2 & El2) by (unfold zsl2; by destruct B).
  assert (forall l, l ∉ header zsl :: (z_loc <$> A ++ B) -> l <> x -> h' !! l = h !! l) as F.
  { intros l Hl Hlx. rewrite fmap_app, app_comm_cons, not_elem_of_app in Hl. destruct Hl as [HlA HlB].
    rewrite F', F2, F0; [done| |done|done|by apply not_elem_of_cons]. by apply not_elem_of_cons in HlA as [? _]. }
  exists h', (zsl_length zsl2 (u64 (length_ zsl2 + 1))), x. split_and!; [done| |rewrite <- Hx; symmetry; apply F0|by rewrite <- Eh2|done].
  - pose proof (zlen_nonneg A). pose proof (zlen_nonneg B). rewrite zlen_app in Hmax, Hlen. unfold SL_MAX in Hmax.
    apply shape_intro with n; cbn; rewrite ?Eh2; try done.
    + by apply insert_tail; [rewrite Et1|].
    + rewrite El2, Hlen, zlen_app, zlen_cons. rewrite u64_id by lia. lia.
    + rewrite zlen_app, zlen_cons. unfold SL_MAX. lia.
    + lia.
    + apply Forall_app. apply Forall_app in Hhn as [? ?]. split; [done|]. constructor; [cbn; lia|done].
  - intros ->. apply Hxn. apply elem_of_cons. by left.
Qed.

End Insert.

(** ** Deletion *)

Lemma fwd_in i B l : (fwd i B).1 = Some l -> l ∈ z_loc <$> B.
Proof.
  destruct (first_high i B) as [HB|(N & z & R & -> & HN & Hz)]; [by rewrite fwd_all_low|].
  rewrite fwd_low, fwd_hit by done. intros [= <-]. rewrite fmap_app, fmap_cons. apply elem_of_app. right. apply elem_of_cons. by left.
Qed.

Lemma u64_plus a b : u64 (a + u64 b) = u64 (a + b).
Proof. unfold u64, wrapu. apply Zplus_mod_idemp_r. Qed.

Section Unlink.
Context (hd : loc) (n : nat) (A B : list znode) (z : znode) (update : list (loc * Z)).
Hypothesis Hnd : NoDup (hd :: (z_loc <$> A ++ z :: B)).
Hypothesis Hn : (n <= ZSKIPLIST_MAXLEVEL)%nat.
Hypothesis Hh : Forall (fun z => (1 <= z_h z <= n)%nat) (A ++ z :: B).
Hypothesis Hmax : zlen A + zlen B + 1 <= SL_MAX.
Hypothesis Hupd : forall i, (i < n)%nat -> exists r, update !! i = Some (node_of hd (pre i A), r).

Let g1 (k : nat) R := fwd k (R ++ z :: B).
Let g2 (k : nat) R := fwd k (R ++ B).

Lemma unlink_agree k N y R : (k < z_h y)%nat -> g1 k (N ++ y :: R) = g2 k (N ++ y :: R).
Proof. intros Hy. symmetry. unfold g1, g2. destruct z as [zl zs ze zh]. by apply (link_agree zl zh B ze zs). Qed.

(** What one round writes is what the shorter list needs. *)
Lemma unlink_round h i R nu nz k : Forall (low i) R -> (i < n)%nat -> zlen R <= zlen A ->
  h !! node_of hd (pre i A) = Some nu -> level nu !! i = Some (g1 i R) ->
  h !! z_loc z = Some nz -> level nz = (fun k => fwd k B) <$> seq 0 (z_h z) ->
  (h ← (if bool_decide ((g1 i R).1 = Some (z_loc z)) then
          '(xf, xs) ← level_at h (z_loc z) i; set_level h (node_of hd (pre i A)) i (xf, u64 ((g1 i R).2 + u64 (xs - 1)))
        else set_level h (node_of hd (pre i A)) i ((g1 i R).1, u64 ((g1 i R).2 - 1))); k h) =
  (k (<[node_of hd (pre i A) := with_level nu i (g2 i R)]> h) : option heap).
Proof.
  intros HR Hi HlR Hnu Hl Hz Hlz. destruct (mid_nodup _ _ _ _ Hnd) as (_ & HzA & HzB & _).
  pose proof (fwd_le i B). pose proof (fwd_nonneg i B). pose proof (zlen_nonneg R). pose proof (zlen_nonneg B). unfold SL_MAX in Hmax.
  assert (g2 i R = ((fwd i B).1, zlen R + (fwd i B).2)) as E2 by (by apply fwd_low).
  rewrite E2. destruct (Nat.lt_ge_cases i (z_h z)) as [Hiz|Hiz].
  - assert (g1 i R = (Some (z_loc z), zlen R + 1)) as E1 by (unfold g1; by rewrite fwd_low, fwd_hit).
    rewrite E1 in Hl |- *. cbn [fst snd]. rewrite bool_decide_true by done. rewrite (level_at_in _ _ _ _ Hz), Hlz, lookup_levels by done.
    cbn [mbind option_bind]. destruct (fwd i B) as [f s]. cbn [fst snd] in *. rewrite (set_level_in _ _ _ _ _ _ Hnu Hl). cbn [mbind option_bind].
    rewrite u64_plus. rewrite u64_id by lia. do 4 f_equal. lia.
  - assert (g1 i R = ((fwd i B).1, zlen R + (fwd i B).2 + 1)) as E1.
    { unfold g1. rewrite fwd_low by done. cbn [fwd]. rewrite (proj2 (Nat.ltb_ge _ _)) by done. cbn. f_equal. lia. }
    rewrite E1 in Hl |- *. cbn [fst snd]. rewrite bool_decide_false by (intros E; apply HzB; by eapply fwd_in).
    rewrite (set_level_in _ _ _ _ _ _ Hnu Hl). cbn [mbind option_bind]. rewrite u64_id by lia. do 4 f_equal. lia.
Qed.

Lemma unlink_loop_spec m : forall h i, (i + m = n)%nat -> anchored h hd n (mix i g1 g2) A ->
  (exists nz, h !! z_loc z = Some nz /\ level nz = (fun k => fwd k B) <$> seq 0 (z_h z)) ->
  exists h', unlink_loop m h (z_loc z) i update = Some h' /\ anchored h' hd n g2 A /\
    forall l, l ∉ hd :: (z_loc <$> A) -> h' !! l = h !! l.
Proof.
  assert (Forall (fun z => (1 <= z_h z <= n)%nat) A) as HhA by (by apply Forall_app in Hh as [? _]).
  destruct (mid_nodup _ _ _ _ Hnd) as (HndA & HzA & HzB & _).
  induction m as [|m IH]; intros h i Hm Ha (nz & Hz & Hlz).
  { exists h. split_and!; try done. apply (mix_full h hd n g1 g2 A); [done|]. by replace n with i at 2 by lia. }
  cbn [unlink_loop]. destruct (Hupd i ltac:(lia)) as [r ->]. cbn [mbind option_bind].
  destruct (slot_spec hd n g1 g2 A HndA Hn unlink_agree h i) as (R & nu & EA & HR & Hnu & Hl & Ha'); [lia|done|].
  pose proof (f_equal zlen EA) as El. rewrite zlen_app in El. pose proof (zlen_nonneg (pre i A)).
  pose proof (unlink_round h i R nu nz (fun h => unlink_loop m h (z_loc z) (S i) update) HR ltac:(lia) ltac:(lia) Hnu Hl Hz Hlz) as Hround.
  rewrite (level_at_in _ _ _ _ Hnu), Hl. destruct (g1 i R) as [uf us]. cbn [mbind option_bind fst snd] in *. rewrite Hround.
  destruct (IH _ (S i) ltac:(lia) Ha') as (h' & -> & Hg & Hf).
  - exists nz. split; [|done]. rewrite lookup_insert_ne; [done|]. intros E. apply HzA. rewrite <- E. apply node_of_in.
  - exists h'. split_and!; try done. intros l Hl'. rewrite Hf by done. apply lookup_insert_ne. intros E. apply Hl'. rewrite <- E. apply node_of_in.
Qed.

End Unlink.

Lemma shrink_loop_eq n h x : shrink_loop (S (S n)) h x =
  '(f, _) ← level_at h x (S n); match f with None => shrink_loop (S n) h x | Some _ => Some (S (S n)) end.
Proof. done. Qed.

(** The level of the list shrinks to the highest level in use. *)
Lemma shrink_loop_spec h hd L n : anchored h hd n fwd L -> (1 <= n <= ZSKIPLIST_MAXLEVEL)%nat -> Forall (fun z => (1 <= z_h z <= n)%nat) L ->
  exists m, shrink_loop n h hd = Some m /\ (1 <= m <= n)%nat /\ anchored h hd m fwd L /\ Forall (fun z => (1 <= z_h z <= m)%nat) L.
Proof.
  revert h. induction n as [|n IH]; intros h Ha Hn Hh; [lia|]. destruct n as [|n]; [exists 1%nat; by split_and!|].
  destruct Ha as [(lv & [Hd Hsz Hu Hf]) Hc]. rewrite shrink_loop_eq, (level_at_in _ _ _ _ Hd). cbn [level].
  rewrite Hu by lia. destruct (fwd (S n) L) as [f s] eqn:E. cbn [mbind option_bind]. destruct f as [l|].
  { exists (S (S n)). split; [done|]. split; [lia|]. split; [|done]. split; [|done]. by exists lv. }
  assert (Forall (low (S n)) L) as Hlow by (apply fwd_none; by rewrite E).
  destruct (IH h) as (m & Hm & Hmn & Ha' & Hh').
  - split; [|done]. exists lv. split; try done; [intros k Hk; apply Hu; lia|]. intros k v Hk Hv.
    destruct (decide (k = S n)) as [->|?]; [|apply (Hf k); [lia|done]]. rewrite Hu, E in Hv by lia. by injection Hv as <-.
  - lia.
  - eapply Forall_impl; [apply Forall_and; split; [exact Hh|exact Hlow]|]. unfold low. cbn. lia.
  - exists m. split_and!; try done; lia.
Qed.

Lemma delete_tail zsl z A B : tail zsl = final None (A ++ z :: B) ->
  tail (match B with [] => zsl_tail zsl (final None A) | _ => zsl end) = final None (A ++ B).
Proof.
  intros Ht. destruct B as [|y B]; [by rewrite app_nil_r|]. rewrite Ht, !zsl_final_app. unfold final. by rewrite last_cons_cons.
Qed.

Lemma delete_node_spec h zsl A B z update : sl_shape h zsl (A ++ z :: B) ->
  (forall i, (i < level_ zsl)%nat -> exists r, update !! i = Some (node_of (header zsl) (pre i A), r)) ->
  exists h' zsl', zslDeleteNode h zsl (z_loc z) update = Some (h', zsl') /\ sl_shape h' zsl' (A ++ B) /\
    header zsl' = header zsl /\ (level_ zsl' <= level_ zsl)%nat /\
    forall l, l ∉ header zsl :: (z_loc <$> A ++ B) -> h' !! l = h !! l.
Proof.
  intros Hs Hupd. pose proof (shape_anchored _ _ _ Hs) as Ha. destruct Hs as [_ Hc Hnd Htl Hlen Hmax Hlv Hh].
  destruct (mid_nodup _ _ _ _ Hnd) as (HndA & HzA & HzB & HndB & Hdis).
  apply anchored_app in Ha as [Ha [Hz HcB]]. unfold zslDeleteNode.
  rewrite zlen_app, zlen_cons in Hmax, Hlen.
  destruct (unlink_loop_spec (header zsl) (level_ zsl) A B z update Hnd ltac:(lia) Hh ltac:(lia) Hupd (level_ zsl) h 0) as (h1 & -> & Ha1 & F1);
    [done|done|by eexists|]. cbn [mbind option_bind].
  assert (h1 !! z_loc z = h !! z_loc z) as -> by (by apply F1). rewrite Hz. cbn [mbind option_bind level backward].
  pose proof Hh as HhB. apply Forall_app in HhB as [HhA HhB]. apply Forall_cons_1 in HhB as [Hhz HhB].
  rewrite lookup_levels by lia.
  destruct (relink_spec h1 zsl (Some (z_loc z)) B (final None A)) as (h2 & Hrl & HcB2 & F2);
    [eapply chain_frame; [|exact HcB]; intros l Hl; apply F1; intros Hin; by apply (Hdis l Hin)|done|
     eapply Forall_impl; [exact HhB|cbn; lia]|].
  destruct (fwd 0 B) as [f s]. cbn [fst mbind option_bind] in *. rewrite Hrl. cbn [mbind option_bind].
  set (zsl1 := match B with [] => zsl_tail zsl (final None A) | _ => zsl end) in *.
  assert (header zsl1 = header zsl /\ level_ zsl1 = level_ zsl /\ length_ zsl1 = length_ zsl) as (Eh & Ev & El) by (unfold zsl1; by destruct B).
  assert (anchored h2 (header zsl) (level_ zsl) fwd (A ++ B)) as Ha2.
  { apply anchored_app. split; [|done]. apply (anchored_frame h1); [|done]. intros l Hl. by apply F2, Hdis. }
  destruct (shrink_loop_spec h2 (header zsl) (A ++ B) (level_ zsl) Ha2 Hlv) as (m & Hm & Hmn & Ha3 & Hh3); [by apply Forall_app|].
  rewrite Eh, Ev, Hm. cbn [mbind option_bind]. eexists h2, _. split; [done|]. split_and!; [|done|cbn; lia|].
  - pose proof (zlen_nonneg A). pose proof (zlen_nonneg B). unfold SL_MAX in Hmax.
    apply shape_intro with m; cbn; rewrite ?Eh; try done.
    + rewrite fmap_app, fmap_cons, app_comm_cons, <- Permutation_middle in Hnd. apply NoDup_cons in Hnd as [_ Hnd].
      by rewrite fmap_app, app_comm_cons.
    + by apply delete_tail with z.
    + rewrite El, Hlen, zlen_app. rewrite u64_id by lia. lia.
    + rewrite zlen_app. unfold SL_MAX. lia.
    + lia.
  - intros l Hl. rewrite fmap_app, app_comm_cons, not_elem_of_app in Hl. destruct Hl as [HlA HlB]. by rewrite F2, F1.
Qed.
