(* ===== verification/SkiplistApi.v ===== *)
(** * Sorted sets: the operations of the skiplist

    What each operation of Skiplist.v does to the list of nodes, for a list
    sorted by score and element. *)

From stdpp Require Import base list numbers option gmap sets sorting.
From Stdlib Require Import ZArith Lia Floats.SpecFloat.
From S2P Require Import Prelude Sds SdsText Dict Skiplist SkiplistSpec.

Implicit Types (h : heap) (zsl : zskiplist) (x : loc) (i : nat) (z : znode) (L A B R M : list znode).

(** sdscmp on two strings is [elecmp] on their contents. *)
Lemma elecmp_sdscmp s1 s2 c1 c2 f1 f2 : sds_repr s1 c1 f1 -> sds_repr s2 c2 f2 ->
  sdscmp s1 s2 = elecmp (Some c1) (Some c2).
Proof. intros H1 H2. by rewrite (cmp_spec _ _ _ _ _ _ H1 H2). Qed.

Lemma u64_id32 n : 0 <= n < 4294967296 -> u64 n = n.
Proof. intros Hn. apply u64_id. lia. Qed.

(** ** Where a descent stops *)

(** A predicate splits a list in one way. *)
Lemma split_det (p : znode -> Prop) A B A' B' : A ++ B = A' ++ B' -> Forall p A -> Forall (fun z => ~ p z) B ->
  Forall p A' -> Forall (fun z => ~ p z) B' -> A = A' /\ B = B'.
Proof.
  revert A'. induction A as [|z A IH]; intros [|z' A'] E HA HB HA' HB'; cbn in E.
  - done.
  - apply Forall_cons_1 in HA' as [Hz _]. rewrite E in HB. by apply Forall_cons_1 in HB as [? _].
  - apply Forall_cons_1 in HA as [Hz _]. rewrite <- E in HB'. by apply Forall_cons_1 in HB' as [? _].
  - injection E as <- E. apply Forall_cons_1 in HA as [_ HA]. apply Forall_cons_1 in HA' as [_ HA'].
    by destruct (IH A' E HA HB HA' HB') as [-> ->].
Qed.

Lemma sorted_split (p : znode -> Prop) `{forall z, Decision (p z)} L :
  StronglySorted slt (zkey <$> L) -> (forall a b, a ∈ L -> b ∈ L -> slt (zkey a) (zkey b) -> p b -> p a) ->
  exists A B, L = A ++ B /\ Forall p A /\ Forall (fun z => ~ p z) B.
Proof.
  induction L as [|z L IH]; intros Hs Hp; [by exists [], []|]. rewrite fmap_cons in Hs.
  apply StronglySorted_cons in Hs as [Hz Hs]. destruct (decide (p z)) as [Hpz|Hpz].
  - destruct IH as (A & B & -> & HA & HB); [done| |by exists (z :: A), B; split_and!; [|constructor|]].
    intros a b Ha Hb. apply Hp; apply elem_of_cons; by right.
  - exists [], (z :: L). split_and!; [done|constructor|]. constructor; [done|]. apply Forall_forall. intros y Hy Hpy.
    apply Hpz. apply (Hp z y); [apply elem_of_cons; by left|apply elem_of_cons; by right| |done].
    rewrite Forall_forall in Hz. apply Hz. apply list_elem_of_fmap. by exists y.
Qed.

Lemma stops_intro go (p : znode -> bool) A B : (forall n z, z ∈ A ++ B -> goes go n z (p z)) ->
  Forall (fun z => p z = true) A -> Forall (fun z => p z = false) B -> stops go A B.
Proof.
  intros Hg HA HB. split.
  - intros N z R ->. apply Forall_app in HA as [_ HA]. apply Forall_cons_1 in HA as [<- _]. apply Hg.
    rewrite <- app_assoc. apply elem_of_app. right. apply elem_of_cons. by left.
  - intros N z R ->. apply Forall_app in HB as [_ HB]. apply Forall_cons_1 in HB as [<- _]. apply Hg.
    apply elem_of_app. right. apply elem_of_app. right. apply elem_of_cons. by left.
Qed.

(** The conditions of the while loops, as predicates of a node. *)
Lemma before_spec sc e n s ze r sp : isnan sc = false -> isnan s = false -> score n = s -> ele n = Some ze ->
  before sc (Some e) n r sp = Some (bool_decide (slt (s, ze) (sc, e))).
Proof.
  intros Hsc Hs <- He. unfold before. destruct (SFltb (score n) sc) eqn:El.
  { apply SFltb_key in El; [|done..]. rewrite bool_decide_true; [done|]. by left. }
  apply not_true_iff_false in El. rewrite SFltb_key in El by done.
  destruct (SFeqb (score n) sc) eqn:Ee; [|apply not_true_iff_false in Ee]; rewrite SFeqb_key in Ee by done.
  - rewrite He. cbn [mbind option_bind elecmp]. f_equal. destruct (lex ze e) eqn:Ex; symmetry.
    + apply bool_decide_eq_false. intros [?|[_ ?]]; cbn [fst snd] in *; [done|congruence].
    + apply bool_decide_eq_true. by right.
    + apply bool_decide_eq_false. intros [?|[_ ?]]; cbn [fst snd] in *; [done|congruence].
  - rewrite bool_decide_false; [done|]. intros [?|[? _]]; done.
Qed.

Lemma upto_spec sc e n s ze r sp : isnan sc = false -> isnan s = false -> score n = s -> ele n = Some ze ->
  upto sc (Some e) n r sp = Some (negb (bool_decide (slt (sc, e) (s, ze)))).
Proof.
  intros Hsc Hs <- He. unfold upto. destruct (SFltb (score n) sc) eqn:El.
  { apply SFltb_key in El; [|done..]. rewrite bool_decide_false; [done|]. intros [H|[H _]]; cbn in H;
      [by destruct (klt_irrefl (fkey sc)); eapply klt_trans|]. rewrite H in El. by apply klt_irrefl in El. }
  apply not_true_iff_false in El. rewrite SFltb_key in El by done.
  destruct (SFeqb (score n) sc) eqn:Ee; [|apply not_true_iff_false in Ee]; rewrite SFeqb_key in Ee by done.
  - rewrite He. cbn [mbind option_bind elecmp]. f_equal. pose proof (lex_antisym ze e) as Ea.
    destruct (lex ze e) eqn:Ex; cbn [CompOpp] in Ea; symmetry.
    + apply negb_true_iff, bool_decide_eq_false. intros [Hk|[_ ?]]; cbn [fst snd] in *; [rewrite Ee in Hk; by apply klt_irrefl in Hk|congruence].
    + apply negb_true_iff, bool_decide_eq_false. intros [Hk|[_ ?]]; cbn [fst snd] in *; [rewrite Ee in Hk; by apply klt_irrefl in Hk|congruence].
    + apply negb_false_iff, bool_decide_eq_true. by right.
  - rewrite bool_decide_true; [done|]. left. cbn. destruct (klt_total (fkey (score n)) (fkey sc)) as [?|[?|?]]; done.
Qed.

Lemma elem_nan L z : sorted_nodes L -> z ∈ L -> isnan (z_score z) = false.
Proof. intros [_ Hn] Hz. rewrite Forall_forall in Hn. by apply Hn. Qed.

(** Where zslInsert, zslDelete and zslUpdateScore stop. *)
Lemma before_stops h zsl L sc e : sl_repr h zsl L -> isnan sc = false ->
  exists A B, L = A ++ B /\ stops (before sc (Some e)) A B /\ Forall (fun z => slt (zkey z) (sc, e)) A /\
    Forall (fun z => ~ slt (zkey z) (sc, e)) B.
Proof.
  intros [_ Ho] Hsc. destruct (sorted_split (fun z => slt (zkey z) (sc, e)) L) as (A & B & EL & HA & HB).
  - apply Ho.
  - intros a b _ _ Hab Hb. by eapply slt_trans.
  - exists A, B. split_and!; try done. apply (stops_intro _ (fun z => bool_decide (slt (zkey z) (sc, e)))).
    + intros n z Hz nd r s He Hs _ _ _. apply before_spec; try done. apply (elem_nan L); [done|by rewrite EL].
    + eapply Forall_impl; [exact HA|]. intros z Hz. by apply bool_decide_eq_true.
    + eapply Forall_impl; [exact HB|]. intros z Hz. by apply bool_decide_eq_false.
Qed.

Lemma sorted_mid A B (k : spec_float * bytes) z : zkey z = k -> isnan k.1 = false ->
  sorted_nodes (A ++ B) -> Forall (fun y => slt (zkey y) k) A -> Forall (fun y => slt k (zkey y)) B ->
  sorted_nodes (A ++ z :: B).
Proof.
  intros <- Hnan [Hs Hn] HA HB. rewrite fmap_app, StronglySorted_app in Hs. destruct Hs as (Hcross & HsA & HsB). split.
  - rewrite fmap_app, fmap_cons, StronglySorted_app. split_and!.
    + intros a b Ha Hb. apply elem_of_cons in Hb as [->|Hb]; [|by apply Hcross].
      apply list_elem_of_fmap in Ha as (y & -> & Hy). rewrite Forall_forall in HA. by apply HA.
    + done.
    + apply StronglySorted_cons. split; [|done]. apply Forall_forall. intros b Hb.
      apply list_elem_of_fmap in Hb as (y & -> & Hy). rewrite Forall_forall in HB. by apply HB.
  - apply Forall_app in Hn as [HnA HnB]. apply Forall_app. split; [done|]. by constructor.
Qed.

Lemma sorted_del A z B : sorted_nodes (A ++ z :: B) -> sorted_nodes (A ++ B) /\
  Forall (fun y => slt (zkey y) (zkey z)) A /\ Forall (fun y => slt (zkey z) (zkey y)) B.
Proof.
  intros [Hs Hn]. rewrite fmap_app, fmap_cons, StronglySorted_app, StronglySorted_cons in Hs.
  destruct Hs as (Hcross & HsA & Hz & HsB). apply Forall_app in Hn as [HnA HnB]. apply Forall_cons_1 in HnB as [_ HnB].
  split_and!.
  - split; [|by apply Forall_app]. rewrite fmap_app, StronglySorted_app. split_and!; try done.
    intros a b Ha Hb. apply Hcross; [done|]. apply elem_of_cons. by right.
  - apply Forall_forall. intros y Hy. apply Hcross; [|apply elem_of_cons; by left]. apply list_elem_of_fmap. by exists y.
  - apply Forall_forall. intros y Hy. rewrite Forall_forall in Hz. apply Hz. apply list_elem_of_fmap. by exists y.
Qed.

Lemma slt_seq a b c : slt a b -> seq_ b c -> slt a c.
Proof. intros [H|[E H]] [E1 E2]; [left|right]; rewrite <- ?E1, <- ?E2; done. Qed.
Lemma seq_sym a b : seq_ a b -> seq_ b a.
Proof. intros [? ?]. by split. Qed.
Lemma seq_slt a b c : seq_ a b -> slt b c -> slt a c.
Proof. intros [E1 E2] [H|[E H]]; [left|right]; rewrite ?E1, ?E2; done. Qed.

Lemma same_spec sc e n s ze : isnan sc = false -> isnan s = false -> score n = s -> ele n = Some ze ->
  same sc (Some e) n = Some (bool_decide (seq_ (s, ze) (sc, e))).
Proof.
  intros Hsc Hs <- He. unfold same. destruct (SFeqb sc (score n)) eqn:Ee; [|apply not_true_iff_false in Ee];
    rewrite SFeqb_key in Ee by done.
  - rewrite He. cbn [mbind option_bind elecmp]. f_equal. destruct (lex ze e) eqn:Ex; symmetry.
    + apply bool_decide_eq_true. split; [done|by apply lex_eq].
    + apply bool_decide_eq_false. intros [_ E]. cbn in E. by rewrite E, lex_refl in Ex.
    + apply bool_decide_eq_false. intros [_ E]. cbn in E. by rewrite E, lex_refl in Ex.
  - rewrite bool_decide_false; [done|]. by intros [E _].
Qed.

(** A node with the key looked for is the first one the descent did not pass. *)
Lemma head_match A B k z : StronglySorted slt (zkey <$> A ++ B) -> Forall (fun y => slt (zkey y) k) A ->
  Forall (fun y => ~ slt (zkey y) k) B -> z ∈ A ++ B -> seq_ (zkey z) k -> exists B', B = z :: B'.
Proof.
  intros Hs HA HB Hz Hk. apply elem_of_app in Hz as [Hz|Hz].
  { rewrite Forall_forall in HA. by destruct (slt_irrefl _ _ Hk (HA z Hz)). }
  destruct B as [|y B]; [by apply elem_of_nil in Hz|]. apply elem_of_cons in Hz as [->|Hz]; [by exists B|].
  apply Forall_cons_1 in HB as [Hy _]. destruct Hy. apply slt_seq with (zkey z); [|done].
  rewrite fmap_app, fmap_cons, StronglySorted_app, StronglySorted_cons in Hs. destruct Hs as (_ & _ & Hh & _).
  rewrite Forall_forall in Hh. apply Hh. apply list_elem_of_fmap. by exists z.
Qed.

Lemma shape_frame h h' zsl L : (forall l, l ∈ header zsl :: (z_loc <$> L) -> h' !! l = h !! l) ->
  sl_shape h zsl L -> sl_shape h' zsl L.
Proof.
  intros Hf Hs. pose proof (anchored_frame h h' _ _ _ _ Hf (shape_anchored _ _ _ Hs)) as Ha.
  destruct Hs as [_ _ Hnd Ht Hl Hm Hv Hh]. by apply shape_intro with (level_ zsl).
Qed.

Lemma shape_free h zsl L x : x ∉ header zsl :: (z_loc <$> L) -> sl_shape h zsl L -> sl_shape (delete x h) zsl L.
Proof. intros Hx. apply shape_frame. intros l Hl. apply lookup_delete_ne. by intros ->. Qed.

Lemma shape_lookup h zsl A z B : sl_shape h zsl (A ++ z :: B) ->
  h !! z_loc z = Some (mk_zn (Some (z_ele z)) (z_score z) (final None A) ((fun i => fwd i B) <$> seq 0 (z_h z))).
Proof. intros Hs. eapply chain_mid, sl_chain, Hs. Qed.

Lemma shape_mid h zsl A z B : sl_shape h zsl (A ++ z :: B) ->
  (1 <= z_h z)%nat /\ (z_loc z ∉ header zsl :: (z_loc <$> A ++ B)) /\ z_loc z <> header zsl.
Proof.
  intros Hs. destruct (mid_nodup _ _ _ _ (sl_nodup _ _ _ Hs)) as (_ & HzA & HzB & _). split_and!.
  - pose proof (sl_heights _ _ _ Hs) as Hh. apply Forall_app in Hh as [_ Hh]. apply Forall_cons_1 in Hh as [Hh _]. lia.
  - rewrite fmap_app, app_comm_cons. apply not_elem_of_app. done.
  - by apply not_elem_of_cons in HzA as [? _].
Qed.

(** The update array of a descent that stopped after [A]. *)
Lemma updates_at zsl A n i : (i < n)%nat -> exists r, updates zsl A n !! i = Some (node_of (header zsl) (pre i A), r).
Proof. intros Hi. unfold updates. rewrite lookup_levels by done. by eexists. Qed.

Lemma first_node B : Forall (fun z => (1 <= z_h z)%nat) B -> (fwd 0 B).1 = z_loc <$> head B.
Proof. destruct B as [|z B]; [done|]. intros Hh. apply Forall_cons_1 in Hh as [Hz _]. by rewrite fwd_hit. Qed.

Lemma shape_heights h zsl A B : sl_shape h zsl (A ++ B) -> Forall (fun z => (1 <= z_h z)%nat) B.
Proof.
  intros Hs. pose proof (sl_heights _ _ _ Hs) as Hh. apply Forall_app in Hh as [_ Hh]. eapply Forall_impl; [exact Hh|]. cbn. lia.
Qed.

(** ** zslInsert and zslDelete *)

Definition others h h' zsl L x : Prop := forall l, l ∉ header zsl :: (z_loc <$> L) -> l <> x -> h' !! l = h !! l.

Lemma not_slt_gt k z : ~ seq_ (zkey z) k -> ~ slt (zkey z) k -> slt k (zkey z).
Proof. intros Hn Hs. by destruct (slt_total (zkey z) k) as [?|[?|?]]. Qed.

Lemma insert_repr fl fb h zsl L rnd lv rnd' sc e :
  sl_repr h zsl L -> isnan sc = false -> Forall (fun z => ~ seq_ (zkey z) (sc, e)) L -> zlen L < SL_MAX ->
  zslRandomLevel rnd = Some (lv, rnd') ->
  exists h' zsl' x A B, zslInsert fl fb h zsl rnd sc e = Some (h', zsl', rnd', x) /\ L = A ++ B /\
    sl_repr h' zsl' (A ++ mk_z x sc e lv :: B) /\ h !! x = None /\ header zsl' = header zsl /\ others h h' zsl L x.
Proof.
  intros Hr Hnan Hnew Hmax Hrnd. destruct (before_stops h zsl L sc e Hr Hnan) as (A & B & EL & Hst & HA & HB).
  destruct Hr as [Hs Ho]. rewrite EL in Hs, Ho, Hnew, Hmax. apply Forall_app in Hnew as [_ HnB].
  destruct (zsl_insert_spec fl fb h zsl A B rnd lv rnd' sc e Hs Hst Hnan Hmax Hrnd) as (h' & zsl' & x & Hi & Hs' & Hx & Hh & Hf).
  exists h', zsl', x, A, B. split_and!; try done; [|by unfold others; rewrite EL].
  split; [done|]. apply sorted_mid with (sc, e); try done. eapply Forall_impl; [apply Forall_and; split; [exact HnB|exact HB]|].
  intros z [? ?]. by apply not_slt_gt.
Qed.

Lemma delete_repr h zsl L sc e keep : sl_repr h zsl L -> isnan sc = false ->
  (exists A z B h' zsl', L = A ++ z :: B /\ seq_ (zkey z) (sc, e) /\
     zslDelete h zsl sc e keep = Some (h', zsl', Some (z_loc z)) /\ sl_repr h' zsl' (A ++ B) /\
     header zsl' = header zsl /\ h' !! z_loc z = (if keep then h !! z_loc z else None) /\ others h h' zsl (A ++ B) (z_loc z)) \/
  (Forall (fun z => ~ seq_ (zkey z) (sc, e)) L /\ zslDelete h zsl sc e keep = Some (h, zsl, None)).
Proof.
  intros Hr Hnan. destruct (before_stops h zsl L sc e Hr Hnan) as (A & B & EL & Hst & HA & HB).
  destruct Hr as [Hs Ho]. rewrite EL in Hs, Ho |- *. unfold zslDelete.
  rewrite (zsl_search_spec h zsl A B _ u32 Hs Hst u32_id). cbn [mbind option_bind].
  rewrite (search_next h zsl A B Hs). pose proof (first_node B (shape_heights _ _ _ _ Hs)) as Hf.
  destruct (fwd 0 B) as [f s]. cbn [fst mbind option_bind] in *. subst f. destruct B as [|z B]; cbn [head fmap option_fmap option_map].
  { right. split; [|done]. rewrite app_nil_r. eapply Forall_impl; [exact HA|]. intros z Hz Hq. by apply (slt_irrefl _ _ Hq). }
  rewrite (shape_lookup _ _ _ _ _ Hs). cbn [mbind option_bind].
  rewrite (same_spec sc e _ (z_score z) (z_ele z)); [|done| |done|done]; cbn [mbind option_bind].
  2:{ apply (elem_nan _ z Ho). apply elem_of_app. right. apply elem_of_cons. by left. }
  case_bool_decide as Hq.
  - left. destruct (delete_node_spec h zsl A B z _ Hs (updates_at zsl A (level_ zsl))) as (h1 & zsl1 & -> & Hs1 & Hh1 & _ & Hf1).
    destruct (shape_mid _ _ _ _ _ Hs) as (_ & Hz & _). cbn [mbind option_bind]. unfold zslFreeNode.
    rewrite (Hf1 _ Hz), (shape_lookup _ _ _ _ _ Hs). cbn [mbind option_bind].
    exists A, z, B, (if keep then h1 else delete (z_loc z) h1), zsl1. split_and!; [done|done|by destruct keep| |done| |].
    + split; [|by apply sorted_del in Ho as [? _]]. destruct keep; [done|]. apply shape_free; [by rewrite Hh1|done].
    + destruct keep; [by rewrite Hf1, (shape_lookup _ _ _ _ _ Hs)|by apply lookup_delete_eq].
    + intros l Hl Hlz. destruct keep; [by apply Hf1|]. rewrite lookup_delete_ne by done. by apply Hf1.
  - right. split; [|done]. apply Forall_forall. intros y Hy Hky.
    destruct (head_match A (z :: B) (sc, e) y (proj1 Ho) HA HB Hy Hky) as [B' E]. injection E as <- <-. done.
Qed.

(** ** zslUpdateScore *)

Definition with_score z (s : spec_float) : znode := mk_z (z_loc z) s (z_ele z) (z_h z).

Lemma fwd_with_score i A z B s : fwd i (A ++ with_score z s :: B) = fwd i (A ++ z :: B).
Proof. induction A as [|y A IH]; cbn [app fwd]; [done|]. by rewrite IH. Qed.

Lemma final_with_score d A z B s : final d (A ++ with_score z s :: B) = final d (A ++ z :: B).
Proof. rewrite !zsl_final_app. unfold final. by destruct B. Qed.

Lemma set_score_shape h zsl A z B s : sl_shape h zsl (A ++ z :: B) ->
  exists h', set_score h (z_loc z) s = Some h' /\ sl_shape h' zsl (A ++ with_score z s :: B) /\
    forall l, l <> z_loc z -> h' !! l = h !! l.
Proof.
  intros Hs. unfold set_score. rewrite (shape_lookup _ _ _ _ _ Hs). cbn [mbind option_bind ele backward level].
  eexists. split; [done|]. split; [|intros l Hl; by apply lookup_insert_ne].
  destruct (mid_nodup _ _ _ _ (sl_nodup _ _ _ Hs)) as (_ & HzA & HzB & _). destruct (shape_mid _ _ _ _ _ Hs) as (_ & _ & Hzh).
  pose proof (shape_anchored _ _ _ Hs) as [(lv & [H1 H2 H3 H4]) Hc]. apply shape_intro with (level_ zsl); try done.
  - apply not_elem_of_cons in HzA as [_ HzA]. split.
    + exists lv. split; [by rewrite lookup_insert_ne|done| |done]. intros i Hi. rewrite H3 by done. f_equal. symmetry. apply fwd_with_score.
    + apply zsl_chain_app in Hc as (HcA & _ & HcB). apply zsl_chain_app. split; [|split].
      * apply chain_insert; [done|]. eapply chain_ext; [|exact HcA]. intros N y R _ k _. symmetry. apply fwd_with_score.
      * cbn [with_score z_loc z_h z_ele z_score]. by rewrite lookup_insert_eq.
      * by apply chain_insert.
  - pose proof (sl_nodup _ _ _ Hs) as Hnd. rewrite fmap_app, fmap_cons in *. done.
  - rewrite final_with_score. apply Hs.
  - pose proof (sl_len _ _ _ Hs) as Hl. rewrite zlen_app, zlen_cons in *. done.
  - pose proof (sl_max _ _ _ Hs) as Hl. rewrite zlen_app, zlen_cons in *. done.
  - apply Hs.
  - pose proof (sl_heights _ _ _ Hs) as Hh. apply Forall_app in Hh as [? Hh]. apply Forall_cons_1 in Hh as [? ?].
    apply Forall_app. split; [done|]. by constructor.
Qed.

(** A score strictly between those of the neighbours keeps the order. *)
Lemma stays_sorted A z B s e : sorted_nodes (A ++ z :: B) -> isnan s = false ->
  (forall y, last A = Some y -> klt (fkey (z_score y)) (fkey s)) ->
  (forall y, head B = Some y -> klt (fkey s) (fkey (z_score y))) ->
  Forall (fun y => slt (zkey y) (s, e)) A /\ Forall (fun y => slt (s, e) (zkey y)) B.
Proof.
  intros [Hs Hn] Hnan Hl Hh. rewrite fmap_app, fmap_cons, StronglySorted_app, StronglySorted_cons in Hs.
  destruct Hs as (_ & HsA & _ & HsB).
  assert (forall a b c, slt a b -> klt (fkey b.1) c -> klt (fkey a.1) c) as Hlow
    by (intros a b c [H|[E _]] Hk; [by eapply klt_trans|by rewrite E]).
  assert (forall a b c, slt b a -> klt c (fkey b.1) -> klt c (fkey a.1)) as Hhigh
    by (intros a b c [H|[E _]] Hk; [by eapply klt_trans|by rewrite <- E]).
  split; apply Forall_forall; intros y Hy; left; cbn [fst].
  - destruct A as [|w A _] using rev_ind; [by apply elem_of_nil in Hy|]. specialize (Hl w). rewrite last_snoc in Hl. specialize (Hl eq_refl).
    apply elem_of_app in Hy as [Hy|Hy]; [|by apply list_elem_of_singleton in Hy as ->].
    rewrite fmap_app, StronglySorted_app in HsA. destruct HsA as (Hc & _ & _). apply (Hlow (zkey y) (zkey w)); [|done].
    apply Hc; [apply list_elem_of_fmap; by exists y|apply elem_of_cons; by left].
  - destruct B as [|w B]; [by apply elem_of_nil in Hy|]. specialize (Hh w eq_refl).
    apply elem_of_cons in Hy as [->|Hy]; [done|]. rewrite fmap_cons, StronglySorted_cons in HsB. destruct HsB as [Hc _].
    apply (Hhigh (zkey y) (zkey w)); [|done]. rewrite Forall_forall in Hc. apply Hc. apply list_elem_of_fmap. by exists y.
Qed.

Lemma final_last (d : option loc) A : final d A = match last A with Some z => Some (z_loc z) | None => d end.
Proof. done. Qed.

Lemma stays_spec h zsl A z B s : sl_repr h zsl (A ++ z :: B) -> isnan s = false ->
  exists b, stays h (mk_zn (Some (z_ele z)) (z_score z) (final None A) ((fun i => fwd i B) <$> seq 0 (z_h z))) s = Some b /\
    (b = true -> (forall y, last A = Some y -> klt (fkey (z_score y)) (fkey s)) /\
                 (forall y, head B = Some y -> klt (fkey s) (fkey (z_score y)))).
Proof.
  intros [Hs Ho] Hnan. destruct (shape_mid _ _ _ _ _ Hs) as (Hzh & _ & _). unfold stays. cbn [level backward].
  rewrite lookup_levels by lia. assert (sl_shape h zsl ((A ++ [z]) ++ B)) as Hs2 by (by rewrite <- app_assoc).
  pose proof (first_node B (shape_heights _ _ _ _ Hs2)) as Hf.
  destruct (fwd 0 B) as [f sp]. cbn [fst mbind option_bind] in *. subst f.
  assert (exists bb, (match final None A with None => Some true | Some b => m ← h !! b; Some (SFltb (score m) s) end) = Some bb /\
    (bb = true -> forall y, last A = Some y -> klt (fkey (z_score y)) (fkey s))) as (bb & -> & Hbb).
  { rewrite final_last. destruct A as [|y A _] using rev_ind; [by exists true|]. rewrite last_snoc. rewrite <- app_assoc in Hs.
    rewrite (shape_lookup _ _ _ _ _ Hs). cbn [mbind option_bind score]. eexists. split; [done|]. intros Hb w [= <-].
    apply SFltb_key; [|done|done]. apply (elem_nan _ y Ho). apply elem_of_app. left. apply elem_of_app. right. apply elem_of_cons. by left. }
  cbn [mbind option_bind]. destruct bb; cbn [negb]; [|by exists false].
  destruct B as [|y B]; cbn [head fmap option_fmap option_map]; [exists true; split; [done|]; intros _; split; [by apply Hbb|done]|].
  rewrite (shape_lookup h zsl (A ++ [z]) y B Hs2). cbn [mbind option_bind score]. eexists. split; [done|]. intros Hb.
  split; [by apply Hbb|]. intros w [= <-]. apply SFltb_key; [done| |done]. apply (elem_nan _ y Ho).
  apply elem_of_app. right. apply elem_of_cons. right. apply elem_of_cons. by left.
Qed.

Lemma split_unique {T U} (f : T -> U) (l1 l1' l2 l2' : list T) (y0 : T) : NoDup (f <$> l1 ++ y0 :: l2) ->
  l1 ++ y0 :: l2 = l1' ++ y0 :: l2' -> l1 = l1' /\ l2 = l2'.
Proof.
  revert l1'. induction l1 as [|y l1 IH]; intros [|y' l1'] Hnd E; cbn in *.
  - by injection E.
  - injection E as <- ->. apply NoDup_cons in Hnd as [Hx _]. destruct Hx. rewrite fmap_app, fmap_cons.
    apply elem_of_app. right. apply elem_of_cons. by left.
  - injection E as -> <-. apply NoDup_cons in Hnd as [Hx _]. destruct Hx. rewrite fmap_app, fmap_cons.
    apply elem_of_app. right. apply elem_of_cons. by left.
  - injection E as <- E. apply NoDup_cons in Hnd as [_ Hnd]. destruct (IH l1' Hnd E) as [-> ->]. done.
Qed.

Lemma update_repr fl fb h zsl A z B rnd lv rnd1 cur e new :
  sl_repr h zsl (A ++ z :: B) -> seq_ (zkey z) (cur, e) -> isnan cur = false -> isnan new = false ->
  Forall (fun y => ~ seq_ (zkey y) (new, e)) (A ++ B) -> zslRandomLevel rnd = Some (lv, rnd1) ->
  exists h' zsl' rnd' z' A' B', zslUpdateScore fl fb h zsl rnd cur e new = Some (h', zsl', rnd', z_loc z') /\
    A ++ B = A' ++ B' /\ zkey z' = (new, e) /\ sl_repr h' zsl' (A' ++ z' :: B') /\ header zsl' = header zsl /\
    (rnd' = rnd \/ rnd' = rnd1) /\ (z_loc z' = z_loc z \/ (h !! z_loc z' = None /\ h' !! z_loc z = None)) /\
    forall l, l ∉ header zsl :: (z_loc <$> A ++ z :: B) -> l <> z_loc z' -> h' !! l = h !! l.
Proof.
  intros Hr Hq Hcur Hnew Hfr Hrnd. pose proof Hr as [Hs Ho]. destruct (before_stops h zsl _ cur e Hr Hcur) as (A0 & B0 & EL & Hst & HA & HB).
  assert (A0 = A /\ B0 = z :: B) as [-> ->].
  { destruct (head_match A0 B0 (cur, e) z) as [B' EB]; [by rewrite <- EL; apply Ho|done|done| |done|].
    - rewrite <- EL. apply elem_of_app. right. apply elem_of_cons. by left.
    - subst B0. apply (split_unique z_loc) in EL as [-> ->]; [done|].
      pose proof (sl_nodup _ _ _ Hs) as Hnd. by apply NoDup_cons in Hnd as [_ Hnd]. }
  unfold zslUpdateScore. rewrite (zsl_search_spec h zsl A (z :: B) _ u32 Hs Hst u32_id). cbn [mbind option_bind].
  rewrite (search_next h zsl A (z :: B) Hs). destruct (shape_mid _ _ _ _ _ Hs) as (Hzh & Hzn & Hzhd).
  rewrite fwd_hit by lia. cbn [mbind option_bind]. rewrite (shape_lookup _ _ _ _ _ Hs). cbn [mbind option_bind].
  assert (isnan (z_score z) = false) as Hzs by (apply (elem_nan _ z Ho), elem_of_app; right; apply elem_of_cons; by left).
  rewrite (same_spec cur e _ (z_score z) (z_ele z)) by done. cbn [mbind option_bind]. rewrite bool_decide_true by done. cbn [negb].
  destruct (stays_spec h zsl A z B new Hr Hnew) as (b & -> & Hb). cbn [mbind option_bind].
  assert (z_ele z = e) as He by apply Hq. destruct b.
  - destruct (set_score_shape h zsl A z B new Hs) as (h' & -> & Hs' & Hf). cbn [mbind option_bind].
    exists h', zsl, rnd, (with_score z new), A, B. split_and!; try done; [unfold zkey; cbn; by rewrite He| |by left|by left|].
    + destruct (Hb eq_refl) as [Hl Hh]. destruct (stays_sorted A z B new e Ho Hnew Hl Hh) as [HA' HB'].
      split; [done|]. apply sorted_mid with (new, e); try done; [unfold zkey; cbn; by rewrite He|by apply sorted_del in Ho as [? _]].
    + intros l Hl Hlz. by apply Hf.
  - destruct (delete_node_spec h zsl A B z _ Hs (updates_at zsl A (level_ zsl))) as (h1 & zsl1 & -> & Hs1 & Hh1 & _ & Hf1).
    cbn [mbind option_bind]. rewrite (Hf1 _ Hzn), (shape_lookup _ _ _ _ _ Hs). cbn [mbind option_bind ele]. rewrite He.
    assert (sl_repr h1 zsl1 (A ++ B)) as Hr1 by (split; [done|by apply sorted_del in Ho as [? _]]).
    assert (zlen (A ++ B) < SL_MAX) as Hmax by (pose proof (sl_max _ _ _ Hs) as Hm; rewrite zlen_app, ?zlen_cons in *; lia).
    destruct (insert_repr fl fb h1 zsl1 (A ++ B) rnd lv rnd1 new e Hr1 Hnew Hfr Hmax Hrnd) as (h2 & zsl2 & x & A' & B' & -> & EAB & [Hs2 Ho2] & Hx & Hh2 & Hf2).
    cbn [mbind option_bind]. assert (z_loc z <> x) as Hzx.
    { intros E. rewrite <- E, (Hf1 _ Hzn), (shape_lookup _ _ _ _ _ Hs) in Hx. done. }
    unfold others in Hf2. rewrite Hh1 in Hf2. unfold zslFreeNode. rewrite (Hf2 _ Hzn Hzx), (Hf1 _ Hzn), (shape_lookup _ _ _ _ _ Hs). cbn [mbind option_bind].
    exists (delete (z_loc z) h2), zsl2, rnd1, (mk_z x new e lv), A', B'. split_and!; try done; [|congruence|by right| |].
    + split; [|done]. apply shape_free; [|done]. rewrite Hh2, Hh1, fmap_app, fmap_cons. rewrite EAB, fmap_app in Hzn.
      rewrite app_comm_cons, <- Permutation_middle. cbn. by apply not_elem_of_cons.
    + right. cbn. split; [|apply lookup_delete_eq]. rewrite <- Hx. symmetry. apply Hf1. intros Hin.
      destruct (anchored_dom h1 (header zsl1) (level_ zsl1) (A ++ B) x) as [nd Hnd];
        [by apply shape_anchored|by rewrite Hh1|congruence].
    + cbn. intros l Hl Hlx. rewrite fmap_app, fmap_cons, app_comm_cons, <- Permutation_middle in Hl.
      apply not_elem_of_cons in Hl as [Hlz Hl]. rewrite <- app_comm_cons, <- fmap_app in Hl. rewrite lookup_delete_ne by done.
      by rewrite Hf2, Hf1.
Qed.

(** ** Ranks *)

Lemma node_ele h zsl P R : sl_shape h zsl (P ++ R) ->
  exists nd, h !! node_of (header zsl) P = Some nd /\ ele nd = z_ele <$> last P.
Proof.
  intros Hs. destruct P as [|z P _] using rev_ind.
  - destruct (sl_hdr _ _ _ Hs) as (lv & [Hh _ _ _]). by eexists.
  - rewrite <- app_assoc in Hs. rewrite node_of_snoc, last_snoc, (shape_lookup _ _ _ _ _ Hs). by eexists.
Qed.

Section Rank.
Context (h : heap) (zsl : zskiplist) (A B : list znode) (go : zskiplistNode -> Z -> Z -> option bool).
Hypothesis Hs : sl_shape h zsl (A ++ B).
Hypothesis Hgo : stops go A B.

Lemma shape_fuel : (length A < S (Z.to_nat (length_ zsl)))%nat.
Proof. rewrite (sl_len _ _ _ Hs). unfold zlen. rewrite Nat2Z.id, length_app. lia. Qed.

(** One level of a descent, from where the level above stopped. *)
Lemma level_step i wrap : (forall n, 0 <= n < 4294967296 -> wrap n = n) -> (i < level_ zsl)%nat ->
  advance go wrap (S (Z.to_nat (length_ zsl))) h (node_of (header zsl) (pre (S i) A)) i (zlen (pre (S i) A)) =
  Some (node_of (header zsl) (pre i A), zlen (pre i A)).
Proof.
  intros Hw Hi. destruct (pre_split (S i) A) as (R & ER & _). pose proof (f_equal length ER) as El. rewrite length_app in El.
  rewrite (advance_spec h zsl A B go wrap Hs Hgo Hw i (length R) _ R _ eq_refl ER);
    [|apply tall_pre; lia|pose proof shape_fuel; lia]. by rewrite (pre_step i A R ER).
Qed.

Lemma pre_ele i : exists nd, h !! node_of (header zsl) (pre i A) = Some nd /\ ele nd = z_ele <$> last (pre i A).
Proof. destruct (pre_split i A) as (R & ER & _). apply node_ele with (R ++ B). by rewrite app_assoc, <- ER. Qed.

Lemma pre_top : pre (level_ zsl) A = [].
Proof.
  apply pre_low. pose proof (sl_heights _ _ _ Hs) as Hh. apply Forall_app in Hh as [Hh _].
  eapply Forall_impl; [exact Hh|]. unfold low. cbn. lia.
Qed.

Definition has_ele (e : bytes) (nd : zskiplistNode) : option bool :=
  match ele nd with None => Some false | Some y => c ← elecmp (Some y) (Some e); Some (c =? 0) end.

Lemma has_ele_spec e nd : has_ele e nd = Some (bool_decide (ele nd = Some e)).
Proof.
  unfold has_ele. destruct (ele nd) as [y|]; [|done]. cbn. f_equal. destruct (decide (y = e)) as [->|Hne].
  - rewrite lex_refl, bool_decide_true; done.
  - rewrite bool_decide_false by congruence. destruct (lex y e) eqn:E; [|done..]. apply lex_eq in E. done.
Qed.

Lemma rank_step e i : (i < level_ zsl)%nat ->
  rank_loop e go (S (Z.to_nat (length_ zsl))) h (S i) (node_of (header zsl) (pre (S i) A)) (zlen (pre (S i) A)) =
  if bool_decide (z_ele <$> last (pre i A) = Some e) then Some (zlen (pre i A))
  else rank_loop e go (S (Z.to_nat (length_ zsl))) h i (node_of (header zsl) (pre i A)) (zlen (pre i A)).
Proof.
  intros Hi. cbn [rank_loop]. rewrite level_step by (done || apply u64_id32). cbn [mbind option_bind].
  destruct (pre_ele i) as (nd & -> & <-). cbn [mbind option_bind]. pose proof (has_ele_spec e nd) as Hh. unfold has_ele in Hh.
  rewrite Hh. cbn [mbind option_bind]. done.
Qed.

Lemma pre_elem i y : last (pre i A) = Some y -> y ∈ A.
Proof.
  intros Hl. destruct (pre_split i A) as (R & ER & _). rewrite ER. apply elem_of_app. left. by apply last_Some_elem_of.
Qed.

Lemma rank_absent e n : (n <= level_ zsl)%nat -> Forall (fun z => z_ele z <> e) A ->
  rank_loop e go (S (Z.to_nat (length_ zsl))) h n (node_of (header zsl) (pre n A)) (zlen (pre n A)) = Some 0.
Proof.
  intros Hn HA. induction n as [|i IH]; [done|]. rewrite rank_step by lia. rewrite bool_decide_false; [apply IH; lia|].
  destruct (last (pre i A)) as [y|] eqn:E; [|done]. apply pre_elem in E. rewrite Forall_forall in HA. intros [= Hy]. by apply (HA y E).
Qed.

Lemma rank_found n z A0 : (1 <= n <= level_ zsl)%nat -> A = A0 ++ [z] -> (1 <= z_h z)%nat -> Forall (fun y => z_ele y <> z_ele z) A0 ->
  rank_loop (z_ele z) go (S (Z.to_nat (length_ zsl))) h n (node_of (header zsl) (pre n A)) (zlen (pre n A)) = Some (zlen A).
Proof.
  intros Hn EA Hz HA. induction n as [|i IH]; [lia|]. rewrite rank_step by lia. destruct (Nat.lt_ge_cases i (z_h z)) as [Hi|Hi].
  - assert (pre i A = A) as -> by (rewrite EA, pre_high by done; done).
    rewrite bool_decide_true; [done|]. by rewrite EA, last_snoc.
  - rewrite bool_decide_false; [apply IH; lia|]. destruct (pre_cases i A) as [[-> _]|(N & y & R & EN & -> & Hy & _)]; [done|].
    rewrite last_snoc. intros [= Hye]. destruct R as [|w R _] using rev_ind.
    + rewrite EA in EN. apply app_inj_tail in EN as [_ ->]. lia.
    + rewrite EA, app_comm_cons, app_assoc in EN. apply app_inj_tail in EN as [-> _].
      apply Forall_app in HA as [_ HA]. by apply Forall_cons_1 in HA as [? _].
Qed.

End Rank.

Lemma upto_stops h zsl L sc e : sl_repr h zsl L -> isnan sc = false ->
  exists A B, L = A ++ B /\ stops (upto sc (Some e)) A B /\ Forall (fun z => ~ slt (sc, e) (zkey z)) A /\
    Forall (fun z => slt (sc, e) (zkey z)) B.
Proof.
  intros [_ Ho] Hsc. destruct (sorted_split (fun z => ~ slt (sc, e) (zkey z)) L) as (A & B & EL & HA & HB).
  - apply Ho.
  - intros a b _ _ Hab Hb Ha. apply Hb. by eapply slt_trans.
  - exists A, B. assert (Forall (fun z => slt (sc, e) (zkey z)) B) as HB'.
    { eapply Forall_impl; [exact HB|]. intros z Hz. by apply dec_stable. }
    split_and!; try done. apply (stops_intro _ (fun z => negb (bool_decide (slt (sc, e) (zkey z))))).
    + intros n z Hz nd r s He Hs _ _ _. apply upto_spec; try done. apply (elem_nan L); [done|by rewrite EL].
    + eapply Forall_impl; [exact HA|]. intros z Hz. apply negb_true_iff. by apply bool_decide_eq_false.
    + eapply Forall_impl; [exact HB'|]. intros z Hz. apply negb_false_iff. by apply bool_decide_eq_true.
Qed.

Lemma get_rank_absent h zsl L sc e : sl_repr h zsl L -> isnan sc = false -> Forall (fun z => z_ele z <> e) L ->
  zslGetRank h zsl sc e = Some 0.
Proof.
  intros Hr Hsc Hn. destruct (upto_stops h zsl L sc e Hr Hsc) as (A & B & EL & Hst & _ & _). destruct Hr as [Hs _].
  rewrite EL in Hs, Hn. apply Forall_app in Hn as [Hn _]. pose proof (rank_absent h zsl A B _ Hs Hst e (level_ zsl) ltac:(lia) Hn) as Hk.
  rewrite (pre_top h zsl A B Hs) in Hk. done.
Qed.

Lemma get_rank_found h zsl A z B sc : sl_repr h zsl (A ++ z :: B) -> isnan sc = false -> fkey sc = fkey (z_score z) ->
  Forall (fun y => z_ele y <> z_ele z) A -> zslGetRank h zsl sc (z_ele z) = Some (zlen A + 1).
Proof.
  intros Hr Hsc Hk HA. destruct (upto_stops h zsl _ sc (z_ele z) Hr Hsc) as (A0 & B0 & EL & Hst & HA0 & HB0).
  pose proof Hr as [Hs Ho]. apply sorted_del in Ho as (_ & HlA & HgB).
  assert (seq_ (zkey z) (sc, z_ele z)) as Hq by (by split).
  assert (A0 = A ++ [z] /\ B0 = B) as [-> ->].
  { apply (split_det (fun y => ~ slt (sc, z_ele z) (zkey y))); try done.
    - by rewrite <- EL, <- app_assoc.
    - eapply Forall_impl; [exact HB0|]. intros y Hy. tauto.
    - apply Forall_app. split; [eapply Forall_impl; [exact HlA|]|constructor; [|constructor]].
      + intros y Hy Hc. apply (slt_irrefl (zkey y) (zkey y)); [done|]. eapply slt_trans; [exact Hy|]. by eapply seq_slt.
      + by apply slt_irrefl, seq_sym.
    - eapply Forall_impl; [exact HgB|]. intros y Hy Hc. apply Hc. eapply seq_slt; [by apply seq_sym|done]. }
  assert (sl_shape h zsl ((A ++ [z]) ++ B)) as Hs2 by (by rewrite <- app_assoc).
  destruct (shape_mid _ _ _ _ _ Hs) as (Hzh & _ & _).
  pose proof (rank_found h zsl (A ++ [z]) B _ Hs2 Hst (level_ zsl) z A ltac:(pose proof (sl_level _ _ _ Hs); lia) eq_refl Hzh HA) as Hf.
  rewrite (pre_top h zsl _ B Hs2) in Hf. rewrite zlen_app in Hf. exact Hf.
Qed.

(** A descent by rank stops after [r] nodes. *)
Lemma rank_stops (L : list znode) r (cmp : Z -> Z -> bool) k : zlen L <= SL_MAX ->
  (forall n, 0 <= n -> cmp n r = (n <=? k)) -> 0 <= k ->
  stops (fun _ t span => Some (cmp (u64 (t + span)) r)) (take (Z.to_nat k) L) (drop (Z.to_nat k) L).
Proof.
  intros Hmax Hc Hk. unfold SL_MAX in Hmax. split.
  - intros N z R E nd rr s _ _ Hr Hs En. apply (f_equal zlen) in E. rewrite zlen_app, zlen_cons in E.
    pose proof (zlen_nonneg N). pose proof (zlen_nonneg R). assert (zlen (take (Z.to_nat k) L) <= zlen L /\ zlen (take (Z.to_nat k) L) <= k)
      as [? ?] by (unfold zlen; rewrite length_take; lia).
    rewrite En, u64_id, Hc by lia. f_equal. apply Z.leb_le. lia.
  - intros N z R E nd rr s _ _ Hr Hs En. pose proof (f_equal zlen E) as El. rewrite zlen_app, zlen_cons in El.
    pose proof (zlen_nonneg N). pose proof (zlen_nonneg R).
    assert (zlen (take (Z.to_nat k) L) + zlen (drop (Z.to_nat k) L) = zlen L) as Ht by (rewrite <- zlen_app; by rewrite take_drop).
    assert (zlen (take (Z.to_nat k) L) = k) as Hk2 by (unfold zlen in *; rewrite length_take, length_drop in *; lia).
    rewrite En, u64_id, Hc by lia. f_equal. apply Z.leb_gt. lia.
Qed.

Lemma byrank_loop_spec h zsl A B r n : sl_shape h zsl (A ++ B) -> (n <= level_ zsl)%nat ->
  stops (fun _ t span => Some (u64 (t + span) <=? r)) A B -> (1 <= n)%nat -> zlen A <= r -> (A = [] -> r <> 0) ->
  byrank_loop r (S (Z.to_nat (length_ zsl))) h n (node_of (header zsl) (pre n A)) (zlen (pre n A)) =
  Some (if zlen A =? r then Some (node_of (header zsl) A) else None).
Proof.
  intros Hs Hn Hst Hn1 Hr H0. induction n as [|i IH]; [lia|]. cbn [byrank_loop].
  rewrite (level_step h zsl A B _ Hs Hst i u64 u64_id32) by lia. cbn [mbind option_bind].
  destruct (pre_split i A) as (R & ER & _). pose proof (f_equal zlen ER) as El. rewrite zlen_app in El. pose proof (zlen_nonneg R).
  destruct (Z.eqb_spec (zlen (pre i A)) r) as [E|E].
  - assert (R = []) as -> by (apply zlen_0_nil; lia). rewrite app_nil_r in ER. rewrite <- ER in E |- *. by rewrite (proj2 (Z.eqb_eq _ _)).
  - destruct i as [|i]; [|apply IH; lia]. cbn [byrank_loop]. rewrite (pre_0 h zsl A B Hs) in E. by rewrite (proj2 (Z.eqb_neq _ _)).
Qed.

Lemma get_element_by_rank h zsl L r : sl_shape h zsl L -> 1 <= r < 18446744073709551616 ->
  zslGetElementByRank h zsl r = Some (z_loc <$> L !! Z.to_nat (r - 1)).
Proof.
  intros Hs Hr. unfold zslGetElementByRank. pose proof (sl_level _ _ _ Hs).
  pose proof (rank_stops L r Z.leb r (sl_max _ _ _ Hs) (fun n _ => eq_refl) ltac:(lia)) as Hst.
  set (A := take (Z.to_nat r) L) in *. set (B := drop (Z.to_nat r) L) in *.
  assert (L = A ++ B) as EL by (unfold A, B; by rewrite take_drop). rewrite EL in Hs.
  assert (zlen A <= r) as HA by (unfold zlen, A; rewrite length_take; lia).
  pose proof (byrank_loop_spec h zsl A B r (level_ zsl) Hs ltac:(lia) Hst ltac:(lia) HA ltac:(lia)) as Hb.
  rewrite (pre_top h zsl A B Hs) in Hb. cbn [node_of last] in Hb. change (zlen (@nil znode)) with 0 in Hb.
  change (node_of (header zsl) []) with (header zsl) in Hb. rewrite Hb. f_equal.
  destruct (L !! Z.to_nat (r - 1)) as [z|] eqn:Ez; cbn [fmap option_fmap option_map].
  - assert (A = take (Z.to_nat (r - 1)) L ++ [z]) as EA.
    { unfold A. replace (Z.to_nat r) with (S (Z.to_nat (r - 1))) by lia. by apply take_S_r. }
    pose proof (lookup_lt_Some _ _ _ Ez). rewrite EA, node_of_snoc, zlen_app.
    rewrite (proj2 (Z.eqb_eq _ _)); [done|]. unfold zlen. rewrite length_take. cbn. lia.
  - apply lookup_ge_None in Ez. rewrite (proj2 (Z.eqb_neq _ _)); [done|]. unfold zlen, A. rewrite length_take. lia.
Qed.

(** ** Creation and release *)

Lemma create_loop_spec n : forall h x i nd, (i + n = length (level nd))%nat -> h !! x = Some nd ->
  (forall k, (k < i)%nat -> level nd !! k = Some (None, 0)) ->
  create_loop n h x i = Some (<[x := mk_zn (ele nd) (score nd) (backward nd) (replicate (length (level nd)) (None, 0))]> h).
Proof.
  induction n as [|n IH]; intros h x i nd Hi Hx Hk; cbn [create_loop].
  - rewrite insert_id; [done|]. rewrite Hx. f_equal. destruct nd as [a b c l]. cbn in *. f_equal. apply list_eq. intros k.
    destruct (decide (k < length l)%nat) as [Hl|Hl]; [rewrite Hk by lia; by rewrite lookup_replicate_2|].
    rewrite !lookup_ge_None_2; [done|rewrite length_replicate; lia|lia].
  - destruct (lookup_lt_is_Some_2 (level nd) i) as [w Hw]; [lia|]. rewrite (set_level_in _ _ _ _ _ _ Hx Hw). cbn [mbind option_bind].
    rewrite (IH _ x (S i) (with_level nd i (None, 0))).
    + cbn. by rewrite insert_insert_eq, length_insert.
    + cbn. rewrite length_insert. lia.
    + apply lookup_insert_eq.
    + intros k Hki. cbn. destruct (decide (k = i)) as [->|?]; [apply list_lookup_insert_eq; lia|].
      rewrite list_lookup_insert_ne by done. apply Hk. lia.
Qed.

Lemma zsl_create_repr fl fb h : exists h' zsl, zslCreate fl fb h = Some (h', zsl) /\ sl_repr h' zsl [] /\
  h !! header zsl = None /\ forall l, l <> header zsl -> h' !! l = h !! l.
Proof.
  unfold zslCreate. pose proof (new_zn_fresh h) as Hx. set (x := new_zn h) in *.
  rewrite (create_loop_spec _ _ _ _ (zslCreateNode fl fb ZSKIPLIST_MAXLEVEL (S754_zero false) None));
    [|done|by rewrite lookup_insert_eq|lia].
  cbn [mbind option_bind]. rewrite (set_backward_in _ _ _ _ (lookup_insert_eq _ _ _)). cbn [mbind option_bind].
  eexists _, _. split; [done|]. split_and!; [|done|].
  - split; [|split; [constructor|done]]. apply shape_intro with 1%nat; try done; cbn [header].
    + split; [|done]. eexists. split; [by rewrite lookup_insert_eq|done| |].
      * intros i Hi. by replace i with O by lia.
      * intros i v _ Hv. apply (lookup_replicate_1 ZSKIPLIST_MAXLEVEL (None, 0)) in Hv as [-> _]. done.
    + apply NoDup_singleton.
    + unfold ZSKIPLIST_MAXLEVEL. lia.
  - intros l Hl. cbn in Hl. rewrite !insert_insert_eq. by apply lookup_insert_ne.
Qed.

Lemma free_loop_spec R : forall h p fuel, chain h fwd p R -> NoDup (z_loc <$> R) -> Forall (fun z => (1 <= z_h z)%nat) R ->
  (length R <= fuel)%nat ->
  exists h', free_loop fuel h (z_loc <$> head R) = Some h' /\ forall l, h' !! l = if bool_decide (l ∈ z_loc <$> R) then None else h !! l.
Proof.
  induction R as [|z R IH]; intros h p fuel Hc Hnd Hh Hf; [destruct fuel; by exists h|].
  destruct fuel as [|fuel]; [cbn in Hf; lia|]. destruct Hc as [Hz Hc]. rewrite fmap_cons in Hnd. apply NoDup_cons in Hnd as [HzR Hnd].
  apply Forall_cons_1 in Hh as [Hhz Hh]. change (z_loc <$> head (z :: R)) with (Some (z_loc z)). cbn [free_loop].
  rewrite (level_at_in _ _ _ _ Hz). cbn [level]. rewrite lookup_levels by lia. pose proof (first_node R Hh) as Hfn.
  destruct (fwd 0 R) as [f s]. cbn [fst mbind option_bind] in *. subst f. unfold zslFreeNode. rewrite Hz. cbn [mbind option_bind].
  destruct (IH (delete (z_loc z) h) (Some (z_loc z)) fuel) as (h' & -> & Hl); [|done|done|cbn in Hf; lia|].
  - eapply chain_frame; [|exact Hc]. intros l Hl. apply lookup_delete_ne. by intros <-.
  - exists h'. split; [done|]. intros l. rewrite Hl. destruct (decide (l = z_loc z)) as [->|Hne].
    + rewrite (bool_decide_true (_ ∈ z_loc <$> z :: R)) by (rewrite fmap_cons; apply elem_of_cons; by left).
      rewrite lookup_delete_eq. by case_bool_decide.
    + rewrite lookup_delete_ne by done. rewrite fmap_cons. erewrite bool_decide_ext; [done|]. rewrite elem_of_cons. tauto.
Qed.

Lemma free_spec h zsl L : sl_shape h zsl L ->
  exists h', zslFree h zsl = Some h' /\ forall l, h' !! l = if bool_decide (l ∈ header zsl :: (z_loc <$> L)) then None else h !! l.
Proof.
  intros Hs. unfold zslFree. pose proof (search_next h zsl [] L Hs) as Hn. cbn [node_of last] in Hn.
  change (node_of (header zsl) []) with (header zsl) in Hn. rewrite Hn. pose proof (first_node L (shape_heights h zsl [] L Hs)) as Hfn.
  destruct (fwd 0 L) as [f s]. cbn [fst mbind option_bind] in *. subst f.
  pose proof (sl_nodup _ _ _ Hs) as Hnd. apply NoDup_cons in Hnd as [Hhd Hnd].
  destruct (free_loop_spec L (delete (header zsl) h) None (Z.to_nat (length_ zsl))) as (h' & -> & Hl).
  - eapply chain_frame; [|apply Hs]. intros l Hl. apply lookup_delete_ne. by intros <-.
  - done.
  - apply (shape_heights h zsl [] L Hs).
  - rewrite (sl_len _ _ _ Hs). unfold zlen. lia.
  - exists h'. split; [done|]. intros l. rewrite Hl. destruct (decide (l = header zsl)) as [->|Hne].
    + rewrite (bool_decide_true (_ ∈ header zsl :: _)) by (apply elem_of_cons; by left). rewrite lookup_delete_eq. by case_bool_decide.
    + rewrite lookup_delete_ne by done. erewrite bool_decide_ext; [done|]. rewrite elem_of_cons. tauto.
Qed.
