(* ===== verification/SkiplistRange.v ===== *)
(** * Sorted sets: ranges of the skiplist

    The first and the last node of a range, by score and by element, and the
    deletion of a range from the skiplist and from the dictionary of the sorted
    set. *)

From stdpp Require Import base list numbers option gmap sets sorting.
From Stdlib Require Import ZArith Lia Floats.SpecFloat.
From S2P Require Import Prelude Sds SdsText Dict DictMap Skiplist SkiplistSpec SkiplistApi.

Implicit Types (h : heap) (zsl : zskiplist) (x : loc) (i : nat) (z : znode) (L A B R M : list znode).

(** ** The ends of a range, for any two monotone bounds *)

Section Bounds.
Context (h : heap) (zsl : zskiplist) (L : list znode) (gte lte : znode -> bool).
Hypothesis Hr : sl_repr h zsl L.
Hypothesis Hup : forall a b, a ∈ L -> b ∈ L -> slt (zkey a) (zkey b) -> gte a = true -> gte b = true.
Hypothesis Hdown : forall a b, a ∈ L -> b ∈ L -> slt (zkey a) (zkey b) -> lte b = true -> lte a = true.

Definition inside z : bool := gte z && lte z.

Lemma split_gte : exists A B, L = A ++ B /\ Forall (fun z => gte z = false) A /\ Forall (fun z => gte z = true) B.
Proof.
  destruct (sorted_split (fun z => gte z = false) L) as (A & B & EL & HA & HB).
  - apply Hr.
  - intros a b Ha Hb Hab Hgb. apply not_true_iff_false. intros Hga. by rewrite (Hup a b) in Hgb.
  - exists A, B. split_and!; try done. eapply Forall_impl; [exact HB|]. intros z Hz. by apply not_false_iff_true.
Qed.

Lemma split_lte : exists A B, L = A ++ B /\ Forall (fun z => lte z = true) A /\ Forall (fun z => lte z = false) B.
Proof.
  destruct (sorted_split (fun z => lte z = true) L) as (A & B & EL & HA & HB).
  - apply Hr.
  - intros a b Ha Hb Hab Hgb. by apply (Hdown a b).
  - exists A, B. split_and!; try done. eapply Forall_impl; [exact HB|]. intros z Hz. by apply not_true_iff_false.
Qed.

Lemma sorted_two A a B b C : L = A ++ a :: B ++ b :: C -> slt (zkey a) (zkey b).
Proof.
  intros EL. destruct Hr as [_ Ho]. rewrite EL in Ho. apply sorted_del in Ho as (_ & _ & HB).
  apply Forall_app in HB as [_ HB]. by apply Forall_cons_1 in HB as [? _].
Qed.

Lemma filter_none (p : znode -> bool) l : Forall (fun z => p z = false) l -> filter (fun z => Is_true (p z)) l = [].
Proof.
  induction 1 as [|z l Hz Hl IH]; [done|]. rewrite filter_cons, decide_False; [done|]. cbn. rewrite Hz. tauto.
Qed.

Lemma filter_first A B : L = A ++ B -> Forall (fun z => gte z = false) A -> Forall (fun z => gte z = true) B ->
  head (filter (fun z => Is_true (inside z)) L) = match head B with Some z => if lte z then Some z else None | None => None end.
Proof.
  intros EL HA HB. rewrite EL, filter_app, filter_none.
  2:{ eapply Forall_impl; [exact HA|]. intros z Hz. unfold inside. by rewrite Hz. }
  destruct B as [|z B]; [done|]. cbn [head app]. apply Forall_cons_1 in HB as [Hz HB]. destruct (lte z) eqn:Ez.
  - rewrite filter_cons, decide_True; [done|]. unfold inside. by rewrite Hz, Ez.
  - rewrite filter_none; [done|]. constructor; [unfold inside; by rewrite Ez, andb_false_r|]. apply Forall_forall.
    intros y Hy. unfold inside. apply andb_false_iff. right. apply not_true_iff_false. intros Hl.
    apply list_elem_of_split in Hy as (B1 & B2 & ->). rewrite (Hdown z y) in Ez; [done| | |by eapply sorted_two|done].
    + rewrite EL. apply elem_of_app. right. apply elem_of_cons. by left.
    + rewrite EL. apply elem_of_app. right. apply elem_of_cons. right. apply elem_of_app. right. apply elem_of_cons. by left.
Qed.

Lemma filter_last A B : L = A ++ B -> Forall (fun z => lte z = true) A -> Forall (fun z => lte z = false) B ->
  last (filter (fun z => Is_true (inside z)) L) = match last A with Some z => if gte z then Some z else None | None => None end.
Proof.
  intros EL HA HB. rewrite EL, filter_app, (filter_none _ B).
  2:{ eapply Forall_impl; [exact HB|]. intros z Hz. unfold inside. by rewrite Hz, andb_false_r. }
  rewrite app_nil_r. destruct A as [|z A _] using rev_ind; [done|]. rewrite last_snoc.
  apply Forall_app in HA as [HA Hz]. apply Forall_cons_1 in Hz as [Hz _]. destruct (gte z) eqn:Ez.
  - rewrite filter_app, filter_cons, decide_True by (unfold inside; by rewrite Hz, Ez). cbn. by rewrite last_snoc.
  - rewrite filter_none; [done|]. apply Forall_app. split; [|constructor; [unfold inside; by rewrite Ez|done]]. apply Forall_forall.
    intros y Hy. unfold inside. apply andb_false_iff. left. apply not_true_iff_false. intros Hl.
    apply list_elem_of_split in Hy as (A1 & A2 & ->). rewrite <- !app_assoc in EL. cbn [app] in EL. rewrite (Hup y z) in Ez; [done| | | |done].
    + rewrite EL. apply elem_of_app. right. apply elem_of_cons. by left.
    + rewrite EL. apply elem_of_app. right. apply elem_of_cons. right. apply elem_of_app. right. apply elem_of_cons. by left.
    + by eapply sorted_two.
Qed.

(** The descent to the first node of the range. *)
Lemma first_descent go : (forall n z, z ∈ L -> goes go n z (negb (gte z))) ->
  exists A B upd, L = A ++ B /\ Forall (fun z => gte z = false) A /\ Forall (fun z => gte z = true) B /\
    stops go A B /\ search go u64 h zsl = Some (node_of (header zsl) A, zlen A, upd) /\ upd = updates zsl A (level_ zsl) /\
    exists s, level_at h (node_of (header zsl) A) 0 = Some (z_loc <$> head B, s).
Proof.
  intros Hgo. destruct split_gte as (A & B & EL & HA & HB). destruct Hr as [Hs _]. rewrite EL in Hs, Hgo.
  assert (stops go A B) as Hst.
  { apply (stops_intro _ (fun z => negb (gte z))); [done| |].
    - eapply Forall_impl; [exact HA|]. intros z Hz. cbn. by rewrite Hz.
    - eapply Forall_impl; [exact HB|]. intros z Hz. cbn. by rewrite Hz. }
  exists A, B, (updates zsl A (level_ zsl)). split_and!; try done; [by apply (zsl_search_spec h zsl A B _ u64 Hs Hst u64_id32)|].
  rewrite (search_next h zsl A B Hs). pose proof (first_node B (shape_heights _ _ _ _ Hs)) as Hf.
  destruct (fwd 0 B) as [f s]. cbn in Hf. subst f. by exists s.
Qed.

Lemma last_descent go : (forall n z, z ∈ L -> goes go n z (lte z)) ->
  exists A B, L = A ++ B /\ Forall (fun z => lte z = true) A /\ Forall (fun z => lte z = false) B /\
    search go u64 h zsl = Some (node_of (header zsl) A, zlen A, updates zsl A (level_ zsl)).
Proof.
  intros Hgo. destruct split_lte as (A & B & EL & HA & HB). destruct Hr as [Hs _]. rewrite EL in Hs, Hgo.
  exists A, B. split_and!; try done. apply (zsl_search_spec h zsl A B _ u64 Hs); [|apply u64_id32].
  by apply (stops_intro _ lte).
Qed.

(** What zslIsInRange and zslIsInLexRange check on the ends of the list. *)
Lemma ends_checked z y : head L = Some z -> last L = Some y ->
  (gte y = false -> Forall (fun z => inside z = false) L) /\ (lte z = false -> Forall (fun z => inside z = false) L).
Proof.
  intros EL Ey. apply last_Some in Ey as [N EN]. assert (exists L', L = z :: L') as [L' EL'] by (destruct L; [done|injection EL as ->; eauto]).
  clear EL. rename EL' into EL.
  assert (y ∈ L) as Hy by (rewrite EN; apply elem_of_app; right; apply elem_of_cons; by left).
  assert (z ∈ L) as Hz by (rewrite EL; apply elem_of_cons; by left).
  split; intros Hf; apply Forall_forall; intros w Hw; unfold inside; apply andb_false_iff.
  - left. apply not_true_iff_false. intros Hg. rewrite EN in Hw. apply elem_of_app in Hw as [Hw|Hw].
    + apply list_elem_of_split in Hw as (N1 & N2 & ->). rewrite <- app_assoc in EN. cbn [app] in EN.
      rewrite (Hup w y) in Hf; [done| |done|by eapply sorted_two|done]. rewrite EN. apply elem_of_app. right. apply elem_of_cons. by left.
    + apply list_elem_of_singleton in Hw as ->. congruence.
  - right. apply not_true_iff_false. intros Hg. rewrite EL in Hw. apply elem_of_cons in Hw as [->|Hw]; [congruence|].
    apply list_elem_of_split in Hw as (N1 & N2 & ->). rewrite (Hdown z w) in Hf; [done|done| |by apply (sorted_two [] z N1 w N2)|done].
    rewrite EL. apply elem_of_cons. right. apply elem_of_app. right. apply elem_of_cons. by left.
Qed.

End Bounds.

(** ** Ranges by score *)

Definition range_ok (r : zrangespec) : Prop := isnan (min r) = false /\ isnan (max r) = false.
Definition score_gte (r : zrangespec) z : bool := zslValueGteMin (z_score z) r.
Definition score_lte (r : zrangespec) z : bool := zslValueLteMax (z_score z) r.

(** The nodes of a list inside a range. *)
Definition in_score_range (r : zrangespec) L : list znode := filter (fun z => Is_true (inside (score_gte r) (score_lte r) z)) L.

Lemma gte_key s r : range_ok r -> isnan s = false ->
  zslValueGteMin s r = true <-> klt (fkey (min r)) (fkey s) \/ (minex r = false /\ fkey (min r) = fkey s).
Proof.
  intros [Hm _] Hs. unfold zslValueGteMin. destruct (minex r).
  - rewrite SFltb_key by done. intuition congruence.
  - rewrite SFleb_key by done. intuition.
Qed.

Lemma lte_key s r : range_ok r -> isnan s = false ->
  zslValueLteMax s r = true <-> klt (fkey s) (fkey (max r)) \/ (maxex r = false /\ fkey s = fkey (max r)).
Proof.
  intros [_ Hm] Hs. unfold zslValueLteMax. destruct (maxex r).
  - rewrite SFltb_key by done. intuition congruence.
  - rewrite SFleb_key by done. intuition.
Qed.

Lemma slt_score a b : slt (zkey a) (zkey b) -> klt (fkey (z_score a)) (fkey (z_score b)) \/ fkey (z_score a) = fkey (z_score b).
Proof. intros [?|[? _]]; [by left|by right]. Qed.

Section ByScore.
Context (h : heap) (zsl : zskiplist) (L : list znode) (r : zrangespec).
Hypothesis Hr : sl_repr h zsl L.
Hypothesis Hok : range_ok r.

Lemma node_nan z : z ∈ L -> isnan (z_score z) = false.
Proof. apply elem_nan, Hr. Qed.

Lemma score_up a b : a ∈ L -> b ∈ L -> slt (zkey a) (zkey b) -> score_gte r a = true -> score_gte r b = true.
Proof.
  intros Ha Hb Hab%slt_score. unfold score_gte. rewrite !gte_key by (done || by apply node_nan).
  intros [Hk|[Hx Hk]]; destruct Hab as [Hab|Hab]; [left; by eapply klt_trans|left; by rewrite <- Hab|left; by rewrite Hk|right; by rewrite Hk].
Qed.

Lemma score_down a b : a ∈ L -> b ∈ L -> slt (zkey a) (zkey b) -> score_lte r b = true -> score_lte r a = true.
Proof.
  intros Ha Hb Hab%slt_score. unfold score_lte. rewrite !lte_key by (done || by apply node_nan).
  intros [Hk|[Hx Hk]]; destruct Hab as [Hab|Hab]; [left; by eapply klt_trans|left; by rewrite Hab|left; by rewrite <- Hk|right; by rewrite Hab].
Qed.

Lemma score_goes_gte n z : z ∈ L -> goes (fun n _ _ => Some (negb (zslValueGteMin (score n) r))) n z (negb (score_gte r z)).
Proof. intros _ nd a b _ Es _ _ _. by rewrite Es. Qed.
Lemma score_goes_lte n z : z ∈ L -> goes (fun n _ _ => Some (zslValueLteMax (score n) r)) n z (score_lte r z).
Proof. intros _ nd a b _ Es _ _ _. by rewrite Es. Qed.

(** A range whose ends exclude everything. *)
Lemma score_empty z : z ∈ L ->
  SFltb (max r) (min r) || (SFeqb (min r) (max r) && (minex r || maxex r)) = true -> inside (score_gte r) (score_lte r) z = false.
Proof.
  intros Hz He. apply not_true_iff_false. unfold inside, score_gte, score_lte. intros [Hg Hl]%andb_true_iff.
  rewrite gte_key in Hg by (done || by apply node_nan). rewrite lte_key in Hl by (done || by apply node_nan).
  pose proof Hok as [Hm HM]. rewrite orb_true_iff, andb_true_iff, orb_true_iff, SFltb_key, SFeqb_key in He by done.
  assert (klt (fkey (min r)) (fkey (max r)) \/ (minex r = false /\ maxex r = false /\ fkey (min r) = fkey (max r))) as Hc.
  { destruct Hg as [Hg|[Hg1 Hg]], Hl as [Hl|[Hl1 Hl]];
      [left; by eapply klt_trans|left; by rewrite <- Hl|left; by rewrite Hg|right; split_and!; try done; congruence]. }
  destruct Hc as [Hc|(Hc1 & Hc2 & Hc)]; destruct He as [He|[He1 He2]].
  - by apply (klt_irrefl (fkey (min r))), (klt_trans _ (fkey (max r))).
  - rewrite He1 in Hc. by apply klt_irrefl in Hc.
  - rewrite Hc in He. by apply klt_irrefl in He.
  - rewrite Hc1, Hc2 in He2. by destruct He2.
Qed.

Lemma is_in_range : exists b, zslIsInRange h zsl r = Some b /\
  (b = false -> Forall (fun z => inside (score_gte r) (score_lte r) z = false) L) /\
  (b = true -> exists z y, head L = Some z /\ last L = Some y /\ score_lte r z = true /\ score_gte r y = true).
Proof.
  unfold zslIsInRange. destruct (SFltb (max r) (min r) || _) eqn:He.
  { exists false. split_and!; [done| |done]. intros _. apply Forall_forall. intros z Hz. by apply score_empty. }
  pose proof (ends_checked h zsl L (score_gte r) (score_lte r) Hr score_up score_down) as Hends. destruct Hr as [Hs _].
  rewrite (sl_tail _ _ _ Hs), final_last. destruct (last L) as [y|] eqn:Ey.
  2:{ apply last_None in Ey. subst L. exists false. split_and!; try done. }
  destruct L as [|z L'] eqn:EL; [done|]. specialize (Hends z y eq_refl eq_refl). destruct Hends as [Hg Hl].
  apply last_Some in Ey as [N EN]. pose proof Hs as Hs1. rewrite EN in Hs1. rewrite (shape_lookup _ _ _ _ _ Hs1). cbn [mbind option_bind score].
  fold (score_gte r y). destruct (score_gte r y) eqn:Eg; cbn [negb]; [|by exists false; split_and!; [|intros _; apply Hg|]].
  pose proof (search_next h zsl [] _ Hs) as Hn. change (node_of (header zsl) []) with (header zsl) in Hn. rewrite Hn.
  destruct (shape_mid h zsl [] z L' Hs) as (Hzh & _ & _). rewrite fwd_hit by lia. cbn [mbind option_bind].
  rewrite (shape_lookup h zsl [] z L' Hs). cbn [mbind option_bind score]. fold (score_lte r z).
  eexists. split; [done|]. split; [by apply Hl|]. intros El. exists z, y. split_and!; try done.
Qed.

Lemma first_in_range : zslFirstInRange h zsl r = Some (z_loc <$> head (in_score_range r L)).
Proof.
  unfold zslFirstInRange, in_score_range. destruct is_in_range as (b & -> & Hno & Hyes). cbn [mbind option_bind].
  destruct b; cbn [negb]; [|by rewrite filter_none by (by apply Hno)]. destruct (Hyes eq_refl) as (z & y & _ & Hy & _ & Hgy).
  destruct (first_descent h zsl L (score_gte r) Hr score_up _ score_goes_gte) as (A & B & u & EL & HA & HB & _ & -> & _ & s & Hl).
  cbn [mbind option_bind]. rewrite Hl. cbn [mbind option_bind].
  rewrite (filter_first h zsl L (score_gte r) (score_lte r) Hr score_down A B EL HA HB).
  destruct B as [|w B]; cbn [head fmap option_fmap option_map mbind option_bind].
  - rewrite EL, app_nil_r in Hy. apply last_Some_elem_of in Hy. rewrite Forall_forall in HA. rewrite (HA y Hy) in Hgy. done.
  - destruct Hr as [Hs _]. rewrite EL in Hs. rewrite (shape_lookup _ _ _ _ _ Hs). cbn [mbind option_bind score]. fold (score_lte r w).
    by destruct (score_lte r w).
Qed.

Lemma last_in_range : zslLastInRange h zsl r = Some (z_loc <$> last (in_score_range r L)).
Proof.
  unfold zslLastInRange, in_score_range. destruct is_in_range as (b & -> & Hno & Hyes). cbn [mbind option_bind].
  destruct b; cbn [negb]; [|by rewrite filter_none by (by apply Hno)]. destruct (Hyes eq_refl) as (z & y & Hz & _ & Hlz & _).
  destruct (last_descent h zsl L (score_lte r) Hr score_down _ score_goes_lte) as (A & B & EL & HA & HB & ->). cbn [mbind option_bind].
  rewrite (filter_last h zsl L (score_gte r) (score_lte r) Hr score_up A B EL HA HB).
  destruct A as [|w A _] using rev_ind.
  - rewrite EL in Hz. apply head_Some_elem_of in Hz. rewrite Forall_forall in HB. rewrite (HB z Hz) in Hlz. done.
  - rewrite node_of_snoc, last_snoc. destruct Hr as [Hs _]. rewrite EL, <- app_assoc in Hs. rewrite (shape_lookup _ _ _ _ _ Hs).
    cbn [mbind option_bind score]. fold (score_gte r w). by destruct (score_gte r w).
Qed.

End ByScore.

(** ** Ranges by element, on nodes of equal score *)

(** The order of the ends of ranges: minstring, the strings, maxstring. *)
Definition lexlt (a b : lexstr) : Prop :=
  match a, b with
  | minstring, minstring | maxstring, maxstring => False
  | minstring, _ | _, maxstring => True
  | maxstring, _ | _, minstring => False
  | LexStr a, LexStr b => lex a b = Lt
  end.

Lemma sdscmplex_order a b : (sdscmplex a b < 0 <-> lexlt a b) /\ (sdscmplex a b = 0 <-> a = b) /\ (0 < sdscmplex a b <-> lexlt b a).
Proof.
  destruct a as [| |a], b as [| |b]; cbn; try (split_and!; split; intros; (done || lia)).
  rewrite (lex_antisym a b). pose proof (lex_eq a b) as He. destruct (lex a b); cbn; split_and!; split; intros E; try (done || lia).
  - f_equal. by apply He.
  - injection E as E. apply He in E. done.
  - injection E as E. apply He in E. done.
Qed.

Lemma lexlt_trans a b c : lexlt a b -> lexlt b c -> lexlt a c.
Proof. destruct a, b, c; cbn; try done. apply lex_lt_trans. Qed.
Lemma lexlt_irrefl a : ~ lexlt a a.
Proof. destruct a; cbn; try tauto. by rewrite lex_refl. Qed.

Definition lex_gte (r : zlexrangespec) z : bool := zslLexValueGteMin (z_ele z) r.
Definition lex_lte (r : zlexrangespec) z : bool := zslLexValueLteMax (z_ele z) r.
Definition in_lex_range (r : zlexrangespec) L : list znode := filter (fun z => Is_true (inside (lex_gte r) (lex_lte r) z)) L.

Lemma lex_gte_key e r : zslLexValueGteMin e r = true <-> lexlt (lmin r) (LexStr e) \/ (lminex r = false /\ lmin r = LexStr e).
Proof.
  unfold zslLexValueGteMin. destruct (sdscmplex_order (LexStr e) (lmin r)) as (H1 & H2 & H3). destruct (lminex r).
  - rewrite Z.ltb_lt, H3. intuition congruence.
  - rewrite Z.leb_le, <- H3. split; [intros H|intros [H|[_ H]]; [lia|]].
    + destruct (Z.eq_dec (sdscmplex (LexStr e) (lmin r)) 0) as [E|E]; [right; split; [done|symmetry; by apply H2]|left; lia].
    + symmetry in H. apply H2 in H. lia.
Qed.

Lemma lex_lte_key e r : zslLexValueLteMax e r = true <-> lexlt (LexStr e) (lmax r) \/ (lmaxex r = false /\ LexStr e = lmax r).
Proof.
  unfold zslLexValueLteMax. destruct (sdscmplex_order (LexStr e) (lmax r)) as (H1 & H2 & H3). destruct (lmaxex r).
  - rewrite Z.ltb_lt, H1. intuition congruence.
  - rewrite Z.leb_le, <- H1. split; [intros H|intros [H|[_ H]]; [lia|]].
    + destruct (Z.eq_dec (sdscmplex (LexStr e) (lmax r)) 0) as [E|E]; [right; split; [done|by apply H2]|left; lia].
    + apply H2 in H. lia.
Qed.

Section ByLex.
Context (h : heap) (zsl : zskiplist) (L : list znode) (r : zlexrangespec).
Hypothesis Hr : sl_repr h zsl L.
Hypothesis Heq : forall a b, a ∈ L -> b ∈ L -> fkey (z_score a) = fkey (z_score b).

Lemma slt_lex a b : a ∈ L -> b ∈ L -> slt (zkey a) (zkey b) -> lexlt (LexStr (z_ele a)) (LexStr (z_ele b)).
Proof.
  intros Ha Hb [Hk|[_ Hk]]; [|done]. cbn [fst zkey] in Hk. rewrite (Heq a b Ha Hb) in Hk. by apply klt_irrefl in Hk.
Qed.

Lemma lex_up a b : a ∈ L -> b ∈ L -> slt (zkey a) (zkey b) -> lex_gte r a = true -> lex_gte r b = true.
Proof.
  intros Ha Hb Hab%slt_lex; [|done..]. unfold lex_gte. rewrite !lex_gte_key.
  intros [Hk|[Hx Hk]]; left; [by eapply lexlt_trans|by rewrite Hk].
Qed.

Lemma lex_down a b : a ∈ L -> b ∈ L -> slt (zkey a) (zkey b) -> lex_lte r b = true -> lex_lte r a = true.
Proof.
  intros Ha Hb Hab%slt_lex; [|done..]. unfold lex_lte. rewrite !lex_lte_key.
  intros [Hk|[Hx Hk]]; left; [by eapply lexlt_trans|by rewrite <- Hk].
Qed.

Lemma lex_goes_gte n z : z ∈ L -> goes (fun n _ _ => e ← ele n; Some (negb (zslLexValueGteMin e r))) n z (negb (lex_gte r z)).
Proof. intros _ nd a b Ee _ _ _ _. by rewrite Ee. Qed.
Lemma lex_goes_lte n z : z ∈ L -> goes (fun n _ _ => e ← ele n; Some (zslLexValueLteMax e r)) n z (lex_lte r z).
Proof. intros _ nd a b Ee _ _ _ _. by rewrite Ee. Qed.

Lemma lex_empty z : let cmp := sdscmplex (lmin r) (lmax r) in
  (0 <? cmp) || ((cmp =? 0) && (lminex r || lmaxex r)) = true -> inside (lex_gte r) (lex_lte r) z = false.
Proof.
  intros cmp He. apply not_true_iff_false. unfold inside, lex_gte, lex_lte. intros [Hg Hl]%andb_true_iff.
  rewrite lex_gte_key in Hg. rewrite lex_lte_key in Hl. destruct (sdscmplex_order (lmin r) (lmax r)) as (_ & H2 & H3).
  rewrite orb_true_iff, andb_true_iff, orb_true_iff, Z.ltb_lt, Z.eqb_eq in He. unfold cmp in He. rewrite H2, H3 in He.
  assert (lexlt (lmin r) (lmax r) \/ (lminex r = false /\ lmaxex r = false /\ lmin r = lmax r)) as Hc.
  { destruct Hg as [Hg|[Hg1 Hg]], Hl as [Hl|[Hl1 Hl]];
      [left; by eapply lexlt_trans|left; by rewrite <- Hl|left; by rewrite Hg|right; split_and!; try done; congruence]. }
  destruct Hc as [Hc|(Hc1 & Hc2 & Hc)]; destruct He as [He|[He1 He2]].
  - by apply (lexlt_irrefl (lmin r)), (lexlt_trans _ (lmax r)).
  - rewrite He1 in Hc. by apply lexlt_irrefl in Hc.
  - rewrite Hc in He. by apply lexlt_irrefl in He.
  - rewrite Hc1, Hc2 in He2. by destruct He2.
Qed.

Lemma is_in_lex_range : exists b, zslIsInLexRange h zsl r = Some b /\
  (b = false -> Forall (fun z => inside (lex_gte r) (lex_lte r) z = false) L) /\
  (b = true -> exists z y, head L = Some z /\ last L = Some y /\ lex_lte r z = true /\ lex_gte r y = true).
Proof.
  unfold zslIsInLexRange. cbv zeta. destruct ((0 <? sdscmplex (lmin r) (lmax r)) || _) eqn:He.
  { exists false. split_and!; [done| |done]. intros _. apply Forall_forall. intros z Hz. by apply lex_empty. }
  pose proof (ends_checked h zsl L (lex_gte r) (lex_lte r) Hr lex_up lex_down) as Hends. destruct Hr as [Hs _].
  rewrite (sl_tail _ _ _ Hs), final_last. destruct (last L) as [y|] eqn:Ey.
  2:{ apply last_None in Ey. subst L. exists false. split_and!; try done. }
  destruct L as [|z L'] eqn:EL; [done|]. specialize (Hends z y eq_refl eq_refl). destruct Hends as [Hg Hl].
  apply last_Some in Ey as [N EN]. pose proof Hs as Hs1. rewrite EN in Hs1. rewrite (shape_lookup _ _ _ _ _ Hs1). cbn [mbind option_bind ele].
  fold (lex_gte r y). destruct (lex_gte r y) eqn:Eg; cbn [negb]; [|by exists false; split_and!; [|intros _; apply Hg|]].
  pose proof (search_next h zsl [] _ Hs) as Hn. change (node_of (header zsl) []) with (header zsl) in Hn. rewrite Hn.
  destruct (shape_mid h zsl [] z L' Hs) as (Hzh & _ & _). rewrite fwd_hit by lia. cbn [mbind option_bind].
  rewrite (shape_lookup h zsl [] z L' Hs). cbn [mbind option_bind ele]. fold (lex_lte r z).
  eexists. split; [done|]. split; [by apply Hl|]. intros El. exists z, y. split_and!; try done.
Qed.

Lemma first_in_lex_range : zslFirstInLexRange h zsl r = Some (z_loc <$> head (in_lex_range r L)).
Proof.
  unfold zslFirstInLexRange, in_lex_range. destruct is_in_lex_range as (b & -> & Hno & Hyes). cbn [mbind option_bind].
  destruct b; cbn [negb]; [|by rewrite filter_none by (by apply Hno)]. destruct (Hyes eq_refl) as (z & y & _ & Hy & _ & Hgy).
  destruct (first_descent h zsl L (lex_gte r) Hr lex_up _ lex_goes_gte) as (A & B & u & EL & HA & HB & _ & -> & _ & s & Hl).
  cbn [mbind option_bind]. rewrite Hl. cbn [mbind option_bind].
  rewrite (filter_first h zsl L (lex_gte r) (lex_lte r) Hr lex_down A B EL HA HB).
  destruct B as [|w B]; cbn [head fmap option_fmap option_map mbind option_bind].
  - rewrite EL, app_nil_r in Hy. apply last_Some_elem_of in Hy. rewrite Forall_forall in HA. rewrite (HA y Hy) in Hgy. done.
  - destruct Hr as [Hs _]. rewrite EL in Hs. rewrite (shape_lookup _ _ _ _ _ Hs). cbn [mbind option_bind ele]. fold (lex_lte r w).
    by destruct (lex_lte r w).
Qed.

Lemma last_in_lex_range : zslLastInLexRange h zsl r = Some (z_loc <$> last (in_lex_range r L)).
Proof.
  unfold zslLastInLexRange, in_lex_range. destruct is_in_lex_range as (b & -> & Hno & Hyes). cbn [mbind option_bind].
  destruct b; cbn [negb]; [|by rewrite filter_none by (by apply Hno)]. destruct (Hyes eq_refl) as (z & y & Hz & _ & Hlz & _).
  destruct (last_descent h zsl L (lex_lte r) Hr lex_down _ lex_goes_lte) as (A & B & EL & HA & HB & ->). cbn [mbind option_bind].
  rewrite (filter_last h zsl L (lex_gte r) (lex_lte r) Hr lex_up A B EL HA HB).
  destruct A as [|w A _] using rev_ind.
  - rewrite EL in Hz. apply head_Some_elem_of in Hz. rewrite Forall_forall in HB. rewrite (HB z Hz) in Hlz. done.
  - rewrite node_of_snoc, last_snoc. destruct Hr as [Hs _]. rewrite EL, <- app_assoc in Hs. rewrite (shape_lookup _ _ _ _ _ Hs).
    cbn [mbind option_bind ele]. fold (lex_gte r w). by destruct (lex_gte r w).
Qed.

End ByLex.

(** ** Deletion of a range *)

Section DeleteRange.
Context `{DictType bytes}.
Implicit Types (d : dict bytes loc) (m : gmap bytes loc).

(** The dictionary without the elements of the nodes [M]. *)
Definition without m M : gmap bytes loc := fold_left (fun m z => delete (z_ele z) m) M m.

(** A node record holds the element and the score of [z]. *)
Definition is_node (nd : zskiplistNode) z : Prop := ele nd = Some (z_ele z) /\ score nd = z_score z.

Lemma delrange_spec cond B M : forall h zsl d m A tr rem fuel upd,
  sl_shape h zsl (A ++ M ++ B) -> dict_repr d m -> fits m ->
  (forall i, (i < level_ zsl)%nat -> exists r, upd !! i = Some (node_of (header zsl) (pre i A), r)) ->
  (forall k z nd, M !! k = Some z -> is_node nd z -> cond nd (tr + Z.of_nat k) = Some true) ->
  (forall z nd, head B = Some z -> is_node nd z -> cond nd (tr + zlen M) = Some false) ->
  (length M < fuel)%nat -> 0 <= tr -> 0 <= rem -> tr + zlen M < 18446744073709551616 -> rem + zlen M < 18446744073709551616 ->
  exists h' zsl' d', delrange_loop cond fuel h zsl d (z_loc <$> head (M ++ B)) upd tr rem = Some (h', zsl', d', rem + zlen M) /\
    sl_shape h' zsl' (A ++ B) /\ dict_repr d' (without m M) /\ header zsl' = header zsl /\
    (forall l, l ∈ z_loc <$> M -> h' !! l = None) /\
    (forall l, l ∉ header zsl :: (z_loc <$> A ++ M ++ B) -> h' !! l = h !! l).
Proof.
  induction M as [|z M IH]; intros h zsl d m A tr rem fuel upd Hs Hd Hfit Hupd HM HB Hf Htr Hrem Hbt Hbr.
  - change (zlen (@nil znode)) with 0 in *. cbn [app] in *. rewrite !Z.add_0_r in *.
    assert (delrange_loop cond fuel h zsl d (z_loc <$> head B) upd tr rem = Some (h, zsl, d, rem)) as Hstop.
    { destruct B as [|y B]; [by destruct fuel|]. destruct fuel as [|fuel]; [lia|].
      change (z_loc <$> head (y :: B)) with (Some (z_loc y)). cbn [delrange_loop]. rewrite (shape_lookup _ _ _ _ _ Hs). cbn [mbind option_bind].
      rewrite (HB y) by done. done. }
    exists h, zsl, d. split_and!; try done. intros l Hl. by apply elem_of_nil in Hl.
  - destruct fuel as [|fuel]; [lia|]. rewrite zlen_cons in *. pose proof (zlen_nonneg M). cbn [length] in Hf.
    change (z_loc <$> head ((z :: M) ++ B)) with (Some (z_loc z)). cbn [delrange_loop app] in *.
    destruct (shape_mid _ _ _ _ _ Hs) as (Hzh & Hzn & Hzhd). pose proof (shape_lookup _ _ _ _ _ Hs) as Hz. rewrite Hz. cbn [mbind option_bind].
    pose proof (HM O z _ eq_refl (conj eq_refl eq_refl : is_node (mk_zn (Some (z_ele z)) (z_score z) (final None A) ((fun i => fwd i (M ++ B)) <$> seq 0 (z_h z))) z)) as Hc.
    rewrite Z.add_0_r in Hc. rewrite Hc. cbn [mbind option_bind negb].
    rewrite (level_at_in _ _ _ _ Hz). cbn [level]. rewrite lookup_levels by lia.
    assert (sl_shape h zsl ((A ++ [z]) ++ M ++ B)) as Hs1 by (by rewrite <- app_assoc).
    pose proof (first_node (M ++ B) (shape_heights _ _ _ _ Hs1)) as Hfn. destruct (fwd 0 (M ++ B)) as [f s]. cbn [fst mbind option_bind] in *. subst f.
    destruct (delete_node_spec h zsl A (M ++ B) z upd Hs Hupd) as (h1 & zsl1 & -> & Hs2 & Hh1 & Hl1 & Hf1). cbn [mbind option_bind].
    rewrite (Hf1 _ Hzn), Hz. cbn [mbind option_bind ele]. destruct (repr_delete d m (z_ele z) Hd Hfit) as (d1 & b & -> & Hd1). cbn [mbind option_bind].
    unfold zslFreeNode. rewrite (Hf1 _ Hzn), Hz. cbn [mbind option_bind]. rewrite !u64_id by lia.
    destruct (IH (delete (z_loc z) h1) zsl1 d1 (delete (z_ele z) m) A (tr + 1) (rem + 1) fuel upd) as (h' & zsl' & d' & -> & Hs' & Hd' & Hh' & Hfr & Hot);
      try done; try lia.
    + apply shape_free; [by rewrite Hh1|done].
    + by apply fits_delete.
    + intros i Hi. rewrite Hh1. apply Hupd. lia.
    + intros k y nd Hk Hn. replace (tr + 1 + Z.of_nat k) with (tr + Z.of_nat (S k)) by lia. by apply (HM (S k) y nd).
    + intros y nd Hy Hn. replace (tr + 1 + zlen M) with (tr + (1 + zlen M)) by lia. by apply (HB y nd).
    + exists h', zsl', d'. rewrite Hh1 in *. split_and!; try done; [do 2 f_equal; lia| |].
      * intros l Hl. rewrite fmap_cons in Hl. apply elem_of_cons in Hl as [->|Hl]; [|by apply Hfr].
        rewrite Hot by done. apply lookup_delete_eq.
      * intros l Hl. rewrite fmap_app, fmap_cons in Hl. apply not_elem_of_cons in Hl as [Hlh Hl].
        rewrite <- Permutation_middle in Hl. apply not_elem_of_cons in Hl as [Hlz Hl]. rewrite <- fmap_app in Hl.
        rewrite Hot by (by apply not_elem_of_cons). rewrite lookup_delete_ne by done. apply Hf1. by apply not_elem_of_cons.
Qed.

End DeleteRange.
