(* ===== verification/Zset.v ===== *)
(** * Sorted sets: the skiplist and the dictionary together

    A sorted set in the skiplist encoding is a dictionary from elements to nodes
    and a skiplist of the nodes; the dictionary value &node->score is the address
    of the node.  The functions below are the branches of t_zset.c for that
    encoding (the ziplist encoding stores scores as text, through the double
    conversions of libc, and is not modelled).  The theorem is that any sequence
    of operations behaves as a finite map from elements to scores. *)

From stdpp Require Import base list numbers option gmap sets sorting.
From Stdlib Require Import ZArith Lia Floats.SpecFloat.
From S2P Require Import Prelude Sds SdsText Dict DictMap Skiplist SkiplistSpec SkiplistApi SkiplistRange.

Definition ZADD_NONE : Z := 0.
Definition ZADD_INCR : Z := 1.
Definition ZADD_NX : Z := 2.
Definition ZADD_XX : Z := 4.
Definition ZADD_NOP : Z := 8.
Definition ZADD_NAN : Z := 16.
Definition ZADD_ADDED : Z := 32.
Definition ZADD_UPDATED : Z := 64.

Record zset := mk_zset { zdict : dict bytes loc; zzsl : zskiplist }.
Implicit Types (h : heap) (zs : zset) (z : znode) (L A B M : list znode).

(** Addition of doubles. *)
Definition dadd : spec_float -> spec_float -> spec_float := SFadd 53 1024.

Section Ops.
Context `{DictType bytes} (fresh_level : option loc * Z) (fresh_backward : option loc) (dict_can_resize : bool).

Definition createZsetObject h : option (heap * zset) :=
  '(h, zsl) ← zslCreate fresh_level fresh_backward h; Some (h, mk_zset dictCreate zsl).

Definition zsetLength zs : Z := length_ (zzsl zs).

(** The score, or C_ERR. *)
Definition zsetScore h zs (member : bytes) : option (zset * option spec_float) :=
  '(d, de) ← dictFind (zdict zs) member;
  let zs := mk_zset d (zzsl zs) in
  match de with
  | None => Some (zs, None)
  | Some (_, p) => n ← h !! p; Some (zs, Some (score n))
  end.

(** The result, the response flags and the value stored in *newscore. *)
Definition zsetAdd h zs (rnd : list Z) (sc : spec_float) (e : bytes) (flags : Z)
    : option (heap * zset * list Z * (Z * Z * option spec_float)) :=
  let incr := negb (Z.land flags ZADD_INCR =? 0) in
  let nx := negb (Z.land flags ZADD_NX =? 0) in
  let xx := negb (Z.land flags ZADD_XX =? 0) in
  if isnan sc then Some (h, zs, rnd, (0, ZADD_NAN, None)) else
  '(d, de) ← dictFind (zdict zs) e;
  match de with
  | Some (_, p) =>
      if nx then Some (h, mk_zset d (zzsl zs), rnd, (1, ZADD_NOP, None)) else
      n ← h !! p;
      let curscore := score n in
      let sc := if incr then dadd sc curscore else sc in
      if incr && isnan sc then Some (h, mk_zset d (zzsl zs), rnd, (0, ZADD_NAN, None)) else
      let newscore := if incr then Some sc else None in
      if negb (SFeqb sc curscore) then
        '(h, zsl, rnd, znode) ← zslUpdateScore fresh_level fresh_backward h (zzsl zs) rnd curscore e sc;
        d ← set_existing d e znode;
        Some (h, mk_zset d zsl, rnd, (1, ZADD_UPDATED, newscore))
      else Some (h, mk_zset d (zzsl zs), rnd, (1, 0, newscore))
  | None =>
      if negb xx then
        '(h, zsl, rnd, znode) ← zslInsert fresh_level fresh_backward h (zzsl zs) rnd sc e;
        '(d, ok) ← dictAdd dict_can_resize d e znode;
        if negb ok then None else
        Some (h, mk_zset d zsl, rnd, (1, ZADD_ADDED, Some sc))
      else Some (h, mk_zset d (zzsl zs), rnd, (1, ZADD_NOP, None))
  end.

(** The result is 1 ([true]) when the element was there. *)
Definition zsetDel h zs (e : bytes) : option (heap * zset * bool) :=
  '(d, de) ← dictUnlink (zdict zs) e;
  match de with
  | None => Some (h, mk_zset d (zzsl zs), false)
  | Some (_, p) =>
      n ← h !! p;
      '(h, zsl, found) ← zslDelete h (zzsl zs) (score n) e false;
      _ ← found;
      d ← resize_if_needed dict_can_resize d;
      Some (h, mk_zset d zsl, true)
  end.

(** The 0-based rank, or -1. *)
Definition zsetRank h zs (e : bytes) (reverse : bool) : option (zset * Z) :=
  let llen := zsetLength zs in
  '(d, de) ← dictFind (zdict zs) e;
  let zs := mk_zset d (zzsl zs) in
  match de with
  | None => Some (zs, -1)
  | Some (_, p) =>
      n ← h !! p;
      rank ← zslGetRank h (zzsl zs) (score n) e;
      if rank =? 0 then None else
      Some (zs, if reverse then llen - rank else rank - 1)
  end.

(** zremrangeGenericCommand: what is to be removed, the sanitized bounds of a
    range by rank, and the deletion. *)
Inductive zrange := ByRank (start end_ : Z) | ByScore (r : zrangespec) | ByLex (r : zlexrangespec).

Definition sanitize (llen start end_ : Z) : option (Z * Z) :=
  let start := if start <? 0 then llen + start else start in
  let end_ := if end_ <? 0 then llen + end_ else end_ in
  let start := if start <? 0 then 0 else start in
  if (end_ <? start) || (llen <=? start) then None else
  Some (start, if llen <=? end_ then llen - 1 else end_).

Definition zremrange h zs (range : zrange) : option (heap * zset * Z) :=
  r ← match range with
      | ByRank start end_ =>
          match sanitize (zsetLength zs) start end_ with
          | None => Some None
          | Some (start, end_) =>
              r ← zslDeleteRangeByRank h (zzsl zs) (u32 (start + 1)) (u32 (end_ + 1)) (zdict zs); Some (Some r)
          end
      | ByScore range => r ← zslDeleteRangeByScore h (zzsl zs) range (zdict zs); Some (Some r)
      | ByLex range => r ← zslDeleteRangeByLex h (zzsl zs) range (zdict zs); Some (Some r)
      end;
  match r with
  | None => Some (h, zs, 0)
  | Some (h, zsl, d, deleted) => d ← resize_if_needed dict_can_resize d; Some (h, mk_zset d zsl, deleted)
  end.

End Ops.

(** ** The lists of nodes as finite maps *)

Definition tomap {V} (f : znode -> V) L : gmap bytes V := list_to_map ((fun z => (z_ele z, f z)) <$> L).
Definition index L : gmap bytes loc := tomap z_loc L.
Definition scores L : gmap bytes spec_float := tomap z_score L.

Section Maps.
Context {V : Type} (f : znode -> V).

Lemma tomap_keys L : ((fun z => (z_ele z, f z)) <$> L).*1 = z_ele <$> L.
Proof. rewrite <- list_fmap_compose. done. Qed.

Lemma tomap_Some L e v : NoDup (z_ele <$> L) -> tomap f L !! e = Some v <-> exists z, z ∈ L /\ z_ele z = e /\ f z = v.
Proof.
  intros Hnd. unfold tomap. rewrite <- elem_of_list_to_map by (by rewrite tomap_keys). rewrite list_elem_of_fmap. split.
  - intros (z & [= -> ->] & Hz). by exists z.
  - intros (z & Hz & <- & <-). by exists z.
Qed.

Lemma tomap_None L e : tomap f L !! e = None <-> Forall (fun z => z_ele z <> e) L.
Proof.
  unfold tomap. rewrite <- not_elem_of_list_to_map, tomap_keys, Forall_forall. split.
  - intros Hn z Hz E. apply Hn. apply list_elem_of_fmap. by exists z.
  - intros Hn (z & -> & Hz)%list_elem_of_fmap. by apply (Hn z Hz).
Qed.

Lemma tomap_perm L L' : NoDup (z_ele <$> L) -> L ≡ₚ L' -> tomap f L = tomap f L'.
Proof. intros Hnd E. apply list_to_map_proper; [by rewrite tomap_keys|by rewrite E]. Qed.

Lemma tomap_mid A z B : NoDup (z_ele <$> A ++ z :: B) -> tomap f (A ++ z :: B) = <[z_ele z := f z]> (tomap f (A ++ B)).
Proof. intros Hnd. by rewrite (tomap_perm _ (z :: A ++ B) Hnd) by (by rewrite Permutation_middle). Qed.

Lemma tomap_del A z B : NoDup (z_ele <$> A ++ z :: B) -> tomap f (A ++ B) = delete (z_ele z) (tomap f (A ++ z :: B)).
Proof.
  intros Hnd. rewrite tomap_mid by done. rewrite delete_insert_id; [done|]. apply tomap_None.
  rewrite fmap_app, fmap_cons, <- Permutation_middle, <- fmap_app in Hnd. apply NoDup_cons in Hnd as [Hz _].
  apply Forall_forall. intros y Hy E. apply Hz. rewrite <- E. apply list_elem_of_fmap. by exists y.
Qed.

Lemma tomap_size L : NoDup (z_ele <$> L) -> Z.of_nat (base.size (tomap f L)) = zlen L.
Proof.
  intros Hnd. unfold zlen. f_equal. rewrite <- length_map_to_list. unfold tomap.
  rewrite (Permutation_length (map_to_list_to_map _ ltac:(by rewrite tomap_keys))). by rewrite length_fmap.
Qed.

(** Keeping the nodes that satisfy a predicate of the element and the value. *)
Lemma tomap_filter (P : bytes * V -> Prop) `{forall x, Decision (P x)} L : NoDup (z_ele <$> L) ->
  tomap f (filter (fun z => P (z_ele z, f z)) L) = filter P (tomap f L).
Proof.
  intros Hnd. apply map_eq. intros e. apply option_eq. intros v.
  rewrite map_lookup_filter_Some, !tomap_Some; [|done|].
  - split.
    + intros (z & Hz & <- & <-). apply list_elem_of_filter in Hz as [Hp Hz]. split; [by exists z|done].
    + intros [(z & Hz & <- & <-) Hp]. exists z. split; [by apply list_elem_of_filter|done].
  - apply (sublist_NoDup _ (z_ele <$> L)); [exact Hnd|]. apply fmap_sublist, sublist_filter.
Qed.

End Maps.

Lemma nodup_del A z B : NoDup (z_ele <$> A ++ z :: B) -> NoDup (z_ele <$> A ++ B) /\ Forall (fun y => z_ele y <> z_ele z) (A ++ B).
Proof.
  intros Hnd. rewrite fmap_app, fmap_cons, <- Permutation_middle, <- fmap_app in Hnd. apply NoDup_cons in Hnd as [Hz Hnd].
  split; [done|]. apply Forall_forall. intros y Hy E. apply Hz. rewrite <- E. apply list_elem_of_fmap. by exists y.
Qed.

Lemma nodup_mid A z B : NoDup (z_ele <$> A ++ B) -> Forall (fun y => z_ele y <> z_ele z) (A ++ B) -> NoDup (z_ele <$> A ++ z :: B).
Proof.
  intros Hnd Hz. rewrite fmap_app, fmap_cons, <- Permutation_middle, <- fmap_app. apply NoDup_cons. split; [|done].
  intros (y & E & Hy)%list_elem_of_fmap. rewrite Forall_forall in Hz. by apply (Hz y Hy).
Qed.

Lemma sorted_drop A M B : sorted_nodes (A ++ M ++ B) -> sorted_nodes (A ++ B).
Proof. induction M as [|z M IH]; [done|]. intros Ho. apply IH. by apply sorted_del in Ho as [? _]. Qed.

(** ** The invariant *)

Section Refinement.
Context `{DictType bytes} (fl : option loc * Z) (fb : option loc) (can : bool).

Record zs_repr h zs L : Prop := {
  zsr_list : sl_repr h (zzsl zs) L;
  zsr_nodup : NoDup (z_ele <$> L);
  zsr_dict : dict_repr (zdict zs) (index L)
}.

Lemma index_fits h zs L : zs_repr h zs L -> fits (index L).
Proof.
  intros [[Hs _] Hnd _]. unfold fits, index. rewrite (tomap_size z_loc L Hnd). pose proof (sl_max _ _ _ Hs) as Hm.
  unfold SL_MAX, DICT_BOUND in *. lia.
Qed.

(** Looking an element up: its node, or none. *)
Lemma find_node h zs L e : zs_repr h zs L -> exists d', dict_repr d' (index L) /\
  ((scores L !! e = None /\ Forall (fun z => z_ele z <> e) L /\ dictFind (zdict zs) e = Some (d', None)) \/
   exists A z B nd, L = A ++ z :: B /\ z_ele z = e /\ scores L !! e = Some (z_score z) /\
     dictFind (zdict zs) e = Some (d', Some (e, z_loc z)) /\ h !! z_loc z = Some nd /\ score nd = z_score z /\ isnan (z_score z) = false).
Proof.
  intros Hr. pose proof (index_fits _ _ _ Hr) as Hf. destruct Hr as [[Hs Ho] Hnd Hd].
  destruct (repr_find _ _ e Hd Hf) as (d' & Hfind & Hd'). exists d'. split; [done|]. destruct (index L !! e) as [p|] eqn:Ei.
  - right. apply tomap_Some in Ei as (z & Hz & He & <-); [|done]. apply list_elem_of_split in Hz as Hz'. destruct Hz' as (A & B & EL).
    rewrite EL in Hs. exists A, z, B, (mk_zn (Some (z_ele z)) (z_score z) (final None A) ((fun i => fwd i B) <$> seq 0 (z_h z))).
    split_and!; try done; [|by rewrite (shape_lookup _ _ _ _ _ Hs)|by apply (elem_nan L)]. apply tomap_Some; [done|]. by exists z.
  - left. apply tomap_None in Ei as Hn. split; [|done]. by apply tomap_None.
Qed.

Lemma zs_other h zs L d' : zs_repr h zs L -> dict_repr d' (index L) -> zs_repr h (mk_zset d' (zzsl zs)) L.
Proof. intros [Hs Hnd _] Hd. by split. Qed.

Lemma no_key L sc e : Forall (fun z => z_ele z <> e) L -> Forall (fun z => ~ seq_ (zkey z) (sc, e)) L.
Proof. intros Hn. eapply Forall_impl; [exact Hn|]. intros z Hz [_ E]. done. Qed.

(** ** Abstract operations: a map from elements to scores *)

Definition abs_zadd (m : gmap bytes spec_float) (sc : spec_float) (e : bytes) (flags : Z) : gmap bytes spec_float * (Z * Z * option spec_float) :=
  let incr := negb (Z.land flags ZADD_INCR =? 0) in
  if isnan sc then (m, (0, ZADD_NAN, None)) else
  match m !! e with
  | Some cur =>
      if negb (Z.land flags ZADD_NX =? 0) then (m, (1, ZADD_NOP, None)) else
      let sc := if incr then dadd sc cur else sc in
      if isnan sc then (m, (0, ZADD_NAN, None)) else
      let newscore := if incr then Some sc else None in
      if SFeqb sc cur then (m, (1, 0, newscore)) else (<[e := sc]> m, (1, ZADD_UPDATED, newscore))
  | None =>
      if negb (Z.land flags ZADD_XX =? 0) then (m, (1, ZADD_NOP, None)) else (<[e := sc]> m, (1, ZADD_ADDED, Some sc))
  end.

Lemma zadd_repr h zs L rnd sc e flags lv rnd1 : zs_repr h zs L -> zlen L < SL_MAX -> zslRandomLevel rnd = Some (lv, rnd1) ->
  exists h' zs' rnd' L', zsetAdd fl fb can h zs rnd sc e flags = Some (h', zs', rnd', (abs_zadd (scores L) sc e flags).2) /\
    zs_repr h' zs' L' /\ scores L' = (abs_zadd (scores L) sc e flags).1 /\ zlen L' <= zlen L + 1.
Proof.
  intros Hr Hmax Hrnd. unfold zsetAdd, abs_zadd. destruct (isnan sc) eqn:Hnan; [exists h, zs, rnd, L; split_and!; [done..|lia]|].
  destruct (find_node h zs L e Hr) as (d & Hd & [(Hsc & Hno & ->)|(A & z & B & nd & EL & He & Hsc & -> & Hnd & Es & Hzn)]);
    rewrite Hsc; cbn [mbind option_bind].
  - destruct (negb (Z.land flags ZADD_XX =? 0)); cbn [negb].
    { exists h, (mk_zset d (zzsl zs)), rnd, L. split_and!; [done|by apply zs_other with (zs := zs)|done|cbn; lia]. }
    destruct Hr as [Hl Hdup _].
    destruct (insert_repr fl fb h (zzsl zs) L rnd lv rnd1 sc e Hl Hnan (no_key L sc e Hno) Hmax Hrnd) as (h' & zsl' & x & A & B & -> & EL & Hl' & _ & _ & _).
    cbn [mbind option_bind]. destruct (repr_add can d (index L) e x Hd) as (d' & -> & Hd').
    { unfold fits, index. rewrite (tomap_size z_loc L Hdup). unfold SL_MAX, DICT_BOUND in *. lia. }
    { by apply tomap_None. }
    cbn [mbind option_bind negb]. set (z := mk_z x sc e lv) in *.
    assert (NoDup (z_ele <$> A ++ z :: B)) as Hdup' by (subst L; by apply nodup_mid).
    exists h', (mk_zset d' zsl'), rnd1, (A ++ z :: B). split_and!; [done| | |].
    + split; [done|done|]. unfold index. rewrite tomap_mid by done. by subst L.
    + unfold scores. rewrite tomap_mid by done. by subst L.
    + rewrite EL, !zlen_app, zlen_cons. lia.
  - destruct (negb (Z.land flags ZADD_NX =? 0)).
    { exists h, (mk_zset d (zzsl zs)), rnd, L. split_and!; [done|by apply zs_other with (zs := zs)|done|cbn; lia]. }
    rewrite Hnd. cbn [mbind option_bind]. rewrite Es. set (incr := negb (Z.land flags ZADD_INCR =? 0)).
    set (sc' := if incr then dadd sc (z_score z) else sc).
    assert (incr && isnan sc' = isnan sc') as -> by (unfold sc'; destruct incr; cbn; congruence).
    destruct (isnan sc') eqn:Hnan'.
    { exists h, (mk_zset d (zzsl zs)), rnd, L. split_and!; [done|by apply zs_other with (zs := zs)|done|cbn; lia]. }
    destruct (SFeqb sc' (z_score z)); cbn [negb].
    { exists h, (mk_zset d (zzsl zs)), rnd, L. split_and!; [done|by apply zs_other with (zs := zs)|done|cbn; lia]. }
    pose proof Hr as [Hl Hdup _]. rewrite EL in Hl, Hdup. destruct (nodup_del _ _ _ Hdup) as [HdupAB Hother]. rewrite He in Hother.
    destruct (update_repr fl fb h (zzsl zs) A z B rnd lv rnd1 (z_score z) e sc' Hl) as (h' & zsl' & rnd' & z' & A' & B' & -> & EAB & Hz' & Hl' & _ & _ & _ & _);
      [by split|done|done|by apply no_key|done|]. cbn [mbind option_bind].
    destruct (repr_set d (index L) e (z_loc z) (z_loc z') Hd) as (d' & -> & Hd').
    { apply tomap_Some; [by rewrite EL|]. exists z. split_and!; try done. rewrite EL. apply elem_of_app. right. apply elem_of_cons. by left. }
    cbn [mbind option_bind]. injection Hz' as Hz1 Hz2.
    assert (NoDup (z_ele <$> A' ++ z' :: B')) as Hdup' by (apply nodup_mid; [by rewrite <- EAB|rewrite <- EAB, Hz2; done]).
    assert (forall V (f : znode -> V), tomap f (A' ++ z' :: B') = <[e := f z']> (tomap f L)) as Hmap.
    { intros V f. rewrite (tomap_mid f A' z' B' Hdup'), <- EAB, EL, (tomap_mid f A z B Hdup), Hz2, He. by rewrite insert_insert_eq. }
    exists h', (mk_zset d' zsl'), rnd', (A' ++ z' :: B'). split_and!; [done| | |].
    + split; [done|done|]. unfold index. rewrite Hmap. done.
    + unfold scores. rewrite Hmap, Hz1. done.
    + rewrite EL. apply (f_equal zlen) in EAB. rewrite !zlen_app, !zlen_cons in *. lia.
Qed.

Lemma zdel_repr h zs L e : zs_repr h zs L ->
  exists h' zs' L', zsetDel can h zs e = Some (h', zs', bool_decide (is_Some (scores L !! e))) /\ zs_repr h' zs' L' /\
    scores L' = delete e (scores L) /\ zlen L' <= zlen L.
Proof.
  intros Hr. pose proof (index_fits _ _ _ Hr) as Hf. pose proof Hr as [Hl Hdup Hd]. unfold zsetDel.
  destruct (repr_unlink _ _ e Hd Hf) as (d & -> & Hd'). cbn [mbind option_bind].
  destruct (find_node h zs L e Hr) as (_ & _ & [(Hsc & Hno & _)|(A & z & B & nd & EL & He & Hsc & _ & Hnd & Es & Hzn)]); rewrite Hsc.
  - assert (index L !! e = None) as Hi by (by apply tomap_None). rewrite Hi. cbn [fmap option_fmap option_map].
    rewrite bool_decide_false by (by intros [? ?]). exists h, (mk_zset d (zzsl zs)), L. rewrite delete_id in Hd' by done. rewrite delete_id by done.
    split_and!; [done|by split|done|lia].
  - assert (index L !! e = Some (z_loc z)) as Hi.
    { apply tomap_Some; [done|]. exists z. split_and!; try done. rewrite EL. apply elem_of_app. right. apply elem_of_cons. by left. }
    rewrite Hi. cbn [fmap option_fmap option_map]. rewrite bool_decide_true by (by eexists). rewrite Hnd. cbn [mbind option_bind]. rewrite Es.
    destruct (delete_repr h (zzsl zs) L (z_score z) e false Hl Hzn) as [(A' & z' & B' & h' & zsl' & EL' & Hq & -> & Hl' & _)|[Hall _]].
    + cbn [mbind option_bind]. destruct (repr_resize_if can d (delete e (index L)) Hd') as (d' & -> & Hd''); [by apply fits_delete|].
      cbn [mbind option_bind]. assert (z_ele z' = e) as He' by apply Hq. rewrite EL' in Hdup.
      exists h', (mk_zset d' zsl'), (A' ++ B'). split_and!; [done| | |].
      * split; [done|by apply nodup_del in Hdup as [? _]|]. cbn. unfold index in *. rewrite (tomap_del z_loc A' z' B' Hdup), He', <- EL'. done.
      * unfold scores. by rewrite (tomap_del z_score A' z' B' Hdup), He', <- EL'.
      * rewrite EL', !zlen_app, zlen_cons. lia.
    + rewrite Forall_forall in Hall. destruct (Hall z); [rewrite EL; apply elem_of_app; right; apply elem_of_cons; by left|by split].
Qed.

Lemma zscore_repr h zs L e : zs_repr h zs L ->
  exists zs', zsetScore h zs e = Some (zs', scores L !! e) /\ zs_repr h zs' L.
Proof.
  intros Hr. unfold zsetScore. destruct (find_node h zs L e Hr) as (d & Hd & [(Hsc & Hno & ->)|(A & z & B & nd & EL & He & Hsc & -> & Hnd & Es & Hzn)]);
    rewrite Hsc; cbn [mbind option_bind]; exists (mk_zset d (zzsl zs)).
  - split; [done|by apply zs_other with (zs := zs)].
  - rewrite Hnd. cbn [mbind option_bind]. rewrite Es. split; [done|by apply zs_other with (zs := zs)].
Qed.

(** The elements before [(sc, e)] in the order of the set. *)
Definition below (m : gmap bytes spec_float) (sc : spec_float) (e : bytes) : gmap bytes spec_float :=
  filter (fun kv : bytes * spec_float => slt (kv.2, kv.1) (sc, e)) m.

Definition abs_zrank (m : gmap bytes spec_float) (e : bytes) (reverse : bool) : Z :=
  match m !! e with
  | None => -1
  | Some sc => let r := Z.of_nat (base.size (below m sc e)) in
      if reverse then Z.of_nat (base.size m) - 1 - r else r
  end.

Lemma filter_all {T} (P : T -> Prop) `{forall x, Decision (P x)} (l : list T) : Forall P l -> filter P l = l.
Proof. induction 1 as [|y l Hy Hl IH]; [done|]. rewrite filter_cons, decide_True by done. by rewrite IH. Qed.
Lemma filter_no {T} (P : T -> Prop) `{forall x, Decision (P x)} (l : list T) : Forall (fun x => ~ P x) l -> filter P l = [].
Proof. induction 1 as [|y l Hy Hl IH]; [done|]. by rewrite filter_cons, decide_False. Qed.

Lemma below_size A z B : sorted_nodes (A ++ z :: B) -> NoDup (z_ele <$> A ++ z :: B) ->
  Z.of_nat (base.size (below (scores (A ++ z :: B)) (z_score z) (z_ele z))) = zlen A.
Proof.
  intros Ho Hnd. unfold below, scores. rewrite <- (tomap_filter z_score (fun kv => slt (kv.2, kv.1) (z_score z, z_ele z)) _ Hnd).
  apply sorted_del in Ho as (_ & HA & HB). cbn. rewrite filter_app, filter_all, filter_no, app_nil_r.
  - apply tomap_size. rewrite fmap_app in Hnd. by apply NoDup_app in Hnd as [? _].
  - constructor; [by apply slt_irrefl|]. eapply Forall_impl; [exact HB|]. intros y Hy Hc.
    apply (slt_irrefl (zkey y) (zkey y)); [done|]. by eapply slt_trans.
  - done.
Qed.

Lemma zrank_repr h zs L e reverse : zs_repr h zs L ->
  exists zs', zsetRank h zs e reverse = Some (zs', abs_zrank (scores L) e reverse) /\ zs_repr h zs' L.
Proof.
  intros Hr. unfold zsetRank, abs_zrank. destruct (find_node h zs L e Hr) as (d & Hd & [(Hsc & Hno & ->)|(A & z & B & nd & EL & He & Hsc & -> & Hnd & Es & Hzn)]);
    rewrite Hsc; cbn [mbind option_bind]; exists (mk_zset d (zzsl zs)).
  - split; [done|by apply zs_other with (zs := zs)].
  - rewrite Hnd. cbn [mbind option_bind zzsl]. rewrite Es. pose proof Hr as [Hl Hdup _]. rewrite EL in Hl, Hdup.
    destruct (nodup_del _ _ _ Hdup) as [_ Hother]. apply Forall_app in Hother as [HotherA _].
    pose proof (get_rank_found h (zzsl zs) A z B (z_score z) Hl Hzn eq_refl HotherA) as Hg. rewrite He in Hg. rewrite Hg. cbn [mbind option_bind].
    pose proof (zlen_nonneg A). rewrite (proj2 (Z.eqb_neq _ _)) by lia. split; [|by apply zs_other with (zs := zs)].
    rewrite EL. rewrite <- He. rewrite below_size by (done || apply Hl). do 2 f_equal. unfold zsetLength, scores.
    rewrite (sl_len _ _ _ (repr_shape _ _ _ Hl)), (tomap_size z_score _ Hdup). destruct reverse; lia.
Qed.

(** ** Removal of a range *)

Lemma index_without A M B : NoDup (z_ele <$> A ++ M ++ B) -> without (index (A ++ M ++ B)) M = index (A ++ B) /\ NoDup (z_ele <$> A ++ B).
Proof.
  unfold without, index. induction M as [|z M IH]; intros Hnd; cbn [fold_left app] in *; [done|].
  pose proof (nodup_del A z (M ++ B) Hnd) as [Hnd' _]. rewrite <- (tomap_del z_loc A z (M ++ B) Hnd). by apply IH.
Qed.

(** What is left of the map when the nodes that satisfy [p] are removed. *)
Definition abs_remove (p : bytes * spec_float -> bool) (m : gmap bytes spec_float) : gmap bytes spec_float :=
  filter (fun kv => p kv = false) m.

Lemma scores_removed p A M B : NoDup (z_ele <$> A ++ M ++ B) ->
  Forall (fun z => p (z_ele z, z_score z) = false) A -> Forall (fun z => p (z_ele z, z_score z) = true) M ->
  Forall (fun z => p (z_ele z, z_score z) = false) B -> scores (A ++ B) = abs_remove p (scores (A ++ M ++ B)).
Proof.
  intros Hnd HA HM HB. unfold abs_remove, scores. rewrite <- (tomap_filter z_score (fun kv => p kv = false) _ Hnd). f_equal. cbn.
  rewrite !filter_app, (filter_all _ A HA), (filter_all _ B HB), filter_no; [done|]. eapply Forall_impl; [exact HM|]. cbn. congruence.
Qed.

(** The deletion loop on a sorted set, for the nodes [M] of a range. *)
Lemma zrem_loop h zs A M B p cond upd tr : zs_repr h zs (A ++ M ++ B) ->
  Forall (fun z => p (z_ele z, z_score z) = false) A -> Forall (fun z => p (z_ele z, z_score z) = true) M ->
  Forall (fun z => p (z_ele z, z_score z) = false) B ->
  upd = updates (zzsl zs) A (level_ (zzsl zs)) ->
  (forall k z nd, M !! k = Some z -> is_node nd z -> cond nd (tr + Z.of_nat k) = Some true) ->
  (forall z nd, head B = Some z -> is_node nd z -> cond nd (tr + zlen M) = Some false) ->
  0 <= tr -> tr + zlen M < 18446744073709551616 ->
  exists h' zs', (r ← delrange_loop cond (S (Z.to_nat (length_ (zzsl zs)))) h (zzsl zs) (zdict zs) (z_loc <$> head (M ++ B)) upd tr 0;
      let '(h, zsl, d, deleted) := r in d ← resize_if_needed can d; Some (h, mk_zset d zsl, deleted)) = Some (h', zs', zlen M) /\
    zs_repr h' zs' (A ++ B) /\ scores (A ++ B) = abs_remove p (scores (A ++ M ++ B)).
Proof.
  intros Hr HA HM HB Hu Hc1 Hc2 Htr Hb. pose proof (index_fits _ _ _ Hr) as Hf. destruct Hr as [[Hs Ho] Hdup Hd].
  destruct (index_without A M B Hdup) as [Hw Hdup'].
  assert (zlen M <= zlen (A ++ M ++ B)) as HlM by (rewrite !zlen_app; pose proof (zlen_nonneg A); pose proof (zlen_nonneg B); lia).
  pose proof (sl_max _ _ _ Hs) as Hmax. unfold SL_MAX in Hmax. pose proof (zlen_nonneg M).
  destruct (delrange_spec cond B M h (zzsl zs) (zdict zs) (index (A ++ M ++ B)) A tr 0 (S (Z.to_nat (length_ (zzsl zs)))) upd Hs Hd Hf)
    as (h' & zsl' & d' & -> & Hs' & Hd' & _ & _ & _); try done; try lia.
  - intros i Hi. rewrite Hu. by apply updates_at.
  - rewrite (sl_len _ _ _ Hs). unfold zlen in *. lia.
  - cbn [mbind option_bind]. destruct (repr_resize_if can d' _ Hd') as (d'' & -> & Hd''); [rewrite Hw; unfold fits, index; rewrite (tomap_size z_loc _ Hdup');
      rewrite !zlen_app in *; unfold DICT_BOUND; pose proof (zlen_nonneg A); pose proof (zlen_nonneg B); lia|].
    cbn [mbind option_bind]. exists h', (mk_zset d'' zsl'). split_and!; [done| |by apply scores_removed].
    split; [|done|by rewrite <- Hw]. split; [done|]. by apply sorted_drop with M.
Qed.

Lemma zrem_bind h0 zs0 (X : option (heap * zskiplist * dict bytes loc * Z)) :
  (r ← (r ← X; Some (Some r)); match r with
     | None => Some (h0, zs0, 0)
     | Some (h, zsl, d, deleted) => d ← resize_if_needed can d; Some (h, mk_zset d zsl, deleted)
     end) =
  (r ← X; let '(h, zsl, d, deleted) := r in d ← resize_if_needed can d; Some (h, mk_zset d zsl, deleted)).
Proof. by destruct X as [[[[? ?] ?] ?]|]. Qed.

(** The nodes of [B] up to the upper bound. *)
Lemma split_upper h zsl A B (lte : znode -> bool) : sl_repr h zsl (A ++ B) ->
  (forall a b, a ∈ A ++ B -> b ∈ A ++ B -> slt (zkey a) (zkey b) -> lte b = true -> lte a = true) ->
  exists M C, B = M ++ C /\ Forall (fun z => lte z = true) M /\ Forall (fun z => lte z = false) C.
Proof.
  intros [_ [Hs _]] Hdown. rewrite fmap_app, StronglySorted_app in Hs. destruct Hs as (_ & _ & Hs).
  destruct (sorted_split (fun z => lte z = true) B Hs) as (M & C & EB & HM & HC).
  - intros a b Ha Hb. apply Hdown; apply elem_of_app; by right.
  - exists M, C. split_and!; try done. eapply Forall_impl; [exact HC|]. intros z Hz. by apply not_true_iff_false.
Qed.

Lemma head_elem B z : head B = Some z -> z ∈ B.
Proof. destruct B as [|y B]; [done|]. intros [= <-]. apply elem_of_cons. by left. Qed.

(** Removal between two monotone bounds, once the descent is known. *)
Lemma zrem_bounds h zs L p (gte lte : znode -> bool) go cond : zs_repr h zs L ->
  (forall a b, a ∈ L -> b ∈ L -> slt (zkey a) (zkey b) -> gte a = true -> gte b = true) ->
  (forall a b, a ∈ L -> b ∈ L -> slt (zkey a) (zkey b) -> lte b = true -> lte a = true) ->
  (forall n z, z ∈ L -> goes go n z (negb (gte z))) ->
  (forall z nd t, z ∈ L -> is_node nd z -> cond nd t = Some (lte z)) ->
  (forall z, p (z_ele z, z_score z) = gte z && lte z) ->
  exists h' zs' L', (r ← ('(x, _, update) ← search go u64 h (zzsl zs); '(xf, _) ← level_at h x 0;
      delrange_loop cond (S (Z.to_nat (length_ (zzsl zs)))) h (zzsl zs) (zdict zs) xf update 0 0);
      let '(h, zsl, d, deleted) := r in d ← resize_if_needed can d; Some (h, mk_zset d zsl, deleted)) = Some (h', zs', zlen L - zlen L') /\
    zs_repr h' zs' L' /\ scores L' = abs_remove p (scores L) /\ zlen L' <= zlen L.
Proof.
  intros Hr Hup Hdown Hgo Hcond Hp. pose proof Hr as [Hl _ _].
  destruct (first_descent h (zzsl zs) L gte Hl Hup go Hgo) as (A & B & u & EL & HA & HB & _ & -> & Hu & s & Hlv).
  rewrite EL in Hl, Hdown. destruct (split_upper h (zzsl zs) A B lte Hl Hdown) as (M & C & EB & HM & HC).
  rewrite EB in EL, HB, Hlv. apply Forall_app in HB as [HgM HgC]. cbn [mbind option_bind]. rewrite Hlv. cbn [mbind option_bind].
  pose proof (sl_max _ _ _ (repr_shape _ _ _ (zsr_list _ _ _ Hr))) as Hmax. unfold SL_MAX in Hmax.
  pose proof (zlen_nonneg A). pose proof (zlen_nonneg M). pose proof (zlen_nonneg C).
  rewrite EL in Hr, Hcond. assert (zlen L = zlen A + zlen M + zlen C) as HlL by (rewrite EL, !zlen_app; lia).
  destruct (zrem_loop h zs A M C p cond u 0 Hr) as (h' & zs' & E & Hr' & Hsc').
  - eapply Forall_impl; [exact HA|]. intros z Hz. cbn. by rewrite Hp, Hz.
  - eapply Forall_impl; [apply Forall_and; split; [exact HgM|exact HM]|]. intros z [Hz1 Hz2]. by rewrite Hp, Hz1, Hz2.
  - eapply Forall_impl; [exact HC|]. intros z Hz. cbn. by rewrite Hp, Hz, andb_false_r.
  - done.
  - intros k z nd Hk Hn. apply list_elem_of_lookup_2 in Hk. rewrite Forall_forall in HM. rewrite (Hcond z nd), (HM z Hk); try done.
    apply elem_of_app. right. apply elem_of_app. by left.
  - intros z nd Hz Hn. apply head_elem in Hz. rewrite Forall_forall in HC. rewrite (Hcond z nd), (HC z Hz); try done.
    apply elem_of_app. right. apply elem_of_app. by right.
  - lia.
  - lia.
  - exists h', zs', (A ++ C). rewrite <- EL in Hsc'. split_and!; [|done|done|rewrite zlen_app; lia].
    rewrite zlen_app. replace (zlen L - (zlen A + zlen C)) with (zlen M) by lia. exact E.
Qed.

Definition in_range_score (r : zrangespec) (kv : bytes * spec_float) : bool := zslValueGteMin kv.2 r && zslValueLteMax kv.2 r.
Definition in_range_lex (r : zlexrangespec) (kv : bytes * spec_float) : bool := zslLexValueGteMin kv.1 r && zslLexValueLteMax kv.1 r.

Lemma min_passed s r : range_ok r -> isnan s = false ->
  (if minex r then SFleb s (min r) else SFltb s (min r)) = negb (zslValueGteMin s r).
Proof.
  intros [Hm _] Hs. unfold zslValueGteMin. apply eq_true_iff_eq. rewrite negb_true_iff, <- not_true_iff_false. destruct (minex r).
  - rewrite SFleb_key, SFltb_key by done. destruct (klt_total (fkey s) (fkey (min r))) as [Hk|[Hk|Hk]]; split; intros Hx; try tauto.
    + intros Hc. by apply (klt_irrefl (fkey s)), (klt_trans _ (fkey (min r))).
    + rewrite Hk. apply klt_irrefl.
    + destruct Hx as [Hx|Hx]; [by destruct (klt_irrefl (fkey s)); eapply klt_trans|rewrite Hx in Hk; by apply klt_irrefl in Hk].
  - rewrite SFleb_key, SFltb_key by done. destruct (klt_total (fkey s) (fkey (min r))) as [Hk|[Hk|Hk]]; split; intros Hx; try tauto.
    + intros [Hc|Hc]; [by apply (klt_irrefl (fkey s)), (klt_trans _ (fkey (min r)))|rewrite Hc in Hk; by apply klt_irrefl in Hk].
    + rewrite Hk in Hx. by apply klt_irrefl in Hx.
    + destruct Hx. by right.
    + by destruct (klt_irrefl (fkey s)); eapply klt_trans.
Qed.

Lemma zrem_score h zs L r : zs_repr h zs L -> range_ok r ->
  exists h' zs' L', zremrange can h zs (ByScore r) = Some (h', zs', zlen L - zlen L') /\ zs_repr h' zs' L' /\
    scores L' = abs_remove (in_range_score r) (scores L) /\ zlen L' <= zlen L.
Proof.
  intros Hr Hok. unfold zremrange. rewrite zrem_bind. unfold zslDeleteRangeByScore. pose proof Hr as [Hl _ _].
  apply (zrem_bounds h zs L _ (score_gte r) (score_lte r)); try done.
  - by apply (score_up h (zzsl zs)).
  - by apply (score_down h (zzsl zs)).
  - intros n z Hz nd a b _ Es _ _ _. rewrite Es, min_passed; [done|done|]. by apply (node_nan h (zzsl zs) L).
  - intros z nd t Hz [_ Es]. rewrite Es. done.
Qed.

Lemma zrem_lex h zs L r : zs_repr h zs L -> (forall a b, a ∈ L -> b ∈ L -> fkey (z_score a) = fkey (z_score b)) ->
  exists h' zs' L', zremrange can h zs (ByLex r) = Some (h', zs', zlen L - zlen L') /\ zs_repr h' zs' L' /\
    scores L' = abs_remove (in_range_lex r) (scores L) /\ zlen L' <= zlen L.
Proof.
  intros Hr Heq. unfold zremrange. rewrite zrem_bind. unfold zslDeleteRangeByLex. pose proof Hr as [Hl _ _].
  apply (zrem_bounds h zs L _ (lex_gte r) (lex_lte r)); try done.
  - by apply (lex_up L).
  - by apply (lex_down L).
  - intros n z Hz. by apply (lex_goes_gte L).
  - intros z nd t Hz [Ee _]. by rewrite Ee.
Qed.

Definition rank_in (m : gmap bytes spec_float) (start end_ : Z) (kv : bytes * spec_float) : bool :=
  let r := Z.of_nat (base.size (below m kv.2 kv.1)) in (start <=? r) && (r <=? end_).

Lemma rank_in_at h zs L N z R start end_ : zs_repr h zs L -> L = N ++ z :: R ->
  rank_in (scores L) start end_ (z_ele z, z_score z) = (start <=? zlen N) && (zlen N <=? end_).
Proof. intros [[_ Ho] Hnd _] EL. unfold rank_in. cbn [fst snd]. rewrite EL in *. by rewrite below_size. Qed.

Lemma in_take {T} n (l : list T) x : x ∈ take n l -> exists l1 l2, l = l1 ++ x :: l2 /\ (length l1 < n)%nat.
Proof.
  intros (l1 & l2 & E)%list_elem_of_split. exists l1, (l2 ++ drop n l). split.
  - rewrite <- (take_drop n l), E at 1. by rewrite <- app_assoc.
  - apply (f_equal length) in E. rewrite length_take, length_app in E. cbn in E. lia.
Qed.

Lemma in_drop {T} n (l : list T) x : x ∈ drop n l -> exists l1 l2, l = l1 ++ x :: l2 /\ (n <= length l1)%nat.
Proof.
  intros (l1 & l2 & E)%list_elem_of_split. exists (take n l ++ l1), l2. split.
  - rewrite <- (take_drop n l), E at 1. by rewrite <- app_assoc.
  - rewrite length_app, length_take. apply (f_equal length) in E. rewrite length_drop, length_app in E. cbn in E. lia.
Qed.

Lemma sanitize_range llen start end_ s e : 0 <= llen -> sanitize llen start end_ = Some (s, e) -> 0 <= s <= e /\ e < llen.
Proof.
  intros Hl. unfold sanitize. repeat match goal with |- context [?a <? 0] => destruct (Z.ltb_spec a 0) end;
  match goal with |- context [?a || ?b] => destruct (a || b) eqn:E end; try done; apply orb_false_iff in E as [E1 E2];
  match goal with |- context [llen <=? ?a] => destruct (Z.leb_spec llen a) end; intros [= <- <-]; lia.
Qed.

Lemma zrem_rank h zs L start end_ : zs_repr h zs L ->
  exists h' zs' L', zremrange can h zs (ByRank start end_) = Some (h', zs', zlen L - zlen L') /\ zs_repr h' zs' L' /\
    scores L' = abs_remove (match sanitize (zlen L) start end_ with Some (s, e) => rank_in (scores L) s e | None => fun _ => false end) (scores L) /\
    zlen L' <= zlen L.
Proof.
  intros Hr. pose proof Hr as [[Hs Ho] Hnd _]. unfold zremrange, zsetLength. rewrite (sl_len _ _ _ Hs).
  pose proof (zlen_nonneg L) as Hl0. destruct (sanitize (zlen L) start end_) as [[s e]|] eqn:Es.
  2:{ exists h, zs, L. cbn [mbind option_bind]. rewrite Z.sub_diag. split_and!; [done|done| |lia]. unfold abs_remove. symmetry. by apply map_filter_id. }
  apply sanitize_range in Es; [|done]. rewrite zrem_bind. unfold zslDeleteRangeByRank.
  pose proof (sl_max _ _ _ Hs) as Hmax. unfold SL_MAX in Hmax. rewrite !u32_id by lia.
  pose proof (rank_stops L (s + 1) Z.ltb s ltac:(unfold SL_MAX; lia) ltac:(intros n Hn; destruct (Z.ltb_spec n (s + 1)), (Z.leb_spec n s); lia) ltac:(lia)) as Hst.
  set (A := take (Z.to_nat s) L) in *. set (B0 := drop (Z.to_nat s) L) in *.
  set (M := take (Z.to_nat (e - s + 1)) B0). set (C := drop (Z.to_nat (e - s + 1)) B0).
  assert (L = A ++ B0) as EL0 by (unfold A, B0; by rewrite take_drop). assert (B0 = M ++ C) as EB by (unfold M, C; by rewrite take_drop).
  assert (zlen A = s) as HlA by (unfold A, zlen; rewrite length_take; unfold zlen in *; lia).
  assert (zlen B0 = zlen L - s) as HlB by (unfold B0, zlen; rewrite length_drop; unfold zlen in *; lia).
  assert (zlen M = e - s + 1) as HlM by (unfold M, zlen; rewrite length_take; unfold zlen in *; lia).
  rewrite EL0 in Hs. rewrite (zsl_search_spec h (zzsl zs) A B0 _ u64 Hs Hst u64_id32). cbn [mbind option_bind].
  rewrite (search_next h (zzsl zs) A B0 Hs). pose proof (first_node B0 (shape_heights _ _ _ _ Hs)) as Hf.
  destruct (fwd 0 B0) as [f sp]. cbn [fst mbind option_bind] in *. subst f. rewrite EB in EL0 |- *. rewrite HlA, u64_id by lia.
  assert (L = A ++ M ++ C) as EL by done. set (p := rank_in (scores L) s e).
  assert (forall N z R, L = N ++ z :: R -> p (z_ele z, z_score z) = (s <=? zlen N) && (zlen N <=? e)) as Hp
    by (intros N z R E; by apply (rank_in_at h zs L N z R)).
  assert (zs_repr h zs (A ++ M ++ C)) as Hr' by (by rewrite <- EL).
  destruct (zrem_loop h zs A M C p (fun _ t => Some (t <=? e + 1)) (updates (zzsl zs) A (level_ (zzsl zs))) (s + 1) Hr') as (h' & zs' & E & Hr'' & Hsc).
  - apply Forall_forall. intros z Hz. apply in_take in Hz as (N & R & EN & Hn). rewrite (Hp N z R EN). unfold zlen in *. lia.
  - apply Forall_forall. intros z Hz. apply in_take in Hz as (N & R & EN & Hn). rewrite EB in EN.
    rewrite (Hp (A ++ N) z R) by (by rewrite EL, EN, <- app_assoc). rewrite zlen_app. unfold zlen in *. lia.
  - apply Forall_forall. intros z Hz. apply in_drop in Hz as (N & R & EN & Hn). rewrite EB in EN.
    rewrite (Hp (A ++ N) z R) by (by rewrite EL, EN, <- app_assoc). rewrite zlen_app. unfold zlen in *. lia.
  - done.
  - intros k z nd Hk _. apply lookup_lt_Some in Hk. f_equal. unfold zlen in *. lia.
  - intros z nd Hz _. f_equal. lia.
  - lia.
  - lia.
  - exists h', zs', (A ++ C). rewrite <- EL in Hsc. assert (zlen L = zlen A + zlen M + zlen C) as HlL by (rewrite EL at 1; rewrite !zlen_app; lia).
    rewrite zlen_app. split_and!; [|done|done|pose proof (zlen_nonneg M); lia].
    replace (zlen L - (zlen A + zlen C)) with (zlen M) by lia. exact E.
Qed.

End Refinement.
