(* ===== verification/ZsetProps.v ===== *)
(** * Sorted sets: the properties

    Sequences of operations on a sorted set in the skiplist encoding against a
    finite map, and the contract of the skiplist. *)

From stdpp Require Import base list numbers option gmap sets sorting.
From Stdlib Require Import ZArith Lia Floats.SpecFloat.
From S2P Require Import Prelude Sds SdsText Dict DictMap Skiplist SkiplistSpec SkiplistApi SkiplistRange Zset.

(** An operation; ZADD comes with what random() returns during the call. *)
Inductive zop :=
| ZAdd (rnd : list Z) (sc : spec_float) (e : bytes) (flags : Z) | ZDel (e : bytes) | ZScore (e : bytes)
| ZRank (e : bytes) (reverse : bool) | ZCard | ZRem (range : zrange).
Inductive zans := AnsAdd (r : Z * Z * option spec_float) | AnsBool (b : bool) | AnsScore (s : option spec_float) | AnsInt (n : Z).

Section Run.
Context `{DictType bytes} (fl : option loc * Z) (fb : option loc) (can : bool).

Definition run_zop (h : heap) (zs : zset) (op : zop) : option (heap * zset * zans) :=
  match op with
  | ZAdd rnd sc e flags => '(h, zs, _, r) ← zsetAdd fl fb can h zs rnd sc e flags; Some (h, zs, AnsAdd r)
  | ZDel e => '(h, zs, b) ← zsetDel can h zs e; Some (h, zs, AnsBool b)
  | ZScore e => '(zs, s) ← zsetScore h zs e; Some (h, zs, AnsScore s)
  | ZRank e reverse => '(zs, n) ← zsetRank h zs e reverse; Some (h, zs, AnsInt n)
  | ZCard => Some (h, zs, AnsInt (zsetLength zs))
  | ZRem range => '(h, zs, n) ← zremrange can h zs range; Some (h, zs, AnsInt n)
  end.

Fixpoint run_zops (h : heap) (zs : zset) (ops : list zop) : option (heap * zset * list zans) :=
  match ops with
  | [] => Some (h, zs, [])
  | op :: ops => '(h, zs, a) ← run_zop h zs op; '(h, zs, r) ← run_zops h zs ops; Some (h, zs, a :: r)
  end.

Definition abs_zrem (m : gmap bytes spec_float) (range : zrange) : gmap bytes spec_float :=
  match range with
  | ByRank start end_ =>
      match sanitize (Z.of_nat (base.size m)) start end_ with Some (s, e) => abs_remove (rank_in m s e) m | None => m end
  | ByScore r => abs_remove (in_range_score r) m
  | ByLex r => abs_remove (in_range_lex r) m
  end.

(** The same operation on a map from elements to scores. *)
Definition abs_zop (m : gmap bytes spec_float) (op : zop) : gmap bytes spec_float * zans :=
  match op with
  | ZAdd _ sc e flags => ((abs_zadd m sc e flags).1, AnsAdd (abs_zadd m sc e flags).2)
  | ZDel e => (delete e m, AnsBool (bool_decide (is_Some (m !! e))))
  | ZScore e => (m, AnsScore (m !! e))
  | ZRank e reverse => (m, AnsInt (abs_zrank m e reverse))
  | ZCard => (m, AnsInt (Z.of_nat (base.size m)))
  | ZRem range => (abs_zrem m range, AnsInt (Z.of_nat (base.size m) - Z.of_nat (base.size (abs_zrem m range))))
  end.

Fixpoint abs_zops (m : gmap bytes spec_float) (ops : list zop) : gmap bytes spec_float * list zans :=
  match ops with
  | [] => (m, [])
  | op :: ops => let '(m, a) := abs_zop m op in let '(m, r) := abs_zops m ops in (m, a :: r)
  end.

(** random() ends the choice of a level; the bounds of a range are numbers; a
    range by element is asked of elements of equal score. *)
Definition zop_ok (m : gmap bytes spec_float) (op : zop) : Prop :=
  match op with
  | ZAdd rnd _ _ _ => is_Some (zslRandomLevel rnd)
  | ZRem (ByScore r) => range_ok r
  | ZRem (ByLex _) => forall e s e' s', m !! e = Some s -> m !! e' = Some s' -> fkey s = fkey s'
  | _ => True
  end.

Fixpoint zops_ok (m : gmap bytes spec_float) (ops : list zop) : Prop :=
  match ops with [] => True | op :: ops => zop_ok m op /\ zops_ok (abs_zop m op).1 ops end.

Lemma scores_size h zs L : zs_repr h zs L -> Z.of_nat (base.size (scores L)) = zlen L.
Proof. intros [_ Hnd _]. by apply tomap_size. Qed.

Lemma run_zop_repr h zs L op : zs_repr h zs L -> zop_ok (scores L) op -> zlen L < SL_MAX ->
  exists h' zs' L', run_zop h zs op = Some (h', zs', (abs_zop (scores L) op).2) /\ zs_repr h' zs' L' /\
    scores L' = (abs_zop (scores L) op).1 /\ zlen L' <= zlen L + 1.
Proof.
  intros Hr Hok Hmax. pose proof (scores_size _ _ _ Hr) as Hsz.
  destruct op as [rnd sc e flags|e|e|e reverse| |range]; cbn [run_zop abs_zop zop_ok fst snd] in *.
  - destruct Hok as [[lv rnd1] Hrnd]. destruct (zadd_repr fl fb can h zs L rnd sc e flags lv rnd1 Hr Hmax Hrnd) as (h' & zs' & r' & L' & -> & Hr' & Hs' & Hl').
    by exists h', zs', L'.
  - destruct (zdel_repr can h zs L e Hr) as (h' & zs' & L' & -> & Hr' & Hs' & Hl'). exists h', zs', L'. split_and!; try done. lia.
  - destruct (zscore_repr h zs L e Hr) as (zs' & -> & Hr'). exists h, zs', L. split_and!; try done. lia.
  - destruct (zrank_repr h zs L e reverse Hr) as (zs' & -> & Hr'). exists h, zs', L. split_and!; try done. lia.
  - exists h, zs, L. split_and!; try done; [|lia]. unfold zsetLength. rewrite (sl_len _ _ _ (repr_shape _ _ _ (zsr_list _ _ _ Hr))). by rewrite Hsz.
  - assert (exists h' zs' L', zremrange can h zs range = Some (h', zs', zlen L - zlen L') /\ zs_repr h' zs' L' /\
      scores L' = abs_zrem (scores L) range /\ zlen L' <= zlen L) as (h' & zs' & L' & -> & Hr' & Hs' & Hl').
    { destruct range as [start end_|r|r]; cbn [abs_zrem].
      - destruct (zrem_rank can h zs L start end_ Hr) as (h' & zs' & L' & E & Hr' & Hs' & Hl'). exists h', zs', L'. rewrite Hsz.
        destruct (sanitize (zlen L) start end_) as [[s e]|]; [done|]. split_and!; try done. rewrite Hs'. unfold abs_remove. by apply map_filter_id.
      - by apply zrem_score.
      - apply zrem_lex; [done|]. intros a b Ha Hb. destruct Hr as [_ Hnd _]. eapply Hok; by apply (proj2 (tomap_Some z_score L _ _ Hnd)); eauto. }
    cbn [mbind option_bind]. exists h', zs', L'. rewrite <- Hs', Hsz, (scores_size _ _ _ Hr'). split_and!; try done. lia.
Qed.

Lemma run_zops_repr ops : forall h zs L, zs_repr h zs L -> zops_ok (scores L) ops -> zlen L + zlen ops <= SL_MAX ->
  exists h' zs' L', run_zops h zs ops = Some (h', zs', (abs_zops (scores L) ops).2) /\ zs_repr h' zs' L' /\
    scores L' = (abs_zops (scores L) ops).1.
Proof.
  induction ops as [|op ops IH]; intros h zs L Hr Hok Hmax; cbn [run_zops abs_zops]; [by exists h, zs, L|].
  destruct Hok as [Ho Hok]. rewrite zlen_cons in Hmax. pose proof (zlen_nonneg ops).
  destruct (run_zop_repr h zs L op Hr Ho) as (h1 & zs1 & L1 & -> & Hr1 & Hs1 & Hl1); [lia|]. cbn [mbind option_bind].
  rewrite <- Hs1 in Hok. destruct (IH h1 zs1 L1 Hr1 Hok) as (h' & zs' & L' & -> & Hr' & Hs'); [lia|]. cbn [mbind option_bind].
  destruct (abs_zop (scores L) op) as [m a] eqn:E1. cbn [fst snd] in *. subst m.
  destruct (abs_zops (scores L1) ops) as [m r] eqn:E2. by exists h', zs', L'.
Qed.

Lemma create_zset h : exists h' zs, createZsetObject fl fb h = Some (h', zs) /\ zs_repr h' zs [].
Proof.
  unfold createZsetObject. destruct (zsl_create_repr fl fb h) as (h' & zsl & -> & Hr & _). eexists h', _. split; [done|].
  split; [done|constructor|apply repr_create].
Qed.

End Run.

(** C6. Sorted set. Starting from a new sorted set in the skiplist encoding, any sequence of ZADD with its
    flags, removals of elements, of ranges by rank, by score and by element, score, rank and cardinality
    queries, with any levels random() may choose and any hash function, completes without following a bad
    pointer, gives the answers a finite map from elements to scores gives, and ends in a state where the
    dictionary and the skiplist hold exactly that map, sorted by score and then by element. *)
Theorem zset_refines_map `{DictType bytes} fl fb can h ops :
  zops_ok ∅ ops -> zlen ops <= SL_MAX ->
  exists h' zs' L, ('(h, zs) ← createZsetObject fl fb h; run_zops fl fb can h zs ops) = Some (h', zs', (abs_zops ∅ ops).2) /\
    zs_repr h' zs' L /\ scores L = (abs_zops ∅ ops).1.
Proof.
  intros Hok Hmax. destruct (create_zset fl fb h) as (h0 & zs & -> & Hr). cbn [mbind option_bind].
  by apply (run_zops_repr fl fb can ops h0 zs [] Hr).
Qed.

(** C30. Skiplist. The spans count nodes: for every position of the list zslGetElementByRank returns the node
    at that 1-based position, zslGetRank of its score and element returns the position back, and positions
    beyond the length give NULL. *)
Theorem skiplist_rank_roundtrip h zsl L r :
  sl_repr h zsl L -> NoDup (z_ele <$> L) -> 1 <= r < 18446744073709551616 ->
  match L !! Z.to_nat (r - 1) with
  | Some z => zslGetElementByRank h zsl r = Some (Some (z_loc z)) /\ zslGetRank h zsl (z_score z) (z_ele z) = Some r
  | None => zslGetElementByRank h zsl r = Some None
  end.
Proof.
  intros Hr Hnd Hrange. pose proof (get_element_by_rank h zsl L r (repr_shape _ _ _ Hr) Hrange) as Hg.
  destruct (L !! Z.to_nat (r - 1)) as [z|] eqn:E; [|done]. split; [done|].
  pose proof (lookup_lt_Some _ _ _ E) as Hlt. apply list_elem_of_split_length in E as (A & B & EL & HA). rewrite EL in Hr, Hnd.
  destruct (nodup_del _ _ _ Hnd) as [_ Hother]. apply Forall_app in Hother as [Hother _].
  rewrite (get_rank_found h zsl A z B (z_score z) Hr); [f_equal; unfold zlen; lia| |done|done].
  destruct Hr as [_ Ho]. apply (elem_nan _ z Ho). apply elem_of_app. right. apply elem_of_cons. by left.
Qed.

(** C36. Skiplist. zslFirstInRange and zslLastInRange return the first and the last node whose score lies in the
    range, for inclusive and exclusive bounds, and NULL when the range holds no node. *)
Theorem skiplist_range_ends h zsl L r :
  sl_repr h zsl L -> range_ok r ->
  zslFirstInRange h zsl r = Some (z_loc <$> head (in_score_range r L)) /\
  zslLastInRange h zsl r = Some (z_loc <$> last (in_score_range r L)).
Proof. intros Hr Hok. split; [by apply first_in_range|by apply last_in_range]. Qed.

(** ** Witnesses *)

#[local] Existing Instance bytes_dict_type.

Definition one : spec_float := S754_finite false 4503599627370496 (-52).
Definition two : spec_float := S754_finite false 4503599627370496 (-51).

Definition demo_zops : list zop :=
  [ZAdd [65535] two [98] 0; ZAdd [0; 65535] one [97] 0; ZAdd [65535] one [99] 0; ZRank [98] false; ZAdd [65535] two [97] ZADD_INCR;
   ZRank [98] false; ZRem (ByScore (mk_range one two false true)); ZScore [97]; ZDel [98]; ZCard].

Lemma zset_refines_map_witness :
  exists h' zs' L, ('(h, zs) ← createZsetObject (None, 7) None ∅; run_zops (None, 7) None true h zs demo_zops) =
      Some (h', zs', (abs_zops ∅ demo_zops).2) /\ zs_repr h' zs' L /\ scores L = (abs_zops ∅ demo_zops).1.
Proof.
  apply (zset_refines_map (None, 7) None true ∅ demo_zops); [|vm_compute; discriminate].
  repeat split; eexists; reflexivity.
Defined.

Definition demo_h : heap :=
  {[1%positive := mk_zn None (S754_zero false) None ([(Some 2%positive, 1); (Some 3%positive, 2)] ++ replicate 30 (None, 0));
    2%positive := mk_zn (Some [97]) one None [(Some 3%positive, 1)];
    3%positive := mk_zn (Some [98]) two (Some 2%positive) [(None, 0); (None, 0)]]}.
Definition demo_zsl : zskiplist := mk_zsl 1 (Some 3%positive) 2 2.
Definition demo_L : list znode := [mk_z 2 one [97] 1; mk_z 3 two [98] 2].

Lemma demo_sl_repr : sl_repr demo_h demo_zsl demo_L.
Proof.
  split.
  - apply shape_intro with 2%nat; try (done || (unfold SL_MAX, ZSKIPLIST_MAXLEVEL; vm_compute; lia)).
    + split; [|split; [reflexivity|split; [reflexivity|done]]].
      exists ([(Some 2%positive, 1); (Some 3%positive, 2)] ++ replicate 30 (None, 0)). split; [reflexivity|reflexivity| |].
      * intros i Hi. destruct i as [|[|i]]; [reflexivity|reflexivity|lia].
      * intros i v Hi. rewrite lookup_app_r by (cbn; lia). intros [-> _]%lookup_replicate_1. done.
    + apply (bool_decide_eq_true_1 (NoDup _)); vm_compute; reflexivity.
    + repeat constructor; cbn; lia.
  - split; [|repeat constructor]. apply StronglySorted_cons. split; [|repeat constructor].
    constructor; [|constructor]. left. unfold klt. cbn. lia.
Qed.

Lemma skiplist_rank_roundtrip_witness :
  zslGetElementByRank demo_h demo_zsl 2 = Some (Some 3%positive) /\ zslGetRank demo_h demo_zsl two [98] = Some 2.
Proof.
  apply (skiplist_rank_roundtrip demo_h demo_zsl demo_L 2 demo_sl_repr);
    [apply (bool_decide_eq_true_1 (NoDup _)); vm_compute; reflexivity|lia].
Defined.

Lemma skiplist_range_ends_witness :
  zslFirstInRange demo_h demo_zsl (mk_range one two true false) = Some (Some 3%positive) /\
  zslLastInRange demo_h demo_zsl (mk_range one two true false) = Some (Some 3%positive).
Proof. exact (skiplist_range_ends demo_h demo_zsl demo_L (mk_range one two true false) demo_sl_repr (conj eq_refl eq_refl)). Defined.

(** zslGetRank compares the element only: asked for an element with a score higher than its own, it
    returns the rank of the element instead of 0, although the pair is not in the list. *)
Theorem zslGetRank_other_score :
  sl_repr demo_h demo_zsl demo_L /\ Forall (fun z => ~ seq_ (zkey z) (two, [97])) demo_L /\
  zslGetRank demo_h demo_zsl two [97] = Some 1.
Proof.
  split; [exact demo_sl_repr|]. split; [|vm_compute; reflexivity].
  repeat constructor; intros [E1 E2]; [discriminate E1|discriminate E2].
Qed.

(** The flag zslParseLexRangeItem sets is 1 for an open end, written with a parenthesis, and 0 for a
    closed one; the two infinite ends are open. *)
Theorem zslParseLexRangeItem_ex s :
  zslParseLexRangeItem (40 :: s) = Some (LexStr s, true) /\ zslParseLexRangeItem (91 :: s) = Some (LexStr s, false) /\
  zslParseLexRangeItem [43] = Some (maxstring, true) /\ zslParseLexRangeItem [45] = Some (minstring, true) /\
  (s <> [] -> hd 0 s <> 0 -> zslParseLexRangeItem (43 :: s) = None /\ zslParseLexRangeItem (45 :: s) = None).
Proof.
  split_and!; try reflexivity. intros Hs Hz. destruct s as [|c s]; [done|]. cbn in Hz. unfold zslParseLexRangeItem. cbn.
  by rewrite (proj2 (Z.eqb_neq c 0)).
Qed.
