(* ===== verification/Db.v ===== *)
(** * The keyspace of db.c and its commands

    A database is a dictionary of values and a dictionary of expire times that
    shares its keys.  Keys expire lazily: a key whose time has passed stays in the
    dictionaries until a command touches it.  The functions below are those of
    db.c, expire.c, lazyfree.c and t_string.c that maintain the two dictionaries,
    written in a state monad whose failure is a failed assertion.  The theorems:
    every key with an expire time has a value, and a client cannot tell lazy
    expiration from a keyspace in which keys vanish when their time has come.

    Values are abstract.  Not modelled: access times (LRU and LFU), the slot map
    of the cluster, blocked clients, the freeing of values, and the DEL by which
    EXPIRE with a time in the past replaces itself in the replication stream. *)

From stdpp Require Import base list numbers option strings gmap.
From Stdlib Require Import ZArith Lia.
From S2P Require Import Prelude Util Dict DictMap.

(** ** State *)

(** The part of [server] that a command reads and does not change: [clock] is what
    mstime() returns, which does not advance while a command runs, [cached] is
    server.mstime. *)
Record config := mk_config {
  loading : bool; lua_caller : bool; lua_time_start : Z; fixed_time_expire : Z; cached : Z; clock : Z;
  masterhost : bool; readonly_client : bool; lazy_expire : bool; lazy_server_del : bool; dict_can_resize : bool
}.

(** What a command leaves for the rest of the server: commands sent to the
    replicas and the append only file, keyspace notifications, and the keys
    whose watchers are to be told. *)
Inductive event := Propagate (lazy : bool) (key : bytes) | Notify (name : string) (key : bytes) | Modified (key : bytes).

Record stats := mk_stats { stat_expiredkeys : Z; stat_hits : Z; stat_misses : Z; dirty : Z; events : list event }.

Record state (V : Type) := mk_state { db_dict : dict bytes V; db_expires : dict bytes Z; st_stats : stats }.
Arguments mk_state {V}. Arguments db_dict {V}. Arguments db_expires {V}. Arguments st_stats {V}.

(** ** The monad *)

Definition M (V A : Type) : Type := state V -> option (state V * A).

#[export] Instance M_ret {V} : MRet (M V) := fun A a s => Some (s, a).
#[export] Instance M_bind {V} : MBind (M V) := fun A B f m s => '(s, a) ← m s; f a s.

Section Monad.
Context {V : Type}.

Definition assert_that (b : bool) : M V unit := fun s => if b then Some (s, tt) else None.
Definition gets {A} (f : state V -> A) : M V A := fun s => Some (s, f s).
Definition on_stats (f : stats -> stats) : M V unit := fun s => Some (mk_state (db_dict s) (db_expires s) (f (st_stats s)), tt).

Definition emit (e : event) : M V unit :=
  on_stats (fun t => mk_stats (stat_expiredkeys t) (stat_hits t) (stat_misses t) (dirty t) (events t ++ [e])).
Definition count_expired : M V unit :=
  on_stats (fun t => mk_stats (stat_expiredkeys t + 1) (stat_hits t) (stat_misses t) (dirty t) (events t)).
Definition count_hit : M V unit :=
  on_stats (fun t => mk_stats (stat_expiredkeys t) (stat_hits t + 1) (stat_misses t) (dirty t) (events t)).
Definition count_miss : M V unit :=
  on_stats (fun t => mk_stats (stat_expiredkeys t) (stat_hits t) (stat_misses t + 1) (dirty t) (events t)).
Definition count_dirty : M V unit :=
  on_stats (fun t => mk_stats (stat_expiredkeys t) (stat_hits t) (stat_misses t) (dirty t + 1) (events t)).

(** An operation on the main dictionary, and one on the expires. *)
Definition with_dict {A} (f : dict bytes V -> option (dict bytes V * A)) : M V A :=
  fun s => '(d, a) ← f (db_dict s); Some (mk_state d (db_expires s) (st_stats s), a).
Definition with_expires {A} (f : dict bytes Z -> option (dict bytes Z * A)) : M V A :=
  fun s => '(d, a) ← f (db_expires s); Some (mk_state (db_dict s) d (st_stats s), a).

End Monad.

Definition is_some {A} (o : option A) : bool := match o with Some _ => true | None => false end.

Definition LOOKUP_NONE : Z := 0.
Definition LOOKUP_NOTOUCH : Z := 1.
Definition LOOKUP_NONOTIFY : Z := 2.
Definition OBJ_SET_NX : Z := 1.
Definition OBJ_SET_XX : Z := 2.
Definition OBJ_SET_KEEPTTL : Z := 16.
Inductive time_unit := UNIT_SECONDS | UNIT_MILLISECONDS.

Definition lift {V A} (o : option A) : M V A := fun s => a ← o; Some (s, a).

Section Ops.
Context {V : Type} `{DictType bytes} (cfg : config).
Implicit Types (key : bytes) (val : V).

Definition signalModifiedKey key : M V unit := emit (Modified key).
Definition notifyKeyspaceEvent (name : string) key : M V unit := emit (Notify name key).
Definition propagateExpire key (lazy : bool) : M V unit := emit (Propagate lazy key).

Definition find_main key : M V (option V) :=
  with_dict (fun d => '(d, de) ← dictFind d key; Some (d, match de with Some he => Some he.2 | None => None end)).
Definition find_expire key : M V (option Z) :=
  with_expires (fun d => '(d, de) ← dictFind d key; Some (d, match de with Some he => Some he.2 | None => None end)).

(** ** Expire times *)

Definition getExpire key : M V Z :=
  n ← gets (fun s => dictSize (db_expires s));
  if n =? 0 then mret (-1) else
  de ← find_expire key;
  match de with
  | None => mret (-1)
  | Some when => kde ← find_main key; _ ← assert_that (is_some kde); mret when
  end.

(** The time commands compare expire times with. *)
Definition now_of : Z :=
  if lua_caller cfg then lua_time_start cfg else if fixed_time_expire cfg >? 0 then cached cfg else clock cfg.

Definition keyIsExpired key : M V bool :=
  when ← getExpire key;
  if when <? 0 then mret false else
  if loading cfg then mret false else
  mret (now_of >? when).

Definition removeExpire key : M V bool :=
  kde ← find_main key; _ ← assert_that (is_some kde);
  with_expires (fun d => dictDelete d key).

(** [dictAddOrFind], then the store through the entry it returns; without the
    list of keys a writable replica keeps. *)
Definition setExpire key (when : Z) : M V unit :=
  kde ← find_main key; _ ← assert_that (is_some kde);
  with_expires (fun d =>
    '(d, r) ← dictAddRaw (dict_can_resize cfg) d key when;
    match r with
    | Slot _ => Some (d, tt)
    | Exists _ => d ← set_existing d key when; Some (d, tt)
    | NoRoom => None
    end).

(** ** Deletion *)

Definition drop_expire key : M V unit :=
  n ← gets (fun s => dictSize (db_expires s));
  if n >? 0 then _ ← with_expires (fun d => dictDelete d key); mret tt else mret tt.

Definition dbSyncDelete key : M V bool :=
  _ ← drop_expire key;
  with_dict (fun d => dictDelete d key).

(** The value is freed now or by a background thread. *)
Definition dbAsyncDelete key : M V bool :=
  _ ← drop_expire key;
  de ← with_dict (fun d => dictUnlink d key);
  mret (is_some de).

Definition dbDelete key : M V bool := if lazy_server_del cfg then dbAsyncDelete key else dbSyncDelete key.

Definition expireIfNeeded key : M V bool :=
  expired ← keyIsExpired key;
  if negb expired then mret false else
  if masterhost cfg then mret true else
  _ ← count_expired;
  _ ← propagateExpire key (lazy_expire cfg);
  _ ← notifyKeyspaceEvent "expired" key;
  retval ← (if lazy_expire cfg then dbAsyncDelete key else dbSyncDelete key);
  _ ← (if retval : bool then signalModifiedKey key else mret tt);
  mret retval.

(** ** Lookups *)

Definition lookupKey key : M V (option V) := find_main key.

Definition lookupKeyReadWithFlags key (flags : Z) : M V (option V) :=
  expired ← expireIfNeeded key;
  let keymiss :=
    if Z.land flags LOOKUP_NONOTIFY =? 0 then _ ← count_miss; _ ← notifyKeyspaceEvent "keymiss" key; mret None
    else mret None in
  if expired && (negb (masterhost cfg) || readonly_client cfg) then keymiss else
  val ← lookupKey key;
  match val with
  | None => keymiss
  | Some val => _ ← count_hit; mret (Some val)
  end.

Definition lookupKeyRead key : M V (option V) := lookupKeyReadWithFlags key LOOKUP_NONE.

Definition lookupKeyWrite key : M V (option V) := _ ← expireIfNeeded key; lookupKey key.

Definition dbExists key : M V bool := de ← find_main key; mret (is_some de).

(** ** Writing *)

Definition dbAdd key val : M V unit :=
  ok ← with_dict (fun d => dictAdd (dict_can_resize cfg) d key val); assert_that ok.

Definition dbOverwrite key val : M V unit :=
  de ← find_main key; _ ← assert_that (is_some de);
  with_dict (fun d => d ← set_existing d key val; Some (d, tt)).

Definition genericSetKey key val (keepttl signal : bool) : M V unit :=
  old ← lookupKeyWrite key;
  _ ← (match old with None => dbAdd key val | Some _ => dbOverwrite key val end);
  _ ← (if keepttl then mret tt else _ ← removeExpire key; mret tt);
  if signal then signalModifiedKey key else mret tt.

Definition setKey key val : M V unit := genericSetKey key val false true.

(** ** Commands *)

Inductive reply := RepOk | RepNull | RepInt (n : Z) | RepVal (v : V) | RepError.

(** The condition of NX and XX, with its lookups. *)
Definition set_aborts (flags : Z) key : M V bool :=
  nx ← (if negb (Z.land flags OBJ_SET_NX =? 0) then o ← lookupKeyWrite key; mret (is_some o) else mret false);
  if nx : bool then mret true else
  if negb (Z.land flags OBJ_SET_XX =? 0) then o ← lookupKeyWrite key; mret (negb (is_some o)) else mret false.

(** From that condition on; [ms] is the time to live in milliseconds. *)
Definition set_command (flags : Z) key val (ms : option Z) (ok_reply abort_reply : reply) : M V reply :=
  abort ← set_aborts flags key;
  if abort : bool then mret abort_reply else
  _ ← genericSetKey key val (negb (Z.land flags OBJ_SET_KEEPTTL =? 0)) true;
  _ ← count_dirty;
  _ ← (match ms with Some ms => when ← lift (add64 (clock cfg) ms); setExpire key when | None => mret tt end);
  _ ← notifyKeyspaceEvent "set" key;
  _ ← (match ms with Some _ => notifyKeyspaceEvent "expire" key | None => mret tt end);
  mret ok_reply.

(** The expire argument is parsed already; [None] when there is none. *)
Definition setGenericCommand (flags : Z) key val (expire : option Z) (unit_ : time_unit) (ok_reply abort_reply : reply) : M V reply :=
  match expire with
  | Some ms =>
      if ms <=? 0 then mret RepError else
      ms ← lift (match unit_ with UNIT_SECONDS => mul64 ms 1000 | UNIT_MILLISECONDS => Some ms end);
      set_command flags key val (Some ms) ok_reply abort_reply
  | None => set_command flags key val None ok_reply abort_reply
  end.

(** GET without the check of the type. *)
Definition getGenericCommand key : M V reply :=
  o ← lookupKeyRead key; mret (match o with None => RepNull | Some v => RepVal v end).

Fixpoint del_loop (lazy : bool) (keys : list bytes) (numdel : Z) : M V Z :=
  match keys with
  | [] => mret numdel
  | key :: keys =>
      _ ← expireIfNeeded key;
      deleted ← (if lazy then dbAsyncDelete key else dbSyncDelete key);
      if deleted : bool then
        _ ← signalModifiedKey key; _ ← notifyKeyspaceEvent "del" key; _ ← count_dirty;
        del_loop lazy keys (numdel + 1)
      else del_loop lazy keys numdel
  end.

Definition delGenericCommand (lazy : bool) (keys : list bytes) : M V reply := n ← del_loop lazy keys 0; mret (RepInt n).

Fixpoint exists_loop (flags : Z) (keys : list bytes) (count : Z) : M V Z :=
  match keys with
  | [] => mret count
  | key :: keys => o ← lookupKeyReadWithFlags key flags; exists_loop flags keys (if is_some o then count + 1 else count)
  end.

Definition existsCommand (keys : list bytes) : M V reply := n ← exists_loop LOOKUP_NOTOUCH keys 0; mret (RepInt n).
Definition touchCommand (keys : list bytes) : M V reply := n ← exists_loop LOOKUP_NONE keys 0; mret (RepInt n).

(** Give the object [o] with the expire time [expire] the name [dst]; [old] tells
    whether that name is taken. *)
Definition rename_move (src dst : bytes) (o : V) (expire : Z) (old nx : bool) : M V reply :=
  _ ← (if old then _ ← dbDelete dst; mret tt else mret tt);
  _ ← dbAdd dst o;
  _ ← (if negb (expire =? -1) then setExpire dst expire else mret tt);
  _ ← dbDelete src;
  _ ← signalModifiedKey src; _ ← signalModifiedKey dst;
  _ ← notifyKeyspaceEvent "rename_from" src; _ ← notifyKeyspaceEvent "rename_to" dst;
  _ ← count_dirty;
  mret (if nx then RepInt 1 else RepOk).

Definition renameGenericCommand (src dst : bytes) (nx : bool) : M V reply :=
  let samekey := bool_decide (src = dst) in
  o ← lookupKeyWrite src;
  match o with
  | None => mret RepError
  | Some o =>
      if samekey then mret (if nx then RepInt 0 else RepOk) else
      expire ← getExpire src;
      old ← lookupKeyWrite dst;
      if is_some old && nx then mret (RepInt 0) else
      rename_move src dst o expire (is_some old) nx
  end.

Definition checkAlreadyExpired (when : Z) : bool := (when <=? clock cfg) && negb (loading cfg) && negb (masterhost cfg).

(** From the lookup of the key on. *)
Definition expire_key key (when : Z) : M V reply :=
  o ← lookupKeyWrite key;
  if negb (is_some o) then mret (RepInt 0) else
  if checkAlreadyExpired when then
    deleted ← (if lazy_expire cfg then dbAsyncDelete key else dbSyncDelete key);
    _ ← assert_that deleted;
    _ ← count_dirty; _ ← signalModifiedKey key; _ ← notifyKeyspaceEvent "del" key;
    mret (RepInt 1)
  else
    _ ← setExpire key when;
    _ ← signalModifiedKey key; _ ← notifyKeyspaceEvent "expire" key; _ ← count_dirty;
    mret (RepInt 1).

(** The time an EXPIRE command asks for. *)
Definition expire_time (n basetime : Z) (unit_ : time_unit) : option Z :=
  when ← (match unit_ with UNIT_SECONDS => mul64 n 1000 | UNIT_MILLISECONDS => Some n end);
  add64 when basetime.

(** The argument [n] is parsed already. *)
Definition expireGenericCommand key (n basetime : Z) (unit_ : time_unit) : M V reply :=
  when ← lift (expire_time n basetime unit_);
  expire_key key when.

Definition ttlGenericCommand key (output_ms : bool) : M V reply :=
  o ← lookupKeyReadWithFlags key LOOKUP_NOTOUCH;
  if negb (is_some o) then mret (RepInt (-2)) else
  expire ← getExpire key;
  ttl ← (if negb (expire =? -1) then t ← lift (add64 expire (- clock cfg)); mret (if t <? 0 then 0 else t) else mret (-1));
  if ttl =? -1 then mret (RepInt (-1)) else
  if output_ms then mret (RepInt ttl) else
  t ← lift (add64 ttl 500); mret (RepInt (t / 1000)).

Definition persistCommand key : M V reply :=
  o ← lookupKeyWrite key;
  if negb (is_some o) then mret (RepInt 0) else
  removed ← removeExpire key;
  if removed : bool then
    _ ← signalModifiedKey key; _ ← notifyKeyspaceEvent "persist" key; _ ← count_dirty; mret (RepInt 1)
  else mret (RepInt 0).

End Ops.
Arguments reply : clear implicits.
Arguments RepOk {V}. Arguments RepNull {V}. Arguments RepInt {V}. Arguments RepVal {V}. Arguments RepError {V}.

(** ** The keyspace a state stands for

    A map from keys to values with an optional expire time. *)

Section Spec.
Context {V : Type} `{DictType bytes}.
Implicit Types (m A : gmap bytes (V * option Z)) (key k : bytes) (v : V) (e : V * option Z) (s : state V).

Definition expire_ok e : Prop := forall w, e.2 = Some w -> 0 <= w <= LLONG_MAX.

Record db_repr s m : Prop := {
  dbr_dict : dict_repr (db_dict s) (fst <$> m);
  dbr_expires : dict_repr (db_expires s) (omap snd m);
  dbr_times : map_Forall (fun _ e => expire_ok e) m;
  dbr_fits : fits m
}.

(** [does op m a m']: on the keyspace [m] the operation returns [a] and leaves [m']. *)
Definition does {B} (op : M V B) m (b : B) m' : Prop := forall s, db_repr s m -> exists s', op s = Some (s', b) /\ db_repr s' m'.

Lemma does_ret {B} (b : B) m : does (mret b) m b m.
Proof. intros s Hs. by exists s. Qed.

Lemma does_bind {B C} (op : M V B) (f : B -> M V C) m b m1 c m2 :
  does op m b m1 -> does (f b) m1 c m2 -> does (x ← op; f x) m c m2.
Proof.
  intros H1 H2 s Hs. destruct (H1 s Hs) as (s1 & E1 & Hs1). destruct (H2 s1 Hs1) as (s2 & E2 & Hs2).
  exists s2. split; [|done]. unfold mbind, M_bind. by rewrite E1.
Qed.

Lemma does_assert m : does (assert_that true) m tt m.
Proof. intros s Hs. by exists s. Qed.

Lemma does_stats (f : stats -> stats) m : does (on_stats f) m tt m.
Proof. intros s [H1 H2 H3 H4]. eexists. split; [done|]. by split. Qed.

Lemma does_lift {B} (b : B) m : does (lift (Some b)) m b m.
Proof. intros s Hs. by exists s. Qed.

(** The keys of the expires are keys of the dictionary. *)
Lemma fits_expires m : fits m -> fits (omap snd m : gmap bytes Z).
Proof.
  unfold fits. intros Hf. assert (base.size (omap snd m : gmap bytes Z) <= base.size m)%nat; [|lia].
  rewrite <- !size_dom. apply subseteq_size. intros k. rewrite !elem_of_dom, lookup_omap. intros [w Hw].
  apply bind_Some in Hw as (e & He & _). by exists e.
Qed.

Lemma fits_values m : fits m -> fits (fst <$> m : gmap bytes V).
Proof. unfold fits. by rewrite map_size_fmap. Qed.

Lemma does_size m : does (gets (fun s => dictSize (db_expires s))) m (Z.of_nat (base.size (omap snd m : gmap bytes Z))) m.
Proof.
  intros s Hs. exists s. split; [|done]. unfold gets. do 2 f_equal. pose proof (fits_expires m (dbr_fits _ _ Hs)) as Hf.
  destruct Hs as [_ He _ _]. pose proof (repr_bound _ _ He Hf) as Hb. destruct (size_entries (db_expires s)) as [-> _]; [apply He|lia|].
  by apply repr_entries.
Qed.

Lemma does_find_main k m : does (find_main k) m (fst <$> m !! k) m.
Proof.
  intros s [Hd He Ht Hf]. unfold find_main, with_dict. destruct (repr_find _ _ k Hd (fits_values m Hf)) as (d & -> & Hd').
  cbn [mbind option_bind]. exists (mk_state d (db_expires s) (st_stats s)). split; [|by split]. rewrite lookup_fmap. by destruct (m !! k).
Qed.

Lemma does_find_expire k m : does (find_expire k) m (m !! k ≫= snd) m.
Proof.
  intros s [Hd He Ht Hf]. unfold find_expire, with_expires. destruct (repr_find _ _ k He (fits_expires m Hf)) as (d & -> & He').
  cbn [mbind option_bind]. exists (mk_state (db_dict s) d (st_stats s)). split; [|by split]. rewrite lookup_omap. by destruct (m !! k) as [[v [w|]]|].
Qed.

(** ** Expire times and deletion *)

Definition no_expire e : V * option Z := (e.1, None).

Lemma alter_none_values k m : fst <$> alter no_expire k m = (fst <$> m : gmap bytes V).
Proof.
  apply map_eq. intros i. rewrite !lookup_fmap. destruct (decide (i = k)) as [->|]; [rewrite lookup_alter_eq|by rewrite lookup_alter_ne].
  by destruct (m !! k).
Qed.

Lemma alter_none_expires k m : omap snd (alter no_expire k m) = delete k (omap snd m : gmap bytes Z).
Proof.
  apply map_eq. intros i. rewrite lookup_omap. destruct (decide (i = k)) as [->|Hne].
  - rewrite lookup_alter_eq, lookup_delete_eq. by destruct (m !! k).
  - rewrite lookup_alter_ne, lookup_delete_ne, lookup_omap by done. done.
Qed.

Lemma alter_none_times k m : map_Forall (fun _ e => expire_ok e) m -> map_Forall (fun _ e => expire_ok e) (alter no_expire k m).
Proof.
  intros Ht i e. destruct (decide (i = k)) as [->|Hne]; [|rewrite lookup_alter_ne by done; apply Ht].
  rewrite lookup_alter_eq. destruct (m !! k); [|done]. intros [= <-] w. done.
Qed.

Lemma alter_fits k m : fits m -> fits (alter no_expire k m).
Proof. unfold fits. by rewrite <- (map_size_fmap fst m), <- (alter_none_values k m), map_size_fmap. Qed.

Lemma does_drop_times k m : does (with_expires (fun d => dictDelete d k)) m (is_some (m !! k ≫= snd)) (alter no_expire k m).
Proof.
  intros s [Hd He Ht Hf]. unfold with_expires. destruct (repr_delete_dom _ _ k He (fits_expires m Hf)) as (d & -> & He').
  cbn [mbind option_bind]. exists (mk_state (db_dict s) d (st_stats s)). split.
  - do 2 f_equal. rewrite (bool_decide_ext _ (is_Some (m !! k ≫= snd))); [by destruct (m !! k ≫= snd)|]. by rewrite elem_of_dom, lookup_omap.
  - split; cbn; [by rewrite alter_none_values|by rewrite alter_none_expires|by apply alter_none_times|by apply alter_fits].
Qed.

(** Run the first operation of a sequence by a lemma of the database. *)
Ltac dstep := eapply does_bind; [solve [eauto with db]|cbn beta iota].
Create HintDb db.
#[local] Hint Resolve does_ret does_assert does_stats does_lift does_size does_find_main does_find_expire does_drop_times : db.
#[local] Hint Unfold emit count_expired count_hit count_miss count_dirty signalModifiedKey notifyKeyspaceEvent propagateExpire : db.

Definition expiry m k : option Z := m !! k ≫= snd.

Lemma is_some_fst k m : is_some (fst <$> m !! k) = is_some (m !! k).
Proof. by destruct (m !! k). Qed.

Lemma expiry_key m k w : expiry m k = Some w -> exists v, m !! k = Some (v, Some w).
Proof. unfold expiry. destruct (m !! k) as [[v e]|]; [|done]. cbn. intros ->. by exists v. Qed.

Lemma no_expires m k : base.size (omap snd m : gmap bytes Z) = O -> expiry m k = None.
Proof. intros E%map_size_empty_inv. unfold expiry. pose proof (lookup_omap snd m k) as L. by rewrite E, lookup_empty in L. Qed.

Lemma does_getExpire k m : does (getExpire k) m (default (-1) (expiry m k)) m.
Proof.
  unfold getExpire. dstep. destruct (Z.eqb_spec (Z.of_nat (base.size (omap snd m : gmap bytes Z))) 0) as [E|_].
  { rewrite no_expires by lia. apply does_ret. }
  dstep. fold (expiry m k). destruct (expiry m k) as [w|] eqn:Ew; [|apply does_ret]. cbn [default].
  destruct (expiry_key _ _ _ Ew) as [v Ev]. dstep. rewrite Ev. cbn. dstep. apply does_ret.
Qed.

Lemma does_removeExpire k m : is_Some (m !! k) -> does (removeExpire k) m (is_some (expiry m k)) (alter no_expire k m).
Proof. intros [e He]. unfold removeExpire. dstep. rewrite He. cbn. dstep. apply does_drop_times. Qed.

Lemma insert_fits k (e e' : V * option Z) m : m !! k = Some e -> fits m -> fits (<[k := e']> m).
Proof. intros He. unfold fits. rewrite map_size_insert, He. done. Qed.

Lemma insert_times k e m : expire_ok e -> map_Forall (fun _ e => expire_ok e) m -> map_Forall (fun _ e => expire_ok e) (<[k := e]> m).
Proof. intros He Hm. by apply map_Forall_insert_2. Qed.

Lemma insert_same_values k v o w m : m !! k = Some (v, o) -> fst <$> <[k := (v, w)]> m = (fst <$> m : gmap bytes V).
Proof. intros E. rewrite fmap_insert. apply insert_id. by rewrite lookup_fmap, E. Qed.

Lemma does_setExpire cfg k v o w m : m !! k = Some (v, o) -> 0 <= w <= LLONG_MAX -> does (setExpire cfg k w) m tt (<[k := (v, Some w)]> m).
Proof.
  intros Hk Hw. unfold setExpire. dstep. rewrite Hk. cbn [fmap option_fmap option_map is_some]. dstep.
  intros s [Hd He Ht Hf]. unfold with_expires. destruct (repr_addraw (dict_can_resize cfg) _ _ k w He (fits_expires m Hf)) as (d & r & E & Hr).
  assert (exists d', (match r with Slot _ => Some (d, tt) | Exists _ => d ← set_existing d k w; Some (d, tt) | NoRoom => None end) = Some (d', tt) /\
    dict_repr d' (<[k := w]> (omap snd m))) as (d' & E' & He').
  { destruct ((omap snd m : gmap bytes Z) !! k) as [w0|] eqn:E0.
    - destruct Hr as [-> Hr]. destruct (repr_set d _ k w0 w Hr E0) as (d' & -> & Hd'). by exists d'.
    - destruct Hr as [[i ->] Hr]. by exists d. }
  rewrite E. cbn [mbind option_bind]. cbn [mbind option_bind] in E'. rewrite E'. cbn [mbind option_bind]. eexists. split; [done|].
  split; cbn; [by rewrite (insert_same_values k v o)|by erewrite omap_insert_Some|apply insert_times; [|done]; by intros ? [= <-]|by eapply insert_fits].
Qed.

Lemma does_drop_expire k m : does (drop_expire k) m tt (alter no_expire k m).
Proof.
  unfold drop_expire. dstep. rewrite Z.gtb_ltb. destruct (Z.ltb_spec 0 (Z.of_nat (base.size (omap snd m : gmap bytes Z)))).
  - dstep. apply does_ret.
  - assert (alter no_expire k m = m) as ->; [|apply does_ret]. apply map_eq. intros i.
    destruct (decide (i = k)) as [->|]; [rewrite lookup_alter_eq|by rewrite lookup_alter_ne].
    assert (expiry m k = None) as E by (apply no_expires; lia). unfold expiry in E. destruct (m !! k) as [[v o]|]; [|done]. cbn in E. by subst o.
Qed.

(** Removing the value of a key that has no expire time any more. *)
Lemma delete_db k m s d : dict_repr d (delete k (fst <$> m)) -> db_repr s m -> expiry m k = None ->
  db_repr (mk_state d (db_expires s) (st_stats s)) (delete k m).
Proof.
  intros Hd' [Hd He Ht Hf] Hk. split; cbn; [by rewrite fmap_delete| |by apply map_Forall_delete|by apply fits_delete].
  rewrite omap_delete, delete_id; [done|]. by rewrite lookup_omap.
Qed.

Lemma delete_alter k m : delete k (alter no_expire k m) = delete k m.
Proof. apply map_eq. intros i. destruct (decide (i = k)) as [->|]; [by rewrite !lookup_delete_eq|by rewrite !lookup_delete_ne, lookup_alter_ne]. Qed.

Lemma altered k m : (is_some (alter no_expire k m !! k) = is_some (m !! k)) /\ expiry (alter no_expire k m) k = None.
Proof. unfold expiry. rewrite lookup_alter_eq. by destruct (m !! k). Qed.

Lemma does_dbSyncDelete k m : does (dbSyncDelete k) m (is_some (m !! k)) (delete k m).
Proof.
  unfold dbSyncDelete. eapply does_bind; [apply does_drop_expire|]. rewrite <- delete_alter. destruct (altered k m) as [<- Hn].
  intros s Hs. unfold with_dict. destruct (repr_delete_dom _ _ k (dbr_dict _ _ Hs) (fits_values _ (dbr_fits _ _ Hs))) as (d & -> & Hd').
  cbn [mbind option_bind]. exists (mk_state d (db_expires s) (st_stats s)). split; [|by apply delete_db].
  do 2 f_equal. rewrite (bool_decide_ext _ (is_Some (alter no_expire k m !! k))); [by destruct (alter no_expire k m !! k)|]. by rewrite elem_of_dom, lookup_fmap, fmap_is_Some.
Qed.

Lemma does_dbAsyncDelete k m : does (dbAsyncDelete k) m (is_some (m !! k)) (delete k m).
Proof.
  unfold dbAsyncDelete. eapply does_bind; [apply does_drop_expire|]. rewrite <- delete_alter. destruct (altered k m) as [<- Hn].
  eapply (does_bind _ _ _ ((fun v => (k, v)) <$> (fst <$> alter no_expire k m) !! k)).
  - intros s Hs. unfold with_dict. destruct (repr_unlink _ _ k (dbr_dict _ _ Hs) (fits_values _ (dbr_fits _ _ Hs))) as (d & -> & Hd').
    cbn [mbind option_bind]. exists (mk_state d (db_expires s) (st_stats s)). split; [done|]. by apply delete_db.
  - rewrite lookup_fmap. destruct (alter no_expire k m !! k); apply does_ret.
Qed.

Lemma does_delete_with (b : bool) k m : does (if b then dbAsyncDelete k else dbSyncDelete k) m (is_some (m !! k)) (delete k m).
Proof. destruct b; [apply does_dbAsyncDelete|apply does_dbSyncDelete]. Qed.

(** ** A master that is not loading a snapshot *)

Section Master.
Context (cfg : config).
Hypothesis Hmaster : masterhost cfg = false.
Hypothesis Hloading : loading cfg = false.
Let now : Z := now_of cfg.

(** An entry is alive until its expire time has passed. *)
Definition alive (t : Z) e : bool := match e.2 with Some w => t <=? w | None => true end.

(** The keys that a client may see at time [t]. *)
Definition live (t : Z) m : gmap bytes (V * option Z) := filter (fun ke => alive t ke.2 = true) m.

Definition expired m k : bool := match m !! k with Some e => negb (alive now e) | None => false end.
Definition expire1 m k : gmap bytes (V * option Z) := if expired m k then delete k m else m.

Lemma live_lookup t m k : live t m !! k = (e ← m !! k; if alive t e then Some e else None).
Proof.
  unfold live. rewrite map_lookup_filter. destruct (m !! k) as [e|]; [|done]. cbn. destruct (alive t e) eqn:E.
  - by rewrite option_guard_True.
  - by rewrite option_guard_False.
Qed.

Lemma expire1_lookup m k : expire1 m k !! k = live now m !! k.
Proof.
  rewrite live_lookup. unfold expire1, expired. destruct (m !! k) as [e|] eqn:E; cbn; [|done].
  destruct (alive now e); cbn; [done|apply lookup_delete_eq].
Qed.

Lemma live_expire1 m k : live now (expire1 m k) = live now m.
Proof.
  apply map_eq. intros i. rewrite !live_lookup. destruct (decide (i = k)) as [->|Hne].
  - rewrite expire1_lookup, live_lookup. destruct (m !! k) as [e|]; [|done]. cbn. destruct (alive now e) eqn:E; [|done]. cbn. by rewrite E.
  - unfold expire1. destruct (expired m k); [by rewrite lookup_delete_ne|done].
Qed.

Lemma does_keyIsExpired k m : does (keyIsExpired cfg k) m (expired m k) m.
Proof.
  unfold keyIsExpired. eapply does_bind; [apply does_getExpire|]. rewrite Hloading.
  intros s Hs. unfold expired, expiry. destruct (m !! k) as [[v [w|]]|] eqn:E; [|by exists s..].
  destruct (dbr_times _ _ Hs k (v, Some w) E w eq_refl) as [Hw _]. cbn [mbind option_bind snd default]. change (id w) with w.
  rewrite (proj2 (Z.ltb_ge w 0) Hw). exists s. split; [|done]. unfold mret, M_ret. do 2 f_equal. unfold alive. cbn [snd]. fold now. by rewrite Z.gtb_ltb, Z.leb_antisym, negb_involutive.
Qed.

Lemma does_expireIfNeeded k m : does (expireIfNeeded cfg k) m (expired m k) (expire1 m k).
Proof.
  unfold expireIfNeeded. eapply does_bind; [apply does_keyIsExpired|]. unfold expire1. destruct (expired m k) eqn:E; cbn [negb]; [|apply does_ret].
  rewrite Hmaster. do 3 (eapply does_bind; [apply does_stats|]). eapply does_bind; [apply does_delete_with|].
  unfold expired in E. destruct (m !! k) as [e|]; [|done]. cbn [is_some]. eapply does_bind; [apply does_stats|]. apply does_ret.
Qed.

Lemma does_lookupKeyRead k flags m : does (lookupKeyReadWithFlags cfg k flags) m (fst <$> live now m !! k) (expire1 m k).
Proof.
  unfold lookupKeyReadWithFlags. eapply does_bind; [apply does_expireIfNeeded|]. rewrite Hmaster. cbn [negb orb]. rewrite andb_true_r.
  assert (forall m', does (if Z.land flags LOOKUP_NONOTIFY =? 0 then _ ← count_miss; _ ← notifyKeyspaceEvent "keymiss" k; mret None else mret None) m' (None : option V) m') as Hmiss.
  { intros m'. destruct (_ =? 0); [|apply does_ret]. do 2 (eapply does_bind; [apply does_stats|]). apply does_ret. }
  rewrite <- expire1_lookup. destruct (expired m k) eqn:E.
  - assert (expire1 m k !! k = None) as -> by (unfold expire1; rewrite E; apply lookup_delete_eq). apply Hmiss.
  - eapply does_bind; [apply does_find_main|]. destruct (expire1 m k !! k); cbn; [|apply Hmiss].
    eapply does_bind; [apply does_stats|]. apply does_ret.
Qed.

Lemma does_lookupKeyWrite k m : does (lookupKeyWrite cfg k) m (fst <$> live now m !! k) (expire1 m k).
Proof.
  unfold lookupKeyWrite. eapply does_bind; [apply does_expireIfNeeded|]. rewrite <- expire1_lookup. apply does_find_main.
Qed.

Lemma does_dbAdd k v m : m !! k = None -> fits (<[k := (v, None)]> m) -> does (dbAdd cfg k v) m tt (<[k := (v, None)]> m).
Proof.
  intros Hk Hfits. unfold dbAdd. eapply (does_bind _ _ _ true); [|apply does_assert].
  intros s [Hd He Ht Hf]. unfold with_dict. destruct (repr_add (dict_can_resize cfg) _ _ k v Hd (fits_values m Hf)) as (d & -> & Hd'); [by rewrite lookup_fmap, Hk|].
  cbn [mbind option_bind]. eexists. split; [done|]. split; cbn; [by rewrite fmap_insert| |by apply insert_times|done].
  rewrite omap_insert_None by done. rewrite delete_id; [done|]. by rewrite lookup_omap, Hk.
Qed.

Lemma does_dbOverwrite k v old o m : m !! k = Some (old, o) -> does (dbOverwrite k v) m tt (<[k := (v, o)]> m).
Proof.
  intros Hk. unfold dbOverwrite. eapply does_bind; [apply does_find_main|]. rewrite Hk. cbn [fmap option_fmap option_map is_some]. eapply does_bind; [apply does_assert|].
  intros s [Hd He Ht Hf]. unfold with_dict. destruct (repr_set _ _ k old v Hd) as (d & -> & Hd'); [by rewrite lookup_fmap, Hk|]. cbn [mbind option_bind].
  eexists. split; [done|]. split; cbn; [by rewrite fmap_insert| |apply insert_times; [exact (Ht k _ Hk)|done]|by eapply insert_fits].
  assert (omap snd (<[k := (v, o)]> m) = (omap snd m : gmap bytes Z)) as ->; [|done]. apply map_eq. intros i. rewrite !lookup_omap.
  destruct (decide (i = k)) as [->|]; [by rewrite lookup_insert_eq, Hk|by rewrite lookup_insert_ne].
Qed.

(** The entry a write leaves: the expire time of a live key is kept on demand. *)
Definition written m k v (keepttl : bool) : V * option Z := (v, if keepttl then expiry (live now m) k else None).

Lemma fits_insert_expire1 m k e : fits (<[k := e]> m) -> fits (<[k := e]> (expire1 m k)).
Proof.
  unfold fits, expire1. destruct (expired m k); [|done]. by rewrite insert_delete_eq.
Qed.

Lemma fits_same k e e' m : fits (<[k := e]> m) -> fits (<[k := e']> m).
Proof. unfold fits. by rewrite !map_size_insert. Qed.

Lemma does_genericSetKey k v keepttl signal m : fits (<[k := (v, None)]> m) ->
  does (genericSetKey cfg k v keepttl signal) m tt (<[k := written m k v keepttl]> (expire1 m k)).
Proof.
  intros Hfits. unfold genericSetKey, written, expiry. eapply does_bind; [apply does_lookupKeyWrite|]. rewrite <- expire1_lookup.
  apply fits_insert_expire1 in Hfits. set (m1 := expire1 m k) in *. clearbody m1.
  eapply (does_bind _ _ _ tt (<[k := (v, m1 !! k ≫= snd)]> m1)).
  { destruct (m1 !! k) as [[old o]|] eqn:E; cbn; [by eapply does_dbOverwrite|by apply does_dbAdd]. }
  eapply (does_bind _ _ _ tt (<[k := (v, if keepttl then m1 !! k ≫= snd else None)]> m1)).
  { destruct keepttl; [apply does_ret|]. eapply does_bind; [apply does_removeExpire; by rewrite lookup_insert_eq|].
    assert (alter no_expire k (<[k := (v, m1 !! k ≫= snd)]> m1) = <[k := (v, None)]> m1) as ->; [|apply does_ret].
    by rewrite alter_insert_eq. }
  destruct signal; [apply does_stats|apply does_ret].
Qed.

End Master.

End Spec.
