(* ===== verification/DbProps.v ===== *)
(** * Lazy expiration is invisible

    The commands of Db against a keyspace from which keys vanish when their
    expire time has passed. *)

From stdpp Require Import base list numbers option strings gmap.
From Stdlib Require Import ZArith Lia.
From S2P Require Import Prelude Util Dict DictMap Db.

(** ** Abstract commands

    They act on a keyspace [A] that holds live keys only; [t] is the time of
    mstime(). *)

Section Abstract.
Context {V : Type}.
Implicit Types (A : gmap bytes (V * option Z)) (k : bytes) (v : V).

Definition abs_set (t flags : Z) k v (ms : option Z) (ok abort : reply V) A : gmap bytes (V * option Z) * reply V :=
  let present := is_some (A !! k) in
  if (negb (Z.land flags OBJ_SET_NX =? 0) && present) || (negb (Z.land flags OBJ_SET_XX =? 0) && negb present) then (A, abort)
  else
    let e := match ms with
             | Some ms => Some (t + ms)
             | None => if negb (Z.land flags OBJ_SET_KEEPTTL =? 0) then A !! k ≫= snd else None
             end in
    (<[k := (v, e)]> A, ok).

Definition abs_get k A : reply V := match A !! k with Some e => RepVal e.1 | None => RepNull end.

Fixpoint abs_del (keys : list bytes) (n : Z) A : gmap bytes (V * option Z) * Z :=
  match keys with
  | [] => (A, n)
  | k :: keys => abs_del keys (if is_some (A !! k) then n + 1 else n) (delete k A)
  end.

Definition abs_count (keys : list bytes) A : Z := zlen (filter (fun k => is_Some (A !! k)) keys).

Definition abs_rename (src dst : bytes) (nx : bool) A : gmap bytes (V * option Z) * reply V :=
  match A !! src with
  | None => (A, RepError)
  | Some e =>
      if bool_decide (src = dst) then (A, if nx then RepInt 0 else RepOk)
      else if nx && is_some (A !! dst) then (A, RepInt 0)
      else (delete src (<[dst := e]> A), if nx then RepInt 1 else RepOk)
  end.

Definition abs_expire (t when : Z) k A : gmap bytes (V * option Z) * reply V :=
  match A !! k with
  | None => (A, RepInt 0)
  | Some e => if when <=? t then (delete k A, RepInt 1) else (<[k := (e.1, Some when)]> A, RepInt 1)
  end.

Definition abs_ttl (t : Z) k (ms : bool) A : reply V :=
  match A !! k with
  | None => RepInt (-2)
  | Some (_, None) => RepInt (-1)
  | Some (_, Some w) => let ttl := Z.max 0 (w - t) in RepInt (if ms then ttl else (ttl + 500) / 1000)
  end.

Definition abs_persist k A : gmap bytes (V * option Z) * reply V :=
  match A !! k with
  | Some (v, Some _) => (<[k := (v, None)]> A, RepInt 1)
  | _ => (A, RepInt 0)
  end.

End Abstract.

(** ** Simulation *)


Section Sim.
Context {V : Type} `{DictType bytes} (cfg : config).
Hypothesis Hmaster : masterhost cfg = false.
Hypothesis Hloading : loading cfg = false.
Hypothesis Htime : 0 <= now_of cfg <= clock cfg.
Hypothesis Hclock : 500 <= clock cfg <= LLONG_MAX.
Let now : Z := now_of cfg.
Implicit Types (m A : gmap bytes (V * option Z)) (k : bytes) (v : V).

Definition roomy m : Prop := Z.of_nat (base.size m) + 2 < DICT_BOUND.

(** [sim op A b A']: wherever the live keys are [A], the operation returns [b] and
    leaves a keyspace with the live keys [A'] and at most one key more. *)
Definition sim {B} (op : M V B) A (b : B) A' : Prop :=
  forall m, live now m = A -> roomy m -> exists m', does op m b m' /\ live now m' = A' /\
    Z.of_nat (base.size m') <= Z.of_nat (base.size m) + 1.

Lemma live_insert t m k e : alive t e = true -> live t (<[k := e]> m) = <[k := e]> (live t m).
Proof.
  intros He. apply map_eq. intros i. rewrite live_lookup. destruct (decide (i = k)) as [->|].
  - rewrite !lookup_insert_eq. cbn. by rewrite He.
  - rewrite !lookup_insert_ne, live_lookup by done. done.
Qed.

Lemma live_delete t m k : live t (delete k m) = delete k (live t m).
Proof.
  apply map_eq. intros i. rewrite live_lookup. destruct (decide (i = k)) as [->|].
  - by rewrite !lookup_delete_eq.
  - rewrite !lookup_delete_ne, live_lookup by done. done.
Qed.

Lemma live_alive t m k e : live t m !! k = Some e -> alive t e = true /\ m !! k = Some e.
Proof. rewrite live_lookup. destruct (m !! k) as [e'|]; [|done]. cbn. destruct (alive t e') eqn:E; [|done]. by intros [= <-]. Qed.

Lemma roomy_fits m k e : roomy m -> fits (<[k := e]> m) /\ fits m.
Proof. unfold roomy, fits. rewrite map_size_insert. destruct (m !! k); unfold id; lia. Qed.

Lemma size_delete_le m k : Z.of_nat (base.size (delete k m)) <= Z.of_nat (base.size m).
Proof. pose proof (map_subseteq_size _ _ (delete_subseteq m k)). lia. Qed.

Lemma size_expire1 m k : Z.of_nat (base.size (expire1 cfg m k)) <= Z.of_nat (base.size m).
Proof. unfold expire1. destruct (expired cfg m k); [apply size_delete_le|lia]. Qed.

Lemma size_insert_1 m k e : Z.of_nat (base.size (<[k := e]> m)) <= Z.of_nat (base.size m) + 1.
Proof. rewrite map_size_insert. destruct (m !! k); unfold id; lia. Qed.

(** Every lookup returns the live value; afterwards the key is in the dictionary
    exactly if it is alive. *)
Lemma lookup_write k m : does (lookupKeyWrite cfg k) m (fst <$> live now m !! k) (expire1 cfg m k).
Proof. by apply does_lookupKeyWrite. Qed.

Lemma after_lookup k m : expire1 cfg m k !! k = live now m !! k /\ live now (expire1 cfg m k) = live now m.
Proof. split; [apply expire1_lookup|apply live_expire1]. Qed.

Lemma sim_get k A : sim (getGenericCommand cfg k) A (abs_get k A) A.
Proof.
  intros m <- Hroom. exists (expire1 cfg m k). split; [|split; [apply live_expire1|pose proof (size_expire1 m k); lia]].
  unfold getGenericCommand, lookupKeyRead. eapply does_bind; [by apply does_lookupKeyRead|]. fold now. unfold abs_get. destruct (live now m !! k); apply does_ret.
Qed.

Lemma expire1_idem m k : expire1 cfg (expire1 cfg m k) k = expire1 cfg m k.
Proof.
  unfold expire1 at 1. unfold expired. rewrite expire1_lookup. destruct (live _ m !! k) as [e|] eqn:E; [|done].
  apply live_alive in E as [-> _]. done.
Qed.

(** The checks of NX and XX look the key up. *)
Lemma set_checks flags k m :
  exists m1, (m1 = m \/ m1 = expire1 cfg m k) /\
    does (set_aborts cfg flags k) m
      ((negb (Z.land flags OBJ_SET_NX =? 0) && is_some (live now m !! k)) || (negb (Z.land flags OBJ_SET_XX =? 0) && negb (is_some (live now m !! k)))) m1.
Proof.
  assert (forall m', live now m' = live now m -> does (o ← lookupKeyWrite cfg k; mret (is_some o)) m' (is_some (live now m !! k)) (expire1 cfg m' k)) as Hl.
  { intros m' Em. eapply does_bind; [apply lookup_write|]. rewrite Em. destruct (live now m !! k); apply does_ret. }
  assert (forall m', live now m' = live now m -> does (o ← lookupKeyWrite cfg k; mret (negb (is_some o))) m' (negb (is_some (live now m !! k))) (expire1 cfg m' k)) as Hl'.
  { intros m' Em. eapply does_bind; [apply lookup_write|]. rewrite Em. destruct (live now m !! k); apply does_ret. }
  unfold set_aborts. destruct (negb (Z.land flags OBJ_SET_NX =? 0)); cbn [andb orb].
  - exists (expire1 cfg m k). split; [by right|]. eapply does_bind; [by apply Hl|]. destruct (is_some (live now m !! k)) eqn:Es; cbn [orb]; [apply does_ret|].
    destruct (negb (Z.land flags OBJ_SET_XX =? 0)); cbn [andb]; [|apply does_ret].
    pose proof (Hl' (expire1 cfg m k) (live_expire1 cfg m k)) as Hx. by rewrite expire1_idem in Hx.
  - destruct (negb (Z.land flags OBJ_SET_XX =? 0)); cbn [andb].
    + exists (expire1 cfg m k). split; [by right|]. eapply does_bind; [apply does_ret|]. by apply Hl'.
    + exists m. split; [by left|]. eapply does_bind; apply does_ret.
Qed.

(** Overwriting the entry of a key: what is left of the old one does not matter. *)
Lemma live_write m m1 k e : m1 = m \/ m1 = expire1 cfg m k -> alive now e = true -> live now (<[k := e]> m1) = <[k := e]> (live now m).
Proof. intros Hm He. rewrite live_insert by done. f_equal. destruct Hm as [->| ->]; [done|apply live_expire1]. Qed.

Lemma checked_live m m1 k : m1 = m \/ m1 = expire1 cfg m k -> live now m1 = live now m /\ Z.of_nat (base.size m1) <= Z.of_nat (base.size m).
Proof. intros [->| ->]; [split; [done|lia]|split; [apply live_expire1|apply size_expire1]]. Qed.

Lemma sim_set_command flags k v ms ok abort A : (forall d, ms = Some d -> 0 < d /\ clock cfg + d <= LLONG_MAX) ->
  sim (set_command cfg flags k v ms ok abort) A (abs_set (clock cfg) flags k v ms ok abort A).2 (abs_set (clock cfg) flags k v ms ok abort A).1.
Proof.
  intros Hms m <- Hroom. destruct (set_checks flags k m) as (m1 & Hm1 & Hchk). destruct (checked_live m m1 k Hm1) as [Hlive Hsz].
  unfold set_command, abs_set. destruct (_ || _); cbn [fst snd].
  { exists m1. split; [eapply does_bind; [exact Hchk|apply does_ret]|]. split; [done|lia]. }
  set (keep := negb (Z.land flags OBJ_SET_KEEPTTL =? 0)). assert (roomy m1) as Hroom1 by (unfold roomy in *; lia).
  destruct (roomy_fits m1 k (v, None) Hroom1) as [Hf1 _]. pose proof (does_genericSetKey cfg Hmaster Hloading k v keep true m1 Hf1) as Hgen.
  set (m2 := expire1 cfg m1 k) in *.
  assert (written cfg m1 k v keep = (v, if keep then live now m !! k ≫= snd else None)) as Ew by (unfold written, expiry; fold now; by rewrite Hlive).
  set (e := match ms with Some ms => Some (clock cfg + ms) | None => if keep then live now m !! k ≫= snd else None end).
  exists (<[k := (v, e)]> m2). split; [|split].
  - eapply does_bind; [exact Hchk|]. eapply does_bind; [exact Hgen|]. eapply does_bind; [apply does_stats|].
    rewrite Ew. eapply (does_bind _ _ _ tt (<[k := (v, e)]> m2)).
    + subst e. destruct ms as [d|]; [|apply does_ret]. destruct (Hms d eq_refl) as [Hd Hmax]. rewrite add64_ok by (unfold LLONG_MIN; lia).
      eapply does_bind; [apply does_lift|]. rewrite <- (insert_insert_eq m2 k (v, Some (clock cfg + d)) (v, if keep then live now m !! k ≫= snd else None)).
      eapply does_setExpire; [apply lookup_insert_eq|lia].
    + eapply does_bind; [apply does_stats|]. eapply does_bind; [|apply does_ret]. destruct ms; [apply does_stats|apply does_ret].
  - subst m2. rewrite (live_write m1 (expire1 cfg m1 k)); [by rewrite Hlive|by right|]. unfold alive, e. cbn [snd]. destruct ms as [d|].
    + destruct (Hms d eq_refl). apply Z.leb_le. unfold now. lia.
    + destruct keep; [|done]. destruct (live now m !! k) as [[v' [w|]]|] eqn:El; try done. apply live_alive in El as [Ha _]. exact Ha.
  - pose proof (size_insert_1 m2 k (v, e)). pose proof (size_expire1 m1 k). unfold m2 in *. lia.
Qed.

Lemma sim_del lazy keys : forall n A, sim (del_loop cfg lazy keys n) A (abs_del keys n A).2 (abs_del keys n A).1.
Proof.
  induction keys as [|k keys IH]; intros n A m Hm Hroom; cbn [del_loop abs_del]; [exists m; split; [apply does_ret|split; [done|lia]]|].
  pose proof (size_expire1 m k). pose proof (size_delete_le (expire1 cfg m k) k).
  destruct (IH (if is_some (A !! k) then n + 1 else n) (delete k A) (delete k (expire1 cfg m k))) as (m' & Hd & Hl & Hs).
  { by rewrite live_delete, (proj2 (after_lookup k m)), Hm. } { unfold roomy in *. lia. }
  exists m'. split; [|split; [done|lia]]. eapply does_bind; [by apply does_expireIfNeeded|]. eapply does_bind; [apply does_delete_with|].
  rewrite (proj1 (after_lookup k m)), Hm. destruct (is_some (A !! k)); [|exact Hd].
  do 3 (eapply does_bind; [apply does_stats|]). exact Hd.
Qed.

Lemma sim_exists flags keys : forall n A, sim (exists_loop cfg flags keys n) A (n + abs_count keys A) A.
Proof.
  unfold abs_count. induction keys as [|k keys IH]; intros n A m Hm Hroom; cbn [exists_loop].
  { exists m. rewrite Z.add_0_r. split; [apply does_ret|split; [done|lia]]. }
  pose proof (size_expire1 m k).
  destruct (IH (if is_some (A !! k) then n + 1 else n) A (expire1 cfg m k)) as (m' & Hd & Hl & Hs); [by rewrite (proj2 (after_lookup k m))|unfold roomy in *; lia|].
  exists m'. split; [|split; [done|lia]]. eapply does_bind; [by apply does_lookupKeyRead|]. fold now. rewrite Hm.
  assert (is_some (fst <$> A !! k) = is_some (A !! k)) as -> by (by destruct (A !! k)).
  rewrite filter_cons. destruct (A !! k) as [e|] eqn:Ek; cbn [is_some] in *.
  - rewrite decide_True by done. rewrite zlen_cons. by replace (n + (1 + zlen (filter (fun k => is_Some (A !! k)) keys))) with (n + 1 + zlen (filter (fun k => is_Some (A !! k)) keys)) by lia.
  - rewrite decide_False by (by intros []). exact Hd.
Qed.

Lemma sim_expire k when A : when <= LLONG_MAX ->
  sim (expire_key cfg k when) A (abs_expire (clock cfg) when k A).2 (abs_expire (clock cfg) when k A).1.
Proof.
  intros Hmax m Hm Hroom. destruct (after_lookup k m) as [Hk Hlive]. pose proof (size_expire1 m k). rewrite Hm in Hk, Hlive.
  unfold expire_key, abs_expire. destruct (A !! k) as [[v o]|] eqn:Ek; cbn [fst snd].
  2:{ exists (expire1 cfg m k). split; [|split; [done|lia]]. eapply does_bind; [apply lookup_write|]. rewrite Hm, Ek. apply does_ret. }
  assert (checkAlreadyExpired cfg when = (when <=? clock cfg)) as Ec by (unfold checkAlreadyExpired; rewrite Hloading, Hmaster; by rewrite !andb_true_r).
  rewrite Ec. destruct (Z.leb_spec when (clock cfg)) as [Hle|Hgt]; cbn [fst snd].
  - exists (delete k (expire1 cfg m k)). pose proof (size_delete_le (expire1 cfg m k) k). split; [|split; [by rewrite live_delete, Hlive|lia]].
    eapply does_bind; [apply lookup_write|]. rewrite Hm, Ek. cbn [fmap option_fmap option_map is_some negb].
    eapply does_bind; [apply does_delete_with|]. rewrite Hk. cbn [is_some]. eapply does_bind; [apply does_assert|].
    do 3 (eapply does_bind; [apply does_stats|]). apply does_ret.
  - exists (<[k := (v, Some when)]> (expire1 cfg m k)). pose proof (size_insert_1 (expire1 cfg m k) k (v, Some when)). split; [|split; [|lia]].
    + eapply does_bind; [apply lookup_write|]. rewrite Hm, Ek. cbn [fmap option_fmap option_map is_some negb].
      eapply does_bind; [eapply does_setExpire; [exact Hk|lia]|]. do 3 (eapply does_bind; [apply does_stats|]). apply does_ret.
    + rewrite live_insert; [by rewrite Hlive|]. unfold alive. cbn. apply Z.leb_le. unfold now. lia.
Qed.

Lemma read_write k flags m : does (lookupKeyReadWithFlags cfg k flags) m (fst <$> live now m !! k) (expire1 cfg m k).
Proof. by apply does_lookupKeyRead. Qed.

(** The expire times of a represented keyspace. *)
Lemma does_times {B} (op : M V B) m b m' : (map_Forall (fun _ e => expire_ok e) m -> does op m b m') -> does op m b m'.
Proof. intros Hd s Hs. apply (Hd (dbr_times _ _ Hs) s Hs). Qed.

Lemma sim_ttl k ms A : sim (ttlGenericCommand cfg k ms) A (abs_ttl (clock cfg) k ms A) A.
Proof.
  intros m Hm Hroom. exists (expire1 cfg m k). destruct (after_lookup k m) as [Hk Hlive]. pose proof (size_expire1 m k). rewrite Hm in Hk, Hlive.
  split; [|split; [done|lia]]. unfold ttlGenericCommand. eapply does_bind; [apply read_write|]. rewrite Hm. unfold abs_ttl.
  destruct (A !! k) as [[v o]|] eqn:Ek; cbn [fmap option_fmap option_map is_some negb]; [|apply does_ret].
  eapply does_bind; [apply does_getExpire|]. unfold expiry. rewrite Hk. cbn [mbind option_bind snd].
  destruct o as [w|]; cbn [default]; [|cbn; eapply does_bind; apply does_ret]. change (id w) with w.
  apply does_times. intros Ht. destruct (Ht k (v, Some w) Hk w eq_refl) as [Hw Hwm].
  rewrite (proj2 (Z.eqb_neq w (-1))) by lia. cbn [negb]. unfold LLONG_MAX in *.
  eapply (does_bind _ _ _ (Z.max 0 (w - clock cfg))).
  { rewrite add64_ok by (unfold LLONG_MIN, LLONG_MAX; lia). eapply does_bind; [apply does_lift|].
    assert ((if w + - clock cfg <? 0 then 0 else w + - clock cfg) = Z.max 0 (w - clock cfg)) as -> by (zcase; lia). apply does_ret. }
  rewrite (proj2 (Z.eqb_neq (Z.max 0 (w - clock cfg)) (-1))) by lia. destruct ms; [apply does_ret|].
  rewrite add64_ok by (unfold LLONG_MIN, LLONG_MAX; lia). eapply does_bind; [apply does_lift|]. apply does_ret.
Qed.

Lemma sim_persist k A : sim (persistCommand cfg k) A (abs_persist k A).2 (abs_persist k A).1.
Proof.
  intros m Hm Hroom. destruct (after_lookup k m) as [Hk Hlive]. pose proof (size_expire1 m k). rewrite Hm in Hk, Hlive.
  unfold persistCommand, abs_persist. destruct (A !! k) as [[v o]|] eqn:Ek.
  2:{ exists (expire1 cfg m k). split; [|split; [done|cbn; lia]]. eapply does_bind; [apply lookup_write|]. rewrite Hm, Ek. apply does_ret. }
  assert (alter no_expire k (expire1 cfg m k) = <[k := (v, None)]> (expire1 cfg m k)) as Ea.
  { apply map_eq. intros i. destruct (decide (i = k)) as [->|]; [by rewrite lookup_alter_eq, lookup_insert_eq, Hk|by rewrite lookup_alter_ne, lookup_insert_ne]. }
  pose proof (size_insert_1 (expire1 cfg m k) k (v, None)). exists (<[k := (v, None)]> (expire1 cfg m k)). split; [|split].
  - eapply does_bind; [apply lookup_write|]. rewrite Hm, Ek. cbn [fmap option_fmap option_map is_some negb].
    eapply does_bind; [apply does_removeExpire; by rewrite Hk|]. unfold expiry. rewrite Hk, Ea. cbn [mbind option_bind snd].
    destruct o as [w|]; cbn; [|apply does_ret]. do 3 (eapply does_bind; [apply does_stats|]). apply does_ret.
  - rewrite live_insert, Hlive by done. destruct o as [w|]; [done|]. by apply insert_id.
  - lia.
Qed.

Lemma does_dbDelete k m : does (dbDelete cfg k) m (is_some (m !! k)) (delete k m).
Proof. unfold dbDelete. destruct (lazy_server_del cfg); [apply does_dbAsyncDelete|apply does_dbSyncDelete]. Qed.

(** Moving the entry of [src] to [dst]. *)
Lemma does_rename_move src dst v o nx m : src <> dst -> m !! src = Some (v, o) -> roomy m ->
  does (rename_move cfg src dst v (default (-1) o) (is_some (m !! dst)) nx) m (if nx then RepInt 1 else RepOk) (delete src (<[dst := (v, o)]> m)).
Proof.
  intros Hne Hsrc Hroom. unfold rename_move. set (m1 := delete dst m). pose proof (size_delete_le m dst).
  apply does_times. intros Ht. pose proof (Ht src (v, o) Hsrc) as Hok.
  eapply (does_bind _ _ _ tt m1).
  { unfold m1. destruct (m !! dst) eqn:Ed; cbn [is_some]; [eapply does_bind; [apply does_dbDelete|apply does_ret]|].
    rewrite delete_id by done. apply does_ret. }
  eapply (does_bind _ _ _ tt (<[dst := (v, None)]> m1)); [apply does_dbAdd; [apply lookup_delete_eq|]|].
  { apply (roomy_fits m1). unfold roomy, m1 in *. lia. }
  eapply (does_bind _ _ _ tt (<[dst := (v, o)]> m)).
  { unfold m1. rewrite insert_delete_eq. destruct o as [w|]; cbn [default]; [|apply does_ret]. change (id w) with w.
    destruct (Hok w eq_refl). rewrite (proj2 (Z.eqb_neq w (-1))) by lia. cbn [negb].
    rewrite <- (insert_insert_eq m dst (v, Some w) (v, None)). eapply does_setExpire; [apply lookup_insert_eq|lia]. }
  eapply does_bind; [apply does_dbDelete|]. do 5 (eapply does_bind; [apply does_stats|]). apply does_ret.
Qed.

Lemma sim_rename src dst nx A : sim (renameGenericCommand cfg src dst nx) A (abs_rename src dst nx A).2 (abs_rename src dst nx A).1.
Proof.
  intros m Hm Hroom. destruct (after_lookup src m) as [Hk Hlive]. pose proof (size_expire1 m src) as Hs1. rewrite Hm in Hk, Hlive.
  unfold renameGenericCommand, abs_rename. set (m1 := expire1 cfg m src) in *.
  destruct (A !! src) as [[v o]|] eqn:Ek; cbn [fst snd].
  2:{ exists m1. split; [|split; [done|lia]]. eapply does_bind; [apply lookup_write|]. rewrite Hm, Ek. apply does_ret. }
  case_bool_decide as Hsame; cbn [fst snd].
  { exists m1. split; [|split; [done|lia]]. eapply does_bind; [apply lookup_write|]. rewrite Hm, Ek. apply does_ret. }
  destruct (after_lookup dst m1) as [Hd Hlive2]. pose proof (size_expire1 m1 dst) as Hs2. rewrite Hlive in Hd, Hlive2. set (m2 := expire1 cfg m1 dst) in *.
  assert (m2 !! src = Some (v, o)) as Hk2.
  { unfold m2, expire1. destruct (expired cfg m1 dst); [by rewrite lookup_delete_ne|done]. }
  assert (forall b m', does (if is_some (A !! dst) && nx then mret (RepInt 0) else rename_move cfg src dst v (default (-1) o) (is_some (A !! dst)) nx) m2 b m' ->
    does (o ← lookupKeyWrite cfg src;
      match o with
      | None => mret RepError
      | Some o => expire ← getExpire src; old ← lookupKeyWrite cfg dst;
          if is_some old && nx then mret (RepInt 0) else rename_move cfg src dst o expire (is_some old) nx
      end) m b m') as Hbody.
  { intros b m' Hb. eapply does_bind; [apply lookup_write|]. rewrite Hm, Ek. cbn [fmap option_fmap option_map fst].
    eapply does_bind; [apply does_getExpire|]. unfold expiry. fold m1. rewrite Hk. cbn [mbind option_bind snd].
    eapply does_bind; [apply lookup_write|]. rewrite Hlive. fold m2. by destruct (A !! dst). }
  rewrite (andb_comm nx). destruct (is_some (A !! dst) && nx) eqn:Enx; cbn [fst snd].
  { exists m2. split; [apply Hbody, does_ret|]. split; [done|lia]. }
  exists (delete src (<[dst := (v, o)]> m2)). split; [|split].
  - apply Hbody. rewrite <- Hd. apply does_rename_move; [done|done|unfold roomy in *; lia].
  - rewrite live_delete, live_insert, Hlive2; [done|]. rewrite <- Hm in Ek. by apply live_alive in Ek as [? _].
  - pose proof (size_delete_le (<[dst := (v, o)]> m2) src). pose proof (size_insert_1 m2 dst (v, o)). lia.
Qed.

End Sim.

(** ** Sequences of commands *)

Inductive command (V : Type) :=
  | CSet (flags : Z) (k : bytes) (v : V) (expire : option (Z * time_unit))
  | CGet (k : bytes)
  | CDel (lazy : bool) (keys : list bytes)
  | CExists (keys : list bytes)
  | CRename (src dst : bytes) (nx : bool)
  | CExpire (k : bytes) (n : Z) (relative : bool) (unit_ : time_unit)
  | CTtl (k : bytes) (ms : bool)
  | CPersist (k : bytes).
Arguments CSet {V}. Arguments CGet {V}. Arguments CDel {V}. Arguments CExists {V}. Arguments CRename {V}.
Arguments CExpire {V}. Arguments CTtl {V}. Arguments CPersist {V}.

Section Run.
Context {V : Type} `{DictType bytes}.
Implicit Types (m A : gmap bytes (V * option Z)).

Definition run_command (cfg : config) (c : command V) : M V (reply V) :=
  match c with
  | CSet flags k v None => setGenericCommand cfg flags k v None UNIT_SECONDS RepOk RepNull
  | CSet flags k v (Some (n, u)) => setGenericCommand cfg flags k v (Some n) u RepOk RepNull
  | CGet k => getGenericCommand cfg k
  | CDel lazy keys => delGenericCommand cfg lazy keys
  | CExists keys => existsCommand cfg keys
  | CRename src dst nx => renameGenericCommand cfg src dst nx
  | CExpire k n relative u => expireGenericCommand cfg k n (if relative then clock cfg else 0) u
  | CTtl k ms => ttlGenericCommand cfg k ms
  | CPersist k => persistCommand cfg k
  end.

Definition in_ms (n : Z) (u : time_unit) : Z := match u with UNIT_SECONDS => n * 1000 | UNIT_MILLISECONDS => n end.

Definition abs_command (t : Z) (c : command V) A : gmap bytes (V * option Z) * reply V :=
  match c with
  | CSet flags k v None => abs_set t flags k v None RepOk RepNull A
  | CSet flags k v (Some (n, u)) => if n <=? 0 then (A, RepError) else abs_set t flags k v (Some (in_ms n u)) RepOk RepNull A
  | CGet k => (A, abs_get k A)
  | CDel _ keys => let '(A, n) := abs_del keys 0 A in (A, RepInt n)
  | CExists keys => (A, RepInt (abs_count keys A))
  | CRename src dst nx => abs_rename src dst nx A
  | CExpire k n relative u => abs_expire t (in_ms n u + if relative then t else 0) k A
  | CTtl k ms => (A, abs_ttl t k ms A)
  | CPersist k => abs_persist k A
  end.

(** The times a command computes with fit 64 bits. *)
Definition command_ok (t : Z) (c : command V) : Prop :=
  match c with
  | CSet _ _ _ (Some (n, u)) => n <= 0 \/ t + in_ms n u <= LLONG_MAX
  | CExpire _ n relative u => LLONG_MIN <= in_ms n u <= LLONG_MAX /\ in_ms n u + (if relative then t else 0) <= LLONG_MAX
  | _ => True
  end.

Lemma sim_command cfg c A : masterhost cfg = false -> loading cfg = false -> 0 <= now_of cfg <= clock cfg -> 500 <= clock cfg <= LLONG_MAX ->
  command_ok (clock cfg) c -> sim cfg (run_command cfg c) A (abs_command (clock cfg) c A).2 (abs_command (clock cfg) c A).1.
Proof.
  intros Hm Hl Ht Hc Hok. unfold LLONG_MIN, LLONG_MAX in *.
  destruct c as [flags k v [[n u]|]|k|lazy keys|keys|src dst nx|k n rel u|k ms|k]; cbn [run_command abs_command command_ok fst snd] in *.
  - unfold setGenericCommand. destruct (Z.leb_spec n 0) as [Hn|Hn].
    { intros m <- Hr. exists m. split; [apply does_ret|]. split; [done|cbn; lia]. }
    destruct Hok as [|Hok]; [lia|]. assert (match u with UNIT_SECONDS => mul64 n 1000 | UNIT_MILLISECONDS => Some n end = Some (in_ms n u)) as Eu.
    { destruct u; [|done]. cbn [in_ms] in *. apply mul64_ok. unfold LLONG_MIN, LLONG_MAX in *. lia. }
    intros m Em Hr. destruct (sim_set_command cfg Hm Hl Ht Hc flags k v (Some (in_ms n u)) RepOk RepNull A) with (m := m) as (m' & Hd & H1 & H2); [|done|done|].
    { intros d [= <-]. destruct u; cbn [in_ms] in *; unfold LLONG_MAX in *; lia. }
    exists m'. split; [|done]. rewrite Eu. eapply does_bind; [apply does_lift|exact Hd].
  - by apply sim_set_command.
  - by apply sim_get.
  - intros m Em Hr. destruct (sim_del cfg Hm Hl lazy keys 0 A m Em Hr) as (m' & Hd & H1 & H2). destruct (abs_del keys 0 A) as [A' n].
    exists m'. split; [|done]. eapply does_bind; [exact Hd|apply does_ret].
  - intros m Em Hr. destruct (sim_exists cfg Hm Hl LOOKUP_NOTOUCH keys 0 A m Em Hr) as (m' & Hd & H1 & H2).
    exists m'. split; [|done]. eapply does_bind; [exact Hd|apply does_ret].
  - by apply sim_rename.
  - intros m Em Hr. destruct (sim_expire cfg Hm Hl Ht Hc k (in_ms n u + if rel then clock cfg else 0) A) with (m := m) as (m' & Hd & H1 & H2); [apply Hok|done|done|].
    exists m'. split; [|done]. unfold expireGenericCommand.
    assert (expire_time n (if rel then clock cfg else 0) u = Some (in_ms n u + if rel then clock cfg else 0)) as ->.
    { unfold expire_time. destruct Hok as [H3 H4]. assert (LLONG_MIN <= in_ms n u + (if rel then clock cfg else 0) <= LLONG_MAX) as H5 by (unfold LLONG_MIN, LLONG_MAX in *; destruct rel; lia).
      destruct u; cbn [in_ms] in *; [rewrite mul64_ok by done|]; cbn [mbind option_bind]; by apply add64_ok. }
    eapply does_bind; [apply does_lift|exact Hd].
  - by apply sim_ttl.
  - by apply sim_persist.
Qed.

(** A schedule: every command with the server configuration it runs under. *)
Fixpoint run_schedule (sched : list (config * command V)) : M V (list (reply V)) :=
  match sched with
  | [] => mret []
  | (cfg, c) :: sched => r ← run_command cfg c; rs ← run_schedule sched; mret (r :: rs)
  end.

(** Keys vanish when their time has come, before the command is run. *)
Fixpoint abs_schedule (sched : list (config * command V)) A : gmap bytes (V * option Z) * list (reply V) :=
  match sched with
  | [] => (A, [])
  | (cfg, c) :: sched =>
      let '(A, r) := abs_command (clock cfg) c (live (now_of cfg) A) in
      let '(A, rs) := abs_schedule sched A in (A, r :: rs)
  end.

(** A master, with clocks that do not run backwards from [t] on. *)
Fixpoint schedule_ok (t : Z) (sched : list (config * command V)) : Prop :=
  match sched with
  | [] => True
  | (cfg, c) :: sched =>
      masterhost cfg = false /\ loading cfg = false /\ t <= now_of cfg <= clock cfg /\ 500 <= clock cfg <= LLONG_MAX /\
      command_ok (clock cfg) c /\ schedule_ok (clock cfg) sched
  end.

Lemma live_live t t' m : t <= t' -> live t' (live t m) = live t' m.
Proof.
  intros Ht. apply map_eq. intros k. rewrite !live_lookup. destruct (m !! k) as [[v [w|]]|]; [|done..].
  unfold alive. cbn. destruct (Z.leb_spec t w); [done|]. by destruct (Z.leb_spec t' w); [lia|].
Qed.

Lemma run_schedule_spec sched : forall t m, 0 <= t -> schedule_ok t sched -> Z.of_nat (base.size m) + zlen sched + 2 < DICT_BOUND ->
  exists m' t', does (run_schedule sched) m (abs_schedule sched (live t m)).2 m' /\ live t' m' = (abs_schedule sched (live t m)).1.
Proof.
  induction sched as [|[cfg c] sched IH]; intros t m H0 Hok Hs; [exists m, t; split; [apply does_ret|done]|].
  destruct Hok as (Hm & Hl & Ht & Hc & Hcmd & Hok). rewrite zlen_cons in Hs. pose proof (zlen_nonneg sched).
  cbn [run_schedule abs_schedule]. rewrite live_live by lia.
  destruct (sim_command cfg c (live (now_of cfg) m) Hm Hl) with (m := m) as (m1 & Hd1 & Hl1 & Hs1); [lia|done|done|done|unfold roomy; lia|].
  destruct (abs_command (clock cfg) c (live (now_of cfg) m)) as [A1 r]. cbn [fst snd] in *. subst A1.
  destruct (IH (now_of cfg) m1) as (m2 & t2 & Hd2 & Hl2); [lia| |lia|].
  { clear -Hok Ht. destruct sched as [|[cfg' c'] sched]; [done|]. destruct Hok as (? & ? & ? & ?). cbn. split_and!; try done; try tauto. lia. }
  destruct (abs_schedule sched (live (now_of cfg) m1)) as [A2 rs]. cbn [fst snd] in *. exists m2, t2. split; [|done].
  eapply does_bind; [exact Hd1|]. eapply does_bind; [exact Hd2|]. apply does_ret.
Qed.

End Run.

(** ** Effects of an expired key *)

Section Effects.
Context {V : Type} `{DictType bytes}.
Implicit Types (m : gmap bytes (V * option Z)) (k : bytes).

(** Operations that leave counters and events alone. *)
Definition quiet {B} (op : M V B) : Prop := forall s s' b, op s = Some (s', b) -> st_stats s' = st_stats s.

Lemma quiet_ret {B} (b : B) : quiet (mret b).
Proof. by intros s s' b' [= <- <-]. Qed.
Lemma quiet_bind {B C} (op : M V B) (f : B -> M V C) : quiet op -> (forall b, quiet (f b)) -> quiet (x ← op; f x).
Proof.
  intros H1 H2 s s' c. unfold mbind, M_bind. destruct (op s) as [[s1 b]|] eqn:E; [|done]. cbn. intros E2.
  rewrite (H2 b _ _ _ E2). by apply H1 in E.
Qed.
Lemma quiet_dict {B} (f : dict bytes V -> option (dict bytes V * B)) : quiet (with_dict f).
Proof. intros s s' b. unfold with_dict. destruct (f _) as [[d b']|]; [|done]. by intros [= <- <-]. Qed.
Lemma quiet_expires {B} (f : dict bytes Z -> option (dict bytes Z * B)) : quiet (with_expires f).
Proof. intros s s' b. unfold with_expires. destruct (f _) as [[d b']|]; [|done]. by intros [= <- <-]. Qed.
Lemma quiet_assert b : quiet (assert_that b).
Proof. intros s s' u. unfold assert_that. destruct b; [|done]. by intros [= <- <-]. Qed.
Lemma quiet_gets {B} (f : state V -> B) : quiet (gets f).
Proof. by intros s s' b [= <- <-]. Qed.

Create HintDb quiet.
#[local] Hint Resolve quiet_ret quiet_bind quiet_dict quiet_expires quiet_assert quiet_gets : quiet.

Lemma quiet_getExpire k : quiet (getExpire k).
Proof.
  unfold getExpire, find_expire, find_main. apply quiet_bind; [apply quiet_gets|]. intros n. destruct (n =? 0); [apply quiet_ret|].
  apply quiet_bind; [apply quiet_expires|]. intros [w|]; auto with quiet.
Qed.

Lemma quiet_keyIsExpired cfg k : quiet (keyIsExpired cfg k).
Proof. apply quiet_bind; [apply quiet_getExpire|]. intros w. destruct (w <? 0), (loading cfg); apply quiet_ret. Qed.

Lemma quiet_delete (b : bool) k : quiet (if b then dbAsyncDelete k else dbSyncDelete k).
Proof.
  assert (quiet (drop_expire k)) as Hd.
  { apply quiet_bind; [apply quiet_gets|]. intros n. destruct (n >? 0); auto with quiet. }
  destruct b; apply quiet_bind; auto with quiet.
Qed.

(** What an expired key leaves behind on a master. *)
Definition expire_events (cfg : config) k : list event := [Propagate (lazy_expire cfg) k; Notify "expired" k; Modified k].

Lemma expire_master cfg m k s : masterhost cfg = false -> loading cfg = false -> db_repr s m ->
  exists s', expireIfNeeded cfg k s = Some (s', expired cfg m k) /\ db_repr s' (expire1 cfg m k) /\
    events (st_stats s') = events (st_stats s) ++ (if expired cfg m k then expire_events cfg k else []).
Proof.
  intros Hm Hl Hs. destruct (does_expireIfNeeded cfg Hm Hl k m s Hs) as (s' & E & Hs'). exists s'. split_and!; try done. revert E.
  unfold expireIfNeeded, mbind, M_bind. destruct (does_keyIsExpired cfg Hl k m s Hs) as (s1 & E1 & Hs1). rewrite E1. cbn [option_bind].
  rewrite <- (quiet_keyIsExpired cfg k _ _ _ E1). destruct (expired cfg m k) eqn:Ex; cbn [negb].
  2:{ intros [= <-]. by rewrite app_nil_r. }
  rewrite Hm. cbn. match goal with |- context [(if lazy_expire cfg then _ else _) ?st] => set (s2 := st) end.
  destruct ((if lazy_expire cfg then dbAsyncDelete k else dbSyncDelete k) s2) as [[s3 r]|] eqn:E3; [|done]. cbn.
  pose proof (quiet_delete _ _ _ _ _ E3) as Eq. destruct r; [|done]. intros [= <-]. cbn. rewrite Eq. cbn. by rewrite <- !app_assoc.
Qed.

Lemma expire_replica cfg m k s : masterhost cfg = true -> loading cfg = false -> db_repr s m ->
  exists s', expireIfNeeded cfg k s = Some (s', expired cfg m k) /\ db_repr s' m /\ st_stats s' = st_stats s.
Proof.
  intros Hm Hl Hs. destruct (does_keyIsExpired cfg Hl k m s Hs) as (s1 & E1 & Hs1). exists s1. split_and!; [|done|by eapply quiet_keyIsExpired].
  unfold expireIfNeeded, mbind, M_bind. rewrite E1. cbn. rewrite Hm. by destruct (expired cfg m k).
Qed.

End Effects.

(** ** Properties *)

Definition db_new {V : Type} : state V := mk_state dictCreate dictCreate (mk_stats 0 0 0 0 []).

Lemma db_new_repr {V : Type} `{DictType bytes} : db_repr (@db_new V) ∅.
Proof.
  split; cbn; [rewrite fmap_empty; apply repr_create|rewrite omap_empty; apply repr_create|apply map_Forall_empty|].
  unfold fits. rewrite map_size_empty. unfold DICT_BOUND. lia.
Qed.

(** C2. Lazy expiration cannot be observed: any sequence of SET, GET, DEL, UNLINK, EXISTS, RENAME, EXPIRE, TTL and
    PERSIST commands on a master, at times that do not run backwards, completes and gives the replies of a keyspace
    in which every key vanishes at the moment its expire time has passed, although the code keeps expired keys in
    its dictionaries until a command touches them. *)
Theorem lazy_expiration_invisible {V : Type} `{DictType bytes} (sched : list (config * command V)) :
  schedule_ok 0 sched -> zlen sched + 2 < DICT_BOUND ->
  exists s m t, run_schedule sched db_new = Some (s, (abs_schedule sched ∅).2) /\ db_repr s m /\ live t m = (abs_schedule sched ∅).1.
Proof.
  intros Hok Hs. destruct (run_schedule_spec sched 0 ∅ ltac:(lia) Hok) as (m & t & Hd & Hl); [rewrite map_size_empty; lia|].
  assert (live 0 ∅ = (∅ : gmap bytes (V * option Z))) as E by (unfold live; apply map_filter_empty). rewrite E in *.
  destruct (Hd db_new db_new_repr) as (s & Es & Hs'). by exists s, m, t.
Qed.

(** C29. After any such sequence every key that has an expire time also has a value, so that the assertions of getExpire
    and removeExpire hold and no expire time is left behind for a key that is deleted or renamed. *)
Theorem expires_have_values {V : Type} `{DictType bytes} (sched : list (config * command V)) s rs :
  schedule_ok 0 sched -> zlen sched + 2 < DICT_BOUND -> run_schedule sched db_new = Some (s, rs) ->
  forall k, is_Some (to_map (db_expires s) !! k) -> is_Some (to_map (db_dict s) !! k).
Proof.
  intros Hok Hs Hrun k. destruct (run_schedule_spec sched 0 ∅ ltac:(lia) Hok) as (m & t & Hd & _); [rewrite map_size_empty; lia|].
  destruct (Hd db_new db_new_repr) as (s' & Es & [[_ E1] [_ E2] _ _]). rewrite Hrun in Es. injection Es as <- _.
  rewrite E1, E2, lookup_omap, lookup_fmap. intros [w (e & -> & _)%bind_Some]. by eexists.
Qed.

(** An expired key on a master is deleted together with its expire time when it is touched, and a DEL or UNLINK of
    exactly that key is sent to the replicas and the append only file, followed by the notification and the signal to
    the watching clients; a key that is not expired causes none of this. *)
Theorem expireIfNeeded_master {V : Type} `{DictType bytes} (cfg : config) (m : gmap bytes (V * option Z)) k s :
  masterhost cfg = false -> loading cfg = false -> db_repr s m ->
  exists s', expireIfNeeded cfg k s = Some (s', expired cfg m k) /\ db_repr s' (expire1 cfg m k) /\
    events (st_stats s') = events (st_stats s) ++ (if expired cfg m k then expire_events cfg k else []).
Proof. apply expire_master. Qed.

(** A replica never removes a key on its own: expireIfNeeded reports whether the key is expired and leaves the
    keyspace, the counters and the replication stream as they are. *)
Theorem expireIfNeeded_replica {V : Type} `{DictType bytes} (cfg : config) (m : gmap bytes (V * option Z)) k s :
  masterhost cfg = true -> loading cfg = false -> db_repr s m ->
  exists s', expireIfNeeded cfg k s = Some (s', expired cfg m k) /\ db_repr s' m /\ st_stats s' = st_stats s.
Proof. apply expire_replica. Qed.

(** EXPIRE multiplies and adds without a check: the largest argument that parses overflows. *)
Theorem expire_overflows {V : Type} `{DictType bytes} (cfg : config) k (s : state V) :
  expireGenericCommand cfg k LLONG_MAX (clock cfg) UNIT_SECONDS s = None /\
  setGenericCommand cfg 0 k k (Some LLONG_MAX) UNIT_SECONDS RepOk RepNull (@db_new bytes) = None.
Proof. done. Qed.

(** ** A concrete run

    A key that expires between two commands, a rename that keeps the expire
    time, and a key made persistent. *)
#[local] Existing Instance bytes_dict_type.

Definition at_time (t : Z) : config := mk_config false false 0 1 t t false false false false true.

Definition demo_sched : list (config * command Z) :=
  [(at_time 1000, CSet 0 [97] 1 (Some (2, UNIT_SECONDS))); (at_time 1500, CTtl [97] true); (at_time 2000, CSet 0 [98] 2 None);
   (at_time 2500, CRename [97] [99] false); (at_time 2600, CTtl [99] true); (at_time 3001, CGet [99]); (at_time 3001, CExists [[97]; [98]; [99]]);
   (at_time 3002, CExpire [98] 10 true UNIT_SECONDS); (at_time 3003, CPersist [98]); (at_time 99999, CGet [98]); (at_time 99999, CDel false [[98]; [99]])].

Lemma demo_sched_ok : schedule_ok 0 demo_sched.
Proof. cbn. unfold LLONG_MAX, LLONG_MIN. repeat split; try done; try lia; right; lia. Qed.

Lemma lazy_expiration_invisible_witness :
  exists s m t, run_schedule demo_sched db_new =
      Some (s, [RepOk; RepInt 1500; RepOk; RepOk; RepInt 400; RepNull; RepInt 1; RepInt 1; RepInt 1; RepVal 2; RepInt 1]) /\
    db_repr s m /\ live t m = (abs_schedule demo_sched ∅).1.
Proof. exact (lazy_expiration_invisible demo_sched demo_sched_ok ltac:(vm_compute; reflexivity)). Defined.

Definition demo_db : state Z := default db_new (fst <$> run_schedule (take 4 demo_sched) db_new).

Lemma expires_have_values_witness :
  is_Some (to_map (db_expires demo_db) !! [99]) /\ is_Some (to_map (db_dict demo_db) !! [99]).
Proof.
  assert (is_Some (to_map (db_expires demo_db) !! [99])) as Hk by (eexists; vm_compute; reflexivity). split; [exact Hk|].
  refine (expires_have_values (take 4 demo_sched) demo_db [RepOk; RepInt 1500; RepOk; RepOk] _ ltac:(vm_compute; reflexivity) ltac:(vm_compute; reflexivity) [99] Hk).
  cbn. unfold LLONG_MAX, LLONG_MIN. repeat split; try done; try lia; right; lia.
Defined.

(** One key that expired at 5000. *)
Definition demo_one : state Z := default db_new (fst <$> run_schedule [(at_time 1000, CSet 0 [97] 1 (Some (4, UNIT_SECONDS)))] db_new).

Lemma demo_one_repr : db_repr demo_one {[ [97] := (1, Some 5000) ]}.
Proof.
  assert (sim (at_time 1000) (run_command (at_time 1000) (CSet 0 [97] 1 (Some (4, UNIT_SECONDS)))) ∅ RepOk {[ [97] := (1, Some 5000) ]}) as Hsim.
  { refine (sim_command (at_time 1000) (CSet 0 [97] 1 (Some (4, UNIT_SECONDS))) ∅ eq_refl eq_refl _ _ _); cbn; unfold LLONG_MAX; lia. }
  destruct (Hsim ∅) as (m & Hd & _); [apply map_filter_empty|unfold roomy; rewrite map_size_empty; unfold DICT_BOUND; lia|].
  destruct (Hd db_new db_new_repr) as (s & Es & [H1 H2 H3 H4]).
  assert (s = demo_one) as -> by (unfold demo_one; cbn [run_schedule]; unfold mbind, M_bind; rewrite Es; done).
  assert (to_map (db_dict demo_one) = {[ [97] := 1 ]} /\ to_map (db_expires demo_one) = {[ [97] := 5000 ]}) as [E1 E2] by (split; vm_compute; reflexivity).
  split; [|..].
  - rewrite map_fmap_singleton. split; [apply H1|done].
  - split; [apply H2|by rewrite E2; vm_compute].
  - apply map_Forall_singleton. intros w [= <-]. unfold LLONG_MAX. lia.
  - unfold fits. rewrite map_size_singleton. unfold DICT_BOUND. lia.
Qed.

Lemma expireIfNeeded_master_witness :
  exists s', expireIfNeeded (at_time 5001) [97] demo_one = Some (s', true) /\ db_repr s' (expire1 (at_time 5001) {[ [97] := (1, Some 5000) ]} [97]) /\
    events (st_stats s') = events (st_stats demo_one) ++ expire_events (at_time 5001) [97].
Proof. exact (expireIfNeeded_master (at_time 5001) _ [97] demo_one eq_refl eq_refl demo_one_repr). Defined.

Definition at_replica (t : Z) : config := mk_config false false 0 1 t t true true false false true.

Lemma expireIfNeeded_replica_witness :
  exists s', expireIfNeeded (at_replica 5001) [97] demo_one = Some (s', true) /\ db_repr s' {[ [97] := (1, Some 5000) ]} /\ st_stats s' = st_stats demo_one.
Proof. exact (expireIfNeeded_replica (at_replica 5001) _ [97] demo_one eq_refl eq_refl demo_one_repr). Defined.
