(* ===== verification/DbEvents.v ===== *)
(** * Every change of the keyspace is signalled

    The commands of Db tell the rest of the server which keys they modified:
    the clients that watch the keys and the caches that hold them depend on it.
    The judgement [fx] tracks the keys an operation may change and the keys it
    signals; a command changes no key it does not signal. *)

From stdpp Require Import base list numbers option strings gmap.
From Stdlib Require Import ZArith Lia.
From S2P Require Import Prelude Util Dict DictMap Db DbProps.

Section Fx.
Context {V : Type} `{DictType bytes}.
Implicit Types (m : gmap bytes (V * option Z)) (k : bytes) (v : V) (s : state V) (F E : list bytes) (n : nat).

(** [fx n F E Q op]: the operation adds at most [n] keys, changes no key but those of [F]
    and those it signals, signals the keys of [E], and returns a result in [Q]. *)
Definition fx {B} n F E (Q : B -> Prop) (op : M V B) : Prop := forall s s' b m,
  db_repr s m -> Z.of_nat (base.size m) + Z.of_nat n + 2 < DICT_BOUND -> op s = Some (s', b) ->
  exists m' new, db_repr s' m' /\ Z.of_nat (base.size m') <= Z.of_nat (base.size m) + Z.of_nat n /\
    events (st_stats s') = events (st_stats s) ++ new /\
    (forall k, k ∉ F -> Modified k ∉ new -> m' !! k = m !! k) /\ (forall k, k ∈ E -> Modified k ∈ new) /\ Q b.

Definition any {B} (b : B) : Prop := True.

Lemma fx_ret {B} (b : B) (Q : B -> Prop) : Q b -> fx 0 [] [] Q (mret b).
Proof. intros HQ s s' b' m Hs Hn [= <- <-]. exists m, []. rewrite app_nil_r. split_and!; try done; [lia|set_solver]. Qed.

Lemma fx_bind {B C} n1 n2 F1 F2 E1 E2 (Q1 : B -> Prop) (Q2 : C -> Prop) op f :
  fx n1 F1 E1 Q1 op -> (forall b, Q1 b -> fx n2 F2 E2 Q2 (f b)) -> fx (n1 + n2) (F1 ++ F2) (E1 ++ E2) Q2 (x ← op; f x).
Proof.
  intros H1 H2 s s' c m Hs Hn. unfold mbind, M_bind. destruct (op s) as [[s1 b]|] eqn:E; [|done]. cbn. intros Ec.
  destruct (H1 s s1 b m Hs ltac:(lia) E) as (m1 & new1 & Hs1 & Hz1 & Ee1 & Hc1 & Hi1 & HQ1).
  destruct (H2 b HQ1 s1 s' c m1 Hs1 ltac:(lia) Ec) as (m2 & new2 & Hs2 & Hz2 & Ee2 & Hc2 & Hi2 & HQ2).
  exists m2, (new1 ++ new2). split_and!; try done; [lia|by rewrite Ee2, Ee1, app_assoc|..].
  - intros k HF Hnew. rewrite not_elem_of_app in HF. rewrite not_elem_of_app in Hnew. rewrite Hc2, Hc1; naive_solver.
  - intros k. rewrite !elem_of_app. naive_solver.
Qed.

Lemma fx_weaken {B} n n' F F' E E' (Q Q' : B -> Prop) op : fx n F E Q op -> (n <= n')%nat -> (forall k, k ∈ F -> k ∈ F' \/ k ∈ E) ->
  (forall k, k ∈ E' -> k ∈ E) -> (forall b, Q b -> Q' b) -> fx n' F' E' Q' op.
Proof.
  intros Hop Hn HF HE HQ s s' b m Hs Hb Eop. destruct (Hop s s' b m Hs ltac:(lia) Eop) as (m' & new & Hs' & Hz & Ee & Hc & Hi & HQb).
  exists m', new. split_and!; try done; [lia| |naive_solver..]. intros k Hk Hnew. apply Hc; [|done]. intros [|]%HF; naive_solver.
Qed.

(** An operation without events, by its effect on the keyspace; or one that fails. *)
Lemma fx_quiet {B} n F (Q : B -> Prop) (op : M V B) : quiet op ->
  (forall s m, db_repr s m -> Z.of_nat (base.size m) + Z.of_nat n + 2 < DICT_BOUND ->
    op s = None \/ exists b m', does op m b m' /\ Z.of_nat (base.size m') <= Z.of_nat (base.size m) + Z.of_nat n /\ (forall k, k ∉ F -> m' !! k = m !! k) /\ Q b) ->
  fx n F [] Q op.
Proof.
  intros Hq Hop s s' b m Hs Hn E. destruct (Hop s m Hs Hn) as [|(b' & m' & Hd & Hz & Hc & HQ)]; [congruence|].
  destruct (Hd s Hs) as (s2 & E2 & Hs2). rewrite E2 in E. injection E as -> ->. exists m', []. rewrite app_nil_r, (Hq _ _ _ E2).
  split_and!; try done; [naive_solver|set_solver].
Qed.

Lemma fx_on_stats (f : stats -> stats) E new : (forall t, events (f t) = events t ++ new) -> (forall k, k ∈ E -> Modified k ∈ new) ->
  fx 0 [] E any (on_stats f).
Proof.
  intros Hf HE s s' b m Hs Hn Eq. destruct (does_stats f m s Hs) as (s2 & E2 & Hs2). rewrite E2 in Eq. injection Eq as -> <-.
  exists m, new. injection E2 as <-. split_and!; try done; [lia|apply Hf].
Qed.

Lemma fx_count (f : stats -> stats) : (forall t, events (f t) = events t) -> fx 0 [] [] any (on_stats f).
Proof. intros Hf. apply (fx_on_stats f [] []); [|set_solver]. intros t. by rewrite Hf, app_nil_r. Qed.

Lemma fx_event e : fx 0 [] [] any (emit e).
Proof. by apply (fx_on_stats _ [] [e]); [|set_solver]. Qed.

Lemma fx_signal k : fx 0 [] [k] any (signalModifiedKey k).
Proof. by apply (fx_on_stats _ [k] [Modified k]); [|set_solver]. Qed.

Lemma fx_lift {B} (o : option B) : fx 0 [] [] (fun b => o = Some b) (lift o).
Proof.
  apply fx_quiet; [intros s s' b; unfold lift; by destruct o as [b'|]; [intros [= <- <-]|]|].
  intros s m Hs Hn. unfold lift. destruct o as [b|]; [|by left]. right. exists b, m. split; [apply does_lift|]. split; [lia|done].
Qed.

(** ** The operations of the keyspace *)

Lemma quiet_find k : quiet (find_main k : M V (option V)).
Proof. apply quiet_dict. Qed.

Lemma fx_find_main k : fx 0 [] [] any (find_main k).
Proof. apply fx_quiet; [apply quiet_find|]. intros s m Hs Hn. right. exists (fst <$> m !! k), m. split; [apply does_find_main|]. split; [lia|done]. Qed.

Definition time_ok (w : Z) : Prop := 0 <= w <= LLONG_MAX.

Lemma fx_getExpire k : fx 0 [] [] (fun w => w = -1 \/ time_ok w) (getExpire k).
Proof.
  apply fx_quiet; [apply quiet_getExpire|]. intros s m Hs Hn. right. exists (default (-1) (expiry m k)), m. split; [apply does_getExpire|].
  split; [lia|]. split; [done|]. destruct (expiry m k) as [w|] eqn:E; [|by left]. right. destruct (expiry_key _ _ _ E) as [v Ev].
  exact (dbr_times _ _ Hs k _ Ev w eq_refl).
Qed.

Lemma fx_removeExpire k : fx 0 [k] [] any (removeExpire k).
Proof.
  apply fx_quiet.
  - apply quiet_bind; [apply quiet_find|]. intros b. apply quiet_bind; [apply quiet_assert|]. intros _. apply quiet_expires.
  - intros s m Hs Hn. destruct (m !! k) as [e|] eqn:Ek.
    + right. eexists _, _. split; [apply does_removeExpire; by rewrite Ek|]. split; [|split; [|done]].
      * pose proof (map_size_fmap fst (alter no_expire k m)) as E1. rewrite alter_none_values, map_size_fmap in E1. lia.
      * intros k' Hk'. rewrite lookup_alter_ne; [done|set_solver].
    + left. unfold removeExpire, mbind, M_bind. destruct (does_find_main k m s Hs) as (s' & -> & _). by rewrite Ek.
Qed.

Lemma size_insert_present m k e e' : m !! k = Some e -> base.size (<[k := e']> m) = base.size m.
Proof. intros E. by rewrite map_size_insert, E. Qed.

Lemma fx_setExpire cfg k w : time_ok w -> fx 0 [k] [] any (setExpire cfg k w).
Proof.
  intros Hw. apply fx_quiet.
  - apply quiet_bind; [apply quiet_find|]. intros b. apply quiet_bind; [apply quiet_assert|]. intros _. apply quiet_expires.
  - intros s m Hs Hn. destruct (m !! k) as [[v o]|] eqn:Ek.
    + right. eexists _, _. split; [by eapply does_setExpire|]. rewrite (size_insert_present m k (v, o)) by done. split; [lia|]. split; [|done].
      intros k' Hk'. rewrite lookup_insert_ne; [done|set_solver].
    + left. unfold setExpire, mbind, M_bind. destruct (does_find_main k m s Hs) as (s' & -> & _). by rewrite Ek.
Qed.

Lemma fx_delete (b : bool) k : fx 0 [k] [] any (if b then dbAsyncDelete k else dbSyncDelete k).
Proof.
  apply fx_quiet; [apply quiet_delete|]. intros s m Hs Hn. right. eexists _, _. split; [apply does_delete_with|].
  split; [pose proof (map_subseteq_size _ _ (delete_subseteq m k)); lia|]. split; [|done]. intros k' Hk'. rewrite lookup_delete_ne; [done|set_solver].
Qed.

Lemma fx_dbAdd cfg k v : fx 1 [k] [] any (dbAdd cfg k v).
Proof.
  apply fx_quiet; [apply quiet_bind; [apply quiet_dict|intros b; apply quiet_assert]|]. intros s m Hs Hn. destruct (m !! k) as [e|] eqn:Ek.
  - left. unfold dbAdd, with_dict, mbind, M_bind, dictAdd.
    destruct (repr_addraw (dict_can_resize cfg) _ _ k v (dbr_dict _ _ Hs) (fits_values _ (dbr_fits _ _ Hs))) as (d & r & -> & Hr).
    rewrite lookup_fmap, Ek in Hr. destruct Hr as [-> _]. done.
  - right. eexists _, _. split; [by apply does_dbAdd; [|unfold fits; rewrite map_size_insert, Ek; lia]|].
    rewrite map_size_insert, Ek. split; [lia|]. split; [|done]. intros k' Hk'. rewrite lookup_insert_ne; [done|set_solver].
Qed.

Lemma fx_dbOverwrite k v : fx 0 [k] [] any (dbOverwrite k v).
Proof.
  apply fx_quiet.
  - apply quiet_bind; [apply quiet_find|]. intros b. apply quiet_bind; [apply quiet_assert|]. intros _. apply quiet_dict.
  - intros s m Hs Hn. destruct (m !! k) as [[v0 o]|] eqn:Ek.
    + right. eexists _, _. split; [by eapply does_dbOverwrite|]. rewrite (size_insert_present m k (v0, o)) by done. split; [lia|]. split; [|done].
      intros k' Hk'. rewrite lookup_insert_ne; [done|set_solver].
    + left. unfold dbOverwrite, mbind, M_bind. destruct (does_find_main k m s Hs) as (s' & -> & _). by rewrite Ek.
Qed.

(** An operation that says whether it changed a key. *)
Definition fx_if k (op : M V bool) : Prop := forall s s' b m, db_repr s m -> op s = Some (s', b) ->
  exists m', db_repr s' m' /\ (base.size m' <= base.size m)%nat /\ events (st_stats s') = events (st_stats s) /\
    (forall k', (b = true -> k' <> k) -> m' !! k' = m !! k').

Lemma fx_if_bind {C} k op (f : bool -> M V C) n F E E1 (Q : C -> Prop) : fx_if k op -> fx n F E1 Q (f true) -> k ∈ E1 -> (forall k', k' ∈ E -> k' ∈ E1) ->
  fx n F E Q (f false) -> fx n F E Q (x ← op; f x).
Proof.
  intros Hop Ht Hk HE Hf s s' c m Hs Hn. unfold mbind, M_bind. destruct (op s) as [[s1 b]|] eqn:Eop; [|done]. cbn. intros Ec.
  destruct (Hop s s1 b m Hs Eop) as (m1 & Hs1 & Hz1 & Ee1 & Hc1). destruct b.
  - destruct (Ht s1 s' c m1 Hs1 ltac:(lia) Ec) as (m2 & new & Hs2 & Hz2 & Ee2 & Hc2 & Hi2 & HQ). exists m2, new. rewrite Ee2, Ee1.
    split_and!; try done; [lia| |naive_solver]. intros k' HF Hnew. rewrite Hc2, Hc1; try done. intros _ ->. apply Hnew. by apply Hi2.
  - destruct (Hf s1 s' c m1 Hs1 ltac:(lia) Ec) as (m2 & new & Hs2 & Hz2 & Ee2 & Hc2 & Hi2 & HQ). exists m2, new. rewrite Ee2, Ee1.
    split_and!; try done; [lia|]. intros k' HF Hnew. by rewrite Hc2, Hc1.
Qed.

Lemma fx_if_delete (b : bool) k : fx_if k (if b then dbAsyncDelete k else dbSyncDelete k).
Proof.
  intros s s' r m Hs E. destruct (does_delete_with b k m s Hs) as (s2 & E2 & Hs2). rewrite E2 in E. injection E as -> <-.
  exists (delete k m). split_and!; [done|by apply map_subseteq_size, delete_subseteq|by rewrite (quiet_delete _ _ _ _ _ E2)|].
  intros k' Hk'. destruct (decide (k' = k)) as [->|]; [|by rewrite lookup_delete_ne]. rewrite lookup_delete_eq. destruct (m !! k); [by destruct Hk'|done].
Qed.

Lemma fx_if_removeExpire k : fx_if k (removeExpire k).
Proof.
  intros s s' r m Hs E. assert (is_Some (m !! k)) as Hk.
  { destruct (m !! k) as [e|] eqn:Ek; [done|]. exfalso. revert E. unfold removeExpire, mbind, M_bind. destruct (does_find_main k m s Hs) as (s1 & -> & _). by rewrite Ek. }
  destruct (does_removeExpire k m Hk s Hs) as (s2 & E2 & Hs2). rewrite E2 in E. injection E as -> <-.
  exists (alter no_expire k m). split_and!; [done| | |].
  - pose proof (map_size_fmap fst (alter no_expire k m)) as E1. rewrite alter_none_values, map_size_fmap in E1. lia.
  - f_equal. revert E2. apply quiet_bind; [apply quiet_find|]. intros b. apply quiet_bind; [apply quiet_assert|]. intros _. apply quiet_expires.
  - intros k' Hk'. destruct (decide (k' = k)) as [->|]; [|by rewrite lookup_alter_ne]. rewrite lookup_alter_eq. unfold expiry in Hk'.
    destruct (m !! k) as [[v [w|]]|]; [by destruct Hk'|done..].
Qed.

(** ** Commands *)

Section Commands.
Context (cfg : config).
Hypothesis Hmaster : masterhost cfg = false.
Hypothesis Hloading : loading cfg = false.
Hypothesis Hclock : 500 <= clock cfg <= LLONG_MAX.

(** The result of a sequence, up to the bookkeeping of [fx_bind]. *)
Lemma fx_any {B} n n' F F' E E' (op : M V B) : fx n F E any op -> (n <= n')%nat -> (forall k, k ∈ F -> k ∈ F' \/ k ∈ E) ->
  (forall k, k ∈ E' -> k ∈ E) -> fx n' F' E' any op.
Proof. intros Hop Hn HF HE. eapply fx_weaken; eauto. Qed.

Lemma fx_mret {B} (b : B) : fx 0 [] [] any (mret b).
Proof. by apply fx_ret. Qed.

Lemma fx_seq {B C} n1 n2 F1 F2 E1 E2 (op : M V B) (f : B -> M V C) :
  fx n1 F1 E1 any op -> (forall b, fx n2 F2 E2 any (f b)) -> fx (n1 + n2) (F1 ++ F2) (E1 ++ E2) any (x ← op; f x).
Proof. intros H1 H2. by eapply fx_bind. Qed.

Create HintDb fx.
#[local] Hint Resolve fx_mret fx_find_main fx_getExpire fx_removeExpire fx_delete fx_dbAdd fx_dbOverwrite fx_event fx_signal fx_lift : fx.
#[local] Hint Extern 1 (fx _ _ _ _ count_dirty) => apply fx_count; intros ?; reflexivity : fx.
#[local] Hint Extern 1 (fx _ _ _ _ count_hit) => apply fx_count; intros ?; reflexivity : fx.
#[local] Hint Extern 1 (fx _ _ _ _ count_miss) => apply fx_count; intros ?; reflexivity : fx.
#[local] Hint Extern 1 (fx _ _ _ _ (notifyKeyspaceEvent _ _)) => apply fx_event : fx.

(** One step of a sequence, with the judgement of the rest given or found; a
    sequence of steps to its end; and the bookkeeping. *)
Ltac fxb := eapply fx_bind; [solve [eauto with fx]|intros ? ?; cbv beta in *].
Ltac fxb_to n F E := eapply (fx_bind _ n _ F _ E); [solve [eauto with fx]|intros ? ?; cbv beta in *].
Ltac fxe := first [lia|set_solver].
Ltac fxr := first [solve [eauto with fx]|fxb; fxr].
Ltac fxs := eapply fx_any; [fxr|fxe..].

Lemma fx_expireIfNeeded k : fx 0 [] [] any (expireIfNeeded cfg k).
Proof.
  intros s s' b m Hs Hn E. destruct (expire_master cfg m k s Hmaster Hloading Hs) as (s2 & E2 & Hs2 & Ee). rewrite E2 in E. injection E as -> <-.
  exists (expire1 cfg m k), (if expired cfg m k then expire_events cfg k else []). split_and!; try done; [| |set_solver].
  - unfold expire1. pose proof (map_subseteq_size _ _ (delete_subseteq m k)). destruct (expired cfg m k); lia.
  - intros k' _. unfold expire1. destruct (expired cfg m k); [|done]. intros Hk'. rewrite lookup_delete_ne; [done|]. intros ->. apply Hk'. set_solver.
Qed.
#[local] Hint Resolve fx_expireIfNeeded : fx.

Lemma fx_lookupKeyWrite k : fx 0 [] [] any (lookupKeyWrite cfg k).
Proof. unfold lookupKeyWrite, lookupKey. fxs. Qed.

Lemma fx_lookupKeyRead k flags : fx 0 [] [] any (lookupKeyReadWithFlags cfg k flags).
Proof.
  unfold lookupKeyReadWithFlags.
  assert (fx 0 [] [] any (if Z.land flags LOOKUP_NONOTIFY =? 0 then _ ← count_miss; _ ← notifyKeyspaceEvent "keymiss" k; mret None else mret None : M V (option V))) as Hmiss.
  { destruct (_ =? 0); fxs. }
  eapply fx_any; [fxb_to 0%nat (@nil bytes) (@nil bytes)|fxe..]. destruct (_ && _); [exact Hmiss|]. unfold lookupKey.
  eapply fx_any; [fxb_to 0%nat (@nil bytes) (@nil bytes)|fxe..].
  match goal with |- fx _ _ _ _ (match ?o with _ => _ end) => destruct o end; [fxs|exact Hmiss].
Qed.
#[local] Hint Resolve fx_lookupKeyWrite fx_lookupKeyRead : fx.

Lemma fx_genericSetKey k v keepttl : fx 1 [] [k] any (genericSetKey cfg k v keepttl true).
Proof.
  unfold genericSetKey. eapply fx_any; [fxb; eapply (fx_seq 1 _ [k] _ []); [|intros ?; eapply (fx_seq 0 _ [k] _ []); [|intros ?; apply fx_signal]]|fxe..].
  - match goal with |- fx _ _ _ _ (match ?o with _ => _ end) => destruct o end; fxs.
  - destruct keepttl; fxs.
Qed.

Lemma fx_set_aborts flags k : fx 0 [] [] any (set_aborts cfg flags k).
Proof.
  unfold set_aborts. eapply fx_any; [eapply (fx_seq 0 0 [] [] [] []); [destruct (negb _); fxs|]|fxe..]. intros []; [fxs|]. destruct (negb _); fxs.
Qed.
#[local] Hint Resolve fx_genericSetKey fx_set_aborts : fx.

Lemma fx_set_command flags k v ms ok abort : (forall d, ms = Some d -> 0 < d) -> fx 1 [] [] any (set_command cfg flags k v ms ok abort).
Proof.
  intros Hms. unfold set_command. eapply fx_any; [fxb_to 1%nat (@nil bytes) (@nil bytes)|fxe..].
  match goal with |- fx _ _ _ _ (if ?b then _ else _) => destruct b end; [fxs|].
  eapply fx_any; [fxb; fxb; eapply (fx_seq 0 _ [k] _ []); [|intros ?; fxb; eapply (fx_seq 0 _ [] _ []); [|intros ?; fxr]]|fxe..].
  - destruct ms as [d|]; [|fxs]. eapply fx_any; [fxb_to 0%nat [k] (@nil bytes)|fxe..]. specialize (Hms d eq_refl).
    match goal with Ha : add64 _ _ = Some _ |- _ => unfold add64 in Ha; destruct (_ && _) eqn:Eb in Ha; [|done]; injection Ha as <- end.
    apply andb_prop in Eb as [_ Eb]. apply Z.leb_le in Eb. apply fx_setExpire. unfold time_ok. lia.
  - destruct ms; fxs.
Qed.

Lemma fx_setGeneric flags k v expire u ok abort : fx 1 [] [] any (setGenericCommand cfg flags k v expire u ok abort).
Proof.
  unfold setGenericCommand. destruct expire as [d|]; [|by apply fx_set_command]. destruct (Z.leb_spec d 0); [fxs|].
  eapply fx_any; [fxb_to 1%nat (@nil bytes) (@nil bytes)|fxe..]. apply fx_set_command. intros d' [= <-].
  match goal with Hm : match u with _ => _ end = Some _ |- _ => destruct u; [unfold mul64 in Hm; destruct (_ && _) in Hm; [|done]|]; injection Hm as <- end; lia.
Qed.

Lemma fx_del_loop lazy keys : forall n : Z, fx 0 [] [] any (del_loop cfg lazy keys n).
Proof.
  induction keys as [|k keys IH]; intros n; cbn [del_loop]; [fxs|].
  eapply fx_any; [fxb_to 0%nat (@nil bytes) (@nil bytes)|fxe..]. apply (fx_if_bind k _ _ _ _ _ [k]); [apply fx_if_delete| |set_solver..|apply IH].
  eapply fx_any; [fxb; fxb; fxb; apply IH|fxe..].
Qed.

Lemma fx_exists_loop flags keys : forall n : Z, fx 0 [] [] any (exists_loop cfg flags keys n).
Proof. induction keys as [|k keys IH]; intros n; cbn [exists_loop]; [fxs|]. eapply fx_any; [fxb; apply IH|fxe..]. Qed.

Lemma fx_dbDelete k : fx 0 [k] [] any (dbDelete cfg k).
Proof. unfold dbDelete. apply fx_delete. Qed.
#[local] Hint Resolve fx_del_loop fx_exists_loop fx_dbDelete : fx.

Lemma fx_rename src dst nx : fx 1 [] [] any (renameGenericCommand cfg src dst nx).
Proof.
  unfold renameGenericCommand. eapply fx_any; [fxb_to 1%nat (@nil bytes) (@nil bytes)|fxe..].
  match goal with |- fx _ _ _ _ (match ?o with _ => _ end) => destruct o as [o|] end; [|fxs]. case_bool_decide; [fxs|].
  eapply fx_any; [fxb; fxb_to 1%nat (@nil bytes) (@nil bytes)|fxe..]. destruct (_ && nx); [fxs|]. unfold rename_move.
  eapply fx_any; [eapply (fx_seq 0 _ [dst] _ []); [|intros ?; fxb; eapply (fx_seq 0 _ [dst] _ []); [|intros ?; fxr]]|fxe..].
  - match goal with |- fx _ _ _ _ (if ?o then _ else _) => destruct o end; fxs.
  - match goal with |- context [?e =? -1] => destruct (Z.eqb_spec e (-1)) end; cbn [negb]; [fxs|apply fx_setExpire; tauto].
Qed.

Lemma fx_expire_key k when : when <= LLONG_MAX -> fx 0 [] [] any (expire_key cfg k when).
Proof.
  intros Hw. unfold expire_key. eapply fx_any; [fxb_to 0%nat (@nil bytes) (@nil bytes)|fxe..]. destruct (negb _); [fxs|].
  destruct (checkAlreadyExpired cfg when) eqn:Ec.
  - apply (fx_if_bind k _ _ _ _ _ [k]); [apply fx_if_delete| |set_solver..|]; (eapply fx_any; [eapply (fx_seq 0 _ [] _ []); [|intros ?; fxr]|fxe..]).
    + eapply fx_weaken; [apply (fx_quiet 0 [] any)|fxe..]; [apply quiet_assert|]. intros s m Hs Hn. right. exists tt, m. split; [apply does_assert|]. split; [lia|done].
    + eapply fx_weaken; [apply (fx_quiet 0 [] any)|fxe..]; [apply quiet_assert|]. intros s m Hs Hn. by left.
  - eapply fx_any; [eapply (fx_seq 0 _ [k] _ []); [|intros ?; fxr]|fxe..]. apply fx_setExpire. unfold time_ok.
    unfold checkAlreadyExpired in Ec. rewrite Hloading, Hmaster in Ec. destruct (Z.leb_spec when (clock cfg)); [done|lia].
Qed.

(** No command changes a key it does not signal. *)
Lemma fx_command (c : command V) : fx 1 [] [] any (run_command cfg c).
Proof.
  destruct c as [flags k v [[n u]|]|k|lazy keys|keys|src dst nx|k n rel u|k ms|k]; cbn [run_command].
  - apply fx_setGeneric.
  - apply fx_setGeneric.
  - unfold getGenericCommand, lookupKeyRead. fxs.
  - unfold delGenericCommand. fxs.
  - unfold existsCommand. fxs.
  - apply fx_rename.
  - unfold expireGenericCommand. eapply fx_any; [fxb_to 0%nat (@nil bytes) (@nil bytes)|fxe..]. apply fx_expire_key.
    match goal with Ht : expire_time _ _ _ = Some _ |- _ => unfold expire_time in Ht; apply bind_Some in Ht as (w & _ & Ha) end.
    unfold add64 in Ha. destruct (_ && _) eqn:Eb in Ha; [|done]. injection Ha as <-. apply andb_prop in Eb as [_ Eb]. by apply Z.leb_le.
  - unfold ttlGenericCommand. eapply fx_any; [fxb_to 0%nat (@nil bytes) (@nil bytes)|fxe..]. destruct (negb _); [fxs|].
    eapply fx_any; [fxb; eapply (fx_seq 0 0 [] [] [] []); [destruct (negb _); fxs|]|fxe..].
    intros t. destruct (t =? -1); [fxs|]. destruct ms; fxs.
  - unfold persistCommand. eapply fx_any; [fxb_to 0%nat (@nil bytes) (@nil bytes)|fxe..]. destruct (negb _); [fxs|].
    apply (fx_if_bind k _ _ _ _ _ [k]); [apply fx_if_removeExpire|fxs|set_solver..|fxs].
Qed.

End Commands.

End Fx.

(** C28. Watching clients and client side caches hear of every change: a command that completes on a master changes the
    value or the expire time of no key but those it signals, whether by writing, deleting, renaming, expiring or
    making persistent. *)
Theorem changes_are_signalled {V : Type} `{DictType bytes} (cfg : config) (c : command V) s s' r m :
  masterhost cfg = false -> loading cfg = false -> 500 <= clock cfg <= LLONG_MAX -> db_repr s m ->
  Z.of_nat (base.size m) + 3 < DICT_BOUND -> run_command cfg c s = Some (s', r) ->
  exists m' new, db_repr s' m' /\ events (st_stats s') = events (st_stats s) ++ new /\
    forall k, Modified k ∉ new -> m' !! k = m !! k.
Proof.
  intros Hm Hl Hc Hs Hz E. destruct (fx_command cfg Hm Hl Hc c s s' r m Hs ltac:(lia) E) as (m' & new & Hs' & _ & Ee & Hk & _).
  exists m', new. split_and!; try done. intros k. apply Hk. set_solver.
Qed.

#[local] Existing Instance bytes_dict_type.

Lemma demo_rename : is_Some (run_command (at_time 1500) (CRename [97] [98] false) demo_one).
Proof. destruct (run_command _ _ _) as [x|] eqn:E; [by exists x|by vm_compute in E]. Qed.

Lemma changes_are_signalled_witness :
  exists s' r m' new, run_command (at_time 1500) (CRename [97] [98] false) demo_one = Some (s', r) /\ db_repr s' m' /\
    events (st_stats s') = events (st_stats demo_one) ++ new /\ forall k, Modified k ∉ new -> m' !! k = ({[ [97] := (1, Some 5000) ]} : gmap bytes (Z * option Z)) !! k.
Proof.
  destruct demo_rename as [[s' r] E].
  exists s', r. destruct (changes_are_signalled (at_time 1500) (CRename [97] [98] false) demo_one s' r {[ [97] := (1, Some 5000) ]} eq_refl eq_refl) with (4 := E) as (m' & new & H1 & H2 & H3);
    [cbn; unfold LLONG_MAX; lia|exact demo_one_repr|rewrite map_size_singleton; unfold DICT_BOUND; lia|]. exists m', new. exact (conj E (conj H1 (conj H2 H3))).
Defined.
