(* ===== verification/Multi.v ===== *)
(** * Transactions: MULTI, EXEC and WATCH (multi.c)

    Several clients share the databases.  A client that watches keys appears in
    a list of clients per key (watched_keys of the database) and keeps the list
    of the keys it watches; a command that modifies a key marks the clients that
    watch it, and EXEC of a marked client runs nothing.

    The requests are served one after the other, as the event loop does it.  The
    commands on the keyspace are those of Db; what they signal is delivered to
    the watching clients when the command returns, since no command looks at the
    marks.  Not modelled: the replication of MULTI and EXEC, monitors, SWAPDB, the
    background save and the counters of FLUSHALL and FLUSHDB, and the checks by
    which processCommand rejects a command, whose outcome is a part of the
    request. *)

From stdpp Require Import base list numbers option strings gmap.
From Stdlib Require Import ZArith Lia.
From S2P Require Import Prelude Util Dict DictMap DictIter Db DbProps DbEvents.

(** ** State *)

(** The commands that can wait in the queue of a transaction. *)
Inductive queued (V : Type) := QCmd (c : command V) | QSelect (id : Z) | QUnwatch | QFlushDb (async : bool) | QFlushAll (async : bool).
Arguments QCmd {V}. Arguments QSelect {V}. Arguments QUnwatch {V}. Arguments QFlushDb {V}. Arguments QFlushAll {V}.

Record multiState (V : Type) := mk_mstate { commands : list (queued V); cmd_flags : Z; cmd_inv_flags : Z }.
Arguments mk_mstate {V}. Arguments commands {V}. Arguments cmd_flags {V}. Arguments cmd_inv_flags {V}.

(** The flags CLIENT_MULTI, CLIENT_DIRTY_CAS and CLIENT_DIRTY_EXEC, the queue, the
    watched keys and the selected database. *)
Record client (V : Type) := mk_client {
  c_multi : bool; c_dirty_cas : bool; c_dirty_exec : bool; c_mstate : multiState V; c_watched : list (Z * bytes); c_db : Z
}.
Arguments mk_client {V}. Arguments c_multi {V}. Arguments c_dirty_cas {V}. Arguments c_dirty_exec {V}.
Arguments c_mstate {V}. Arguments c_watched {V}. Arguments c_db {V}.

(** Clients are referred to by address. *)
Record redisDb (V : Type) := mk_rdb { rd : state V; watched_keys : dict bytes (list positive) }.
Arguments mk_rdb {V}. Arguments rd {V}. Arguments watched_keys {V}.

Record server (V : Type) := mk_server { dbs : list (redisDb V); clients : gmap positive (client V) }.
Arguments mk_server {V}. Arguments dbs {V}. Arguments clients {V}.

(** The reply to a request. *)
Inductive mreply (V : Type) :=
  | MOk | MError | MQueued | MReply (r : reply V) | MExecAbort | MNullArray | MArray (l : list (mreply V)).
Arguments MOk {V}. Arguments MError {V}. Arguments MQueued {V}. Arguments MReply {V}. Arguments MExecAbort {V}. Arguments MNullArray {V}. Arguments MArray {V}.

Inductive request (V : Type) := ReqMulti | ReqExec | ReqDiscard | ReqWatch (keys : list bytes) | ReqCommand (q : queued V).
Arguments ReqMulti {V}. Arguments ReqExec {V}. Arguments ReqDiscard {V}. Arguments ReqWatch {V}. Arguments ReqCommand {V}.

Section Ops.
Context {V : Type} `{DictType bytes} (can_resize : bool).
(** The flags of the command table and the permissions of the client that runs EXEC. *)
Context (flags_of : queued V -> Z) (acl_ok : queued V -> bool).
Implicit Types (S : server V) (c : positive) (cl : client V) (key : bytes).

Definition set_client S c cl : server V := mk_server (dbs S) (<[c := cl]> (clients S)).
Definition put_db S (i : Z) (r : redisDb V) : server V := mk_server (<[Z.to_nat i := r]> (dbs S)) (clients S).

Definition initClientMultiState : multiState V := mk_mstate [] 0 0.

(** The fields of the state are int, the flags of a command 64 bit unsigned. *)
Definition queueMultiCommand S c (q : queued V) : option (server V) :=
  cl ← clients S !! c;
  if c_dirty_exec cl then Some S else
  let ms := c_mstate cl in
  let ms := mk_mstate (commands ms ++ [q]) (i32 (Z.lor (u64 (cmd_flags ms)) (flags_of q)))
              (i32 (Z.lor (u64 (cmd_inv_flags ms)) (u64 (Z.lnot (flags_of q))))) in
  Some (set_client S c (mk_client (c_multi cl) (c_dirty_cas cl) (c_dirty_exec cl) ms (c_watched cl) (c_db cl))).

Definition flagTransaction S c : option (server V) :=
  cl ← clients S !! c;
  if c_multi cl then Some (set_client S c (mk_client (c_multi cl) (c_dirty_cas cl) true (c_mstate cl) (c_watched cl) (c_db cl))) else Some S.

(** ** Watching *)

Definition watchForKey S c key : option (server V) :=
  cl ← clients S !! c;
  if existsb (fun wk => bool_decide (wk.1 = c_db cl) && bool_decide (key = wk.2)) (c_watched cl) then Some S else
  r ← (dbs S).[c_db cl];
  '(d, cs) ← dictFetchValue (watched_keys r) key;
  '(d, cs) ← match cs with
             | Some cs => Some (d, cs)
             | None => '(d, _) ← dictAdd can_resize d key []; Some (d, [])
             end;
  d ← set_existing d key (cs ++ [c]);
  let S := put_db S (c_db cl) (mk_rdb (rd r) d) in
  Some (set_client S c (mk_client (c_multi cl) (c_dirty_cas cl) (c_dirty_exec cl) (c_mstate cl) (c_watched cl ++ [(c_db cl, key)]) (c_db cl))).

(** [listDelNode(clients,listSearchKey(clients,c))]; [None] when [c] is not there. *)
Fixpoint del_client c (cs : list positive) : option (list positive) :=
  match cs with
  | [] => None
  | c' :: cs => if bool_decide (c' = c) then Some cs else cs ← del_client c cs; Some (c' :: cs)
  end.

Fixpoint unwatch_loop S c (wks : list (Z * bytes)) : option (server V) :=
  match wks with
  | [] => Some S
  | (i, key) :: wks =>
      r ← (dbs S).[i];
      '(d, cs) ← dictFetchValue (watched_keys r) key;
      cs ← cs;
      cs ← del_client c cs;
      d ← set_existing d key cs;
      d ← (if zlen cs =? 0 then '(d, _) ← dictDelete d key; Some d else Some d);
      cl ← clients S !! c;
      let S := put_db S i (mk_rdb (rd r) d) in
      unwatch_loop (set_client S c (mk_client (c_multi cl) (c_dirty_cas cl) (c_dirty_exec cl) (c_mstate cl) wks (c_db cl))) c wks
  end.

Definition unwatchAllKeys S c : option (server V) :=
  cl ← clients S !! c;
  if zlen (c_watched cl) =? 0 then Some S else unwatch_loop S c (c_watched cl).

(** [c->flags |= CLIENT_DIRTY_CAS;] for a list of clients. *)
Fixpoint mark_dirty S (cs : list positive) : option (server V) :=
  match cs with
  | [] => Some S
  | c :: cs =>
      cl ← clients S !! c;
      mark_dirty (set_client S c (mk_client (c_multi cl) true (c_dirty_exec cl) (c_mstate cl) (c_watched cl) (c_db cl))) cs
  end.

Definition touchWatchedKey S (i : Z) key : option (server V) :=
  r ← (dbs S).[i];
  if dictSize (watched_keys r) =? 0 then Some S else
  '(d, cs) ← dictFetchValue (watched_keys r) key;
  let S := put_db S i (mk_rdb (rd r) d) in
  match cs with None => Some S | Some cs => mark_dirty S cs end.

(** The clients of one key of [touchAllWatchedKeysInDb], which looks the key up for each of them; without a second
    database, which only SWAPDB passes. *)
Fixpoint touch_clients S (i : Z) key (cs : list positive) : option (server V) :=
  match cs with
  | [] => Some S
  | c :: cs =>
      r ← (dbs S).[i];
      '(data, found) ← find_main key (rd r);
      let S := put_db S i (mk_rdb data (watched_keys r)) in
      S ← (if is_some found then mark_dirty S [c] else Some S);
      touch_clients S i key cs
  end.

Fixpoint touch_all_loop (fuel : nat) S (i : Z) (di : @dictIterator bytes) : option (server V * @dictIterator bytes) :=
  match fuel with
  | O => None
  | Datatypes.S fuel =>
      r ← (dbs S).[i];
      '(d, di, de) ← dictNext 0 0 (watched_keys r) di;
      let S := put_db S i (mk_rdb (rd r) d) in
      match de with
      | None => Some (S, di)
      | Some (key, cs) =>
          S ← touch_clients S i key cs;
          touch_all_loop fuel S i di
      end
  end.

Definition touchAllWatchedKeysInDb S (i : Z) : option (server V) :=
  r ← (dbs S).[i];
  if dictSize (watched_keys r) =? 0 then Some S else
  '(S, di) ← touch_all_loop (Datatypes.S (Z.to_nat (dictSize (watched_keys r)))) S i dictGetSafeIterator;
  r ← (dbs S).[i];
  d ← dictReleaseIterator 0 0 (watched_keys r) di;
  Some (put_db S i (mk_rdb (rd r) d)).

(** ** Commands *)

Definition discardTransaction S c : option (server V) :=
  cl ← clients S !! c;
  unwatchAllKeys (set_client S c (mk_client false false false initClientMultiState (c_watched cl) (c_db cl))) c.

Definition multiCommand S c : option (server V * mreply V) :=
  cl ← clients S !! c;
  if c_multi cl then Some (S, MError)
  else Some (set_client S c (mk_client true (c_dirty_cas cl) (c_dirty_exec cl) (c_mstate cl) (c_watched cl) (c_db cl)), MOk).

Definition discardCommand S c : option (server V * mreply V) :=
  cl ← clients S !! c;
  if negb (c_multi cl) then Some (S, MError) else
  S ← discardTransaction S c; Some (S, MOk).

Fixpoint watch_loop S c (keys : list bytes) : option (server V) :=
  match keys with [] => Some S | key :: keys => S ← watchForKey S c key; watch_loop S c keys end.

Definition watchCommand S c (keys : list bytes) : option (server V * mreply V) :=
  cl ← clients S !! c;
  if c_multi cl then Some (S, MError) else
  S ← watch_loop S c keys; Some (S, MOk).

Definition unwatchCommand S c : option (server V * mreply V) :=
  S ← unwatchAllKeys S c;
  cl ← clients S !! c;
  Some (set_client S c (mk_client (c_multi cl) false (c_dirty_exec cl) (c_mstate cl) (c_watched cl) (c_db cl)), MOk).

Definition selectDb S c (id : Z) : option (server V * mreply V) :=
  cl ← clients S !! c;
  if (id <? 0) || (id >=? zlen (dbs S)) then Some (S, MError)
  else Some (set_client S c (mk_client (c_multi cl) (c_dirty_cas cl) (c_dirty_exec cl) (c_mstate cl) (c_watched cl) id), MOk).

(** [startdb] to [enddb]: one database, or all of them for -1. *)
Definition db_range S (dbid : Z) : list Z := if dbid =? -1 then seqZ 0 (zlen (dbs S)) else [dbid].

Fixpoint flushed_loop S (js : list Z) : option (server V) :=
  match js with [] => Some S | j :: js => S ← touchAllWatchedKeysInDb S j; flushed_loop S js end.
Definition signalFlushedDb S (dbid : Z) : option (server V) := flushed_loop S (db_range S dbid).

(** The old dictionaries are left to another thread. *)
Definition emptyDbAsync (s : state V) : state V := mk_state dictCreate dictCreate (st_stats s).

Fixpoint empty_db_loop S (async : bool) (js : list Z) (removed : Z) : option (server V * Z) :=
  match js with
  | [] => Some (S, removed)
  | j :: js =>
      r ← (dbs S).[j];
      let removed := removed + dictSize (db_dict (rd r)) in
      data ← (if async then Some (emptyDbAsync (rd r))
              else d ← dictEmpty (db_dict (rd r)); e ← dictEmpty (db_expires (rd r)); Some (mk_state d e (st_stats (rd r))));
      empty_db_loop (put_db S j (mk_rdb data (watched_keys r))) async js removed
  end.
Definition emptyDbStructure S (dbnum : Z) (async : bool) : option (server V * Z) := empty_db_loop S async (db_range S dbnum) 0.

Definition emptyDb S (dbnum : Z) (async : bool) : option (server V * Z) :=
  if (dbnum <? -1) || (dbnum >=? zlen (dbs S)) then Some (S, -1) else
  S ← signalFlushedDb S dbnum; emptyDbStructure S dbnum async.

Definition flushdbCommand S c (async : bool) : option (server V * mreply V) :=
  cl ← clients S !! c; '(S, _) ← emptyDb S (c_db cl) async; Some (S, MOk).
Definition flushallCommand S (async : bool) : option (server V * mreply V) :=
  '(S, _) ← emptyDb S (-1) async; Some (S, MOk).

(** The signals of a command. *)
Fixpoint deliver S (i : Z) (evs : list event) : option (server V) :=
  match evs with
  | [] => Some S
  | Modified key :: evs => S ← touchWatchedKey S i key; deliver S i evs
  | _ :: evs => deliver S i evs
  end.

Definition clear_events (s : state V) : state V :=
  let t := st_stats s in
  mk_state (db_dict s) (db_expires s) (mk_stats (stat_expiredkeys t) (stat_hits t) (stat_misses t) (dirty t) []).

(** [c->cmd->proc(c)]. The keys a command signals reach [touchWatchedKey] after it, in order: marking a client sets a flag
    that no command of a database reads. *)
Definition call (cfg : config) S c (q : queued V) : option (server V * mreply V) :=
  cl ← clients S !! c;
  match q with
  | QSelect id => selectDb S c id
  | QUnwatch => unwatchCommand S c
  | QFlushDb async => flushdbCommand S c async
  | QFlushAll async => flushallCommand S async
  | QCmd cmd =>
      r ← (dbs S).[c_db cl];
      '(s, rep) ← run_command cfg cmd (clear_events (rd r));
      S ← deliver (put_db S (c_db cl) (mk_rdb s (watched_keys r))) (c_db cl) (events (st_stats s));
      Some (S, MReply rep)
  end.

(** The queued commands; every one runs at its own time. *)
Fixpoint exec_loop (cfgs : nat -> config) S c (j : nat) (qs : list (queued V)) : option (server V * list (mreply V)) :=
  match qs with
  | [] => Some (S, [])
  | q :: qs =>
      '(S, rep) ← (if acl_ok q then call (cfgs j) S c q else Some (S, MError));
      '(S, reps) ← exec_loop cfgs S c (Datatypes.S j) qs;
      Some (S, rep :: reps)
  end.

Definition execCommand (cfgs : nat -> config) S c : option (server V * mreply V) :=
  cl ← clients S !! c;
  if negb (c_multi cl) then Some (S, MError) else
  if c_dirty_cas cl || c_dirty_exec cl then
    S ← discardTransaction S c; Some (S, if c_dirty_exec cl then MExecAbort else MNullArray)
  else
    S ← unwatchAllKeys S c;
    '(S, reps) ← exec_loop cfgs S c 0 (commands (c_mstate cl));
    S ← discardTransaction S c;
    Some (S, MArray reps).

(** A request that processCommand turns down. *)
Definition rejectCommand S c (r : request V) : option (server V * mreply V) :=
  S ← flagTransaction S c;
  match r with
  | ReqExec => S ← discardTransaction S c; Some (S, MExecAbort)
  | _ => Some (S, MError)
  end.

(** From the end of the checks on, or [rejectCommand]. *)
Definition processCommand (cfgs : nat -> config) (rejected : bool) S c (r : request V) : option (server V * mreply V) :=
  if rejected then rejectCommand S c r else
  cl ← clients S !! c;
  match r with
  | ReqMulti => multiCommand S c
  | ReqExec => execCommand cfgs S c
  | ReqDiscard => discardCommand S c
  | ReqWatch keys => watchCommand S c keys
  | ReqCommand q => if c_multi cl then S ← queueMultiCommand S c q; Some (S, MQueued) else call (cfgs O) S c q
  end.

(** A connection is accepted or closed. *)
Definition createClient S c : option (server V) :=
  if is_some (clients S !! c) then None else Some (set_client S c (mk_client false false false initClientMultiState [] 0)).
Definition freeClient S c : option (server V) :=
  S ← unwatchAllKeys S c; Some (mk_server (dbs S) (delete c (clients S))).

End Ops.

(** ** The watched keys and the clients agree *)

Section Spec.
Context {V : Type} `{DictType bytes} (can_resize : bool) (flags_of : queued V -> Z) (acl_ok : queued V -> bool).
Implicit Types (S : server V) (c : positive) (cl : client V) (k : bytes) (i : Z) (W : gmap bytes (list positive)) (m : gmap bytes (V * option Z))
  (C : gmap positive (client V)).

(** The value and the expire time of a key. *)
Definition stored S i k : option (V * option Z) :=
  r ← (dbs S).[i];
  v ← to_map (db_dict (rd r)) !! k;
  Some (v, to_map (db_expires (rd r)) !! k).

Definition watchers C i W : Prop := forall k,
  NoDup (default [] (W !! k)) /\ W !! k <> Some [] /\
  forall c, c ∈ default [] (W !! k) <-> exists cl, C !! c = Some cl /\ (i, k) ∈ c_watched cl.

(** A database with room for [n] more keys. *)
Definition db_ok (n : Z) C i (r : redisDb V) : Prop := exists m W,
  db_repr (rd r) m /\ dict_repr (watched_keys r) W /\ watchers C i W /\
  Z.of_nat (base.size m) + n + 2 < DICT_BOUND /\ Z.of_nat (base.size W) + n + 2 < DICT_BOUND.

Definition client_ok (dbnum : Z) cl : Prop :=
  NoDup (c_watched cl) /\ 0 <= c_db cl < dbnum /\ Forall (fun wk => 0 <= wk.1 < dbnum) (c_watched cl).

Record server_ok (n : Z) S : Prop := {
  so_room : 0 <= n;
  so_dbs : forall i r, (dbs S).[i] = Some r -> db_ok n (clients S) i r;
  so_clients : map_Forall (fun _ cl => client_ok (zlen (dbs S)) cl) (clients S)
}.

Lemma server_ok_le n n' S : server_ok n S -> 0 <= n' <= n -> server_ok n' S.
Proof.
  intros [H1 H2 H3] Hn. split; [lia| |done]. intros i r Hr. destruct (H2 i r Hr) as (m & W & Hm & HW & Hc & Hz1 & Hz2). exists m, W. split_and!; try done; lia.
Qed.

Lemma stored_repr S i r k m : (dbs S).[i] = Some r -> db_repr (rd r) m -> stored S i k = m !! k.
Proof.
  intros Hr [[_ E1] [_ E2] _ _]. unfold stored. rewrite Hr. cbn [mbind option_bind]. rewrite E1, E2, lookup_fmap, lookup_omap.
  by destruct (m !! k) as [[v o]|].
Qed.

Lemma db_some n S i r : server_ok n S -> (dbs S).[i] = Some r -> 0 <= i < zlen (dbs S).
Proof. intros _ Hr. unfold znth in Hr. destruct (Z.leb_spec 0 i); [|done]. apply lookup_lt_Some in Hr. unfold zlen. lia. Qed.

Lemma db_lookup S i : 0 <= i < zlen (dbs S) -> exists r, (dbs S).[i] = Some r.
Proof. intros Hi. apply znth_is_Some. lia. Qed.

(** Replacing a database. *)
Lemma put_lookup S i r j : 0 <= i < zlen (dbs S) -> (dbs (put_db S i r)).[j] = if decide (j = i) then Some r else (dbs S).[j].
Proof.
  intros Hi. unfold put_db, znth. cbn. destruct (decide (j = i)) as [->|].
  - destruct (Z.leb_spec 0 i); [|lia]. apply list_lookup_insert_eq. unfold zlen in Hi. lia.
  - destruct (Z.leb_spec 0 j); [|done]. apply list_lookup_insert_ne. lia.
Qed.

Lemma put_len S i r : zlen (dbs (put_db S i r)) = zlen (dbs S).
Proof. unfold zlen, put_db. cbn. by rewrite length_insert. Qed.

Lemma put_same S i r : (dbs S).[i] = Some r -> put_db S i r = S.
Proof.
  intros Hr. destruct S as [ds cs]. unfold put_db. cbn in *. f_equal. unfold znth in Hr. destruct (0 <=? i); [|done]. by apply list_insert_id.
Qed.

(** The data is the same. *)
Definition same_data S S' : Prop := zlen (dbs S') = zlen (dbs S) /\ forall i k, stored S' i k = stored S i k.

Lemma same_refl S : same_data S S.
Proof. done. Qed.
Lemma same_trans S S1 S2 : same_data S S1 -> same_data S1 S2 -> same_data S S2.
Proof. intros [E1 H1] [E2 H2]. split; [congruence|]. intros i k. by rewrite H2, H1. Qed.

Lemma same_put S i r d : (dbs S).[i] = Some r -> same_data S (put_db S i (mk_rdb (rd r) d)).
Proof.
  intros Hr. split; [apply put_len|]. intros j k. unfold stored.
  assert (0 <= i < zlen (dbs S)) by (unfold znth in Hr; destruct (Z.leb_spec 0 i); [|done]; apply lookup_lt_Some in Hr; unfold zlen; lia).
  rewrite put_lookup by done. destruct (decide (j = i)) as [->|]; [by rewrite Hr|done].
Qed.

Lemma same_clients S S' : dbs S' = dbs S -> same_data S S'.
Proof. intros E. unfold same_data, stored. by rewrite E. Qed.

(** ** Marking *)

Definition set_dirty cl : client V := mk_client (c_multi cl) true (c_dirty_exec cl) (c_mstate cl) (c_watched cl) (c_db cl).
Definition marked (P : Z * bytes -> bool) cl : client V := if existsb P (c_watched cl) then set_dirty cl else cl.

Lemma marked_watched P cl : c_watched (marked P cl) = c_watched cl.
Proof. unfold marked. by destruct (existsb _ _). Qed.

Lemma marked_marked P Q cl : marked P (marked Q cl) = marked (fun wk => P wk || Q wk) cl.
Proof.
  unfold marked at 1. rewrite marked_watched. unfold marked.
  assert (existsb (fun wk => P wk || Q wk) (c_watched cl) = existsb P (c_watched cl) || existsb Q (c_watched cl)) as ->.
  { induction (c_watched cl) as [|x l IH]; [done|]. cbn. rewrite IH. by destruct (P x), (Q x), (existsb P l). }
  by destruct (existsb P _), (existsb Q _).
Qed.

Lemma marked_none P cl : (forall wk, P wk = false) -> marked P cl = cl.
Proof. intros HP. unfold marked. assert (existsb P (c_watched cl) = false) as ->; [|done]. induction (c_watched cl) as [|x l IH]; [done|]. cbn. by rewrite HP, IH. Qed.

(** Clients that watch the same keys. *)
Definition alike C C' : Prop := forall c, (fun cl => (c_watched cl, c_db cl)) <$> C' !! c = (fun cl => (c_watched cl, c_db cl)) <$> C !! c.

Lemma alike_watchers C C' i W : alike C C' -> watchers C i W -> watchers C' i W.
Proof.
  intros Ha Hw k. destruct (Hw k) as (H1 & H2 & H3). split_and!; [done|done|]. intros c. rewrite H3. specialize (Ha c).
  destruct (C !! c) as [cl|], (C' !! c) as [cl'|]; try done. cbn in Ha. injection Ha as E1 E2.
  split; intros (cl0 & [= <-] & Hin); eexists; (split; [done|]); congruence.
Qed.

Lemma alike_db n C C' i r : alike C C' -> db_ok n C i r -> db_ok n C' i r.
Proof. intros Ha (m & W & Hm & HW & Hc & Hz). exists m, W. split_and!; try done; [by eapply alike_watchers|lia..]. Qed.

Lemma alike_ok n S S' : server_ok n S -> dbs S' = dbs S -> alike (clients S) (clients S') -> server_ok n S'.
Proof.
  intros [H1 H2 H3] E Ha. split; [done| |].
  - intros i r. rewrite E. intros Hr. eapply alike_db; eauto.
  - intros c cl Hc. specialize (Ha c). rewrite Hc in Ha. cbn in Ha. destruct (clients S !! c) as [cl0|] eqn:E0; [|done]. injection Ha as Ew Ed.
    specialize (H3 c cl0 E0). unfold client_ok in *. by rewrite E, Ew, Ed.
Qed.

Lemma alike_marked C P : alike C (marked P <$> C).
Proof. intros c. rewrite lookup_fmap. destruct (C !! c) as [cl|]; [|done]. cbn. unfold marked. by destruct (existsb _ _). Qed.

(** ** Operations *)

Lemma fetch_repr d W k : dict_repr d W -> fits W -> exists d', dictFetchValue d k = Some (d', W !! k) /\ dict_repr d' W.
Proof.
  intros Hd Hf. unfold dictFetchValue. destruct (repr_find d W k Hd Hf) as (d' & -> & Hd'). cbn [mbind option_bind]. exists d'. split; [|done].
  by destruct (W !! k).
Qed.

Lemma mark_dirty_spec cs : forall S, (forall c, c ∈ cs -> is_Some (clients S !! c)) ->
  exists S', mark_dirty S cs = Some S' /\ dbs S' = dbs S /\ forall c, clients S' !! c = (if decide (c ∈ cs) then set_dirty else id) <$> clients S !! c.
Proof.
  induction cs as [|c cs IH]; intros S Hcs; cbn [mark_dirty].
  - exists S. split_and!; try done. intros c. rewrite decide_False by set_solver. by destruct (clients S !! c).
  - destruct (Hcs c) as [cl Hc]; [set_solver|]. rewrite Hc. cbn [mbind option_bind]. fold (set_dirty cl).
    destruct (IH (set_client S c (set_dirty cl))) as (S' & -> & Ed & Ec).
    { intros c' Hc'. cbn. destruct (decide (c' = c)) as [->|]; [rewrite lookup_insert_eq; eauto|rewrite lookup_insert_ne by done; apply Hcs; set_solver]. }
    exists S'. split_and!; try done. intros c'. rewrite Ec. cbn [set_client clients]. destruct (decide (c' = c)) as [->|].
    + rewrite lookup_insert_eq, Hc, (decide_True (P := c ∈ c :: cs)) by set_solver. by destruct (decide (c ∈ cs)).
    + rewrite lookup_insert_ne by done. destruct (decide (c' ∈ cs)); [by rewrite decide_True by set_solver|by rewrite decide_False by set_solver].
Qed.

(** Marking the watchers of a key. *)
Lemma mark_watchers S i k W S' : watchers (clients S) i W ->
  (forall c, clients S' !! c = (if decide (c ∈ default [] (W !! k)) then set_dirty else id) <$> clients S !! c) ->
  clients S' = marked (fun wk => bool_decide (wk = (i, k))) <$> clients S.
Proof.
  intros Hw Hc. apply map_eq. intros c. rewrite Hc, lookup_fmap. destruct (clients S !! c) as [cl|] eqn:E; [|done]. cbn. f_equal. unfold marked.
  assert (c ∈ default [] (W !! k) <-> existsb (fun wk => bool_decide (wk = (i, k))) (c_watched cl) = true) as Hiff.
  { destruct (Hw k) as (_ & _ & Hin). rewrite Hin, existsb_exists. split.
    - intros (cl' & E' & Hk). exists (i, k). rewrite E in E'. injection E' as <-. split; [by apply list_elem_of_In|by apply bool_decide_eq_true].
    - intros (wk & Hk & ->%bool_decide_eq_true). exists cl. split; [done|by apply list_elem_of_In]. }
  destruct (decide _) as [Hd|Hd]; [by rewrite (proj1 Hiff Hd)|]. destruct (existsb _ _); [by destruct Hd; apply Hiff|done].
Qed.

Lemma touch_spec n S i k : server_ok n S -> 0 <= i < zlen (dbs S) ->
  exists S', touchWatchedKey S i k = Some S' /\ server_ok n S' /\ same_data S S' /\
    clients S' = marked (fun wk => bool_decide (wk = (i, k))) <$> clients S.
Proof.
  intros Hok Hi. destruct (db_lookup S i Hi) as [r Hr]. unfold touchWatchedKey. rewrite Hr. cbn [mbind option_bind].
  destruct (so_dbs _ _ Hok i r Hr) as (m & W & Hm & HW & Hw & Hz1 & Hz2). pose proof (so_room _ _ Hok) as Hn. assert (fits W) as Hf by (unfold fits; lia).
  assert (forall k', W !! k' = None -> forall cl c, clients S !! c = Some cl -> (i, k') ∉ c_watched cl) as Hnone.
  { intros k' E cl c Hc Hin. destruct (Hw k') as (_ & _ & Hiff). rewrite E in Hiff. cbn in Hiff. apply (not_elem_of_nil c), Hiff. by exists cl. }
  assert (W !! k = None -> marked (fun wk => bool_decide (wk = (i, k))) <$> clients S = clients S) as Hid.
  { intros E. apply map_eq. intros c. rewrite lookup_fmap. destruct (clients S !! c) as [cl|] eqn:Ec; [|done]. cbn. f_equal. unfold marked.
    destruct (existsb _ _) eqn:Ex; [|done]. apply existsb_exists in Ex as (wk & Hin & ->%bool_decide_eq_true). exfalso.
    apply (Hnone k E cl c Ec). by apply list_elem_of_In. }
  destruct (Z.eqb_spec (dictSize (watched_keys r)) 0) as [E0|_].
  { exists S. split_and!; try done. rewrite Hid; [done|]. pose proof (repr_bound _ _ HW Hf) as Hb. destruct HW as [Hwf HW].
    destruct (size_entries (watched_keys r) Hwf) as [E1 _]; [lia|]. rewrite E1 in E0. pose proof (repr_entries (watched_keys r) W (conj Hwf HW)).
    assert (base.size W = O) as Hs by lia. apply map_size_empty_inv in Hs. by rewrite Hs. }
  destruct (fetch_repr _ W k HW Hf) as (d & -> & HW'). cbn [mbind option_bind]. set (S1 := put_db S i (mk_rdb (rd r) d)).
  assert (server_ok n S1) as Hok1.
  { split; [done| |].
    - intros j r'. unfold S1. rewrite put_lookup by done. destruct (decide (j = i)) as [->|]; [|apply (so_dbs _ _ Hok)].
      intros [= <-]. exists m, W. done.
    - unfold S1. rewrite put_len. apply (so_clients _ _ Hok). }
  pose proof (same_put S i r d Hr) as Hsame. fold S1 in Hsame. destruct (W !! k) as [cs|] eqn:Ek.
  2:{ exists S1. split_and!; try done. by rewrite Hid. }
  destruct (mark_dirty_spec cs S1) as (S' & -> & Ed & Ec).
  { intros c Hc. destruct (Hw k) as (_ & _ & Hiff). rewrite Ek in Hiff. apply Hiff in Hc as (cl & Hcl & _). by exists cl. }
  assert (clients S' = marked (fun wk => bool_decide (wk = (i, k))) <$> clients S1) as Em.
  { apply (mark_watchers S1 i k W S' Hw). intros c. rewrite Ec, Ek. done. }
  exists S'. split_and!; [done| |eapply same_trans; [exact Hsame|by apply same_clients]|done].
  apply (alike_ok n S1); [done|done|]. rewrite Em. apply alike_marked.
Qed.

(** The keys a list of events signals in database [i]. *)
Definition signalled i (evs : list event) (wk : Z * bytes) : bool :=
  bool_decide (wk.1 = i) && existsb (fun e => match e with Modified k => bool_decide (k = wk.2) | _ => false end) evs.

Lemma marked_ext P Q cl : (forall wk, P wk = Q wk) -> marked P cl = marked Q cl.
Proof.
  intros HPQ. unfold marked. assert (existsb P (c_watched cl) = existsb Q (c_watched cl)) as ->; [|done].
  induction (c_watched cl) as [|x l IH]; [done|]. cbn. by rewrite HPQ, IH.
Qed.

Lemma deliver_spec n i evs : forall S, server_ok n S -> 0 <= i < zlen (dbs S) ->
  exists S', deliver S i evs = Some S' /\ server_ok n S' /\ same_data S S' /\ clients S' = marked (signalled i evs) <$> clients S.
Proof.
  induction evs as [|e evs IH]; intros S Hok Hi; cbn [deliver].
  - exists S. split_and!; try done. rewrite <- (map_fmap_id (clients S)) at 1. apply map_fmap_ext. intros c cl _. rewrite marked_none; [done|].
    intros wk. unfold signalled. cbn. by rewrite andb_false_r.
  - assert (forall S', (forall k, e <> Modified k) -> clients S' = marked (signalled i evs) <$> clients S -> clients S' = marked (signalled i (e :: evs)) <$> clients S) as Hskip.
    { intros S' He ->. apply map_fmap_ext. intros c cl _. apply marked_ext. intros wk. unfold signalled. f_equal. cbn. destruct e as [| |k]; [done..|]. by destruct (He k). }
    destruct e as [lz k|nm k|k]; [destruct (IH S Hok Hi) as (S' & -> & Hok' & Hs & Hc); exists S'; split_and!; try done; by apply Hskip..|].
    destruct (touch_spec n S i k Hok Hi) as (S1 & -> & Hok1 & Hs1 & Hc1). cbn [mbind option_bind].
    destruct (IH S1 Hok1) as (S' & -> & Hok' & Hs' & Hc'); [by rewrite (proj1 Hs1)|]. exists S'. split_and!; try done; [by eapply same_trans|].
    rewrite Hc', Hc1, <- map_fmap_compose. apply map_fmap_ext. intros c cl _. cbn. rewrite marked_marked. apply marked_ext. intros [j k'].
    unfold signalled. cbn. destruct (decide (j = i)) as [->|Hj]; [|rewrite (bool_decide_eq_false_2 (j = i)), (bool_decide_eq_false_2 ((j, k') = (i, k))) by congruence; done].
    rewrite (bool_decide_eq_true_2 (i = i)) by done. cbn. rewrite orb_comm. f_equal. apply bool_decide_ext. naive_solver.
Qed.

(** ** Changing what one client watches *)

Definition with_watched (wks : list (Z * bytes)) cl : client V :=
  mk_client (c_multi cl) (c_dirty_cas cl) (c_dirty_exec cl) (c_mstate cl) wks (c_db cl).

Lemma watchers_other C c cl cl' i W : C !! c = Some cl -> (forall k, (i, k) ∈ c_watched cl' <-> (i, k) ∈ c_watched cl) ->
  watchers C i W -> watchers (<[c := cl']> C) i W.
Proof.
  intros Hc Hk Hw k. destruct (Hw k) as (H1 & H2 & H3). split_and!; [done|done|]. intros c'. rewrite H3.
  destruct (decide (c' = c)) as [->|]; [rewrite lookup_insert_eq|by rewrite lookup_insert_ne].
  rewrite Hc. split; intros (cl0 & [= <-] & Hin); eexists; (split; [done|]); by apply Hk.
Qed.

Definition store_list k (cs : list positive) W : gmap bytes (list positive) := match cs with [] => delete k W | _ => <[k := cs]> W end.

Lemma watchers_key C c cl cl' i k W cs : C !! c = Some cl -> (forall k', k' <> k -> (i, k') ∈ c_watched cl' <-> (i, k') ∈ c_watched cl) ->
  watchers C i W -> NoDup cs -> (forall c', c' ∈ cs <-> (c' <> c /\ c' ∈ default [] (W !! k)) \/ (c' = c /\ (i, k) ∈ c_watched cl')) ->
  watchers (<[c := cl']> C) i (store_list k cs W).
Proof.
  intros Hc Hother Hw Hn Hcs k'. destruct (Hw k') as (H1 & H2 & H3).
  destruct (decide (k' = k)) as [->|Hk].
  - assert (default [] (store_list k cs W !! k) = cs /\ store_list k cs W !! k <> Some []) as [-> Hne].
    { unfold store_list. destruct cs; [by rewrite lookup_delete_eq|by rewrite lookup_insert_eq]. }
    split_and!; [done|done|]. intros c'. rewrite Hcs, H3. destruct (decide (c' = c)) as [->|Hne'].
    + rewrite lookup_insert_eq. naive_solver.
    + rewrite lookup_insert_ne by done. naive_solver.
  - assert (store_list k cs W !! k' = W !! k') as -> by (unfold store_list; destruct cs; [by rewrite lookup_delete_ne|by rewrite lookup_insert_ne]).
    split_and!; [done|done|]. intros c'. rewrite H3. destruct (decide (c' = c)) as [->|]; [rewrite lookup_insert_eq|by rewrite lookup_insert_ne].
    rewrite Hc. split; intros (cl0 & [= <-] & Hin); eexists; (split; [done|]); by apply Hother.
Qed.

Lemma store_list_size k cs W : (base.size (store_list k cs W) <= base.size W + 1)%nat.
Proof.
  unfold store_list. destruct cs; [pose proof (map_subseteq_size _ _ (delete_subseteq W k)); lia|]. rewrite map_size_insert. destruct (W !! k); unfold id; lia.
Qed.

(** A new list of watchers for one key, with the client that changed. *)
Lemma update_ok n n' S c cl cl' i k r d W cs : server_ok n S -> clients S !! c = Some cl -> (dbs S).[i] = Some r ->
  (forall j k', (j, k') <> (i, k) -> (j, k') ∈ c_watched cl' <-> (j, k') ∈ c_watched cl) -> client_ok (zlen (dbs S)) cl' ->
  dict_repr (watched_keys r) W -> watchers (clients S) i W -> dict_repr d (store_list k cs W) -> NoDup cs ->
  (forall c', c' ∈ cs <-> (c' <> c /\ c' ∈ default [] (W !! k)) \/ (c' = c /\ (i, k) ∈ c_watched cl')) ->
  0 <= n' <= n -> Z.of_nat (base.size (store_list k cs W)) + n' + 2 < DICT_BOUND ->
  server_ok n' (set_client (put_db S i (mk_rdb (rd r) d)) c cl').
Proof.
  intros Hok Hc Hr Hk Hcl HW Hw Hd Hn Hcs Hn' Hz. pose proof (db_some n S i r Hok Hr) as Hi. split; [lia| |].
  - intros j r'. cbn [set_client dbs clients]. change (<[Z.to_nat i := mk_rdb (rd r) d]> (dbs S)) with (dbs (put_db S i (mk_rdb (rd r) d))).
    rewrite put_lookup by done. destruct (decide (j = i)) as [->|Hj].
    + intros [= <-]. destruct (so_dbs _ _ Hok i r Hr) as (m & W0 & Hm & HW0 & Hw0 & Hz1 & Hz2). exists m, (store_list k cs W). split_and!; try done; [|lia].
      eapply watchers_key; try done. intros k' Hk'. apply Hk. congruence.
    + intros Hr'. destruct (so_dbs _ _ Hok j r' Hr') as (m & W0 & Hm & HW0 & Hw0 & Hz1 & Hz2). exists m, W0. split_and!; try done; [|lia..].
      eapply watchers_other; try done. intros k'. apply Hk. congruence.
  - cbn [set_client put_db clients dbs]. change (<[Z.to_nat i := mk_rdb (rd r) d]> (dbs S)) with (dbs (put_db S i (mk_rdb (rd r) d))). rewrite put_len.
    apply map_Forall_insert_2; [done|]. apply (so_clients _ _ Hok).
Qed.

Lemma watch_spec n S c cl k : server_ok (n + 1) S -> 0 <= n -> clients S !! c = Some cl ->
  exists S' wks, watchForKey can_resize S c k = Some S' /\ server_ok n S' /\ same_data S S' /\
    clients S' = <[c := with_watched wks cl]> (clients S) /\ (c_db cl, k) ∈ wks /\ (forall wk, wk ∈ c_watched cl -> wk ∈ wks).
Proof.
  intros Hok Hn Hc. pose proof (so_clients _ _ Hok c cl Hc) as (Hnd & Hdb & Hall). unfold watchForKey. rewrite Hc. cbn [mbind option_bind].
  destruct (existsb _ _) eqn:Ex.
  { apply existsb_exists in Ex as ([j k'] & Hin & [E1%bool_decide_eq_true E2%bool_decide_eq_true]%andb_prop). apply list_elem_of_In in Hin. cbn in E1, E2. subst j k'.
    exists S, (c_watched cl). split_and!; try done; [by apply (server_ok_le (n + 1)); [|lia]|]. rewrite insert_id; [done|]. rewrite Hc. by destruct cl. }
  assert ((c_db cl, k) ∉ c_watched cl) as Hnew.
  { intros Hin. assert (existsb (fun wk => bool_decide (wk.1 = c_db cl) && bool_decide (k = wk.2)) (c_watched cl) = true) as E; [|congruence].
    apply existsb_exists. exists (c_db cl, k). split; [by apply list_elem_of_In|]. cbn. by rewrite !bool_decide_eq_true_2. }
  destruct (db_lookup S _ Hdb) as [r Hr]. rewrite Hr. cbn [mbind option_bind]. destruct (so_dbs _ _ Hok _ r Hr) as (m & W & Hm & HW & Hw & Hz1 & Hz2).
  assert (fits W) as Hf by (unfold fits; lia). destruct (fetch_repr _ W k HW Hf) as (d & -> & Hd). cbn [mbind option_bind]. set (cs := default [] (W !! k)).
  assert (exists d1, match W !! k with Some cs => Some (d, cs) | None => '(d, _) ← dictAdd can_resize d k []; Some (d, []) end = Some (d1, cs) /\
    dict_repr d1 (<[k := cs]> W)) as (d1 & -> & Hd1).
  { unfold cs. destruct (W !! k) as [cs0|] eqn:Ek; [exists d; split; [done|]; by rewrite insert_id|].
    destruct (repr_add can_resize d W k [] Hd Hf Ek) as (d1 & -> & Hd1). by exists d1. }
  cbn [mbind option_bind]. destruct (repr_set d1 _ k cs (cs ++ [c]) Hd1) as (d2 & -> & Hd2); [by rewrite lookup_insert_eq|].
  cbn [mbind option_bind]. eexists _, (c_watched cl ++ [(c_db cl, k)]). split; [done|]. rewrite insert_insert_eq in Hd2.
  assert (dict_repr d2 (store_list k (cs ++ [c]) W)) as Hd2' by (unfold store_list; by destruct cs).
  destruct (Hw k) as (Hcs1 & _ & Hcs2). fold cs in Hcs1, Hcs2. assert (c ∉ cs) as Hcn by (rewrite Hcs2; rewrite Hc; naive_solver).
  split_and!; [| |done|set_solver..].
  - pose proof (store_list_size k (cs ++ [c]) W). eapply (update_ok (n + 1) n S c cl); try done; [| | | |lia|lia].
    + intros j k' Hne. cbn. rewrite elem_of_app, list_elem_of_singleton. naive_solver.
    + split; [|split; [exact Hdb|]]; cbn; [apply NoDup_app; split_and!; [done|set_solver|apply NoDup_singleton]|]. apply Forall_app. split; [done|]. by constructor.
    + apply NoDup_app. split_and!; [done|set_solver|apply NoDup_singleton].
    + intros c'. cbn. rewrite elem_of_app, !list_elem_of_singleton. fold cs. destruct (decide (c' = c)) as [->|]; set_solver.
  - eapply same_trans; [by apply (same_put S (c_db cl) r d2)|by apply same_clients].
Qed.

Lemma del_client_spec c cs : c ∈ cs -> NoDup cs -> exists cs', del_client c cs = Some cs' /\ NoDup cs' /\ forall c', c' ∈ cs' <-> c' ∈ cs /\ c' <> c.
Proof.
  induction cs as [|a cs IH]; intros Hin Hnd; [by apply elem_of_nil in Hin|]. apply NoDup_cons in Hnd as [Ha Hnd]. cbn [del_client].
  case_bool_decide as Hac; [subst a; exists cs; split_and!; try done; set_solver|].
  destruct IH as (cs' & -> & Hn' & Hm); [set_solver|done|]. cbn [mbind option_bind]. exists (a :: cs'). split_and!; [done|apply NoDup_cons; set_solver|set_solver].
Qed.

Lemma unwatch_loop_spec n c wks : forall S cl, server_ok n S -> clients S !! c = Some cl -> c_watched cl = wks ->
  exists S', unwatch_loop S c wks = Some S' /\ server_ok n S' /\ same_data S S' /\ clients S' = <[c := with_watched [] cl]> (clients S).
Proof.
  induction wks as [|[i k] wks IH]; intros S cl Hok Hc Hwk; cbn [unwatch_loop].
  { exists S. split_and!; try done. rewrite insert_id; [done|]. rewrite Hc. destruct cl. cbn in *. by subst. }
  pose proof (so_clients _ _ Hok c cl Hc) as (Hnd & Hdb & Hall). rewrite Hwk in Hnd, Hall. apply NoDup_cons in Hnd as [Hk Hnd]. apply Forall_cons in Hall as [Hi Hall].
  destruct (db_lookup S i Hi) as [r Hr]. rewrite Hr. cbn [mbind option_bind]. destruct (so_dbs _ _ Hok _ r Hr) as (m & W & Hm & HW & Hw & Hz1 & Hz2).
  pose proof (so_room _ _ Hok) as Hn. assert (fits W) as Hf by (unfold fits; lia). destruct (fetch_repr _ W k HW Hf) as (d & -> & Hd). cbn [mbind option_bind].
  destruct (Hw k) as (Hcs1 & _ & Hcs2). assert (c ∈ default [] (W !! k)) as Hin by (apply Hcs2; exists cl; split; [done|rewrite Hwk; left]).
  destruct (W !! k) as [cs|] eqn:Ek; [|by apply elem_of_nil in Hin]. cbn [mbind option_bind default from_option id] in *.
  destruct (del_client_spec c cs Hin Hcs1) as (cs' & -> & Hn' & Hcs'). cbn [mbind option_bind].
  destruct (repr_set d W k cs cs' Hd Ek) as (d1 & -> & Hd1). cbn [mbind option_bind].
  assert (exists d2, (if zlen cs' =? 0 then '(d, _) ← dictDelete d1 k; Some d else Some d1) = Some d2 /\ dict_repr d2 (store_list k cs' W)) as (d2 & -> & Hd2).
  { unfold store_list. destruct cs' as [|a cs']; [|exists d1; split; [|done]; rewrite zlen_cons; pose proof (zlen_nonneg cs'); by zbool].
    rewrite zlen_nil. cbn [Z.eqb]. destruct (repr_delete d1 _ k Hd1) as (d2 & b & -> & Hd2); [unfold fits in *; rewrite map_size_insert, Ek; done|].
    exists d2. split; [done|]. by rewrite delete_insert_eq in Hd2. }
  cbn [mbind option_bind]. rewrite Hc. cbn [mbind option_bind]. fold (with_watched wks cl).
  set (S1 := set_client (put_db S i (mk_rdb (rd r) d2)) c (with_watched wks cl)).
  assert (server_ok n S1) as Hok1.
  { assert (base.size (store_list k cs' W) <= base.size W)%nat as Hsz.
    { unfold store_list. destruct cs'; [by apply map_subseteq_size, delete_subseteq|]. rewrite map_size_insert, Ek. done. }
    eapply (update_ok n n S c cl); try done; [| |lia..].
    - intros j k' Hne. cbn. rewrite Hwk. set_solver.
    - intros c'. rewrite Hcs', Ek. cbn. naive_solver. }
  destruct (IH S1 (with_watched wks cl) Hok1) as (S' & -> & Hok' & Hs' & Hc'); [by cbn; rewrite lookup_insert_eq|done|].
  exists S'. split_and!; [done|done| |].
  - eapply same_trans; [|exact Hs']. eapply same_trans; [by apply (same_put S i r d2)|by apply same_clients].
  - rewrite Hc'. unfold S1. cbn. by rewrite insert_insert_eq.
Qed.

Lemma unwatch_spec n S c cl : server_ok n S -> clients S !! c = Some cl ->
  exists S', unwatchAllKeys S c = Some S' /\ server_ok n S' /\ same_data S S' /\ clients S' = <[c := with_watched [] cl]> (clients S).
Proof.
  intros Hok Hc. unfold unwatchAllKeys. rewrite Hc. cbn [mbind option_bind]. destruct (Z.eqb_spec (zlen (c_watched cl)) 0) as [E|_]; [|by apply unwatch_loop_spec].
  exists S. split_and!; try done. rewrite insert_id; [done|]. rewrite Hc. f_equal. apply zlen_0_nil in E. destruct cl. cbn in *. by subst.
Qed.

(** ** Emptying a database *)

Lemma entered_repr d (it : @dictIterator bytes) W : dict_repr d W -> dict_repr (entered d it) W.
Proof.
  intros [Hwf E]. destruct (entered_same d it) as (E0 & E1 & Er). split; [by apply (same_wf d)|]. unfold to_map, entries in *. by rewrite E0, E1.
Qed.

(** New contents of the two dictionaries with the same meaning. *)
Lemma refresh_ok n S i r data d m W : server_ok n S -> (dbs S).[i] = Some r -> db_repr (rd r) m -> db_repr data m ->
  dict_repr (watched_keys r) W -> dict_repr d W -> server_ok n (put_db S i (mk_rdb data d)) /\ same_data S (put_db S i (mk_rdb data d)).
Proof.
  intros Hok Hr Hm Hm' HW HW'. pose proof (db_some n S i r Hok Hr) as Hi. split.
  - split; [apply (so_room _ _ Hok)| |rewrite put_len; apply (so_clients _ _ Hok)].
    intros j r'. rewrite put_lookup by done. destruct (decide (j = i)) as [->|]; [|apply (so_dbs _ _ Hok)]. intros [= <-].
    destruct (so_dbs _ _ Hok i r Hr) as (m0 & W0 & Hm0 & HW0 & Hw0 & Hz1 & Hz2).
    assert (m0 = m) as -> by (apply map_eq; intros k; by rewrite <- (stored_repr S i r k m0), <- (stored_repr S i r k m)).
    assert (W0 = W) as -> by (destruct HW as [_ <-], HW0 as [_ <-]; done). exists m, W. done.
  - split; [apply put_len|]. intros j k. destruct (decide (j = i)) as [->|Hj].
    + rewrite (stored_repr (put_db S i (mk_rdb data d)) i (mk_rdb data d) k m), (stored_repr S i r k m); try done.
      by rewrite put_lookup, decide_True by done.
    + unfold stored. by rewrite put_lookup, decide_False by done.
Qed.

Definition among i S (l : list (bytes * list positive)) (wk : Z * bytes) : bool :=
  bool_decide (wk.1 = i) && existsb (fun e => bool_decide (e.1 = wk.2) && is_some (stored S i e.1)) l.

Lemma among_cons i S e l wk : among i S (e :: l) wk = among i S l wk || (is_some (stored S i e.1) && bool_decide (wk = (i, e.1))).
Proof.
  unfold among. destruct wk as [j k]. cbn. destruct (decide (j = i)) as [->|Hj].
  - rewrite (bool_decide_eq_true_2 (i = i)) by done. cbn. rewrite orb_comm. f_equal. rewrite andb_comm. f_equal. apply bool_decide_ext. naive_solver.
  - rewrite (bool_decide_eq_false_2 (j = i)), (bool_decide_eq_false_2 ((j, k) = (i, e.1))) by congruence. cbn. by rewrite andb_false_r.
Qed.

Lemma among_same i S S' l wk : same_data S S' -> among i S' l wk = among i S l wk.
Proof. intros [_ Hs]. unfold among. f_equal. induction l as [|e l IH]; [done|]. cbn. by rewrite Hs, IH. Qed.

Lemma put_db_put S i r r' : put_db (put_db S i r) i r' = put_db S i r'.
Proof. unfold put_db. cbn. by rewrite list_insert_insert_eq. Qed.

Lemma touch_clients_spec i key m cs : forall S r, 0 <= i < zlen (dbs S) -> (dbs S).[i] = Some r -> db_repr (rd r) m -> (forall c, c ∈ cs -> is_Some (clients S !! c)) ->
  exists S' data, touch_clients S i key cs = Some S' /\ db_repr data m /\ dbs S' = dbs (put_db S i (mk_rdb data (watched_keys r))) /\
    forall c, clients S' !! c = (if decide (c ∈ if is_some (m !! key) then cs else []) then set_dirty else id) <$> clients S !! c.
Proof.
  induction cs as [|c cs IH]; intros S r Hi Hr Hm Hcs; cbn [touch_clients].
  { exists S, (rd r). split_and!; try done; [rewrite put_same; [done|by destruct r]|]. intros c. rewrite decide_False by (by destruct (is_some _); set_solver). by destruct (clients S !! c). }
  rewrite Hr. cbn [mbind option_bind]. destruct (does_find_main key m (rd r) Hm) as (data & -> & Hm'). cbn [mbind option_bind]. rewrite is_some_fst.
  set (S1 := put_db S i (mk_rdb data (watched_keys r))).
  assert (exists S2, (if is_some (m !! key) then mark_dirty S1 [c] else Some S1) = Some S2 /\ dbs S2 = dbs S1 /\
    forall c', clients S2 !! c' = (if decide (c' ∈ if is_some (m !! key) then [c] else []) then set_dirty else id) <$> clients S !! c') as (S2 & -> & Ed & Ec).
  { destruct (mark_dirty_spec (if is_some (m !! key) then [c] else []) S1) as (S2 & E2 & Ed & Ec).
    - intros c' Hc'. apply (Hcs c'). destruct (is_some _); set_solver.
    - exists S2. split; [|done]. by destruct (is_some (m !! key)). }
  cbn [mbind option_bind]. assert ((dbs S2).[i] = Some (mk_rdb data (watched_keys r))) as Hr2 by (rewrite Ed; unfold S1; by rewrite put_lookup, decide_True).
  destruct (IH S2 _ ltac:(rewrite Ed; unfold S1; by rewrite put_len) Hr2 Hm') as (S' & data' & -> & Hd & Ed' & Ec').
  { intros c' Hc'. rewrite Ec. apply fmap_is_Some, Hcs. set_solver. }
  exists S', data'. split_and!; try done.
  - rewrite Ed'. cbn. rewrite Ed. unfold S1. cbn. by rewrite list_insert_insert_eq.
  - intros c'. rewrite Ec', Ec. destruct (clients S !! c') as [cl|]; [|done]. destruct (is_some (m !! key)); cbn; [|by repeat case_decide; set_solver].
    f_equal. repeat case_decide; set_solver.
Qed.

Lemma touch_all_loop_spec n i fuel : forall S r di l, server_ok n S -> (dbs S).[i] = Some r -> upcoming (watched_keys r) di l -> (length l < fuel)%nat ->
  exists S' r' di', touch_all_loop fuel S i di = Some (S', di') /\ server_ok n S' /\ same_data S S' /\ clients S' = marked (among i S l) <$> clients S /\
    (dbs S').[i] = Some r' /\ watched_keys r' = entered (watched_keys r) di /\ it_safe di' = it_safe di /\ fresh_iter di' = false.
Proof.
  induction fuel as [|fuel IH]; intros S r di l Hok Hr Hu Hf; [lia|]. cbn [touch_all_loop]. rewrite Hr. cbn [mbind option_bind].
  pose proof (db_some n S i r Hok Hr) as Hi. destruct (so_dbs _ _ Hok i r Hr) as (m & W & Hm & HW & Hw & Hz1 & Hz2).
  destruct (next_spec 0 0 (watched_keys r) di l (proj1 HW) Hu) as (di1 & -> & Hu1 & Hs1 & _ & _ & Hf1 & _). cbn [mbind option_bind].
  pose proof (entered_repr _ di W HW) as HW1. set (d := entered (watched_keys r) di) in *. destruct l as [|[key cs] l]; cbn [head].
  { destruct (refresh_ok n S i r (rd r) d m W Hok Hr Hm Hm HW HW1) as [Hok1 Hsame]. eexists _, (mk_rdb (rd r) d), di1. split; [done|].
    split_and!; try done; [|by rewrite put_lookup, decide_True by done]. cbn. rewrite <- (map_fmap_id (clients S)) at 1. apply map_fmap_ext. intros c cl _.
    rewrite marked_none; [done|]. intros wk. unfold among. cbn. by rewrite andb_false_r. }
  cbn [tail] in Hu1. assert (W !! key = Some cs) as Ekey.
  { destruct HW as [Hwf <-]. apply to_map_Some; [done|]. apply (upcoming_entries _ di ((key, cs) :: l)); [done|done|left]. }
  assert (forall c, c ∈ cs -> is_Some (clients S !! c)) as Hcs.
  { intros c Hc. destruct (Hw key) as (_ & _ & Hiff). rewrite Ekey in Hiff. apply Hiff in Hc as (cl & Hcl & _). by exists cl. }
  destruct (touch_clients_spec i key m cs (put_db S i (mk_rdb (rd r) d)) (mk_rdb (rd r) d)) as (S2 & data & -> & Hm' & Ed2 & Ec2);
    [by rewrite put_len|by rewrite put_lookup, decide_True|done|done|]. rewrite put_db_put in Ed2. cbn in Ed2.
  destruct (refresh_ok n S i r data d m W Hok Hr Hm Hm' HW HW1) as [Hok1 Hsame]. set (S1 := put_db S i (mk_rdb data d)) in *. change (dbs S2 = dbs S1) in Ed2.
  assert ((dbs S1).[i] = Some (mk_rdb data d)) as Hr1 by (unfold S1; by rewrite put_lookup, decide_True by done).
  rewrite <- (stored_repr S i r key m Hr Hm) in Ec2.
  assert (clients S2 = marked (fun wk => is_some (stored S i key) && bool_decide (wk = (i, key))) <$> clients S) as Ec2'.
  { destruct (is_some (stored S i key)); cbn [andb].
    - apply (mark_watchers S i key W S2 Hw). intros c. by rewrite Ec2, Ekey.
    - apply map_eq. intros c. rewrite Ec2, lookup_fmap. rewrite decide_False by set_solver. cbn. destruct (clients S !! c) as [cl|]; [|done]. cbn. by rewrite marked_none. }
  clear Ec2. rename Ec2' into Ec2.
  cbn [mbind option_bind]. assert (server_ok n S2) as Hok2 by (apply (alike_ok n S1); [done|done|rewrite Ec2; apply alike_marked]).
  assert (same_data S S2) as Hsame2 by (eapply same_trans; [exact Hsame|by apply same_clients]).
  destruct (IH S2 (mk_rdb data d) di1 l Hok2) as (S' & r' & di' & -> & Hok' & Hs' & Ec' & Hr' & Ew & Hsafe & Hfr); [by rewrite Ed2|done|cbn in Hf; lia|].
  exists S', r', di'. split_and!; try done; [by eapply same_trans| | |congruence].
  - rewrite Ec', Ec2, <- map_fmap_compose. apply map_fmap_ext. intros c cl _. cbn. rewrite marked_marked. apply marked_ext. intros wk.
    by rewrite among_cons, (among_same i S S2).
  - rewrite Ew. cbn. unfold entered at 1. by rewrite Hf1.
Qed.

Lemma release_entered d (it it' : @dictIterator bytes) : it_safe it = true -> fresh_iter it = true -> it_safe it' = true -> fresh_iter it' = false ->
  dictReleaseIterator 0 0 (entered d it) it' = Some (d : dict bytes (list positive)).
Proof.
  intros H1 H2 H3 H4. unfold dictReleaseIterator. fold (fresh_iter it'). rewrite H4, H3. cbn. unfold entered. rewrite H1, H2. cbn.
  destruct d. unfold set_iterators. cbn. do 2 f_equal. lia.
Qed.

(** Every client that watches an existing key of the database is marked. *)
Lemma touch_all_spec n S i : server_ok n S -> 0 <= i < zlen (dbs S) ->
  exists S', touchAllWatchedKeysInDb S i = Some S' /\ server_ok n S' /\ same_data S S' /\
    clients S' = marked (fun wk => bool_decide (wk.1 = i) && is_some (stored S i wk.2)) <$> clients S.
Proof.
  intros Hok Hi. destruct (db_lookup S i Hi) as [r Hr]. unfold touchAllWatchedKeysInDb. rewrite Hr. cbn [mbind option_bind].
  destruct (so_dbs _ _ Hok i r Hr) as (m & W & Hm & HW & Hw & Hz1 & Hz2). pose proof (so_room _ _ Hok) as Hn. assert (fits W) as Hf by (unfold fits; lia).
  pose proof (repr_bound _ _ HW Hf) as Hb. destruct (size_entries (watched_keys r) (proj1 HW)) as [Esz _]; [lia|].
  assert (forall c cl, clients S !! c = Some cl -> marked (fun wk => bool_decide (wk.1 = i) && is_some (stored S i wk.2)) cl = marked (among i S (entries (watched_keys r))) cl) as Hall.
  { intros c cl Hc. unfold marked. apply (f_equal (fun b : bool => if b then set_dirty cl else cl)). apply eq_true_iff_eq. rewrite !existsb_exists. split.
    - intros ([j k] & Hin & [Ej%bool_decide_eq_true Hst]%andb_prop). cbn in Ej, Hst. subst j. exists (i, k). split; [done|]. unfold among. cbn. rewrite bool_decide_eq_true_2 by done. cbn.
      apply existsb_exists. destruct (Hw k) as (_ & _ & Hiff). assert (c ∈ default [] (W !! k)) as Hck by (apply Hiff; exists cl; split; [done|by apply list_elem_of_In]).
      destruct (W !! k) as [cs|] eqn:Ek; [|by apply elem_of_nil in Hck]. exists (k, cs). split; [|cbn; by rewrite bool_decide_eq_true_2, Hst by done].
      apply list_elem_of_In. destruct HW as [Hwf <-]. by apply to_map_Some.
    - intros ([j k] & Hin & [Ej%bool_decide_eq_true Hst]%andb_prop). cbn in Ej, Hst. subst j. exists (i, k). split; [done|]. cbn. rewrite bool_decide_eq_true_2 by done. cbn.
      apply existsb_exists in Hst as ([k' cs] & _ & [Ek%bool_decide_eq_true Hst]%andb_prop). cbn in *. by subst k'. }
  assert (clients S = marked (among i S []) <$> clients S) as Hnil.
  { rewrite <- (map_fmap_id (clients S)) at 1. apply map_fmap_ext. intros c cl _. rewrite marked_none; [done|]. intros wk. unfold among. cbn. by rewrite andb_false_r. }
  destruct (Z.eqb_spec (dictSize (watched_keys r)) 0) as [E0|_].
  { exists S. split_and!; try done. rewrite Hnil at 1. apply map_fmap_ext. intros c cl Hc. rewrite (Hall c cl Hc).
    rewrite Esz in E0. apply zlen_0_nil in E0. by rewrite E0. }
  destruct (touch_all_loop_spec n i (Datatypes.S (Z.to_nat (dictSize (watched_keys r)))) S r dictGetSafeIterator (entries (watched_keys r)) Hok Hr) as
    (S1 & r1 & di & -> & Hok1 & Hs1 & Ec1 & Hr1 & Ew & Hsafe & Hfr); [by apply upcoming_start, HW|rewrite Esz; unfold zlen; lia|].
  cbn [mbind option_bind]. rewrite Hr1. cbn [mbind option_bind]. rewrite Ew, release_entered by done. cbn [mbind option_bind].
  destruct (so_dbs _ _ Hok1 i r1 Hr1) as (m1 & W1 & Hm1 & HW1 & _).
  assert (dict_repr (watched_keys r) W1) as HW1'.
  { rewrite Ew in HW1. pose proof (entered_repr _ (@dictGetSafeIterator bytes) W HW) as HW2. destruct HW1 as [_ <-], HW2 as [_ E2], HW as [Hwf E]. split; [done|]. by rewrite E2. }
  destruct (refresh_ok n S1 i r1 (rd r1) (watched_keys r) m1 W1 Hok1 Hr1 Hm1 Hm1 HW1 HW1') as [Hok2 Hs2].
  eexists. split; [done|]. split_and!; [done|by eapply same_trans|]. cbn. rewrite Ec1. apply map_fmap_ext. intros c cl Hc. by rewrite (Hall c cl Hc).
Qed.

End Spec.
