(* ===== verification/MultiProps.v ===== *)
(** * Interleaved clients: what WATCH and EXEC guarantee

    Any number of clients send requests that the server handles one after the
    other.  The invariant ties the lists of watching clients to the lists of
    watched keys; with it, every request completes, no client loses a watched key
    or the mark that it changed, and an EXEC that runs sees the watched keys as
    they were when WATCH was called. *)

From stdpp Require Import base list numbers option strings gmap.
From Stdlib Require Import ZArith Lia.
From S2P Require Import Prelude Util Dict DictMap DictIter Db DbProps DbEvents Multi.

Section Steps.
Context {V : Type} `{DictType bytes} (can_resize : bool) (flags_of : queued V -> Z) (T : Z) (HT : T <= LLONG_MAX).
Implicit Types (S : server V) (c : positive) (cl : client V) (k : bytes) (i n : Z) (q : queued V) (m : gmap bytes (V * option Z)).

(** ** Relations between two states *)

(** A watched key of a client is still watched, and unchanged unless the client is marked. *)
Definition kept c i k S S' : Prop := forall cl, clients S !! c = Some cl -> (i, k) ∈ c_watched cl ->
  exists cl', clients S' !! c = Some cl' /\ (i, k) ∈ c_watched cl' /\ (c_dirty_cas cl = true -> c_dirty_cas cl' = true) /\
    (c_dirty_cas cl' = false -> stored S' i k = stored S i k).

Lemma kept_refl c i k S : kept c i k S S.
Proof. intros cl Hc Hk. by exists cl. Qed.

Lemma kept_trans c i k S S1 S2 : kept c i k S S1 -> kept c i k S1 S2 -> kept c i k S S2.
Proof.
  intros H1 H2 cl Hc Hk. destruct (H1 cl Hc Hk) as (cl1 & Hc1 & Hk1 & Hd1 & Hs1). destruct (H2 cl1 Hc1 Hk1) as (cl2 & Hc2 & Hk2 & Hd2 & Hs2).
  exists cl2. split_and!; try done; [naive_solver|]. intros E. rewrite Hs2, Hs1; try done. destruct (c_dirty_cas cl1); [|done]. rewrite Hd2 in E; done.
Qed.

Lemma kept_marked P S S' : clients S' = marked P <$> clients S -> (forall i k, P (i, k) = false -> stored S' i k = stored S i k) ->
  forall c i k, kept c i k S S'.
Proof.
  intros E HP c i k cl Hc Hk. exists (marked P cl). rewrite E, lookup_fmap, Hc. split_and!; [done|by rewrite marked_watched|..].
  - unfold marked. by destruct (existsb _ _).
  - unfold marked. destruct (existsb P (c_watched cl)) eqn:Ex; [done|]. intros _. apply HP. destruct (P (i, k)) eqn:EP; [|done].
    rewrite <- Ex. symmetry. apply existsb_exists. exists (i, k). split; [by apply list_elem_of_In|done].
Qed.

(** One client changes, the data does not. *)
Lemma kept_client c0 cl0 S S' c i k : same_data S S' -> clients S' = <[c0 := cl0]> (clients S) ->
  (c = c0 -> forall cl, clients S !! c = Some cl -> (forall wk, wk ∈ c_watched cl -> wk ∈ c_watched cl0) /\ (c_dirty_cas cl = true -> c_dirty_cas cl0 = true)) ->
  kept c i k S S'.
Proof.
  intros [_ Hs] E Hcl cl Hc Hk. rewrite E. destruct (decide (c = c0)) as [->|].
  - exists cl0. rewrite lookup_insert_eq. destruct (Hcl eq_refl cl Hc). split_and!; eauto.
  - exists cl. rewrite lookup_insert_ne by done. split_and!; eauto.
Qed.

(** The transactions of the clients. *)
Definition queues S : gmap positive (bool * bool * multiState V) := (fun cl => (c_multi cl, c_dirty_exec cl, c_mstate cl)) <$> clients S.

Lemma queues_client S c cl : clients S !! c = Some cl -> queues S !! c = Some (c_multi cl, c_dirty_exec cl, c_mstate cl).
Proof. intros Hc. unfold queues. by rewrite lookup_fmap, Hc. Qed.

Lemma queues_some S S' c cl : queues S' = queues S -> clients S !! c = Some cl ->
  exists cl', clients S' !! c = Some cl' /\ c_multi cl' = c_multi cl /\ c_dirty_exec cl' = c_dirty_exec cl /\ c_mstate cl' = c_mstate cl.
Proof.
  intros E Hc. assert (queues S' !! c = queues S !! c) as El by by rewrite E. unfold queues in El. rewrite !lookup_fmap, Hc in El.
  destruct (clients S' !! c) as [cl'|]; [|done]. injection El as E1 E2 E3. by exists cl'.
Qed.

Lemma queues_marked P S S' : clients S' = marked P <$> clients S -> queues S' = queues S.
Proof.
  intros E. unfold queues. rewrite E, <- map_fmap_compose. apply map_fmap_ext. intros c cl _. cbn. unfold marked. by destruct (existsb _ _).
Qed.

Lemma queues_insert S S' c cl : clients S' = <[c := cl]> (clients S) -> queues S' = <[c := (c_multi cl, c_dirty_exec cl, c_mstate cl)]> (queues S).
Proof. intros E. unfold queues. by rewrite E, fmap_insert. Qed.

Lemma queues_same S S' c cl cl' : clients S !! c = Some cl -> clients S' = <[c := cl']> (clients S) ->
  c_multi cl' = c_multi cl -> c_dirty_exec cl' = c_dirty_exec cl -> c_mstate cl' = c_mstate cl -> queues S' = queues S.
Proof. intros Hc E E1 E2 E3. rewrite (queues_insert S S' c cl' E), E1, E2, E3. by rewrite insert_id; [|apply queues_client]. Qed.

(** ** Replacing a client or the data of a database *)

Lemma set_ok n S c cl cl' : server_ok n S -> clients S !! c = Some cl -> c_watched cl' = c_watched cl -> 0 <= c_db cl' < zlen (dbs S) ->
  server_ok n (set_client S c cl').
Proof.
  intros Hok Hc Hw Hdb. destruct (so_clients _ _ Hok c cl Hc) as (Hn & _ & Ha). split; [apply (so_room _ _ Hok)| |].
  - intros i r Hr. destruct (so_dbs _ _ Hok i r Hr) as (m & W & Hm & HW & Hwt & Hz). exists m, W. split_and!; try done; [|lia..].
    eapply watchers_other; try done. intros k. by rewrite Hw.
  - cbn. apply map_Forall_insert_2; [|apply (so_clients _ _ Hok)]. split_and!; [by rewrite Hw|lia..|by rewrite Hw].
Qed.

Lemma data_ok n n' S i r data m : server_ok n S -> (dbs S).[i] = Some r -> db_repr data m -> 0 <= n' <= n -> Z.of_nat (base.size m) + n' + 2 < DICT_BOUND ->
  server_ok n' (put_db S i (mk_rdb data (watched_keys r))) /\ zlen (dbs (put_db S i (mk_rdb data (watched_keys r)))) = zlen (dbs S) /\
  forall j k, stored (put_db S i (mk_rdb data (watched_keys r))) j k = if decide (j = i) then m !! k else stored S j k.
Proof.
  intros Hok Hr Hm Hn Hz. pose proof (db_some n S i r Hok Hr) as Hi. split_and!; [|apply put_len|].
  - split; [lia| |rewrite put_len; apply (so_clients _ _ Hok)]. intros j r'. rewrite put_lookup by done. destruct (decide (j = i)) as [->|].
    + intros [= <-]. destruct (so_dbs _ _ Hok i r Hr) as (m0 & W & _ & HW & Hw & _ & Hz2). exists m, W. split_and!; try done. lia.
    + intros Hr'. apply (alike_db n' (clients S)); [done|]. destruct (so_dbs _ _ Hok j r' Hr') as (m0 & W & ? & ? & ? & ? & ?). exists m0, W. split_and!; try done; lia.
  - intros j k. destruct (decide (j = i)) as [->|Hj].
    + apply (stored_repr _ i (mk_rdb data (watched_keys r))); [by rewrite put_lookup, decide_True by done|done].
    + unfold stored. by rewrite put_lookup, decide_False by done.
Qed.

(** ** Commands *)

(** A master that is not loading, at a time up to [T]. *)
Definition config_ok (cfg : config) : Prop :=
  masterhost cfg = false /\ loading cfg = false /\ 0 <= now_of cfg <= clock cfg /\ 500 <= clock cfg <= T.

Definition queued_ok q : Prop := match q with QCmd cmd => command_ok T cmd | _ => True end.

Lemma command_ok_le t (cmd : command V) : t <= T -> command_ok T cmd -> command_ok t cmd.
Proof. intros Ht. destruct cmd as [flags k v [[n u]|]| | | | |k n [|] u| |]; cbn; try done; [|lia]. intros [?|?]; [by left|right; lia]. Qed.

Lemma clear_repr (s : state V) m : db_repr s m -> db_repr (clear_events s) m.
Proof. intros [H1 H2 H3 H4]. by split. Qed.

Lemma db_range_in n S dbid : server_ok n S -> -1 <= dbid < zlen (dbs S) -> forall j, j ∈ db_range S dbid -> 0 <= j < zlen (dbs S).
Proof.
  intros _ Hi j. unfold db_range. destruct (Z.eqb_spec dbid (-1)) as [->|]; [rewrite elem_of_seqZ; lia|]. rewrite list_elem_of_singleton. lia.
Qed.

(** The clients that watch an existing key of one of the databases. *)
Definition flushed S (js : list Z) (wk : Z * bytes) : bool := bool_decide (wk.1 ∈ js) && is_some (stored S wk.1 wk.2).

Lemma flushed_loop_spec n js : forall S, server_ok n S -> (forall j, j ∈ js -> 0 <= j < zlen (dbs S)) ->
  exists S', flushed_loop S js = Some S' /\ server_ok n S' /\ same_data S S' /\ clients S' = marked (flushed S js) <$> clients S.
Proof.
  induction js as [|j js IH]; intros S Hok Hjs; cbn [flushed_loop].
  { exists S. split_and!; try done. rewrite <- (map_fmap_id (clients S)) at 1. apply map_fmap_ext. intros c cl _. rewrite marked_none; [done|].
    intros wk. unfold flushed. by rewrite bool_decide_eq_false_2 by apply not_elem_of_nil. }
  destruct (touch_all_spec n S j Hok) as (S1 & -> & Hok1 & [Hl1 Hs1] & Ec1); [apply Hjs; left|]. cbn [mbind option_bind].
  destruct (IH S1 Hok1) as (S2 & -> & Hok2 & Hs2 & Ec2); [intros j' Hj'; rewrite Hl1; apply Hjs; by right|].
  exists S2. split_and!; try done; [by eapply same_trans|]. rewrite Ec2, Ec1, <- map_fmap_compose. apply map_fmap_ext. intros c cl _. cbn. rewrite marked_marked. apply marked_ext.
  intros [i k]. unfold flushed. cbn. rewrite Hs1. destruct (decide (i = j)) as [->|Hne].
  - rewrite (bool_decide_eq_true_2 (j = j)), (bool_decide_eq_true_2 (j ∈ j :: js)) by (done || left). by destruct (bool_decide _), (is_some _).
  - rewrite (bool_decide_eq_false_2 (i = j)) by done. cbn. rewrite orb_false_r. f_equal. apply bool_decide_ext. set_solver.
Qed.

Lemma empty_data (r : redisDb V) m (async : bool) : db_repr (rd r) m -> exists data,
  (if async then Some (emptyDbAsync (rd r)) else d ← dictEmpty (db_dict (rd r)); e ← dictEmpty (db_expires (rd r)); Some (mk_state d e (st_stats (rd r)))) = Some data /\ db_repr data ∅.
Proof.
  intros [[Hd _] [He _] _ _]. destruct async; [|rewrite !dict_empty_spec by done; cbn [mbind option_bind]]; eexists; (split; [done|]);
    destruct (@db_new_repr V _) as [H1 H2 H3 H4]; by split.
Qed.

Lemma empty_db_loop_spec n async js : forall S removed, server_ok n S -> (forall j, j ∈ js -> 0 <= j < zlen (dbs S)) ->
  exists S' removed', empty_db_loop S async js removed = Some (S', removed') /\ server_ok n S' /\ clients S' = clients S /\ zlen (dbs S') = zlen (dbs S) /\
    forall i k, stored S' i k = if bool_decide (i ∈ js) then None else stored S i k.
Proof.
  induction js as [|j js IH]; intros S removed Hok Hjs; cbn [empty_db_loop].
  { eexists _, _. split_and!; done. }
  destruct (db_lookup S j) as [r Hr]; [apply Hjs; left|]. rewrite Hr. cbn [mbind option_bind]. destruct (so_dbs _ _ Hok j r Hr) as (m & W & Hm & _ & _ & Hz & _).
  destruct (empty_data r m async Hm) as (data & -> & Hdata). cbn [mbind option_bind]. pose proof (so_room _ _ Hok) as Hn.
  destruct (data_ok n n S j r data ∅ Hok Hr Hdata) as (Hok1 & Hl1 & Hst1); [lia|rewrite map_size_empty; lia|].
  destruct (IH _ (removed + dictSize (db_dict (rd r))) Hok1) as (S' & removed' & -> & Hok' & Ec' & Hl' & Hst'); [intros j' Hj'; rewrite Hl1; apply Hjs; by right|].
  eexists _, _. split; [done|]. split_and!; [done|by rewrite Ec'|by rewrite Hl'|]. intros i k. rewrite Hst', Hst1. destruct (decide (i = j)) as [->|].
  - rewrite (bool_decide_eq_true_2 (j ∈ j :: js)) by left. case_bool_decide; [done|apply lookup_empty].
  - rewrite (bool_decide_ext (i ∈ j :: js) (i ∈ js)); [done|set_solver].
Qed.

Lemma emptyDb_spec n S dbid async : server_ok n S -> -1 <= dbid < zlen (dbs S) ->
  exists S' removed, emptyDb S dbid async = Some (S', removed) /\ server_ok n S' /\ queues S' = queues S /\ zlen (dbs S') = zlen (dbs S) /\
    (forall i k, stored S' i k = if bool_decide (i ∈ db_range S dbid) then None else stored S i k) /\ forall c i k, kept c i k S S'.
Proof.
  intros Hok Hi. unfold emptyDb. zbool. cbn [orb]. unfold signalFlushedDb, emptyDbStructure. pose proof (db_range_in n S dbid Hok Hi) as Hr.
  destruct (flushed_loop_spec n _ S Hok Hr) as (S1 & -> & Hok1 & [Hl1 Hs1] & Ec1). cbn [mbind option_bind].
  assert (db_range S1 dbid = db_range S dbid) as -> by (unfold db_range; by rewrite Hl1).
  destruct (empty_db_loop_spec n async (db_range S dbid) S1 0 Hok1) as (S2 & removed & -> & Hok2 & Ec2 & Hl2 & Hst2); [by rewrite Hl1|].
  exists S2, removed. split_and!; [done|done|apply (queues_marked (flushed S (db_range S dbid))); by rewrite Ec2|by rewrite Hl2| |].
  - intros i k. by rewrite Hst2, Hs1.
  - apply (kept_marked (flushed S (db_range S dbid))); [by rewrite Ec2|]. intros i k. unfold flushed. cbn. rewrite Hst2, Hs1.
    case_bool_decide; [|done]. cbn. by destruct (stored S i k).
Qed.

Lemma run_spec n cfg S i r (cmd : command V) : server_ok (n + 1) S -> 0 <= n -> (dbs S).[i] = Some r -> config_ok cfg -> command_ok T cmd ->
  exists s' rep S', run_command cfg cmd (clear_events (rd r)) = Some (s', rep) /\
    deliver (put_db S i (mk_rdb s' (watched_keys r))) i (events (st_stats s')) = Some S' /\
    server_ok n S' /\ queues S' = queues S /\ zlen (dbs S') = zlen (dbs S) /\ forall c j k, kept c j k S S'.
Proof.
  intros Hok Hn Hr (Hm & Hl & Hnow & Hclk) Hcmd. pose proof (db_some _ S i r Hok Hr) as Hi.
  destruct (so_dbs _ _ Hok i r Hr) as (m & W & Hrep & HW & Hw & Hz1 & Hz2). pose proof (clear_repr _ _ Hrep) as Hrep'.
  assert (500 <= clock cfg <= LLONG_MAX) as Hclk' by lia.
  destruct (sim_command cfg cmd (live (now_of cfg) m) Hm Hl Hnow Hclk') with (m := m) as (m1 & Hdoes & _); [by apply command_ok_le; [lia|]|done|unfold roomy; lia|].
  destruct (Hdoes _ Hrep') as (s' & Erun & _). rewrite Erun. eexists s', _.
  destruct (fx_command cfg Hm Hl Hclk' cmd _ s' _ m Hrep' ltac:(lia) Erun) as (m' & new & Hs' & Hsz & Eev & Hch & _). cbn in Eev. rewrite Eev.
  destruct (data_ok (n + 1) n S i r s' m' Hok Hr Hs') as (Hok1 & Hl1 & Hst); [lia..|].
  destruct (deliver_spec n i new _ Hok1) as (S' & -> & Hok' & [Hl' Hs1'] & Ec); [by rewrite Hl1|].
  exists S'. split_and!; try done; [by apply (queues_marked (signalled i new))|by rewrite Hl'|].
  apply (kept_marked (signalled i new)); [done|]. intros j k Hsig. rewrite Hs1', Hst. destruct (decide (j = i)) as [->|]; [|done].
  rewrite (stored_repr S i r k m Hr Hrep). apply Hch; [set_solver|]. intros Hin. unfold signalled in Hsig. cbn in Hsig.
  rewrite bool_decide_eq_true_2 in Hsig by done. cbn in Hsig. enough (existsb (fun e => match e with Modified k' => bool_decide (k' = k) | _ => false end) new = true) by congruence.
  apply existsb_exists. exists (Modified k). split; [by apply list_elem_of_In|by apply bool_decide_eq_true].
Qed.

(** A command completes; only UNWATCH takes watched keys, and only from the client that calls it. *)
Lemma call_spec n cfg S c cl q : server_ok (n + 1) S -> 0 <= n -> clients S !! c = Some cl -> config_ok cfg -> queued_ok q ->
  exists S' rep, call cfg S c q = Some (S', rep) /\ server_ok n S' /\ queues S' = queues S /\ zlen (dbs S') = zlen (dbs S) /\
    forall c' i k, c' <> c \/ q <> QUnwatch -> kept c' i k S S'.
Proof.
  intros Hok Hn Hc Hcfg Hq. pose proof (so_clients _ _ Hok c cl Hc) as (_ & Hdb & _). assert (server_ok n S) as Hok0 by (apply (server_ok_le (n + 1)); [done|lia]).
  unfold call. rewrite Hc. cbn [mbind option_bind]. destruct q as [cmd|id| |async|async].
  - destruct (db_lookup S _ Hdb) as [r Hr]. rewrite Hr. cbn [mbind option_bind].
    destruct (run_spec n cfg S _ r cmd Hok Hn Hr Hcfg Hq) as (s' & rep & S' & -> & E & Hok' & Hq' & Hl & Hk). cbn [mbind option_bind]. rewrite E. cbn [mbind option_bind].
    eexists _, _. split_and!; done.
  - unfold selectDb. rewrite Hc. cbn [mbind option_bind]. destruct ((id <? 0) || (id >=? zlen (dbs S))) eqn:E.
    { eexists _, _. split_and!; try done. intros. apply kept_refl. }
    apply orb_false_elim in E as [E1%Z.ltb_ge E2]. rewrite Z.geb_leb in E2. apply Z.leb_gt in E2. eexists _, _. split; [done|]. split_and!; [by eapply set_ok|by eapply queues_same|done|].
    intros c' i k _. eapply kept_client; [by apply same_clients|done|]. intros -> cl0. rewrite Hc. intros [= <-]. done.
  - unfold unwatchCommand. destruct (unwatch_spec n S c cl Hok0 Hc) as (S1 & -> & Hok1 & Hs1 & Ec1). cbn [mbind option_bind].
    rewrite Ec1, lookup_insert_eq. cbn [mbind option_bind]. eexists _, _. split; [done|]. cbn [with_watched c_multi c_dirty_exec c_mstate c_watched c_db].
    split_and!; [|eapply (queues_same S _ c cl); [done|cbn; by rewrite Ec1, insert_insert_eq|done..]|cbn; apply Hs1|].
    + eapply set_ok; [done|by rewrite Ec1, lookup_insert_eq|done|cbn; by rewrite (proj1 Hs1)].
    + intros c' i k [Hne|]; [|done]. eapply (kept_client c); [|cbn; by rewrite Ec1, insert_insert_eq|done]. eapply same_trans; [exact Hs1|by apply same_clients].
  - unfold flushdbCommand. rewrite Hc. cbn [mbind option_bind].
    destruct (emptyDb_spec n S (c_db cl) async Hok0 ltac:(lia)) as (S' & rm & -> & Hok' & Hq' & Hl & _ & Hk). by eexists _, _.
  - unfold flushallCommand. destruct (emptyDb_spec n S (-1) async Hok0 ltac:(lia)) as (S' & rm & -> & Hok' & Hq' & Hl & _ & Hk). by eexists _, _.
Qed.

(** ** Transactions *)

Lemma exec_loop_spec n acl (cfgs : nat -> config) c qs : 0 <= n -> (forall j, config_ok (cfgs j)) -> Forall queued_ok qs ->
  forall S j, server_ok (n + zlen qs) S -> is_Some (clients S !! c) ->
  exists S' reps, exec_loop acl cfgs S c j qs = Some (S', reps) /\ server_ok n S' /\ queues S' = queues S /\ zlen (dbs S') = zlen (dbs S) /\
    length reps = length qs /\ forall c' i k, c' <> c -> kept c' i k S S'.
Proof.
  intros Hn Hcfg. induction 1 as [|q qs Hq _ IH]; intros S j Hok [cl Hc]; cbn [exec_loop].
  { rewrite zlen_nil, Z.add_0_r in Hok. eexists _, _. split_and!; try done. intros. apply kept_refl. }
  rewrite zlen_cons in Hok. pose proof (zlen_nonneg qs) as Hz.
  assert (exists S1 rep, (if acl q then call (cfgs j) S c q else Some (S, MError)) = Some (S1, rep) /\ server_ok (n + zlen qs) S1 /\ queues S1 = queues S /\
    zlen (dbs S1) = zlen (dbs S) /\ forall c' i k, c' <> c -> kept c' i k S S1) as (S1 & rep & -> & Hok1 & Hq1 & Hl1 & Hk1).
  { destruct (acl q).
    - destruct (call_spec (n + zlen qs) (cfgs j) S c cl q) as (S1 & rep & E & Hok1 & Hq1 & Hl1 & Hk1); try done; [by replace (n + zlen qs + 1) with (n + (1 + zlen qs)) by lia|lia|].
      exists S1, rep. split_and!; try done. intros. apply Hk1. by left.
    - exists S, MError. split_and!; try done; [apply (server_ok_le (n + (1 + zlen qs))); [done|lia]|]. intros. apply kept_refl. }
  cbn [mbind option_bind]. destruct (queues_some S S1 c cl Hq1 Hc) as (cl1 & Hc1 & _).
  destruct (IH S1 (Datatypes.S j) Hok1) as (S2 & reps & -> & Hok2 & Hq2 & Hl2 & Hr2 & Hk2); [by exists cl1|]. cbn [mbind option_bind].
  exists S2, (rep :: reps). split_and!; try done; [by rewrite Hq2|by rewrite Hl2|cbn; by rewrite Hr2|]. intros. eapply kept_trans; [by apply Hk1|by apply Hk2].
Qed.

(** A client without transaction and watched keys. *)
Definition reset cl : client V := mk_client false false false initClientMultiState [] (c_db cl).

Lemma discard_spec n S c cl : server_ok n S -> clients S !! c = Some cl ->
  exists S', discardTransaction S c = Some S' /\ server_ok n S' /\ same_data S S' /\ clients S' = <[c := reset cl]> (clients S).
Proof.
  intros Hok Hc. unfold discardTransaction. rewrite Hc. cbn [mbind option_bind]. pose proof (so_clients _ _ Hok c cl Hc) as (_ & Hdb & _).
  match goal with |- context [set_client S c ?x] => set (cl1 := x) end.
  destruct (unwatch_spec n (set_client S c cl1) c cl1) as (S' & -> & Hok' & Hs' & Ec'); [by eapply set_ok|cbn; by rewrite lookup_insert_eq|].
  exists S'. split_and!; try done. rewrite Ec'. cbn. by rewrite insert_insert_eq.
Qed.

(** EXEC runs the whole queue, or changes nothing; the transaction is over in both cases. *)
Lemma exec_spec n acl (cfgs : nat -> config) S c cl : server_ok (n + zlen (commands (c_mstate cl))) S -> 0 <= n -> clients S !! c = Some cl ->
  (forall j, config_ok (cfgs j)) -> Forall queued_ok (commands (c_mstate cl)) ->
  exists S' rep, execCommand acl cfgs S c = Some (S', rep) /\ server_ok n S' /\ zlen (dbs S') = zlen (dbs S) /\
    (forall c' i k, c' <> c -> kept c' i k S S') /\
    if negb (c_multi cl) then S' = S /\ rep = MError else
    queues S' = <[c := (false, false, initClientMultiState)]> (queues S) /\ (fun cl => c_watched cl) <$> clients S' !! c = Some [] /\
    if c_dirty_cas cl || c_dirty_exec cl then same_data S S' /\ rep = (if c_dirty_exec cl then MExecAbort else MNullArray)
    else exists reps, rep = MArray reps /\ length reps = length (commands (c_mstate cl)).
Proof.
  intros Hok Hn Hc Hcfg Hqs. unfold execCommand. rewrite Hc. cbn [mbind option_bind]. pose proof (zlen_nonneg (commands (c_mstate cl))) as Hz.
  destruct (c_multi cl); cbn [negb].
  2:{ exists S, MError. split_and!; try done; [eapply server_ok_le; [done|lia]|]. intros. apply kept_refl. }
  destruct (c_dirty_cas cl || c_dirty_exec cl).
  - destruct (discard_spec n S c cl) as (S' & -> & Hok' & Hs' & Ec'); [eapply server_ok_le; [done|lia]|done|]. cbn [mbind option_bind].
    eexists _, _. split; [done|]. split_and!; try done; [apply Hs'| |by apply (queues_insert S S' c (reset cl))|by rewrite Ec', lookup_insert_eq].
    intros c' i k Hne. by eapply (kept_client c).
  - destruct (unwatch_spec _ S c cl Hok Hc) as (S1 & -> & Hok1 & Hs1 & Ec1). cbn [mbind option_bind].
    destruct (exec_loop_spec n acl cfgs c _ Hn Hcfg Hqs S1 O Hok1) as (S2 & reps & -> & Hok2 & Hq2 & Hl2 & Hr2 & Hk2); [rewrite Ec1, lookup_insert_eq; by eexists|].
    cbn [mbind option_bind]. destruct (queues_some S1 S2 c (with_watched [] cl) Hq2) as (cl2 & Hc2 & _); [by rewrite Ec1, lookup_insert_eq|].
    destruct (discard_spec n S2 c cl2 Hok2 Hc2) as (S3 & -> & Hok3 & Hs3 & Ec3). cbn [mbind option_bind]. eexists _, _. split; [done|].
    split_and!; [done|by rewrite (proj1 Hs3), Hl2, (proj1 Hs1)|..].
    + intros c' i k Hne. eapply kept_trans; [by eapply (kept_client c _ S S1)|]. eapply kept_trans; [by apply Hk2|]. by eapply (kept_client c _ S2 S3).
    + rewrite (queues_insert S2 S3 c (reset cl2) Ec3), Hq2, (queues_insert S S1 c _ Ec1). cbn. by rewrite insert_insert_eq.
    + by rewrite Ec3, lookup_insert_eq.
    + by exists reps.
Qed.

Lemma watch_loop_spec n c keys : 0 <= n -> forall S cl, server_ok (n + zlen keys) S -> clients S !! c = Some cl ->
  exists S' wks, watch_loop can_resize S c keys = Some S' /\ server_ok n S' /\ same_data S S' /\ clients S' = <[c := with_watched wks cl]> (clients S) /\
    (forall k, k ∈ keys -> (c_db cl, k) ∈ wks) /\ (forall wk, wk ∈ c_watched cl -> wk ∈ wks).
Proof.
  intros Hn. induction keys as [|k keys IH]; intros S cl Hok Hc; cbn [watch_loop].
  { rewrite zlen_nil, Z.add_0_r in Hok. exists S, (c_watched cl). split_and!; try done; [|set_solver]. rewrite insert_id; [done|]. rewrite Hc. by destruct cl. }
  rewrite zlen_cons in Hok. pose proof (zlen_nonneg keys) as Hz.
  destruct (watch_spec can_resize (n + zlen keys) S c cl k) as (S1 & wks1 & -> & Hok1 & Hs1 & Ec1 & Hk1 & Hi1); [by replace (n + zlen keys + 1) with (n + (1 + zlen keys)) by lia|lia|done|].
  cbn [mbind option_bind]. destruct (IH S1 (with_watched wks1 cl) Hok1) as (S2 & wks2 & -> & Hok2 & Hs2 & Ec2 & Hk2 & Hi2); [by rewrite Ec1, lookup_insert_eq|].
  exists S2, wks2. split_and!; try done; [by eapply same_trans|by rewrite Ec2, Ec1, insert_insert_eq| |].
  - intros k' [->|Hin]%elem_of_cons; [by apply Hi2|by apply Hk2].
  - intros wk Hin. by apply Hi2, Hi1.
Qed.

(** ** The commands that wait *)

Definition backlog (Q : gmap positive (bool * bool * multiState V)) : Z := map_fold (fun _ x acc => zlen (commands x.2) + acc) 0 Q.

Lemma backlog_insert Q c x : Q !! c = None -> backlog (<[c := x]> Q) = zlen (commands x.2) + backlog Q.
Proof. intros Hc. unfold backlog. apply (map_fold_insert_L (fun _ (x : bool * bool * multiState V) acc => zlen (commands x.2) + acc)); [intros; lia|done]. Qed.

Lemma backlog_delete Q c x : Q !! c = Some x -> backlog Q = zlen (commands x.2) + backlog (delete c Q).
Proof. intros Hc. unfold backlog. apply (map_fold_delete_L (fun _ (x : bool * bool * multiState V) acc => zlen (commands x.2) + acc)); [intros; lia|done]. Qed.

Lemma backlog_update Q c x y : Q !! c = Some x -> backlog (<[c := y]> Q) = backlog Q - zlen (commands x.2) + zlen (commands y.2).
Proof. intros Hc. rewrite (backlog_delete Q c x Hc), <- insert_delete_eq, backlog_insert; [lia|apply lookup_delete_eq]. Qed.

Lemma backlog_nonneg Q : 0 <= backlog Q.
Proof.
  induction Q as [|c x Q Hc IH] using map_ind; [unfold backlog; by rewrite map_fold_empty|]. rewrite backlog_insert by done. pose proof (zlen_nonneg (commands x.2)). lia.
Qed.

(** Outside of a transaction the queue is empty. *)
Definition queue_ok (x : bool * bool * multiState V) : Prop :=
  Forall queued_ok (commands x.2) /\ (x.1.1 = false -> x.1.2 = false /\ commands x.2 = []).
Definition transaction cl : bool * bool * multiState V := (c_multi cl, c_dirty_exec cl, c_mstate cl).

(** The state between two requests: room for [n] keys besides those of the waiting commands. *)
Record inv n S : Prop := {
  inv_ok : server_ok (n + backlog (queues S)) S;
  inv_room : 0 <= n;
  inv_dbs : 0 < zlen (dbs S);
  inv_queues : map_Forall (fun _ x => queue_ok x) (queues S)
}.

Lemma inv_le n n' S : inv n S -> 0 <= n' <= n -> inv n' S.
Proof. intros [H1 H2 H3 H4] Hn. split; try done; [|lia]. apply (server_ok_le (n + backlog (queues S))); [done|]. pose proof (backlog_nonneg (queues S)). lia. Qed.

(** The transaction of one client changes, and [d] keys of room are used. *)
Lemma inv_step n d S S' c x y : inv (n + d) S -> 0 <= n -> queues S !! c = Some x -> queues S' = <[c := y]> (queues S) ->
  zlen (dbs S') = zlen (dbs S) -> queue_ok y ->
  server_ok (n + (backlog (queues S) - zlen (commands x.2) + zlen (commands y.2))) S' -> inv n S'.
Proof.
  intros [H1 H2 H3 H4] Hn Hx Hq Hl Hy Hok. split; [by rewrite Hq, (backlog_update _ c x) by done|done|by rewrite Hl|]. rewrite Hq. by apply map_Forall_insert_2.
Qed.

Lemma inv_same n d S S' : inv (n + d) S -> 0 <= n -> queues S' = queues S -> zlen (dbs S') = zlen (dbs S) -> server_ok (n + backlog (queues S)) S' -> inv n S'.
Proof. intros [H1 H2 H3 H4] Hn Hq Hl Hok. split; try done; rewrite ?Hq, ?Hl; done. Qed.

(** ** Requests *)

Definition cost (r : request V) : Z := match r with ReqWatch keys => zlen keys | ReqCommand _ => 1 | _ => 0 end.
Definition request_ok (r : request V) : Prop := match r with ReqCommand q => queued_ok q | _ => True end.
(** The requests that leave the watched keys of the client alone. *)
Definition keeps_watch (r : request V) : bool := match r with ReqExec | ReqDiscard | ReqCommand QUnwatch => false | _ => true end.

Lemma cost_nonneg r : 0 <= cost r.
Proof. destruct r; cbn; try lia. apply zlen_nonneg. Qed.

(** What a request of client [c] does to the others and to its own watched keys. *)
Definition step_ok n (r : request V) c S (o : option (server V * mreply V)) : Prop :=
  exists S' rep, o = Some (S', rep) /\ inv n S' /\ dom (clients S') = dom (clients S) /\ zlen (dbs S') = zlen (dbs S) /\
    (forall c', c' <> c -> queues S' !! c' = queues S !! c') /\
    forall c' i k, c' <> c \/ keeps_watch r = true -> kept c' i k S S'.

Lemma dom_queues S S' : dom (queues S') = dom (queues S) -> dom (clients S') = dom (clients S).
Proof. unfold queues. by rewrite !dom_fmap_L. Qed.

Lemma step_none n r c S rep : inv (n + cost r) S -> 0 <= n -> step_ok n r c S (Some (S, rep)).
Proof. intros Hi Hn. pose proof (cost_nonneg r). exists S, rep. split_and!; try done; [apply (inv_le (n + cost r)); [done|lia]|]. intros. apply kept_refl. Qed.

(** The client and its transaction change, the data does not. *)
Lemma step_client n r c S cl cl' S' rep : inv (n + cost r) S -> 0 <= n -> clients S !! c = Some cl ->
  same_data S S' -> clients S' = <[c := cl']> (clients S) -> queue_ok (transaction cl') ->
  server_ok (n + (backlog (queues S) - zlen (commands (c_mstate cl)) + zlen (commands (c_mstate cl')))) S' ->
  (keeps_watch r = true -> (forall wk, wk ∈ c_watched cl -> wk ∈ c_watched cl') /\ (c_dirty_cas cl = true -> c_dirty_cas cl' = true)) ->
  step_ok n r c S (Some (S', rep)).
Proof.
  intros Hi Hn Hc Hs Ec Hqs Hok Hw. pose proof (queues_client S c cl Hc) as Hx. pose proof (queues_insert S S' c cl' Ec) as Hq. exists S', rep. split; [done|].
  split_and!; [eapply (inv_step n (cost r) S S' c); try done; apply Hs|rewrite Ec; by rewrite dom_insert_lookup_L|apply Hs|intros; by rewrite Hq, lookup_insert_ne|].
  intros c' i k Hkw. eapply (kept_client c cl'); [done|done|]. intros -> cl0. rewrite Hc. intros [= <-]. apply Hw. by destruct Hkw.
Qed.

(** Room for the queue of the client. *)
Lemma room_ok n d S c cl : inv (n + d) S -> 0 <= n -> 0 <= d -> clients S !! c = Some cl ->
  zlen (commands (c_mstate cl)) <= backlog (queues S) /\ server_ok (n + (backlog (queues S) - zlen (commands (c_mstate cl)))) S /\
  queue_ok (transaction cl).
Proof.
  intros [H1 H2 H3 H4] Hn Hd Hc. pose proof (queues_client S c cl Hc) as Hx. pose proof (backlog_delete _ c _ Hx) as Hb. cbn in Hb.
  pose proof (backlog_nonneg (delete c (queues S))). pose proof (zlen_nonneg (commands (c_mstate cl))).
  split_and!; [lia|apply (server_ok_le (n + d + backlog (queues S))); [done|lia]|exact (H4 c _ Hx)].
Qed.

Lemma discard_step n r c S cl rep : inv (n + cost r) S -> 0 <= n -> clients S !! c = Some cl -> keeps_watch r = false ->
  step_ok n r c S (S ← discardTransaction S c; Some (S, rep)).
Proof.
  intros Hi Hn Hc Hk. destruct (room_ok n (cost r) S c cl Hi Hn (cost_nonneg r) Hc) as (_ & Hok & _).
  destruct (discard_spec _ S c cl Hok Hc) as (S' & -> & Hok' & Hs & Ec). cbn [mbind option_bind].
  apply (step_client n r c S cl (reset cl)); try done; [|by rewrite Hk]. cbn [reset c_mstate initClientMultiState commands]. by rewrite zlen_nil, Z.add_0_r.
Qed.

Lemma set_step n r c S cl cl' rep : inv (n + cost r) S -> 0 <= n -> clients S !! c = Some cl ->
  c_multi cl' = true -> c_mstate cl' = c_mstate cl -> c_watched cl' = c_watched cl -> c_db cl' = c_db cl -> c_dirty_cas cl' = c_dirty_cas cl ->
  step_ok n r c S (Some (set_client S c cl', rep)).
Proof.
  intros Hi Hn Hc E0 E1 E2 E3 E4. pose proof (cost_nonneg r) as Hr. destruct (room_ok n (cost r) S c cl Hi Hn Hr Hc) as (Hz & _ & Hqs).
  pose proof (so_clients _ _ (inv_ok _ _ Hi) c cl Hc) as (_ & Hdb & _). pose proof (zlen_nonneg (commands (c_mstate cl))).
  apply (step_client n r c S cl cl'); try done; [split; cbn; rewrite ?E0, ?E1; [apply Hqs|done]| |intros _; by rewrite E2, E4].
  rewrite E1. eapply set_ok; [|done|done|by rewrite E3]. apply (server_ok_le (n + cost r + backlog (queues S))); [apply (inv_ok _ _ Hi)|lia].
Qed.

Lemma queue_step n c S cl q : inv (n + 1) S -> 0 <= n -> clients S !! c = Some cl -> c_multi cl = true -> queued_ok q ->
  step_ok n (ReqCommand q) c S (S ← queueMultiCommand flags_of S c q; Some (S, MQueued)).
Proof.
  intros Hi Hn Hc Hmul Hq. unfold queueMultiCommand. rewrite Hc. cbn [mbind option_bind]. destruct (c_dirty_exec cl); cbn [mbind option_bind]; [by apply step_none|].
  destruct (room_ok n 1 S c cl Hi Hn ltac:(lia) Hc) as (Hz & _ & Hqs). pose proof (zlen_nonneg (commands (c_mstate cl))).
  pose proof (so_clients _ _ (inv_ok _ _ Hi) c cl Hc) as (_ & Hdb & _).
  eapply (step_client n (ReqCommand q) c S cl); try done; [split; cbn; [apply Forall_app; split; [apply Hqs|by constructor]|by rewrite Hmul]|].
  cbn [c_mstate commands]. rewrite zlen_app. eapply set_ok; [|done|done|done]. apply (server_ok_le (n + 1 + backlog (queues S))); [apply (inv_ok _ _ Hi)|].
  change (zlen [q]) with 1. lia.
Qed.

Lemma watch_step n c S keys : inv (n + zlen keys) S -> 0 <= n -> is_Some (clients S !! c) -> step_ok n (ReqWatch keys) c S (watchCommand can_resize S c keys).
Proof.
  intros Hi Hn [cl Hc]. unfold watchCommand. rewrite Hc. cbn [mbind option_bind]. destruct (c_multi cl); [by apply step_none|].
  pose proof (backlog_nonneg (queues S)) as Hb. pose proof (zlen_nonneg keys). destruct (room_ok n (zlen keys) S c cl Hi Hn ltac:(lia) Hc) as (_ & _ & Hqs).
  destruct (watch_loop_spec (n + backlog (queues S)) c keys ltac:(lia) S cl) as (S' & wks & -> & Hok & Hs & Ec & _ & Hw); [|done|].
  { replace (n + backlog (queues S) + zlen keys) with (n + zlen keys + backlog (queues S)) by lia. apply (inv_ok _ _ Hi). }
  cbn [mbind option_bind]. apply (step_client n (ReqWatch keys) c S cl (with_watched wks cl)); try done. cbn.
  by replace (n + (backlog (queues S) - zlen (commands (c_mstate cl)) + zlen (commands (c_mstate cl)))) with (n + backlog (queues S)) by lia.
Qed.

Lemma exec_step n acl cfgs c S : inv n S -> (forall j, config_ok (cfgs j)) -> is_Some (clients S !! c) -> step_ok n ReqExec c S (execCommand acl cfgs S c).
Proof.
  intros Hi Hcfg [cl Hc]. pose proof (inv_room _ _ Hi) as Hn. assert (inv (n + 0) S) as Hi0 by by rewrite Z.add_0_r.
  destruct (room_ok n 0 S c cl Hi0 Hn ltac:(lia) Hc) as (Hz & _ & Hqs). set (len := zlen (commands (c_mstate cl))) in *.
  destruct (exec_spec (n + (backlog (queues S) - len)) acl cfgs S c cl) as (S' & rep & -> & Hok & Hl & Hk & Hrest); try done; [|lia|apply Hqs|].
  { fold len. replace (n + (backlog (queues S) - len) + len) with (n + backlog (queues S)) by lia. apply (inv_ok _ _ Hi). }
  destruct (c_multi cl); cbn [negb] in Hrest; [|destruct Hrest as [-> ->]; by apply step_none].
  destruct Hrest as (Hq & _ & _). exists S', rep. split; [done|]. pose proof (queues_client S c cl Hc) as Hx. split_and!.
  - eapply (inv_step n 0 S S' c); try done. cbn [snd initClientMultiState commands]. by rewrite zlen_nil, Z.add_0_r.
  - apply dom_queues. rewrite Hq. by rewrite dom_insert_lookup_L.
  - done.
  - intros c' Hne. by rewrite Hq, lookup_insert_ne.
  - intros c' i k [Hne|]; [by apply Hk|done].
Qed.

Lemma call_step n cfg c S q : inv (n + 1) S -> 0 <= n -> is_Some (clients S !! c) -> config_ok cfg -> queued_ok q ->
  step_ok n (ReqCommand q) c S (call cfg S c q).
Proof.
  intros Hi Hn [cl Hc] Hcfg Hq. pose proof (backlog_nonneg (queues S)) as Hb.
  destruct (call_spec (n + backlog (queues S)) cfg S c cl q) as (S' & rep & -> & Hok & Hqq & Hl & Hk); try done; [|lia|].
  { replace (n + backlog (queues S) + 1) with (n + 1 + backlog (queues S)) by lia. apply (inv_ok _ _ Hi). }
  exists S', rep. split_and!; [done|by eapply inv_same|apply dom_queues; by rewrite Hqq|done|by rewrite Hqq|].
  intros c' i k [Hne|Hkw]; apply Hk; [by left|right; by destruct q].
Qed.

Lemma process_spec n acl cfgs rejected c S r : inv (n + cost r) S -> 0 <= n -> (forall j, config_ok (cfgs j)) -> request_ok r -> is_Some (clients S !! c) ->
  step_ok n r c S (processCommand can_resize flags_of acl cfgs rejected S c r).
Proof.
  intros Hi Hn Hcfg Hr [cl Hc]. unfold processCommand. destruct rejected.
  - unfold rejectCommand, flagTransaction. rewrite Hc. cbn [mbind option_bind].
    match goal with |- context [set_client S c ?x] => set (cl1 := x) end.
    destruct r; try (destruct (c_multi cl); cbn [mbind option_bind]; [by apply (set_step n _ c S cl)|by apply step_none]).
    destruct (c_multi cl); cbn [mbind option_bind]; [|by eapply discard_step].
    assert (server_ok (n + backlog (queues S)) S) as Hok by (rewrite <- (Z.add_0_r n); exact (inv_ok _ _ Hi)).
    pose proof (so_clients _ _ Hok c cl Hc) as (_ & Hdb & _).
    destruct (room_ok n 0 S c cl Hi Hn ltac:(lia) Hc) as (_ & Hok0 & _).
    destruct (discard_spec (n + (backlog (queues S) - zlen (commands (c_mstate cl)))) (set_client S c cl1) c cl1) as (S' & -> & Hok' & Hs & Ec);
      [by eapply set_ok|cbn; by rewrite lookup_insert_eq|]. cbn [mbind option_bind].
    apply (step_client n ReqExec c S cl (reset cl)); try done; [rewrite Ec; cbn; by rewrite insert_insert_eq|]. cbn [reset c_mstate initClientMultiState commands].
    by rewrite zlen_nil, Z.add_0_r.
  - rewrite Hc. cbn [mbind option_bind]. destruct r as [| | |keys|q].
    + unfold multiCommand. rewrite Hc. cbn [mbind option_bind]. destruct (c_multi cl); [by apply step_none|by apply (set_step n _ c S cl)].
    + apply exec_step; [by rewrite <- (Z.add_0_r n)|done|by exists cl].
    + unfold discardCommand. rewrite Hc. cbn [mbind option_bind]. destruct (c_multi cl); cbn [negb]; [by eapply discard_step|by apply step_none].
    + apply watch_step; [done|done|by exists cl].
    + destruct (c_multi cl) eqn:Hmul; [by eapply queue_step|by apply call_step; [..|exists cl|apply Hcfg|]].
Qed.

(** ** Connections and sequences of requests *)

(** The event loop accepts or closes a connection, or handles a request that the checks of processCommand let through
    or reject; the clock and the permissions are those at that time. *)
Inductive action := Connect c | Close c | Request c (cfgs : nat -> config) (acl : queued V -> bool) (rejected : bool) (r : request V).

Definition serve S (a : action) : option (server V * option (mreply V)) :=
  match a with
  | Connect c => S ← createClient S c; Some (S, None)
  | Close c => S ← freeClient S c; Some (S, None)
  | Request c cfgs acl rejected r => '(S, rep) ← processCommand can_resize flags_of acl cfgs rejected S c r; Some (S, Some rep)
  end.

Fixpoint serve_all S (acts : list action) : option (server V * list (option (mreply V))) :=
  match acts with
  | [] => Some (S, [])
  | a :: acts => '(S, rep) ← serve S a; '(S, reps) ← serve_all S acts; Some (S, rep :: reps)
  end.

(** Requests come from connected clients [C], and their expire times fit. *)
Definition action_ok (C : gset positive) (a : action) : Prop :=
  match a with
  | Connect c => c ∉ C
  | Close c => c ∈ C
  | Request c cfgs acl rejected r => c ∈ C /\ (forall j, config_ok (cfgs j)) /\ request_ok r
  end.
Definition connected (C : gset positive) (a : action) : gset positive :=
  match a with Connect c => {[c]} ∪ C | Close c => C ∖ {[c]} | Request _ _ _ _ _ => C end.
Fixpoint actions_ok (C : gset positive) (acts : list action) : Prop :=
  match acts with [] => True | a :: acts => action_ok C a /\ actions_ok (connected C a) acts end.

Definition action_cost (a : action) : Z := match a with Request _ _ _ _ r => cost r | _ => 0 end.
Fixpoint actions_cost (acts : list action) : Z := match acts with [] => 0 | a :: acts => action_cost a + actions_cost acts end.

(** Client [c] stays and does not end its transaction or its watching. *)
Definition keeps c (a : action) : bool :=
  match a with
  | Connect _ => true
  | Close c' => bool_decide (c' <> c)
  | Request c' _ _ _ r => bool_decide (c' <> c) || keeps_watch r
  end.

Definition subject (a : action) : positive := match a with Connect c | Close c | Request c _ _ _ _ => c end.

(** Client [c] does not end its transaction: it stays, and sends neither EXEC nor a DISCARD that is let through. *)
Definition in_transaction c (a : action) : bool :=
  bool_decide (subject a <> c) ||
  match a with Request _ _ _ _ ReqExec => false | Request _ _ _ rejected ReqDiscard => rejected | Request _ _ _ _ _ => true | _ => false end.

(** A request of client [c] that the checks reject, and the commands of [c] that they let through. *)
Definition turned_down c (a : action) : bool :=
  bool_decide (subject a = c) && match a with Request _ _ _ rejected _ => rejected | _ => false end.
Definition sent c (a : action) : list (queued V) :=
  if bool_decide (subject a = c) then match a with Request _ _ _ false (ReqCommand q) => [q] | _ => [] end else [].

(** [runs acl cfgs c j S qs S' reps]: client [c] alone runs the commands [qs], the first of them at time [cfgs j];
    a command that the client may no longer run is answered with an error and does nothing. *)
Inductive runs (acl : queued V -> bool) (cfgs : nat -> config) c : nat -> server V -> list (queued V) -> server V -> list (mreply V) -> Prop :=
  | RunsNil j S : runs acl cfgs c j S [] S []
  | RunsCall j S q qs S1 rep S' reps : acl q = true -> call (cfgs j) S c q = Some (S1, rep) ->
      runs acl cfgs c (Datatypes.S j) S1 qs S' reps -> runs acl cfgs c j S (q :: qs) S' (rep :: reps)
  | RunsDenied j S q qs S' reps : acl q = false ->
      runs acl cfgs c (Datatypes.S j) S qs S' reps -> runs acl cfgs c j S (q :: qs) S' (MError :: reps).

Lemma exec_loop_runs acl cfgs c qs : forall j S S' reps, exec_loop acl cfgs S c j qs = Some (S', reps) -> runs acl cfgs c j S qs S' reps.
Proof.
  induction qs as [|q qs IH]; intros j S S' reps; cbn [exec_loop]; [intros [= <- <-]; constructor|].
  intros ([S1 rep] & E1 & ([S2 reps2] & E2 & [= <- <-])%bind_Some)%bind_Some. destruct (acl q) eqn:Ea.
  - eapply RunsCall; [done|exact E1|by apply IH].
  - injection E1 as <- <-. eapply RunsDenied; [done|by apply IH].
Qed.

Lemma action_cost_nonneg a : 0 <= action_cost a.
Proof. destruct a; cbn; try lia. apply cost_nonneg. Qed.
Lemma actions_cost_nonneg acts : 0 <= actions_cost acts.
Proof. induction acts as [|a acts IH]; cbn; [lia|]. pose proof (action_cost_nonneg a). lia. Qed.

Lemma actions_cost_app acts acts' : actions_cost (acts ++ acts') = actions_cost acts + actions_cost acts'.
Proof. induction acts as [|a acts IH]; cbn; [done|]. lia. Qed.

Lemma actions_ok_app C acts acts' : actions_ok C (acts ++ acts') <-> actions_ok C acts /\ actions_ok (foldl connected C acts) acts'.
Proof. revert C. induction acts as [|a acts IH]; intros C; cbn; [tauto|]. rewrite IH. tauto. Qed.

Lemma serve_all_app S acts acts' : serve_all S (acts ++ acts') =
  '(S1, r1) ← serve_all S acts; '(S2, r2) ← serve_all S1 acts'; Some (S2, r1 ++ r2).
Proof.
  revert S. induction acts as [|a acts IH]; intros S; cbn.
  - destruct (serve_all S acts') as [[S2 r2]|]; done.
  - destruct (serve S a) as [[S1 r]|]; [|done]. cbn. rewrite IH. destruct (serve_all S1 acts) as [[S2 rs]|]; [|done]. cbn.
    by destruct (serve_all S2 acts') as [[S3 rs']|].
Qed.

(** A client without watched keys comes or goes. *)
Lemma watchers_none (C : gmap positive (client V)) C' c i W : (forall c', c' <> c -> C' !! c' = C !! c') ->
  (forall cl, C !! c = Some cl -> c_watched cl = []) -> (forall cl, C' !! c = Some cl -> c_watched cl = []) -> watchers C i W -> watchers C' i W.
Proof.
  intros Hne H1 H2 Hw k. destruct (Hw k) as (Hk1 & Hk2 & Hk3). split_and!; [done|done|]. intros c'. rewrite Hk3. destruct (decide (c' = c)) as [->|]; [|by rewrite Hne].
  split; intros (cl & Hc & Hin); [rewrite (H1 cl Hc) in Hin|rewrite (H2 cl Hc) in Hin]; by apply elem_of_nil in Hin.
Qed.

Lemma server_none n S C' c : server_ok n S -> (forall c', c' <> c -> C' !! c' = clients S !! c') -> (forall cl, clients S !! c = Some cl -> c_watched cl = []) ->
  (forall cl, C' !! c = Some cl -> c_watched cl = [] /\ client_ok (zlen (dbs S)) cl) -> server_ok n (mk_server (dbs S) C').
Proof.
  intros Hok Hne H1 H2. split; [apply (so_room _ _ Hok)| |].
  - intros i r Hr. destruct (so_dbs _ _ Hok i r Hr) as (m & W & Hm & HW & Hw & Hz). exists m, W. split_and!; try done; [|lia..].
    apply (watchers_none (clients S) C' c); try done. intros cl Hc. by apply H2.
  - intros c' cl Hc. cbn. destruct (decide (c' = c)) as [->|]; [by apply H2|]. cbn in Hc. rewrite Hne in Hc by done. by apply (so_clients _ _ Hok c').
Qed.

Lemma serve_spec n S a : inv (n + action_cost a) S -> 0 <= n -> action_ok (dom (clients S)) a ->
  exists S' rep, serve S a = Some (S', rep) /\ inv n S' /\ dom (clients S') = connected (dom (clients S)) a /\
    (forall c, c <> subject a -> queues S' !! c = queues S !! c) /\ forall c i k, keeps c a = true -> kept c i k S S'.
Proof.
  intros Hi Hn Ha. destruct a as [c|c|c cfgs acl rejected r]; cbn [serve action_cost connected keeps action_ok] in *.
  - rewrite Z.add_0_r in Hi. unfold createClient. apply not_elem_of_dom in Ha. rewrite Ha. cbn [is_some mbind option_bind].
    match goal with |- context [set_client S c ?x] => set (cl := x) end. eexists _, _. split; [done|].
    assert (queues (set_client S c cl) = <[c := (false, false, initClientMultiState)]> (queues S)) as Hq by by apply (queues_insert S _ c cl).
    assert (queues S !! c = None) as Hn0 by (unfold queues; by rewrite lookup_fmap, Ha). destruct Hi as [H1 H2 H3 H4]. split_and!.
    + split; [|done|done|]; rewrite Hq.
      * rewrite backlog_insert by done. cbn [snd initClientMultiState commands]. rewrite zlen_nil. apply (server_none _ S _ c); try done.
        -- intros c' Hne. by rewrite lookup_insert_ne.
        -- intros cl0. by rewrite Ha.
        -- intros cl0. rewrite lookup_insert_eq. intros [= <-]. split; [done|]. split_and!; cbn; [constructor|lia..|constructor].
      * apply map_Forall_insert_2; [split; [constructor|done]|done].
    + cbn. by rewrite dom_insert_L.
    + intros c' Hne. by rewrite Hq, lookup_insert_ne.
    + intros c' i k _. eapply (kept_client c cl); [by apply same_clients|done|]. intros ->. by rewrite Ha.
  - rewrite Z.add_0_r in Hi. unfold freeClient. apply elem_of_dom in Ha as [cl Hc].
    destruct (unwatch_spec _ S c cl (inv_ok _ _ Hi) Hc) as (S1 & -> & Hok1 & Hs1 & Ec1). cbn [mbind option_bind]. eexists _, _. split; [done|].
    set (S2 := mk_server _ _). assert (queues S2 = delete c (queues S)) as Hq.
    { unfold S2, queues. cbn. by rewrite Ec1, fmap_delete, fmap_insert, delete_insert_eq. }
    pose proof (backlog_delete _ c _ (queues_client S c cl Hc)) as Hb. pose proof (backlog_nonneg (delete c (queues S))). cbn in Hb.
    pose proof (zlen_nonneg (commands (c_mstate cl))). destruct Hi as [Hi1 Hi2 Hi3 Hi4]. split_and!.
    + split; [|done|cbn; by rewrite (proj1 Hs1)|rewrite Hq; by apply map_Forall_delete]. rewrite Hq. apply (server_ok_le (n + backlog (queues S))); [|lia].
      apply (server_none _ S1 _ c); try done.
      * intros c' Hne. by rewrite lookup_delete_ne.
      * intros cl0. rewrite Ec1, lookup_insert_eq. by intros [= <-].
      * intros cl0. by rewrite lookup_delete_eq.
    + cbn. by rewrite Ec1, dom_delete_L, dom_insert_lookup_L.
    + intros c' Hne. by rewrite Hq, lookup_delete_ne.
    + intros c' i k Hne%bool_decide_eq_true cl0 Hc0 Hk. exists cl0. cbn. rewrite Ec1, lookup_delete_ne, lookup_insert_ne by done. split_and!; try done. intros _. apply Hs1.
  - destruct Ha as (Hc%elem_of_dom & Hcfg & Hr). destruct (process_spec n acl cfgs rejected c S r Hi Hn Hcfg Hr Hc) as (S' & rep & -> & Hi' & Hd & _ & Hq & Hk).
    cbn [mbind option_bind]. eexists _, _. split_and!; [done|done|done|done|]. intros c' i k [Hne%bool_decide_eq_true|Hw]%orb_prop; apply Hk; [by left|by right].
Qed.

Lemma serve_all_spec n acts : 0 <= n -> forall S, inv (n + actions_cost acts) S -> actions_ok (dom (clients S)) acts ->
  exists S' reps, serve_all S acts = Some (S', reps) /\ inv n S' /\ dom (clients S') = foldl connected (dom (clients S)) acts /\ length reps = length acts /\
    forall c i k, forallb (keeps c) acts = true -> kept c i k S S'.
Proof.
  intros Hn. induction acts as [|a acts IH]; intros S Hi Hok; cbn [serve_all actions_cost actions_ok foldl forallb] in *.
  { rewrite Z.add_0_r in Hi. eexists _, _. split_and!; try done. intros. apply kept_refl. }
  destruct Hok as [Ha Hok]. pose proof (actions_cost_nonneg acts) as Hc.
  destruct (serve_spec (n + actions_cost acts) S a) as (S1 & rep & -> & Hi1 & Hd1 & _ & Hk1); [|lia|done|].
  { by replace (n + actions_cost acts + action_cost a) with (n + (action_cost a + actions_cost acts)) by lia. }
  cbn [mbind option_bind]. destruct (IH S1 Hi1) as (S2 & reps & -> & Hi2 & Hd2 & Hr2 & Hk2); [by rewrite Hd1|]. cbn [mbind option_bind].
  eexists _, _. split_and!; [done|done|by rewrite Hd2, Hd1|cbn; by rewrite Hr2|]. intros c i k [E1 E2]%andb_prop. eapply kept_trans; [by apply Hk1|by apply Hk2].
Qed.

(** What one request of the client in a transaction does to its queue. *)
Lemma queue_step_own c S S1 rep a dirty ms : subject a = c -> in_transaction c a = true -> serve S a = Some (S1, rep) -> queues S !! c = Some (true, dirty, ms) ->
  exists ms1, queues S1 !! c = Some (true, dirty || turned_down c a, ms1) /\
    (dirty || turned_down c a = false -> commands ms1 = commands ms ++ sent c a).
Proof.
  intros Es Hin E Hq. unfold in_transaction, turned_down, sent in *. rewrite bool_decide_eq_false_2 in Hin by naive_solver. rewrite !bool_decide_eq_true_2 by done.
  destruct a as [| |c' cfgs acl rejected r]; try done. cbn in Es. subst c'. cbn [andb orb] in *. unfold queues in *. rewrite lookup_fmap in *.
  destruct (clients S !! c) as [cl|] eqn:Ecl; [|done]. injection Hq as Em Ed Ems. cbn [serve] in E. apply bind_Some in E as ([S2 rep2] & E & [= -> <-]). destruct rejected.
  - rewrite orb_true_r. unfold processCommand, rejectCommand, flagTransaction in E. rewrite Ecl in E. cbn [mbind option_bind] in E. rewrite Em in E. cbn [mbind option_bind] in E.
    destruct r; try done; injection E as <- _; exists ms; cbn; rewrite lookup_insert_eq; cbn; by rewrite Ems.
  - rewrite orb_false_r. unfold processCommand in E. rewrite Ecl in E. cbn [mbind option_bind] in E.
    unfold multiCommand, watchCommand, queueMultiCommand in E. rewrite Ecl in E. cbn [mbind option_bind] in E. rewrite Em, ?Ed in E.
    destruct r as [| | |keys|q]; try done; [injection E as <- _; exists ms; rewrite Ecl; cbn; by rewrite Em, Ed, Ems, app_nil_r..|].
    destruct dirty; cbn [mbind option_bind] in E; injection E as <- _; [exists ms; rewrite Ecl; cbn; by rewrite Em, Ed, Ems|].
    eexists. cbn. rewrite lookup_insert_eq. cbn. split; [done|]. intros _. cbn. by rewrite Ems.
Qed.

(** The queue of a transaction holds the commands the client sent, whatever the others do, and is given up once a
    request of the client was rejected. *)
Lemma queue_grows c n acts : 0 <= n -> forallb (in_transaction c) acts = true -> forall S S' reps dirty ms, inv (n + actions_cost acts) S -> actions_ok (dom (clients S)) acts ->
  serve_all S acts = Some (S', reps) -> queues S !! c = Some (true, dirty, ms) ->
  exists ms', queues S' !! c = Some (true, dirty || existsb (turned_down c) acts, ms') /\
    (dirty || existsb (turned_down c) acts = false -> commands ms' = commands ms ++ concat (sent c <$> acts)).
Proof.
  intros Hn. induction acts as [|a acts IH]; intros Hoc S S' reps dirty ms Hi Hok; cbn [serve_all actions_cost actions_ok forallb existsb fmap list_fmap concat] in *.
  { intros [= <- _] Hq. exists ms. by rewrite orb_false_r, app_nil_r. }
  destruct Hok as [Ha Hok]. apply andb_prop in Hoc as [Hoa Hoc]. pose proof (actions_cost_nonneg acts) as Hc.
  destruct (serve_spec (n + actions_cost acts) S a) as (S1 & rep & E1 & Hi1 & Hd1 & Hq1 & _); [|lia|done|].
  { by replace (n + actions_cost acts + action_cost a) with (n + (action_cost a + actions_cost acts)) by lia. }
  rewrite E1. cbn [mbind option_bind]. destruct (serve_all S1 acts) as [[S2 reps2]|] eqn:E2; [|done]. cbn [mbind option_bind]. intros [= <- _] Hq.
  assert (exists ms1, queues S1 !! c = Some (true, dirty || turned_down c a, ms1) /\ (dirty || turned_down c a = false -> commands ms1 = commands ms ++ sent c a)) as (ms1 & Hms1 & Ecmd).
  { destruct (decide (subject a = c)) as [Es|Hne]; [by eapply queue_step_own|]. exists ms. unfold turned_down, sent.
    rewrite !bool_decide_eq_false_2 by done. cbn [andb]. rewrite orb_false_r, app_nil_r, Hq1 by done. done. }
  destruct (IH Hoc S1 S2 reps2 (dirty || turned_down c a) ms1 Hi1) as (ms2 & Hms2 & Ecmd2); [by rewrite Hd1|done|done|].
  rewrite <- orb_assoc in Hms2, Ecmd2. exists ms2. split; [done|].
  intros Hf. rewrite Ecmd2 by done. rewrite Ecmd, app_assoc by (destruct dirty, (turned_down c a); done). done.
Qed.

(** WATCH outside of a transaction. *)
Lemma watch_reply n S S' c cl keys : inv (n + zlen keys) S -> 0 <= n -> clients S !! c = Some cl -> watchCommand can_resize S c keys = Some (S', MOk) ->
  same_data S S' /\ exists cl', clients S' !! c = Some cl' /\ forall k, k ∈ keys -> (c_db cl, k) ∈ c_watched cl'.
Proof.
  intros Hi Hn Hc. unfold watchCommand. rewrite Hc. cbn [mbind option_bind]. destruct (c_multi cl); [done|]. pose proof (backlog_nonneg (queues S)) as Hb.
  destruct (watch_loop_spec (n + backlog (queues S)) c keys ltac:(lia) S cl) as (S1 & wks & -> & _ & Hs & Ec & Hk & _); [|done|].
  { replace (n + backlog (queues S) + zlen keys) with (n + zlen keys + backlog (queues S)) by lia. apply (inv_ok _ _ Hi). }
  cbn [mbind option_bind]. intros [= <-]. split; [done|]. exists (with_watched wks cl). by rewrite Ec, lookup_insert_eq.
Qed.

(** MULTI outside of a transaction starts with an empty queue. *)
Lemma multi_reply n S S' c : inv n S -> multiCommand S c = Some (S', MOk) ->
  exists ms, queues S' !! c = Some (true, false, ms) /\ commands ms = [].
Proof.
  unfold multiCommand. intros Hi (cl & Hc & E)%bind_Some. destruct (c_multi cl) eqn:Em; [done|]. injection E as <-.
  destruct (inv_queues _ _ Hi c _ (queues_client S c cl Hc)) as [_ [Ed Eq]]; [done|]. cbn in Ed, Eq.
  exists (c_mstate cl). unfold queues. cbn. by rewrite fmap_insert, lookup_insert_eq, Ed.
Qed.

(** EXEC that runs: the client was not marked. *)
Lemma exec_reply acl cfgs S S' c reps : execCommand acl cfgs S c = Some (S', MArray reps) ->
  exists cl, clients S !! c = Some cl /\ c_multi cl = true /\ c_dirty_cas cl = false /\ c_dirty_exec cl = false.
Proof.
  unfold execCommand. intros (cl & Hc & E)%bind_Some. exists cl. split; [done|]. destruct (c_multi cl); [|done]. cbn [negb] in E.
  destruct (c_dirty_cas cl || c_dirty_exec cl) eqn:Ed; [|by apply orb_false_elim in Ed].
  apply bind_Some in E as (S1 & _ & E). by destruct (c_dirty_exec cl).
Qed.

(** EXEC: the reply and the data, and the transaction is over. *)
Lemma exec_cases n acl cfgs S S' c cl rep : inv n S -> (forall j, config_ok (cfgs j)) -> clients S !! c = Some cl -> c_multi cl = true ->
  execCommand acl cfgs S c = Some (S', rep) ->
  (exists cl', clients S' !! c = Some cl' /\ transaction cl' = (false, false, initClientMultiState) /\ c_watched cl' = []) /\
  if c_dirty_exec cl then rep = MExecAbort /\ same_data S S' else
  if c_dirty_cas cl then rep = MNullArray /\ same_data S S' else
  exists S1 S2 reps, unwatchAllKeys S c = Some S1 /\ same_data S S1 /\ runs acl cfgs c 0 S1 (commands (c_mstate cl)) S2 reps /\
    same_data S2 S' /\ rep = MArray reps.
Proof.
  intros Hi Hcfg Hc Em. pose proof (inv_room _ _ Hi) as Hn. destruct (room_ok n 0 S c cl) as (Hz & Hok & Hqs & _); [by rewrite Z.add_0_r|done|lia|done|]. pose proof (inv_ok _ _ Hi) as Hok0.
  cbn [transaction snd] in Hqs. unfold execCommand. rewrite Hc. cbn [mbind option_bind]. rewrite Em. cbn [negb]. destruct (c_dirty_cas cl || c_dirty_exec cl) eqn:Ed.
  - destruct (discard_spec _ S c cl Hok Hc) as (S1 & -> & _ & Hs & Ec). cbn [mbind option_bind]. intros [= <- <-].
    split; [exists (reset cl); by rewrite Ec, lookup_insert_eq|]. destruct (c_dirty_exec cl); [done|]. rewrite orb_false_r in Ed. by rewrite Ed.
  - apply orb_false_elim in Ed as [-> ->].
    destruct (unwatch_spec _ S c cl Hok0 Hc) as (S1 & -> & Hok1 & Hs1 & Ec1). cbn [mbind option_bind].
    destruct (exec_loop_spec (n + (backlog (queues S) - zlen (commands (c_mstate cl)))) acl cfgs c (commands (c_mstate cl)) ltac:(lia) Hcfg Hqs S1 O) as (S2 & reps & E & Hok2 & Hq2 & _).
    { by replace (n + (backlog (queues S) - zlen (commands (c_mstate cl))) + zlen (commands (c_mstate cl))) with (n + backlog (queues S)) by lia. }
    { rewrite Ec1, lookup_insert_eq. by eexists. }
    rewrite E. cbn [mbind option_bind]. destruct (queues_some S1 S2 c (with_watched [] cl) Hq2) as (cl2 & Hc2 & _); [by rewrite Ec1, lookup_insert_eq|].
    destruct (discard_spec _ S2 c cl2 Hok2 Hc2) as (S3 & -> & _ & Hs3 & Ec3). cbn [mbind option_bind]. intros [= <- <-].
    split; [exists (reset cl2); by rewrite Ec3, lookup_insert_eq|]. exists S1, S2, reps. split_and!; try done. by apply exec_loop_runs.
Qed.

(** The databases at start. *)
Definition boot (dbnum : nat) : server V := mk_server (replicate dbnum (mk_rdb db_new dictCreate)) ∅.

Lemma boot_ok n dbnum : 0 <= n -> n + 2 < DICT_BOUND -> (0 < dbnum)%nat -> inv n (boot dbnum).
Proof.
  intros Hn Hb Hd. assert (queues (boot dbnum) = ∅) as Hq by apply fmap_empty.
  split; [|done|unfold zlen; cbn; rewrite length_replicate; lia|rewrite Hq; apply map_Forall_empty]. rewrite Hq. unfold backlog. rewrite map_fold_empty, Z.add_0_r.
  split; [done| |apply map_Forall_empty]. intros i r Hr. unfold znth in Hr. destruct (0 <=? i); [|done]. apply lookup_replicate in Hr as [-> _].
  exists ∅, ∅. rewrite !map_size_empty. split_and!; [apply db_new_repr|apply repr_create| |lia..].
  intros k. rewrite lookup_empty. cbn. split_and!; [constructor|done|]. intros c. split; [by intros ?%elem_of_nil|]. intros (cl & Hc & _). by rewrite lookup_empty in Hc.
Qed.

(** A run with two distinguished actions. *)
Lemma bracket dbnum a b acts1 acts2 : (0 < dbnum)%nat -> actions_ok ∅ (acts1 ++ a :: acts2 ++ [b]) -> actions_cost (acts1 ++ a :: acts2 ++ [b]) + 2 < DICT_BOUND ->
  exists S0 S1 S2 S3 r0 r1 r2 r3, serve_all (boot dbnum) acts1 = Some (S0, r0) /\ serve S0 a = Some (S1, r1) /\ serve_all S1 acts2 = Some (S2, r2) /\ serve S2 b = Some (S3, r3) /\
    inv (actions_cost acts2 + action_cost b + action_cost a) S0 /\ inv (action_cost b + actions_cost acts2) S1 /\ actions_ok (dom (clients S1)) acts2 /\
    inv (action_cost b) S2 /\ action_ok (dom (clients S2)) b /\ forall c i k, forallb (keeps c) acts2 = true -> kept c i k S1 S2.
Proof.
  intros Hd Hok Hb. pose proof (actions_cost_nonneg acts1). pose proof (actions_cost_nonneg acts2). pose proof (action_cost_nonneg a). pose proof (action_cost_nonneg b).
  apply actions_ok_app in Hok as [Hok1 Hok]. cbn [actions_ok] in Hok. destruct Hok as [Hoka Hok]. apply actions_ok_app in Hok as [Hok2 [Hokb _]].
  rewrite actions_cost_app in Hb. cbn [actions_cost] in Hb. rewrite actions_cost_app in Hb. cbn [actions_cost] in Hb.
  destruct (serve_all_spec (actions_cost acts2 + action_cost b + action_cost a) acts1 ltac:(lia) (boot dbnum)) as (S0 & r0 & E0 & Hi0 & Hd0 & _); [apply boot_ok; lia|done|].
  cbn [boot clients] in Hd0. rewrite dom_empty_L in Hd0. rewrite <- Hd0 in *.
  destruct (serve_spec (actions_cost acts2 + action_cost b) S0 a Hi0 ltac:(lia) Hoka) as (S1 & r1 & E1 & Hi1 & Hd1 & _). rewrite <- Hd1 in *. rewrite Z.add_comm in Hi1.
  destruct (serve_all_spec (action_cost b) acts2 ltac:(lia) S1 Hi1 Hok2) as (S2 & r2 & E2 & Hi2 & Hd2 & _ & Hk). rewrite <- Hd2 in Hokb.
  destruct (serve_spec 0 S2 b Hi2 ltac:(lia) Hokb) as (S3 & r3 & E3 & _). exists S0, S1, S2, S3, r0, r1, r2, r3. done.
Qed.

End Steps.

Section Theorems.
Context {V : Type} `{DictType bytes} (can_resize : bool) (flags_of : queued V -> Z).

(** C22. Every sequence of connections, requests and disconnections of any number of clients is served, one reply each;
    afterwards the list of watching clients of every key is exactly the set of the connected clients that watch it. *)
Theorem requests_complete (T : Z) dbnum (acts : list (@action V)) :
  T <= LLONG_MAX -> (0 < dbnum)%nat -> actions_ok T ∅ acts -> actions_cost acts + 2 < DICT_BOUND ->
  exists S reps, serve_all can_resize flags_of (boot dbnum) acts = Some (S, reps) /\ length reps = length acts /\
    forall i r, (dbs S).[i] = Some r -> watchers (clients S) i (to_map (watched_keys r)).
Proof.
  intros HT Hd Hok Hb. pose proof (actions_cost_nonneg acts) as Hc.
  destruct (serve_all_spec can_resize flags_of T HT 0 acts ltac:(lia) (boot dbnum)) as (S & reps & E & Hi & _ & Hl & _); [by apply boot_ok|done|].
  exists S, reps. split_and!; try done. intros i r Hr. destruct (so_dbs _ _ (inv_ok _ _ _ Hi) i r Hr) as (m & W & _ & [_ <-] & Hw & _). done.
Qed.

(** C1. Optimistic locking: if client [c] watches keys and then neither ends its transaction nor unwatches nor
    disconnects, while it and the other clients do anything else, then an EXEC that runs the transaction finds every
    watched key with the value and the expire time it had when WATCH returned. *)
Theorem optimistic_lock (T : Z) dbnum c cfgs acl cfgs' acl' keys (acts1 acts2 : list (@action V)) :
  T <= LLONG_MAX -> (0 < dbnum)%nat ->
  let watch := Request c cfgs acl false (ReqWatch keys) in let exec := Request c cfgs' acl' false ReqExec in
  actions_ok T ∅ (acts1 ++ watch :: acts2 ++ [exec]) -> actions_cost (acts1 ++ watch :: acts2 ++ [exec]) + 2 < DICT_BOUND ->
  forallb (keeps c) acts2 = true ->
  exists S0 S1 S2 S3 r0 r1 r2 r3, serve_all can_resize flags_of (boot dbnum) acts1 = Some (S0, r0) /\ serve can_resize flags_of S0 watch = Some (S1, r1) /\
    serve_all can_resize flags_of S1 acts2 = Some (S2, r2) /\ serve can_resize flags_of S2 exec = Some (S3, r3) /\
    forall cl reps k, clients S0 !! c = Some cl -> r1 = Some MOk -> r3 = Some (MArray reps) -> k ∈ keys -> stored S2 (c_db cl) k = stored S0 (c_db cl) k.
Proof.
  intros HT Hd watch exec Hok Hb Hkeep. pose proof (actions_cost_nonneg acts2) as Hn.
  destruct (bracket can_resize flags_of T HT dbnum watch exec acts1 acts2 Hd Hok Hb) as (S0 & S1 & S2 & S3 & r0 & r1 & r2 & r3 & E0 & E1 & E2 & E3 & Hi0 & _ & _ & _ & _ & Hk2).
  cbn in Hi0. rewrite Z.add_0_r in Hi0.
  exists S0, S1, S2, S3, r0, r1, r2, r3. split_and!; try done. intros cl reps k Hc -> -> Hk.
  cbn [serve watch processCommand] in E1. rewrite Hc in E1. cbn [mbind option_bind] in E1. apply bind_Some in E1 as ([S1' rep] & E1 & [= -> ->]).
  destruct (watch_reply can_resize T HT _ S0 S1 c cl keys Hi0 Hn Hc E1) as ([_ Hs01] & cl1 & Hc1 & Hw). specialize (Hw k Hk).
  destruct (Hk2 c (c_db cl) k Hkeep cl1 Hc1 Hw) as (cl2 & Hc2 & _ & _ & Hst). rewrite <- Hs01. apply Hst.
  cbn [serve exec processCommand] in E3. rewrite Hc2 in E3. cbn [mbind option_bind] in E3. apply bind_Some in E3 as ([S3' rep'] & E3 & [= -> ->]).
  apply exec_reply in E3 as (cl2' & Hc2' & _ & Hdc & _). congruence.
Qed.

(** C21. A transaction is all or nothing: after MULTI client [c] goes on with its transaction while the other clients do
    anything.  If one of its requests was rejected, EXEC answers EXECABORT and changes no key.  Otherwise, if the
    client was marked because a key it watches changed, EXEC answers with a null array and changes no key.  Otherwise
    EXEC runs exactly the commands the client sent, in their order and with nothing in between, and replies with one
    reply for each; a command that the client may no longer run then has an error as its reply and does nothing.
    The transaction is over in every case. *)
Theorem exec_all_or_nothing (T : Z) dbnum c cfgs acl cfgs' acl' (acts1 acts2 : list (@action V)) :
  T <= LLONG_MAX -> (0 < dbnum)%nat ->
  let multi := Request c cfgs acl false ReqMulti in let exec := Request c cfgs' acl' false ReqExec in
  actions_ok T ∅ (acts1 ++ multi :: acts2 ++ [exec]) -> actions_cost (acts1 ++ multi :: acts2 ++ [exec]) + 2 < DICT_BOUND ->
  forallb (in_transaction c) acts2 = true ->
  exists S0 S1 S2 S3 r0 r1 r2 r3, serve_all can_resize flags_of (boot dbnum) acts1 = Some (S0, r0) /\ serve can_resize flags_of S0 multi = Some (S1, r1) /\
    serve_all can_resize flags_of S1 acts2 = Some (S2, r2) /\ serve can_resize flags_of S2 exec = Some (S3, r3) /\
    (r1 = Some MOk -> exists cl2 cl3, clients S2 !! c = Some cl2 /\ clients S3 !! c = Some cl3 /\
      c_multi cl3 = false /\ commands (c_mstate cl3) = [] /\ c_watched cl3 = [] /\
      if existsb (turned_down c) acts2 then r3 = Some MExecAbort /\ same_data S2 S3
      else if c_dirty_cas cl2 then r3 = Some MNullArray /\ same_data S2 S3
      else exists S S' reps, unwatchAllKeys S2 c = Some S /\ same_data S2 S /\ runs acl' cfgs' c 0 S (concat (sent c <$> acts2)) S' reps /\
        same_data S' S3 /\ r3 = Some (MArray reps)).
Proof.
  intros HT Hd multi exec Hok Hb Hoc. pose proof (actions_cost_nonneg acts2) as Hn.
  destruct (bracket can_resize flags_of T HT dbnum multi exec acts1 acts2 Hd Hok Hb) as
    (S0 & S1 & S2 & S3 & r0 & r1 & r2 & r3 & E0 & E1 & E2 & E3 & Hi0 & Hi1 & Hok2 & Hi2 & (_ & Hcfg & _) & _).
  exists S0, S1, S2, S3, r0, r1, r2, r3. split_and!; try done. intros ->. cbn [serve multi exec] in E1, E3.
  apply bind_Some in E1 as ([S1' rep1] & E1 & [= -> ->]). apply bind_Some in E3 as ([S3' rep3] & E3 & [= -> <-]).
  unfold processCommand in E1, E3. apply bind_Some in E1 as (cl0 & _ & E1). apply bind_Some in E3 as (cl2 & Hc2 & E3).
  destruct (multi_reply T _ S0 S1 c Hi0 E1) as (ms & Hms & Enil).
  destruct (queue_grows can_resize flags_of T HT c 0 acts2 ltac:(lia) Hoc S1 S2 r2 false ms Hi1 Hok2 E2 Hms) as (ms2 & Hms2 & Ecmd). rewrite Enil in Ecmd. cbn [app orb] in Ecmd, Hms2.
  rewrite (queues_client S2 c cl2 Hc2) in Hms2. injection Hms2 as Em Ed Ems.
  destruct (exec_cases T HT _ acl' cfgs' S2 S3 c cl2 rep3 Hi2 Hcfg Hc2 Em E3) as ((cl3 & Hc3 & [= Em3 Ed3 Ems3] & Hw3) & Hr). exists cl2, cl3. split_and!; try done; [by rewrite Ems3|].
  rewrite <- Ed. destruct (c_dirty_exec cl2) eqn:Edx; [destruct Hr as [-> Hr]; done|]. destruct (c_dirty_cas cl2); [destruct Hr as [-> Hr]; done|].
  destruct Hr as (S & S' & reps & H1 & H2 & H3 & H4 & ->). rewrite Ems, Ecmd in H3 by done. by exists S, S', reps.
Qed.

End Theorems.

(** ** Concrete runs

    Client 1 watches a key and queues a command that writes it; client 2 works
    on another key, or on the same. *)
#[local] Existing Instance bytes_dict_type.

Definition demo_cfgs (_ : nat) : config := at_time 1000.
Definition demo_ask c (r : request Z) : @action Z := Request c demo_cfgs (fun _ => true) false r.
Definition demo_run := serve_all (V := Z) true (fun _ => 0).

Definition demo_start : list (@action Z) := [Connect 1; Connect 2; demo_ask 2 (ReqCommand (QCmd (CSet 0 [97] 1 None)))].
Definition demo_between (key : bytes) : list (@action Z) :=
  [demo_ask 1 ReqMulti; demo_ask 2 (ReqCommand (QCmd (CSet 0 key 5 None))); demo_ask 1 (ReqCommand (QCmd (CSet 0 [97] 7 None)));
   demo_ask 2 (ReqCommand (QSelect 1)); demo_ask 1 (ReqCommand (QCmd (CGet [97])))].
Definition demo_acts (key : bytes) : list (@action Z) :=
  demo_start ++ demo_ask 1 (ReqWatch [[97]]) :: demo_between key ++ [demo_ask 1 ReqExec].

Lemma demo_acts_ok key : actions_ok 1000 ∅ (demo_acts key) /\ actions_cost (demo_acts key) + 2 < DICT_BOUND.
Proof.
  assert (forall j, config_ok 1000 (demo_cfgs j)) as Hc by (intros j; cbn; unfold config_ok; cbn; lia || (repeat split; cbn; lia)).
  split; [|vm_compute; reflexivity]. cbn. unfold action_ok, demo_ask. cbn. split_and!; try done; set_solver.
Qed.

Lemma requests_complete_witness :
  exists S reps, demo_run (boot 2) (demo_acts [98]) = Some (S, reps) /\ length reps = 10%nat /\
    forall i r, (dbs S).[i] = Some r -> watchers (clients S) i (to_map (watched_keys r)).
Proof.
  refine (requests_complete true (fun _ => 0) 1000 2 (demo_acts [98]) _ _ (proj1 (demo_acts_ok _)) (proj2 (demo_acts_ok _))); [unfold LLONG_MAX; lia|lia].
Defined.

Definition demo_after (acts : list (@action Z)) : server Z := default (boot 2) (fst <$> demo_run (boot 2) acts).

(** The run without a conflict. *)
Lemma optimistic_lock_witness :
  snd <$> serve true (fun _ => 0) (demo_after (take 9 (demo_acts [98]))) (demo_ask 1 ReqExec) = Some (Some (MArray [MReply RepOk; MReply (RepVal 7)])) /\
  stored (demo_after (take 9 (demo_acts [98]))) 0 [97] = stored (demo_after demo_start) 0 [97].
Proof.
  split; [vm_compute; reflexivity|].
  destruct (optimistic_lock true (fun _ => 0) 1000 2 1 demo_cfgs (fun _ => true) demo_cfgs (fun _ => true) [[97]] demo_start (demo_between [98]))
    as (S0 & S1 & S2 & S3 & r0 & r1 & r2 & r3 & E0 & E1 & E2 & E3 & Hst); [unfold LLONG_MAX; lia|lia|apply (proj1 (demo_acts_ok [98]))|apply (proj2 (demo_acts_ok [98]))|reflexivity|].
  assert (demo_after demo_start = S0) as <- by (unfold demo_after, demo_run; by rewrite E0).
  assert (demo_after (take 9 (demo_acts [98])) = S2) as <-.
  { unfold demo_after, demo_run. change (take 9 (demo_acts [98])) with (demo_start ++ demo_ask 1 (ReqWatch [[97]]) :: demo_between [98]).
    rewrite serve_all_app, E0. cbn [mbind option_bind serve_all]. unfold demo_ask at 1. rewrite E1. cbn [mbind option_bind]. by rewrite E2. }
  destruct (clients (demo_after demo_start) !! 1%positive) as [cl|] eqn:Ecl; [|by vm_compute in Ecl].
  assert (c_db cl = 0) as Ez by (vm_compute in Ecl; by injection Ecl as <-). rewrite <- Ez.
  eapply (Hst cl _ [97] eq_refl); [vm_compute in E1; by injection E1 as _ <-|vm_compute in E3; by injection E3 as _ <-|left].
Defined.

(** The other client writes the watched key: nothing runs. *)
Example conflict_aborts :
  snd <$> serve true (fun _ => 0) (demo_after (take 9 (demo_acts [97]))) (demo_ask 1 ReqExec) = Some (Some MNullArray) /\
  fst <$> stored (demo_after (demo_acts [97])) 0 [97] = Some 5.
Proof. split; vm_compute; reflexivity. Qed.

(** Client 1 sends the write again, and that request is rejected: EXEC aborts. *)
Definition demo_rejected (key : bytes) : list (@action Z) :=
  drop 1 (demo_between key) ++ [Request 1 demo_cfgs (fun _ => true) true (ReqCommand (QCmd (CSet 0 [97] 7 None)))].
Definition demo_head : list (@action Z) := demo_start ++ [demo_ask 1 (ReqWatch [[97]])].

Lemma demo_rejected_ok key : actions_ok 1000 ∅ (demo_head ++ demo_ask 1 ReqMulti :: demo_rejected key ++ [demo_ask 1 ReqExec]) /\
  actions_cost (demo_head ++ demo_ask 1 ReqMulti :: demo_rejected key ++ [demo_ask 1 ReqExec]) + 2 < DICT_BOUND.
Proof.
  assert (forall j, config_ok 1000 (demo_cfgs j)) as Hc by (intros j; cbn; unfold config_ok; cbn; lia || (repeat split; cbn; lia)).
  split; [|vm_compute; reflexivity]. cbn. unfold action_ok, demo_ask. cbn. split_and!; try done; set_solver.
Qed.

Lemma exec_all_or_nothing_witness :
  (exists S2 S3 S S' reps, serve true (fun _ => 0) S2 (demo_ask 1 ReqExec) = Some (S3, Some (MArray reps)) /\ unwatchAllKeys S2 1 = Some S /\
     runs (fun _ => true) demo_cfgs 1 0 S [QCmd (CSet 0 [97] 7 None); QCmd (CGet [97])] S' reps /\ same_data S' S3) /\
  (exists S2 S3, serve true (fun _ => 0) S2 (demo_ask 1 ReqExec) = Some (S3, Some MExecAbort) /\ same_data S2 S3).
Proof.
  split.
  - destruct (exec_all_or_nothing true (fun _ => 0) 1000 2 1 demo_cfgs (fun _ => true) demo_cfgs (fun _ => true) demo_head (drop 1 (demo_between [98])))
      as (S0 & S1 & S2 & S3 & r0 & r1 & r2 & r3 & E0 & E1 & E2 & E3 & Hst); [unfold LLONG_MAX; lia|lia|apply (proj1 (demo_acts_ok [98]))|apply (proj2 (demo_acts_ok [98]))|reflexivity|].
    assert (r1 = Some MOk) as Er by (vm_compute in E0; injection E0 as <- _; vm_compute in E1; by injection E1 as _ <-).
    destruct (Hst Er) as (cl2 & cl3 & Hc2 & _ & _ & _ & _ & Hr).
    assert (c_dirty_cas cl2 = false) as Ed.
    { vm_compute in E0. injection E0 as <- _. vm_compute in E1. injection E1 as <- _. vm_compute in E2. injection E2 as <- _. vm_compute in Hc2. by injection Hc2 as <-. }
    rewrite Ed in Hr. destruct Hr as (S & S' & reps & H1 & _ & H3 & H4 & ->). exists S2, S3, S, S', reps. exact (conj E3 (conj H1 (conj H3 H4))).
  - destruct (exec_all_or_nothing true (fun _ => 0) 1000 2 1 demo_cfgs (fun _ => true) demo_cfgs (fun _ => true) demo_head (demo_rejected [98]))
      as (S0 & S1 & S2 & S3 & r0 & r1 & r2 & r3 & E0 & E1 & E2 & E3 & Hst); [unfold LLONG_MAX; lia|lia|apply (proj1 (demo_rejected_ok [98]))|apply (proj2 (demo_rejected_ok [98]))|reflexivity|].
    assert (r1 = Some MOk) as Er by (vm_compute in E0; injection E0 as <- _; vm_compute in E1; by injection E1 as _ <-).
    destruct (Hst Er) as (cl2 & cl3 & _ & _ & _ & _ & _ & [-> Hs]). exists S2, S3. exact (conj E3 Hs).
Defined.
