(* ===== verification/Resp.v ===== *)
(** * Reading requests from clients (networking.c)

    What a client sends arrives in pieces of any size.  Each piece is appended to
    the query buffer, an sds, and the parser takes complete elements from it: a
    request in the RESP format is the number of its arguments and every argument
    with its length; anything else is a line of words.  What is incomplete stays
    in the buffer until more arrives.

    The commands the parser finds are recorded in the order it hands them to
    processCommand.  Not modelled: the text of replies and log messages, threaded
    reads, paused and blocked clients, the replication offset of masters. *)

From stdpp Require Import base list numbers option strings.
From Stdlib Require Import ZArith Lia.
From S2P Require Import Prelude Util Sds SdsText SdsSplit Object.

Definition PROTO_IOBUF_LEN : Z := 1024 * 16.
Definition PROTO_INLINE_MAX_SIZE : Z := 1024 * 64.
Definition PROTO_MBULK_BIG_ARG : Z := 1024 * 32.
Definition PROTO_REQ_INLINE : Z := 1.
Definition PROTO_REQ_MULTIBULK : Z := 2.

(** What the parser hands on. *)
Inductive handed := Execute (argv : list strobj) | Gopher (argv : list strobj).

(** The fields of [client] that the parser uses; [closing] and [asap] are the flags
    CLIENT_CLOSE_AFTER_REPLY and CLIENT_CLOSE_ASAP, [log] is what was handed on. *)
Record iclient := mk_iclient {
  querybuf : sds; qb_pos : Z; reqtype : Z; argv : list strobj; argv_len_sum : Z; multibulklen : Z; bulklen : Z;
  closing : bool; asap : bool; log : list handed
}.

Definition set_query (q : sds) (pos : Z) (c : iclient) : iclient :=
  mk_iclient q pos (reqtype c) (argv c) (argv_len_sum c) (multibulklen c) (bulklen c) (closing c) (asap c) (log c).
Definition set_reqtype (t : Z) (c : iclient) : iclient :=
  mk_iclient (querybuf c) (qb_pos c) t (argv c) (argv_len_sum c) (multibulklen c) (bulklen c) (closing c) (asap c) (log c).
Definition set_args (args : list strobj) (sum mblen blen : Z) (c : iclient) : iclient :=
  mk_iclient (querybuf c) (qb_pos c) (reqtype c) args sum mblen blen (closing c) (asap c) (log c).
Definition set_closing (c : iclient) : iclient :=
  mk_iclient (querybuf c) (qb_pos c) (reqtype c) (argv c) (argv_len_sum c) (multibulklen c) (bulklen c) true (asap c) (log c).
Definition freeClientAsync (c : iclient) : iclient :=
  mk_iclient (querybuf c) (qb_pos c) (reqtype c) (argv c) (argv_len_sum c) (multibulklen c) (bulklen c) (closing c) true (log c).
Definition hand_on (h : handed) (closes : bool) (c : iclient) : iclient :=
  mk_iclient (querybuf c) (qb_pos c) (reqtype c) (argv c) (argv_len_sum c) (multibulklen c) (bulklen c) (closing c || closes) (asap c) (log c ++ [h]).

(** [strchr(p, ch)] from offset [pos] on: the offset, or NULL at the terminator. *)
Fixpoint strchr_from (p : bytes) (pos ch : Z) : option (option Z) :=
  match p with
  | [] => None
  | x :: p => if x =? ch then Some (Some pos) else if x =? 0 then Some None else strchr_from p (pos + 1) ch
  end.
Definition strchr_at (b : bytes) (pos ch : Z) : option (option Z) := strchr_from (zdrop pos b) pos ch.

Section Ops.
Context `{FreshMem}.
(** [server.proto_max_bulk_len], [server.client_max_querybuf_len], Gopher mode without threaded reads, CLIENT_MASTER,
    the commands that close the connection, and those of them for which [processCommand] returns C_ERR (QUIT), after
    which the client is not reset. *)
Context (proto_max_bulk_len client_max_querybuf_len : Z) (gopher is_master : bool) (closes quits : list strobj -> bool).
Implicit Types c : iclient.

Definition createClient : option iclient := q ← sdsempty; Some (mk_iclient q 0 0 [] 0 0 (-1) false false []).

Definition resetClient c : iclient := set_reqtype 0 (set_args [] 0 0 (-1) c).

Definition setProtocolError c : iclient := set_closing c.

(** [sdslen(c->querybuf)-c->qb_pos] *)
Definition unread c : Z := u64 (sdslen (querybuf c) - qb_pos c).

(** ** Lines *)

Definition processInlineBuffer c : option (iclient * bool) :=
  let b := buf (querybuf c) in
  newline ← strchr_at b (qb_pos c) 10;
  match newline with
  | None => Some (if unread c >? PROTO_INLINE_MAX_SIZE then setProtocolError c else c, false)
  | Some newline =>
      '(newline, linefeed_chars) ←
        (if negb (newline =? qb_pos c) then x ← b.[newline - 1]; Some (if x =? 13 then (newline - 1, 2) else (newline, 1))
         else Some (newline, 1));
      let querylen := newline - qb_pos c in
      aux ← sdsnewlen (InitPtr (zdrop (qb_pos c) b)) querylen;
      args ← sdssplitargs (buf aux);
      match args with
      | None => Some (setProtocolError c, false)
      | Some args =>
          if negb (querylen =? 0) && is_master then Some (setProtocolError c, false) else
          let c := set_query (querybuf c) (qb_pos c + querylen + linefeed_chars) c in
          let sum := u64 ((if zlen args =? 0 then argv_len_sum c else 0) + foldr Z.add 0 (sdslen <$> args)) in
          Some (set_args ((fun s => mk_str (PtrRaw s) 1) <$> args) sum (multibulklen c) (bulklen c) c, true)
      end
  end.

(** ** Requests in the RESP format *)

(** The end of a line from the position on; without a whole line the request waits, or is refused when the line is
    too long. *)
Definition get_line c : option (iclient + Z) :=
  newline ← strchr_at (buf (querybuf c)) (qb_pos c) 13;
  Some (match newline with
        | None => inl (if unread c >? PROTO_INLINE_MAX_SIZE then setProtocolError c else c)
        | Some newline => if newline - qb_pos c >? i64 (u64 (sdslen (querybuf c) - qb_pos c - 2)) then inl c else inr newline
        end).

(** The number of arguments.  The second component is the value returned, if the function returns here. *)
Definition mbulk_header c : option (iclient * option bool) :=
  if negb (zlen (argv c) =? 0) then None else
  line ← get_line c;
  match line with
  | inl c => Some (c, Some false)
  | inr newline =>
      x ← (buf (querybuf c)).[qb_pos c];
      if negb (x =? 42) then None else
      s ← load (buf (querybuf c)) (1 + qb_pos c) (newline - (1 + qb_pos c));
      match string2ll s with
      | None => Some (setProtocolError c, Some false)
      | Some ll =>
          if ll >? 1024 * 1024 then Some (setProtocolError c, Some false) else
          let c := set_query (querybuf c) (newline + 2) c in
          if ll <=? 0 then Some (c, Some true) else Some (set_args [] 0 ll (bulklen c) c, None)
      end
  end.

(** The length of an argument. *)
Definition bulk_header c : option (iclient * option bool) :=
  line ← get_line c;
  match line with
  | inl c => Some (c, Some false)
  | inr newline =>
      x ← (buf (querybuf c)).[qb_pos c];
      if negb (x =? 36) then Some (setProtocolError c, Some false) else
      s ← load (buf (querybuf c)) (qb_pos c + 1) (newline - (qb_pos c + 1));
      match string2ll s with
      | None => Some (setProtocolError c, Some false)
      | Some ll =>
          if (ll <? 0) || (negb is_master && (ll >? proto_max_bulk_len)) then Some (setProtocolError c, Some false) else
          let c := set_query (querybuf c) (newline + 2) c in
          c ← (if (ll >=? PROTO_MBULK_BIG_ARG) && (unread c <=? u64 (u64 ll + 2)) then
                 q ← sdsrange (querybuf c) (qb_pos c) (-1);
                 need ← add64 ll 2;
                 q ← sdsMakeRoomFor q (u64 (need - sdslen q));
                 Some (set_query q 0 c)
               else Some c);
          Some (set_args (argv c) (argv_len_sum c) (multibulklen c) ll c, None)
      end
  end.

(** The bytes of an argument, which are all there.  A large argument that fills the buffer takes it over. *)
Definition bulk_arg c : option iclient :=
  need ← add64 (bulklen c) 2;
  let sum := u64 (argv_len_sum c + bulklen c) in
  if (qb_pos c =? 0) && (bulklen c >=? PROTO_MBULK_BIG_ARG) && (sdslen (querybuf c) =? u64 need) then
    s ← sdsIncrLen (querybuf c) (-2);
    q ← sdsnewlen InitNoInit need;
    q ← sdsclear q;
    Some (set_query q (qb_pos c) (set_args (argv c ++ [mk_str (PtrRaw s) 1]) sum (multibulklen c - 1) (-1) c))
  else
    o ← createStringObject (InitPtr (zdrop (qb_pos c) (buf (querybuf c)))) (bulklen c);
    Some (set_query (querybuf c) (qb_pos c + need) (set_args (argv c ++ [o]) sum (multibulklen c - 1) (-1) c)).

Fixpoint bulk_loop (fuel : nat) c : option (iclient * bool) :=
  match fuel with
  | O => None
  | S fuel =>
      if multibulklen c =? 0 then Some (c, true) else
      '(c, ret) ← (if bulklen c =? -1 then bulk_header c else Some (c, None));
      match ret with
      | Some ret => Some (c, ret)
      | None =>
          need ← add64 (bulklen c) 2;
          if unread c <? u64 need then Some (c, false) else
          c ← bulk_arg c;
          bulk_loop fuel c
      end
  end.

Definition processMultibulkBuffer c : option (iclient * bool) :=
  '(c, ret) ← (if multibulklen c =? 0 then mbulk_header c else Some (c, None));
  match ret with
  | Some ret => Some (c, ret)
  | None => if multibulklen c <=? 0 then None else bulk_loop (S (Z.to_nat (multibulklen c))) c
  end.

(** ** The query buffer *)

Definition wants_gopher c : option bool :=
  if negb gopher then Some false else
  match argv c with
  | [] => Some true
  | [o] => s ← sdsEncodedObject o; x ← (buf s).[0]; Some (x =? 47)
  | _ => Some false
  end.

(** [processCommandAndResetClient], for a client that is still there afterwards. *)
Definition processCommandAndResetClient c : iclient :=
  let c' := hand_on (Execute (argv c)) (closes (argv c)) c in
  if closes (argv c) && quits (argv c) then c' else resetClient c'.

Fixpoint input_loop (fuel : nat) c : option iclient :=
  match fuel with
  | O => None
  | S fuel =>
      if negb (qb_pos c <? sdslen (querybuf c)) || closing c || asap c then Some c else
      c ← (if reqtype c =? 0 then
             x ← (buf (querybuf c)).[qb_pos c];
             Some (set_reqtype (if x =? 42 then PROTO_REQ_MULTIBULK else PROTO_REQ_INLINE) c)
           else Some c);
      let inline := reqtype c =? PROTO_REQ_INLINE in
      '(c, ok) ← (if inline then processInlineBuffer c
                  else if reqtype c =? PROTO_REQ_MULTIBULK then processMultibulkBuffer c else None);
      if negb ok then Some c else
      wants ← (if inline then wants_gopher c else Some false);
      if (wants : bool) then Some (set_closing (resetClient (hand_on (Gopher (argv c)) false c))) else
      input_loop fuel (if zlen (argv c) =? 0 then resetClient c else processCommandAndResetClient c)
  end.

Definition processInputBuffer c : option iclient :=
  c ← input_loop (S (Z.to_nat (sdslen (querybuf c)))) c;
  if negb (qb_pos c =? 0) then q ← sdsrange (querybuf c) (qb_pos c) (-1); Some (set_query q 0 c) else Some c.

(** The number of bytes asked for. *)
Definition read_len c : option Z :=
  if (reqtype c =? PROTO_REQ_MULTIBULK) && negb (multibulklen c =? 0) && negb (bulklen c =? -1) && (bulklen c >=? PROTO_MBULK_BIG_ARG) then
    need ← add64 (bulklen c) 2;
    let remaining := i64 (u64 (need - sdslen (querybuf c))) in
    Some (if (remaining >? 0) && (remaining <? PROTO_IOBUF_LEN) then remaining else PROTO_IOBUF_LEN)
  else Some PROTO_IOBUF_LEN.

(** The bytes [data] wait in the socket; returns those left there. *)
Definition readQueryFromClient c (data : bytes) : option (iclient * bytes) :=
  readlen ← read_len c;
  let qblen := sdslen (querybuf c) in
  q ← sdsMakeRoomFor (querybuf c) readlen;
  let nread := Z.min readlen (zlen data) in
  q ← sds_write q qblen (ztake nread data);
  q ← sdsIncrLen q nread;
  let c := set_query q (qb_pos c) c in
  if sdslen q >? client_max_querybuf_len then Some (freeClientAsync c, zdrop nread data) else
  c ← processInputBuffer c;
  Some (c, zdrop nread data).

(** The event loop calls the handler while the socket has data and the client is not to be freed. *)
Fixpoint drain (fuel : nat) c (data : bytes) : option iclient :=
  match data with
  | [] => Some c
  | _ =>
      if asap c then Some c else
      match fuel with O => None | S fuel => '(c, data) ← readQueryFromClient c data; drain fuel c data end
  end.
Fixpoint receive c (chunks : list bytes) : option iclient :=
  match chunks with
  | [] => Some c
  | data :: chunks => c ← drain (length data) c data; receive c chunks
  end.

End Ops.
