(* ===== verification/RespProps.v ===== *)
(** * What the protocol parser guarantees

    Whatever a client sends and however the network cuts it, the parser stays
    inside the query buffer, its assertions hold and it terminates.  Commands sent
    in the RESP format, one after the other and cut into any pieces, are executed
    in order and unchanged. *)

From stdpp Require Import base sets list numbers option strings.
From Stdlib Require Import ZArith Lia.
From S2P Require Import Prelude Util Sds SdsText SdsSplit Object Resp.

(** ** Scanning for the end of a line *)

(** The index of the first [ch], if there is one before the first zero. *)
Fixpoint scan (ch : Z) (v : bytes) : option Z :=
  match v with
  | [] => None
  | x :: v => if x =? ch then Some 0 else if x =? 0 then None else Z.succ <$> scan ch v
  end.

Lemma strchr_scan ch v junk : ch <> 0 -> forall pos, strchr_from (v ++ 0 :: junk) pos ch = Some (Z.add pos <$> scan ch v).
Proof.
  intros Hch. induction v as [|x v IH]; intros pos; cbn [app strchr_from scan].
  - destruct (Z.eqb_spec 0 ch); [lia|done].
  - destruct (Z.eqb_spec x ch); [cbn; by rewrite Z.add_0_r|]. destruct (Z.eqb_spec x 0); [done|]. rewrite IH. destruct (scan ch v); [|done]. cbn. do 2 f_equal. lia.
Qed.

Lemma scan_Some ch v n : scan ch v = Some n -> exists a b, v = a ++ ch :: b /\ zlen a = n /\ (ch ∉ a) /\ (0 ∉ a).
Proof.
  revert n. induction v as [|x v IH]; intros n; cbn; [done|]. destruct (Z.eqb_spec x ch) as [->|Hx].
  - intros [= <-]. exists [], v. split_and!; [done|done|set_solver..].
  - destruct (Z.eqb_spec x 0); [done|]. destruct (scan ch v) as [m|]; [|done]. intros [= <-].
    destruct (IH m eq_refl) as (a & b & -> & Hl & H1 & H2). exists (x :: a), b. split_and!; [done|rewrite zlen_cons; lia|set_solver..].
Qed.

Lemma scan_app ch a b : ch ∉ a -> 0 ∉ a -> scan ch (a ++ ch :: b) = Some (zlen a).
Proof.
  induction a as [|x a IH]; intros H1 H2; cbn [app scan]; [by rewrite Z.eqb_refl|]. rewrite zlen_cons.
  destruct (Z.eqb_spec x ch); [set_solver|]. destruct (Z.eqb_spec x 0); [set_solver|]. rewrite IH by set_solver. cbn. f_equal. lia.
Qed.

Lemma scan_None ch a : ch ∉ a -> scan ch a = None.
Proof.
  induction a as [|x a IH]; intros H1; [done|]. cbn. destruct (Z.eqb_spec x ch); [set_solver|]. destruct (Z.eqb_spec x 0); [done|]. rewrite IH by set_solver. done.
Qed.

(** The first line and what follows; the byte after [\r] is not looked at. *)
Definition line (v : bytes) : option (bytes * bytes) :=
  n ← scan 13 v; if n + 2 >? zlen v then None else Some (ztake n v, zdrop (n + 2) v).
Definition too_long (v : bytes) : bool := match scan 13 v with None => zlen v >? PROTO_INLINE_MAX_SIZE | Some _ => false end.

Lemma line_Some v h w : line v = Some (h, w) -> exists y, v = h ++ 13 :: y :: w /\ (13 ∉ h) /\ (0 ∉ h).
Proof.
  unfold line. destruct (scan 13 v) as [n|] eqn:E; [|done]. apply scan_Some in E as (a & b & -> & <- & H1 & H2). cbn [mbind option_bind].
  destruct (Z.gtb_spec (zlen a + 2) (zlen (a ++ 13 :: b))) as [|Hl]; [done|]. rewrite zlen_app, zlen_cons in Hl.
  destruct b as [|y b]; [rewrite zlen_nil in Hl; lia|]. rewrite ztake_app_l by done.
  replace (a ++ 13 :: y :: b) with ((a ++ [13; y]) ++ b) by lapp. rewrite zdrop_app_r by (rewrite zlen_app; reflexivity).
  intros [= <- <-]. exists y. split_and!; [lapp|done|done].
Qed.

Lemma line_app h y w : 13 ∉ h -> 0 ∉ h -> line (h ++ 13 :: y :: w) = Some (h, w).
Proof.
  intros H1 H2. unfold line. rewrite scan_app by done. cbn [mbind option_bind]. rewrite zlen_app, !zlen_cons. pose proof (zlen_nonneg w). zbool.
  rewrite ztake_app_l by done. replace (h ++ 13 :: y :: w) with ((h ++ [13; y]) ++ w) by lapp. by rewrite zdrop_app_r by (rewrite zlen_app; reflexivity).
Qed.

(** A line that has not arrived yet. *)
Lemma line_prefix v z h : v ++ z = h ++ [13; 10] -> z <> [] -> 13 ∉ h -> 0 ∉ h -> zlen h <= PROTO_INLINE_MAX_SIZE -> line v = None /\ too_long v = false.
Proof.
  intros E Hz H1 H2 Hl. assert (v = h ++ [13] \/ exists z', h = v ++ z') as [->|[z' ->]].
  { destruct (exists_last Hz) as (z1 & x & ->). rewrite app_assoc in E. change (h ++ [13; 10]) with (h ++ [13] ++ [10]) in E. rewrite app_assoc in E.
    apply app_inj_tail in E as [E _]. destruct z1 as [|y z1] using rev_ind; [left; by rewrite app_nil_r in E|right]. rewrite app_assoc in E. apply app_inj_tail in E as [<- _]. by exists z1. }
  - unfold line, too_long. rewrite scan_app by done. cbn [mbind option_bind]. split; [|done]. rewrite zlen_app. change (zlen [13]) with 1. by zbool.
  - unfold line, too_long. rewrite scan_None by set_solver. split; [done|]. cbn. rewrite zlen_app in Hl. pose proof (zlen_nonneg z'). by zbool.
Qed.

Section Spec.
Context `{FreshMem} (mb qmax : Z) (gopher : bool) (closes quits : list strobj -> bool).
Context (Hmb : 0 <= mb /\ mb + 2 < SDS_BOUND) (Hqm : 0 <= qmax /\ qmax + PROTO_IOBUF_LEN < SDS_BOUND).
Implicit Types (c : iclient) (v w : bytes).

(** ** The unread part of the buffer *)

Definition unparsed c v : Prop := exists p free, sds_repr (querybuf c) (p ++ v) free /\ qb_pos c = zlen p /\ zlen (p ++ v) <= qmax.

Lemma unparsed_buf c v : unparsed c v -> exists p junk, buf (querybuf c) = p ++ v ++ 0 :: junk /\ qb_pos c = zlen p /\
  sdslen (querybuf c) = zlen p + zlen v /\ zlen p + zlen v <= qmax.
Proof.
  intros (p & free & Hs & Hp & Hl). pose proof (at_len _ _ _ _ Hs) as El. destruct (at_buf _ _ _ _ Hs) as (junk & Eb & _). rewrite zlen_app in *.
  exists p, junk. split_and!; try done. by rewrite Eb, <- app_assoc.
Qed.

Lemma unread_spec c v : unparsed c v -> unread c = zlen v.
Proof.
  intros (p & junk & _ & Hp & Hl & Hm)%unparsed_buf. unfold unread. rewrite Hl, Hp. replace (zlen p + zlen v - zlen p) with (zlen v) by lia.
  apply u64_id. pose proof (zlen_nonneg v). pose proof (zlen_nonneg p). unfold SDS_BOUND, PROTO_IOBUF_LEN in *. lia.
Qed.

Lemma unparsed_nth c v i : unparsed c v -> 0 <= i < zlen v -> (buf (querybuf c)).[qb_pos c + i] = v.[i].
Proof.
  intros (p & junk & Eb & Hp & _)%unparsed_buf Hi. rewrite Eb, Hp, znth_app_r, znth_app_l by lia. f_equal. lia.
Qed.

Lemma unparsed_scan c v ch : unparsed c v -> ch <> 0 -> strchr_at (buf (querybuf c)) (qb_pos c) ch = Some (Z.add (qb_pos c) <$> scan ch v).
Proof. intros (p & junk & Eb & Hp & _)%unparsed_buf Hch. unfold strchr_at. rewrite Eb, zdrop_app_r by done. by apply strchr_scan. Qed.

Lemma unparsed_load c v off n : unparsed c v -> 0 <= off -> 0 <= n -> off + n <= zlen v ->
  load (buf (querybuf c)) (qb_pos c + off) n = Some (ztake n (zdrop off v)).
Proof.
  intros (p & junk & Eb & Hp & _)%unparsed_buf Ho Hn Hv. destruct (zsplit off v) as (a & b & -> & Ha & Hb); [lia|]. rewrite zlen_app in Hv.
  destruct (zsplit n b) as (b1 & b2 & -> & Hb1 & Hb2); [lia|]. rewrite (zdrop_app_r off), (ztake_app_l n) by lia.
  apply (load_at (p ++ a) b1 (b2 ++ 0 :: junk)); [rewrite Eb; lapp|rewrite zlen_app; lia|lia].
Qed.

(** Moving on in the same buffer. *)
Lemma unparsed_step c v a w : unparsed c v -> v = a ++ w -> unparsed (set_query (querybuf c) (qb_pos c + zlen a) c) w.
Proof.
  intros (p & free & Hs & Hp & Hl) ->. exists (p ++ a), free. cbn. rewrite <- app_assoc, zlen_app. split_and!; [done|lia|done].
Qed.

Lemma unparsed_ext c c' v : unparsed c v -> querybuf c' = querybuf c -> qb_pos c' = qb_pos c -> unparsed c' v.
Proof. intros (p & free & Hs & Hp & Hl) E1 E2. exists p, free. by rewrite E1, E2. Qed.

Lemma unparsed_new q u free : sds_repr q u free -> zlen u <= qmax -> forall c, querybuf c = q -> qb_pos c = 0 -> unparsed c u.
Proof. intros Hs Hl c <- E. exists [], free. by rewrite E. Qed.

(** Dropping what was read. *)
Lemma trim_query_spec c v : unparsed c v -> exists q free, sdsrange (querybuf c) (qb_pos c) (-1) = Some q /\ sds_repr q v free /\ zlen v <= qmax.
Proof.
  intros (p & free & Hs & Hp & Hl). rewrite zlen_app in Hl. pose proof (zlen_nonneg p). pose proof (zlen_nonneg v). unfold SDS_BOUND, PROTO_IOBUF_LEN in *.
  destruct (range_spec _ _ free (qb_pos c) (-1) Hs) as (q & free' & E & Hq); [rewrite zlen_app; unfold SDS_BOUND; lia|unfold in_s; lia|unfold in_s; lia|].
  exists q, free'. split_and!; [done| |lia]. assert (slice (p ++ v) (qb_pos c) (-1) = v) as E2; [|by rewrite E2 in Hq].
  unfold slice, from_end. rewrite Hp, zlen_app. zbool. rewrite zdrop_app_r by done. apply ztake_all. lia.
Qed.

(** ** The parts of a request *)

Lemma get_line_spec c v : unparsed c v ->
  get_line c = Some (match line v with Some (h, _) => inr (qb_pos c + zlen h) | None => inl (if too_long v then set_closing c else c) end).
Proof.
  intros Hc. unfold get_line. rewrite (unparsed_scan c v 13 Hc), (unread_spec c v Hc) by done. cbn [mbind option_bind].
  destruct (unparsed_buf c v Hc) as (p & junk & _ & Hp & El & Hm). pose proof (zlen_nonneg p). pose proof (zlen_nonneg v).
  unfold SDS_BOUND, PROTO_IOBUF_LEN in *. rewrite El, i64_u64 by lia. unfold line, too_long. destruct (scan 13 v) as [n|] eqn:E; cbn [fmap option_fmap option_map mbind option_bind].
  - apply scan_Some in E as (a & b & -> & <- & _). rewrite zlen_app in *. rewrite Hp, ztake_app_l by done.
    destruct (Z.gtb_spec (zlen a + 2) (zlen a + zlen (13 :: b))); zbool; done.
  - done.
Qed.

(** The first byte of a line. *)
Lemma unparsed_first c v x w : unparsed c v -> v = x :: w -> (buf (querybuf c)).[qb_pos c] = Some x.
Proof. intros Hc ->. pose proof (zlen_nonneg w). rewrite <- (Z.add_0_r (qb_pos c)), (unparsed_nth c (x :: w) 0 Hc) by (rewrite zlen_cons; lia). done. Qed.

Lemma after_line c v h w : unparsed c v -> line v = Some (h, w) -> unparsed (set_query (querybuf c) (qb_pos c + zlen h + 2) c) w.
Proof.
  intros Hc (y & -> & _)%line_Some. replace (qb_pos c + zlen h + 2) with (qb_pos c + zlen (h ++ [13; y])) by (rewrite zlen_app; change (zlen [13; y]) with 2; lia).
  apply (unparsed_step c _ (h ++ [13; y]) w Hc). lapp.
Qed.

Lemma line_text c v x d w : unparsed c v -> line v = Some (x :: d, w) -> load (buf (querybuf c)) (1 + qb_pos c) (zlen d) = Some d.
Proof.
  intros Hc (y & -> & _)%line_Some. pose proof (zlen_nonneg d). rewrite Z.add_comm, (unparsed_load c _ 1 (zlen d) Hc); [|lia|lia|].
  - f_equal. change ((x :: d) ++ 13 :: y :: w) with ([x] ++ d ++ 13 :: y :: w). rewrite zdrop_app_r by done. by apply ztake_app_l.
  - rewrite zlen_app, !zlen_cons. pose proof (zlen_nonneg w). lia.
Qed.

(** The number of arguments. *)
Lemma mbulk_header_spec c v v' : unparsed c v -> argv c = [] -> v = 42 :: v' ->
  mbulk_header c = Some match line v with
    | None => (if too_long v then set_closing c else c, Some false)
    | Some (h, _) =>
        match string2ll (tail h) with
        | None => (set_closing c, Some false)
        | Some ll =>
            if ll >? 1024 * 1024 then (set_closing c, Some false) else
            let c := set_query (querybuf c) (qb_pos c + zlen h + 2) c in
            if ll <=? 0 then (c, Some true) else (set_args [] 0 ll (bulklen c) c, None)
        end
    end.
Proof.
  intros Hc Ha Hv. unfold mbulk_header. rewrite Ha, (get_line_spec c v Hc). cbn [mbind option_bind]. change (zlen [] =? 0) with true. cbn [negb].
  destruct (line v) as [[h w]|] eqn:El; [|done]. rewrite (unparsed_first c v 42 v' Hc Hv). cbn [mbind option_bind]. change (42 =? 42) with true. cbn [negb].
  destruct (line_Some _ _ _ El) as (y & E & _). destruct h as [|x d]; [subst v; discriminate|]. assert (x = 42) as -> by (subst v; by injection E).
  rewrite zlen_cons. replace (qb_pos c + (1 + zlen d) - (1 + qb_pos c)) with (zlen d) by lia. rewrite (line_text c v 42 d w Hc El). cbn [mbind option_bind tail].
  destruct (string2ll d) as [ll|]; [|done]. destruct (ll >? 1024 * 1024); [done|]. by destruct (ll <=? 0).
Qed.

(** The rest of the client is as before. *)
Definition same_request c c' : Prop :=
  reqtype c' = reqtype c /\ argv c' = argv c /\ multibulklen c' = multibulklen c /\ closing c' = closing c /\ asap c' = asap c /\ log c' = log c.

(** The length of an argument. *)
Lemma bulk_header_spec c v : unparsed c v ->
  match line v with
  | None => bulk_header mb false c = Some (if too_long v then set_closing c else c, Some false)
  | Some (h, w) =>
      match (if default 0 (head h) =? 36 then string2ll (tail h) else None) with
      | Some ll =>
          if (ll <? 0) || (ll >? mb) then bulk_header mb false c = Some (set_closing c, Some false)
          else exists c', bulk_header mb false c = Some (c', None) /\ unparsed c' w /\ bulklen c' = ll /\ same_request c c'
      | None => bulk_header mb false c = Some (set_closing c, Some false)
      end
  end.
Proof.
  intros Hc. unfold bulk_header. rewrite (get_line_spec c v Hc). cbn [mbind option_bind]. destruct (line v) as [[h w]|] eqn:El; [|done].
  destruct (line_Some _ _ _ El) as (y & Ev & _). destruct h as [|x d].
  { rewrite (unparsed_first c v 13 (y :: w) Hc Ev). done. }
  rewrite (unparsed_first c v x _ Hc Ev). cbn [mbind option_bind head default from_option id tail]. destruct (x =? 36); cbn [negb]; [|done].
  rewrite zlen_cons. replace (qb_pos c + (1 + zlen d) - (qb_pos c + 1)) with (zlen d) by lia. rewrite (Z.add_comm (qb_pos c) 1), (line_text c v x d w Hc El). cbn [mbind option_bind].
  destruct (string2ll d) as [ll|]; [|done]. cbn [negb andb]. destruct (Z.ltb_spec ll 0); cbn [orb]; [done|]. destruct (Z.gtb_spec ll mb); [done|].
  pose proof (after_line c v (x :: d) w Hc El) as Hw. rewrite zlen_cons in Hw. set (c1 := set_query _ _ c) in *. rewrite (unread_spec c1 w Hw).
  unfold SDS_BOUND, PROTO_IOBUF_LEN in *. rewrite (u64_id ll), (u64_id (ll + 2)) by lia. destruct ((ll >=? PROTO_MBULK_BIG_ARG) && (zlen w <=? ll + 2)) eqn:Eb.
  2:{ eexists. split; [done|]. split_and!; [by apply (unparsed_ext c1)|done|done]. }
  apply andb_prop in Eb as [_ Eb%Z.leb_le]. destruct (trim_query_spec c1 w Hw) as (q & free & -> & Hq & Hlw). cbn [mbind option_bind].
  rewrite add64_ok by (unfold LLONG_MIN, LLONG_MAX; lia). cbn [mbind option_bind]. rewrite (at_len _ _ _ _ Hq). pose proof (zlen_nonneg w).
  rewrite u64_id by lia. destruct (makeroom_spec q w 0 free (ll + 2 - zlen w) Hq) as (q' & free' & -> & Hq' & _); [lia|unfold SDS_BOUND; lia|]. cbn [mbind option_bind].
  eexists. split; [done|]. split_and!; [|done|done]. by apply (unparsed_new q' w free').
Qed.

Lemma long_type s u x free : sds_at s u x free -> 32 <= zlen u -> sds_type s <> SDS_TYPE_5.
Proof. intros [Hh _] Hl Et. inversion Hh as [len E Hlen|len al Hf]; subst; [lia|]. rewrite type_n in Et by done. unfold SDS_TYPE_5 in Et. lia. Qed.

(** The bytes of an argument. *)
Lemma bulk_arg_spec c v a y1 y2 w : unparsed c v -> v = a ++ y1 :: y2 :: w -> bulklen c = zlen a ->
  exists c' o, bulk_arg c = Some c' /\ unparsed c' w /\ str_repr o a /\ argv c' = argv c ++ [o] /\ multibulklen c' = multibulklen c - 1 /\ bulklen c' = -1 /\
    reqtype c' = reqtype c /\ closing c' = closing c /\ asap c' = asap c /\ log c' = log c.
Proof.
  intros Hc Hv Hb. destruct (unparsed_buf c v Hc) as (p & junk & Eb & Hp & El & Hm). pose proof (zlen_nonneg a). pose proof (zlen_nonneg p). pose proof (zlen_nonneg w).
  assert (zlen v = zlen a + 2 + zlen w) as Hlv by (rewrite Hv, zlen_app, !zlen_cons; lia). unfold SDS_BOUND, PROTO_IOBUF_LEN in *.
  unfold bulk_arg. rewrite Hb, add64_ok by (unfold LLONG_MIN, LLONG_MAX; lia). cbn [mbind option_bind]. rewrite (u64_id (zlen a + 2)) by lia.
  destruct ((qb_pos c =? 0) && (zlen a >=? PROTO_MBULK_BIG_ARG) && (sdslen (querybuf c) =? zlen a + 2)) eqn:Ebig.
  - apply andb_prop in Ebig as [[E0%Z.eqb_eq E1]%andb_prop E2%Z.eqb_eq]. rewrite Z.geb_leb in E1. apply Z.leb_le in E1. unfold PROTO_MBULK_BIG_ARG in E1.
    assert (p = []) as -> by (apply zlen_0_nil; lia). assert (w = []) as -> by (apply zlen_0_nil; rewrite zlen_nil in *; lia).
    destruct Hc as (p' & free & Hs & Hp' & _). assert (p' = []) as -> by (apply zlen_0_nil; lia). cbn [app] in *.
    rewrite zlen_nil, Z.add_0_r in Hlv. destruct (incrlen_spec _ _ _ _ (-2) Hs) as [Hi _]; [apply (long_type _ _ _ _ Hs); lia|lia|]. destruct Hi as (s' & -> & Hs'); [pose proof (at_free _ _ _ _ Hs); lia|]. cbn [mbind option_bind].
    destruct (newlen_spec InitNoInit (zlen a + 2)) as (q & u & -> & Hq & _); [unfold SDS_BOUND; lia|done|]. cbn [mbind option_bind].
    destruct (clear_spec q u 0 Hq) as (q' & free' & -> & Hq'). cbn [mbind option_bind].
    eexists _, _. split; [done|]. cbn. split_and!; try done; [by apply (unparsed_new q' [] free' Hq'); [rewrite zlen_nil; lia|..]|].
    exists (free - -2). rewrite Eb, Hlv, Hv in Hs'. replace (zlen a + 2 + -2) with (zlen a) in Hs' by lia. rewrite <- app_assoc, ztake_app_l in Hs' by done. done.
  - destruct (create_string_spec (zdrop (qb_pos c) (buf (querybuf c))) a) as (o & -> & Ho); [|unfold SDS_BOUND; lia|].
    { rewrite Eb, zdrop_app_r, Hv by done. apply (load_at [] a ((y1 :: y2 :: w) ++ 0 :: junk)); [lapp|done|done]. }
    cbn [mbind option_bind]. eexists _, o. split; [done|]. cbn. split_and!; try done.
    apply (unparsed_ext (set_query (querybuf c) (qb_pos c + zlen (a ++ [y1; y2])) c)); [apply (unparsed_step c v _ w Hc); rewrite Hv; lapp|done|cbn; rewrite zlen_app; change (zlen [y1; y2]) with 2; lia].
Qed.

Lemma bulk_loop_header fuel c c' : multibulklen c <> 0 -> bulklen c = -1 -> bulk_header mb false c = Some (c', None) -> multibulklen c' = multibulklen c -> bulklen c' <> -1 ->
  bulk_loop mb false (S fuel) c = bulk_loop mb false (S fuel) c'.
Proof. intros H1 H2 E H3 H4. cbn [bulk_loop]. rewrite H3. zbool. by rewrite E. Qed.

(** ** Commands on the wire *)

Definition crlf : bytes := [13; 10].
Definition bulk (a : bytes) : bytes := (36 :: udec (zlen a)) ++ crlf ++ a ++ crlf.
Definition bulks (args : list bytes) : bytes := concat (bulk <$> args).
Definition enc (cmd : list bytes) : bytes := (42 :: udec (zlen cmd)) ++ crlf ++ bulks cmd.
Definition stream (cmds : list (list bytes)) : bytes := concat (enc <$> cmds).

Definition cmd_ok (cmd : list bytes) : Prop :=
  cmd <> [] /\ zlen cmd <= 1024 * 1024 /\ Forall (fun a => zlen a <= mb) cmd /\ forall objs, Forall2 str_repr objs cmd -> closes objs = false.

Lemma app_cases (v z h r : bytes) : v ++ z = h ++ r -> (exists w, v = h ++ w /\ w ++ z = r) \/ (exists t, t <> [] /\ h = v ++ t /\ z = t ++ r).
Proof.
  revert h. induction v as [|x v IH]; intros h E.
  - destruct h as [|y h]; [left; by exists []|right]. exists (y :: h). by cbn in E.
  - destruct h as [|y h]; [left; by exists (x :: v)|]. injection E as <- E. destruct (IH h E) as [(w & -> & <-)|(t & Ht & -> & ->)]; [left; by exists w|right; by exists t].
Qed.

Lemma udec_small_len n : 0 <= n < 2 ^ 62 -> sdec n = udec n /\ 0 <= zlen (udec n) <= 20 /\ in_s 64 n /\ 0 <= n < 10 ^ 20.
Proof.
  intros Hn. assert (sdec n = udec n) as E by (unfold sdec; by zbool). assert (in_s 64 n) as Hs by (unfold in_s; lia). split_and!; try done; try lia; rewrite <- E; by apply sdec_bound.
Qed.

Lemma udec_clean n x : 0 <= n < 2 ^ 62 -> x <> 13 -> x <> 0 -> (13 ∉ x :: udec n) /\ (0 ∉ x :: udec n) /\ zlen (x :: udec n) <= PROTO_INLINE_MAX_SIZE.
Proof.
  intros Hn H1 H2. destruct (udec_small_len n Hn) as (_ & Hlen & _ & Hn'). pose proof (udec_digits n Hn') as Hd. rewrite Forall_forall in Hd. split_and!.
  - intros [<-|Hin]%elem_of_cons; [lia|]. specialize (Hd _ Hin). lia.
  - intros [<-|Hin]%elem_of_cons; [lia|]. specialize (Hd _ Hin). lia.
  - rewrite zlen_cons. unfold PROTO_INLINE_MAX_SIZE. lia.
Qed.

(** The line of a length: it has arrived, or the end is missing. *)
Lemma line_cases v z x n r : v ++ z = (x :: udec n) ++ crlf ++ r -> 0 <= n < 2 ^ 62 -> x <> 13 -> x <> 0 ->
  (exists w, line v = Some (x :: udec n, w) /\ w ++ z = r /\ zlen w < zlen v) \/ (line v = None /\ too_long v = false /\ z <> [] /\ zlen v <= 32).
Proof.
  intros E Hn H1 H2. destruct (udec_clean n x Hn H1 H2) as (Hc1 & Hc2 & Hl). rewrite app_assoc in E. apply app_cases in E as [(w & -> & <-)|(t & Ht & E & ->)].
  - left. exists w. split_and!; [|done|rewrite !zlen_app; pose proof (zlen_nonneg (x :: udec n)); change (zlen crlf) with 2; lia]. rewrite <- app_assoc. by apply line_app.
  - right. destruct (line_prefix v t (x :: udec n)) as [-> ->]; try done. split_and!; [done|done|by destruct t|].
    apply (f_equal zlen) in E. rewrite zlen_app, zlen_app, zlen_cons in E. change (zlen crlf) with 2 in E. destruct (udec_small_len n Hn) as (_ & Hlen & _). pose proof (zlen_nonneg t). lia.
Qed.

(** ** A command that arrives in pieces *)

(** Client [c] has read the arguments before [a] and possibly the length of [a]; [v] is in the buffer, [z] has not arrived. *)
Definition midway c v z (cmd : list bytes) (rest : bytes) : Prop := exists done a todo,
  cmd = done ++ a :: todo /\ Forall2 str_repr (argv c) done /\ multibulklen c = 1 + zlen todo /\
  ((bulklen c = -1 /\ v ++ z = bulks (a :: todo) ++ rest) \/ (bulklen c = zlen a /\ v ++ z = a ++ crlf ++ bulks todo ++ rest)).

Definition arrived c v z (cmd : list bytes) (rest : bytes) : Prop :=
  multibulklen c = 0 /\ bulklen c = -1 /\ Forall2 str_repr (argv c) cmd /\ v ++ z = rest.

(** The fields the parser of arguments leaves alone. *)
Definition same_state c c' : Prop := reqtype c' = reqtype c /\ closing c' = closing c /\ asap c' = asap c /\ log c' = log c.

Lemma same_state_trans c c1 c2 : same_state c c1 -> same_state c1 c2 -> same_state c c2.
Proof. intros (E1 & E2 & E3 & E4) (F1 & F2 & F3 & F4). split_and!; congruence. Qed.

Definition loop_out c v z cmd rest (o : option (iclient * bool)) : Prop := exists c' ret v', o = Some (c', ret) /\ unparsed c' v' /\ same_state c c' /\ zlen v' <= zlen v /\
  if ret : bool then arrived c' v' z cmd rest /\ zlen v' < zlen v else midway c' v' z cmd rest /\ z <> [] /\ zlen v' <= mb + 32.

Lemma bulks_cons a todo rest : bulks (a :: todo) ++ rest = (36 :: udec (zlen a)) ++ crlf ++ a ++ crlf ++ bulks todo ++ rest.
Proof. unfold bulks, bulk. cbn [fmap list_fmap concat]. lapp. Qed.

Lemma bulk_body fuel c v z a r : unparsed c v -> multibulklen c <> 0 -> bulklen c = zlen a -> zlen a <= mb -> v ++ z = a ++ crlf ++ r ->
  (bulk_loop mb false (S fuel) c = Some (c, false) /\ z <> [] /\ zlen v <= mb + 2) \/
  exists c' o w, bulk_loop mb false (S fuel) c = bulk_loop mb false fuel c' /\ unparsed c' w /\ w ++ z = r /\ zlen w < zlen v /\ str_repr o a /\
    argv c' = argv c ++ [o] /\ multibulklen c' = multibulklen c - 1 /\ bulklen c' = -1 /\ same_state c c'.
Proof.
  intros Hc Hn Hb Ha E. pose proof (zlen_nonneg a) as Ha0. cbn [bulk_loop]. unfold SDS_BOUND in *. zbool. cbn [mbind option_bind]. rewrite Hb, (unread_spec c v Hc).
  rewrite add64_ok by (unfold LLONG_MIN, LLONG_MAX; lia). cbn [mbind option_bind]. rewrite u64_id by lia. rewrite app_assoc in E. apply app_cases in E as [(w & Ev & Er)|(t & Ht & Ev & ->)].
  - assert (zlen v = zlen a + 2 + zlen w) as Hlv by (rewrite Ev, !zlen_app; reflexivity). pose proof (zlen_nonneg w). zbool. right.
    destruct (bulk_arg_spec c v a 13 10 w Hc) as (c' & o & -> & Hc' & Ho & Hargs & Hn' & Hb' & Hs); [by rewrite Ev, <- app_assoc|done|]. cbn [mbind option_bind].
    exists c', o, w. split_and!; try done; lia.
  - left. apply (f_equal zlen) in Ev. rewrite !zlen_app in Ev. change (zlen crlf) with 2 in Ev. destruct t as [|x t]; [done|]. rewrite zlen_cons in Ev. pose proof (zlen_nonneg t).
    zbool. split_and!; [done|done|lia].
Qed.

Lemma bulk_head fuel c v z (a r : bytes) : unparsed c v -> multibulklen c <> 0 -> bulklen c = -1 -> zlen a <= mb -> v ++ z = (36 :: udec (zlen a)) ++ crlf ++ r ->
  (bulk_loop mb false (S fuel) c = Some (c, false) /\ z <> [] /\ zlen v <= 32) \/
  exists c' w, bulk_loop mb false (S fuel) c = bulk_loop mb false (S fuel) c' /\ unparsed c' w /\ w ++ z = r /\ zlen w < zlen v /\ bulklen c' = zlen a /\ same_request c c'.
Proof.
  intros Hc Hn Hb Ha E. pose proof (zlen_nonneg a) as Ha0. assert (0 <= zlen a < 2 ^ 62) as Hal by (unfold SDS_BOUND in *; lia). destruct (udec_small_len _ Hal) as (Es & _ & Hs & _).
  pose proof (bulk_header_spec c v Hc) as Hh. destruct (line_cases v z 36 (zlen a) r E) as [(w & El & Ew & Hlw)|(El & Et & Hz & Hlv)]; try done.
  - right. rewrite El in Hh. cbn [head default from_option id tail] in Hh. change (36 =? 36) with true in Hh. rewrite <- Es, string2ll_complete in Hh by done.
    replace ((zlen a <? 0) || (zlen a >? mb)) with false in Hh by (symmetry; zbool; done). destruct Hh as (c' & Eh & Hc' & Hb' & Hsr). exists c', w. split_and!; try done.
    apply bulk_loop_header; try done; [apply Hsr|lia].
  - left. rewrite El, Et in Hh. split_and!; try done. cbn [bulk_loop]. rewrite Hb. zbool. by rewrite Hh.
Qed.

Lemma loop_out_step c c1 v v1 z cmd rest o : same_state c c1 -> zlen v1 <= zlen v -> loop_out c1 v1 z cmd rest o -> loop_out c v z cmd rest o.
Proof.
  intros Hs Hv (c' & ret & v' & Ho & Hc' & Hs' & Hl & Hret). exists c', ret, v'. split_and!; try done; [by eapply same_state_trans|lia|].
  destruct ret; [|done]. destruct Hret. split; [done|lia].
Qed.

Lemma same_request_state c c' : same_request c c' -> same_state c c'.
Proof. intros (E1 & _ & _ & E2 & E3 & E4). done. Qed.

Lemma bulk_loop_body cmd rest z todo : Forall (fun a => zlen a <= mb) todo -> forall fuel c v done a, zlen a <= mb -> (length todo + 1 < fuel)%nat -> unparsed c v ->
  cmd = done ++ a :: todo -> Forall2 str_repr (argv c) done -> multibulklen c = 1 + zlen todo -> bulklen c = zlen a -> v ++ z = a ++ crlf ++ bulks todo ++ rest ->
  loop_out c v z cmd rest (bulk_loop mb false fuel c).
Proof.
  induction 1 as [|b todo Hb Htodo IH]; intros fuel c v done a Ha Hf Hc Hcmd Hargs Hn Hbl E; (destruct fuel as [|fuel]; [lia|]).
  all: destruct (bulk_body fuel c v z a _ Hc ltac:(rewrite Hn; match goal with |- 1 + zlen ?l <> _ => pose proof (zlen_nonneg l); lia end) Hbl Ha E) as [(-> & Hz & Hlv)|(c1 & o & w & -> & Hc1 & Ew & Hlw & Ho & Ea & Em & Eb & Hs)].
  all: try (exists c, false, v; split_and!; try done; try lia; exists done, a; eexists; split_and!; try done; by right).
  - rewrite zlen_nil in Hn. destruct fuel as [|fuel]; [cbn in Hf; lia|]. cbn [bulk_loop]. rewrite Em, Hn. cbn. exists c1, true, w. split_and!; try done; try lia.
    split_and!; try done; [by rewrite Em, Hn|]. rewrite Ea, Hcmd. apply Forall2_app; [done|by constructor].
  - destruct fuel as [|fuel]; [cbn in Hf; lia|]. rewrite zlen_cons in Hn. pose proof (zlen_nonneg todo) as Hzt. rewrite bulks_cons in Ew.
    assert (Forall2 str_repr (argv c1) (done ++ [a])) as Hargs1 by (rewrite Ea; apply Forall2_app; [done|by constructor]).
    assert (cmd = (done ++ [a]) ++ b :: todo) as Hcmd1 by (rewrite Hcmd; lapp). apply (loop_out_step c c1 v w); [done|lia|].
    destruct (bulk_head fuel c1 w z b _ Hc1 ltac:(lia) Eb Hb Ew) as [(-> & Hz & Hlv)|(c2 & w2 & -> & Hc2 & Ew2 & Hlw2 & Hb2 & Hs2)].
    + exists c1, false, w. split_and!; try done; try lia. exists (done ++ [a]), b, todo. split_and!; try done; [lia|]. left. by rewrite bulks_cons.
    + apply (loop_out_step c1 c2 w w2); [by apply same_request_state|lia|]. destruct Hs2 as (_ & Ea2 & Em2 & _).
      apply (IH (S fuel) c2 w2 (done ++ [a]) b); try done; [cbn in Hf; lia|by rewrite Ea2|lia].
Qed.

(** The loop from any point inside a command. *)
Lemma bulk_loop_spec c v z cmd rest fuel : unparsed c v -> Forall (fun a => zlen a <= mb) cmd -> midway c v z cmd rest -> multibulklen c < Z.of_nat fuel ->
  loop_out c v z cmd rest (bulk_loop mb false fuel c).
Proof.
  intros Hc Hmax (done & a & todo & -> & Hargs & Hn & Hst) Hf. apply Forall_app in Hmax as [_ [Ha Htodo]%Forall_cons]. unfold zlen in Hn.
  destruct Hst as [[Hb E]|[Hb E]]; [|by apply (bulk_loop_body _ rest z todo Htodo fuel c v done a); try done; lia].
  rewrite bulks_cons in E. destruct fuel as [|fuel]; [lia|]. destruct (bulk_head fuel c v z a _ Hc ltac:(lia) Hb Ha E) as [(-> & Hz & Hlv)|(c2 & w2 & -> & Hc2 & Ew2 & Hlw2 & Hb2 & Hs2)].
  - exists c, false, v. split_and!; try done; try lia. exists done, a, todo. split_and!; try done. left. by rewrite bulks_cons.
  - apply (loop_out_step c c2 v w2); [by apply same_request_state|lia|]. destruct Hs2 as (_ & Ea2 & Em2 & _).
    apply (bulk_loop_body _ rest z todo Htodo (S fuel) c2 w2 done a); try done; [lia|by rewrite Ea2|unfold zlen; lia].
Qed.

(** ** A sequence of commands *)

(** What remains of the commands [todo] is partly in the buffer ([v]) and partly on its way ([z]). *)
Definition idle c v z (todo : list (list bytes)) : Prop :=
  multibulklen c = 0 /\ bulklen c = -1 /\ argv c = [] /\ v ++ z = stream todo /\ (reqtype c = 0 \/ (reqtype c = PROTO_REQ_MULTIBULK /\ todo <> [])).
Definition inside c v z (todo : list (list bytes)) : Prop :=
  exists cmd rest, todo = cmd :: rest /\ reqtype c = PROTO_REQ_MULTIBULK /\ midway c v z cmd (stream rest).
Definition waiting c v z todo : Prop := unparsed c v /\ closing c = false /\ asap c = false /\ (idle c v z todo \/ inside c v z todo).

Lemma stream_nil todo : stream todo = [] -> todo = [].
Proof. destruct todo as [|cmd todo]; [done|]. done. Qed.

Lemma waiting_done c v z todo : waiting c v z todo -> v = [] -> z = [] -> todo = [].
Proof.
  intros (_ & _ & _ & Hw) -> ->. destruct Hw as [(_ & _ & _ & E & _)|(cmd & rest & _ & _ & dn & a & td & _ & _ & _ & [[_ E]|[_ E]])]; [by apply stream_nil|exfalso..].
  - by rewrite bulks_cons in E.
  - by destruct a.
Qed.

Lemma multibulk_spec c v z cmd todo : waiting c v z (cmd :: todo) -> v <> [] -> reqtype c = PROTO_REQ_MULTIBULK -> cmd_ok cmd ->
  exists c' ret v', processMultibulkBuffer mb false c = Some (c', ret) /\ unparsed c' v' /\ same_state c c' /\
    if ret : bool then arrived c' v' z cmd (stream todo) /\ zlen v' < zlen v else waiting c' v' z (cmd :: todo) /\ z <> [] /\ zlen v' <= mb + 32.
Proof.
  intros (Hc & Hcl & Has & Hw) Hv Hreq (Hne & Hmax & Hargs & _). unfold processMultibulkBuffer.
  assert (forall c1 v1, unparsed c1 v1 -> same_state c c1 -> zlen v1 <= zlen v -> midway c1 v1 z cmd (stream todo) ->
    exists c' ret v', (if multibulklen c1 <=? 0 then None else bulk_loop mb false (S (Z.to_nat (multibulklen c1))) c1) = Some (c', ret) /\ unparsed c' v' /\ same_state c c' /\
    if ret : bool then arrived c' v' z cmd (stream todo) /\ zlen v' < zlen v else waiting c' v' z (cmd :: todo) /\ z <> [] /\ zlen v' <= mb + 32) as Hloop.
  { intros c1 v1 Hc1 Hs1 Hl1 Hm. assert (0 < multibulklen c1) as Hpos by (destruct Hm as (dn & a & td & _ & _ & -> & _); pose proof (zlen_nonneg td); lia). zbool.
    destruct (bulk_loop_spec c1 v1 z cmd (stream todo) (S (Z.to_nat (multibulklen c1))) Hc1 Hargs Hm ltac:(lia)) as (c' & ret & v' & -> & Hc' & Hs' & Hl' & Hret).
    pose proof (same_state_trans _ _ _ Hs1 Hs') as Hs2. exists c', ret, v'. split_and!; try done. destruct ret; [destruct Hret; split; [done|lia]|]. destruct Hret as (Hmid & Hz & Hlv).
    split_and!; [|done|done]. destruct Hs2 as (E1 & E2 & E3 & _). split_and!; [done|congruence|congruence|]. right. exists cmd, todo. split_and!; [done|congruence|done]. }
  destruct Hw as [(Em & Eb & Ea & E & _)|(cmd' & rest' & [= <- <-] & _ & Hm)].
  2:{ assert (multibulklen c <> 0) as Hpos by (destruct Hm as (dn & a & td & _ & _ & -> & _); pose proof (zlen_nonneg td); lia). zbool. by apply (Hloop c v). }
  rewrite Em. change (0 =? 0) with true. cbn match. unfold stream in E. cbn [fmap list_fmap concat] in E. fold (stream todo) in E. unfold enc in E. rewrite <- !app_assoc in E.
  destruct v as [|x v']; [done|]. assert (x = 42) as -> by (by injection E). assert (0 <= zlen cmd < 2 ^ 62) as Hlc by (pose proof (zlen_nonneg cmd); lia).
  rewrite (mbulk_header_spec c _ v' Hc Ea eq_refl). cbn [mbind option_bind]. destruct (udec_small_len _ Hlc) as (Es & _ & Hs & _).
  destruct (line_cases _ z 42 (zlen cmd) _ E Hlc) as [(w & El & Ew & Hlw)|(El & Et & Hz & Hlv)]; try done.
  - rewrite El. cbn [tail]. rewrite <- Es, string2ll_complete by done. assert (1 <= zlen cmd) by (destruct cmd; [done|rewrite zlen_cons; pose proof (zlen_nonneg cmd); lia]). zbool.
    rewrite Es. pose proof (after_line c _ _ _ Hc El) as Hcw. apply (Hloop _ w); [by eapply unparsed_ext|done|lia|].
    destruct cmd as [|a td]; [done|]. exists [], a, td. split_and!; [done|by constructor|cbn; by rewrite zlen_cons|left]. done.
  - rewrite El, Et. exists c, false, (42 :: v'). split_and!; try done; [|lia]. split; [done|]. split_and!; [done|done|left]. split; [done|]. split_and!; try done; [|by right]. unfold stream, enc. cbn [fmap list_fmap concat]. by rewrite <- !app_assoc.
Qed.

Lemma more_spec c v : unparsed c v -> (qb_pos c <? sdslen (querybuf c)) = (0 <? zlen v).
Proof. intros (p & junk & _ & Hp & El & _)%unparsed_buf. rewrite Hp, El. destruct (Z.ltb_spec 0 (zlen v)); zbool; done. Qed.

(** The client after a command. *)
Lemma executed_spec c v z cmd todo : unparsed c v -> arrived c v z cmd (stream todo) -> cmd_ok cmd -> closing c = false -> asap c = false ->
  exists objs, processCommandAndResetClient closes quits c = resetClient (hand_on (Execute objs) false c) /\ Forall2 str_repr objs cmd /\ zlen (argv c) <> 0 /\
    waiting (processCommandAndResetClient closes quits c) v z todo.
Proof.
  intros Hc (_ & _ & Hargs & E) (Hne & _ & _ & Hcl) Hc0 Ha0. exists (argv c). unfold processCommandAndResetClient. rewrite (Hcl _ Hargs). split_and!; try done.
  - intros E0%zlen_0_nil. rewrite E0 in Hargs. by inversion Hargs; subst.
  - split; [by eapply unparsed_ext|]. cbn. rewrite Hc0. split_and!; [done|done|left]. split_and!; try done. by left.
Qed.

Lemma input_loop_spec fuel : forall c v z todo, waiting c v z todo -> Forall cmd_ok todo -> (length v < fuel)%nat ->
  exists c' v' ran todo' objs, input_loop mb gopher false closes quits fuel c = Some c' /\ waiting c' v' z todo' /\ todo = ran ++ todo' /\
    log c' = log c ++ (Execute <$> objs) /\ Forall2 (Forall2 str_repr) objs ran /\ zlen v' <= mb + 32 /\ (z = [] -> todo' = []).
Proof.
  induction fuel as [|fuel IH]; intros c v z todo Hw Hok Hf; [lia|]. cbn [input_loop]. pose proof Hw as (Hc & Hcl & Has & Hst). rewrite (more_spec c v Hc), Hcl, Has.
  destruct (Z.ltb_spec 0 (zlen v)) as [Hv|Hv]; cbn [negb orb].
  2:{ assert (v = []) as -> by (apply zlen_0_nil; pose proof (zlen_nonneg v); lia). exists c, [], [], todo, []. rewrite zlen_nil, app_nil_r. split_and!; try done; [lia|]. by eapply waiting_done. }
  assert (v <> []) as Hne by (intros ->; done).
  assert (exists cmd todo', todo = cmd :: todo' /\ exists c1, (if reqtype c =? 0 then x ← (buf (querybuf c)).[qb_pos c]; Some (set_reqtype (if x =? 42 then PROTO_REQ_MULTIBULK else PROTO_REQ_INLINE) c) else Some c) = Some c1 /\
    reqtype c1 = PROTO_REQ_MULTIBULK /\ waiting c1 v z todo /\ log c1 = log c) as (cmd & todo' & -> & c1 & -> & Hreq & Hw1 & Hlog1).
  { destruct Hst as [Hidle|(cmd & todo' & -> & Hr & Hm)].
    - destruct Hidle as (Em & Eb & Ea & E & Hr). destruct todo as [|cmd todo']; [by destruct v|]. exists cmd, todo'. split; [done|]. destruct Hr as [Hr|[Hr _]]; rewrite Hr; cbn.
      + destruct v as [|x v']; [done|]. assert (x = 42) as -> by (by injection E). rewrite (unparsed_first c _ 42 v' Hc eq_refl). cbn. eexists. split; [done|]. split_and!; try done.
        split; [by eapply unparsed_ext|]. split_and!; [done|done|left]. split_and!; try done. by right.
      + exists c. done.
    - exists cmd, todo'. split; [done|]. rewrite Hr. cbn. exists c. done. }
  cbn [mbind option_bind]. rewrite Hreq. cbn. apply Forall_cons in Hok as [Hcmd Hok].
  destruct (multibulk_spec c1 v z cmd todo' Hw1 Hne Hreq Hcmd) as (c2 & ret & v2 & -> & Hc2 & (_ & Ecl & Eas & Elog) & Hret). cbn [mbind option_bind]. destruct Hw1 as (_ & Hcl1 & Has1 & _). destruct ret; cbn [negb].
  2:{ destruct Hret as (Hw2 & Hz & Hl2). exists c2, v2, [], (cmd :: todo'), []. rewrite app_nil_r. split_and!; try done. congruence. }
  destruct Hret as [Harr Hl2]. destruct (executed_spec c2 v2 z cmd todo' Hc2 Harr Hcmd) as (objs & Eq & Hobjs & Hn & Hw3); [congruence|congruence|]. zbool.
  destruct (IH _ v2 z todo' Hw3 Hok) as (c' & v' & ran & todo'' & objs' & -> & Hw' & -> & Elog' & Hobjs' & Hl' & Hz'); [unfold zlen in *; lia|].
  exists c', v', (cmd :: ran), todo'', (objs :: objs'). split_and!; try done; [|by constructor]. rewrite Elog', Eq. cbn. rewrite Elog, Hlog1. lapp.
Qed.

(** ** Reading *)

Lemma input_buffer_spec c v z todo : waiting c v z todo -> Forall cmd_ok todo ->
  exists c' v' ran todo' objs, processInputBuffer mb gopher false closes quits c = Some c' /\ waiting c' v' z todo' /\ qb_pos c' = 0 /\ todo = ran ++ todo' /\
    log c' = log c ++ (Execute <$> objs) /\ Forall2 (Forall2 str_repr) objs ran /\ zlen v' <= mb + 32 /\ (z = [] -> todo' = []).
Proof.
  intros Hw Hok. unfold processInputBuffer. pose proof Hw as (Hc & _). destruct (unparsed_buf c v Hc) as (p & junk & _ & _ & El & _). pose proof (zlen_nonneg p).
  destruct (input_loop_spec (S (Z.to_nat (sdslen (querybuf c)))) c v z todo Hw Hok) as (c' & v' & ran & todo' & objs & -> & Hw' & Et & Elog & Hobjs & Hl & Hz); [unfold zlen in *; lia|].
  cbn [mbind option_bind]. destruct (Z.eqb_spec (qb_pos c') 0) as [E0|_]; cbn [negb]; [by exists c', v', ran, todo', objs|].
  destruct Hw' as (Hc' & Hcl & Has & Hst). destruct (trim_query_spec c' v' Hc') as (q & free & -> & Hq & Hm). cbn [mbind option_bind].
  eexists _, v', ran, todo', objs. split; [done|]. split_and!; try done. split; [by eapply unparsed_new|done].
Qed.

Lemma append_spec q u free n src : sds_repr q u free -> 1 <= zlen src <= n -> n <= PROTO_IOBUF_LEN -> zlen u + n < SDS_BOUND ->
  exists q1 q2 q3 free', sdsMakeRoomFor q n = Some q1 /\ sds_write q1 (sdslen q) src = Some q2 /\ sdsIncrLen q2 (zlen src) = Some q3 /\ sds_repr q3 (u ++ src) free'.
Proof.
  intros Hq Hsrc Hn Hb. destruct (makeroom_spec q u 0 free n Hq) as (q1 & free1 & -> & Hq1 & Hf1 & Ht1); [lia|lia|]. rewrite (at_len _ _ _ _ Hq).
  destruct (write_free q1 u 0 free1 src Hq1) as (y & junk & E2 & Hj & Hjt); [lia|]. set (q2 := set_buf ((u ++ src) ++ y :: junk) q1) in *.
  assert (sds_type q2 <> SDS_TYPE_5) as Ht2 by (apply Ht1; lia). destruct Hjt as [Hjt|Hjt]; [done|]. destruct src as [|x src]; [rewrite zlen_nil in Hsrc; lia|].
  assert (sds_at q2 u x free1) as Hq2.
  { split; [apply hdr_set_buf, Hq1|]. exists (src ++ y :: junk). rewrite zlen_app, zlen_cons. rewrite zlen_cons in Hjt. split_and!; [cbn; lapp|lia|right; lia]. }
  unfold PROTO_IOBUF_LEN in *. destruct (incrlen_spec q2 u x free1 (zlen (x :: src)) Hq2 Ht2) as [Hi _]; [lia|]. destruct Hi as (q3 & E3 & Hq3); [pose proof (zlen_nonneg u); lia|].
  exists q1, q2, q3. eexists. split_and!; try done. cbn [q2 set_buf buf] in Hq3. rewrite <- zlen_app, ztake_app_l in Hq3 by done. exact Hq3.
Qed.

Lemma read_len_spec c v z todo : waiting c v z todo -> Forall cmd_ok todo -> exists n, read_len c = Some n /\ 1 <= n <= PROTO_IOBUF_LEN.
Proof.
  intros (Hc & _ & _ & Hst) Hok. unfold read_len, PROTO_IOBUF_LEN. destruct (_ && _) eqn:E; [|eexists; split; [done|lia]].
  apply andb_prop in E as [_ E]. rewrite Z.geb_leb in E. apply Z.leb_le in E. unfold PROTO_MBULK_BIG_ARG, SDS_BOUND in *.
  assert (bulklen c <= mb) as Hb.
  { destruct Hst as [(_ & -> & _)|(cmd & rest & -> & _ & dn & a & td & -> & _ & _ & [[-> _]|[-> _]])]; [lia| lia|].
    apply Forall_cons in Hok as [(_ & _ & Hm & _) _]. apply Forall_app in Hm as [_ [Hm _]%Forall_cons]. lia. }
  rewrite add64_ok by (unfold LLONG_MIN, LLONG_MAX; lia). cbn [mbind option_bind]. eexists. split; [done|]. destruct (_ && _) eqn:E2; [|lia].
  apply andb_prop in E2 as [E2 E3]. rewrite Z.gtb_ltb in E2. apply Z.ltb_lt in E2, E3. lia.
Qed.

(** More bytes arrive. *)
Lemma waiting_more c v z todo q v' z' : waiting c v z todo -> unparsed (set_query q 0 c) v' -> v' ++ z' = v ++ z -> waiting (set_query q 0 c) v' z' todo.
Proof.
  intros (_ & Hcl & Has & Hst) Hc E. split_and!; try done. destruct Hst as [(H1 & H2 & H3 & H4 & H5)|(cmd & rest & H1 & H2 & dn & a & td & H3 & H4 & H5 & H6)].
  - left. split_and!; try done. by rewrite E.
  - right. exists cmd, rest. split_and!; try done. exists dn, a, td. rewrite E. done.
Qed.

Lemma read_spec c v data later todo : waiting c v (data ++ later) todo -> Forall cmd_ok todo -> qb_pos c = 0 -> zlen v <= mb + 32 -> mb + 32 + PROTO_IOBUF_LEN <= qmax -> data <> [] ->
  exists c' data' v' ran todo' objs, readQueryFromClient mb qmax gopher false closes quits c data = Some (c', data') /\ waiting c' v' (data' ++ later) todo' /\ qb_pos c' = 0 /\ todo = ran ++ todo' /\
    log c' = log c ++ (Execute <$> objs) /\ Forall2 (Forall2 str_repr) objs ran /\ zlen v' <= mb + 32 /\ (data' ++ later = [] -> todo' = []) /\ (length data' < length data)%nat.
Proof.
  intros Hw Hok Hpos Hlv Hroom Hd. unfold readQueryFromClient. destruct (read_len_spec c v _ todo Hw Hok) as (n & -> & Hn). cbn [mbind option_bind].
  assert (1 <= zlen data) as Hld by (destruct data; [done|]; rewrite zlen_cons; pose proof (zlen_nonneg data); lia). set (nread := Z.min n (zlen data)).
  pose proof Hw as (Hc & _). destruct Hc as (p & free & Hs & Hp & _). assert (p = []) as -> by (apply zlen_0_nil; lia). cbn [app] in Hs.
  assert (zlen (ztake nread data) = nread) as Hlt by (apply zlen_ztake; lia).
  destruct (append_spec _ _ _ n (ztake nread data) Hs) as (q1 & q2 & q3 & free' & -> & Ew & Ei & Hq3); [lia|lia|unfold PROTO_IOBUF_LEN in *; lia|]. cbn [mbind option_bind]. rewrite Ew. cbn [mbind option_bind].
  rewrite Hlt in Ei. rewrite Ei. cbn [mbind option_bind]. rewrite (at_len _ _ _ _ Hq3), zlen_app, Hlt. zbool. rewrite Hpos.
  assert (waiting (set_query q3 0 c) (v ++ ztake nread data) (zdrop nread data ++ later) todo) as Hw1.
  { apply (waiting_more c v (data ++ later)); [done|by eapply unparsed_new; [exact Hq3|rewrite zlen_app; lia|..]|]. rewrite <- app_assoc. f_equal. by rewrite app_assoc, ztake_zdrop. }
  destruct (input_buffer_spec _ _ _ _ Hw1 Hok) as (c' & v' & ran & todo' & objs & -> & Hw' & Hpos' & Et & Elog & Hobjs & Hl' & Hz). cbn [mbind option_bind].
  exists c', (zdrop nread data), v', ran, todo', objs. split_and!; try done. assert (zlen (zdrop nread data) = zlen data - nread) as Hz0 by (apply zlen_zdrop; lia). unfold zlen in *. lia.
Qed.

(** What has been read is executed, what is left of the commands waits. *)
Lemma drain_spec later fuel : forall c v data todo, (length data <= fuel)%nat -> waiting c v (data ++ later) todo -> Forall cmd_ok todo -> qb_pos c = 0 -> zlen v <= mb + 32 -> mb + 32 + PROTO_IOBUF_LEN <= qmax ->
  exists c' v' ran todo' objs, drain mb qmax gopher false closes quits fuel c data = Some c' /\ waiting c' v' later todo' /\ qb_pos c' = 0 /\ todo = ran ++ todo' /\
    log c' = log c ++ (Execute <$> objs) /\ Forall2 (Forall2 str_repr) objs ran /\ zlen v' <= mb + 32 /\ (data <> [] -> later = [] -> todo' = []).
Proof.
  induction fuel as [|fuel IH]; intros c v data todo Hf Hw Hok Hpos Hlv Hroom; (destruct data as [|x data]; [exists c, v, [], todo, []; rewrite app_nil_r; done|]).
  { cbn in Hf. lia. }
  cbn [drain]. pose proof Hw as (_ & _ & -> & _).
  destruct (read_spec c v (x :: data) later todo Hw Hok Hpos Hlv Hroom) as (c1 & data1 & v1 & ran1 & todo1 & objs1 & -> & Hw1 & Hpos1 & -> & Elog1 & Hobjs1 & Hl1 & Hz1 & Hlen1); [done|]. cbn [mbind option_bind].
  apply Forall_app in Hok as [_ Hok1]. destruct (IH c1 v1 data1 todo1) as (c2 & v2 & ran2 & todo2 & objs2 & -> & Hw2 & Hpos2 & -> & Elog2 & Hobjs2 & Hl2 & Hz2); try done; [lia|].
  exists c2, v2, (ran1 ++ ran2), todo2, (objs1 ++ objs2). split_and!; try done; [lapp|rewrite Elog2, Elog1, fmap_app; lapp|by apply Forall2_app|]. intros _ ->.
  destruct data1 as [|y data1]; [|by apply Hz2]. specialize (Hz1 eq_refl). by apply app_eq_nil in Hz1 as [_ ->].
Qed.

Lemma receive_spec chunks : forall c v todo, waiting c v (concat chunks) todo -> Forall cmd_ok todo -> qb_pos c = 0 -> zlen v <= mb + 32 -> mb + 32 + PROTO_IOBUF_LEN <= qmax ->
  (concat chunks = [] -> todo = []) ->
  exists c' objs, receive mb qmax gopher false closes quits c chunks = Some c' /\ closing c' = false /\ asap c' = false /\ log c' = log c ++ (Execute <$> objs) /\ Forall2 (Forall2 str_repr) objs todo.
Proof.
  induction chunks as [|data chunks IH]; intros c v todo Hw Hok Hpos Hlv Hroom Hend; cbn [receive concat] in *.
  { exists c, []. rewrite app_nil_r, Hend by done. destruct Hw as (_ & -> & -> & _). done. }
  destruct data as [|x data]; [by apply (IH c v todo)|]. destruct (drain_spec (concat chunks) (length (x :: data)) c v (x :: data) todo) as (c1 & v1 & ran & todo1 & objs1 & -> & Hw1 & Hpos1 & -> & Elog & Hobjs & Hl & Hz); try done.
  cbn [mbind option_bind]. apply Forall_app in Hok as [_ Hok1]. destruct (IH c1 v1 todo1) as (c' & objs' & -> & Hcl & Has & Elog' & Hobjs'); try done; [by apply Hz|].
  exists c', (objs1 ++ objs'). split_and!; try done; [rewrite Elog', Elog, fmap_app; lapp|by apply Forall2_app].
Qed.

(** ** Any input *)

(** The state of the parser between two reads, whatever was sent. *)
Definition parser_ok c v : Prop := unparsed c v /\
  ((multibulklen c = 0 /\ bulklen c = -1 /\ argv c = [] /\ (reqtype c = 0 \/ reqtype c = PROTO_REQ_INLINE \/ (reqtype c = PROTO_REQ_MULTIBULK /\ exists v', v = 42 :: v'))) \/
   (0 < multibulklen c /\ (bulklen c = -1 \/ 0 <= bulklen c <= mb) /\ reqtype c = PROTO_REQ_MULTIBULK)).

(** The same after QUIT, which leaves the arguments behind but closes the connection. *)
Definition parser_rest c v : Prop := parser_ok c v \/ (unparsed c v /\ closing c = true /\ multibulklen c = 0).

Lemma parser_closing c v : parser_ok c v -> parser_ok (set_closing c) v.
Proof. intros [Hc Hst]. split; [by eapply unparsed_ext|done]. Qed.

Lemma parser_reset c v : unparsed c v -> parser_ok (resetClient c) v.
Proof. intros Hc. split; [by eapply unparsed_ext|]. left. cbn. split_and!; try done. by left. Qed.

Definition step_out c v (o : option (iclient * bool)) : Prop :=
  exists c' ret v', o = Some (c', ret) /\ unparsed c' v' /\ zlen v' <= zlen v /\ if ret : bool then zlen v' < zlen v /\ multibulklen c' = 0 else parser_ok c' v'.

Lemma step_out_le c c1 v v1 o : zlen v1 <= zlen v -> step_out c1 v1 o -> step_out c v o.
Proof. intros Hl (c' & ret & v' & -> & Hc & Hl' & Hret). exists c', ret, v'. split_and!; try done; [lia|]. destruct ret; [|done]. split; [lia|apply Hret]. Qed.

Lemma parser_stop c v (b : bool) : parser_ok c v -> step_out c v (Some (if b then set_closing c else c, false)).
Proof. intros Hp. assert (parser_ok (if b then set_closing c else c) v) as Hp' by (destruct b; [by apply parser_closing|done]). eexists _, false, v. split_and!; try done. apply Hp'. Qed.

Lemma any_loop fuel : forall c v, unparsed c v -> 0 < multibulklen c -> (bulklen c = -1 \/ 0 <= bulklen c <= mb) -> reqtype c = PROTO_REQ_MULTIBULK -> multibulklen c < Z.of_nat fuel ->
  step_out c v (bulk_loop mb false fuel c).
Proof.
  induction fuel as [|fuel IH]; intros c v Hc Hm Hb Hr Hf; [lia|].
  assert (forall c1 v1, unparsed c1 v1 -> 0 < multibulklen c1 <= Z.of_nat fuel -> 0 <= bulklen c1 <= mb -> reqtype c1 = PROTO_REQ_MULTIBULK -> step_out c1 v1 (bulk_loop mb false (S fuel) c1)) as Hbody.
  { intros c1 v1 Hc1 Hm1 Hb1 Hr1. cbn [bulk_loop]. unfold SDS_BOUND in *. zbool. cbn [mbind option_bind]. rewrite add64_ok by (unfold LLONG_MIN, LLONG_MAX; lia). cbn [mbind option_bind].
    rewrite (unread_spec c1 v1 Hc1), u64_id by lia. destruct (Z.ltb_spec (zlen v1) (bulklen c1 + 2)) as [Hlt|Hge].
    { apply (parser_stop c1 v1 false). split; [done|]. right. split_and!; [lia|right; lia|done]. }
    destruct (zsplit (bulklen c1) v1) as (a & w & Ev & Ha & _); [lia|]. assert (exists y1 y2 w', w = y1 :: y2 :: w') as (y1 & y2 & w' & ->).
    { rewrite Ev, zlen_app in Hge. destruct w as [|y1 [|y2 w']]; rewrite ?zlen_cons, ?zlen_nil in Hge; [lia|lia|]. by exists y1, y2, w'. }
    destruct (bulk_arg_spec c1 v1 a y1 y2 w' Hc1 Ev) as (c2 & o & -> & Hc2 & _ & _ & Em2 & Eb2 & Er2 & _); [lia|]. cbn [mbind option_bind].
    assert (zlen w' < zlen v1) as Hlw by (rewrite Ev, zlen_app, !zlen_cons; pose proof (zlen_nonneg a); lia).
    destruct (Z.eq_dec (multibulklen c2) 0) as [E0|E0].
    - destruct fuel as [|fuel']; [lia|]. cbn [bulk_loop]. rewrite E0. cbn. exists c2, true, w'. split_and!; [done|done|lia|lia|done].
    - apply (step_out_le c1 c2 v1 w'); [lia|]. apply IH; try done; [lia|by left|congruence|lia]. }
  destruct Hb as [Hb|Hb]; [|by apply Hbody; [done|lia|done|done]]. pose proof (bulk_header_spec c v Hc) as Hh.
  assert (forall b : bool, bulk_header mb false c = Some (if b then set_closing c else c, Some false) -> step_out c v (bulk_loop mb false (S fuel) c)) as Hstop.
  { intros b E. cbn [bulk_loop]. rewrite Hb. zbool. rewrite E. cbn [mbind option_bind]. apply parser_stop. split; [done|]. right. split_and!; [done|by left|done]. }
  destruct (line v) as [[h w]|] eqn:El; [|by apply (Hstop (too_long v))]. destruct (if default 0 (head h) =? 36 then string2ll (tail h) else None) as [ll|]; [|by apply (Hstop true)].
  destruct ((ll <? 0) || (ll >? mb)) eqn:Ell; [by apply (Hstop true)|]. apply orb_false_elim in Ell as [Ell1%Z.ltb_ge Ell2]. rewrite Z.gtb_ltb in Ell2. apply Z.ltb_ge in Ell2.
  destruct Hh as (c' & Eh & Hc' & Hb' & Er & _ & Em & _). rewrite (bulk_loop_header fuel c c'); try done; [|lia|lia].
  apply (step_out_le c c' v w); [|apply Hbody; try done; [lia|lia|congruence]]. destruct (line_Some _ _ _ El) as (y & -> & _). rewrite zlen_app, !zlen_cons. pose proof (zlen_nonneg h). lia.
Qed.

Lemma any_multibulk c v : parser_ok c v -> reqtype c = PROTO_REQ_MULTIBULK -> step_out c v (processMultibulkBuffer mb false c).
Proof.
  intros [Hc Hst] Hr. unfold processMultibulkBuffer. destruct Hst as [(Em & Eb & Ea & Hreq)|(Hm & Hb & _)].
  2:{ zbool. cbn [mbind option_bind]. zbool. apply any_loop; try done. lia. }
  destruct Hreq as [Hreq|[Hreq|[_ [v' ->]]]]; [by rewrite Hr in Hreq..|]. rewrite Em. change (0 =? 0) with true. cbn match. rewrite (mbulk_header_spec c _ v' Hc Ea eq_refl).
  assert (parser_ok c (42 :: v')) as Hp by (split; [done|left; split_and!; try done; right; right; split; [done|by exists v']]).
  destruct (line (42 :: v')) as [[h w]|] eqn:El; cbn [mbind option_bind]; [|by apply parser_stop]. destruct (string2ll (tail h)) as [ll|]; [|by apply (parser_stop c _ true)].
  destruct (ll >? 1024 * 1024); [by apply (parser_stop c _ true)|]. pose proof (after_line c _ _ _ Hc El) as Hcw.
  assert (zlen w < zlen (42 :: v')) as Hlw by (destruct (line_Some _ _ _ El) as (y & -> & _); rewrite zlen_app, !zlen_cons; pose proof (zlen_nonneg h); lia).
  destruct (Z.leb_spec ll 0); cbn [mbind option_bind].
  - eexists _, true, w. split_and!; [done|done|lia|lia|done].
  - set (c1 := set_args _ _ _ _ _). assert (multibulklen c1 = ll) as -> by done. zbool. apply (step_out_le c c1 _ w); [lia|]. apply any_loop; try done; [by left|cbn; lia].
Qed.

(** The arguments of a line are strings. *)
Definition raw_args (os : list strobj) : Prop := Forall (fun o => exists s u, sdsEncodedObject o = Some s /\ holds s u) os.

Lemma line_end c v n : unparsed c v -> scan 10 v = Some n ->
  exists a k w, v = a ++ w /\ 1 <= k <= zlen w /\ (0 ∉ a) /\
    (if negb (qb_pos c + n =? qb_pos c) then x ← (buf (querybuf c)).[qb_pos c + n - 1]; Some (if x =? 13 then (qb_pos c + n - 1, 2) else (qb_pos c + n, 1)) else Some (qb_pos c + n, 1)) =
      Some (qb_pos c + zlen a, k).
Proof.
  intros Hc (a & b & Ev & <- & H1 & H2)%scan_Some. pose proof (zlen_nonneg b). destruct a as [|x a _] using rev_ind.
  { assert (forall z, z + zlen (@nil Z) = z) as Hz0 by (intros z; unfold zlen; cbn; lia). rewrite Hz0, Z.eqb_refl. cbn [negb]. exists [], 1, v. rewrite Hz0, Ev. cbn [app]. rewrite zlen_cons. split_and!; try done; try lia. }
  pose proof (zlen_nonneg a). rewrite zlen_app. change (zlen [x]) with 1. zbool. replace (qb_pos c + (zlen a + 1) - 1) with (qb_pos c + zlen a) by lia.
  rewrite (unparsed_nth c v (zlen a) Hc) by (rewrite Ev, !zlen_app, (zlen_cons 10); change (zlen [x]) with 1; lia). rewrite <- app_assoc in Ev. cbn [app] in Ev. rewrite Ev, (znth_app_mid a x) by done. cbn [mbind option_bind].
  destruct (Z.eqb_spec x 13).
  - exists a, 2, (x :: 10 :: b). rewrite !zlen_cons. split_and!; [done|lia|lia|set_solver|done].
  - exists (a ++ [x]), 1, (10 :: b). rewrite !zlen_cons, zlen_app. change (zlen [x]) with 1. split_and!; [lapp|lia|lia|done|done].
Qed.

Lemma any_inline c v : parser_ok c v -> reqtype c = PROTO_REQ_INLINE ->
  exists c' ret v', processInlineBuffer false c = Some (c', ret) /\ unparsed c' v' /\ zlen v' <= zlen v /\ if ret : bool then zlen v' < zlen v /\ multibulklen c' = 0 /\ raw_args (argv c') else parser_ok c' v'.
Proof.
  intros Hp Hr. pose proof Hp as [Hc Hst]. assert (forall b : bool, exists c' ret v', Some (if b then set_closing c else c, false) = Some (c', ret) /\ unparsed c' v' /\ zlen v' <= zlen v /\
    if ret : bool then zlen v' < zlen v /\ multibulklen c' = 0 /\ raw_args (argv c') else parser_ok c' v') as Hstop.
  { intros b. destruct (parser_stop c v b Hp) as (c' & ret & v' & [= <- <-] & H1 & H2 & H3). by eexists _, false, v'. }
  unfold processInlineBuffer. rewrite (unparsed_scan c v 10 Hc) by done. cbn [mbind option_bind]. destruct (scan 10 v) as [n|] eqn:Es; cbn [fmap option_fmap option_map]; [|apply Hstop].
  destruct (line_end c v n Hc Es) as (a & k & w & Ev & Hk & Ha & ->). cbn [mbind option_bind]. replace (qb_pos c + zlen a - qb_pos c) with (zlen a) by lia.
  destruct (unparsed_buf c v Hc) as (p & junk & Eb & Hpos & _ & Hm). pose proof (zlen_nonneg p). pose proof (zlen_nonneg a). assert (zlen v = zlen a + zlen w) as Hlv by (by rewrite Ev, zlen_app).
  assert (load (zdrop (qb_pos c) (buf (querybuf c))) 0 (zlen a) = Some a) as Hload by (rewrite Eb, zdrop_app_r, Ev by done; apply (load_at [] a (w ++ 0 :: junk)); [lapp|done|done]).
  unfold SDS_BOUND, PROTO_IOBUF_LEN in *. destruct (newptr_spec _ a (zlen a) Hload) as (aux & -> & Haux); [unfold SDS_BOUND; lia|]. cbn [mbind option_bind].
  destruct (at_buf _ _ _ _ Haux) as (junk' & -> & _). unfold sdssplitargs.
  destruct (splitargs_loop_ok junk' (S (length (a ++ 0 :: junk'))) a []) as (res & -> & Hres); [done|unfold SDS_BOUND; lia|rewrite length_app; lia|constructor|]. cbn [mbind option_bind].
  destruct res as [args|]; [|apply (Hstop true)]. specialize (Hres args eq_refl). rewrite andb_false_r.
  destruct (zsplit k w) as (w1 & w2 & Ew & Hw1 & Hw2); [lia|]. assert (unparsed (set_query (querybuf c) (qb_pos c + zlen a + k) c) w2) as Hc2.
  { replace (qb_pos c + zlen a + k) with (qb_pos c + zlen (a ++ w1)) by (rewrite zlen_app; lia). apply (unparsed_step c v _ w2 Hc). rewrite Ev, Ew. lapp. }
  eexists _, true, w2. split; [done|]. split; [by eapply unparsed_ext|]. split; [lia|]. split; [lia|]. split; [destruct Hst as [[Hm0 _]|(_ & _ & E)]; [done|by rewrite Hr in E]|]. cbn. apply Forall_fmap. eapply Forall_impl; [exact Hres|]. intros s [u Hs]. cbn. by exists s, u.
Qed.

Lemma any_gopher c : raw_args (argv c) -> exists b, wants_gopher gopher c = Some b.
Proof.
  intros Hr. unfold wants_gopher. destruct gopher; cbn [negb]; [|by eexists]. destruct (argv c) as [|o [|]]; [by eexists| |by eexists].
  apply Forall_cons in Hr as [(s & u & -> & free & Hs) _]. cbn [mbind option_bind]. destruct (at_buf _ _ _ _ Hs) as (junk & -> & _). destruct u; by eexists.
Qed.

Lemma rest_unparsed c v : parser_rest c v -> unparsed c v.
Proof. by intros [[Hc _]|[Hc _]]. Qed.

Lemma rest_executed c v : unparsed c v -> multibulklen c = 0 -> parser_rest (processCommandAndResetClient closes quits c) v.
Proof.
  intros Hc Hm. unfold processCommandAndResetClient. destruct (closes (argv c)); cbn [andb]; [|left; apply parser_reset; by eapply unparsed_ext].
  destruct (quits (argv c)); [right|left; apply parser_reset; by eapply unparsed_ext]. split_and!; [by eapply unparsed_ext|cbn; by rewrite orb_true_r|done].
Qed.

Lemma any_input_loop fuel : forall c v, parser_rest c v -> (length v < fuel)%nat -> exists c' v', input_loop mb gopher false closes quits fuel c = Some c' /\ parser_rest c' v'.
Proof.
  induction fuel as [|fuel IH]; intros c v Hp Hf; [lia|]. cbn [input_loop]. pose proof (rest_unparsed c v Hp) as Hc. rewrite (more_spec c v Hc).
  destruct (Z.ltb_spec 0 (zlen v)) as [Hv|Hv]; cbn [negb orb]; [|by exists c, v]. destruct (closing c || asap c) eqn:Ecl; [by exists c, v|].
  destruct Hp as [[_ Hst]|(_ & Ec & _)]; [|by rewrite Ec in Ecl].
  assert (exists c1, (if reqtype c =? 0 then x ← (buf (querybuf c)).[qb_pos c]; Some (set_reqtype (if x =? 42 then PROTO_REQ_MULTIBULK else PROTO_REQ_INLINE) c) else Some c) = Some c1 /\
    (reqtype c1 = PROTO_REQ_MULTIBULK \/ reqtype c1 = PROTO_REQ_INLINE) /\ parser_ok c1 v) as (c1 & -> & Hreq & Hp1).
  { destruct (Z.eqb_spec (reqtype c) 0) as [E0|E0]; [|exists c; split_and!; try done; destruct Hst as [(_ & _ & _ & [?|[?|[? _]]])|(_ & _ & ?)]; [done|by right|by left|by left]].
    destruct v as [|x v']; [done|]. rewrite (unparsed_first c _ x v' Hc eq_refl). cbn [mbind option_bind]. eexists. split; [done|].
    destruct Hst as [(Em & Eb & Ea & _)|(_ & _ & E)]; [|by rewrite E in E0].
    destruct (Z.eqb_spec x 42) as [->|]; (split; [cbn; by auto|]); (split; [by eapply unparsed_ext|]); left; cbn; split_and!; try done; right; [right; split; [done|by exists v']|by left]. }
  cbn [mbind option_bind]. assert (forall c2 v2 wants, unparsed c2 v2 -> zlen v2 < zlen v -> multibulklen c2 = 0 -> exists c' v', (if (wants : bool) then Some (set_closing (resetClient (hand_on (Gopher (argv c2)) false c2))) else
      input_loop mb gopher false closes quits fuel (if zlen (argv c2) =? 0 then resetClient c2 else processCommandAndResetClient closes quits c2)) = Some c' /\ parser_rest c' v') as Hnext.
  { intros c2 v2 wants Hc2 Hl2 Hm2. destruct wants; [eexists _, v2; split; [done|]; left; apply parser_closing, parser_reset; by eapply unparsed_ext|].
    apply (IH _ v2); [|unfold zlen in *; lia]. destruct (zlen (argv c2) =? 0); [by left; apply parser_reset|by apply rest_executed]. }
  destruct Hreq as [Hreq|Hreq]; rewrite Hreq; cbn.
  - destruct (any_multibulk c1 v Hp1 Hreq) as (c2 & ret & v2 & -> & Hc2 & _ & Hret). cbn [mbind option_bind]. destruct ret; cbn [negb]; [|exists c2, v2; by split; [|left]]. destruct Hret as [Hl2 Hm2]. by apply (Hnext c2 v2 false).
  - destruct (any_inline c1 v Hp1 Hreq) as (c2 & ret & v2 & -> & Hc2 & _ & Hret). cbn [mbind option_bind]. destruct ret; cbn [negb]; [|exists c2, v2; by split; [|left]].
    destruct Hret as (Hl2 & Hm2 & Hraw). destruct (any_gopher c2 Hraw) as [b ->]. cbn [mbind option_bind]. by apply (Hnext c2 v2 b).
Qed.

Lemma any_input_buffer c v : parser_rest c v -> exists c' v', processInputBuffer mb gopher false closes quits c = Some c' /\ parser_rest c' v' /\ qb_pos c' = 0.
Proof.
  intros Hp. unfold processInputBuffer. pose proof (rest_unparsed c v Hp) as Hc. destruct (unparsed_buf c v Hc) as (p & junk & _ & _ & El & _). pose proof (zlen_nonneg p).
  destruct (any_input_loop (S (Z.to_nat (sdslen (querybuf c)))) c v Hp) as (c' & v' & -> & Hp'); [unfold zlen in *; lia|].
  cbn [mbind option_bind]. destruct (Z.eqb_spec (qb_pos c') 0) as [E0|_]; cbn [negb]; [by exists c', v'|].
  destruct (trim_query_spec c' v' (rest_unparsed c' v' Hp')) as (q & free & -> & Hq & Hm). cbn [mbind option_bind].
  eexists _, v'. split; [done|]. split; [|done]. assert (unparsed (set_query q 0 c') v') as Hn by (by eapply unparsed_new).
  destruct Hp' as [[_ Hst]|[_ Hst]]; [by left|by right].
Qed.

(** Between two calls of the handler. *)
Definition reader_ok c : Prop := asap c = true \/ exists v, parser_rest c v /\ qb_pos c = 0.

Lemma any_read_len c v : parser_rest c v -> exists n, read_len c = Some n /\ 1 <= n <= PROTO_IOBUF_LEN.
Proof.
  intros Hp. unfold read_len, PROTO_IOBUF_LEN. destruct (_ && _) eqn:E; [|eexists; split; [done|lia]].
  apply andb_prop in E as [[[_ Em]%andb_prop _]%andb_prop E]. rewrite Z.geb_leb in E. apply Z.leb_le in E. apply negb_true_iff, Z.eqb_neq in Em.
  destruct Hp as [[_ Hst]|(_ & _ & Hm)]; [|done]. unfold PROTO_MBULK_BIG_ARG, SDS_BOUND in *.
  rewrite add64_ok by (unfold LLONG_MIN, LLONG_MAX; lia). cbn [mbind option_bind]. eexists. split; [done|]. destruct (_ && _) eqn:E2; [|lia].
  apply andb_prop in E2 as [E2 E3]. rewrite Z.gtb_ltb in E2. apply Z.ltb_lt in E2, E3. lia.
Qed.

Lemma any_read c v data : parser_rest c v -> qb_pos c = 0 -> data <> [] ->
  exists c' data', readQueryFromClient mb qmax gopher false closes quits c data = Some (c', data') /\ reader_ok c' /\ (length data' < length data)%nat.
Proof.
  intros Hp Hpos Hd. unfold readQueryFromClient. destruct (any_read_len c v Hp) as (n & -> & Hn). cbn [mbind option_bind].
  assert (1 <= zlen data) as Hld by (destruct data; [done|]; rewrite zlen_cons; pose proof (zlen_nonneg data); lia). set (nread := Z.min n (zlen data)).
  pose proof (rest_unparsed c v Hp) as Hc. destruct Hc as (p & free & Hs & Epos & Hq). assert (p = []) as -> by (apply zlen_0_nil; lia). cbn [app] in Hs, Hq.
  assert (zlen (ztake nread data) = nread) as Hlt by (apply zlen_ztake; lia).
  destruct (append_spec _ _ _ n (ztake nread data) Hs) as (q1 & q2 & q3 & free' & -> & Ew & Ei & Hq3); [lia|lia|lia|]. cbn [mbind option_bind]. rewrite Ew. cbn [mbind option_bind].
  rewrite Hlt in Ei. rewrite Ei. cbn [mbind option_bind]. rewrite (at_len _ _ _ _ Hq3), zlen_app, Hlt.
  assert (length (zdrop nread data) < length data)%nat as Hshort by (assert (zlen (zdrop nread data) = zlen data - nread) as Hz0 by (apply zlen_zdrop; lia); unfold zlen in *; lia).
  destruct (Z.gtb_spec (zlen v + nread) qmax); [eexists _, _; split; [done|]; split; [by left|done]|]. rewrite Hpos.
  assert (parser_rest (set_query q3 0 c) (v ++ ztake nread data)) as Hp1.
  { assert (unparsed (set_query q3 0 c) (v ++ ztake nread data)) as Hu by (eapply unparsed_new; [exact Hq3|rewrite zlen_app; lia|done|done]).
    destruct Hp as [[_ Hst]|[_ Hst]]; [left; split; [done|]|by right]. destruct Hst as [(E1 & E2 & E3 & E4)|Hm]; [left|by right]. split_and!; try done.
    destruct E4 as [E4|[E4|[E4 [v' ->]]]]; [by left|by right; left|right; right]. split; [done|]. by exists (v' ++ ztake nread data). }
  destruct (any_input_buffer _ _ Hp1) as (c' & v' & -> & Hp' & Hpos'). cbn [mbind option_bind]. eexists _, _. split; [done|]. split; [|done]. right. by exists v'.
Qed.

Lemma any_drain fuel : forall c data, (length data <= fuel)%nat -> reader_ok c -> exists c', drain mb qmax gopher false closes quits fuel c data = Some c' /\ reader_ok c'.
Proof.
  induction fuel as [|fuel IH]; intros c data Hf Hr; (destruct data as [|x data]; [by exists c|]); [cbn in Hf; lia|]. cbn [drain]. destruct (asap c) eqn:Ea; [by exists c|].
  destruct Hr as [Hr|(v & Hp & Hpos)]; [congruence|]. destruct (any_read c v (x :: data) Hp Hpos) as (c1 & data1 & -> & Hr1 & Hl1); [done|]. cbn [mbind option_bind]. apply IH; [lia|done].
Qed.

Lemma any_receive chunks : forall c, reader_ok c -> exists c', receive mb qmax gopher false closes quits c chunks = Some c' /\ reader_ok c'.
Proof.
  induction chunks as [|data chunks IH]; intros c Hr; cbn [receive]; [by exists c|]. destruct (any_drain (length data) c data) as (c1 & -> & Hr1); [done|done|]. cbn [mbind option_bind]. by apply IH.
Qed.

Lemma new_client : exists c, createClient = Some c /\ unparsed c [] /\ qb_pos c = 0 /\ reqtype c = 0 /\ argv c = [] /\ multibulklen c = 0 /\ bulklen c = -1 /\
  closing c = false /\ asap c = false /\ log c = [].
Proof.
  unfold createClient. destruct empty_spec as (q & -> & Hq). cbn [mbind option_bind]. eexists. split; [done|]. cbn. split_and!; try done.
  eapply unparsed_new; [exact Hq|rewrite zlen_nil; lia|done|done].
Qed.

End Spec.

(** ** Properties *)

(** C4. Pipelining: any number of commands sent in the RESP format, with arguments of any bytes, cut by the network into
    any pieces and read in whatever portions the buffer allows, are handed to execution one by one, in order, each
    with exactly the arguments that were sent, and the connection stays open. *)
Theorem pipeline_roundtrip `{FreshMem} (max_bulk max_query : Z) (gopher : bool) (closes quits : list strobj -> bool) (cmds : list (list bytes)) (chunks : list bytes) :
  0 <= max_bulk -> max_bulk + 32 + PROTO_IOBUF_LEN <= max_query -> max_query + PROTO_IOBUF_LEN < SDS_BOUND ->
  Forall (cmd_ok max_bulk closes) cmds -> concat chunks = stream cmds ->
  exists c0 c objs, createClient = Some c0 /\ receive max_bulk max_query gopher false closes quits c0 chunks = Some c /\
    log c = Execute <$> objs /\ Forall2 (Forall2 str_repr) objs cmds /\ closing c = false /\ asap c = false.
Proof.
  intros Hmb Hq Hqm Hok Hch. assert (0 <= max_query /\ max_query + PROTO_IOBUF_LEN < SDS_BOUND) as Hq' by (unfold PROTO_IOBUF_LEN in *; lia).
  destruct (new_client max_query Hq') as (c0 & E & Hc & Hpos & Hr & Ha & Hm & Hb & Hcl & Has & Hlog).
  destruct (receive_spec max_bulk max_query gopher closes quits) with (chunks := chunks) (c := c0) (v := @nil Z) (todo := cmds) as (c & objs & Er & Hcl' & Has' & Hlog' & Hobjs);
    try done; try (unfold PROTO_IOBUF_LEN in *; lia).
  - split_and!; try done. left. split_and!; try done. by left.
  - rewrite zlen_nil. lia.
  - rewrite Hch. apply stream_nil.
  - exists c0, c, objs. split_and!; try done. by rewrite Hlog', Hlog.
Qed.

(** C16. Robustness: whatever bytes a client sends, in whatever pieces, the parser never reads or writes outside the query
    buffer, none of its assertions fails, no size overflows and it always returns. *)
Theorem parser_total `{FreshMem} (max_bulk max_query : Z) (gopher : bool) (closes quits : list strobj -> bool) (chunks : list bytes) :
  0 <= max_bulk -> max_bulk + 2 < SDS_BOUND -> 0 <= max_query -> max_query + PROTO_IOBUF_LEN < SDS_BOUND ->
  exists c0 c, createClient = Some c0 /\ receive max_bulk max_query gopher false closes quits c0 chunks = Some c.
Proof.
  intros Hmb Hmb' Hqm Hqm'. destruct (new_client max_query ltac:(lia)) as (c0 & E & Hc & Hpos & Hr & Ha & Hm & Hb & _).
  destruct (any_receive max_bulk max_query gopher closes quits) with (chunks := chunks) (c := c0) as (c & Er & _); try done.
  - right. exists []. split; [|done]. left. split; [done|]. left. split_and!; try done. by left.
  - by exists c0, c.
Qed.

(** ** A concrete run *)

Definition demo_cmds : list (list bytes) := [[bytes_of_string "SET"; bytes_of_string "k"; [13; 10; 0]]; [bytes_of_string "GET"; bytes_of_string "k"]].
Definition demo_chunks : list bytes := [ztake 7 (stream demo_cmds); []; ztake 30 (zdrop 7 (stream demo_cmds)); zdrop 37 (stream demo_cmds)].

Lemma pipeline_roundtrip_witness :
  exists c0 c objs, createClient = Some c0 /\ receive 1000 100000 true false (fun _ => false) (fun _ => false) c0 demo_chunks = Some c /\
    log c = Execute <$> objs /\ Forall2 (Forall2 str_repr) objs demo_cmds /\ closing c = false /\ asap c = false.
Proof.
  refine (pipeline_roundtrip 1000 100000 true (fun _ => false) (fun _ => false) demo_cmds demo_chunks ltac:(done) ltac:(done) ltac:(done) _ eq_refl).
  repeat constructor; try done.
Defined.

Lemma parser_total_witness :
  exists c0 c, createClient = Some c0 /\ receive 1000 100000 true false (fun _ => false) (fun _ => false) c0 [bytes_of_string "*2"; [13; 0; 36; 255]; [10]] = Some c.
Proof. exact (parser_total 1000 100000 true (fun _ => false) (fun _ => false) _ ltac:(done) ltac:(done) ltac:(done) ltac:(done)). Defined.
