(* ===== verification/Crc.v ===== *)
(** * Checksums: crc64.c and crcspeed.c

    The CRC-64 of persisted data.  [_crc64] is the bit by bit definition,
    [crcspeed64little] the table driven routine that works on eight bytes at a
    time, with tables that [crcspeed64little_init] computes from [_crc64].  The two
    agree on every input at every alignment, and a checksum can be continued from
    the checksum of a prefix. *)

From stdpp Require Import base list numbers option.
From Stdlib Require Import ZArith Lia.
From S2P Require Import Prelude.

(** ** The code *)

Definition POLY : Z := 0xad93d23594c935a9.

(** [crc_reflect]: the loop from [i] on, [n] rounds of it. *)
Fixpoint reflect_loop (n : nat) (data ret : Z) : Z :=
  match n with
  | O => ret
  | S n =>
      let data := Z.shiftr data 1 in
      reflect_loop n data (Z.lor (u64 (Z.shiftl ret 1)) (Z.land data 1))
  end.

Definition crc_reflect (data data_len : Z) : Z := reflect_loop (Z.to_nat (data_len - 1)) data (Z.land data 1).

(** One bit of the input, selected by the mask [i]. *)
Definition crc_bit (crc c i : Z) : Z :=
  let bit := Z.land crc 0x8000000000000000 in
  let bit := if negb (Z.land c i =? 0) then (if bit =? 0 then 1 else 0) else bit in
  let crc := u64 (Z.shiftl crc 1) in
  if negb (bit =? 0) then Z.lxor crc POLY else crc.

(** The masks of a byte; the shift leaves the 8 bit type after the last one. *)
Fixpoint crc_bits (fuel : nat) (crc c i : Z) : Z :=
  match fuel with
  | O => crc
  | S fuel => if Z.land i 255 =? 0 then crc else crc_bits fuel (crc_bit crc c i) c (u8 (Z.shiftl i 1))
  end.

Definition crc_byte (crc c : Z) : Z := Z.land (crc_bits 9 crc c 1) 0xffffffffffffffff.

Definition _crc64 (crc : Z) (in_data : bytes) : Z :=
  let crc := foldl crc_byte crc in_data in
  Z.lxor (crc_reflect (Z.land crc 0xffffffffffffffff) 64) 0.

(** The tables: [table[0]] holds the checksums of the single bytes. *)
Definition next_crc (table0 : list Z) (crc : Z) : option Z :=
  t ← table0.[Z.land crc 255];
  Some (Z.lxor t (Z.shiftr crc 8)).

Fixpoint nested_rows (k : nat) (table0 row : list Z) : option (list (list Z)) :=
  match k with
  | O => Some []
  | S k => row ← mapM (next_crc table0) row; rows ← nested_rows k table0 row; Some (row :: rows)
  end.

Definition crcspeed64little_init (crcfn : Z -> bytes -> Z) : option (list (list Z)) :=
  let table0 := (fun n => crcfn 0 [u8 n]) <$> zseq 0 256 in
  rows ← nested_rows 7 table0 table0;
  Some (table0 :: rows).

Definition tbl (table : list (list Z)) (k n : Z) : option Z := row ← table.[k]; row.[n].

(** A single byte at [next]. *)
Definition crc_next (table : list (list Z)) (crc : Z) (buf : bytes) (next : Z) : option Z :=
  c ← buf.[next];
  t ← tbl table 0 (Z.land (Z.lxor crc c) 255);
  Some (Z.lxor t (Z.shiftr crc 8)).

(** Bytes before the first address that is a multiple of 8; [addr] is the address of the buffer. *)
Fixpoint align_loop (fuel : nat) (table : list (list Z)) (crc addr : Z) (buf : bytes) (next len : Z) : option (Z * Z * Z) :=
  if negb (len =? 0) && negb (Z.land (addr + next) 7 =? 0) then
    match fuel with
    | O => None
    | S fuel => crc ← crc_next table crc buf next; align_loop fuel table crc addr buf (next + 1) (len - 1)
    end
  else Some (crc, next, len).

Definition crc_word (table : list (list Z)) (crc : Z) (buf : bytes) (next : Z) : option Z :=
  w ← load buf next 8;
  let crc := Z.lxor crc (le_val w) in
  t7 ← tbl table 7 (Z.land crc 255);
  t6 ← tbl table 6 (Z.land (Z.shiftr crc 8) 255);
  t5 ← tbl table 5 (Z.land (Z.shiftr crc 16) 255);
  t4 ← tbl table 4 (Z.land (Z.shiftr crc 24) 255);
  t3 ← tbl table 3 (Z.land (Z.shiftr crc 32) 255);
  t2 ← tbl table 2 (Z.land (Z.shiftr crc 40) 255);
  t1 ← tbl table 1 (Z.land (Z.shiftr crc 48) 255);
  t0 ← tbl table 0 (Z.shiftr crc 56);
  Some (Z.lxor (Z.lxor (Z.lxor (Z.lxor (Z.lxor (Z.lxor (Z.lxor t7 t6) t5) t4) t3) t2) t1) t0).

Fixpoint words_loop (fuel : nat) (table : list (list Z)) (crc : Z) (buf : bytes) (next len : Z) : option (Z * Z * Z) :=
  if 8 <=? len then
    match fuel with
    | O => None
    | S fuel => crc ← crc_word table crc buf next; words_loop fuel table crc buf (next + 8) (len - 8)
    end
  else Some (crc, next, len).

Fixpoint rest_loop (fuel : nat) (table : list (list Z)) (crc : Z) (buf : bytes) (next len : Z) : option Z :=
  if negb (len =? 0) then
    match fuel with
    | O => None
    | S fuel => crc ← crc_next table crc buf next; rest_loop fuel table crc buf (next + 1) (len - 1)
    end
  else Some crc.

Definition crcspeed64little (table : list (list Z)) (crc addr : Z) (buf : bytes) (len : Z) : option Z :=
  let fuel := Z.to_nat len in
  '(crc, next, len) ← align_loop fuel table crc addr buf 0 len;
  '(crc, next, len) ← words_loop fuel table crc buf next len;
  rest_loop fuel table crc buf next len.

(** [crc64_init] fills the table before the first use. *)
Definition crc64_table : option (list (list Z)) := crcspeed64little_init _crc64.

Definition crc64 (crc addr : Z) (s : bytes) (l : Z) : option Z :=
  table ← crc64_table;
  crcspeed64little table crc addr s l.

(** ** Bits *)

Definition word (x : Z) : Prop := 0 <= x < 2 ^ 64.

Lemma word_bits x : 0 <= x -> (forall i, 64 <= i -> Z.testbit x i = false) -> word x.
Proof.
  intros H0 Hb. split; [done|]. destruct (decide (x = 0)) as [->|]; [done|].
  apply Z.log2_lt_pow2; [lia|]. destruct (Z.lt_ge_cases (Z.log2 x) 64); [done|].
  pose proof (Hb (Z.log2 x) ltac:(lia)). rewrite Z.bit_log2 in *; [done|lia].
Qed.

Lemma word_high x i : word x -> 64 <= i -> Z.testbit x i = false.
Proof.
  intros [H0 H1] Hi. destruct (decide (x = 0)) as [->|]; [by rewrite Z.testbit_0_l|].
  apply Z.bits_above_log2; [lia|]. apply Z.log2_lt_pow2 in H1; lia.
Qed.

Lemma word_lxor x y : word x -> word y -> word (Z.lxor x y).
Proof.
  intros Hx Hy. apply word_bits; [apply Z.lxor_nonneg; destruct Hx, Hy; lia|].
  intros i Hi. by rewrite Z.lxor_spec, (word_high x), (word_high y).
Qed.

Lemma word_shiftr x n : 0 <= n -> word x -> word (Z.shiftr x n).
Proof.
  intros Hn Hx. apply word_bits; [apply Z.shiftr_nonneg, Hx|]. intros i Hi. rewrite Z.shiftr_spec by lia. apply word_high; [done|lia].
Qed.

Lemma word_byte x : is_byte x -> word x.
Proof. unfold is_byte, word. lia. Qed.

Lemma word_u64 x : word (u64 x).
Proof. unfold word, u64, wrapu. apply Z.mod_pos_bound. lia. Qed.

Lemma testbit_u64 x i : 0 <= i < 64 -> Z.testbit (u64 x) i = Z.testbit x i.
Proof. intros. unfold u64, wrapu. apply Z.mod_pow2_bits_low. lia. Qed.

Lemma word_eq x y : word x -> word y -> (forall i, 0 <= i < 64 -> Z.testbit x i = Z.testbit y i) -> x = y.
Proof.
  intros Hx Hy H. apply Z.bits_inj'. intros i Hi. destruct (Z.lt_ge_cases i 64); [by apply H|]. by rewrite !word_high.
Qed.

Lemma lxor_add b v : is_byte b -> 0 <= v -> b + 256 * v = Z.lxor b (256 * v).
Proof.
  intros Hb Hv. rewrite <- Z.add_nocarry_lxor; [done|]. apply Z.bits_inj'. intros i Hi. rewrite Z.land_spec, Z.bits_0.
  replace (256 * v) with (v * 2 ^ 8) by lia. destruct (Z.lt_ge_cases i 8).
  - rewrite Z.mul_pow2_bits_low by lia. apply andb_false_r.
  - replace b with (b mod 2 ^ 8) by (apply Z.mod_small; unfold is_byte in Hb; lia).
    by rewrite Z.mod_pow2_bits_high by lia.
Qed.

Lemma land_bit x j : 0 <= j -> (Z.land x (2 ^ j) =? 0) = negb (Z.testbit x j).
Proof.
  intros Hj. assert (Z.land x (2 ^ j) = if Z.testbit x j then 2 ^ j else 0) as ->.
  { apply Z.bits_inj'. intros i Hi. rewrite Z.land_spec, Z.pow2_bits_eqb by lia. destruct (Z.eqb_spec j i) as [->|].
    - rewrite andb_true_r. destruct (Z.testbit x i); [by rewrite Z.pow2_bits_true|by rewrite Z.bits_0].
    - rewrite andb_false_r. destruct (Z.testbit x j); [by rewrite Z.pow2_bits_false|by rewrite Z.bits_0]. }
  destruct (Z.testbit x j); [|done]. apply Z.eqb_neq. lia.
Qed.

(** ** The reflected register

    [_crc64] shifts to the left and reflects at the end; the tables work on the
    reflected register, which shifts to the right. *)
Definition RPOLY : Z := crc_reflect POLY 64.

Definition rstep (r : Z) : Z := if Z.odd r then Z.lxor (Z.shiftr r 1) RPOLY else Z.shiftr r 1.

Lemma word_RPOLY : word RPOLY.
Proof. split; by vm_compute. Qed.

Lemma word_rstep r : word r -> word (rstep r).
Proof. intros. unfold rstep. case_match; [apply word_lxor; [|apply word_RPOLY]|]; apply word_shiftr; done. Qed.

Lemma rstep_lxor x y : rstep (Z.lxor x y) = Z.lxor (rstep x) (rstep y).
Proof.
  unfold rstep. rewrite <- !Z.bit0_odd, Z.lxor_spec, Z.shiftr_lxor. set (a := Z.shiftr x 1). set (b := Z.shiftr y 1).
  apply Z.bits_inj'. intros i _. destruct (Z.testbit x 0), (Z.testbit y 0); cbn [xorb]; rewrite ?Z.lxor_spec;
    destruct (Z.testbit a i), (Z.testbit b i), (Z.testbit RPOLY i); done.
Qed.

Lemma rstep_double y : rstep (2 * y) = y.
Proof. unfold rstep. rewrite Z.odd_mul. cbn [Z.odd andb]. rewrite <- Z.div2_spec, Z.div2_div, Z.mul_comm. by apply Z.div_mul. Qed.

Definition rsteps (n : nat) (r : Z) : Z := Nat.iter n rstep r.

Lemma rsteps_add n m r : rsteps (n + m) r = rsteps n (rsteps m r).
Proof. apply Nat.iter_add. Qed.

Lemma rsteps_S n r : rsteps (S n) r = rsteps n (rstep r).
Proof. replace (S n) with (n + 1)%nat by lia. by rewrite rsteps_add. Qed.

Lemma rsteps_lxor n x y : rsteps n (Z.lxor x y) = Z.lxor (rsteps n x) (rsteps n y).
Proof. revert x y. induction n as [|n IH]; intros x y; [done|]. by rewrite !rsteps_S, rstep_lxor, IH. Qed.

Lemma word_rsteps n r : word r -> word (rsteps n r).
Proof. intros. induction n as [|n IH]; [done|]. by apply word_rstep. Qed.

Lemma rsteps_shift n y : rsteps n (2 ^ Z.of_nat n * y) = y.
Proof.
  induction n as [|n IH]; [cbn; lia|]. rewrite rsteps_S. rewrite <- (IH) at 2. f_equal.
  rewrite Nat2Z.inj_succ, Z.pow_succ_r, <- Z.mul_assoc by lia. apply rstep_double.
Qed.

Lemma rstep_inj x : word x -> rstep x = 0 -> x = 0.
Proof.
  intros Hx. unfold rstep. rewrite <- Z.bit0_odd. destruct (Z.testbit x 0) eqn:E0; intros H.
  - apply Z.lxor_eq in H. assert (Z.testbit RPOLY 63 = true) as H63 by done.
    rewrite <- H, Z.shiftr_spec, word_high in H63; done.
  - apply Z.bits_inj'. intros i Hi. rewrite Z.bits_0. destruct (decide (i = 0)) as [->|]; [done|].
    replace i with (i - 1 + 1) by lia. rewrite <- Z.shiftr_spec by lia. by rewrite H, Z.bits_0.
Qed.

Lemma rsteps_inj n x : word x -> rsteps n x = 0 -> x = 0.
Proof. revert x. induction n as [|n IH]; intros x Hx H; [done|]. rewrite rsteps_S in H. apply IH in H; [by apply rstep_inj|by apply word_rstep]. Qed.

(** ** Reflection *)

Lemma land_1 x : Z.land x 1 = x mod 2.
Proof. by apply (Z.land_ones x 1). Qed.

Lemma reflect_loop_bits n : forall data ret k, 0 <= k -> k + Z.of_nat n <= 64 -> 0 <= ret < 2 ^ k ->
  0 <= reflect_loop n data ret < 2 ^ (k + Z.of_nat n) /\
  forall i, 0 <= i -> Z.testbit (reflect_loop n data ret) i =
    if i <? Z.of_nat n then Z.testbit data (Z.of_nat n - i) else Z.testbit ret (i - Z.of_nat n).
Proof.
  induction n as [|n IH]; intros data ret k Hk Hn Hr; cbn [reflect_loop].
  - change (Z.of_nat 0) with 0. rewrite Z.add_0_r. split; [done|]. intros i Hi. zbool. by rewrite Z.sub_0_r.
  - assert (2 ^ (k + 1) <= 2 ^ 64) as Hp by (apply Z.pow_le_mono_r; lia). rewrite Z.pow_add_r in Hp by lia.
    set (d := Z.land (Z.shiftr data 1) 1).
    assert (d = (Z.shiftr data 1) mod 2) as Hd by apply land_1.
    assert (0 <= d < 2) as Hd2 by (rewrite Hd; apply Z.mod_pos_bound; lia).
    assert (Z.lor (u64 (Z.shiftl ret 1)) d = 2 * ret + d) as Hlor.
    { rewrite Z.shiftl_mul_pow2 by lia. unfold u64, wrapu. rewrite Z.mod_small by lia. replace (ret * 2 ^ 1) with (2 * ret) by lia.
      symmetry. rewrite <- Z.add_lor_land. enough (Z.land (2 * ret) d = 0) as -> by lia.
      apply Z.bits_inj'. intros i Hi. rewrite Z.land_spec, Z.bits_0. destruct (decide (i = 0)) as [->|]; [by rewrite Z.testbit_even_0|].
      rewrite <- (Z.mod_small d (2 ^ 1)) by lia. rewrite Z.mod_pow2_bits_high by lia. apply andb_false_r. }
    rewrite Hlor. destruct (IH (Z.shiftr data 1) (2 * ret + d) (k + 1)) as [Hrng Hbits]; [lia|lia|rewrite Z.pow_add_r by lia; lia|].
    split; [by replace (k + Z.of_nat (S n)) with (k + 1 + Z.of_nat n) by lia|].
    intros i Hi. rewrite Hbits by done. rewrite Nat2Z.inj_succ. destruct (Z.ltb_spec i (Z.of_nat n)).
    + destruct (Z.ltb_spec i (Z.succ (Z.of_nat n))); [|lia]. rewrite Z.shiftr_spec by lia. by replace (Z.succ (Z.of_nat n) - i) with (Z.of_nat n - i + 1) by lia.
    + destruct (Z.ltb_spec i (Z.succ (Z.of_nat n))).
      * replace (i - Z.of_nat n) with 0 by lia. replace (Z.succ (Z.of_nat n) - i) with 1 by lia.
        rewrite Z.add_comm, Z.bit0_odd, Z.odd_add_mul_2, Hd. change 2 with (2 ^ 1). rewrite <- Z.bit0_odd, Z.mod_pow2_bits_low by lia.
        by rewrite Z.shiftr_spec.
      * replace (i - Z.of_nat n) with (Z.succ (i - Z.succ (Z.of_nat n))) by lia.
        replace (2 * ret + d) with (d + 2 * ret) by lia.
        rewrite <- Z.div2_bits by lia. rewrite (Z.mul_comm 2), Z.div_add, Z.div_small by lia. done.
Qed.

Lemma reflect_word x : word (crc_reflect x 64).
Proof.
  unfold crc_reflect. change (Z.to_nat (64 - 1)) with 63%nat. unfold word.
  apply (reflect_loop_bits 63 x (Z.land x 1) 1); [lia|lia|]. rewrite land_1. by apply Z.mod_pos_bound.
Qed.

Lemma reflect_bit x i : 0 <= i < 64 -> Z.testbit (crc_reflect x 64) i = Z.testbit x (63 - i).
Proof.
  intros Hi. unfold crc_reflect. change (Z.to_nat (64 - 1)) with 63%nat.
  destruct (reflect_loop_bits 63 x (Z.land x 1) 1) as [_ Hb]; [lia|lia| |].
  { rewrite land_1. by apply Z.mod_pos_bound. }
  rewrite Hb by lia. change (Z.of_nat 63) with 63. destruct (Z.ltb_spec i 63); [done|].
  replace (i - 63) with 0 by lia. replace (63 - i) with 0 by lia. rewrite Z.land_spec. change (Z.testbit 1 0) with true. apply andb_true_r.
Qed.

Lemma reflect_reflect x : word x -> crc_reflect (crc_reflect x 64) 64 = x.
Proof. intros. apply word_eq; [apply reflect_word|done|]. intros i Hi. rewrite !reflect_bit by lia. f_equal. lia. Qed.

Lemma reflect_lxor x y : crc_reflect (Z.lxor x y) 64 = Z.lxor (crc_reflect x 64) (crc_reflect y 64).
Proof.
  apply word_eq; [apply reflect_word|apply word_lxor; apply reflect_word|].
  intros i Hi. by rewrite Z.lxor_spec, !reflect_bit, Z.lxor_spec by lia.
Qed.

#[local] Opaque crc_reflect.

(** A step of [_crc64] is a step of the reflected register. *)
Lemma crc_bit_reflect crc c j : word crc -> 0 <= j ->
  word (crc_bit crc c (2 ^ j)) /\
  crc_reflect (crc_bit crc c (2 ^ j)) 64 = rstep (Z.lxor (crc_reflect crc 64) (Z.b2z (Z.testbit c j))).
Proof.
  intros Hc Hj. set (b := xorb (Z.testbit crc 63) (Z.testbit c j)).
  assert (crc_bit crc c (2 ^ j) = if b then Z.lxor (u64 (Z.shiftl crc 1)) POLY else u64 (Z.shiftl crc 1)) as ->.
  { unfold crc_bit, b. rewrite land_bit by done. change 0x8000000000000000 with (2 ^ 63).
    pose proof (land_bit crc 63 ltac:(lia)) as E. destruct (Z.testbit c j), (Z.testbit crc 63); cbn [negb xorb] in *; rewrite E; done. }
  assert (word POLY) as HP by (split; by vm_compute).
  split; [destruct b; [apply word_lxor; [apply word_u64|done]|apply word_u64]|].
  assert (crc_reflect (u64 (Z.shiftl crc 1)) 64 = Z.shiftr (crc_reflect crc 64) 1) as Hsh.
  { apply word_eq; [apply reflect_word|apply word_shiftr; [lia|apply reflect_word]|]. intros i Hi.
    rewrite reflect_bit, testbit_u64, Z.shiftl_spec, Z.shiftr_spec by lia. destruct (decide (i = 63)) as [->|].
    - rewrite (word_high (crc_reflect crc 64) (63 + 1) (reflect_word crc) ltac:(lia)). by apply Z.testbit_neg_r.
    - rewrite reflect_bit by lia. f_equal. lia. }
  assert (Z.shiftr (Z.lxor (crc_reflect crc 64) (Z.b2z (Z.testbit c j))) 1 = Z.shiftr (crc_reflect crc 64) 1) as Hs2.
  { rewrite Z.shiftr_lxor. assert (Z.shiftr (Z.b2z (Z.testbit c j)) 1 = 0) as -> by (by destruct (Z.testbit c j)). apply Z.lxor_0_r. }
  unfold rstep. rewrite <- Z.bit0_odd, Z.lxor_spec, reflect_bit, Hs2 by lia. change (63 - 0) with 63. rewrite Z.b2z_bit0. fold b.
  destruct b; [rewrite reflect_lxor|]; by rewrite Hsh.
Qed.

(** ** Bytes and tables *)

Definition bstep (r c : Z) : Z := rsteps 8 (Z.lxor r c).

Lemma zseq_S j n : zseq j (Z.of_nat (S n)) = j :: zseq (j + 1) (Z.of_nat n).
Proof.
  unfold zseq. rewrite !Nat2Z.id. cbn [seq fmap list_fmap]. f_equal; [lia|]. rewrite <- seq_shift, <- !list_fmap_compose.
  apply list_fmap_ext. intros. cbn [compose]. unfold compose. lia.
Qed.

Lemma low_bit x : x = Z.lxor (Z.b2z (Z.testbit x 0)) (2 * Z.shiftr x 1).
Proof.
  apply Z.bits_inj'. intros i Hi. rewrite Z.lxor_spec. destruct (decide (i = 0)) as [->|].
  - rewrite Z.b2z_bit0, Z.testbit_even_0. by rewrite xorb_false_r.
  - replace i with (Z.succ (i - 1)) by lia. rewrite Z.testbit_even_succ, Z.shiftr_spec by lia.
    assert (Z.testbit (Z.b2z (Z.testbit x 0)) (Z.succ (i - 1)) = false) as ->.
    { destruct (Z.testbit x 0); [|apply Z.bits_0]. apply (Z.bits_above_log2 1); [lia|]. change (Z.log2 1) with 0. lia. }
    rewrite xorb_false_l. f_equal.
Qed.

Lemma feed_bits c n : forall j r, 0 <= j -> Z.shiftr c (j + Z.of_nat n) = 0 ->
  foldl (fun r j => rstep (Z.lxor r (Z.b2z (Z.testbit c j)))) r (zseq j (Z.of_nat n)) = rsteps n (Z.lxor r (Z.shiftr c j)).
Proof.
  induction n as [|n IH]; intros j r Hj Hsh.
  - rewrite Z.add_0_r in Hsh. rewrite Hsh. cbn. by rewrite Z.lxor_0_r.
  - rewrite zseq_S. cbn [foldl]. rewrite IH; [|lia|rewrite <- Hsh; f_equal; lia]. rewrite rsteps_S. f_equal.
    rewrite (low_bit (Z.shiftr c j)). rewrite Z.shiftr_spec, Z.shiftr_shiftr by lia. rewrite Z.add_0_l.
    rewrite !rstep_lxor, rstep_double. by rewrite Z.lxor_assoc.
Qed.

Lemma masks crc c : crc_bits 9 crc c 1 = foldl (fun crc j => crc_bit crc c (2 ^ j)) crc (zseq 0 8).
Proof. reflexivity. Qed.

Lemma crc_byte_reflect crc c : word crc -> is_byte c ->
  word (crc_byte crc c) /\ crc_reflect (crc_byte crc c) 64 = bstep (crc_reflect crc 64) c.
Proof.
  intros Hc Hb. unfold crc_byte, bstep. rewrite masks.
  assert (forall l crc, word crc -> Forall (fun j => 0 <= j) l ->
    word (foldl (fun crc j => crc_bit crc c (2 ^ j)) crc l) /\
    crc_reflect (foldl (fun crc j => crc_bit crc c (2 ^ j)) crc l) 64 =
      foldl (fun r j => rstep (Z.lxor r (Z.b2z (Z.testbit c j)))) (crc_reflect crc 64) l) as Hfold.
  { induction l as [|j l IH]; intros crc' Hw Hl; [done|]. apply Forall_cons_1 in Hl as [Hj Hl].
    destruct (crc_bit_reflect crc' c j Hw Hj) as [Hw' E]. cbn [foldl]. rewrite <- E. by apply IH. }
  destruct (Hfold (zseq 0 8) crc Hc) as [Hw E]; [repeat constructor; lia|].
  set (x := foldl _ crc _) in *. assert (Z.land x 0xffffffffffffffff = x) as ->.
  { change 0xffffffffffffffff with (Z.ones 64). rewrite Z.land_ones by lia. by apply Z.mod_small. }
  split; [done|]. rewrite E. change 8 with (Z.of_nat 8) at 1. rewrite feed_bits; [by rewrite Z.shiftr_0_r|lia|].
  change (0 + Z.of_nat 8) with 8. rewrite Z.shiftr_div_pow2 by lia. apply Z.div_small. exact Hb.
Qed.

Lemma crc64_fold data : forall crc, word crc -> bytes_ok data -> _crc64 crc data = foldl bstep (crc_reflect crc 64) data.
Proof.
  unfold _crc64. intros crc Hc Hd.
  assert (word (foldl crc_byte crc data) /\ crc_reflect (foldl crc_byte crc data) 64 = foldl bstep (crc_reflect crc 64) data) as [Hw <-].
  { revert crc Hc. induction Hd as [|c data Hb Hd IH]; intros crc Hc; [done|].
    destruct (crc_byte_reflect crc c Hc Hb) as [Hw E]. cbn [foldl]. rewrite <- E. by apply IH. }
  rewrite Z.lxor_0_r. f_equal. change 0xffffffffffffffff with (Z.ones 64). rewrite Z.land_ones by lia. by apply Z.mod_small.
Qed.

Lemma word_bstep r c : word r -> is_byte c -> word (bstep r c).
Proof. intros. by apply word_rsteps, word_lxor; [|apply word_byte]. Qed.

Lemma word_fold data : forall r, word r -> bytes_ok data -> word (foldl bstep r data).
Proof. induction data as [|c data IH]; intros r Hr Hd; [done|]. apply Forall_cons_1 in Hd as [Hc Hd]. apply IH; [by apply word_bstep|done]. Qed.

(** Eight steps push the low byte out. *)
Lemma rsteps_byte n x : 0 <= x -> rsteps (8 + n) x = Z.lxor (rsteps (8 + n) (x mod 256)) (rsteps n (x / 256)).
Proof.
  intros Hx. rewrite (Z.div_mod x 256) at 1 by lia. rewrite Z.add_comm, lxor_add; [|apply Z.mod_pos_bound; lia|apply Z.div_pos; lia].
  rewrite rsteps_lxor. f_equal. rewrite (Nat.add_comm 8 n), rsteps_add. f_equal. change 256 with (2 ^ Z.of_nat 8) at 1. apply rsteps_shift.
Qed.

Lemma fold_word w : forall r, bytes_ok w -> foldl bstep r w = rsteps (8 * length w) (Z.lxor r (le_val w)).
Proof.
  induction w as [|b w IH]; intros r Hw; [cbn; by rewrite Z.lxor_0_r|]. apply Forall_cons_1 in Hw as [Hb Hw].
  cbn [foldl le_val length]. rewrite IH by done. replace (8 * S (length w))%nat with (8 * length w + 8)%nat by lia.
  rewrite rsteps_add. f_equal. unfold bstep. rewrite lxor_add; [|done|].
  - rewrite !rsteps_lxor, Z.lxor_assoc. do 2 f_equal. symmetry. apply (rsteps_shift 8).
  - clear -Hw. induction Hw as [|x l Hx _ IH]; [done|]. cbn. unfold is_byte in Hx. lia.
Qed.

(** Row [k] of the table holds the effect of [k + 1] bytes on the byte that leaves first. *)
Lemma byte_rows (row : list Z) (f : Z -> Z) n : row = f <$> zseq 0 256 -> is_byte n -> row.[n] = Some (f n).
Proof.
  intros -> Hn. unfold is_byte in Hn. unfold znth. zbool. rewrite list_lookup_fmap. unfold zseq. rewrite !list_lookup_fmap, lookup_seq_lt by lia.
  cbn. do 2 f_equal. lia.
Qed.

Lemma next_crc_spec table0 x : table0 = rsteps 8 <$> zseq 0 256 -> 0 <= x -> next_crc table0 x = Some (rsteps 8 x).
Proof.
  intros Ht Hx. unfold next_crc. change 255 with (Z.ones 8). rewrite Z.land_ones by lia. change (2 ^ 8) with 256.
  rewrite (byte_rows _ _ _ Ht) by (apply Z.mod_pos_bound; lia). cbn [mbind option_bind]. f_equal.
  pose proof (rsteps_byte 0 x Hx) as E. cbn [Nat.add] in E. by rewrite E, Z.shiftr_div_pow2.
Qed.

Lemma mapM_fmap {A B C} (f : B -> option C) (g : A -> B) (h : A -> C) l :
  Forall (fun x => f (g x) = Some (h x)) l -> mapM f (g <$> l) = Some (h <$> l).
Proof. induction 1 as [|x l Hx _ IH]; [done|]. cbn. rewrite Hx. cbn. by rewrite IH. Qed.

Lemma byte_indices : bytes_ok (zseq 0 256).
Proof. apply Forall_fmap, Forall_fmap, Forall_forall. intros x Hx. apply in_seq in Hx. cbn. unfold is_byte. lia. Qed.

Lemma nested_rows_spec table0 k : table0 = rsteps 8 <$> zseq 0 256 -> forall m row, row = rsteps (8 * m) <$> zseq 0 256 ->
  nested_rows k table0 row = Some ((fun j => rsteps (8 * j) <$> zseq 0 256) <$> seq (S m) k).
Proof.
  intros Ht. induction k as [|k IH]; intros m row Hr; [done|]. cbn [nested_rows seq fmap list_fmap].
  assert (mapM (next_crc table0) row = Some (rsteps (8 * S m) <$> zseq 0 256)) as ->.
  { subst row. apply mapM_fmap. eapply Forall_impl; [|exact byte_indices]. intros n Hn.
    rewrite next_crc_spec; [|done|apply word_rsteps, word_byte, Hn]. f_equal. replace (8 * S m)%nat with (8 + 8 * m)%nat by lia. by rewrite rsteps_add. }
  cbn [mbind option_bind]. by rewrite (IH (S m)).
Qed.

Lemma crc64_table_spec : exists table, crc64_table = Some table /\
  forall k n, 0 <= k < 8 -> is_byte n -> tbl table k n = Some (rsteps (8 * (Z.to_nat k + 1)) n).
Proof.
  unfold crc64_table, crcspeed64little_init. set (table0 := _ <$> zseq 0 256).
  assert (table0 = rsteps (8 * 1) <$> zseq 0 256) as Ht.
  { subst table0. pose proof byte_indices as Hb. induction Hb as [|n l Hn Hl IH]; [done|]. cbn. f_equal; [|done].
    assert (u8 n = n) as -> by (apply Z.mod_small; exact Hn).
    rewrite crc64_fold; [|split; lia|by constructor]. cbn [foldl]. unfold bstep. change (crc_reflect 0 64) with 0. by rewrite Z.lxor_0_l. }
  rewrite (nested_rows_spec _ 7 Ht 1 _ Ht). cbn [mbind option_bind]. eexists. split; [done|]. intros k n Hk Hn. rewrite Ht.
  change (_ :: _) with ((fun j => rsteps (8 * j) <$> zseq 0 256) <$> seq 1 8). unfold tbl.
  rewrite (znth_nat _ k), list_lookup_fmap, lookup_seq_lt by lia. cbn [fmap option_fmap option_map mbind option_bind].
  rewrite (byte_rows _ _ n eq_refl Hn). do 2 f_equal. lia.
Qed.

(** ** The table driven routine *)

(** Eight bytes at once. *)
Lemma rsteps_word x : 0 <= x ->
  rsteps 64 x = Z.lxor (Z.lxor (Z.lxor (Z.lxor (Z.lxor (Z.lxor (Z.lxor (rsteps 64 (x mod 256)) (rsteps 56 (x / 2 ^ 8 mod 256)))
    (rsteps 48 (x / 2 ^ 16 mod 256))) (rsteps 40 (x / 2 ^ 24 mod 256))) (rsteps 32 (x / 2 ^ 32 mod 256)))
    (rsteps 24 (x / 2 ^ 40 mod 256))) (rsteps 16 (x / 2 ^ 48 mod 256))) (rsteps 8 (x / 2 ^ 56)).
Proof.
  intros Hx.
  assert (forall m n k k', 0 <= k -> m = (8 + n)%nat -> k' = k + 8 ->
    rsteps m (x / 2 ^ k) = Z.lxor (rsteps m (x / 2 ^ k mod 256)) (rsteps n (x / 2 ^ k'))) as Hs.
  { intros m n k k' Hk -> ->. rewrite rsteps_byte by (apply Z.div_pos; lia). rewrite Z.div_div by lia. by rewrite Z.pow_add_r by lia. }
  pose proof (Hs 64%nat 56%nat 0 8) as E0. rewrite Z.div_1_r in E0. rewrite E0 by done.
  rewrite (Hs 56%nat 48%nat 8 16), (Hs 48%nat 40%nat 16 24), (Hs 40%nat 32%nat 24 32), (Hs 32%nat 24%nat 32 40),
    (Hs 24%nat 16%nat 40 48), (Hs 16%nat 8%nat 48 56) by done. by rewrite !Z.lxor_assoc.
Qed.

Section Speed.
Context (table : list (list Z)) (addr : Z) (z : bytes).
Hypothesis Htbl : forall k n, 0 <= k < 8 -> is_byte n -> tbl table k n = Some (rsteps (8 * (Z.to_nat k + 1)) n).

Lemma crc_next_spec r a c v : word r -> is_byte c -> crc_next table r (a ++ (c :: v) ++ z) (zlen a) = Some (bstep r c).
Proof.
  intros Hr Hc. unfold crc_next. cbn [app]. rewrite znth_app_mid by done. cbn [mbind option_bind].
  assert (word (Z.lxor r c)) as [Hx _] by (apply word_lxor; [done|by apply word_byte]).
  change 255 with (Z.ones 8). rewrite Z.land_ones by lia. rewrite Htbl; [|lia|apply Z.mod_pos_bound; lia]. cbn [mbind option_bind].
  f_equal. unfold bstep. pose proof (rsteps_byte 0 (Z.lxor r c) Hx) as E. cbn [Nat.add] in E. rewrite E. f_equal.
  change 256 with (2 ^ 8). rewrite <- Z.shiftr_div_pow2, Z.shiftr_lxor by lia. unfold is_byte in Hc.
  rewrite (Z.shiftr_div_pow2 c) by lia. change (2 ^ 8) with 256. rewrite (Z.div_small c) by lia. symmetry. apply Z.lxor_0_r.
Qed.

Lemma align_loop_spec fuel v : forall r a, word r -> bytes_ok v -> (length v <= fuel)%nat ->
  exists v1 v2, v = v1 ++ v2 /\
    align_loop fuel table r addr (a ++ v ++ z) (zlen a) (zlen v) = Some (foldl bstep r v1, zlen (a ++ v1), zlen v2).
Proof.
  revert v. induction fuel as [|fuel IH]; intros v r a Hr Hv Hf.
  - destruct v; [|cbn in Hf; lia]. exists [], []. split; [done|]. cbn. by rewrite app_nil_r.
  - cbn [align_loop]. destruct v as [|c v]; [exists [], []; split; [done|]; cbn; by rewrite app_nil_r|].
    apply Forall_cons_1 in Hv as [Hc Hv]. destruct (_ && _); [|exists [], (c :: v); split; [done|]; by rewrite app_nil_r].
    rewrite crc_next_spec by done. cbn [mbind option_bind].
    destruct (IH v (bstep r c) (a ++ [c])) as (v1 & v2 & -> & E); [by apply word_bstep|done|cbn in Hf; lia|].
    exists (c :: v1), v2. split; [done|]. replace (zlen a + 1) with (zlen (a ++ [c])) by len.
    replace (zlen (c :: v1 ++ v2) - 1) with (zlen (v1 ++ v2)) by len.
    replace (a ++ (c :: v1 ++ v2) ++ z) with ((a ++ [c]) ++ (v1 ++ v2) ++ z) by lapp. rewrite E. cbn [foldl].
    do 3 f_equal. len.
Qed.

Lemma crc_word_spec r a w v : word r -> bytes_ok w -> zlen w = 8 ->
  crc_word table r (a ++ (w ++ v) ++ z) (zlen a) = Some (foldl bstep r w).
Proof.
  intros Hr Hw H8. unfold crc_word. rewrite <- app_assoc, (load_app a w) by done. cbn [mbind option_bind].
  rewrite fold_word by done. replace (8 * length w)%nat with 64%nat by (unfold zlen in H8; lia).
  pose proof (le_val_range w Hw) as Hle. rewrite H8 in Hle.
  assert (word (Z.lxor r (le_val w))) as [Hx Hx'] by (by apply word_lxor). set (x := Z.lxor r (le_val w)) in *.
  assert (forall n, 0 <= n -> Z.land (Z.shiftr x n) 255 = x / 2 ^ n mod 256) as Hb.
  { intros n Hn. change 255 with (Z.ones 8). by rewrite Z.land_ones, Z.shiftr_div_pow2. }
  pose proof (Hb 0 ltac:(lia)) as H0. rewrite Z.shiftr_0_r, Z.div_1_r in H0. rewrite H0, !Hb, Z.shiftr_div_pow2 by lia.
  assert (is_byte (x / 2 ^ 56)) as Htop by (split; [apply Z.div_pos; lia|apply Z.div_lt_upper_bound; lia]).
  assert (forall y, is_byte (y mod 256)) as Hm by (intros; apply Z.mod_pos_bound; lia).
  rewrite !Htbl by (done || lia). cbn [mbind option_bind]. f_equal. symmetry. exact (rsteps_word x Hx).
Qed.

Lemma words_loop_spec fuel : forall v r a, word r -> bytes_ok v -> (length v <= fuel)%nat ->
  exists v1 v2, v = v1 ++ v2 /\
    words_loop fuel table r (a ++ v ++ z) (zlen a) (zlen v) = Some (foldl bstep r v1, zlen (a ++ v1), zlen v2).
Proof.
  induction fuel as [|fuel IH]; intros v r a Hr Hv Hf; cbn [words_loop]; (destruct (Z.leb_spec 8 (zlen v)) as [H8|];
    [|exists [], v; split; [done|]; by rewrite app_nil_r]); [unfold zlen in H8; lia|].
  pose proof (ztake_zdrop 8 v) as Es. assert (zlen (ztake 8 v) = 8) as Hl by (apply zlen_ztake; lia).
  pose proof (bytes_ok_ztake 8 v Hv) as Hw. pose proof (bytes_ok_zdrop 8 v Hv) as Hd.
  destruct (ztake 8 v) as [|x0 w0] eqn:Et; [done|]. rewrite <- Et in *. set (w := ztake 8 v) in *. set (v' := zdrop 8 v) in *. clearbody w v'.
  rewrite <- Es, crc_word_spec by done. cbn [mbind option_bind].
  destruct (IH v' (foldl bstep r w) (a ++ w)) as (v1 & v2 & -> & E); [by apply word_fold|done|apply (f_equal length) in Es; rewrite length_app in Es; unfold zlen in Hl; lia|].
  exists (w ++ v1), v2. split; [by rewrite app_assoc|]. replace (zlen a + 8) with (zlen (a ++ w)) by len.
  replace (zlen (w ++ v1 ++ v2) - 8) with (zlen (v1 ++ v2)) by len.
  replace (a ++ (w ++ v1 ++ v2) ++ z) with ((a ++ w) ++ (v1 ++ v2) ++ z) by lapp. rewrite E, foldl_app. do 3 f_equal. len.
Qed.

Lemma rest_loop_spec fuel : forall v r a, word r -> bytes_ok v -> (length v <= fuel)%nat ->
  rest_loop fuel table r (a ++ v ++ z) (zlen a) (zlen v) = Some (foldl bstep r v).
Proof.
  induction fuel as [|fuel IH]; intros v r a Hr Hv Hf; (destruct v as [|c v]; [done|]); [cbn in Hf; lia|].
  apply Forall_cons_1 in Hv as [Hc Hv]. cbn [rest_loop]. rewrite zlen_cons. pose proof (zlen_nonneg v). zbool.
  rewrite crc_next_spec by done. cbn [mbind option_bind foldl].
  replace (zlen a + 1) with (zlen (a ++ [c])) by len. replace (1 + zlen v - 1) with (zlen v) by lia.
  replace (a ++ (c :: v) ++ z) with ((a ++ [c]) ++ v ++ z) by lapp. apply IH; [by apply word_bstep|done|cbn in Hf; lia].
Qed.

Lemma crcspeed_spec v r : word r -> bytes_ok v -> crcspeed64little table r addr (v ++ z) (zlen v) = Some (foldl bstep r v).
Proof.
  intros Hr Hv. unfold crcspeed64little. change (v ++ z) with ([] ++ v ++ z). change 0 with (zlen (@nil Z)) at 1.
  destruct (align_loop_spec (Z.to_nat (zlen v)) v r [] Hr Hv) as (v1 & v2 & Ev & ->); [unfold zlen; lia|]. cbn [mbind option_bind].
  rewrite Ev in Hv. apply Forall_app in Hv as [Hv1 Hv2]. assert (word (foldl bstep r v1)) as Hr1 by (by apply word_fold).
  rewrite Ev. cbn [app]. rewrite <- app_assoc.
  destruct (words_loop_spec (Z.to_nat (zlen (v1 ++ v2))) v2 (foldl bstep r v1) v1 Hr1 Hv2) as (v3 & v4 & Ev2 & ->); [unfold zlen; rewrite length_app; lia|]. cbn [mbind option_bind].
  rewrite Ev2 in Hv2. apply Forall_app in Hv2 as [Hv3 Hv4]. rewrite Ev2. replace (v1 ++ (v3 ++ v4) ++ z) with ((v1 ++ v3) ++ v4 ++ z) by lapp.
  rewrite rest_loop_spec; [by rewrite !foldl_app|by apply word_fold|done|unfold zlen; rewrite !length_app; lia].
Qed.
End Speed.

Lemma crc64_spec r addr v z : word r -> bytes_ok v -> crc64 r addr (v ++ z) (zlen v) = Some (foldl bstep r v).
Proof. intros Hr Hv. unfold crc64. destruct crc64_table_spec as (table & -> & Ht). by apply crcspeed_spec. Qed.

Lemma word_0 : word 0.
Proof. split; lia. Qed.

Lemma crc64_0 data : bytes_ok data -> _crc64 0 data = foldl bstep 0 data.
Proof. intros. by apply (crc64_fold data 0 word_0). Qed.

(** ** Errors that are detected *)

Lemma fold_diff b : forall r r', bytes_ok b -> Z.lxor (foldl bstep r b) (foldl bstep r' b) = rsteps (8 * length b) (Z.lxor r r').
Proof.
  intros r r' Hb. rewrite !fold_word, <- rsteps_lxor by done. f_equal. apply Z.bits_inj'. intros i _. rewrite !Z.lxor_spec.
  by destruct (Z.testbit r i), (Z.testbit r' i), (Z.testbit (le_val b) i).
Qed.

Lemma fold_burst r w w' b : word r -> bytes_ok w -> bytes_ok w' -> bytes_ok b -> length w = length w' -> zlen w <= 8 ->
  foldl bstep r (w ++ b) = foldl bstep r (w' ++ b) -> w = w'.
Proof.
  intros Hr Hw Hw' Hb Hl H8 E. rewrite !foldl_app in E.
  assert (word (le_val w) /\ word (le_val w')) as [Hv Hv'].
  { pose proof (le_val_range w Hw). pose proof (le_val_range w' Hw'). unfold zlen in *. rewrite <- Hl in *.
    assert (2 ^ (8 * Z.of_nat (length w)) <= 2 ^ 64) by (apply Z.pow_le_mono_r; lia). unfold word. lia. }
  assert (Z.lxor (foldl bstep r w) (foldl bstep r w') = 0) as Hd.
  { apply (rsteps_inj (8 * length b)); [apply word_lxor; by apply word_fold|]. rewrite <- fold_diff, E by done. apply Z.lxor_nilpotent. }
  rewrite !fold_word, <- Hl, <- rsteps_lxor in Hd by done.
  assert (Z.lxor (Z.lxor r (le_val w)) (Z.lxor r (le_val w')) = Z.lxor (le_val w) (le_val w')) as Ex.
  { apply Z.bits_inj'. intros i _. rewrite !Z.lxor_spec. by destruct (Z.testbit r i), (Z.testbit (le_val w) i), (Z.testbit (le_val w') i). }
  rewrite Ex in Hd. apply rsteps_inj in Hd; [|by apply word_lxor]. apply Z.lxor_eq in Hd. by apply le_val_inj.
Qed.

(** A message followed by its own checksum has checksum 0, and no other eight bytes do this. *)
Lemma fold_self r w : word r -> bytes_ok w -> zlen w = 8 -> foldl bstep r w = 0 <-> le_val w = r.
Proof.
  intros Hr Hw H8. rewrite fold_word by done. assert (word (le_val w)) as Hv by (pose proof (le_val_range w Hw) as Hv; by rewrite H8 in Hv).
  split.
  - intros E. apply rsteps_inj in E; [|by apply word_lxor]. symmetry. by apply Z.lxor_eq.
  - intros ->. rewrite Z.lxor_nilpotent. generalize (8 * length w)%nat. intros n. induction n as [|n IH]; [done|]. by rewrite rsteps_S.
Qed.

(** C17. The table driven checksum of eight bytes at a time is the bit by bit one,
    at any alignment, and it can be continued: the checksum of a message is
    obtained from the checksum of any prefix. *)
Theorem crc64_bitwise addr addr' a b : bytes_ok a -> bytes_ok b ->
  crc64 0 addr a (zlen a) = Some (_crc64 0 a) /\ crc64 (_crc64 0 a) addr' b (zlen b) = Some (_crc64 0 (a ++ b)).
Proof.
  intros Ha Hb. assert (bytes_ok (a ++ b)) as Hab by (by apply Forall_app).
  rewrite (crc64_0 a Ha), (crc64_0 _ Hab), (foldl_app bstep a).
  pose proof (crc64_spec 0 addr a [] word_0 Ha) as E. rewrite app_nil_r in E. split; [exact E|].
  pose proof (crc64_spec (foldl bstep 0 a) addr' b [] (word_fold a 0 word_0 Ha) Hb) as E2. by rewrite app_nil_r in E2.
Qed.

(** Two messages that differ only inside eight consecutive bytes have different checksums. *)
Theorem crc64_detects_burst a w w' b : bytes_ok (a ++ w ++ b) -> bytes_ok w' -> length w = length w' -> zlen w <= 8 ->
  w <> w' -> _crc64 0 (a ++ w ++ b) <> _crc64 0 (a ++ w' ++ b).
Proof.
  intros [Ha [Hw Hb]%Forall_app]%Forall_app Hw' Hl H8 Hne E. apply Hne.
  assert (bytes_ok (a ++ w ++ b) /\ bytes_ok (a ++ w' ++ b)) as [H1 H2] by (unfold bytes_ok; by rewrite !Forall_app).
  rewrite (crc64_0 _ H1), (crc64_0 _ H2), !(foldl_app bstep a) in E.
  exact (fold_burst _ w w' b (word_fold a 0 word_0 Ha) Hw Hw' Hb Hl H8 E).
Qed.

Lemma crc64_bitwise_witness :
  crc64 0 4096 [1; 2; 3] 3 = Some (_crc64 0 [1; 2; 3]) /\ crc64 (_crc64 0 [1; 2; 3]) 4099 [250; 0] 2 = Some (_crc64 0 [1; 2; 3; 250; 0]).
Proof. exact (crc64_bitwise 4096 4099 [1; 2; 3] [250; 0] ltac:(by repeat constructor) ltac:(by repeat constructor)). Defined.

Lemma crc64_detects_burst_witness : _crc64 0 ([7] ++ [1; 2; 3] ++ [9]) <> _crc64 0 ([7] ++ [1; 4; 5] ++ [9]).
Proof.
  exact (crc64_detects_burst [7] [1; 2; 3] [1; 4; 5] [9] ltac:(by repeat constructor) ltac:(by repeat constructor) eq_refl
    ltac:(vm_compute; congruence) ltac:(discriminate)).
Defined.
