(* ===== verification/Rio.v ===== *)
(** * Streams: rio.h and rio.c

    A rio is a stream with a checksum over a device that reads and writes.  The
    operations of the device are the class [RioDevice]; the memory buffer of
    rio.c, an sds string with a position, is an instance, and [RioLaws] is what
    the functions that save and load data rely on: a write appends all the bytes or
    fails, a read returns all the bytes it was asked for or fails.  Files obey the
    same laws and may fail; the buffer fails only at its end. *)

From stdpp Require Import base list numbers option.
From Stdlib Require Import ZArith Lia.
From S2P Require Import Prelude Sds Crc.

(** ** The code *)

(** [write] and [read]: the answer of [write] is 1 or 0, [read] answers with the bytes or with 0. *)
Class RioDevice (B : Type) := {
  io_write : B -> bytes -> option (B * bool);
  io_read : B -> Z -> option (B * option bytes)
}.

Record rio (B : Type) := mk_rio {
  io : B; update_cksum : bool; cksum : Z; read_error : bool; write_error : bool;
  processed_bytes : Z; max_processing_chunk : Z
}.
Arguments mk_rio {B}.
Arguments io {B}.
Arguments update_cksum {B}.
Arguments cksum {B}.
Arguments read_error {B}.
Arguments write_error {B}.
Arguments processed_bytes {B}.
Arguments max_processing_chunk {B}.

Section Stream.
Context {B : Type} `{RioDevice B}.
(** The address of a buffer, which crc64 looks at. *)
Context (buf_addr : bytes -> Z).

Definition set_io (d : B) (r : rio B) : rio B :=
  mk_rio d (update_cksum r) (cksum r) (read_error r) (write_error r) (processed_bytes r) (max_processing_chunk r).
Definition set_cksum (c : Z) (r : rio B) : rio B :=
  mk_rio (io r) (update_cksum r) c (read_error r) (write_error r) (processed_bytes r) (max_processing_chunk r).
Definition set_errors (re we : bool) (r : rio B) : rio B :=
  mk_rio (io r) (update_cksum r) (cksum r) re we (processed_bytes r) (max_processing_chunk r).
Definition add_processed (n : Z) (r : rio B) : rio B :=
  mk_rio (io r) (update_cksum r) (cksum r) (read_error r) (write_error r) (u64 (processed_bytes r + n)) (max_processing_chunk r).

Definition rioGenericUpdateChecksum (r : rio B) (bs : bytes) : option (rio B) :=
  c ← crc64 (cksum r) (buf_addr bs) bs (zlen bs); Some (set_cksum c r).

Definition checksum_if (r : rio B) (bs : bytes) : option (rio B) :=
  if update_cksum r then rioGenericUpdateChecksum r bs else Some r.

Definition chunk (r : rio B) (len : Z) : Z :=
  if negb (max_processing_chunk r =? 0) && (max_processing_chunk r <? len) then max_processing_chunk r else len.

Fixpoint write_loop (fuel : nat) (r : rio B) (bs : bytes) : option (rio B * bool) :=
  if zlen bs =? 0 then Some (r, true) else
  match fuel with
  | O => None
  | S fuel =>
      let n := chunk r (zlen bs) in
      r ← checksum_if r (ztake n bs);
      '(d, ok) ← io_write (io r) (ztake n bs);
      let r := set_io d r in
      if ok : bool then write_loop fuel (add_processed n r) (zdrop n bs)
      else Some (set_errors (read_error r) true r, false)
  end.

Definition rioWrite (r : rio B) (bs : bytes) : option (rio B * bool) :=
  if write_error r then Some (r, false) else write_loop (length bs) r bs.

(** [acc] is what has been stored in the buffer of the caller. *)
Fixpoint read_loop (fuel : nat) (r : rio B) (len : Z) (acc : bytes) : option (rio B * option bytes) :=
  if len =? 0 then Some (r, Some acc) else
  match fuel with
  | O => None
  | S fuel =>
      let n := chunk r len in
      '(d, got) ← io_read (io r) n;
      let r := set_io d r in
      match got with
      | None => Some (set_errors true (write_error r) r, None)
      | Some bs => r ← checksum_if r bs; read_loop fuel (add_processed n r) (len - n) (acc ++ bs)
      end
  end.

(** One round per chunk. *)
Definition rioRead (r : rio B) (len : Z) : option (rio B * option bytes) :=
  if read_error r then Some (r, None) else
  read_loop (S (Z.to_nat (len / max_processing_chunk r))) r len [].

End Stream.

(** ** Buffers in memory *)

Record rio_buffer := mk_buffer { b_ptr : sds; b_pos : Z }.

Section Buffer.
Context `{FreshMem}.

Definition rioBufferWrite (b : rio_buffer) (bs : bytes) : option (rio_buffer * bool) :=
  p ← sdscatlen (b_ptr b) bs (zlen bs);
  Some (mk_buffer p (b_pos b + zlen bs), true).

Definition rioBufferRead (b : rio_buffer) (len : Z) : option (rio_buffer * option bytes) :=
  if u64 (sdslen (b_ptr b) - b_pos b) <? len then Some (b, None) else
  bs ← load (buf (b_ptr b)) (b_pos b) len;
  Some (mk_buffer (b_ptr b) (b_pos b + len), Some bs).

#[export] Instance rioBufferIO : RioDevice rio_buffer := {| io_write := rioBufferWrite; io_read := rioBufferRead |}.

Definition rioInitWithBuffer (s : sds) : rio rio_buffer := mk_rio (mk_buffer s 0) false 0 false false 0 0.
End Buffer.

(** ** What a device promises

    [writes b w]: the bytes [w] have been written.  [reads b i]: the bytes [i] can be
    read.  A device that is not [reliable] may fail at any time. *)
Class RioLaws (B : Type) `{RioDevice B} := {
  writes : B -> bytes -> Prop;
  reads : B -> bytes -> Prop;
  reliable : bool;
  write_law : forall b w bs, writes b w -> bytes_ok bs -> zlen w + zlen bs < SDS_BOUND ->
    exists b' ok, io_write b bs = Some (b', ok) /\ (ok = true -> writes b' (w ++ bs)) /\ (reliable = true -> ok = true);
  read_law : forall b i n, reads b i -> 0 < n < 2 ^ 64 ->
    exists b' got, io_read b n = Some (b', got) /\
      match got with
      | Some bs => exists i', i = bs ++ i' /\ zlen bs = n /\ reads b' i'
      | None => reliable = true -> zlen i < n
      end
}.

Section BufferLaws.
Context `{FreshMem}.

Definition buffer_writes (b : rio_buffer) (w : bytes) : Prop := exists free, sds_repr (b_ptr b) w free.
Definition buffer_reads (b : rio_buffer) (i : bytes) : Prop :=
  exists a free, sds_repr (b_ptr b) (a ++ i) free /\ b_pos b = zlen a /\ zlen (a ++ i) < SDS_BOUND.

Lemma buffer_write b w bs : buffer_writes b w -> bytes_ok bs -> zlen w + zlen bs < SDS_BOUND ->
  exists b' ok, rioBufferWrite b bs = Some (b', ok) /\ (ok = true -> buffer_writes b' (w ++ bs)) /\ (true = true -> ok = true).
Proof.
  intros [free Hs] _ Hl. unfold rioBufferWrite. pose proof (zlen_nonneg bs).
  destruct (catlen_spec (b_ptr b) w free bs bs (zlen bs) Hs) as (s & free' & -> & Hs'); [|done|done|].
  { rewrite <- (app_nil_r bs) at 1. apply load_prefix. }
  eexists _, true. split; [done|]. split; [|done]. intros _. by exists free'.
Qed.

Lemma buffer_read b i n : buffer_reads b i -> 0 < n < 2 ^ 64 ->
  exists b' got, rioBufferRead b n = Some (b', got) /\
    match got with Some bs => exists i', i = bs ++ i' /\ zlen bs = n /\ buffer_reads b' i' | None => true = true -> zlen i < n end.
Proof.
  intros (a & free & Hs & Hp & Hl) Hn. unfold rioBufferRead. rewrite (at_len _ _ _ _ Hs), Hp. pose proof (zlen_nonneg a). pose proof (zlen_nonneg i).
  rewrite zlen_app in *. unfold SDS_BOUND in *. rewrite u64_small by lia. destruct (Z.ltb_spec (zlen a + zlen i - zlen a) n).
  - eexists _, None. split; [done|]. lia.
  - destruct (at_buf _ _ _ _ Hs) as (junk & Eb & _). destruct (zsplit n i) as (bs & i' & -> & Hbs & _); [lia|].
    rewrite (load_at a bs (i' ++ 0 :: junk)); [|rewrite Eb; lapp|done|lia]. cbn [mbind option_bind].
    eexists _, (Some bs). split; [done|]. exists i'. split; [done|]. split; [lia|]. exists (a ++ bs), free. cbn [b_ptr b_pos].
    rewrite <- app_assoc. split; [done|]. unfold SDS_BOUND. rewrite !zlen_app in *. lia.
Qed.

#[export] Instance buffer_laws : RioLaws rio_buffer :=
  {| writes := buffer_writes; reads := buffer_reads; reliable := true; write_law := buffer_write; read_law := buffer_read |}.
End BufferLaws.

(** ** Streams over a device *)

Section StreamSpec.
Context {B : Type} `{RioLaws B} (buf_addr : bytes -> Z).
Implicit Types (r : rio B) (w i p bs : bytes).

(** The settings a transfer does not change. *)
Definition same_settings r r' : Prop := update_cksum r' = update_cksum r /\ max_processing_chunk r' = max_processing_chunk r.

(** The checksum of what was transferred, or zero as long as none is kept. *)
Definition cksum_of r w : Prop := bytes_ok w /\ cksum r = (if update_cksum r then foldl bstep 0 w else 0) /\ 0 <= max_processing_chunk r.

(** [wstate r w]: the stream has written [w]; [rstate r p i]: it has read [p] and [i] is ahead. *)
Definition wstate r w : Prop := write_error r = false /\ writes (io r) w /\ cksum_of r w.
Definition rstate r p i : Prop := read_error r = false /\ reads (io r) i /\ cksum_of r p /\ bytes_ok i.

Lemma checksum_spec r w bs : cksum_of r w -> bytes_ok bs ->
  exists c, checksum_if buf_addr r bs = Some (set_cksum c r) /\ c = if update_cksum r then foldl bstep 0 (w ++ bs) else 0.
Proof.
  intros (Hw & Hc & _) Hb. unfold checksum_if, rioGenericUpdateChecksum. destruct r as [d [] c re we pb mc]; cbn [update_cksum cksum max_processing_chunk] in *.
  - rewrite Hc. pose proof (crc64_spec (foldl bstep 0 w) (buf_addr bs) bs [] (word_fold w 0 word_0 Hw) Hb) as E.
    rewrite app_nil_r in E. rewrite E. cbn [mbind option_bind]. eexists. split; [done|]. by rewrite foldl_app.
  - exists c. by rewrite Hc.
Qed.

Lemma chunk_range r len : 0 <= max_processing_chunk r -> 0 < len -> 0 < chunk r len <= len.
Proof. intros. unfold chunk. destruct (Z.eqb_spec (max_processing_chunk r) 0); cbn [negb andb]; [lia|]. zcase; lia. Qed.

Lemma write_loop_spec fuel : forall r w bs, wstate r w -> bytes_ok bs -> zlen w + zlen bs < SDS_BOUND -> (length bs <= fuel)%nat ->
  exists r' ok, write_loop buf_addr fuel r bs = Some (r', ok) /\ same_settings r r' /\ (ok = true -> wstate r' (w ++ bs)) /\
    (reliable = true -> ok = true).
Proof.
  induction fuel as [|fuel IH]; intros r w bs Hw Hb Hl Hf.
  - destruct bs; [|cbn in Hf; lia]. exists r, true. rewrite app_nil_r. done.
  - cbn [write_loop]. destruct (Z.eqb_spec (zlen bs) 0) as [E0|E0].
    { apply zlen_0_nil in E0 as ->. exists r, true. rewrite app_nil_r. done. }
    pose proof (zlen_nonneg bs). destruct Hw as (Hwe & Hwr & Hck). pose proof Hck as (Hwb & _ & Hmc).
    pose proof (chunk_range r (zlen bs) Hmc ltac:(lia)) as Hn. set (n := chunk r (zlen bs)) in *.
    destruct (zsplit n bs) as (b1 & b2 & -> & Hb1 & _); [lia|]. rewrite ztake_app_l, zdrop_app_r by done.
    apply Forall_app in Hb as [Hok1 Hok2]. rewrite zlen_app in Hl. pose proof (zlen_nonneg b2).
    destruct (checksum_spec r w b1 Hck Hok1) as (c & -> & Hc). cbn [mbind option_bind]. cbn [io set_cksum].
    destruct (write_law (io r) w b1 Hwr Hok1 ltac:(lia)) as (d & ok & -> & Hok & Hrel). cbn [mbind option_bind].
    destruct ok; [|eexists _, false; split; [done|]; split; [done|]; split; [done|by intros ?%Hrel]].
    destruct (IH (add_processed n (set_io d (set_cksum c r))) (w ++ b1) b2) as (r' & ok & -> & Hs & Hw' & Hr');
      [|done|rewrite zlen_app; lia|rewrite length_app in Hf; unfold zlen in Hb1; lia|].
    { split; [done|]. split; [by apply Hok|]. split; [by apply Forall_app|]. split; [exact Hc|done]. }
    exists r', ok. split; [done|]. split; [exact Hs|]. by rewrite <- app_assoc in Hw'.
Qed.

Lemma rioWrite_spec r w bs : wstate r w -> bytes_ok bs -> zlen w + zlen bs < SDS_BOUND ->
  exists r' ok, rioWrite buf_addr r bs = Some (r', ok) /\ same_settings r r' /\ (ok = true -> wstate r' (w ++ bs)) /\ (reliable = true -> ok = true).
Proof. intros Hw Hb Hl. unfold rioWrite. pose proof Hw as (-> & _). by apply write_loop_spec. Qed.

Lemma read_loop_spec fuel : forall r p i len acc, rstate r p i -> 0 <= len < 2 ^ 64 ->
  (len = 0 \/ (Z.to_nat (len / max_processing_chunk r) < fuel)%nat) ->
  exists r' got, read_loop buf_addr fuel r len acc = Some (r', got) /\ same_settings r r' /\
    match got with
    | Some bs => exists b i', bs = acc ++ b /\ i = b ++ i' /\ zlen b = len /\ rstate r' (p ++ b) i'
    | None => read_error r' = true /\ (reliable = true -> zlen i < len)
    end.
Proof.
  induction fuel as [|fuel IH]; intros r p i len acc Hr Hl Hf; cbn [read_loop];
    (destruct (Z.eqb_spec len 0) as [->|E0]; [exists r, (Some acc); do 2 (split; [done|]); exists [], i; by rewrite !app_nil_r|]); [lia|].
  destruct Hr as (Hre & Hrd & Hck & Hib). pose proof Hck as (Hpb & _ & Hmc).
  pose proof (chunk_range r len Hmc ltac:(lia)) as Hn. set (n := chunk r len) in *.
  destruct (read_law (io r) i n Hrd ltac:(lia)) as (d & got & -> & Hgot). cbn [mbind option_bind].
  destruct got as [b1|]; [|eexists _, None; split; [done|]; split; [done|]; split; [done|]; intros ?%Hgot; lia].
  destruct Hgot as (i1 & -> & Hb1 & Hrd1). apply Forall_app in Hib as [Hok1 Hok2].
  destruct (checksum_spec (set_io d r) p b1 Hck Hok1) as (c & -> & Hc). cbn [mbind option_bind].
  destruct (IH (add_processed n (set_cksum c (set_io d r))) (p ++ b1) i1 (len - n) (acc ++ b1)) as (r' & got & -> & Hs & Hg);
    [|lia| |].
  { split; [done|]. split; [done|]. split; [|done]. split; [by apply Forall_app|]. split; [exact Hc|done]. }
  { cbn [max_processing_chunk add_processed set_cksum set_io]. destruct Hf as [|Hf]; [done|]. unfold chunk in n.
    destruct (Z.eqb_spec (max_processing_chunk r) 0); cbn [negb andb] in n; [left; lia|].
    destruct (Z.ltb_spec (max_processing_chunk r) len); [right|left; lia]. subst n.
    assert ((len - max_processing_chunk r) / max_processing_chunk r = len / max_processing_chunk r - 1) as ->.
    { replace (len - max_processing_chunk r) with (len + -1 * max_processing_chunk r) by lia. rewrite Z.div_add by done. lia. }
    assert (1 <= len / max_processing_chunk r) by (apply Z.div_le_lower_bound; lia). lia. }
  exists r', got. split; [done|]. split; [exact Hs|]. destruct got as [bs|].
  - destruct Hg as (b & i' & -> & -> & Hb & Hr'). exists (b1 ++ b), i'. rewrite <- !app_assoc in *. split; [done|]. split; [done|]. split; [len|done].
  - destruct Hg as [He Hg]. split; [done|]. intros Hrel. rewrite zlen_app. specialize (Hg Hrel). lia.
Qed.

Lemma rioRead_spec r p i n : rstate r p i -> 0 <= n < 2 ^ 64 ->
  exists r' got, rioRead buf_addr r n = Some (r', got) /\ same_settings r r' /\
    match got with
    | Some bs => exists i', i = bs ++ i' /\ zlen bs = n /\ rstate r' (p ++ bs) i'
    | None => read_error r' = true /\ (reliable = true -> zlen i < n)
    end.
Proof.
  intros Hr Hn. unfold rioRead. pose proof Hr as (-> & _).
  destruct (read_loop_spec (S (Z.to_nat (n / max_processing_chunk r))) r p i n [] Hr Hn) as (r' & got & E & Hs & Hg); [right; lia|].
  exists r', got. split; [done|]. split; [done|]. destruct got; [|done]. destruct Hg as (b & i' & -> & Hi & Hb & Hr'). by exists i'.
Qed.
End StreamSpec.
