(* ===== verification/Rdb.v ===== *)
(** * The RDB format: lengths, integers and strings (rdb.c, rdb.h)

    Lengths take one, two, five or nine bytes; a string is stored verbatim, as an
    integer when it is the numeral of one, or compressed.  The functions that save
    take the stream, or NULL to measure, and return the number of bytes or -1; those
    that load return NULL when the stream ends and do not return when the data is
    corrupt. *)

From stdpp Require Import base list numbers option.
From Stdlib Require Import ZArith Lia.
From S2P Require Import Prelude Util Lzf Sds SdsText Object Crc Rio.

(** ** Constants *)

Definition RDB_VERSION : Z := 9.
Definition RDB_6BITLEN : Z := 0.
Definition RDB_14BITLEN : Z := 1.
Definition RDB_32BITLEN : Z := 0x80.
Definition RDB_64BITLEN : Z := 0x81.
Definition RDB_ENCVAL : Z := 3.
Definition RDB_LENERR : Z := 18446744073709551615. (* UINT64_MAX *)
Definition RDB_ENC_INT8 : Z := 0.
Definition RDB_ENC_INT16 : Z := 1.
Definition RDB_ENC_INT32 : Z := 2.
Definition RDB_ENC_LZF : Z := 3.
Definition RDB_LOAD_NONE : Z := 0.
Definition RDB_LOAD_ENC : Z := 1.
Definition RDB_LOAD_PLAIN : Z := 2.
Definition RDB_LOAD_SDS : Z := 4.
Definition LONG_STR_SIZE : Z := 21.

(** ** strtoll of the C library, base 10

    The value and the offset of the first character that was not read.  [s] is the
    memory from the start of the string on; reading behind it is an error. *)

Fixpoint skip_spaces (s : bytes) (pos : Z) : option (bytes * Z) :=
  match s with
  | [] => None
  | c :: s' => if isspace c then skip_spaces s' (pos + 1) else Some (s, pos)
  end.

Fixpoint strtoll_digits (s : bytes) (pos v : Z) : option (Z * Z) :=
  match s with
  | [] => None
  | c :: s => if (48 <=? c) && (c <=? 57) then strtoll_digits s (pos + 1) (v * 10 + (c - 48)) else Some (v, pos)
  end.

Definition strtoll (s : bytes) : option (Z * Z) :=
  '(s, pos) ← skip_spaces s 0;
  c ← head s;
  let negative := c =? 45 in
  let '(s, pos) := if (c =? 45) || (c =? 43) then (tail s, pos + 1) else (s, pos) in
  '(v, endptr) ← strtoll_digits s pos 0;
  if endptr =? pos then Some (0, 0) else
  let v := if negative then - v else v in
  Some (if v <? LLONG_MIN then LLONG_MIN else if v >? LLONG_MAX then LLONG_MAX else v, endptr).

(** What the functions that load return: a value, NULL or nothing, because the process ends. *)
Inductive lres (A : Type) := Got (a : A) | Null | Exit.
Arguments Got {A} a.
Arguments Null {A}.
Arguments Exit {A}.

(** A string as rdbGenericLoadStringObject returns it, depending on the flags. *)
Inductive loaded := LPlain (b : bytes) | LSds (s : sds) | LObj (o : strobj).

(** ** Sequencing *)

Section Monads.
Context {B : Type}.

Definition saver : Type := option (rio B) -> option (option (rio B) * Z).
Definition loader (A : Type) : Type := rio B -> option (rio B * lres A).

(** [if ((n = f) == -1) return -1;] and then [g]. *)
Definition sbind (f : saver) (g : Z -> saver) : saver :=
  fun rdb => '(rdb, n) ← f rdb; if n =? -1 then Some (rdb, -1) else g n rdb.
Definition written (n : Z) : saver := fun rdb => Some (rdb, n).

Definition lbind {A C} (f : loader A) (g : A -> loader C) : loader C :=
  fun r => '(r, x) ← f r; match x with Got a => g a r | Null => Some (r, Null) | Exit => Some (r, Exit) end.
Definition lret {A} (a : A) : loader A := fun r => Some (r, Got a).
Definition lnull {A} : loader A := fun r => Some (r, Null).
Definition lexit {A} : loader A := fun r => Some (r, Exit).
(** An operation on memory. *)
Definition lmem {A} (x : option A) : loader A := fun r => a ← x; Some (r, Got a).

End Monads.

Declare Scope rdb_scope.
Notation "n ⇐ f ; g" := (sbind f (fun n => g)) (at level 20, f at level 100, g at level 200, right associativity) : rdb_scope.
Notation "n ↢ f ; g" := (lbind f (fun n => g)) (at level 20, f at level 100, g at level 200, right associativity) : rdb_scope.
Notation "' n ↢ f ; g" := (lbind f (fun x => match x with n => g end))
  (at level 20, n pattern, f at level 100, g at level 200, right associativity) : rdb_scope.
#[global] Open Scope rdb_scope.

Section Rdb.
Context {B : Type} `{RioDevice B} `{FreshMem}.
Context (buf_addr : bytes -> Z).
(** [server.rdb_compression], the stack memory in which lzf_compress finds its
    table, and the settings of memory that shared integers depend on. *)
Context (rdb_compression : bool) (htab : LZF_STATE) (maxmemory maxmemory_policy : Z).

(** ** Raw transfers *)

Definition rdbWriteRaw (p : bytes) : saver := fun rdb =>
  match rdb with
  | None => Some (None, zlen p)
  | Some r => '(r, ok) ← rioWrite buf_addr r p; Some (Some r, if ok : bool then zlen p else -1)
  end.

(** [if (rioRead(rdb,buf,len) == 0) return NULL;] *)
Definition read_raw (len : Z) : loader bytes := fun r =>
  '(r, got) ← rioRead buf_addr r len; Some (r, match got with Some bs => Got bs | None => Null end).

Definition read_byte : loader Z := bs ↢ read_raw 1; lmem (head bs).

Definition rdbSaveType (type : Z) : saver := rdbWriteRaw [type].
Definition rdbLoadType : loader Z := read_byte.

Definition rdbSaveMillisecondTime (t : Z) : saver := rdbWriteRaw (le_bytes 8 t).

(** LLONG_MAX after an error, which the caller finds in the flags of the stream. *)
Definition rdbLoadMillisecondTime : loader Z := fun r =>
  '(r, x) ← read_raw 8 r; Some (r, Got (match x with Got bs => i64 (le_val bs) | _ => LLONG_MAX end)).

(** ** Lengths *)

Definition rdbSaveLen (len : Z) : saver :=
  if len <? Z.shiftl 1 6 then
    _ ⇐ rdbWriteRaw [u8 (Z.lor (Z.land len 0xFF) (Z.shiftl RDB_6BITLEN 6))]; written 1
  else if len <? Z.shiftl 1 14 then
    _ ⇐ rdbWriteRaw [u8 (Z.lor (Z.land (Z.shiftr len 8) 0xFF) (Z.shiftl RDB_14BITLEN 6)); Z.land len 0xFF]; written 2
  else if len <=? 4294967295 then
    _ ⇐ rdbWriteRaw [RDB_32BITLEN];
    _ ⇐ rdbWriteRaw (rev (le_bytes 4 len)); written (1 + 4)
  else
    _ ⇐ rdbWriteRaw [RDB_64BITLEN];
    _ ⇐ rdbWriteRaw (rev (le_bytes 8 len)); written (1 + 8).

(** What is stored through [isencoded] and [lenptr]. *)
Definition rdbLoadLenByRef : loader (bool * Z) :=
  b0 ↢ read_byte;
  let type := Z.shiftr (Z.land b0 0xC0) 6 in
  if type =? RDB_ENCVAL then lret (true, Z.land b0 0x3F)
  else if type =? RDB_6BITLEN then lret (false, Z.land b0 0x3F)
  else if type =? RDB_14BITLEN then b1 ↢ read_byte; lret (false, Z.lor (Z.shiftl (Z.land b0 0x3F) 8) b1)
  else if b0 =? RDB_32BITLEN then len ↢ read_raw 4; lret (false, le_val (rev len))
  else if b0 =? RDB_64BITLEN then len ↢ read_raw 8; lret (false, le_val (rev len))
  else lexit.

(** The error is a length; [isencoded] is 0 after it. *)
Definition rdbLoadLen : loader (bool * Z) := fun r =>
  '(r, x) ← rdbLoadLenByRef r;
  Some (r, match x with Got v => Got v | Null => Got (false, RDB_LENERR) | Exit => Exit end).

(** [if ((len = rdbLoadLen(rdb,NULL)) == RDB_LENERR) return NULL;] *)
Definition load_len : loader Z := '(_, len) ↢ rdbLoadLen; if len =? RDB_LENERR then lnull else lret len.

(** ** Integers *)

(** The bytes of [enc]; none stands for the result 0. *)
Definition rdbEncodeInteger (value : Z) : bytes :=
  if (value >=? - Z.shiftl 1 7) && (value <=? Z.shiftl 1 7 - 1) then
    [Z.lor (Z.shiftl RDB_ENCVAL 6) RDB_ENC_INT8; Z.land value 0xFF]
  else if (value >=? - Z.shiftl 1 15) && (value <=? Z.shiftl 1 15 - 1) then
    [Z.lor (Z.shiftl RDB_ENCVAL 6) RDB_ENC_INT16; Z.land value 0xFF; Z.land (Z.shiftr value 8) 0xFF]
  else if (value >=? - Z.shiftl 1 31) && (value <=? Z.shiftl 1 31 - 1) then
    [Z.lor (Z.shiftl RDB_ENCVAL 6) RDB_ENC_INT32; Z.land value 0xFF; Z.land (Z.shiftr value 8) 0xFF;
     Z.land (Z.shiftr value 16) 0xFF; Z.land (Z.shiftr value 24) 0xFF]
  else [].

(** The shift of the highest byte into the sign bit wraps around. *)
Definition load_int (enctype : Z) : loader Z :=
  if enctype =? RDB_ENC_INT8 then
    enc ↢ read_raw 1; e0 ↢ lmem (enc.[0]); lret (i8 e0)
  else if enctype =? RDB_ENC_INT16 then
    enc ↢ read_raw 2; e0 ↢ lmem (enc.[0]); e1 ↢ lmem (enc.[1]);
    lret (i16 (Z.lor e0 (Z.shiftl e1 8)))
  else if enctype =? RDB_ENC_INT32 then
    enc ↢ read_raw 4; e0 ↢ lmem (enc.[0]); e1 ↢ lmem (enc.[1]); e2 ↢ lmem (enc.[2]); e3 ↢ lmem (enc.[3]);
    lret (i32 (u32 (Z.lor (Z.lor (Z.lor e0 (Z.shiftl e1 8)) (Z.shiftl e2 16)) (Z.shiftl e3 24))))
  else lexit.

Definition rdbLoadIntegerObject (enctype flags : Z) : loader loaded :=
  val ↢ load_int enctype;
  let plain := negb (Z.land flags RDB_LOAD_PLAIN =? 0) in
  let sds := negb (Z.land flags RDB_LOAD_SDS =? 0) in
  if plain || sds then
    '(len, buf) ↢ lmem (ll2string (malloc LONG_STR_SIZE) LONG_STR_SIZE val);
    src ↢ lmem (load buf 0 len);
    if plain then p ↢ lmem (store (malloc len) 0 src); lret (LPlain p)
    else s ↢ lmem (sdsnewlen InitNoInit len); s ↢ lmem (sds_write s 0 src); lret (LSds s)
  else if negb (Z.land flags RDB_LOAD_ENC =? 0) then
    o ↢ lmem (createStringObjectFromLongLongForValue maxmemory maxmemory_policy val); lret (LObj o)
  else s ↢ lmem (sdsfromlonglong val); lret (LObj (mk_str (PtrRaw s) 1)).

(** [s] is the memory from the start of the string on. *)
Definition rdbTryIntegerEncoding (s : bytes) (len : Z) : option bytes :=
  '(value, endptr) ← strtoll s;
  e ← s.[endptr];
  if negb (e =? 0) then Some [] else
  '(_, buf) ← ll2string (malloc 32) 32 value;
  n ← strlen buf;
  if negb (n =? len) then Some [] else
  c ← memcmp (Z.to_nat len) buf s;
  if negb (c =? 0) then Some [] else
  Some (rdbEncodeInteger value).

(** ** Compressed strings *)

Definition rdbSaveLzfBlob (data : bytes) (compress_len original_len : Z) : saver :=
  n1 ⇐ rdbWriteRaw [Z.lor (Z.shiftl RDB_ENCVAL 6) RDB_ENC_LZF];
  n2 ⇐ rdbSaveLen compress_len;
  n3 ⇐ rdbSaveLen original_len;
  n4 ⇐ (fun rdb => d ← load data 0 compress_len; rdbWriteRaw d rdb);
  written (n1 + n2 + n3 + n4).

(** The lengths that lzf_compress takes are unsigned ints; it may only read the [len] bytes. *)
Definition rdbSaveLzfStringObject (s : bytes) (len : Z) : saver := fun rdb =>
  if len <=? 4 then Some (rdb, 0) else
  let outlen := len - 4 in
  src ← load s 0 len;
  '(out, comprlen) ← lzf_compress src (u32 len) (malloc (outlen + 1)) (u32 outlen) htab;
  if comprlen =? 0 then Some (rdb, 0) else rdbSaveLzfBlob out comprlen len rdb.

(** The target is filled in place: a plain block or the buffer of an sds. *)
Definition rdbLoadLzfStringObject (flags : Z) : loader loaded :=
  let plain := negb (Z.land flags RDB_LOAD_PLAIN =? 0) in
  let sds := negb (Z.land flags RDB_LOAD_SDS =? 0) in
  clen ↢ load_len;
  len ↢ load_len;
  if plain then
    c ↢ read_raw clen;
    '(val, n, _) ↢ lmem (lzf_decompress c (u32 clen) (malloc len) (u32 len));
    if n =? 0 then lexit else lret (LPlain val)
  else
    s ↢ lmem (sdsnewlen InitNoInit len);
    c ↢ read_raw clen;
    '(val, n, _) ↢ lmem (lzf_decompress c (u32 clen) (buf s) (u32 len));
    if n =? 0 then lexit else
    let s := set_buf val s in
    if sds then lret (LSds s) else lret (LObj (mk_str (PtrRaw s) 1)).

(** ** Strings *)

Definition rdbSaveRawString (s : bytes) (len : Z) : saver := fun rdb =>
  enc ← (if len <=? 11 then rdbTryIntegerEncoding s len else Some []);
  if zlen enc >? 0 then (_ ⇐ rdbWriteRaw enc; written (zlen enc)) rdb else
  '(rdb, n) ← (if rdb_compression && (len >? 20) then rdbSaveLzfStringObject s len rdb else Some (rdb, 0));
  if n =? -1 then Some (rdb, -1) else
  if n >? 0 then Some (rdb, n) else
  (n ⇐ rdbSaveLen len;
   if len >? 0 then (_ ⇐ (fun rdb => d ← load s 0 len; rdbWriteRaw d rdb); written (n + len)) else written n) rdb.

Definition rdbSaveLongLongAsStringObject (value : Z) : saver := fun rdb =>
  let enc := rdbEncodeInteger value in
  if zlen enc >? 0 then rdbWriteRaw enc rdb else
  '(enclen, buf) ← ll2string (malloc 32) 32 value;
  if negb (enclen <? 32) then None else
  (n ⇐ rdbSaveLen enclen;
   m ⇐ (fun rdb => d ← load buf 0 enclen; rdbWriteRaw d rdb);
   written (n + m)) rdb.

Definition rdbSaveStringObject (obj : strobj) : saver :=
  match o_ptr obj with
  | PtrInt v => rdbSaveLongLongAsStringObject v
  | PtrRaw s | PtrEmb s => rdbSaveRawString (buf s) (sdslen s)
  end.

(** [if (len && rioRead(rdb,p,len) == 0)]: the bytes stored at the pointer. *)
Definition read_into (len : Z) : loader bytes := if len =? 0 then lret [] else read_raw len.

Definition rdbGenericLoadStringObject (flags : Z) : loader loaded :=
  let encode := negb (Z.land flags RDB_LOAD_ENC =? 0) in
  let plain := negb (Z.land flags RDB_LOAD_PLAIN =? 0) in
  let sds := negb (Z.land flags RDB_LOAD_SDS =? 0) in
  '(isencoded, len) ↢ rdbLoadLen;
  if isencoded : bool then
    if (len =? RDB_ENC_INT8) || (len =? RDB_ENC_INT16) || (len =? RDB_ENC_INT32) then rdbLoadIntegerObject len flags
    else if len =? RDB_ENC_LZF then rdbLoadLzfStringObject flags
    else lexit
  else if len =? RDB_LENERR then lnull
  else if plain then
    bs ↢ read_into len;
    p ↢ lmem (store (malloc len) 0 bs); lret (LPlain p)
  else if sds then
    s ↢ lmem (sdsnewlen InitNoInit len);
    bs ↢ read_into len;
    s ↢ lmem (sds_write s 0 bs); lret (LSds s)
  else
    o ↢ lmem (if encode then createStringObject InitNoInit len else createRawStringObject InitNoInit len);
    bs ↢ read_into len;
    o ↢ lmem (match o_ptr o with
              | PtrRaw s => s ← sds_write s 0 bs; Some (mk_str (PtrRaw s) (refcount o))
              | PtrEmb s => s ← sds_write s 0 bs; Some (mk_str (PtrEmb s) (refcount o))
              | PtrInt _ => None
              end);
    lret (LObj o).

Definition rdbLoadStringObject : loader loaded := rdbGenericLoadStringObject RDB_LOAD_NONE.
Definition rdbLoadEncodedStringObject : loader loaded := rdbGenericLoadStringObject RDB_LOAD_ENC.

End Rdb.
