(* ===== verification/RdbSpec.v ===== *)
(** * The RDB format: what is saved can be loaded

    [saves f bs v]: the function [f] writes the bytes [bs] to the stream and returns
    [v], or it returns -1 because the device failed.  [loads f bs P]: reading [bs] from a
    device that does not fail, [f] returns a value that satisfies [P] and stops behind
    [bs].  Both compose along the sequences of the code, and a round trip is a pair of
    them with the same bytes in the middle. *)

From stdpp Require Import base list numbers option.
From Stdlib Require Import ZArith Lia.
From S2P Require Import Prelude Util Lzf Sds SdsText Object Crc Rio Rdb.

Section Spec.
Context {B : Type} `{RioLaws B} `{FreshMem} (buf_addr : bytes -> Z).
Context (rdb_compression : bool) (htab : LZF_STATE) (mm mp : Z).
Hypothesis Hhtab : forall i, 0 <= htab i < 4294967296.
Implicit Types (w i p bs : bytes).

(** ** Saving *)

Definition wst (rdb : option (rio B)) (w : bytes) : Prop := match rdb with None => True | Some r => wstate r w end.
Definition same_stream (rdb rdb' : option (rio B)) : Prop :=
  match rdb, rdb' with None, None => True | Some r, Some r' => same_settings r r' | _, _ => False end.

Definition saves (f : saver (B := B)) (bs : bytes) (v : Z) : Prop :=
  bytes_ok bs /\ 0 <= v /\
  forall rdb w, wst rdb w -> zlen w + zlen bs < SDS_BOUND ->
    exists rdb' n, f rdb = Some (rdb', n) /\ same_stream rdb rdb' /\
      (n = v /\ wst rdb' (w ++ bs) \/ n = -1 /\ reliable = false /\ rdb <> None).

Lemma same_stream_refl rdb : same_stream rdb rdb.
Proof. by destruct rdb. Qed.

Lemma same_stream_trans a b c : same_stream a b -> same_stream b c -> same_stream a c.
Proof. destruct a, b, c; cbn; try done. unfold same_settings. intros [-> ->] [-> ->]. done. Qed.

Lemma saves_raw bs : bytes_ok bs -> saves (rdbWriteRaw buf_addr bs) bs (zlen bs).
Proof.
  intros Hb. split; [done|]. split; [apply zlen_nonneg|]. intros [r|] w Hw Hl; cbn [rdbWriteRaw].
  - destruct (rioWrite_spec buf_addr r w bs Hw Hb Hl) as (r' & ok & -> & Hs & Hok & Hrel). cbn [mbind option_bind].
    eexists _, _. split; [done|]. split; [done|]. destruct ok; [left; split; [done|by apply Hok]|]. right. split; [done|]. split; [|done].
    destruct reliable; [|done]. by specialize (Hrel eq_refl).
  - eexists _, _. split; [done|]. split; [done|]. by left.
Qed.

Lemma saves_written v : 0 <= v -> saves (written v) [] v.
Proof. intros Hv. split; [constructor|]. split; [done|]. intros rdb w Hw _. exists rdb, v. rewrite app_nil_r. split; [done|]. split; [apply same_stream_refl|by left]. Qed.

Lemma saves_bind f g a b n v : saves f a n -> saves (g n) b v -> saves (sbind f g) (a ++ b) v.
Proof.
  intros (Ha & Hn & Hf) (Hb & Hv & Hg). split; [by apply Forall_app|]. split; [done|]. intros rdb w Hw Hl. rewrite zlen_app in Hl.
  pose proof (zlen_nonneg b). unfold sbind. destruct (Hf rdb w Hw ltac:(lia)) as (rdb1 & m & -> & Hs & [[-> Hw1]|(-> & Hrel & Hne)]); cbn [mbind option_bind].
  - zbool. destruct (Hg rdb1 (w ++ a) Hw1) as (rdb2 & m & -> & Hs2 & Hr); [rewrite zlen_app; lia|].
    eexists _, _. split; [done|]. split; [by eapply same_stream_trans|]. rewrite <- app_assoc in Hr. destruct Hr as [Hr|(Hr & Hr2 & Hne)]; [by left|].
    right. split; [done|]. split; [done|]. by destruct rdb, rdb1.
  - eexists _, _. split; [done|]. split; [done|]. by right.
Qed.

Lemma saves_end f g a n v : saves f a n -> saves (g n) [] v -> saves (sbind f g) a v.
Proof. intros Hf Hg. rewrite <- (app_nil_r a). by eapply saves_bind. Qed.

(** Bytes of a block. *)
Lemma saves_load s bs n : load s 0 n = Some bs -> bytes_ok bs -> saves (fun rdb => d ← load s 0 n; rdbWriteRaw buf_addr d rdb) bs (zlen bs).
Proof. intros E Hb. destruct (saves_raw bs Hb) as (Ho & Hv & Hf). split; [done|]. split; [done|]. intros rdb w. rewrite E. apply Hf. Qed.

Lemma saves_ext f g bs v : (forall rdb, f rdb = g rdb) -> saves g bs v -> saves f bs v.
Proof. intros E (Ho & Hv & Hf). split; [done|]. split; [done|]. intros rdb w. rewrite E. apply Hf. Qed.

(** ** Loading *)

Definition loads {A} (f : loader (B := B) A) (bs : bytes) (P : A -> Prop) : Prop :=
  forall r p i, reliable = true -> rstate r p (bs ++ i) ->
    exists r' a, f r = Some (r', Got a) /\ same_settings r r' /\ P a /\ rstate r' (p ++ bs) i.

Lemma loads_ret {A} (a : A) (P : A -> Prop) : P a -> loads (lret a) [] P.
Proof. intros Ha r p i _ Hr. exists r, a. rewrite app_nil_r. done. Qed.

Lemma loads_mem {A} (x : option A) a (P : A -> Prop) : x = Some a -> P a -> loads (lmem x) [] P.
Proof. intros -> Ha r p i _ Hr. exists r, a. rewrite app_nil_r. done. Qed.

Lemma loads_bind {A C} (f : loader A) (g : A -> loader C) a b P Q :
  loads f a P -> (forall x, P x -> loads (g x) b Q) -> loads (lbind f g) (a ++ b) Q.
Proof.
  intros Hf Hg r p i Hrel Hr. rewrite <- app_assoc in Hr. destruct (Hf r p (b ++ i) Hrel Hr) as (r1 & x & E & Hs & Hx & Hr1).
  unfold lbind. rewrite E. cbn [mbind option_bind]. destruct (Hg x Hx r1 (p ++ a) i Hrel Hr1) as (r2 & y & E2 & Hs2 & Hy & Hr2).
  exists r2, y. split; [done|]. rewrite <- app_assoc in Hr2. split; [|done]. destruct Hs as [E3 E4], Hs2 as [E5 E6]. by split; [rewrite E5|rewrite E6].
Qed.

Lemma loads_bind0 {A C} (f : loader A) (g : A -> loader C) b P Q :
  loads f [] P -> (forall x, P x -> loads (g x) b Q) -> loads (lbind f g) b Q.
Proof. apply (loads_bind f g [] b). Qed.

Lemma loads_end {A C} (f : loader A) (g : A -> loader C) a P Q :
  loads f a P -> (forall x, P x -> loads (g x) [] Q) -> loads (lbind f g) a Q.
Proof. intros Hf Hg. rewrite <- (app_nil_r a). by eapply loads_bind. Qed.

Lemma loads_mem_bind {A C} (x : option A) a (g : A -> loader C) b Q :
  x = Some a -> loads (g a) b Q -> loads (lbind (lmem x) g) b Q.
Proof. intros Ex Hg. apply (loads_bind0 _ _ b (fun y => y = a)); [by eapply loads_mem|]. by intros ? ->. Qed.

Lemma loads_weaken {A} (f : loader A) bs (P Q : A -> Prop) : (forall a, P a -> Q a) -> loads f bs P -> loads f bs Q.
Proof. intros HPQ Hf r p i Hrel Hr. destruct (Hf r p i Hrel Hr) as (r' & a & E & Hs & Ha & Hr'). exists r', a. auto. Qed.

Lemma loads_raw bs n : zlen bs = n -> n < 2 ^ 64 -> loads (read_raw buf_addr n) bs (fun x => x = bs).
Proof.
  intros Hn Hl r p i Hrel Hr. unfold read_raw. pose proof (zlen_nonneg bs).
  destruct (rioRead_spec buf_addr r p (bs ++ i) n Hr ltac:(lia)) as (r' & got & -> & Hs & Hg). cbn [mbind option_bind].
  destruct got as [b|]; [|destruct Hg as [_ Hg]; specialize (Hg Hrel); rewrite zlen_app in Hg; pose proof (zlen_nonneg i); lia].
  destruct Hg as (i' & Ei & Hb & Hr'). apply app_inj_1 in Ei as [-> ->]; [|unfold zlen in *; lia]. by eexists _, _.
Qed.

Lemma loads_byte x : loads (read_byte buf_addr) [x] (fun y => y = x).
Proof.
  unfold read_byte. apply (loads_bind _ _ [x] [] (fun b => b = [x])); [by apply loads_raw|]. intros b ->. by eapply loads_mem.
Qed.

(** ** Lengths *)

Definition len_bytes (len : Z) : bytes :=
  if len <? 64 then [len]
  else if len <? 16384 then [64 + len / 256; len mod 256]
  else if len <=? 4294967295 then RDB_32BITLEN :: rev (le_bytes 4 len)
  else RDB_64BITLEN :: rev (le_bytes 8 len).

Lemma zlen_len_bytes len : 1 <= zlen (len_bytes len) <= 9.
Proof. unfold len_bytes. repeat zcase; unfold zlen; cbn [length]; rewrite ?length_rev; cbn; lia. Qed.

Lemma lor_add x k : 0 <= k -> 0 <= x < 2 ^ k -> forall y, Z.lor x (Z.shiftl y k) = x + Z.shiftl y k.
Proof. intros Hk Hx y. rewrite Z.lor_comm, lor_shiftl, Z.shiftl_mul_pow2 by lia. lia. Qed.

Lemma shiftr_8 x : Z.shiftr x 8 = x / 256.
Proof. by rewrite Z.shiftr_div_pow2. Qed.

Lemma saves_len len : 0 <= len < 2 ^ 64 -> saves (rdbSaveLen buf_addr len) (len_bytes len) (zlen (len_bytes len)).
Proof.
  intros Hlen. unfold rdbSaveLen, len_bytes. change (Z.shiftl 1 6) with 64. change (Z.shiftl 1 14) with 16384.
  assert (forall n, bytes_ok (rev (le_bytes n len))) as Hrev by (intros; apply Forall_rev, le_bytes_ok).
  destruct (Z.ltb_spec len 64); [|destruct (Z.ltb_spec len 16384); [|destruct (Z.leb_spec len 4294967295)]].
  - rewrite land_255, Z.mod_small, Z.lor_0_r by lia. assert (u8 len = len) as -> by (apply Z.mod_small; lia).
    eapply saves_end; [|by apply saves_written]. apply saves_raw. repeat constructor; unfold is_byte; lia.
  - rewrite shiftr_8, !land_255. assert (0 <= len / 256 < 64) by dlia. rewrite (Z.mod_small (len / 256)) by lia.
    rewrite (lor_add _ 6) by lia. change (Z.shiftl RDB_14BITLEN 6) with 64.
    assert (u8 (len / 256 + 64) = 64 + len / 256) as -> by (unfold u8, wrapu; rewrite Z.mod_small by lia; lia).
    eapply saves_end; [|by apply saves_written]. apply saves_raw. repeat constructor; unfold is_byte; dlia.
  - eapply (saves_bind _ _ [RDB_32BITLEN] (rev (le_bytes 4 len))); [apply saves_raw; repeat constructor; by vm_compute|].
    eapply saves_end; [by apply saves_raw|]. by apply saves_written.
  - eapply (saves_bind _ _ [RDB_64BITLEN] (rev (le_bytes 8 len))); [apply saves_raw; repeat constructor; by vm_compute|].
    eapply saves_end; [by apply saves_raw|]. by apply saves_written.
Qed.

(** The two high bits of the first byte. *)
Lemma top_bits x : is_byte x -> Z.shiftr (Z.land x 0xC0) 6 = x / 64 /\ Z.land x 0x3F = x mod 64.
Proof.
  intros Hx. unfold is_byte in Hx. split; [|apply land_63].
  rewrite Z.shiftr_land. change (Z.shiftr 0xC0 6) with (Z.ones 2). rewrite Z.land_ones, Z.shiftr_div_pow2 by lia.
  change (2 ^ 6) with 64. change (2 ^ 2) with 4. apply Z.mod_small. dlia.
Qed.

Lemma loads_lenref len : 0 <= len < 2 ^ 64 -> loads (rdbLoadLenByRef buf_addr) (len_bytes len) (fun x => x = (false, len)).
Proof.
  intros Hlen. unfold rdbLoadLenByRef, len_bytes.
  destruct (Z.ltb_spec len 64); [|destruct (Z.ltb_spec len 16384); [|destruct (Z.leb_spec len 4294967295)]].
  - eapply (loads_bind _ _ [len] []); [apply loads_byte|]. intros b0 ->. destruct (top_bits len) as [-> ->]; [unfold is_byte; lia|].
    rewrite (Z.div_small len 64), (Z.mod_small len 64) by lia. cbn. by apply loads_ret.
  - assert (0 <= len / 256 < 64) by dlia. eapply (loads_bind _ _ [_] [_]); [apply loads_byte|]. intros b0 ->.
    destruct (top_bits (64 + len / 256)) as [-> ->]; [unfold is_byte; lia|].
    replace ((64 + len / 256) / 64) with 1 by dlia. replace ((64 + len / 256) mod 64) with (len / 256) by dlia. cbn [Z.eqb RDB_ENCVAL RDB_6BITLEN RDB_14BITLEN Pos.eqb].
    eapply (loads_bind _ _ [_] []); [apply loads_byte|]. intros b1 ->. apply loads_ret. f_equal.
    rewrite Z.lor_comm, (lor_add _ 8), Z.shiftl_mul_pow2 by (try apply Z.mod_pos_bound; lia). change (2 ^ 8) with 256. dlia.
  - eapply (loads_bind _ _ [RDB_32BITLEN] _); [apply loads_byte|]. intros b0 ->. cbn -[le_bytes rev le_val].
    eapply loads_end; [by apply loads_raw|]. intros b ->. apply loads_ret.
    rewrite rev_involutive, le_val_bytes. f_equal. apply Z.mod_small. cbn. lia.
  - eapply (loads_bind _ _ [RDB_64BITLEN] _); [apply loads_byte|]. intros b0 ->. cbn -[le_bytes rev le_val].
    eapply loads_end; [by apply loads_raw|]. intros b ->. apply loads_ret.
    rewrite rev_involutive, le_val_bytes. f_equal. by apply Z.mod_small.
Qed.

Lemma loads_loadlen bs v : loads (rdbLoadLenByRef buf_addr) bs (fun x => x = v) -> loads (rdbLoadLen buf_addr) bs (fun x => x = v).
Proof.
  intros Hl r p i Hrel Hr. destruct (Hl r p i Hrel Hr) as (r' & a & E & Hs & -> & Hr'). unfold rdbLoadLen. rewrite E. by eexists _, _.
Qed.

Lemma loads_len len : 0 <= len < RDB_LENERR -> loads (load_len buf_addr) (len_bytes len) (fun x => x = len).
Proof.
  intros Hlen. unfold RDB_LENERR in Hlen. unfold load_len. 
  eapply loads_end; [apply loads_loadlen, loads_lenref; lia|]. intros [? ?] [= -> ->]. unfold RDB_LENERR. zbool. by apply loads_ret.
Qed.

(** ** Integers *)

Lemma encode_integer v : rdbEncodeInteger v = [] \/
  exists t n, rdbEncodeInteger v = 0xC0 + t :: le_bytes n v /\ in_s (8 * Z.of_nat n) v /\
    (t = RDB_ENC_INT8 /\ n = 1%nat \/ t = RDB_ENC_INT16 /\ n = 2%nat \/ t = RDB_ENC_INT32 /\ n = 4%nat).
Proof.
  unfold rdbEncodeInteger. change (- Z.shiftl 1 7) with (-128). change (- Z.shiftl 1 15) with (-32768). change (- Z.shiftl 1 31) with (-2147483648).
  change (Z.shiftl 1 7) with 128. change (Z.shiftl 1 15) with 32768. change (Z.shiftl 1 31) with 2147483648.
  rewrite !land_255, !Z.shiftr_div_pow2 by lia.
  destruct (_ && _) eqn:E8; [|destruct (_ && (v <=? 32768 - 1)) eqn:E16; [|destruct (_ && (v <=? 2147483648 - 1)) eqn:E32; [|by left]]]; right.
  - exists RDB_ENC_INT8, 1%nat. split; [done|]. split; [unfold in_s; cbn; lia|]. by left.
  - exists RDB_ENC_INT16, 2%nat. split; [done|]. split; [unfold in_s; cbn; lia|]. by right; left.
  - exists RDB_ENC_INT32, 4%nat. split; [|split; [unfold in_s; cbn; lia|]; by right; right].
    cbn [le_bytes]. rewrite !Z.div_div by lia. done.
Qed.

Lemma encode_bytes v : bytes_ok (rdbEncodeInteger v) /\ zlen (rdbEncodeInteger v) <= 5.
Proof.
  destruct (encode_integer v) as [->|(t & n & -> & _ & Ht)]; [split; [constructor|done]|]. split.
  - constructor; [|apply le_bytes_ok]. destruct Ht as [[-> _]|[[-> _]|[-> _]]]; vm_compute; split; congruence.
  - destruct Ht as [[_ ->]|[[_ ->]|[_ ->]]]; done.
Qed.

Lemma wraps_le n v : (0 < n)%nat -> in_s (8 * Z.of_nat n) v -> wraps (8 * Z.of_nat n) (le_val (le_bytes n v)) = v.
Proof.
  intros Hn Hv. rewrite le_val_bytes. rewrite <- (wraps_small (8 * Z.of_nat n) v) at 2 by (done || lia).
  unfold wraps. set (m := 2 ^ (8 * Z.of_nat n)). assert (0 < m) by (apply Z.pow_pos_nonneg; lia). f_equal.
  rewrite <- Zplus_mod_idemp_l. rewrite Zmod_mod. by rewrite Zplus_mod_idemp_l.
Qed.

Lemma loads_int t n v : in_s (8 * Z.of_nat n) v ->
  (t = RDB_ENC_INT8 /\ n = 1%nat \/ t = RDB_ENC_INT16 /\ n = 2%nat \/ t = RDB_ENC_INT32 /\ n = 4%nat) ->
  loads (load_int buf_addr t) (le_bytes n v) (fun x => x = v).
Proof.
  intros Hv Ht. pose proof (wraps_le n v ltac:(lia) Hv) as E. unfold load_int.
  destruct Ht as [[-> ->]|[[-> ->]|[-> ->]]]; cbn [Z.eqb Pos.eqb RDB_ENC_INT8 RDB_ENC_INT16 RDB_ENC_INT32];
    (eapply loads_end; [by apply loads_raw|]); intros b ->; cbn [le_bytes] in *; cbn [le_val] in E.
  - eapply loads_mem_bind; [done|]. apply loads_ret. rewrite <- E at 2. unfold i8. f_equal. lia.
  - do 2 (eapply loads_mem_bind; [done|]). apply loads_ret. rewrite <- E at 3. unfold i16. f_equal.
    rewrite (lor_add _ 8), Z.shiftl_mul_pow2 by (try apply Z.mod_pos_bound; lia). lia.
  - do 4 (eapply loads_mem_bind; [done|]). apply loads_ret. rewrite <- E at 5. unfold i32. f_equal.
    pose proof (Z.mod_pos_bound v 256 ltac:(lia)) as B0. pose proof (Z.mod_pos_bound (v / 256) 256 ltac:(lia)) as B1.
    pose proof (Z.mod_pos_bound (v / 256 / 256) 256 ltac:(lia)) as B2. pose proof (Z.mod_pos_bound (v / 256 / 256 / 256) 256 ltac:(lia)) as B3.
    clear E Hv. generalize dependent (v mod 256). generalize dependent (v / 256 mod 256). generalize dependent (v / 256 / 256 mod 256).
    generalize dependent (v / 256 / 256 / 256 mod 256). intros e3 B3 e2 B2 e1 B1 e0 B0.
    rewrite (lor_add e0 8), (lor_add _ 16), (lor_add _ 24), !Z.shiftl_mul_pow2 by (rewrite ?Z.shiftl_mul_pow2 by lia; lia).
    unfold u32, wrapu. rewrite Z.mod_small by lia. lia.
Qed.

(** ** Strings in memory *)

(** The string [c] in the form the flags ask for. *)
Definition flags_ok (flags : Z) : Prop :=
  flags = RDB_LOAD_NONE \/ flags = RDB_LOAD_ENC \/ flags = RDB_LOAD_PLAIN \/ flags = RDB_LOAD_SDS.

Definition holds_string (flags : Z) (c : bytes) (x : loaded) : Prop :=
  match x with
  | LPlain b => flags = RDB_LOAD_PLAIN /\ b = c
  | LSds s => flags = RDB_LOAD_SDS /\ exists free, sds_repr s c free
  | LObj o => (flags = RDB_LOAD_NONE \/ flags = RDB_LOAD_ENC) /\ str_repr o c /\ (flags = RDB_LOAD_NONE -> str_encoding o = OBJ_ENCODING_RAW)
  end.

Lemma overwrite_spec s c0 x free c : sds_at s c0 x free -> zlen c = zlen c0 ->
  exists s', sds_write s 0 c = Some s' /\ sds_at s' c x free.
Proof.
  intros [Hh (junk & Eb & Hj & Ht)] Hc. rewrite (write_spec s [] c0 (x :: junk) 0 c) by done. eexists. split; [done|]. cbn [app]. split.
  - rewrite Hc. by apply hdr_set_buf.
  - exists junk. done.
Qed.

Lemma set_buf_spec s c0 x free c : sds_at s c0 x free -> zlen c = zlen c0 -> sds_at (set_buf (c ++ zdrop (zlen c) (buf s)) s) c x free.
Proof.
  intros Hs Hc. destruct (overwrite_spec s c0 x free c Hs Hc) as (s' & E & Hs'). destruct Hs as [_ (junk & Eb & _)].
  rewrite (write_spec s [] c0 (x :: junk) 0 c) in E by done. injection E as <-. rewrite Eb, zdrop_app_r by done. exact Hs'.
Qed.

Lemma store_all n c : zlen c = n -> store (malloc n) 0 c = Some c.
Proof.
  intros Hn. pose proof (zlen_nonneg c). rewrite (store_at [] (malloc n) [] (malloc n) 0 c); [by rewrite app_nil_r|by rewrite app_nil_r|done|rewrite zlen_malloc; lia].
Qed.

Lemma noinit_spec n : 0 <= n < SDS_BOUND -> exists s c0, sdsnewlen InitNoInit n = Some s /\ sds_repr s c0 0 /\ zlen c0 = n.
Proof. intros Hn. destruct (newlen_spec InitNoInit n Hn) as (s & c0 & E & Hs & Hl & _); [done|]. by exists s, c0. Qed.

Lemma embedded_noinit n : 0 <= n <= OBJ_ENCODING_EMBSTR_SIZE_LIMIT ->
  exists s c0, createEmbeddedStringObject InitNoInit n = Some (mk_str (PtrEmb s) 1) /\ sds_repr s c0 0 /\ zlen c0 = n.
Proof.
  intros Hn. unfold OBJ_ENCODING_EMBSTR_SIZE_LIMIT in Hn. unfold createEmbeddedStringObject.
  destruct (zsplit n (malloc (n + 1))) as (A & R & E & HA & _); [rewrite zlen_malloc; lia|]. rewrite E.
  apply (f_equal zlen) in E as El. rewrite zlen_malloc, zlen_app in El by lia.
  destruct R as [|x [|]]; rewrite ?zlen_nil, ?zlen_cons in El; [lia| |pose proof (zlen_nonneg l); lia].
  rewrite (store_at A [x] [] (A ++ [x]) n [0]) by (by rewrite ?app_nil_r). cbn [mbind option_bind].
  eexists _, A. split; [done|]. assert (u8 n = n) as -> by (apply Z.mod_small; lia). split; [|done]. split.
  - rewrite HA, Z.add_0_r. apply hdr_n; cbn [flags hlen halloc]; unfold SDS_TYPE_8; try lia. change (2 ^ hdr_bits 1) with 256. lia.
  - exists []. split; [done|]. split; [done|by right].
Qed.

(** A new string object, to be filled. *)
Definition fill_object (o : strobj) (bs : bytes) : option strobj :=
  match o_ptr o with
  | PtrRaw s => s ← sds_write s 0 bs; Some (mk_str (PtrRaw s) (refcount o))
  | PtrEmb s => s ← sds_write s 0 bs; Some (mk_str (PtrEmb s) (refcount o))
  | PtrInt _ => None
  end.

Lemma new_object_spec (encode : bool) c : zlen c < SDS_BOUND ->
  exists o o', (if encode then createStringObject InitNoInit (zlen c) else createRawStringObject InitNoInit (zlen c)) = Some o /\
    fill_object o c = Some o' /\ str_repr o' c /\ (encode = false -> str_encoding o' = OBJ_ENCODING_RAW).
Proof.
  intros Hc. pose proof (zlen_nonneg c). destruct (noinit_spec (zlen c) ltac:(lia)) as (s & c0 & Es & Hs & Hl).
  destruct (overwrite_spec s c0 0 0 c Hs ltac:(lia)) as (s' & Ew & Hs').
  assert (exists o', fill_object (mk_str (PtrRaw s) 1) c = Some o' /\ str_repr o' c /\ str_encoding o' = OBJ_ENCODING_RAW) as (o' & Ef & Hr & He).
  { unfold fill_object. cbn [o_ptr refcount]. rewrite Ew. eexists. split; [done|]. split; [by exists 0|done]. }
  assert (createRawStringObject InitNoInit (zlen c) = Some (mk_str (PtrRaw s) 1)) as Er by (unfold createRawStringObject; by rewrite Es).
  destruct encode; [|by eexists _, o']. unfold createStringObject. destruct (Z.leb_spec (zlen c) OBJ_ENCODING_EMBSTR_SIZE_LIMIT) as [Hle|]; [|by eexists _, o'].
  destruct (embedded_noinit (zlen c) ltac:(lia)) as (s1 & c1 & -> & Hs1 & Hl1). destruct (overwrite_spec s1 c1 0 0 c Hs1 ltac:(lia)) as (s2 & Ew2 & Hs2).
  eexists _, (mk_str (PtrEmb s2) 1). split; [done|]. unfold fill_object. cbn [o_ptr refcount]. rewrite Ew2. done.
Qed.

Lemma loads_integer_object t n v flags : in_s (8 * Z.of_nat n) v -> flags_ok flags ->
  (t = RDB_ENC_INT8 /\ n = 1%nat \/ t = RDB_ENC_INT16 /\ n = 2%nat \/ t = RDB_ENC_INT32 /\ n = 4%nat) ->
  loads (rdbLoadIntegerObject buf_addr mm mp t flags) (le_bytes n v) (holds_string flags (sdec v)).
Proof.
  intros Hv Hf Ht. assert (in_s 64 v /\ v <> LLONG_MIN) as [H64 Hmin].
  { unfold in_s, LLONG_MIN in *. destruct Ht as [[_ ->]|[[_ ->]|[_ ->]]]; cbn in Hv |- *; lia. }
  unfold rdbLoadIntegerObject. eapply loads_end; [by eapply loads_int|]. intros ? ->.
  destruct (ll2string_local LONG_STR_SIZE v H64 ltac:(done)) as [rest Ell].
  destruct Hf as [->|[->|[->| ->]]]; cbn [Z.land Z.eqb negb orb Pos.land RDB_LOAD_NONE RDB_LOAD_ENC RDB_LOAD_PLAIN RDB_LOAD_SDS].
  - destruct (proj1 (sdsfromlonglong_decimal v H64) Hmin) as (s & Es & Hs). eapply loads_mem_bind; [done|]. apply loads_ret.
    split; [by left|]. split; [by exists 0|done].
  - destruct (from_ll_spec mm mp v true H64) as (o & Eo & Ho & _). eapply loads_mem_bind; [exact Eo|]. apply loads_ret.
    split; [by right|]. split; [done|]. done.
  - eapply loads_mem_bind; [exact Ell|]. eapply loads_mem_bind; [apply load_prefix|]. eapply loads_mem_bind; [by apply store_all|]. by apply loads_ret.
  - eapply loads_mem_bind; [exact Ell|]. eapply loads_mem_bind; [apply load_prefix|].
    pose proof (sdec_bound v H64). destruct (noinit_spec (zlen (sdec v)) ltac:(unfold SDS_BOUND; lia)) as (s & c0 & Es & Hs & Hl).
    eapply loads_mem_bind; [exact Es|]. destruct (overwrite_spec s c0 0 0 (sdec v) Hs ltac:(lia)) as (s' & Ew & Hs').
    eapply loads_mem_bind; [exact Ew|]. apply loads_ret. split; [done|]. by exists 0.
Qed.

(** ** Compressed strings *)

Definition blob_bytes (z : bytes) (len : Z) : bytes := 0xC3 :: len_bytes (zlen z) ++ len_bytes len ++ z.

Lemma saves_blob data z len : load data 0 (zlen z) = Some z -> bytes_ok z -> zlen z < 2 ^ 64 -> 0 <= len < 2 ^ 64 ->
  saves (rdbSaveLzfBlob buf_addr data (zlen z) len) (blob_bytes z len) (zlen (blob_bytes z len)).
Proof.
  intros Hd Hz Hl Hlen. unfold rdbSaveLzfBlob, blob_bytes. pose proof (zlen_nonneg z).
  eapply (saves_bind _ _ [0xC3] _); [apply saves_raw; repeat constructor; by vm_compute|].
  eapply saves_bind; [by apply saves_len|]. eapply saves_bind; [by apply saves_len|].
  eapply saves_end; [by apply saves_load|].
  replace (zlen [0xC3] + zlen (len_bytes (zlen z)) + zlen (len_bytes len) + zlen z) with (zlen (0xC3 :: len_bytes (zlen z) ++ len_bytes len ++ z)) by len.
  apply saves_written, zlen_nonneg.
Qed.

Lemma loads_enc t : 0 <= t < 64 -> loads (rdbLoadLen buf_addr) [0xC0 + t] (fun x => x = (true, t)).
Proof.
  intros Ht. apply loads_loadlen. unfold rdbLoadLenByRef. eapply (loads_bind _ _ [_] []); [apply loads_byte|]. intros b0 ->.
  destruct (top_bits (0xC0 + t)) as [-> ->]; [unfold is_byte; lia|]. replace ((0xC0 + t) / 64) with 3 by dlia.
  replace ((0xC0 + t) mod 64) with t by dlia. by apply loads_ret.
Qed.

(** [z] decompresses to [c]. *)
Definition inflates (z c : bytes) : Prop :=
  forall dst, zlen c <= zlen dst -> lzf_decompress z (zlen z) dst (zlen c) = Some (c ++ zdrop (zlen c) dst, zlen c, None).

Lemma loads_lzf z c flags : flags_ok flags -> inflates z c -> zlen z < 4294967296 -> 0 < zlen c < 4294967296 ->
  loads (rdbLoadLzfStringObject buf_addr flags) (len_bytes (zlen z) ++ len_bytes (zlen c) ++ z) (holds_string flags c).
Proof.
  intros Hf Hz Hlz Hlc. pose proof (zlen_nonneg z). unfold rdbLoadLzfStringObject.
  eapply loads_bind; [apply loads_len; unfold RDB_LENERR; lia|]. intros ? ->.
  eapply loads_bind; [apply loads_len; unfold RDB_LENERR; lia|]. intros ? ->.
  assert (u32 (zlen z) = zlen z) as -> by (apply Z.mod_small; lia). assert (u32 (zlen c) = zlen c) as -> by (apply Z.mod_small; lia).
  destruct (noinit_spec (zlen c) ltac:(unfold SDS_BOUND; lia)) as (s & c0 & Es & Hs & Hl).
  destruct Hf as [->|[->|[->| ->]]]; cbn [Z.land Z.eqb negb orb Pos.land RDB_LOAD_NONE RDB_LOAD_ENC RDB_LOAD_PLAIN RDB_LOAD_SDS].
  3: { eapply loads_end; [apply loads_raw; [done|lia]|]. intros ? ->.
       eapply loads_mem_bind; [apply Hz; rewrite zlen_malloc; lia|]. cbv beta iota. zbool. apply loads_ret. split; [done|].
       rewrite zdrop_all by (rewrite zlen_malloc; lia). apply app_nil_r. }
  all: eapply loads_mem_bind; [exact Es|]; eapply loads_end; [apply loads_raw; [done|lia]|]; intros ? ->;
    (eapply loads_mem_bind; [apply Hz; destruct (at_buf _ _ _ _ Hs) as (junk & -> & _); rewrite zlen_app; pose proof (zlen_nonneg (0 :: junk)); lia|]);
    cbv beta iota; zbool; apply loads_ret; pose proof (set_buf_spec s c0 0 0 c Hs ltac:(lia)) as Hs'.
  - split; [by left|]. split; [by exists 0|done].
  - split; [by right|]. split; [by exists 0|done].
  - split; [done|]. by exists 0.
Qed.

(** ** Saving a string *)

Lemma skip_spaces_spec a r : forall pos, exists a1 a2, a = a1 ++ a2 /\ skip_spaces (a ++ 0 :: r) pos = Some (a2 ++ 0 :: r, pos + zlen a1).
Proof.
  induction a as [|x a IH]; intros pos; cbn [app skip_spaces]; [exists [], []; split; [done|]; by rewrite Z.add_0_r|].
  destruct (isspace x); [|exists [], (x :: a); split; [done|]; by rewrite Z.add_0_r].
  destruct (IH (pos + 1)) as (a1 & a2 & -> & ->). exists (x :: a1), a2. split; [done|]. do 2 f_equal. rewrite zlen_cons. lia.
Qed.

Lemma strtoll_digits_spec a r : forall pos v, exists v' e, strtoll_digits (a ++ 0 :: r) pos v = Some (v', e) /\ pos <= e <= pos + zlen a.
Proof.
  induction a as [|x a IH]; intros pos v; cbn [app strtoll_digits]; [exists v, pos; split; [done|]; rewrite zlen_nil; lia|].
  rewrite zlen_cons. pose proof (zlen_nonneg a). destruct (_ && _); [|exists v, pos; split; [done|]; lia].
  destruct (IH (pos + 1) (v * 10 + (x - 48))) as (v' & e & -> & He). exists v', e. split; [done|]. lia.
Qed.

Lemma strtoll_spec a r : exists v e, strtoll (a ++ 0 :: r) = Some (v, e) /\ in_s 64 v /\ 0 <= e <= zlen a.
Proof.
  unfold strtoll. destruct (skip_spaces_spec a r 0) as (a1 & a2 & -> & ->). cbn [mbind option_bind].
  assert (exists c a3 k, head (a2 ++ 0 :: r) = Some c /\ 0 <= k /\ zlen a3 + k = zlen a2 /\
    (if (c =? 45) || (c =? 43) then (tail (a2 ++ 0 :: r), 0 + zlen a1 + 1) else (a2 ++ 0 :: r, 0 + zlen a1)) = (a3 ++ 0 :: r, zlen a1 + k)) as (c & a3 & k & -> & Hk & Hl & E).
  { destruct a2 as [|x a2]; [exists 0, [], 0; cbn; split; [done|]; split; [lia|]; split; [done|]; f_equal; lia|]. cbn [app head tail].
    exists x. destruct (_ || _); [exists a2, 1|exists (x :: a2), 0]; split; try done; (split; [lia|]); (split; [rewrite ?zlen_cons; lia|]); f_equal; lia. }
  cbn [mbind option_bind]. rewrite E. destruct (strtoll_digits_spec a3 r (zlen a1 + k) 0) as (v & e & -> & He). cbn [mbind option_bind].
  pose proof (zlen_nonneg a1). pose proof (zlen_nonneg a2). rewrite zlen_app.
  destruct (e =? zlen a1 + k); [exists 0, 0; split; [done|]; split; [unfold in_s; cbn; lia|lia]|].
  eexists _, e. split; [done|]. split; [|lia]. unfold in_s, LLONG_MIN, LLONG_MAX. cbn. rewrite Z.gtb_ltb. repeat zcase; lia.
Qed.

(** Only a canonical numeral is stored as an integer. *)
Lemma try_integer_spec s a r c rest : s = a ++ 0 :: r -> s = c ++ rest ->
  exists enc, rdbTryIntegerEncoding s (zlen c) = Some enc /\ (enc = [] \/ exists v, c = sdec v /\ in_s 64 v /\ enc = rdbEncodeInteger v).
Proof.
  intros Es Hc. unfold rdbTryIntegerEncoding. destruct (strtoll_spec a r) as (v & e & Ev & Hv & He). rewrite <- Es in Ev. rewrite Ev. cbn [mbind option_bind].
  destruct (znth_is_Some s e) as [x ->]; [rewrite Es, zlen_app, zlen_cons; pose proof (zlen_nonneg r); lia|]. cbn [mbind option_bind].
  destruct (x =? 0); cbn [negb]; [|exists []; split; [done|by left]].
  destruct (ll2string_local 32 v Hv ltac:(done)) as [rest' ->]. cbn [mbind option_bind].
  rewrite strlen_app by (by apply numeral_not_0). cbn [mbind option_bind].
  destruct (Z.eqb_spec (zlen (sdec v)) (zlen c)) as [El|]; cbn [negb]; [|exists []; split; [done|by left]].
  assert (length (sdec v) = length c) as El' by (unfold zlen in El; lia).
  assert (Z.to_nat (zlen c) = length c) as -> by (unfold zlen; lia).
  destruct (memcmp_eq (length c) (sdec v ++ 0 :: rest') s) as (m & -> & Hm); [rewrite length_app; lia|rewrite Hc, length_app; lia|].
  cbn [mbind option_bind]. destruct (Z.eqb_spec m 0) as [E0|]; cbn [negb]; [|exists []; split; [done|by left]].
  eexists. split; [done|]. right. exists v. split; [|done]. apply Hm in E0. rewrite Hc, take_app_length in E0.
  rewrite <- El', take_app_length in E0. done.
Qed.

(** ** Round trip of strings *)

(** [reads_string bs c]: the bytes [bs] are loaded as the string [c], in every form. *)
Definition reads_string (bs c : bytes) : Prop :=
  forall flags, flags_ok flags -> loads (rdbGenericLoadStringObject buf_addr mm mp flags) bs (holds_string flags c).

Lemma reads_integer v : in_s 64 v -> rdbEncodeInteger v <> [] -> reads_string (rdbEncodeInteger v) (sdec v).
Proof.
  intros Hv Hne flags Hf. destruct (encode_integer v) as [|(t & n & -> & Hr & Ht)]; [done|]. unfold rdbGenericLoadStringObject.
  eapply (loads_bind _ _ [_] _); [apply loads_enc; destruct Ht as [[-> _]|[[-> _]|[-> _]]]; vm_compute; split; congruence|]. intros ? ->.
  cbv beta iota. assert ((t =? RDB_ENC_INT8) || (t =? RDB_ENC_INT16) || (t =? RDB_ENC_INT32) = true) as -> by (destruct Ht as [[-> _]|[[-> _]|[-> _]]]; done).
  by apply loads_integer_object.
Qed.

Lemma reads_blob z c : inflates z c -> zlen z < 4294967296 -> 0 < zlen c < 4294967296 -> reads_string (blob_bytes z (zlen c)) c.
Proof.
  intros Hz Hlz Hlc flags Hf. unfold rdbGenericLoadStringObject. eapply (loads_bind _ _ [0xC0 + 3] _); [by apply loads_enc|]. intros ? ->.
  cbv beta iota. change ((3 =? RDB_ENC_INT8) || _ || _) with false. change (3 =? RDB_ENC_LZF) with true. cbv iota. by apply loads_lzf.
Qed.

Lemma loads_into c : zlen c < 2 ^ 64 -> loads (read_into buf_addr (zlen c)) c (fun x => x = c).
Proof.
  intros Hc. unfold read_into. destruct (Z.eqb_spec (zlen c) 0) as [E|]; [apply zlen_0_nil in E as ->; by apply loads_ret|by apply loads_raw].
Qed.

Lemma reads_verbatim c : zlen c < SDS_BOUND -> reads_string (len_bytes (zlen c) ++ c) c.
Proof.
  intros Hc flags Hf. pose proof (zlen_nonneg c). unfold rdbGenericLoadStringObject. unfold SDS_BOUND in *.
  eapply loads_bind; [apply loads_loadlen, loads_lenref; lia|]. intros ? ->. cbv beta iota. unfold RDB_LENERR. zbool.
  destruct Hf as [->|[->|[->| ->]]]; cbn [Z.land Z.eqb negb orb Pos.land RDB_LOAD_NONE RDB_LOAD_ENC RDB_LOAD_PLAIN RDB_LOAD_SDS].
  - destruct (new_object_spec false c) as (o & o' & Eo & Ef & Hr & He); [unfold SDS_BOUND; lia|]. eapply loads_mem_bind; [exact Eo|].
    eapply loads_end; [apply loads_into; lia|]. intros ? ->. eapply loads_mem_bind; [exact Ef|]. apply loads_ret. split; [by left|]. split; [done|]. intros _. by apply He.
  - destruct (new_object_spec true c) as (o & o' & Eo & Ef & Hr & He); [unfold SDS_BOUND; lia|]. eapply loads_mem_bind; [exact Eo|].
    eapply loads_end; [apply loads_into; lia|]. intros ? ->. eapply loads_mem_bind; [exact Ef|]. apply loads_ret. split; [by right|]. split; [done|]. done.
  - eapply loads_end; [apply loads_into; lia|]. intros ? ->. eapply loads_mem_bind; [by apply store_all|]. by apply loads_ret.
  - destruct (noinit_spec (zlen c) ltac:(unfold SDS_BOUND; lia)) as (s & c0 & Es & Hs & Hl). eapply loads_mem_bind; [exact Es|].
    eapply loads_end; [apply loads_into; lia|]. intros ? ->. destruct (overwrite_spec s c0 0 0 c Hs ltac:(lia)) as (s' & Ew & Hs').
    eapply loads_mem_bind; [exact Ew|]. apply loads_ret. split; [done|]. by exists 0.
Qed.

(** The first of two ways to save that writes something. *)
Lemma saves_first f g bs v : saves f bs v -> 0 < v ->
  saves (fun rdb => '(rdb, n) ← f rdb; if n =? -1 then Some (rdb, -1) else if n >? 0 then Some (rdb, n) else g rdb) bs v.
Proof.
  intros (Hb & _ & Hf) Hv. split; [done|]. split; [lia|]. intros rdb w Hw Hl. destruct (Hf rdb w Hw Hl) as (rdb' & n & -> & Hs & Hr). cbn [mbind option_bind].
  destruct Hr as [[-> Hw']|(-> & Hrel & Hne)].
  - rewrite Z.gtb_ltb. zbool. eexists _, _. split; [done|]. split; [done|]. by left.
  - eexists _, _. split; [done|]. split; [done|]. by right.
Qed.

Lemma lzf_cases s c rest : s = c ++ rest -> bytes_ok c -> 20 < zlen c < 4294967296 ->
  (forall rdb, rdbSaveLzfStringObject buf_addr htab s (zlen c) rdb = Some (rdb, 0)) \/
  exists z, inflates z c /\ 0 < zlen z <= zlen c - 4 /\ bytes_ok z /\
    saves (rdbSaveLzfStringObject buf_addr htab s (zlen c)) (blob_bytes z (zlen c)) (zlen (blob_bytes z (zlen c))).
Proof.
  intros Hs Hb Hl.
  destruct (compress_roundtrip c (zlen c) (malloc (zlen c - 4 + 1)) (zlen c - 4) htab Hb) as (o & r & E & Ho & Hr & Hd);
    [lia|lia|lia|done|rewrite zlen_malloc; lia|]. rewrite zlen_malloc in Ho by lia.
  assert (forall rdb, rdbSaveLzfStringObject buf_addr htab s (zlen c) rdb = if r =? 0 then Some (rdb, 0) else rdbSaveLzfBlob buf_addr o r (zlen c) rdb) as Hsv.
  { intros rdb. unfold rdbSaveLzfStringObject. zbool. rewrite Hs, load_prefix. cbn [mbind option_bind].
    assert (u32 (zlen c) = zlen c) as -> by (apply Z.mod_small; lia). assert (u32 (zlen c - 4) = zlen c - 4) as -> by (apply Z.mod_small; lia). by rewrite E. }
  destruct (Z.eqb_spec r 0) as [->|Hr0]; [by left|]. right. destruct (Hd Hr0) as [Hzb Hzd]. assert (zlen (ztake r o) = r) as Hzl by (apply zlen_ztake; lia).
  exists (ztake r o). split; [|split; [lia|split; [done|]]].
  - intros dst Hdst. rewrite Hzl, Hzd by done. rewrite ztake_all by lia. done.
  - apply (saves_ext _ _ _ _ Hsv). rewrite <- Hzl at 1. apply saves_blob; [|done|lia|lia]. rewrite Hzl. rewrite load_Some by lia. by rewrite zdrop_0.
Qed.

(** The block of a short string has a zero byte, which stops strtoll. *)
Lemma saves_string s c rest : (zlen c <= 11 -> exists a r, s = a ++ 0 :: r) -> s = c ++ rest -> bytes_ok c -> zlen c < 4294967296 ->
  exists bs, saves (rdbSaveRawString buf_addr rdb_compression htab s (zlen c)) bs (zlen bs) /\ reads_string bs c /\ 0 < zlen bs <= zlen c + 15.
Proof.
  intros Ha Hc Hb Hl. pose proof (zlen_nonneg c). pose proof (zlen_len_bytes (zlen c)) as Hlb. unfold rdbSaveRawString.
  assert (exists enc, (if zlen c <=? 11 then rdbTryIntegerEncoding s (zlen c) else Some []) = Some enc /\
    (enc = [] \/ exists v, c = sdec v /\ in_s 64 v /\ enc = rdbEncodeInteger v)) as (enc & Eenc & Henc).
  { destruct (Z.leb_spec (zlen c) 11) as [Hs|]; [|exists []; split; [done|by left]]. destruct (Ha Hs) as (a & r & Ea). by eapply try_integer_spec. }
  assert (saves (fun rdb => sbind (rdbSaveLen buf_addr (zlen c)) (fun n => if zlen c >? 0 then
      sbind (fun rdb => d ← load s 0 (zlen c); rdbWriteRaw buf_addr d rdb) (fun _ => written (n + zlen c)) else written n) rdb)
    (len_bytes (zlen c) ++ c) (zlen (len_bytes (zlen c) ++ c))) as Hplain.
  { eapply saves_bind; [apply saves_len; lia|]. rewrite Z.gtb_ltb. rewrite zlen_app. destruct (Z.ltb_spec 0 (zlen c)).
    - eapply saves_end; [apply saves_load; [by rewrite Hc, load_prefix|done]|]. apply saves_written. lia.
    - assert (zlen c = 0) as E0 by lia. rewrite E0, Z.add_0_r. apply zlen_0_nil in E0 as ->. apply saves_written, zlen_nonneg. }
  destruct (decide (enc = [])) as [->|Hne].
  - destruct (rdb_compression && (zlen c >? 20)) eqn:Ecomp.
    + apply andb_true_iff in Ecomp as [_ Hgt]. destruct (lzf_cases s c rest Hc Hb ltac:(lia)) as [Hz|(z & Hz & Hlz & Hzb & Hsv)].
      * exists (len_bytes (zlen c) ++ c). split; [|split; [apply reads_verbatim; unfold SDS_BOUND; lia|rewrite zlen_app; lia]].
        eapply saves_ext; [|exact Hplain]. intros rdb. by rewrite Eenc, Hz.
      * exists (blob_bytes z (zlen c)). assert (zlen (blob_bytes z (zlen c)) = 1 + zlen (len_bytes (zlen z)) + zlen (len_bytes (zlen c)) + zlen z) as Hbl by (unfold blob_bytes; len).
        pose proof (zlen_len_bytes (zlen z)).
        split; [|split; [apply reads_blob; [done|lia|lia]|lia]]. eapply saves_ext; [|eapply saves_first; [exact Hsv|lia]]. intros rdb. by rewrite Eenc.
    + exists (len_bytes (zlen c) ++ c). split; [|split; [apply reads_verbatim; unfold SDS_BOUND; lia|rewrite zlen_app; lia]].
      eapply saves_ext; [|exact Hplain]. intros rdb. by rewrite Eenc.
  - destruct Henc as [|(v & -> & Hv & ->)]; [done|]. exists (rdbEncodeInteger v). split; [|split; [by apply reads_integer|]].
    + destruct (encode_bytes v) as [Hok _].
      assert (0 < zlen (rdbEncodeInteger v)) by (destruct (rdbEncodeInteger v); [done|]; rewrite zlen_cons; pose proof (zlen_nonneg l); lia).
      eapply saves_ext; [intros rdb; rewrite Eenc; cbn [mbind option_bind]; rewrite Z.gtb_ltb; zbool; reflexivity|].
      eapply saves_end; [by apply saves_raw|]. apply saves_written. lia.
    + destruct (encode_bytes v) as [_ H5]. destruct (rdbEncodeInteger v); [done|]. rewrite zlen_cons in *. pose proof (zlen_nonneg l). lia.
Qed.

Lemma saves_string_object o c : str_repr o c -> bytes_ok c -> zlen c < 4294967296 ->
  exists bs, saves (rdbSaveStringObject buf_addr rdb_compression htab o) bs (zlen bs) /\ reads_string bs c /\ 0 < zlen bs <= zlen c + 15.
Proof.
  intros Hr Hb Hl. unfold rdbSaveStringObject.
  assert (forall s free, sds_repr s c free -> exists bs, saves (rdbSaveRawString buf_addr rdb_compression htab (buf s) (sdslen s)) bs (zlen bs) /\
    reads_string bs c /\ 0 < zlen bs <= zlen c + 15) as Hsds.
  { intros s free Hs. rewrite (at_len _ _ _ _ Hs). destruct (at_buf _ _ _ _ Hs) as (junk & -> & _). apply (saves_string _ c (0 :: junk)); try done. intros _. by exists c, junk. }
  unfold str_repr in Hr. destruct (o_ptr o) as [s|s|v]; [destruct Hr as [free Hs]; by eapply Hsds|destruct Hr as [Hs _]; by eapply Hsds|].
  destruct Hr as [Hv ->]. unfold rdbSaveLongLongAsStringObject. destruct (encode_bytes v) as [Hok H5]. rewrite Z.gtb_ltb. pose proof (sdec_bound v Hv) as Hsb.
  destruct (Z.ltb_spec 0 (zlen (rdbEncodeInteger v))).
  - exists (rdbEncodeInteger v). split; [by apply saves_raw|]. split; [|lia]. apply reads_integer; [done|]. by intros E; rewrite E in *.
  - destruct (ll2string_local 32 v Hv ltac:(done)) as [rest Ell]. pose proof (zlen_len_bytes (zlen (sdec v))).
    exists (len_bytes (zlen (sdec v)) ++ sdec v). split; [|split; [apply reads_verbatim; unfold SDS_BOUND; lia|rewrite zlen_app; lia]].
    eapply saves_ext; [intros rdb; rewrite Ell; cbn [mbind option_bind]; zbool; reflexivity|].
    eapply saves_bind; [apply saves_len; lia|]. eapply saves_end; [apply saves_load; [apply load_prefix|done]|]. rewrite zlen_app. apply saves_written. lia.
Qed.
End Spec.
