(* ===== verification/RdbObject.v ===== *)
(** * The RDB format: objects and DUMP payloads (rdb.c, cluster.c)

    A string, set or hash is saved as a type byte and its contents: the compact
    encodings as the block of memory they are, the hash tables element by element.  The
    loader chooses the encoding again from the limits in force.  DUMP adds the version
    and a checksum, which RESTORE verifies. *)

From stdpp Require Import base list numbers option strings gmap sets.
From Stdlib Require Import ZArith Lia.
From S2P Require Import Prelude Util Intset Lzf Sds SdsText Dict DictMap DictIter Ziplist Object SetType HashType Crc Rio Rdb.

Definition RDB_TYPE_STRING : Z := 0.
Definition RDB_TYPE_SET : Z := 2.
Definition RDB_TYPE_HASH : Z := 4.
Definition RDB_TYPE_SET_INTSET : Z := 11.
Definition RDB_TYPE_HASH_ZIPLIST : Z := 13.

Definition rdbIsObjectType (t : Z) : bool := ((t >=? 0) && (t <=? 7)) || ((t >=? 9) && (t <=? 15)).

(** The objects of the modelled types. *)
Inductive robj := RString (o : strobj) | RSet (o : set_obj) | RHash (o : hash_obj).

(** An intset as the block of memory it is, and a block read as an intset. *)
Definition intset_block (iset : intset) : bytes := le_bytes 4 (encoding iset) ++ le_bytes 4 (is_length iset) ++ contents iset.
Definition block_intset (b : bytes) : option intset :=
  e ← load b 0 4; n ← load b 4 4; Some (mk_intset (le_val e) (le_val n) (zdrop 8 b)).

Section Objects.
Context {B : Type} `{RioDevice B} `{FreshMem} `{DictType bytes}.
Context (buf_addr : bytes -> Z) (rdb_compression : bool) (htab : LZF_STATE) (maxmemory maxmemory_policy : Z).
(** The global of dict.c, the limits of the configuration, and the addresses of the tables of a dictionary. *)
Context (dict_can_resize : bool) (set_max_intset_entries hash_max_ziplist_entries hash_max_ziplist_value : Z) (a0 a1 : Z).
(** The branches of rdbLoadObject for lists, sorted sets, modules and streams. *)
Context (load_other : Z -> loader (B := B) robj).

Abbreviation saver := (saver (B := B)).
Abbreviation loader := (loader (B := B)).
Abbreviation rdbSaveRawString := (rdbSaveRawString buf_addr rdb_compression htab).
Abbreviation rdbGenericLoadStringObject := (rdbGenericLoadStringObject buf_addr maxmemory maxmemory_policy).

(** ** Saving *)

Definition rdbSaveObjectType (o : robj) : saver :=
  match o with
  | RString _ => rdbSaveType buf_addr RDB_TYPE_STRING
  | RSet (SetIntset _) => rdbSaveType buf_addr RDB_TYPE_SET_INTSET
  | RSet (SetHT _) => rdbSaveType buf_addr RDB_TYPE_SET
  | RHash (HashZiplist _) => rdbSaveType buf_addr RDB_TYPE_HASH_ZIPLIST
  | RHash (HashHT _) => rdbSaveType buf_addr RDB_TYPE_HASH
  end.

Section Dict.
Context {V : Type}.

(** [f], and when it fails the iterator is released before -1 is returned. *)
Definition sbind_release (d : dict bytes V) (di : @dictIterator bytes) (f : saver) (g : Z -> saver) : saver := fun rdb =>
  '(rdb, n) ← f rdb;
  if n =? -1 then _ ← dictReleaseIterator a0 a1 d di; Some (rdb, -1) else g n rdb.

(** [while((de = dictNext(di)) != NULL)] with the body [save]. *)
Fixpoint save_entries (fuel : nat) (save : bytes * V -> dict bytes V -> @dictIterator bytes -> (Z -> saver) -> saver)
    (d : dict bytes V) (di : @dictIterator bytes) (nwritten : Z) : saver :=
  match fuel with
  | O => fun _ => None
  | S fuel => fun rdb =>
      '(d, di, de) ← dictNext a0 a1 d di;
      match de with
      | None => _ ← dictReleaseIterator a0 a1 d di; Some (rdb, nwritten)
      | Some de => save de d di (fun n => save_entries fuel save d di (nwritten + n)) rdb
      end
  end.
End Dict.

(** A string of a table: its bytes and the terminator. *)
Definition save_sds (s : bytes) : saver := rdbSaveRawString (s ++ [0]) (zlen s).

Definition save_set_entry (de : bytes * unit) (d : dict bytes unit) di (k : Z -> saver) : saver := sbind_release d di (save_sds de.1) k.

Definition save_hash_entry (de : bytes * bytes) (d : dict bytes bytes) di (k : Z -> saver) : saver :=
  sbind_release d di (save_sds de.1) (fun n => sbind_release d di (save_sds de.2) (fun m => k (n + m))).

(** The number of entries and the entries of a table. *)
Definition save_table {V} save (d : dict bytes V) : saver :=
  sbind_release d dictGetIterator (rdbSaveLen buf_addr (dictSize d))
    (fun n => save_entries (S (Z.to_nat (dictSize d))) save d dictGetIterator n).

Definition rdbSaveObject (o : robj) : saver :=
  match o with
  | RString o => rdbSaveStringObject buf_addr rdb_compression htab o
  | RSet (SetHT set) => save_table save_set_entry set
  | RSet (SetIntset iset) => rdbSaveRawString (intset_block iset) (intsetBlobLen iset)
  | RHash (HashZiplist zl) => fun rdb => l ← ziplistBlobLen zl; rdbSaveRawString zl l rdb
  | RHash (HashHT d) => save_table save_hash_entry d
  end.

Definition rdbSavedObjectLen (o : robj) : option Z :=
  '(_, len) ← rdbSaveObject o None;
  if len =? -1 then None else Some len.

(** ** Loading *)

Definition rdbLoadObjectType : loader Z := type ↢ rdbLoadType buf_addr; if rdbIsObjectType type then lret type else lnull.

(** The contents of a string loaded as an sds. *)
Definition load_sds : loader bytes :=
  x ↢ rdbGenericLoadStringObject RDB_LOAD_SDS;
  lmem (match x with LSds s => sds_bytes s | _ => None end).

(** The body of the loop over the elements of a set. *)
Definition load_set_element (len : Z) (o : set_obj) (sdsele : bytes) : option set_obj :=
  o ← match o with
      | SetIntset iset =>
          match isSdsRepresentableAsLongLong sdsele with
          | Some llval => '(iset, _) ← intsetAdd iset llval; Some (SetIntset iset)
          | None =>
              o ← setTypeConvert dict_can_resize a0 a1 o OBJ_ENCODING_HT;
              match o with SetHT d => '(d, _) ← dictExpand d len; Some (SetHT d) | SetIntset _ => None end
          end
      | SetHT _ => Some o
      end;
  match o with
  | SetHT d => '(d, _) ← dictAdd dict_can_resize d sdsele tt; Some (SetHT d)
  | SetIntset _ => Some o
  end.

(** The index is an unsigned int, the length has 64 bits. *)
Fixpoint load_set_loop (fuel : nat) (len i : Z) (o : set_obj) : loader set_obj :=
  if i <? len then
    match fuel with
    | O => fun _ => None
    | S fuel => sdsele ↢ load_sds; o ↢ lmem (load_set_element len o sdsele); load_set_loop fuel len (u32 (i + 1)) o
    end
  else lret o.

Definition load_set : loader robj :=
  len ↢ load_len buf_addr;
  o ↢ lmem (if len >? set_max_intset_entries then
              if len >? DICT_HT_INITIAL_SIZE then '(d, _) ← dictExpand dictCreate len; Some (SetHT d) else Some createSetObject
            else Some createIntsetObject);
  o ↢ load_set_loop (Z.to_nat len) len 0 o;
  lret (RSet o).

(** The pairs of a hash while it is a ziplist: the object and the number of pairs left. *)
Fixpoint load_hash_ziplist (fuel : nat) (len : Z) (zl : bytes) : loader (hash_obj * Z) :=
  if len >? 0 then
    match fuel with
    | O => fun _ => None
    | S fuel =>
        field ↢ load_sds;
        value ↢ load_sds;
        zl ↢ lmem (ziplistPush zl field (zlen field) ZIPLIST_TAIL);
        zl ↢ lmem (ziplistPush zl value (zlen value) ZIPLIST_TAIL);
        if (zlen field >? hash_max_ziplist_value) || (zlen value >? hash_max_ziplist_value) then
          o ↢ lmem (hashTypeConvert dict_can_resize a0 a1 (HashZiplist zl) OBJ_ENCODING_HT); lret (o, len - 1)
        else load_hash_ziplist fuel (len - 1) zl
    end
  else lret (HashZiplist zl, len).

Fixpoint load_hash_table (fuel : nat) (len : Z) (d : dict bytes bytes) : loader (dict bytes bytes * Z) :=
  if len >? 0 then
    match fuel with
    | O => fun _ => None
    | S fuel =>
        field ↢ load_sds;
        value ↢ load_sds;
        '(d, ok) ↢ lmem (dictAdd dict_can_resize d field value);
        if ok : bool then load_hash_table fuel (len - 1) d else lexit
    end
  else lret (d, len).

Definition load_hash : loader robj :=
  len ↢ load_len buf_addr;
  o ↢ lmem createHashObject;
  o ↢ lmem (if len >? hash_max_ziplist_entries then hashTypeConvert dict_can_resize a0 a1 o OBJ_ENCODING_HT else Some o);
  '(o, len) ↢ match o with HashZiplist zl => load_hash_ziplist (Z.to_nat len) len zl | HashHT _ => lret (o, len) end;
  '(o, len) ↢ match o with
              | HashHT d =>
                  d ↢ lmem (if len >? DICT_HT_INITIAL_SIZE then '(d, _) ← dictExpand d len; Some d else Some d);
                  '(d, len) ↢ load_hash_table (Z.to_nat len) len d;
                  lret (HashHT d, len)
              | HashZiplist _ => lret (o, len)
              end;
  if len =? 0 then lret (RHash o) else fun _ => None.

(** A plain block, for the compact encodings. *)
Definition load_plain : loader bytes :=
  x ↢ rdbGenericLoadStringObject RDB_LOAD_PLAIN;
  lmem (match x with LPlain b => Some b | _ => None end).

Definition load_set_intset : loader robj :=
  encoded ↢ load_plain;
  iset ↢ lmem (block_intset encoded);
  o ↢ lmem (if intsetLen iset >? set_max_intset_entries then setTypeConvert dict_can_resize a0 a1 (SetIntset iset) OBJ_ENCODING_HT
            else Some (SetIntset iset));
  lret (RSet o).

Definition load_hash_block : loader robj :=
  encoded ↢ load_plain;
  '(o, length) ↢ lmem (hashTypeLength (HashZiplist encoded));
  o ↢ lmem (if length >? hash_max_ziplist_entries then hashTypeConvert dict_can_resize a0 a1 o OBJ_ENCODING_HT else Some o);
  lret (RHash o).

Definition load_string : loader robj :=
  x ↢ rdbLoadEncodedStringObject buf_addr maxmemory maxmemory_policy;
  o ↢ lmem (match x with LObj o => tryObjectEncoding maxmemory maxmemory_policy o | _ => None end);
  lret (RString o).

Definition rdbLoadObject (rdbtype : Z) : loader robj :=
  if rdbtype =? RDB_TYPE_STRING then load_string
  else if rdbtype =? RDB_TYPE_SET then load_set
  else if rdbtype =? RDB_TYPE_HASH then load_hash
  else if rdbtype =? RDB_TYPE_SET_INTSET then load_set_intset
  else if rdbtype =? RDB_TYPE_HASH_ZIPLIST then load_hash_block
  else load_other rdbtype.

End Objects.

(** ** DUMP and RESTORE (cluster.c) *)

Section Dump.
Context `{FreshMem} `{DictType bytes}.
Context (buf_addr : bytes -> Z) (rdb_compression : bool) (htab : LZF_STATE) (a0 a1 : Z).

(** The payload; an assertion fails when a function returns 0. *)
Definition createDumpPayload (o : robj) : option sds :=
  s ← sdsempty;
  let payload := rioInitWithBuffer s in
  '(p, n) ← rdbSaveObjectType buf_addr o (Some payload);
  if n =? 0 then None else
  '(p, n) ← rdbSaveObject buf_addr rdb_compression htab a0 a1 o p;
  if n =? 0 then None else
  p ← p;
  let s := b_ptr (io p) in
  s ← sdscatlen s [Z.land RDB_VERSION 0xff; Z.land (Z.shiftr RDB_VERSION 8) 0xff] 2;
  crc ← crc64 0 (buf_addr (buf s)) (buf s) (sdslen s);
  sdscatlen s (le_bytes 8 crc) 8.

(** C_OK is [true]. *)
Definition verifyDumpPayload (p : bytes) (len : Z) : option bool :=
  if len <? 10 then Some false else
  let footer := len - 10 in
  f1 ← p.[footer + 1];
  f0 ← p.[footer];
  let rdbver := u16 (Z.lor (Z.shiftl f1 8) f0) in
  if rdbver >? RDB_VERSION then Some false else
  crc ← crc64 0 (buf_addr p) p (len - 8);
  saved ← load p (footer + 2) 8;
  c ← memcmp 8 (le_bytes 8 crc) saved;
  Some (c =? 0).

(** What RESTORE does with the payload: [None] inside is the reply of an error. *)
Context (maxmemory maxmemory_policy : Z) (dict_can_resize : bool)
  (set_max_intset_entries hash_max_ziplist_entries hash_max_ziplist_value : Z) (load_other : Z -> loader (B := rio_buffer) robj).

Definition load_payload (p : sds) : option (lres robj) :=
  ok ← verifyDumpPayload (buf p) (sdslen p);
  if negb ok then Some Null else
  '(_, r) ← (type ↢ rdbLoadObjectType buf_addr;
             rdbLoadObject buf_addr maxmemory maxmemory_policy dict_can_resize set_max_intset_entries hash_max_ziplist_entries
               hash_max_ziplist_value a0 a1 load_other type) (rioInitWithBuffer p);
  Some r.
End Dump.
