(* ===== verification/RdbProps.v ===== *)
(** * What survives a dump

    A string, set or hash that is saved and loaded again is the same abstract value,
    whatever the encodings and the limits at both ends are; the number of bytes is the one
    that was announced; and a DUMP payload is accepted unchanged and rejected when up to
    eight consecutive bytes of it are changed. *)

From stdpp Require Import base list numbers option strings gmap sets.
From Stdlib Require Import ZArith Lia.
From S2P Require Import Prelude Util Intset Lzf Sds SdsText Dict DictMap DictIter Ziplist ZiplistSpec ZiplistApi Object SetType HashType.
From S2P Require Import Crc Rio Rdb RdbSpec RdbObject.

(** The value an object stands for. *)
Inductive aval := AStr (c : bytes) | ASet (X : gset bytes) | AHash (m : gmap bytes bytes).

Definition obj_repr `{DictType bytes} (o : robj) (v : aval) : Prop :=
  match o, v with
  | RString o, AStr c => str_repr o c
  | RSet o, ASet X => set_repr o X
  | RHash o, AHash m => exists n, hash_repr n o m
  | _, _ => False
  end.

(** A string that can be an element: at most 4 GB, and not the numeral of the least integer. *)
Definition elem_ok (s : bytes) : Prop := bytes_ok s /\ zlen s < 4294967296 /\ printable s.

Section Props.
Context {B : Type} `{RioLaws B} `{FreshMem} `{DictType bytes} (buf_addr : bytes -> Z).
Context (rdb_compression : bool) (htab : LZF_STATE) (mm mp : Z).
Hypothesis Hhtab : forall i, 0 <= htab i < 4294967296.
Context (can : bool) (set_max hash_max_entries hash_max_value a0 a1 : Z) (load_other : Z -> loader (B := B) robj).

Abbreviation saves := (saves (B := B)).
Abbreviation loads := (loads (B := B)).
Abbreviation reads_string := (reads_string (B := B) buf_addr mm mp).
Abbreviation save_sds := (save_sds (B := B) buf_addr rdb_compression htab).
Abbreviation load_sds := (load_sds (B := B) buf_addr mm mp).

(** ** Elements *)

Lemma saves_sds s : bytes_ok s -> zlen s < 4294967296 ->
  exists bs, saves (save_sds s) bs (zlen bs) /\ reads_string bs s /\ 0 < zlen bs <= zlen s + 15.
Proof. intros Hb Hl. apply (saves_string buf_addr rdb_compression htab mm mp Hhtab (s ++ [0]) s [0]); try done. intros _. by exists s, []. Qed.

Lemma loads_sds bs s : reads_string bs s -> loads load_sds bs (fun x => x = s).
Proof.
  intros Hr. unfold load_sds. eapply loads_end; [apply Hr; by right; right; right|]. intros x Hx.
  destruct x; cbn in Hx; [by destruct Hx| |by destruct Hx as [[|] _]].
  destruct Hx as [_ [free Hs]]. eapply loads_mem; [by eapply sds_bytes_repr|done].
Qed.

Lemma loads_plain bs s : reads_string bs s -> loads (load_plain buf_addr mm mp) bs (fun x => x = s).
Proof.
  intros Hr. unfold load_plain. eapply loads_end; [apply Hr; by right; right; left|]. intros x Hx.
  destruct x; cbn in Hx; [|by destruct Hx|by destruct Hx as [[|] _]]. destruct Hx as [_ ->]. by eapply loads_mem.
Qed.

(** ** Tables *)

Section Tables.
Context {V : Type}.
Implicit Types (d : dict bytes V) (di : @dictIterator bytes) (l : list (bytes * V)).

Lemma saves_release d di l f g a b n v : reading a0 a1 d di l -> saves f a n -> saves (g n) b v -> saves (sbind_release a0 a1 d di f g) (a ++ b) v.
Proof.
  intros Hr Hf Hg. apply (saves_ext _ (sbind f g)); [|by eapply saves_bind]. intros rdb. unfold sbind_release, sbind.
  by rewrite (reading_release _ _ _ _ _ Hr).
Qed.

(** The body of the loop saves an entry as [bs] and goes on. *)
Definition saves_entry (save : bytes * V -> dict bytes V -> @dictIterator bytes -> (Z -> saver (B := B)) -> saver) (e : bytes * V) (bs : bytes) : Prop :=
  forall d di l k rest v, reading a0 a1 d di l -> saves (k (zlen bs)) rest v -> saves (save e d di k) (bs ++ rest) v.

Lemma saves_entries save fuel : forall d di l bss nw, reading a0 a1 d di l -> Forall2 (saves_entry save) l bss ->
  (length l < fuel)%nat -> 0 <= nw -> saves (save_entries a0 a1 fuel save d di nw) (concat bss) (nw + zlen (concat bss)).
Proof.
  induction fuel as [|fuel IH]; intros d di l bss nw Hr Hl Hf Hn; [lia|]. cbn [save_entries].
  destruct (reading_next a0 a1 d di l Hr) as (di' & E & Hr'). destruct Hl as [|e bs l bss He Hl]; cbn [head tail] in *.
  - eapply saves_ext; [intros rdb; rewrite E; cbn [mbind option_bind]; by rewrite (reading_release _ _ _ _ _ Hr')|].
    cbn [concat]. rewrite Z.add_0_r. by apply saves_written.
  - eapply saves_ext; [intros rdb; rewrite E; reflexivity|]. cbn [concat]. rewrite zlen_app, Z.add_assoc.
    eapply He; [exact Hr'|]. apply (IH d di' l); [done|done|cbn in Hf; lia|pose proof (zlen_nonneg bs); lia].
Qed.
End Tables.

Lemma saves_table {V} save (d : dict bytes V) bss : dict_wf d -> zlen (entries d) < DICT_BOUND -> Forall2 (saves_entry save) (entries d) bss ->
  saves (save_table buf_addr a0 a1 save d) (len_bytes (zlen (entries d)) ++ concat bss) (zlen (len_bytes (zlen (entries d)) ++ concat bss)).
Proof.
  intros Hwf Hb Hl. unfold save_table. destruct (size_entries d Hwf Hb) as [-> _]. pose proof (zlen_nonneg (entries d)). unfold DICT_BOUND in Hb.
  eapply saves_release; [by apply reading_start|apply saves_len; lia|]. rewrite zlen_app.
  apply (saves_entries save _ d dictGetIterator (entries d)); [by apply reading_start|done|unfold zlen; lia|apply zlen_nonneg].
Qed.

(** The saved form of an element. *)
Definition elem_bytes (s bs : bytes) : Prop := saves (save_sds s) bs (zlen bs) /\ reads_string bs s /\ 0 < zlen bs <= zlen s + 15.

Lemma elems_bytes L : Forall elem_ok L -> exists bss, Forall2 elem_bytes L bss.
Proof.
  induction 1 as [|s L (Hb & Hl & _) _ (bss & IH)]; [by exists []|]. destruct (saves_sds s Hb Hl) as (bs & Hs). by exists (bs :: bss); constructor.
Qed.

(** The size of the elements, with what each of them may add. *)
Definition size_of (L : list bytes) : Z := foldr (fun s n => zlen s + 15 + n) 0 L.

Lemma size_bound L bss : Forall2 elem_bytes L bss -> zlen (concat bss) <= size_of L.
Proof. induction 1 as [|s bs L bss (_ & _ & Hl) _ IH]; [done|]. cbn [concat size_of foldr]. rewrite zlen_app. fold (size_of L). lia. Qed.

(** ** Sets *)

Lemma set_entry_saves x bs : elem_bytes x bs -> saves_entry (save_set_entry buf_addr rdb_compression htab a0 a1) (x, tt) bs.
Proof. intros (Hs & _) d di l k rest v Hr Hk. by eapply saves_release. Qed.

Lemma repr_expand {V} (d : dict bytes V) m sz : dict_repr d m -> sz <= 2 ^ 62 -> exists d' b, dictExpand d sz = Some (d', b) /\ dict_repr d' m.
Proof.
  intros [Hwf Hm] Hsz. destruct (expand_spec d sz Hwf Hsz) as (d' & b & E & Hwf' & Hent & _). exists d', b. split; [done|]. split; [done|].
  by rewrite <- Hm; unfold to_map; rewrite Hent.
Qed.

Lemma set_element_spec len o X x : set_repr o X -> Z.of_nat (base.size X) < INTSET_MAX -> printable x -> x ∉ X -> len <= 2 ^ 62 ->
  exists o', load_set_element can a0 a1 len o x = Some o' /\ set_repr o' ({[x]} ∪ X).
Proof.
  intros Hr Hs Hp Hx Hlen. unfold load_set_element.
  assert (forall d m, dict_repr d m -> dom m = X -> exists o', ('(d, _) ← dictAdd can d x tt; Some (SetHT d)) = Some o' /\ set_repr o' ({[x]} ∪ X)) as Hadd.
  { intros d m Hd <-. destruct (dict_add_new can d m x Hd) as (d' & -> & Hd' & Hm'); [apply dom_fits; lia|done|].
    exists (SetHT d'). split; [done|]. rewrite <- Hm'. by apply ht_repr. }
  destruct o as [iset|d]; [|apply ht_inv in Hr as (m & Hd & ->); by apply (Hadd d m)].
  destruct Hr as (L & He & ->). pose proof (set_size _ _ _ He eq_refl) as Hz. inversion He as [? l Hri Hm|]; subst. unfold isSdsRepresentableAsLongLong.
  destruct (string2ll x) as [n|] eqn:En.
  - apply string2ll_sound in En as [Hn ->].
    destruct (Intset.add_spec iset l n Hri) as (iset' & b & l' & -> & Hr' & _ & _ & Hl'); [unfold zlen, numerals in *; rewrite length_fmap in Hz; lia|done|].
    cbn [mbind option_bind]. eexists. split; [done|]. apply (int_repr iset' l'); [done| |by apply numerals_add].
    apply Forall_forall. intros y [->|Hy]%Hl'; [by intros ->|]. rewrite Forall_forall in Hm. by apply Hm.
  - destruct (convert_spec can a0 a1 iset (numerals l) He) as (d & m & -> & Hd & Hdm). cbn [mbind option_bind].
    destruct (repr_expand d m len Hd Hlen) as (d' & b & -> & Hd'). cbn [mbind option_bind]. by apply (Hadd d' m).
Qed.

Lemma loads_set_loop fuel : forall len i o X L bss, set_repr o X -> Forall elem_ok L -> Forall2 elem_bytes L bss -> NoDup L ->
  (forall x, x ∈ L -> x ∉ X) -> 0 <= i -> i + zlen L = len -> Z.of_nat (base.size X) = i -> len <= INTSET_MAX -> (length L <= fuel)%nat ->
  loads (load_set_loop buf_addr mm mp can a0 a1 fuel len i o) (concat bss) (fun o' => set_repr o' (X ∪ list_to_set L)).
Proof.
  induction fuel as [|fuel IH]; intros len i o X L bss Hr Hok Hl Hn Hd Hi Hlen Hs Hmax Hf; destruct Hl as [|x bs L bss Hx Hl].
  1, 3: rewrite zlen_nil in Hlen; cbn [load_set_loop concat list_to_set]; destruct (Z.ltb_spec i len); [lia|]; apply loads_ret; by rewrite union_empty_r_L.
  { cbn in Hf. lia. }
  rewrite zlen_cons in Hlen. pose proof (zlen_nonneg L). cbn [load_set_loop concat]. destruct (Z.ltb_spec i len); [|lia].
  apply Forall_cons_1 in Hok as [(Hxb & Hxl & Hxp) Hok]. apply NoDup_cons in Hn as [Hxn Hn].
  eapply loads_bind; [by apply loads_sds, Hx|]. intros ? ->. unfold INTSET_MAX in *.
  destruct (set_element_spec len o X x Hr) as (o' & E & Hr'); [unfold INTSET_MAX; lia|done|apply Hd; by left|lia|].
  eapply loads_mem_bind; [exact E|]. assert (u32 (i + 1) = i + 1) as -> by (apply Z.mod_small; lia).
  assert (x ∉ X) as HxX by (apply Hd; by left).
  eapply loads_weaken; [|apply (IH len (i + 1) o' ({[x]} ∪ X) L bss Hr' Hok Hl Hn); [|lia|lia| |lia|cbn in Hf; lia]].
  - intros o2. cbn [list_to_set]. by replace ({[x]} ∪ X ∪ list_to_set L) with (X ∪ ({[x]} ∪ list_to_set L)) by set_solver.
  - intros y Hy. apply not_elem_of_union. split; [by intros ->%elem_of_singleton|apply Hd; by right].
  - rewrite size_union by set_solver. rewrite size_singleton. lia.
Qed.

Lemma loads_set L bss : Forall elem_ok L -> Forall2 elem_bytes L bss -> NoDup L -> zlen L <= INTSET_MAX ->
  loads (load_set buf_addr mm mp can set_max a0 a1) (len_bytes (zlen L) ++ concat bss) (fun o => obj_repr o (ASet (list_to_set L))).
Proof.
  intros Hok Hl Hn Hmax. pose proof (zlen_nonneg L). unfold INTSET_MAX in Hmax. unfold load_set.
  eapply loads_bind; [apply loads_len; unfold RDB_LENERR; lia|]. intros ? ->.
  assert (exists o, (if zlen L >? set_max then if zlen L >? DICT_HT_INITIAL_SIZE then '(d, _) ← dictExpand dictCreate (zlen L); Some (SetHT d)
      else Some createSetObject else Some createIntsetObject) = Some o /\ set_repr o ∅) as (o & Eo & Ho).
  { destruct (_ >? set_max).
    - destruct (_ >? DICT_HT_INITIAL_SIZE).
      + destruct (repr_expand dictCreate (∅ : gmap bytes unit) (zlen L) repr_create ltac:(lia)) as (d & b & -> & Hd).
        exists (SetHT d). split; [done|]. rewrite <- (dom_empty_L (M := gmap bytes) (A := unit)). by apply ht_repr.
      + exists createSetObject. split; [done|]. rewrite <- (dom_empty_L (M := gmap bytes) (A := unit)). by apply ht_repr, repr_create.
    - exists createIntsetObject. split; [done|]. exists (numerals []). split; [|done]. constructor; [apply Intset.new_repr|constructor]. }
  eapply loads_mem_bind; [exact Eo|]. eapply loads_end.
  - apply (loads_set_loop (Z.to_nat (zlen L)) (zlen L) 0 o ∅ L bss Ho Hok Hl Hn); [set_solver|lia|lia|done|unfold INTSET_MAX; lia|unfold zlen; lia].
  - intros o' Ho'. apply loads_ret. cbn. by rewrite union_empty_l_L in Ho'.
Qed.

(** An intset is saved as its block. *)
Lemma elems_bytes_ok e l : bytes_ok (elems e l).
Proof. induction l as [|x l IH]; [constructor|]. rewrite elems_cons. apply Forall_app. split; [apply le_bytes_ok|done]. Qed.

Lemma intset_block_spec iset l : Intset.repr iset l -> zlen l < INTSET_MAX ->
  bytes_ok (intset_block iset) /\ zlen (intset_block iset) = intsetBlobLen iset /\ zlen (intset_block iset) < 4294967296 /\
  block_intset (intset_block iset) = Some iset /\ exists a r, intset_block iset = a ++ 0 :: r.
Proof.
  intros Hr Hmax. pose proof (repr_enc _ _ Hr) as He. pose proof (repr_len _ _ Hr) as Hl. pose proof (repr_contents _ _ Hr) as Hc.
  pose proof (zlen_nonneg l). unfold INTSET_MAX in Hmax. destruct iset as [e n c]. cbn [encoding is_length contents] in *. unfold intset_block, intsetBlobLen. cbn [encoding is_length contents].
  assert (zlen c = e * zlen l) as Hcl by (rewrite Hc, zlen_elems; destruct He as [->|[->| ->]]; done || lia).
  assert (0 <= e * zlen l < 4294967288) by (destruct He as [->|[->| ->]]; lia).
  assert (zlen (le_bytes 4 e ++ le_bytes 4 n ++ c) = 8 + e * zlen l) as Hb by (rewrite !zlen_app, !zlen_le_bytes; lia).
  split; [|split; [|split; [lia|split]]].
  - rewrite Hc. repeat (apply Forall_app; split); try apply le_bytes_ok. apply elems_bytes_ok.
  - rewrite Hb, Hl, Z.mul_comm. unfold u32, wrapu. rewrite Z.mod_small; lia.
  - unfold block_intset. rewrite (load_at [] (le_bytes 4 e) (le_bytes 4 n ++ c) _ 0 4); [|done|done|by rewrite zlen_le_bytes]. cbn [mbind option_bind].
    rewrite (load_at (le_bytes 4 e) (le_bytes 4 n) c _ 4 4); [|done|by rewrite zlen_le_bytes|by rewrite zlen_le_bytes]. cbn [mbind option_bind].
    rewrite app_assoc, zdrop_app_r by (rewrite zlen_app, !zlen_le_bytes; done). rewrite !le_val_bytes. do 2 f_equal; apply Z.mod_small; cbn; destruct He as [->|[->| ->]]; lia.
  - exists [e], ([0; 0] ++ le_bytes 4 n ++ c). destruct He as [->|[->| ->]]; done.
Qed.

Lemma saves_intset iset l : Intset.repr iset l -> zlen l < INTSET_MAX -> Forall (fun v => v <> LLONG_MIN) l ->
  exists bs, saves (rdbSaveObject buf_addr rdb_compression htab a0 a1 (RSet (SetIntset iset))) bs (zlen bs) /\ 0 < zlen bs < 4294967296 + 15 /\
    loads (load_set_intset buf_addr mm mp can set_max a0 a1) bs (fun o => obj_repr o (ASet (list_to_set (numerals l)))).
Proof.
  intros Hr Hmax Hmin. destruct (intset_block_spec iset l Hr Hmax) as (Hb & Hl & Hlt & Hblk & a & r & Ea).
  destruct (saves_string buf_addr rdb_compression htab mm mp Hhtab (intset_block iset) (intset_block iset) []) as (bs & Hs & Hrd & Hsz);
    [by exists a, r|by rewrite app_nil_r|done|done|].
  exists bs. cbn [rdbSaveObject]. rewrite Hl in *. split; [done|]. split; [lia|]. unfold load_set_intset.
  eapply loads_end; [by apply loads_plain|]. intros ? ->. eapply loads_mem_bind; [exact Hblk|].
  assert (set_elems (SetIntset iset) (numerals l)) as He by (by constructor). destruct (_ >? set_max).
  - destruct (convert_spec can a0 a1 iset (numerals l) He) as (d & m & E & Hd & Hdm). eapply loads_mem_bind; [exact E|]. apply loads_ret. cbn. rewrite <- Hdm. by apply ht_repr.
  - eapply loads_mem_bind; [done|]. apply loads_ret. cbn. by exists (numerals l).
Qed.

(** ** Hashes *)

Definition pair_bytes (q : bytes * bytes) (bs : bytes) : Prop := exists b1 b2, bs = b1 ++ b2 /\ elem_bytes q.1 b1 /\ elem_bytes q.2 b2.

Lemma pairs_bytes ps : Forall elem_ok (flat ps) -> exists bss, Forall2 pair_bytes ps bss /\ zlen (concat bss) <= size_of (flat ps).
Proof.
  induction ps as [|[f v] ps IH]; intros Hok; [by exists []|]. cbn [flat fst snd] in Hok. apply Forall_cons_1 in Hok as [(Hf & Hfl & _) Hok].
  apply Forall_cons_1 in Hok as [(Hv & Hvl & _) Hok]. destruct (IH Hok) as (bss & Hp & Hs).
  destruct (saves_sds f Hf Hfl) as (b1 & H1b). destruct (saves_sds v Hv Hvl) as (b2 & H2b).
  exists ((b1 ++ b2) :: bss). split; [constructor; [by exists b1, b2|done]|]. destruct H1b as (_ & _ & Hb1), H2b as (_ & _ & Hb2).
  cbn [concat flat fst snd size_of foldr]. fold (size_of (flat ps)). rewrite !zlen_app. lia.
Qed.

Lemma hash_entry_saves q bs : pair_bytes q bs -> saves_entry (save_hash_entry buf_addr rdb_compression htab a0 a1) q bs.
Proof.
  intros (b1 & b2 & -> & (H1b & _) & (H2b & _)) d di l k rest v Hr Hk. unfold save_hash_entry. rewrite <- app_assoc.
  eapply saves_release; [done|exact H1b|]. eapply saves_release; [done|exact H2b|]. by rewrite <- zlen_app.
Qed.

Lemma pmap_snoc A f v : NoDup (A ++ [(f, v)]).*1 -> pmap (A ++ [(f, v)]) = <[f := v]> (pmap A) /\ pmap A !! f = None /\ NoDup A.*1.
Proof.
  intros Hn. destruct (pmap_mid A f v [] Hn) as [E Hf]. rewrite app_nil_r in *. split; [done|]. split; [by apply pmap_none|].
  rewrite fmap_app in Hn. by apply NoDup_app in Hn as [? _].
Qed.

Lemma nodup_prefix (A : list (bytes * bytes)) q L : NoDup (A ++ q :: L).*1 -> NoDup ((A ++ [q]) ++ L).*1 /\ NoDup (A ++ [q]).*1.
Proof.
  intros Hn. rewrite cons_middle, app_assoc in Hn. split; [done|]. rewrite fmap_app in Hn. by apply NoDup_app in Hn as [? _].
Qed.

(** The fields and values of the next pair. *)
Lemma loads_pair {C} q bs (g : bytes -> bytes -> loader (B := B) C) rest Q : pair_bytes q bs -> loads (g q.1 q.2) rest Q ->
  loads (lbind load_sds (fun f => lbind load_sds (g f))) (bs ++ rest) Q.
Proof.
  intros (b1 & b2 & -> & (_ & H1b & _) & (_ & H2b & _)) Hg. rewrite <- app_assoc. eapply loads_bind; [by apply loads_sds|]. intros ? ->.
  eapply loads_bind; [by apply loads_sds|]. by intros ? ->.
Qed.

Lemma loads_hash_table fuel : forall A L bss d, dict_repr d (pmap A) -> Forall2 pair_bytes L bss -> NoDup (A ++ L).*1 ->
  zlen (A ++ L) <= PAIRS_MAX -> (length L <= fuel)%nat ->
  loads (load_hash_table buf_addr mm mp can fuel (zlen L) d) (concat bss) (fun x => x.2 = 0 /\ dict_repr x.1 (pmap (A ++ L))).
Proof.
  induction fuel as [|fuel IH]; intros A L bss d Hd Hl Hn Hmax Hf; destruct Hl as [|q bs L bss Hq Hl].
  1, 3: cbn [load_hash_table concat]; change (zlen [] >? 0) with false; apply loads_ret; by rewrite app_nil_r.
  { cbn in Hf. lia. }
  rewrite zlen_app, zlen_cons in Hmax. pose proof (zlen_nonneg L). pose proof (zlen_nonneg A). cbn [load_hash_table concat]. rewrite (zlen_cons q L), Z.gtb_ltb.
  destruct (Z.ltb_spec 0 (1 + zlen L)); [|lia]. eapply loads_pair; [exact Hq|]. destruct q as [f v]. cbn [fst snd].
  destruct (nodup_prefix A (f, v) L Hn) as [Hn' Hn1]. destruct (pmap_snoc A f v Hn1) as (Em & Hnone & HnA).
  destruct (repr_add can d (pmap A) f v Hd) as (d' & E & Hd'); [apply pmap_fits; [done|lia]|done|].
  eapply loads_mem_bind; [exact E|]. cbv beta iota. replace (1 + zlen L - 1) with (zlen L) by lia. rewrite <- Em in Hd'.
  eapply loads_weaken; [|apply (IH (A ++ [(f, v)]) L bss d' Hd' Hl Hn'); [rewrite !zlen_app, zlen_cons, zlen_nil; lia|cbn in Hf; lia]].
  intros [d2 n2] [E2 Hd2]. split; [done|]. by rewrite <- app_assoc in Hd2.
Qed.

(** The room of a pair whose strings are within the limit, and of the pairs the loader
    pushes on a ziplist: those up to the first that is not. *)
Definition is_long (q : bytes * bytes) : bool := (zlen q.1 >? hash_max_value) || (zlen q.2 >? hash_max_value).
Fixpoint pushed_cost (ps : list (bytes * bytes)) : Z :=
  match ps with
  | [] => 0
  | q :: ps => set_cost q.1 q.2 + if is_long q then 0 else pushed_cost ps
  end.

Lemma pushed_cost_nonneg ps : 0 <= pushed_cost ps.
Proof.
  induction ps as [|[f v] ps IH]; [done|]. cbn [pushed_cost fst snd]. unfold set_cost. pose proof (zlen_nonneg f). pose proof (zlen_nonneg v).
  destruct (is_long _); lia.
Qed.

(** The ziplist loop stops at the end or at the first long string, with a table. *)
Definition hash_stops (ps rest : list (bytes * bytes)) (x : hash_obj * Z) : Prop :=
  x.2 = zlen rest /\
  match x.1 with HashZiplist _ => rest = [] /\ exists n, hash_pairs n x.1 ps | HashHT d => dict_repr d (pmap ps) end.

Lemma loads_hash_ziplist fuel : forall n A L bss zl, hash_pairs n (HashZiplist zl) A -> Forall2 pair_bytes L bss -> NoDup (A ++ L).*1 ->
  Forall printable (flat L) -> 11 + n + pushed_cost L < 4294967296 -> (length L <= fuel)%nat ->
  exists L1 L2 bss1 bss2, L = L1 ++ L2 /\ bss = bss1 ++ bss2 /\ Forall2 pair_bytes L2 bss2 /\
    loads (load_hash_ziplist buf_addr mm mp can hash_max_value a0 a1 fuel (zlen L) zl) (concat bss1) (hash_stops (A ++ L1) L2).
Proof.
  induction fuel as [|fuel IH]; intros n A L bss zl Hp Hl Hn Hpr Hcost Hf; destruct Hl as [|q bs L bss Hq Hl].
  1, 3: exists [], [], [], []; do 3 (split; [done|]); cbn [load_hash_ziplist concat]; change (zlen [] >? 0) with false; apply loads_ret;
    rewrite app_nil_r; split; [done|]; split; [done|]; by exists n.
  { cbn in Hf. lia. }
  pose proof (zlen_nonneg L). destruct q as [f v]. cbn [flat fst snd] in Hpr. apply Forall_cons_1 in Hpr as [Hpf Hpr]. apply Forall_cons_1 in Hpr as [Hpv Hpr].
  cbn [pushed_cost fst snd] in Hcost. pose proof (pushed_cost_nonneg L).
  inversion Hp as [? ? Hz HnA HpA Hroom|]; subst. destruct (nodup_prefix A (f, v) L Hn) as [Hn' Hn1].
  destruct (zl_append zl A f v Hz) as (zl1 & zl2 & E1 & E2 & Hz2 & Hroom2); [unfold set_cost in Hcost; destruct (is_long _); lia|].
  assert (hash_pairs (n + set_cost f v) (HashZiplist zl2) (A ++ [(f, v)])) as Hp2.
  { constructor; [done|done| |unfold set_cost; lia]. rewrite flat_app. apply Forall_app. split; [done|]. by repeat constructor. }
  assert (forall (k : bytes -> loader (B := B) (hash_obj * Z)) Q rest, loads (k zl2) rest Q -> loads (lbind (lmem (ziplistPush zl f (zlen f) ZIPLIST_TAIL))
    (fun zl => lbind (lmem (ziplistPush zl v (zlen v) ZIPLIST_TAIL)) k)) rest Q) as Hpush.
  { intros k Q rest Hk. eapply loads_mem_bind; [exact E1|]. eapply loads_mem_bind; [exact E2|]. exact Hk. }
  cbn [load_hash_ziplist]. rewrite (zlen_cons (f, v) L), Z.gtb_ltb. destruct (Z.ltb_spec 0 (1 + zlen L)); [|lia].
  replace (1 + zlen L - 1) with (zlen L) by lia.
  unfold is_long in Hcost. cbn [fst snd] in Hcost. destruct ((zlen f >? hash_max_value) || (zlen v >? hash_max_value)) eqn:Ebig.
  - exists [(f, v)], L, [bs], bss. do 3 (split; [done|]). cbn [concat]. eapply loads_pair; [exact Hq|]. cbn [fst snd]. apply Hpush. rewrite Ebig.
    destruct (hash_convert_spec can a0 a1 _ zl2 _ Hp2) as (d & E & Hd). eapply loads_mem_bind; [exact E|]. apply loads_ret. by split.
  - destruct (IH (n + set_cost f v) (A ++ [(f, v)]) L bss zl2 Hp2 Hl Hn' Hpr) as (L1 & L2 & bss1 & bss2 & -> & -> & Hl2 & Hld); [lia|cbn in Hf; lia|].
    exists ((f, v) :: L1), L2, (bs :: bss1), bss2. do 3 (split; [done|]). cbn [concat]. eapply loads_pair; [exact Hq|]. cbn [fst snd]. apply Hpush. rewrite Ebig.
    rewrite <- app_assoc in Hld. exact Hld.
Qed.

Lemma empty_hash : exists zl, createHashObject = Some (HashZiplist zl) /\ hash_pairs 0 (HashZiplist zl) [].
Proof.
  destruct create_hash as (o & E & ps & Hp & Hm). unfold createHashObject in *. destruct ziplistNew as [zl|]; [|done]. injection E as <-.
  exists zl. split; [done|]. inversion Hp as [? ? Hz Hn _ Hr|]; subst. destruct ps as [|q ps]; [exact Hp|].
  apply (f_equal (lookup q.1)) in Hm. destruct q as [f v]. pose proof (pmap_lookup [] f v ps Hn) as E. cbn [app fst] in *. rewrite E, lookup_empty in Hm. done.
Qed.

(** The second part of the loader: a table takes the pairs that are left. *)
Lemma loads_hash_rest A L bss x : hash_stops A L x -> Forall2 pair_bytes L bss -> NoDup (A ++ L).*1 -> zlen (A ++ L) <= PAIRS_MAX ->
  loads (lbind (match x.1 with
      | HashHT d => lbind (lmem (if x.2 >? DICT_HT_INITIAL_SIZE then '(d, _) ← dictExpand d x.2; Some d else Some d))
          (fun d => lbind (load_hash_table buf_addr mm mp can (Z.to_nat x.2) x.2 d) (fun y => match y with (d, len) => lret (HashHT d, len) end))
      | HashZiplist _ => lret (x.1, x.2) end)
    (fun y => match y with (o, len) => if len =? 0 then lret (RHash o) else fun _ => None end)) (concat bss)
    (fun o => obj_repr o (AHash (pmap (A ++ L)))).
Proof.
  intros [Hlen Hx] Hl Hn Hmax. destruct x as [o len]. cbn [fst snd] in *. subst len. destruct o as [zl|d].
  - destruct Hx as [-> (n & Hp)]. apply Forall2_nil_inv_l in Hl as ->. cbn [concat]. eapply (loads_bind _ _ [] []); [by apply (loads_ret _ (fun y => y = (HashZiplist zl, 0)))|].
    intros ? ->. cbv beta iota. change (0 =? 0) with true. cbv iota. apply loads_ret. rewrite app_nil_r. by exists n, A.
  - assert (exists d', (if zlen L >? DICT_HT_INITIAL_SIZE then '(d, _) ← dictExpand d (zlen L); Some d else Some d) = Some d' /\ dict_repr d' (pmap A)) as (d' & E & Hd).
    { destruct (_ >? _); [|by exists d]. rewrite zlen_app in Hmax. pose proof (zlen_nonneg A). unfold PAIRS_MAX in Hmax.
      destruct (repr_expand d (pmap A) (zlen L) Hx ltac:(lia)) as (d' & b & -> & Hd'). by exists d'. }
    eapply (loads_end _ _ _ (fun y => y.2 = 0 /\ exists d2, y.1 = HashHT d2 /\ dict_repr d2 (pmap (A ++ L)))).
    + eapply loads_mem_bind; [exact E|]. eapply loads_end; [apply (loads_hash_table (Z.to_nat (zlen L)) A L bss d' Hd Hl Hn Hmax); unfold zlen; lia|].
      intros [d2 n2] [E2 Hd2]. apply loads_ret. split; [done|]. by exists d2.
    + intros [o n2] [E2 (d2 & Eo & Hd2)]. cbn [fst snd] in *. subst. change (0 =? 0) with true. cbv iota. apply loads_ret. exists 0. by apply ht_hash.
Qed.

Lemma loads_hash L bss : Forall elem_ok (flat L) -> Forall2 pair_bytes L bss -> NoDup L.*1 -> zlen L <= PAIRS_MAX ->
  (zlen L <= hash_max_entries -> 11 + pushed_cost L < 4294967296) ->
  loads (load_hash buf_addr mm mp can hash_max_entries hash_max_value a0 a1) (len_bytes (zlen L) ++ concat bss) (fun o => obj_repr o (AHash (pmap L))).
Proof.
  intros Hok Hl Hn Hmax Hcost. pose proof (zlen_nonneg L). unfold load_hash.
  eapply loads_bind; [apply loads_len; unfold RDB_LENERR, PAIRS_MAX in *; lia|]. intros ? ->.
  destruct empty_hash as (zl & Ezl & Hp). eapply loads_mem_bind; [exact Ezl|]. rewrite Z.gtb_ltb.
  assert (Forall printable (flat L)) as Hpr by (apply (Forall_impl elem_ok); [exact Hok|intros s (_ & _ & Hs); exact Hs]).
  destruct (Z.ltb_spec hash_max_entries (zlen L)).
  - destruct (hash_convert_spec can a0 a1 0 zl [] Hp) as (d & E & Hd). eapply loads_mem_bind; [exact E|].
    eapply (loads_bind0 _ _ _ (fun x => x = (HashHT d, zlen L))); [by apply loads_ret|]. intros ? ->. cbv beta iota.
    apply (loads_hash_rest [] L bss (HashHT d, zlen L)); [by split|done|done|done].
  - eapply loads_mem_bind; [done|].
    destruct (loads_hash_ziplist (Z.to_nat (zlen L)) 0 [] L bss zl Hp Hl Hn Hpr) as (L1 & L2 & bss1 & bss2 & E1 & E2 & Hl2 & Hld); [lia|unfold zlen; lia|].
    rewrite E2, concat_app. eapply loads_bind; [exact Hld|]. intros [o len] Hx. cbv beta iota. cbn [app] in Hx.
    rewrite E1 in *. by apply (loads_hash_rest L1 L2 bss2 (o, len)).
Qed.

(** A ziplist is saved as its block. *)
Lemma saves_hash_block n zl ps : hash_pairs n (HashZiplist zl) ps -> bytes_ok zl ->
  exists bs, saves (rdbSaveObject buf_addr rdb_compression htab a0 a1 (RHash (HashZiplist zl))) bs (zlen bs) /\ 0 < zlen bs < 4294967296 + 15 /\
    loads (load_hash_block buf_addr mm mp can hash_max_entries a0 a1) bs (fun o => obj_repr o (AHash (pmap ps))).
Proof.
  intros Hp Hb. inversion Hp as [? ? Hz Hn Hpr Hr|]; subst. destruct (zl_pairs_small zl ps Hz) as [_ Hsmall].
  apply zrepr_at in Hz as (c & es & Ha & Hes). pose proof (elens_room es). pose proof (elens_nonneg es). destruct Ha as [Eb Hch Hcnt Hroom].
  assert (zlen zl = 11 + elens es) as Hzl by (rewrite Eb; apply zlen_block).
  assert (ziplistBlobLen zl = Some (zlen zl)) as Hlen by (unfold ziplistBlobLen; rewrite Hzl, Eb; apply block_bytes; lia).
  destruct (saves_string buf_addr rdb_compression htab mm mp Hhtab zl zl []) as (bs & Hs & Hrd & Hsz); [|by rewrite app_nil_r|done|lia|].
  { intros H11. assert (elens es = 0) as E0 by lia. rewrite Eb. unfold block, hd. rewrite E0. eexists [11], _. reflexivity. }
  exists bs. cbn [rdbSaveObject]. split; [eapply saves_ext; [|exact Hs]; intros rdb; by rewrite Hlen|]. split; [lia|].
  unfold load_hash_block. eapply loads_end; [by apply loads_plain|]. intros ? ->.
  assert (fits (pmap ps)) as Hfit by (by apply pmap_fits).
  destruct (length_repr n (HashZiplist zl) (pmap ps)) as (o & E & (ps' & Hp' & E') & Henc); [by exists ps|done|]. eapply loads_mem_bind; [exact E|]. cbv beta iota.
  destruct (_ >? hash_max_entries); [|eapply loads_mem_bind; [done|]; apply loads_ret; exists n, ps'; by rewrite E'].
  destruct o as [zl'|]; [|done]. destruct (hash_convert_spec can a0 a1 n zl' ps' Hp') as (d & Ec & Hd). eapply loads_mem_bind; [exact Ec|].
  apply loads_ret. exists 0. rewrite E'. by apply ht_hash.
Qed.

(** ** Objects *)

Lemma saves_str o c : str_repr o c -> bytes_ok c -> zlen c < 4294967296 ->
  exists bs, saves (rdbSaveObject buf_addr rdb_compression htab a0 a1 (RString o)) bs (zlen bs) /\ 0 < zlen bs < 4294967296 + 15 /\
    loads (load_string buf_addr mm mp) bs (fun x => obj_repr x (AStr c)).
Proof.
  intros Ho Hb Hl. destruct (saves_string_object buf_addr rdb_compression htab mm mp Hhtab o c Ho Hb Hl) as (bs & Hs & Hr & Hz).
  exists bs. split; [exact Hs|]. split; [lia|]. unfold load_string, rdbLoadEncodedStringObject. eapply loads_end; [apply Hr; by right; left|]. intros x Hx.
  destruct x as [| |o']; [by destruct Hx as [? _]|by destruct Hx as [? _]|]. destruct Hx as (_ & Hx & _).
  destruct (try_encoding_spec mm mp o' c Hx) as (o2 & E & Ho2 & _); [unfold SDS_BOUND; lia|]. eapply loads_mem_bind; [exact E|]. by apply loads_ret.
Qed.

(** [saveable o v]: the object stands for [v], and its size is within what the formats can hold. *)
Definition saveable (o : robj) (v : aval) : Prop :=
  match o, v with
  | RString o, AStr c => str_repr o c /\ bytes_ok c /\ zlen c < 4294967296
  | RSet o, ASet X => exists L, set_elems o L /\ X = list_to_set L /\ Forall elem_ok L /\ zlen L < INTSET_MAX
  | RHash o, AHash m => exists n ps, hash_pairs n o ps /\ m = pmap ps /\
      match o with
      | HashZiplist zl => bytes_ok zl
      | HashHT _ => Forall elem_ok (flat ps) /\ zlen ps <= PAIRS_MAX /\ size_of (flat ps) < 2 ^ 61 /\
          (zlen ps <= hash_max_entries -> 11 + pushed_cost ps < 4294967296)
      end
  | _, _ => False
  end.

(** The type byte of an object. *)
Definition type_byte (o : robj) : Z :=
  match o with
  | RString _ => RDB_TYPE_STRING
  | RSet (SetIntset _) => RDB_TYPE_SET_INTSET
  | RSet (SetHT _) => RDB_TYPE_SET
  | RHash (HashZiplist _) => RDB_TYPE_HASH_ZIPLIST
  | RHash (HashHT _) => RDB_TYPE_HASH
  end.

Lemma saves_type o : saves (rdbSaveObjectType buf_addr o) [type_byte o] 1 /\ loads (rdbLoadObjectType buf_addr) [type_byte o] (fun t => t = type_byte o).
Proof.
  assert (0 <= type_byte o < 256 /\ rdbIsObjectType (type_byte o) = true) as [Hb Ht] by (by destruct o as [|[]|[]]). split.
  - replace (rdbSaveObjectType buf_addr o) with (rdbSaveType (B := B) buf_addr (type_byte o)) by (by destruct o as [|[]|[]]).
    apply (saves_raw buf_addr [type_byte o]). apply Forall_singleton. unfold is_byte. lia.
  - unfold rdbLoadObjectType, rdbLoadType. eapply loads_end; [apply loads_byte|]. intros ? ->. rewrite Ht. by apply loads_ret.
Qed.

Lemma size_of_le L : Forall elem_ok L -> size_of L <= zlen L * 4294967310.
Proof. induction 1 as [|s L (_ & Hl & _) _ IH]; [done|]. cbn [size_of foldr]. fold (size_of L). rewrite zlen_cons. lia. Qed.

Lemma set_entries_saves L bss : Forall2 elem_bytes L bss ->
  forall l : list (bytes * unit), l.*1 = L -> Forall2 (saves_entry (save_set_entry buf_addr rdb_compression htab a0 a1)) l bss.
Proof.
  induction 1 as [|x bs L bss Hx _ IH]; intros [|[y []] l] E; try done. injection E as -> E. constructor; [by apply set_entry_saves|by apply IH].
Qed.

Abbreviation object_saves o v := (exists bs,
  saves (rdbSaveObject buf_addr rdb_compression htab a0 a1 o) bs (zlen bs) /\ 0 < zlen bs < 2 ^ 61 + 16 /\
  loads (rdbLoadObject buf_addr mm mp can set_max hash_max_entries hash_max_value a0 a1 load_other (type_byte o)) bs (fun x => obj_repr x v)).

Lemma set_object_saves d : dict_wf d -> Forall elem_ok (entries d).*1 -> zlen (entries d).*1 < INTSET_MAX ->
  object_saves (RSet (SetHT d)) (ASet (list_to_set (entries d).*1)).
Proof.
  intros Hwf Hok Hmax. destruct (elems_bytes _ Hok) as (bss & Hl). pose proof (size_bound _ _ Hl). pose proof (size_of_le _ Hok).
  pose proof (zlen_len_bytes (zlen (entries d))). pose proof (zlen_nonneg (concat bss)).
  pose proof (elems_nodup (SetHT d) _ (ElemsHT d Hwf)) as Hn. unfold INTSET_MAX in Hmax.
  assert (zlen (entries d) = zlen (entries d).*1) as Hz by (unfold zlen; by rewrite length_fmap).
  exists (len_bytes (zlen (entries d)) ++ concat bss). split; [apply saves_table; [done|unfold DICT_BOUND; lia|by eapply set_entries_saves]|].
  split; [rewrite zlen_app; lia|]. rewrite Hz. apply loads_set; [done|done|done|unfold INTSET_MAX; lia].
Qed.

Lemma hash_object_saves d : dict_wf d -> Forall elem_ok (flat (entries d)) -> zlen (entries d) <= PAIRS_MAX -> size_of (flat (entries d)) < 2 ^ 61 ->
  (zlen (entries d) <= hash_max_entries -> 11 + pushed_cost (entries d) < 4294967296) -> object_saves (RHash (HashHT d)) (AHash (pmap (entries d))).
Proof.
  intros Hwf Hok Hmax Hsz Hcost. destruct (pairs_bytes _ Hok) as (bss & Hl & Hb). pose proof (zlen_len_bytes (zlen (entries d))). pose proof (zlen_nonneg (concat bss)).
  exists (len_bytes (zlen (entries d)) ++ concat bss). split; [|split; [rewrite zlen_app; lia|]].
  - apply saves_table; [done|unfold DICT_BOUND, PAIRS_MAX in *; lia|]. eapply Forall2_impl; [exact Hl|]. apply hash_entry_saves.
  - apply loads_hash; try done. apply Hwf.
Qed.

Lemma saveable_saves o v : saveable o v -> object_saves o v.
Proof.
  assert (forall f (g : loader robj) P, (exists bs, saves f bs (zlen bs) /\ 0 < zlen bs < 4294967296 + 15 /\ loads g bs P) ->
    exists bs, saves f bs (zlen bs) /\ 0 < zlen bs < 2 ^ 61 + 16 /\ loads g bs P) as Hsmall.
  { intros f g P (bs & Hs & Hb & Hl). exists bs. split; [done|]. split; [lia|done]. }
  destruct o as [o|o|o], v as [c|X|m]; try done; cbn [saveable].
  - intros (Ho & Hb & Hl). by apply Hsmall, saves_str.
  - intros (L & He & -> & Hok & Hmax). destruct He as [iset l Hr Hmin|d Hwf]; [|by apply set_object_saves].
    apply Hsmall, saves_intset; [done| |done]. unfold zlen, numerals in *. by rewrite length_fmap in Hmax.
  - intros (n & ps & Hp & -> & Ho). destruct Hp as [zl ps Hz Hn Hpr Hr|d Hwf]; [by apply Hsmall, (saves_hash_block n); [constructor|]|].
    destruct Ho as (Hok & Hmax & Hsz & Hc). by apply hash_object_saves.
Qed.

(** The size is found without a stream. *)
Lemma saved_len o bs : saves (rdbSaveObject buf_addr rdb_compression htab a0 a1 o) bs (zlen bs) -> zlen bs < SDS_BOUND ->
  rdbSavedObjectLen (B := B) buf_addr rdb_compression htab a0 a1 o = Some (zlen bs).
Proof.
  intros (_ & _ & Hs) Hb. destruct (Hs None [] I) as (rdb' & n & E & _ & Hn); [rewrite zlen_nil; lia|].
  unfold rdbSavedObjectLen. rewrite E. cbn [mbind option_bind]. destruct Hn as [[-> _]|(_ & _ & ?)]; [|done]. pose proof (zlen_nonneg bs). by zbool.
Qed.

Lemma loads_typed o v bs :
  loads (rdbLoadObject buf_addr mm mp can set_max hash_max_entries hash_max_value a0 a1 load_other (type_byte o)) bs (fun x => obj_repr x v) ->
  loads (lbind (rdbLoadObjectType buf_addr) (rdbLoadObject buf_addr mm mp can set_max hash_max_entries hash_max_value a0 a1 load_other))
    (type_byte o :: bs) (fun x => obj_repr x v).
Proof. intros Hl. apply (loads_bind _ _ [type_byte o] bs (fun t => t = type_byte o)); [apply saves_type|]. by intros ? ->. Qed.
End Props.

(** ** The payload of DUMP *)

Section Payload.
#[local] Opaque crc64.
Context `{FreshMem} `{DictType bytes} (buf_addr : bytes -> Z).

Lemma verify_footer d v0 v1 f rest : bytes_ok (d ++ [v0; v1] ++ f) -> zlen f = 8 ->
  verifyDumpPayload buf_addr ((d ++ [v0; v1] ++ f) ++ rest) (zlen (d ++ [v0; v1] ++ f)) =
    Some ((v1 * 256 + v0 <=? RDB_VERSION) && (foldl bstep 0 (d ++ [v0; v1] ++ f) =? 0)).
Proof.
  intros Hb Hf. assert (zlen (d ++ [v0; v1]) = zlen d + 2) as Hl2 by (rewrite zlen_app; done).
  assert (zlen (d ++ [v0; v1] ++ f) = zlen d + 10) as Hl by (rewrite app_assoc, zlen_app; lia).
  assert (bytes_ok (d ++ [v0; v1]) /\ bytes_ok f) as [Hd Hbf] by (apply Forall_app; by rewrite <- app_assoc).
  assert (is_byte v0 /\ is_byte v1) as [Hv0 Hv1].
  { apply Forall_app in Hd as [_ Hv]. apply Forall_cons_1 in Hv as [? Hv]. by apply Forall_cons_1 in Hv as [? _]. }
  pose proof (zlen_nonneg d). unfold verifyDumpPayload. rewrite Hl. zfalse (zlen d + 10 <? 10).
  assert (znth ((d ++ [v0; v1] ++ f) ++ rest) (zlen d + 10 - 10 + 1) = Some v1) as E1
    by (apply (znth_at (d ++ [v0]) v1 (f ++ rest)); [lapp|rewrite zlen_app, zlen_cons, zlen_nil; lia]).
  assert (znth ((d ++ [v0; v1] ++ f) ++ rest) (zlen d + 10 - 10) = Some v0) as E0 by (apply (znth_at d v0 (v1 :: f ++ rest)); [lapp|lia]).
  rewrite E1. cbn [mbind option_bind]. rewrite E0. cbn [mbind option_bind].
  unfold is_byte in *. rewrite lor_shiftl by lia. unfold u16, wrapu. change (2 ^ 8) with 256. rewrite Z.mod_small by lia.
  rewrite Z.gtb_ltb, Z.leb_antisym. destruct (RDB_VERSION <? v1 * 256 + v0); [done|]. cbn [negb andb].
  replace ((d ++ [v0; v1] ++ f) ++ rest) with ((d ++ [v0; v1]) ++ f ++ rest) by lapp.
  replace (zlen d + 10 - 8) with (zlen (d ++ [v0; v1])) by lia. 
  pose proof (crc64_spec 0 (buf_addr ((d ++ [v0; v1]) ++ f ++ rest)) (d ++ [v0; v1]) (f ++ rest) word_0 Hd) as Ecrc. rewrite Ecrc. cbn [mbind option_bind].
  rewrite (load_at (d ++ [v0; v1]) f rest); [|done|lia|done]. cbn [mbind option_bind].
  pose proof (word_fold (d ++ [v0; v1]) 0 word_0 Hd) as Hw. pose proof (fold_self _ f Hw Hbf Hf) as Hself.
  rewrite <- (foldl_app bstep (d ++ [v0; v1])), <- app_assoc in Hself. set (crc := foldl bstep 0 (d ++ [v0; v1])) in *.
  assert (length f = 8%nat) as Hf8 by (unfold zlen in Hf; lia).
  destruct (memcmp_eq 8 (le_bytes 8 crc) f) as (m & -> & Hm); [by rewrite length_le_bytes|lia|]. cbn [mbind option_bind]. f_equal.
  apply eq_true_iff_eq. rewrite !Z.eqb_eq, Hm, Hself, !take_ge by (rewrite ?length_le_bytes; lia).
  rewrite <- (le_bytes_val f Hbf) at 1. rewrite Hf8. split; [|by intros ->]. intros E. apply (f_equal le_val) in E. rewrite !le_val_bytes in E.
  pose proof (le_val_range f Hbf). unfold word in Hw. rewrite !Z.mod_small in E; [done|..]; rewrite ?Hf in *; cbn in *; lia.
Qed.

Lemma footer_split (c : bytes) : 10 <= zlen c -> exists d v0 v1 f, c = d ++ [v0; v1] ++ f /\ zlen f = 8.
Proof.
  intros Hl. destruct (zsplit (zlen c - 10) c) as (d & x & -> & Hd & Hx); [lia|]. rewrite zlen_app in *. destruct x as [|v0 [|v1 f]]; [rewrite ?zlen_cons, ?zlen_nil in *; lia..|].
  exists d, v0, v1, f. rewrite !zlen_cons in Hx. split; [done|lia].
Qed.

(** A payload that is accepted is a multiple of the polynomial. *)
Lemma verify_fold c rest : bytes_ok c -> exists ok, verifyDumpPayload buf_addr (c ++ rest) (zlen c) = Some ok /\ (ok = true -> foldl bstep 0 c = 0).
Proof.
  intros Hb. destruct (Z.lt_ge_cases (zlen c) 10) as [Hl|Hl].
  - exists false. unfold verifyDumpPayload. by zbool.
  - destruct (footer_split c Hl) as (d & v0 & v1 & f & -> & Hf). rewrite verify_footer by done. eexists. split; [done|].
    intros [_ E]%andb_true_iff. by apply Z.eqb_eq in E.
Qed.

Lemma verify_sds s c free : sds_repr s c free -> exists rest, buf s = c ++ rest /\ sdslen s = zlen c.
Proof. intros Hs. destruct (at_buf _ _ _ _ Hs) as (junk & -> & _). exists (0 :: junk). split; [lapp|by apply (at_len _ _ _ _ Hs)]. Qed.

(** The footer that createDumpPayload adds. *)
Lemma footer_spec s d free : sds_repr s d free -> bytes_ok d -> zlen d + 10 < SDS_BOUND ->
  exists s1 s' f free', sdscatlen s [RDB_VERSION; 0] 2 = Some s1 /\
    (crc ← crc64 0 (buf_addr (buf s1)) (buf s1) (sdslen s1); sdscatlen s1 (le_bytes 8 crc) 8) = Some s' /\
    sds_repr s' (d ++ [RDB_VERSION; 0] ++ f) free' /\ bytes_ok f /\ zlen f = 8 /\ foldl bstep 0 (d ++ [RDB_VERSION; 0] ++ f) = 0.
Proof.
  intros Hs Hd Hl. destruct (catlen_spec s d free [RDB_VERSION; 0] [RDB_VERSION; 0] 2 Hs) as (s1 & free1 & E1 & Hs1); [done|done|lia|].
  set (d1 := d ++ [RDB_VERSION; 0]) in *. assert (zlen d1 = zlen d + 2) as Hl1 by (unfold d1; rewrite zlen_app; done).
  assert (bytes_ok d1) as Hd1 by (apply Forall_app; split; [done|]; by repeat constructor).
  destruct (verify_sds s1 d1 free1 Hs1) as (rest & Eb & El). pose proof (crc64_spec 0 (buf_addr (buf s1)) d1 rest word_0 Hd1) as Ecrc.
  set (crc := foldl bstep 0 d1) in *. set (f := le_bytes 8 crc).
  assert (zlen f = 8) as Hf by apply zlen_le_bytes. assert (bytes_ok f) as Hbf by apply le_bytes_ok.
  destruct (catlen_spec s1 d1 free1 f f 8 Hs1) as (s' & free' & E2 & Hs'); [|done|lia|].
  { rewrite <- (app_nil_r f) at 1. rewrite <- Hf. apply load_prefix. }
  exists s1, s', f, free'. split; [done|]. rewrite <- Eb, <- El in Ecrc. split; [rewrite Ecrc; cbn [mbind option_bind]; exact E2|].
  rewrite app_assoc. fold d1. split; [done|]. split; [done|]. split; [done|]. rewrite foldl_app. fold crc.
  pose proof (word_fold d1 0 word_0 Hd1) as Hw. apply (fold_self crc f Hw Hbf Hf). unfold f. rewrite le_val_bytes. apply Z.mod_small. exact Hw.
Qed.
End Payload.

(** ** Theorems *)

(** C5. A string, set or hash saved on a stream and loaded from a stream is the same value: the
    saver announces the number of bytes it writes, writes the type and these bytes or stops
    with -1, which a device that never fails excludes, and the loader that finds them ahead
    takes exactly them and builds an object of the same value. Compression, the limits of
    the encodings, the chunks of the streams and the hash functions do not matter. *)
Theorem rdb_object_roundtrip {B : Type} `{RioLaws B} `{FreshMem} `{DictType bytes} buf_addr rdb_compression htab mm mp can
    set_max hash_max_entries hash_max_value a0 a1 (load_other : Z -> loader (B := B) robj) (o : robj) (v : aval) (r : rio B) w :
  (forall i, 0 <= htab i < 4294967296) -> saveable hash_max_entries hash_max_value o v -> wstate r w -> zlen w < 2 ^ 60 ->
  exists bs, rdbSavedObjectLen (B := B) buf_addr rdb_compression htab a0 a1 o = Some (zlen bs) /\
    (exists r' n, sbind (rdbSaveObjectType buf_addr o) (fun _ => rdbSaveObject buf_addr rdb_compression htab a0 a1 o) (Some r) = Some (Some r', n) /\
      (n = zlen bs /\ wstate r' (w ++ type_byte o :: bs) \/ n = -1 /\ reliable = false)) /\
    forall rd p i, reliable = true -> rstate rd p (type_byte o :: bs ++ i) ->
      exists rd' x, lbind (rdbLoadObjectType buf_addr)
          (rdbLoadObject buf_addr mm mp can set_max hash_max_entries hash_max_value a0 a1 load_other) rd = Some (rd', Got x) /\
        obj_repr x v /\ rstate rd' (p ++ type_byte o :: bs) i.
Proof.
  intros Hh Ho Hw Hl.
  destruct (saveable_saves buf_addr rdb_compression htab mm mp Hh can set_max hash_max_entries hash_max_value a0 a1 load_other o v Ho) as (bs & Hs & Hb & Hld).
  exists bs. split; [|split].
  - apply saved_len; [done|unfold SDS_BOUND; lia].
  - pose proof (saves_type (B := B) buf_addr o) as [Ht _]. 
    destruct (saves_bind _ (fun _ => rdbSaveObject buf_addr rdb_compression htab a0 a1 o) _ _ _ _ Ht Hs) as (_ & _ & Hts).
    destruct (Hts (Some r) w Hw) as (rdb' & n & E & Hss & Hn); [rewrite zlen_app, zlen_cons, zlen_nil; unfold SDS_BOUND; lia|].
    destruct rdb' as [r'|]; [|done]. exists r', n. split; [exact E|]. destruct Hn as [Hn|(-> & Hrel & _)]; [left; exact Hn|by right].
  - intros rd p i Hrel Hr. destruct (loads_typed buf_addr mm mp can set_max hash_max_entries hash_max_value a0 a1 load_other o v bs Hld rd p i Hrel Hr) as
      (rd' & x & E & _ & Hx & Hr'). by exists rd', x.
Qed.

Lemma buffer_wstate `{FreshMem} s c free : sds_repr s c free -> c = [] -> wstate (rioInitWithBuffer s) c.
Proof. intros Hs ->. split; [done|]. split; [by exists free|]. split; [constructor|]. by split. Qed.

Lemma buffer_rstate `{FreshMem} s c free : sds_repr s c free -> bytes_ok c -> zlen c < SDS_BOUND -> rstate (rioInitWithBuffer s) [] c.
Proof. intros Hs Hb Hl. split; [done|]. split; [by exists [], free|]. split; [split; [constructor|by split]|done]. Qed.

(** The steps of createDumpPayload. *)
Lemma payload_spec `{FreshMem} `{DictType bytes} buf_addr rdb_compression htab a0 a1 o bs :
  saves (B := rio_buffer) (rdbSaveObject buf_addr rdb_compression htab a0 a1 o) bs (zlen bs) -> 0 < zlen bs < 2 ^ 61 + 16 ->
  exists p f free, createDumpPayload buf_addr rdb_compression htab a0 a1 o = Some p /\ zlen f = 8 /\ bytes_ok (type_byte o :: bs ++ [RDB_VERSION; 0] ++ f) /\
    sds_repr p (type_byte o :: bs ++ [RDB_VERSION; 0] ++ f) free /\ foldl bstep 0 (type_byte o :: bs ++ [RDB_VERSION; 0] ++ f) = 0.
Proof.
  intros (Hbok & _ & Hs) Hb. unfold createDumpPayload. destruct empty_spec as (s0 & -> & Hs0). cbn [mbind option_bind].
  pose proof (saves_type (B := rio_buffer) buf_addr o) as [(Htok & _ & Ht) _].
  destruct (Ht (Some (rioInitWithBuffer s0)) []) as ([r1|] & n1 & -> & Hss1 & Hn1); [by eapply buffer_wstate|rewrite zlen_cons, zlen_nil; unfold SDS_BOUND; lia| |done].
  destruct Hn1 as [[-> Hw1]|(_ & ? & _)]; [|done]. cbn [mbind option_bind]. change (1 =? 0) with false. cbv iota.
  destruct (Hs (Some r1) [type_byte o] Hw1) as ([r2|] & n2 & -> & Hss2 & Hn2); [rewrite zlen_cons, zlen_nil; unfold SDS_BOUND; lia| |done].
  destruct Hn2 as [[-> Hw2]|(_ & ? & _)]; [|done]. cbn [mbind option_bind]. zfalse (zlen bs =? 0). cbv iota.
  destruct Hw2 as (_ & [free Hp] & Hcok & _). change ([] ++ [type_byte o]) with [type_byte o] in *. change ([type_byte o] ++ bs) with (type_byte o :: bs) in *.
  destruct (footer_spec buf_addr _ _ _ Hp Hcok) as (s1 & p & f & free' & E1 & E2 & Hp' & Hbf & Hf & Hfold); [rewrite zlen_cons; unfold SDS_BOUND; lia|].
  exists p, f, free'. change [Z.land RDB_VERSION 255; Z.land (Z.shiftr RDB_VERSION 8) 255] with [RDB_VERSION; 0]. rewrite E1. cbn [mbind option_bind].
  split; [exact E2|]. split; [done|]. split; [|split; [exact Hp'|exact Hfold]].
  apply (Forall_app is_byte (type_byte o :: bs)). split; [done|]. apply Forall_app. split; [by repeat constructor|done].
Qed.

(** C14. DUMP makes a payload for every value that can be saved, and RESTORE accepts it and
    rebuilds the value, also on a server with other limits. *)
Theorem dump_roundtrip `{FreshMem} `{DictType bytes} buf_addr rdb_compression htab mm mp can
    set_max hash_max_entries hash_max_value a0 a1 load_other (o : robj) (v : aval) :
  (forall i, 0 <= htab i < 4294967296) -> saveable hash_max_entries hash_max_value o v ->
  exists p x, createDumpPayload buf_addr rdb_compression htab a0 a1 o = Some p /\
    load_payload buf_addr a0 a1 mm mp can set_max hash_max_entries hash_max_value load_other p = Some (Got x) /\ obj_repr x v.
Proof.
  intros Hh Ho. destruct (saveable_saves (B := rio_buffer) buf_addr rdb_compression htab mm mp Hh can set_max hash_max_entries hash_max_value a0 a1 load_other o v Ho)
    as (bs & Hs & Hb & Hld).
  destruct (payload_spec buf_addr rdb_compression htab a0 a1 o bs Hs Hb) as (p & f & free & E & Hf & Hbok & Hp & Hfold).
  set (c := type_byte o :: bs ++ [RDB_VERSION; 0] ++ f) in *. assert (zlen c = zlen bs + 11) as Hc by (unfold c; rewrite zlen_cons, !zlen_app, zlen_cons, zlen_cons, zlen_nil; lia).
  destruct (loads_typed buf_addr mm mp can set_max hash_max_entries hash_max_value a0 a1 load_other o v bs Hld (rioInitWithBuffer p) [] ([RDB_VERSION; 0] ++ f)) as (r' & x & Ex & _ & Hx & _);
    [done|by apply (buffer_rstate p c free); [done|done|unfold SDS_BOUND; lia]|].
  exists p, x. split; [exact E|]. split; [|exact Hx]. destruct (verify_sds p c free Hp) as (rest & Eb & El).
  unfold load_payload. rewrite Eb, El. pose proof (verify_footer buf_addr (type_byte o :: bs) RDB_VERSION 0 f rest Hbok Hf) as Ev.
  change ((type_byte o :: bs) ++ [RDB_VERSION; 0] ++ f) with c in Ev. rewrite Ev, Hfold. cbn [mbind option_bind].
  change ((0 * 256 + RDB_VERSION <=? RDB_VERSION) && (0 =? 0)) with true. cbn [negb]. cbv iota.
  exact (f_equal (mbind (fun '(_, r) => Some r)) Ex).
Qed.

(** C15. A payload that RESTORE accepts is no longer accepted after a change within eight
    consecutive bytes, wherever they are: in the contents, the version or the checksum. *)
Theorem dump_detects_burst `{FreshMem} `{DictType bytes} buf_addr mm mp can set_max hash_max_entries hash_max_value a0 a1 load_other s s' a w w' b free free' :
  sds_repr s (a ++ w ++ b) free -> sds_repr s' (a ++ w' ++ b) free' -> bytes_ok (a ++ w ++ b) -> bytes_ok w' ->
  length w = length w' -> zlen w <= 8 -> w <> w' -> verifyDumpPayload buf_addr (buf s) (sdslen s) = Some true ->
  verifyDumpPayload buf_addr (buf s') (sdslen s') = Some false /\
  load_payload buf_addr a0 a1 mm mp can set_max hash_max_entries hash_max_value load_other s' = Some Null.
Proof.
  intros Hs Hs' Hb Hw' Hl H8 Hne Hv. assert (bytes_ok a /\ bytes_ok w /\ bytes_ok b) as (Ha & Hw & Hbb) by (unfold bytes_ok in *; by rewrite !Forall_app in Hb).
  assert (bytes_ok (a ++ w' ++ b)) as Hb' by (unfold bytes_ok; by rewrite !Forall_app).
  destruct (verify_sds s _ free Hs) as (rest & Eb & El). destruct (verify_sds s' _ free' Hs') as (rest' & Eb' & El').
  destruct (verify_fold buf_addr _ rest Hb) as (ok & E & Hok). destruct (verify_fold buf_addr _ rest' Hb') as (ok' & E' & Hok').
  rewrite Eb, El, E in Hv. injection Hv as ->. specialize (Hok eq_refl).
  assert (ok' = false) as ->.
  { destruct ok'; [|reflexivity]. exfalso. specialize (Hok' eq_refl). apply Hne. apply (fold_burst (foldl bstep 0 a) w w' b); try assumption.
    - exact (word_fold a 0 word_0 Ha).
    - rewrite <- !foldl_app, Hok, Hok'. reflexivity. }
  rewrite Eb', El', E'. split; [reflexivity|]. unfold load_payload. rewrite Eb', El', E'. reflexivity.
Qed.

(** ** Concrete objects and payloads *)

#[local] Existing Instance bytes_dict_type.

Lemma demo_set_saveable : saveable 512 64 (RSet demo_setobj) (ASet (list_to_set [bytes_of_string "x"; bytes_of_string "5"])).
Proof.
  destruct demo_setobj_repr as (L & He & _).
  assert (exists d, demo_setobj = SetHT d /\ (entries d).*1 = [bytes_of_string "x"; bytes_of_string "5"]) as (d & Ed & El)
    by (eexists; split; vm_compute; reflexivity).
  rewrite Ed in *. exists [bytes_of_string "x"; bytes_of_string "5"]. rewrite <- El at 1. split; [inversion He; subst; by constructor|]. split; [done|]. split; [|done].
  repeat constructor; try (vm_compute; congruence).
Qed.

Lemma demo_string_saveable : saveable 512 64 (RString demo_raw) (AStr (bytes_of_string "-70")).
Proof. split; [exact demo_raw_repr|]. split; [|done]. by repeat constructor. Qed.

Lemma rdb_object_roundtrip_witness :
  exists s bs, sdsempty = Some s /\
    rdbSavedObjectLen (B := rio_buffer) (fun _ => 0) true (fun _ => 0) 0 0 (RSet demo_setobj) = Some (zlen bs) /\
    exists r', sbind (rdbSaveObjectType (fun _ => 0) (RSet demo_setobj)) (fun _ => rdbSaveObject (fun _ => 0) true (fun _ => 0) 0 0 (RSet demo_setobj))
        (Some (rioInitWithBuffer s)) = Some (Some r', zlen bs) /\ wstate r' (type_byte (RSet demo_setobj) :: bs).
Proof.
  destruct empty_spec as (s & E & Hs). pose proof (buffer_wstate s [] 0 Hs eq_refl) as Hw.
  destruct (rdb_object_roundtrip (fun _ => 0) true (fun _ => 0) 0 0 true 512 512 64 0 0 (fun _ => lnull) (RSet demo_setobj) _ (rioInitWithBuffer s) []
    ltac:(intros; lia) demo_set_saveable Hw ltac:(rewrite zlen_nil; lia)) as (bs & E1 & (r' & n & E2 & Hn) & _).
  exists s, bs. split; [exact E|]. split; [exact E1|]. exists r'. destruct Hn as [[-> Hw']|[_ Hf]]; [|discriminate Hf]. exact (conj E2 Hw').
Defined.

Lemma dump_roundtrip_witness :
  exists p x, createDumpPayload (fun _ => 0) true (fun _ => 0) 0 0 (RString demo_raw) = Some p /\
    load_payload (fun _ => 0) 0 0 0 0 true 512 512 64 (fun _ => lnull) p = Some (Got x) /\ obj_repr x (AStr (bytes_of_string "-70")).
Proof.
  exact (dump_roundtrip (fun _ => 0) true (fun _ => 0) 0 0 true 512 512 64 0 0 (fun _ => lnull) (RString demo_raw) (AStr (bytes_of_string "-70"))
    ltac:(intros; lia) demo_string_saveable).
Defined.

(** The payload of that string, and the same with other contents. *)
Definition demo_payload (n : Z) : sds := mk_sds SDS_TYPE_8 13 13 [0; 192; n; 9; 0; 146; 84; 86; 208; 232; 76; 78; 208; 0].

Lemma demo_payload_repr n : sds_repr (demo_payload n) ([0; 192] ++ [n] ++ [9; 0; 146; 84; 86; 208; 232; 76; 78; 208]) 0.
Proof.
  split; [apply hdr_n; vm_compute; (done || split; congruence)|]. exists []. split; [done|]. split; [vm_compute; congruence|by right].
Qed.

Lemma dump_detects_burst_witness :
  verifyDumpPayload (fun _ => 0) (buf (demo_payload 187)) (sdslen (demo_payload 187)) = Some false /\
  load_payload (fun _ => 0) 0 0 0 0 true 512 512 64 (fun _ => lnull) (demo_payload 187) = Some Null.
Proof.
  apply (dump_detects_burst (fun _ => 0) 0 0 true 512 512 64 0 0 (fun _ => lnull) (demo_payload 186) (demo_payload 187) [0; 192] [186] [187]
    [9; 0; 146; 84; 86; 208; 232; 76; 78; 208] 0 0 (demo_payload_repr 186) (demo_payload_repr 187)); [|..|discriminate|vm_compute; reflexivity];
    [by repeat constructor|by repeat constructor|reflexivity|vm_compute; congruence].
Defined.
