(* ===== verification/RdbFile.v ===== *)
(** * RDB files (rdb.c)

    A file is the magic string with the version, auxiliary fields, the keys of every
    database with their expire times, the end marker and a checksum.  The saver walks
    the dictionaries with a safe iterator; the loader reads one opcode after the other,
    keeps the attributes of the next key, and drops keys that have expired when the
    server is a master.

    Access times are not modelled: what the saver writes of them is a parameter, and the
    loader skips them.  Neither are the events that are processed while a file is
    loaded, the differences a child collects for the append only file, and the data of
    modules, which are parameters. *)

From stdpp Require Import base list numbers option strings gmap sets.
From Stdlib Require Import ZArith Lia.
From S2P Require Import Prelude Util Lzf Sds SdsText Dict DictMap DictIter Object SetType HashType Db Crc Rio Rdb RdbObject.

Definition RDB_OPCODE_MODULE_AUX : Z := 247.
Definition RDB_OPCODE_IDLE : Z := 248.
Definition RDB_OPCODE_FREQ : Z := 249.
Definition RDB_OPCODE_AUX : Z := 250.
Definition RDB_OPCODE_RESIZEDB : Z := 251.
Definition RDB_OPCODE_EXPIRETIME_MS : Z := 252.
Definition RDB_OPCODE_EXPIRETIME : Z := 253.
Definition RDB_OPCODE_SELECTDB : Z := 254.
Definition RDB_OPCODE_EOF : Z := 255.
Definition RDBFLAGS_AOF_PREAMBLE : Z := 1.
Definition RDBFLAGS_ALLOW_DUP : Z := 4.
Definition MAXMEMORY_FLAG_LRU : Z := 1.
Definition MAXMEMORY_FLAG_LFU : Z := 2.
Definition CONFIG_RUN_ID_SIZE : Z := 40.
Definition AUX_BEFORE_RDB : Z := 1.
Definition AUX_AFTER_RDB : Z := 2.
Definition REDIS_VERSION : bytes := bytes_of_string "6.0.10".

Record rdbSaveInfo := mk_rsi { repl_stream_db : Z; repl_id_is_set : bool; repl_id : bytes; repl_offset : Z }.

Section File.
Context {B : Type} `{RioDevice B} `{FreshMem} `{DictType bytes}.
Context (buf_addr : bytes -> Z) (rdb_compression rdb_checksum : bool) (htab : LZF_STATE) (maxmemory maxmemory_policy : Z).
Context (cfg : config) (set_max_intset_entries hash_max_ziplist_entries hash_max_ziplist_value : Z) (a0 a1 : Z).
Context (load_other : Z -> loader (B := B) robj).

Abbreviation saver := (saver (B := B)).
Abbreviation loader := (loader (B := B)).
Abbreviation rdbSaveType := (rdbSaveType buf_addr).
Abbreviation rdbSaveLen := (rdbSaveLen buf_addr).
Abbreviation rdbSaveRawString := (rdbSaveRawString buf_addr rdb_compression htab).
Abbreviation load_len := (load_len buf_addr).

(** ** Saving *)

Section Save.
(** estimateObjectIdleTime and LFUDecrAndReturn of an object, the clock in seconds, the
    memory in use, the replication identifier and offset, the bodies of the scripts in
    the order of an iteration, and what modules save. *)
Context (estimateObjectIdleTime LFUDecrAndReturn : robj -> Z).
Context (time_now used_memory : Z) (replid : bytes) (master_repl_offset : Z) (lua_scripts : list bytes) (rdbSaveModulesAux : Z -> saver).

(** The key is a static object around the string of the dictionary. *)
Definition rdbSaveKeyValuePair (key : bytes) (val : robj) (expiretime : Z) : saver :=
  let savelru := negb (Z.land maxmemory_policy MAXMEMORY_FLAG_LRU =? 0) in
  let savelfu := negb (Z.land maxmemory_policy MAXMEMORY_FLAG_LFU =? 0) in
  _ ⇐ (if negb (expiretime =? -1) then
         _ ⇐ rdbSaveType RDB_OPCODE_EXPIRETIME_MS; rdbSaveMillisecondTime buf_addr expiretime
       else written 0);
  _ ⇐ (if savelru then
         _ ⇐ rdbSaveType RDB_OPCODE_IDLE; rdbSaveLen (estimateObjectIdleTime val / 1000)
       else written 0);
  _ ⇐ (if savelfu then
         _ ⇐ rdbSaveType RDB_OPCODE_FREQ; rdbWriteRaw buf_addr [u8 (LFUDecrAndReturn val)]
       else written 0);
  _ ⇐ rdbSaveObjectType buf_addr val;
  _ ⇐ save_sds buf_addr rdb_compression htab key;
  _ ⇐ rdbSaveObject buf_addr rdb_compression htab a0 a1 val;
  written 1.

(** [key] and [val] point to [keylen] and [vallen] bytes. *)
Definition rdbSaveAuxField (key : bytes) (keylen : Z) (val : bytes) (vallen : Z) : saver :=
  n1 ⇐ rdbSaveType RDB_OPCODE_AUX;
  n2 ⇐ rdbSaveRawString key keylen;
  n3 ⇐ rdbSaveRawString val vallen;
  written (n1 + n2 + n3).

(** The arguments are strings without their terminators. *)
Definition rdbSaveAuxFieldStrStr (key val : bytes) : saver := rdbSaveAuxField (key ++ [0]) (zlen key) (val ++ [0]) (zlen val).

Definition rdbSaveAuxFieldStrInt (key : bytes) (val : Z) : saver := fun rdb =>
  '(vlen, buf) ← ll2string (malloc LONG_STR_SIZE) LONG_STR_SIZE val;
  rdbSaveAuxField (key ++ [0]) (zlen key) buf vlen rdb.

Definition rdbSaveInfoAuxFields (rdbflags : Z) (rsi : option rdbSaveInfo) : saver :=
  let aof_preamble := if negb (Z.land rdbflags RDBFLAGS_AOF_PREAMBLE =? 0) then 1 else 0 in
  _ ⇐ rdbSaveAuxFieldStrStr (bytes_of_string "redis-ver") REDIS_VERSION;
  _ ⇐ rdbSaveAuxFieldStrInt (bytes_of_string "redis-bits") 64;
  _ ⇐ rdbSaveAuxFieldStrInt (bytes_of_string "ctime") time_now;
  _ ⇐ rdbSaveAuxFieldStrInt (bytes_of_string "used-mem") used_memory;
  _ ⇐ match rsi with
      | Some rsi =>
          _ ⇐ rdbSaveAuxFieldStrInt (bytes_of_string "repl-stream-db") (repl_stream_db rsi);
          _ ⇐ rdbSaveAuxFieldStrStr (bytes_of_string "repl-id") replid;
          rdbSaveAuxFieldStrInt (bytes_of_string "repl-offset") master_repl_offset
      | None => written 0
      end;
  _ ⇐ rdbSaveAuxFieldStrInt (bytes_of_string "aof-preamble") aof_preamble;
  written 1.

(** A saver on a stream that is there. *)
Definition on_rio (f : saver) (r : rio B) : option (rio B * Z) := '(x, n) ← f (Some r); r ← x; Some (r, n).

(** The loop over the keys of a database: [false] is the jump to werr, which releases
    the iterator like the end of the loop. *)
Fixpoint save_keys (fuel : nat) (db : state robj) (di : @dictIterator bytes) (r : rio B) : option (rio B * state robj * bool) :=
  match fuel with
  | O => None
  | S fuel =>
      '(d, di, de) ← dictNext a0 a1 (db_dict db) di;
      let db := mk_state d (db_expires db) (st_stats db) in
      match de with
      | None => d ← dictReleaseIterator a0 a1 d di; Some (r, mk_state d (db_expires db) (st_stats db), true)
      | Some (keystr, o) =>
          '(db, expire) ← getExpire keystr db;
          '(r, n) ← on_rio (rdbSaveKeyValuePair keystr o expire) r;
          if n =? -1 then
            d ← dictReleaseIterator a0 a1 (db_dict db) di; Some (r, mk_state d (db_expires db) (st_stats db), false)
          else save_keys fuel db di r
      end
  end.

(** One database: [continue] when it is empty.  The fresh iterator has nothing to release. *)
Definition save_db (j : Z) (db : state robj) (r : rio B) : option (rio B * state robj * bool) :=
  if dictSize (db_dict db) =? 0 then Some (r, db, true) else
  '(r, n) ← on_rio (_ ⇐ rdbSaveType RDB_OPCODE_SELECTDB;
                    _ ⇐ rdbSaveLen j;
                    _ ⇐ rdbSaveType RDB_OPCODE_RESIZEDB;
                    _ ⇐ rdbSaveLen (dictSize (db_dict db));
                    rdbSaveLen (dictSize (db_expires db))) r;
  if n =? -1 then Some (r, db, false) else
  save_keys (S (Z.to_nat (dictSize (db_dict db)))) db dictGetSafeIterator r.

Fixpoint save_dbs (j : Z) (dbs : list (state robj)) (r : rio B) : option (rio B * list (state robj) * bool) :=
  match dbs with
  | [] => Some (r, [], true)
  | db :: dbs =>
      '(r, db, ok) ← save_db j db r;
      if ok : bool then '(r, dbs, ok) ← save_dbs (j + 1) dbs r; Some (r, db :: dbs, ok)
      else Some (r, db :: dbs, false)
  end.

Fixpoint save_scripts (scripts : list bytes) : saver :=
  match scripts with
  | [] => written 0
  | body :: scripts => _ ⇐ rdbSaveAuxField (bytes_of_string "lua" ++ [0]) 3 (body ++ [0]) (zlen body); save_scripts scripts
  end.

(** snprintf of the format REDIS%04d. *)
Definition magic : bytes := bytes_of_string "REDIS" ++ replicate (4 - length (udec RDB_VERSION)) 48 ++ udec RDB_VERSION.

Definition set_update (b : bool) (r : rio B) : rio B :=
  mk_rio (io r) b (cksum r) (read_error r) (write_error r) (processed_bytes r) (max_processing_chunk r).

Definition rdbSaveRio (rdbflags : Z) (rsi : option rdbSaveInfo) (dbs : list (state robj)) (r : rio B) : option (rio B * list (state robj) * bool) :=
  let r := if rdb_checksum then set_update true r else r in
  '(r, n) ← on_rio (_ ⇐ rdbWriteRaw buf_addr magic;
                    _ ⇐ rdbSaveInfoAuxFields rdbflags rsi;
                    rdbSaveModulesAux AUX_BEFORE_RDB) r;
  if n =? -1 then Some (r, dbs, false) else
  '(r, dbs, ok) ← save_dbs 0 dbs r;
  if negb ok then Some (r, dbs, false) else
  '(r, n) ← on_rio (_ ⇐ (if is_some rsi then save_scripts lua_scripts else written 0);
                    _ ⇐ rdbSaveModulesAux AUX_AFTER_RDB;
                    rdbSaveType RDB_OPCODE_EOF) r;
  if n =? -1 then Some (r, dbs, false) else
  '(r, ok) ← rioWrite buf_addr r (le_bytes 8 (cksum r));
  Some (r, dbs, ok).
End Save.

(** ** Loading *)

(** The databases, the one selected, the attributes of the next key, the replication
    information and the scripts that were loaded. *)
Record load_state := mk_load {
  l_dbs : list (state robj); l_db : Z; l_expire : Z; l_lfu : Z; l_lru : Z; l_rsi : option rdbSaveInfo; l_scripts : list bytes
}.

Section Load.
(** Whether Lua accepts a script, and what modules do with their data. *)
Context (luaCreateFunction : bytes -> bool) (load_module_aux : load_state -> loader load_state).
Context (rdbflags : Z) (loading_process_events_interval_bytes : Z).

Definition rdbLoadTime : loader Z := fun r =>
  '(r, x) ← read_raw buf_addr 4 r; Some (r, Got (match x with Got bs => i32 (le_val bs) | _ => -1 end)).

(** [if (rioGetReadError(rdb)) goto eoferr;] *)
Definition check_read {A} (a : A) : loader A := fun r => Some (r, if read_error r then Null else Got a).

Definition set_attrs (expire lfu lru : Z) (st : load_state) : load_state :=
  mk_load (l_dbs st) (l_db st) expire lfu lru (l_rsi st) (l_scripts st).
Definition set_dbs (dbs : list (state robj)) (st : load_state) : load_state :=
  mk_load dbs (l_db st) (l_expire st) (l_lfu st) (l_lru st) (l_rsi st) (l_scripts st).
Definition select_db (j : Z) (st : load_state) : load_state :=
  mk_load (l_dbs st) j (l_expire st) (l_lfu st) (l_lru st) (l_rsi st) (l_scripts st).
Definition set_rsi (f : rdbSaveInfo -> rdbSaveInfo) (st : load_state) : load_state :=
  mk_load (l_dbs st) (l_db st) (l_expire st) (l_lfu st) (l_lru st) (f <$> l_rsi st) (l_scripts st).
Definition add_script (body : bytes) (st : load_state) : load_state :=
  mk_load (l_dbs st) (l_db st) (l_expire st) (l_lfu st) (l_lru st) (l_rsi st) (l_scripts st ++ [body]).

(** A string object as the code uses its pointer: the bytes of the sds with what follows. *)
Definition load_string_object : loader (bytes * Z) :=
  x ↢ rdbLoadStringObject buf_addr maxmemory maxmemory_policy;
  lmem (match x with LObj o => match o_ptr o with PtrRaw s | PtrEmb s => Some (buf s, sdslen s) | PtrInt _ => None end | _ => None end).

(** strcasecmp of a string and a literal: the literal, up to the case, and a terminator. *)
Fixpoint strcasecmp_eq (s lit : bytes) : option bool :=
  match s, lit with
  | [], _ => None
  | c :: s, [] => Some (c =? 0)
  | c :: s, l :: lit => if tolower c =? tolower l then strcasecmp_eq s lit else Some false
  end.

Definition strtoll_value (s : bytes) : option Z := fst <$> strtoll s.
Definition atoi (s : bytes) : option Z := i32 <$> strtoll_value s.

(** The fields that have an effect; the others are only logged. *)
Definition aux_field (key : bytes) (val : bytes) (vallen : Z) (st : load_state) : loader load_state :=
  c ↢ lmem (head key);
  if c =? 37 then lret st else
  is_db ↢ lmem (strcasecmp_eq key (bytes_of_string "repl-stream-db"));
  if is_db : bool then
    if is_some (l_rsi st) then
      n ↢ lmem (atoi val);
      lret (set_rsi (fun rsi => mk_rsi n (repl_id_is_set rsi) (repl_id rsi) (repl_offset rsi)) st)
    else lret st else
  is_id ↢ lmem (strcasecmp_eq key (bytes_of_string "repl-id"));
  if is_id : bool then
    if is_some (l_rsi st) && (vallen =? CONFIG_RUN_ID_SIZE) then
      id ↢ lmem (load val 0 (CONFIG_RUN_ID_SIZE + 1));
      lret (set_rsi (fun rsi => mk_rsi (repl_stream_db rsi) true id (repl_offset rsi)) st)
    else lret st else
  is_offset ↢ lmem (strcasecmp_eq key (bytes_of_string "repl-offset"));
  if is_offset : bool then
    if is_some (l_rsi st) then
      n ↢ lmem (strtoll_value val);
      lret (set_rsi (fun rsi => mk_rsi (repl_stream_db rsi) (repl_id_is_set rsi) (repl_id rsi) n) st)
    else lret st else
  is_lua ↢ lmem (strcasecmp_eq key (bytes_of_string "lua"));
  if is_lua : bool then
    body ↢ lmem (load val 0 vallen);
    if luaCreateFunction body then lret (add_script body st) else lexit
  else lret st.

Definition dbAddRDBLoad (key : bytes) (val : robj) : M robj bool := with_dict (fun d => dictAdd (dict_can_resize cfg) d key val).

(** server.masterhost == NULL, without the cluster. *)
Definition iAmMaster : bool := negb (masterhost cfg).

(** [now] is mstime() at the start of the load. *)
Definition add_key (key : bytes) (val : robj) (st : load_state) : option load_state :=
  if iAmMaster && (Z.land rdbflags RDBFLAGS_AOF_PREAMBLE =? 0) && negb (l_expire st =? -1) && (l_expire st <? clock cfg) then
    Some (set_attrs (-1) (-1) (-1) st)
  else
    db ← l_dbs st !! Z.to_nat (l_db st);
    '(db, added) ← dbAddRDBLoad key val db;
    db ← (if added : bool then Some db
          else if negb (Z.land rdbflags RDBFLAGS_ALLOW_DUP =? 0) then
            '(db, _) ← dbSyncDelete key db; '(db, _) ← dbAddRDBLoad key val db; Some db
          else None);
    '(db, _) ← (if l_expire st =? -1 then Some (db, tt) else setExpire cfg key (l_expire st) db);
    Some (set_attrs (-1) (-1) (-1) (set_dbs (<[Z.to_nat (l_db st) := db]> (l_dbs st)) st)).

Definition resize_db (db_size expires_size : Z) (st : load_state) : option load_state :=
  db ← l_dbs st !! Z.to_nat (l_db st);
  '(d, _) ← dictExpand (db_dict db) db_size;
  '(e, _) ← dictExpand (db_expires db) expires_size;
  Some (set_dbs (<[Z.to_nat (l_db st) := mk_state d e (st_stats db)]> (l_dbs st)) st).

(** One round of the loop for an opcode other than EOF. *)
Definition load_round (type : Z) (st : load_state) : loader load_state :=
  if type =? RDB_OPCODE_EXPIRETIME then
    t ↢ rdbLoadTime; check_read (set_attrs (t * 1000) (l_lfu st) (l_lru st) st)
  else if type =? RDB_OPCODE_EXPIRETIME_MS then
    t ↢ rdbLoadMillisecondTime buf_addr; check_read (set_attrs t (l_lfu st) (l_lru st) st)
  else if type =? RDB_OPCODE_FREQ then
    byte ↢ read_byte buf_addr; lret (set_attrs (l_expire st) byte (l_lru st) st)
  else if type =? RDB_OPCODE_IDLE then
    qword ↢ load_len; lret (set_attrs (l_expire st) (l_lfu st) (i64 qword) st)
  else if type =? RDB_OPCODE_SELECTDB then
    dbid ↢ load_len;
    if dbid >=? zlen (l_dbs st) then lexit else lret (select_db dbid st)
  else if type =? RDB_OPCODE_RESIZEDB then
    db_size ↢ load_len; expires_size ↢ load_len; lmem (resize_db db_size expires_size st)
  else if type =? RDB_OPCODE_AUX then
    '(key, _) ↢ load_string_object; '(val, vallen) ↢ load_string_object; aux_field key val vallen st
  else if type =? RDB_OPCODE_MODULE_AUX then load_module_aux st
  else
    key ↢ load_sds buf_addr maxmemory maxmemory_policy;
    val ↢ rdbLoadObject buf_addr maxmemory maxmemory_policy (dict_can_resize cfg) set_max_intset_entries hash_max_ziplist_entries
            hash_max_ziplist_value a0 a1 load_other type;
    lmem (add_key key val st).

Fixpoint load_loop (fuel : nat) (st : load_state) : loader load_state :=
  match fuel with
  | O => fun _ => None
  | S fuel =>
      type ↢ rdbLoadType buf_addr;
      if type =? RDB_OPCODE_EOF then lret st else st ↢ load_round type st; load_loop fuel st
  end.

(** The checksum at the end of a file of version 5 or later. *)
Definition verify_cksum (rdbver : Z) (st : load_state) : loader load_state := fun r =>
  if rdbver >=? 5 then
    let expected := cksum r in
    (bs ↢ read_raw buf_addr 8;
     if rdb_checksum then
       if le_val bs =? 0 then lret st else if negb (le_val bs =? expected) then lexit else lret st
     else lret st) r
  else lret st r.

(** [Got None] is C_ERR for a wrong signature or version, [Null] the jump to eoferr.
    The callback of the stream computes the checksum when server.rdb_checksum is set. *)
Definition rdbLoadRio (fuel : nat) (dbs : list (state robj)) (rsi : option rdbSaveInfo) : loader (option load_state) := fun r =>
  let r := mk_rio (io r) rdb_checksum (cksum r) (read_error r) (write_error r) (processed_bytes r) loading_process_events_interval_bytes in
  (buf ↢ read_raw buf_addr 9;
   c ↢ lmem (memcmp 5 buf (bytes_of_string "REDIS"));
   if negb (c =? 0) then lret None else
   rdbver ↢ lmem (atoi (zdrop 5 (buf ++ [0])));
   if (rdbver <? 1) || (rdbver >? RDB_VERSION) then lret None else
   st ↢ load_loop fuel (mk_load dbs 0 (-1) (-1) (-1) rsi []);
   st ↢ verify_cksum rdbver st;
   lret (Some st)) r.
End Load.
End File.
