(* ===== verification/RdbFileSpec.v ===== *)
(** * What a file holds: the pieces

    The bytes of every piece of an RDB file, as the saver writes them and as the loop of
    the loader takes them: auxiliary fields, the opcodes of a database, and a key with
    its attributes. *)

From stdpp Require Import base list numbers option strings gmap sets.
From Stdlib Require Import ZArith Lia.
From S2P Require Import Prelude Util Lzf Sds SdsText Dict DictMap DictIter Object SetType HashType Db Crc Rio Rdb RdbSpec RdbObject RdbProps RdbFile.

(** strtoll reads the numerals that ll2string writes. *)
Lemma strtoll_digits_udec l r : Forall (fun c => 48 <= c <= 57) l -> forall pos v,
  strtoll_digits (l ++ 0 :: r) pos v = Some (fold_left (fun v c => v * 10 + (c - 48)) l v, pos + zlen l).
Proof.
  induction 1 as [|c l Hc _ IH]; intros pos v; cbn [app strtoll_digits fold_left]; [change ((48 <=? 0) && (0 <=? 57)) with false; cbv iota; do 2 f_equal; unfold zlen; cbn; lia|].
  ztrue (48 <=? c). ztrue (c <=? 57). cbn [andb]. rewrite IH, zlen_cons. do 2 f_equal. lia.
Qed.

Lemma strtoll_udec n r pos : 0 <= n < 10 ^ 20 -> strtoll_digits (udec n ++ 0 :: r) pos 0 = Some (n, pos + zlen (udec n)).
Proof. intros Hn. rewrite strtoll_digits_udec by (by apply udec_digits). do 2 f_equal. exact (dec_val_udec n Hn). Qed.

Lemma udec_first n : 0 <= n < 10 ^ 20 -> exists c l, udec n = c :: l /\ 48 <= c <= 57.
Proof.
  intros Hn. pose proof (udec_digits n Hn) as Hd. pose proof (udec_length_pos n Hn) as Hp. destruct (udec n) as [|c l]; [rewrite zlen_nil in Hp; lia|].
  exists c, l. split; [done|]. by apply Forall_cons_1 in Hd as [? _].
Qed.

Lemma strtoll_sdec v r : in_s 64 v -> strtoll_value (sdec v ++ 0 :: r) = Some v.
Proof.
  intros Hv. unfold in_s in Hv. change (2 ^ (64 - 1)) with 9223372036854775808 in Hv. unfold strtoll_value, strtoll, sdec, LLONG_MIN, LLONG_MAX.
  destruct (Z.ltb_spec v 0).
  - cbn [app skip_spaces]. change (isspace 45) with false. cbv iota. cbn [mbind option_bind head tail].
    change ((45 =? 45) || (45 =? 43)) with true. cbv iota. rewrite strtoll_udec by lia. cbn [mbind option_bind].
    destruct (udec_first (- v) ltac:(lia)) as (c & l & -> & _). rewrite zlen_cons. pose proof (zlen_nonneg l). zbool.
    cbn. f_equal. lia.
  - destruct (udec_first v ltac:(lia)) as (c & l & E & Hc). pose proof (strtoll_udec v r 0 ltac:(lia)) as Es. rewrite E in *.
    cbn [app skip_spaces] in *. assert (isspace c = false) as -> by (unfold isspace; repeat zcase; lia || done).
    cbn [mbind option_bind head]. zfalse (c =? 45). zfalse (c =? 43). cbn [orb]. cbv iota. rewrite Es. cbn [mbind option_bind].
    rewrite zlen_cons. pose proof (zlen_nonneg l). by zbool.
Qed.

Lemma sdec_bytes v : in_s 64 v -> bytes_ok (sdec v).
Proof.
  intros Hv. unfold in_s in Hv. change (2 ^ (64 - 1)) with 9223372036854775808 in Hv.
  assert (forall n, 0 <= n < 10 ^ 20 -> bytes_ok (udec n)) as Hu.
  { intros n Hn. eapply Forall_impl; [by apply udec_digits|]. intros c Hc. unfold is_byte. cbn in Hc. lia. }
  unfold sdec. destruct (Z.ltb_spec v 0); [constructor; [unfold is_byte; lia|]|]; apply Hu; lia.
Qed.

Section Pieces.
Context {B : Type} `{RioLaws B} `{FreshMem} `{DictType bytes} (buf_addr : bytes -> Z).
Context (rdb_compression : bool) (htab : LZF_STATE) (mm mp : Z).
Hypothesis Hhtab : forall i, 0 <= htab i < 4294967296.
Context (cfg : config) (set_max hash_max_entries hash_max_value a0 a1 : Z) (load_other : Z -> loader (B := B) robj).
Context (luaCreateFunction : bytes -> bool) (load_module_aux : load_state -> loader (B := B) load_state) (rdbflags : Z).

Abbreviation saves := (saves (B := B)).
Abbreviation loads := (loads (B := B)).
Abbreviation reads_string := (reads_string (B := B) buf_addr mm mp).
Abbreviation aux_field := (aux_field (B := B) luaCreateFunction).
Abbreviation load_round := (load_round buf_addr mm mp cfg set_max hash_max_entries hash_max_value a0 a1 load_other luaCreateFunction load_module_aux rdbflags).
Abbreviation load_loop := (load_loop buf_addr mm mp cfg set_max hash_max_entries hash_max_value a0 a1 load_other luaCreateFunction load_module_aux rdbflags).

(** ** A saver on a stream *)

Lemma on_rio_spec f bs v r w : saves f bs v -> wstate r w -> zlen w + zlen bs < SDS_BOUND ->
  exists r' n, on_rio f r = Some (r', n) /\ same_settings r r' /\ (n = v /\ wstate r' (w ++ bs) \/ n = -1 /\ reliable = false).
Proof.
  intros (_ & _ & Hf) Hw Hl. destruct (Hf (Some r) w Hw Hl) as ([r'|] & n & E & Hs & Hn); [|done].
  exists r', n. unfold on_rio. rewrite E. cbn [mbind option_bind]. split; [done|]. split; [done|].
  destruct Hn as [Hn|(-> & Hrel & _)]; [by left|by right].
Qed.

(** ** Rounds of the loader

    [advance st bs Q]: the loop in the state [st] takes the bytes [bs] and is then in a
    state of [Q]; every round takes a byte, so that the bytes bound the fuel. *)
Definition advance (st : load_state) (bs : bytes) (Q : load_state -> Prop) : Prop :=
  forall fuel rest P, (forall st', Q st' -> forall n, (fuel <= n)%nat -> loads (load_loop n st') rest P) ->
    forall n, (fuel + length bs <= n)%nat -> loads (load_loop n st) (bs ++ rest) P.

Lemma advance_nil st (Q : load_state -> Prop) : Q st -> advance st [] Q.
Proof. intros HQ fuel rest P Hst n Hn. apply Hst; [done|cbn in Hn; lia]. Qed.

Lemma advance_trans st a b (Q R : load_state -> Prop) : advance st a Q -> (forall st', Q st' -> advance st' b R) -> advance st (a ++ b) R.
Proof.
  intros Ha Hb fuel rest P Hst n Hn. rewrite length_app in Hn. rewrite <- app_assoc. apply (Ha (fuel + length b)%nat); [|lia].
  intros st' HQ m Hm. by apply (Hb st' HQ fuel).
Qed.

Lemma advance_weaken st bs (Q R : load_state -> Prop) : (forall st', Q st' -> R st') -> advance st bs Q -> advance st bs R.
Proof. intros HQR Ha fuel rest P Hst. apply Ha. intros st' HQ. by apply Hst, HQR. Qed.

Lemma advance_round st t bs (Q : load_state -> Prop) : t <> RDB_OPCODE_EOF -> loads (load_round t st) bs Q -> advance st (t :: bs) Q.
Proof.
  intros Ht Hl fuel rest P Hst [|n] Hn; [cbn in Hn; lia|]. cbn [RdbFile.load_loop]. cbn [app].
  eapply (loads_bind _ _ [t] _); [apply loads_byte|]. intros ? ->. zfalse (t =? RDB_OPCODE_EOF). cbv iota.
  eapply loads_bind; [exact Hl|]. intros st' HQ. apply Hst; [done|cbn in Hn; lia].
Qed.

(** ** Auxiliary fields *)

Lemma saves_aux key krest val vrest : bytes_ok key -> zlen key < 4294967296 -> bytes_ok val -> zlen val < 4294967296 ->
  (zlen val <= 11 -> exists a r, val ++ vrest = a ++ 0 :: r) ->
  exists b1 b2, saves (rdbSaveAuxField buf_addr rdb_compression htab (key ++ 0 :: krest) (zlen key) (val ++ vrest) (zlen val))
      ([RDB_OPCODE_AUX] ++ b1 ++ b2) (1 + zlen b1 + zlen b2) /\
    reads_string b1 key /\ reads_string b2 val /\ zlen b1 <= zlen key + 15 /\ zlen b2 <= zlen val + 15.
Proof.
  intros Hk Hkl Hv Hvl Ha. unfold rdbSaveAuxField.
  destruct (saves_string buf_addr rdb_compression htab mm mp Hhtab (key ++ 0 :: krest) key (0 :: krest)) as (b1 & Hs1 & Hr1 & Hb1);
    [intros _; by exists key, krest|done|done|done|].
  destruct (saves_string buf_addr rdb_compression htab mm mp Hhtab (val ++ vrest) val vrest) as (b2 & Hs2 & Hr2 & Hb2); [done..|].
  exists b1, b2. split; [|split; [done|split; [done|lia]]].
  eapply saves_bind; [apply (saves_raw buf_addr [RDB_OPCODE_AUX]); by repeat constructor|]. eapply saves_bind; [exact Hs1|]. eapply saves_end; [exact Hs2|].
  change (zlen [RDB_OPCODE_AUX]) with 1. apply saves_written. lia.
Qed.

Lemma loads_string_object bs c : reads_string bs c ->
  loads (load_string_object buf_addr mm mp) bs (fun x => exists rest, x = (c ++ 0 :: rest, zlen c)).
Proof.
  intros Hr. unfold load_string_object, rdbLoadStringObject. eapply loads_end; [apply Hr; by left|]. intros x Hx.
  destruct x as [| |o]; [by destruct Hx as [? _]|by destruct Hx as [? _]|]. destruct Hx as (_ & Ho & Hraw). specialize (Hraw eq_refl).
  unfold str_encoding in Hraw. unfold str_repr in Ho. destruct (o_ptr o) as [s| |]; [|done..]. destruct Ho as [free Hs].
  eapply loads_mem; [done|]. destruct (at_buf _ _ _ _ Hs) as (junk & Eb & _). exists junk. rewrite Eb, (at_len _ _ _ _ Hs). done.
Qed.

(** The effect of a field. *)
Definition aux_does (key val : bytes) (st st' : load_state) : Prop :=
  forall k v, loads (aux_field (key ++ 0 :: k) (val ++ 0 :: v) (zlen val) st) [] (fun x => x = st').

Lemma advance_aux key val b1 b2 st st' : reads_string b1 key -> reads_string b2 val -> aux_does key val st st' ->
  advance st ([RDB_OPCODE_AUX] ++ b1 ++ b2) (fun x => x = st').
Proof.
  intros H1r H2r Hd. apply advance_round; [done|]. cbn [RdbFile.load_round].
  change (loads ('(key, _) ↢ load_string_object buf_addr mm mp; '(val, vallen) ↢ load_string_object buf_addr mm mp; aux_field key val vallen st) (b1 ++ b2) (fun x => x = st')).
  eapply loads_bind; [by apply loads_string_object|]. intros x (k & ->). cbv beta iota.
  eapply loads_end; [by apply loads_string_object|]. intros x (v & ->). cbv beta iota. apply Hd.
Qed.

(** The tests of the name of a field are decided by the name. *)
Ltac aux_test := eapply loads_mem_bind; [vm_compute; reflexivity|];
  match goal with |- context [if ?b then _ else _] => let v := eval vm_compute in b in change b with v end; cbv beta iota.

(** Fields that are only logged. *)
Lemma aux_logged key val st :
  In key (bytes_of_string <$> ["redis-ver"; "redis-bits"; "ctime"; "used-mem"; "aof-preamble"]%string) -> aux_does key val st st.
Proof.
  intros Hk k v. cbn in Hk. destruct Hk as [<-|[<-|[<-|[<-|[<-|[]]]]]]; unfold RdbFile.aux_field; repeat aux_test; by apply loads_ret.
Qed.

Definition with_stream_db (n : Z) (st : load_state) : load_state := set_rsi (fun rsi => mk_rsi n (repl_id_is_set rsi) (repl_id rsi) (repl_offset rsi)) st.
Definition with_repl_id (id : bytes) (st : load_state) : load_state := set_rsi (fun rsi => mk_rsi (repl_stream_db rsi) true id (repl_offset rsi)) st.
Definition with_repl_offset (n : Z) (st : load_state) : load_state := set_rsi (fun rsi => mk_rsi (repl_stream_db rsi) (repl_id_is_set rsi) (repl_id rsi) n) st.

Lemma no_rsi f st : is_some (l_rsi st) = false -> set_rsi f st = st.
Proof. destruct st as [? ? ? ? ? [rsi|] ?]; [done|]. done. Qed.

Lemma aux_stream_db n st : in_s 32 n -> aux_does (bytes_of_string "repl-stream-db") (sdec n) st (with_stream_db n st).
Proof.
  intros Hn k v. unfold RdbFile.aux_field. do 2 aux_test. destruct (is_some (l_rsi st)) eqn:E; [|apply loads_ret; symmetry; by apply no_rsi].
  eapply loads_mem_bind; [|by apply loads_ret]. unfold atoi. rewrite strtoll_sdec by (unfold in_s in *; cbn in *; lia). cbn. f_equal. apply i32_small. unfold in_s in Hn. cbn in Hn. lia.
Qed.

Lemma aux_repl_id id st : zlen id = CONFIG_RUN_ID_SIZE -> aux_does (bytes_of_string "repl-id") id st (with_repl_id (id ++ [0]) st).
Proof.
  intros Hid k v. unfold RdbFile.aux_field. do 3 aux_test. rewrite Hid, Z.eqb_refl, andb_true_r.
  destruct (is_some (l_rsi st)) eqn:E; [|apply loads_ret; symmetry; by apply no_rsi].
  eapply loads_mem_bind; [|by apply loads_ret]. apply (load_at [] (id ++ [0]) v); [lapp|done|]. rewrite zlen_app, Hid. done.
Qed.

Lemma aux_repl_offset n st : in_s 64 n -> aux_does (bytes_of_string "repl-offset") (sdec n) st (with_repl_offset n st).
Proof.
  intros Hn k v. unfold RdbFile.aux_field. do 4 aux_test. destruct (is_some (l_rsi st)) eqn:E; [|apply loads_ret; symmetry; by apply no_rsi].
  eapply loads_mem_bind; [|by apply loads_ret]. by apply strtoll_sdec.
Qed.

Lemma aux_lua body st : luaCreateFunction body = true -> aux_does (bytes_of_string "lua") body st (add_script body st).
Proof.
  intros Hl k v. unfold RdbFile.aux_field. do 5 aux_test. eapply loads_mem_bind; [apply load_prefix|]. rewrite Hl. by apply loads_ret.
Qed.

(** ** The attributes of a key and the opcodes of a database *)

Lemma loads_millisecond t : in_s 64 t -> loads (rdbLoadMillisecondTime buf_addr) (le_bytes 8 t) (fun x => x = t).
Proof.
  intros Ht r p i Hrel Hr. destruct (loads_raw buf_addr (le_bytes 8 t) 8 (zlen_le_bytes _ _) ltac:(lia) r p i Hrel Hr) as (r' & a & E & Hs & -> & Hr').
  unfold rdbLoadMillisecondTime. rewrite E. cbn [mbind option_bind]. exists r', t. split; [|done].
  do 3 f_equal. apply (wraps_le 8 t); [lia|done].
Qed.

Lemma loads_check {A} (a : A) (P : A -> Prop) : P a -> loads (check_read a) [] P.
Proof. intros Ha r p i _ Hr. pose proof Hr as (E & _). exists r, a. unfold check_read. rewrite E, app_nil_r. done. Qed.

Ltac round_of t := apply advance_round; [done|]; unfold RdbFile.load_round; cbn [Z.eqb Pos.eqb RDB_OPCODE_EXPIRETIME RDB_OPCODE_EXPIRETIME_MS RDB_OPCODE_FREQ RDB_OPCODE_IDLE RDB_OPCODE_SELECTDB RDB_OPCODE_RESIZEDB].

Lemma advance_expire st t : in_s 64 t -> advance st (RDB_OPCODE_EXPIRETIME_MS :: le_bytes 8 t) (fun x => x = set_attrs t (l_lfu st) (l_lru st) st).
Proof. intros Ht. round_of tt. eapply loads_end; [by apply loads_millisecond|]. intros ? ->. by apply loads_check. Qed.

Lemma advance_idle st n : 0 <= n < RDB_LENERR -> advance st (RDB_OPCODE_IDLE :: len_bytes n) (fun x => x = set_attrs (l_expire st) (l_lfu st) (i64 n) st).
Proof. intros Hn. round_of tt. eapply loads_end; [by apply loads_len|]. intros ? ->. by apply loads_ret. Qed.

Lemma advance_freq st n : advance st [RDB_OPCODE_FREQ; n] (fun x => x = set_attrs (l_expire st) n (l_lru st) st).
Proof. round_of tt. eapply loads_end; [apply loads_byte|]. intros ? ->. by apply loads_ret. Qed.

Lemma advance_select st j : 0 <= j < zlen (l_dbs st) -> zlen (l_dbs st) < RDB_LENERR ->
  advance st (RDB_OPCODE_SELECTDB :: len_bytes j) (fun x => x = select_db j st).
Proof.
  intros Hj Hl. round_of tt. eapply loads_end; [apply loads_len; lia|]. intros ? ->. rewrite Z.geb_leb. zfalse (zlen (l_dbs st) <=? j). by apply loads_ret.
Qed.

(** ** The keyspace under construction *)

(** The state of the loop between two keys: database [j], whose state is [s], is selected. *)
Record at_db (st : load_state) (j : nat) (s : state robj) : Prop := {
  at_sel : l_db st = Z.of_nat j;
  at_state : l_dbs st !! j = Some s;
  at_clean : l_expire st = -1 /\ l_lfu st = -1 /\ l_lru st = -1
}.

Definition set_db_at (j : nat) (s : state robj) (st : load_state) : load_state := set_dbs (<[j := s]> (l_dbs st)) st.

Lemma put_at st j s s' : at_db st j s -> at_db (set_db_at j s' st) j s'.
Proof. intros [Hj Hs Hc]. split; [done| |done]. cbn. apply list_lookup_insert_eq. by apply lookup_lt_Some in Hs. Qed.

Lemma put_put st j s s' : set_db_at j s' (set_db_at j s st) = set_db_at j s' st.
Proof. unfold set_db_at, set_dbs. cbn. by rewrite list_insert_insert_eq. Qed.

Lemma advance_resize st j s m n e : at_db st j s -> db_repr s m -> 0 <= n <= 2 ^ 62 -> 0 <= e <= 2 ^ 62 ->
  advance st (RDB_OPCODE_RESIZEDB :: len_bytes n ++ len_bytes e) (fun x => exists s', x = set_db_at j s' st /\ db_repr s' m).
Proof.
  intros [Hj Hs Hc] [Hd He Ht Hf] Hn Hen. round_of tt. eapply loads_bind; [apply loads_len; unfold RDB_LENERR; lia|]. intros ? ->.
  eapply loads_end; [apply loads_len; unfold RDB_LENERR; lia|]. intros ? ->.
  destruct (repr_expand _ _ n Hd ltac:(lia)) as (d & b & Ed & Hd'). destruct (repr_expand _ _ e He ltac:(lia)) as (x & b' & Ee & He').
  apply (loads_mem _ (set_db_at j (mk_state d x (st_stats s)) st)); [|eexists; split; [reflexivity|by split]].
  unfold resize_db. rewrite Hj, Nat2Z.id, Hs. cbn [mbind option_bind]. rewrite Ed. cbn [mbind option_bind]. rewrite Ee. done.
Qed.

(** A key of a file that the loader keeps. *)
Definition drops : bool := iAmMaster cfg && (Z.land rdbflags RDBFLAGS_AOF_PREAMBLE =? 0).
Definition kept {A} (e : A * option Z) : bool := negb drops || alive (clock cfg) e.

Lemma does_load (k : bytes) (x : robj) (m : gmap bytes (robj * option Z)) : m !! k = None -> fits (<[k := (x, None)]> m) -> does (dbAddRDBLoad cfg k x) m true (<[k := (x, None)]> m).
Proof.
  intros Hk Hfits s [Hd He Ht Hf]. unfold dbAddRDBLoad, with_dict.
  destruct (repr_add (dict_can_resize cfg) _ _ k x Hd (fits_values m Hf)) as (d & -> & Hd'); [by rewrite lookup_fmap, Hk|].
  cbn [mbind option_bind]. eexists. split; [done|]. split; cbn; [by rewrite fmap_insert| |by apply insert_times|done].
  rewrite omap_insert_None by done. rewrite delete_id; [done|]. by rewrite lookup_omap, Hk.
Qed.

(** The new key and its expire time. *)
Lemma store_key s m (k : bytes) (x : robj) (e : option Z) : db_repr s m -> m !! k = None -> expire_ok (x, e) -> fits (<[k := (x, e)]> m) ->
  exists s1 s' b, dbAddRDBLoad cfg k x s = Some (s1, true) /\ (if default (-1) e =? -1 then Some (s1, tt) else setExpire cfg k (default (-1) e) s1) = Some (s', b) /\
    db_repr s' (<[k := (x, e)]> m).
Proof.
  intros Hm Hk Hok Hfits.
  assert (fits (<[k := (x, None : option Z)]> m)) as Hfits1 by (unfold fits in *; by rewrite map_size_insert_None in * by done).
  destruct (does_load k x m Hk Hfits1 s Hm) as (s1 & E1 & Hs1). exists s1. destruct e as [w|]; [|by exists s1, tt].
  specialize (Hok w eq_refl). change (default (-1) (Some w)) with w. zfalse (w =? -1). destruct (does_setExpire cfg k x None w (<[k := (x, None)]> m)) with (s := s1) as (s' & E2 & Hs');
    [by rewrite lookup_insert_eq|done|done|]. exists s', tt. split; [done|]. split; [done|]. by rewrite insert_insert_eq in Hs'.
Qed.

Lemma dropped_or_kept (x : robj) (e : option Z) : expire_ok (x, e) ->
  iAmMaster cfg && (Z.land rdbflags RDBFLAGS_AOF_PREAMBLE =? 0) && negb (default (-1) e =? -1) && (default (-1) e <? clock cfg) = negb (kept (x, e)).
Proof.
  intros Hok. unfold kept, drops. rewrite negb_orb, negb_involutive, <- andb_assoc. f_equal.
  destruct e as [w|]; [|done]. specialize (Hok w eq_refl). change (default (-1) (Some w)) with w. cbn [alive snd]. zfalse (w =? -1). by rewrite Z.leb_antisym, negb_involutive.
Qed.

Lemma add_key_spec st0 st j s m (k : bytes) (x : robj) (e : option Z) : at_db st0 j s -> st = set_attrs (default (-1) e) (l_lfu st) (l_lru st) st0 ->
  db_repr s m -> m !! k = None -> expire_ok (x, e) -> fits (<[k := (x, e)]> m) ->
  exists st', add_key cfg rdbflags k x st = Some st' /\
    if kept (x, e) then exists s', st' = set_db_at j s' st0 /\ db_repr s' (<[k := (x, e)]> m) else st' = st0.
Proof.
  intros [Hj Hs (Hc1 & Hc2 & Hc3)] Est Hm Hk Hok Hfits. unfold add_key.
  assert (l_expire st = default (-1) e /\ l_dbs st = l_dbs st0 /\ l_db st = l_db st0) as (E1 & E2 & E3) by (by rewrite Est).
  assert (forall dbs, set_attrs (-1) (-1) (-1) (set_dbs dbs st) = set_dbs dbs st0) as Hclean.
  { intros dbs. rewrite Est. destruct st0. cbn in *. unfold set_dbs, set_attrs. cbn. by rewrite Hc1, Hc2, Hc3. }
  assert (set_attrs (-1) (-1) (-1) st = st0) as Hclean0 by (rewrite Est; destruct st0; cbn in *; unfold set_attrs; cbn; by rewrite Hc1, Hc2, Hc3).
  rewrite E1, E2, E3, Hj, Nat2Z.id, Hs, Hclean0, (dropped_or_kept x e Hok). destruct (kept (x, e)); cbn [negb]; [|by exists st0].
  destruct (store_key s m k x e Hm Hk Hok Hfits) as (s1 & s' & b & Ea & Eb & Hs'). cbn [mbind option_bind]. rewrite Ea. cbn [mbind option_bind].
  rewrite Eb. cbn [mbind option_bind]. eexists. split; [done|]. exists s'. split; [apply Hclean|done].
Qed.

(** ** A key with its attributes *)

Section Pairs.
Context (pol : Z) (idle lfu : robj -> Z).
Hypothesis Hidle : forall o, 0 <= idle o < 2 ^ 64.

Abbreviation rdbSaveKeyValuePair := (rdbSaveKeyValuePair buf_addr rdb_compression htab pol a0 a1 idle lfu).
Abbreviation saves_lru := (negb (Z.land pol MAXMEMORY_FLAG_LRU =? 0)).
Abbreviation saves_lfu := (negb (Z.land pol MAXMEMORY_FLAG_LFU =? 0)).

Definition expire_bytes (e : option Z) : bytes := match e with Some w => RDB_OPCODE_EXPIRETIME_MS :: le_bytes 8 w | None => [] end.
Definition idle_bytes (o : robj) : bytes := if saves_lru then RDB_OPCODE_IDLE :: len_bytes (idle o / 1000) else [].
Definition freq_bytes (o : robj) : bytes := if saves_lfu then [RDB_OPCODE_FREQ; u8 (lfu o)] else [].

Lemma idle_range o : 0 <= idle o / 1000 < RDB_LENERR.
Proof. specialize (Hidle o). unfold RDB_LENERR. dlia. Qed.

Lemma advance_attrs st0 o e : l_expire st0 = -1 -> expire_ok (o, e) ->
  advance st0 (expire_bytes e ++ idle_bytes o ++ freq_bytes o) (fun st => st = set_attrs (default (-1) e) (l_lfu st) (l_lru st) st0).
Proof.
  intros Hc Hok. apply (advance_trans _ _ _ (fun st => st = set_attrs (default (-1) e) (l_lfu st) (l_lru st) st0)).
  { destruct e as [w|]; [|apply advance_nil; destruct st0; cbn in *; by rewrite Hc]. specialize (Hok w eq_refl). cbn [expire_bytes].
    eapply advance_weaken; [|apply advance_expire; unfold in_s, LLONG_MAX in *; cbn; lia]. by intros st ->. }
  intros st1 E1. apply (advance_trans _ _ _ (fun st => st = set_attrs (default (-1) e) (l_lfu st) (l_lru st) st0)).
  { unfold idle_bytes. destruct saves_lru; [|by apply advance_nil]. eapply advance_weaken; [|apply advance_idle, idle_range].
    intros st ->. rewrite E1. done. }
  intros st2 E2. unfold freq_bytes. destruct saves_lfu; [|by apply advance_nil]. eapply advance_weaken; [|apply advance_freq].
  intros st ->. rewrite E2. done.
Qed.

Lemma saves_attrs o e f bs v : expire_ok (o, e) -> saves f bs v ->
  saves (sbind (if negb (default (-1) e =? -1) then sbind (rdbSaveType buf_addr RDB_OPCODE_EXPIRETIME_MS) (fun _ => rdbSaveMillisecondTime buf_addr (default (-1) e)) else written 0)
    (fun _ => sbind (if saves_lru then sbind (rdbSaveType buf_addr RDB_OPCODE_IDLE) (fun _ => rdbSaveLen buf_addr (idle o / 1000)) else written 0)
    (fun _ => sbind (if saves_lfu then sbind (rdbSaveType buf_addr RDB_OPCODE_FREQ) (fun _ => rdbWriteRaw buf_addr [u8 (lfu o)]) else written 0) (fun _ => f))))
    ((expire_bytes e ++ idle_bytes o ++ freq_bytes o) ++ bs) v.
Proof.
  intros Hok Hf. assert (forall n, 0 <= n < 256 -> saves (rdbWriteRaw buf_addr [n]) [n] 1) as Hbyte.
  { intros n Hn. apply (saves_raw buf_addr [n]). apply Forall_singleton. unfold is_byte. lia. }
  rewrite <- !app_assoc. apply (saves_bind _ _ _ _ (zlen (expire_bytes e) - if is_some e then 1 else 0)).
  { destruct e as [w|]; [|by apply saves_written]. specialize (Hok w eq_refl). change (default (-1) (Some w)) with w. zfalse (w =? -1). cbn [negb is_some].
    unfold expire_bytes. rewrite zlen_cons. replace (1 + zlen (le_bytes 8 w) - 1) with (zlen (le_bytes 8 w)) by lia.
    apply (saves_bind _ _ [_] _ 1); [by apply Hbyte|]. apply saves_raw, le_bytes_ok. }
  apply (saves_bind _ _ _ _ (if saves_lru then zlen (len_bytes (idle o / 1000)) else 0)).
  { unfold idle_bytes. destruct saves_lru; [|by apply saves_written]. apply (saves_bind _ _ [_] _ 1); [by apply Hbyte|].
    apply saves_len. pose proof (idle_range o). unfold RDB_LENERR in *. lia. }
  apply (saves_bind _ _ _ _ (if saves_lfu then 1 else 0)); [|exact Hf].
  unfold freq_bytes. destruct saves_lfu; [|by apply saves_written]. apply (saves_bind _ _ [_] [_] 1); [by apply Hbyte|]. apply Hbyte, wrapu_range. lia.
Qed.

Lemma zlen_attrs o e : zlen (expire_bytes e ++ idle_bytes o ++ freq_bytes o) <= 21.
Proof.
  pose proof (zlen_len_bytes (idle o / 1000)). rewrite !zlen_app. unfold expire_bytes, idle_bytes, freq_bytes.
  destruct e as [w|], saves_lru, saves_lfu; rewrite ?zlen_cons, ?zlen_le_bytes; repeat change (zlen []) with 0; lia.
Qed.

(** The type, the key and the value. *)
Lemma advance_key st0 st j s m (k : bytes) o v (e : option Z) b1 b2 : at_db st0 j s -> st = set_attrs (default (-1) e) (l_lfu st) (l_lru st) st0 ->
  db_repr s m -> m !! k = None -> expire_ok (v, e) -> (forall x : robj, fits (<[k := (x, e)]> m)) -> reads_string b1 k ->
  loads (rdbLoadObject buf_addr mm mp (dict_can_resize cfg) set_max hash_max_entries hash_max_value a0 a1 load_other (type_byte o)) b2 (fun x => obj_repr x v) ->
  advance st (type_byte o :: b1 ++ b2) (fun st' =>
    if kept (v, e) then exists s' x, st' = set_db_at j s' st0 /\ db_repr s' (<[k := (x, e)]> m) /\ obj_repr x v else st' = st0).
Proof.
  intros Hat Est Hm Hk Hok Hfits Hrd Hld. apply advance_round; [by destruct o as [|[]|[]]|].
  assert (forall t, load_round (type_byte o) st = lbind (load_sds buf_addr mm mp) (fun key => lbind (rdbLoadObject buf_addr mm mp (dict_can_resize cfg) set_max hash_max_entries
     hash_max_value a0 a1 load_other (type_byte o)) (fun val => lmem (add_key cfg rdbflags key val st))) \/ t) as Ht by (intros t; left; by destruct o as [|[]|[]]).
  destruct (Ht False) as [->|[]]. eapply loads_bind; [by apply loads_sds|]. intros ? ->. eapply loads_end; [exact Hld|]. intros x Hx.
  destruct (add_key_spec st0 st j s m k x e Hat Est Hm Hk Hok (Hfits x)) as (st' & E & Hst'). eapply loads_mem; [exact E|].
  change (kept (v, e)) with (kept (x, e)). destruct (kept (x, e)); [|done]. destruct Hst' as (s' & -> & Hs'). by exists s', x.
Qed.

(** What a key that is saved becomes. *)
Definition pair_ok (k : bytes) (o : robj) (v : aval) (e : option Z) (bs : bytes) : Prop :=
  saves (rdbSaveKeyValuePair k o (default (-1) e)) bs 1 /\
  (exists n, rdbSavedObjectLen (B := B) buf_addr rdb_compression htab a0 a1 o = Some n /\ zlen bs <= zlen k + n + 40) /\
  forall st0 j s m, at_db st0 j s -> db_repr s m -> m !! k = None -> (forall x : robj, fits (<[k := (x, e)]> m)) ->
    advance st0 bs (fun st' =>
      if kept (v, e) then exists s' x, st' = set_db_at j s' st0 /\ db_repr s' (<[k := (x, e)]> m) /\ obj_repr x v else st' = st0).

Lemma pair_saved k o v e : bytes_ok k -> zlen k < 4294967296 -> saveable hash_max_entries hash_max_value o v -> expire_ok (v, e) ->
  exists bs, pair_ok k o v e bs.
Proof.
  intros Hk Hkl Ho Hok. destruct (saves_sds buf_addr rdb_compression htab mm mp Hhtab k Hk Hkl) as (b1 & Hs1 & Hr1 & Hb1).
  destruct (saveable_saves buf_addr rdb_compression htab mm mp Hhtab (dict_can_resize cfg) set_max hash_max_entries hash_max_value a0 a1 load_other o v Ho)
    as (b2 & Hs2 & Hb2 & Hl2).
  exists ((expire_bytes e ++ idle_bytes o ++ freq_bytes o) ++ [type_byte o] ++ b1 ++ b2). split; [|split].
  - apply saves_attrs; [exact Hok|]. eapply saves_bind; [apply saves_type|]. eapply saves_bind; [exact Hs1|]. eapply saves_end; [exact Hs2|]. by apply saves_written.
  - exists (zlen b2). split; [apply saved_len; [done|unfold SDS_BOUND; lia]|]. pose proof (zlen_attrs o e) as Ha. set (A := expire_bytes e ++ _) in *.
    rewrite (zlen_app A), (zlen_app [_]), (zlen_app b1). change (zlen [type_byte o]) with 1. lia.
  - intros st0 j s m Hat Hm Hnone Hfits. eapply advance_trans; [apply advance_attrs; [apply Hat|exact Hok]|]. intros st Est.
    exact (advance_key st0 st j s m k o v e b1 b2 Hat Est Hm Hnone Hok Hfits Hr1 Hl2).
Qed.
End Pairs.
End Pieces.
