(* ===== verification/RdbFileProps.v ===== *)
(** * What survives a restart

    A server that saves its databases and a server that loads the file: the keyspace, its
    expire times, the replication information and the scripts are the same, but for the
    keys that have expired in the meantime; a failing device is reported. *)

From stdpp Require Import base list numbers option strings gmap sets.
From Stdlib Require Import ZArith Lia.
From S2P Require Import Prelude Util Lzf Sds SdsText Dict DictMap DictIter Object SetType HashType Db DbProps Crc Rio Rdb RdbSpec RdbObject RdbProps RdbFile RdbFileSpec.

(** ** Iterating over a database that is only read *)

Section Walk.
Context `{DictType bytes}.
Implicit Types (d : dict bytes robj) (s : state robj) (m : gmap bytes (robj * option Z)).

Lemma same_repr {V} (d d' : dict bytes V) (m : gmap bytes V) : ht0 d' = ht0 d -> ht1 d' = ht1 d -> rehashidx d' = rehashidx d -> dict_repr d m -> dict_repr d' m.
Proof. intros E0 E1 Er [Hwf <-]. split; [by apply (same_wf d)|]. unfold to_map, entries. by rewrite E0, E1. Qed.

(** The main dictionary is left alone. *)
Definition keeps_dict {A} (op : M robj A) : Prop := forall s s' a, iterators (db_dict s) <> 0 -> op s = Some (s', a) -> db_dict s' = db_dict s.

Lemma keeps_bind {A C} (op : M robj A) (f : A -> M robj C) : keeps_dict op -> (forall a, keeps_dict (f a)) -> keeps_dict (x ← op; f x).
Proof.
  intros Ho Hf s s' c Hi E. unfold mbind, M_bind in E. destruct (op s) as [[s1 a]|] eqn:E1; [|done]. cbn [mbind option_bind] in E.
  pose proof (Ho s s1 a Hi E1) as Ed. rewrite <- Ed. apply (Hf a s1 s' c); [by rewrite Ed|done].
Qed.

Lemma keeps_ret {A} (a : A) : keeps_dict (mret a).
Proof. by intros s s' b _ [= <- _]. Qed.

(** Looking up an expire time while an iterator pauses rehashing. *)
Lemma keeps_getExpire k : keeps_dict (getExpire k).
Proof.
  apply keeps_bind; [by intros s s' a _ [= <- _]|]. intros n. destruct (n =? 0); [apply keeps_ret|]. apply keeps_bind.
  { intros s s' a _. unfold find_expire, with_expires. destruct (dictFind _ _) as [[d r]|]; [|done]. by intros [= <- _]. }
  intros [w|]; [|apply keeps_ret]. apply keeps_bind; [|intros r; apply keeps_bind; [|intros _; apply keeps_ret]].
  - intros s s' a Hi. unfold find_main, with_dict. destruct (dictFind _ _) as [[d r]|] eqn:E; [|done]. apply find_keeps in E as ->; [|done]. by intros [= <- _].
  - intros s s' a _. unfold assert_that. destruct (is_some r); [|done]. by intros [= <- _].
Qed.

(** [walking s m n di l]: a safe iterator has still to return [l]; without it the number of iterators is [n]. *)
Record walking s m (n : Z) (di : @dictIterator bytes) (l : list (bytes * robj)) : Prop := {
  wk_repr : db_repr s m;
  wk_up : upcoming (db_dict s) di l;
  wk_safe : it_safe di = true;
  wk_iters : iterators (db_dict s) = if fresh_iter di then n else n + 1;
  wk_pos : 0 <= n
}.

Lemma walking_start s m : db_repr s m -> 0 <= iterators (db_dict s) -> walking s m (iterators (db_dict s)) dictGetSafeIterator (entries (db_dict s)).
Proof. intros Hs Hi. split; try done. apply upcoming_start. apply Hs. Qed.

Lemma walking_next a0 a1 s m n di l : walking s m n di l ->
  exists d di', dictNext a0 a1 (db_dict s) di = Some (d, di', head l) /\ walking (mk_state d (db_expires s) (st_stats s)) m n di' (tail l) /\ fresh_iter di' = false.
Proof.
  intros [[Hd He Ht Hf] Hu Hs Hi Hn]. destruct (next_spec a0 a1 (db_dict s) di l (proj1 Hd) Hu) as (di' & E & Hu' & Hs' & _ & _ & Hfr & _).
  destruct (entered_same (db_dict s) di) as (E0 & E1 & Er). exists (entered (db_dict s) di), di'. split; [done|]. split; [|done].
  split; cbn [db_dict]; try done; [|congruence|].
  - split; cbn; try done. by apply (same_repr (db_dict s)).
  - rewrite Hfr. unfold entered. rewrite Hs, andb_true_r. destruct (fresh_iter di); cbn; lia.
Qed.

Lemma walking_expire s m n di l k : walking s m n di l -> fresh_iter di = false ->
  exists s', getExpire k s = Some (s', default (-1) (expiry m k)) /\ walking s' m n di l.
Proof.
  intros [Hr Hu Hs Hi Hn] Hfr. destruct (does_getExpire k m s Hr) as (s' & E & Hr'). exists s'. split; [done|]. rewrite Hfr in Hi.
  pose proof (keeps_getExpire k s s' _ ltac:(lia) E) as Ed. split; try done; rewrite Ed; [done|by rewrite Hfr].
Qed.

Lemma walking_release a0 a1 s m n di l : walking s m n di l -> fresh_iter di = false ->
  exists d, dictReleaseIterator a0 a1 (db_dict s) di = Some d /\ db_repr (mk_state d (db_expires s) (st_stats s)) m /\ iterators d = n.
Proof.
  intros [[Hd He Ht Hf] Hu Hs Hi Hn] Hfr. unfold dictReleaseIterator. fold (fresh_iter di). rewrite Hfr, Hs. cbn [negb]. rewrite Hfr in Hi.
  eexists. split; [done|]. split; [|cbn; lia]. split; cbn; try done. by apply (same_repr (db_dict s)).
Qed.
End Walk.

Section File.
Context {B : Type} `{RioLaws B} `{FreshMem} `{DictType bytes} (buf_addr : bytes -> Z).
Context (rdb_compression : bool) (htab : LZF_STATE) (mm mp : Z).
Hypothesis Hhtab : forall i, 0 <= htab i < 4294967296.
Context (cfg : config) (set_max hash_max_entries hash_max_value a0 a1 : Z) (load_other : Z -> loader (B := B) robj).
Context (luaCreateFunction : bytes -> bool) (load_module_aux : load_state -> loader (B := B) load_state) (rdbflags : Z).
Context (pol : Z) (idle lfu : robj -> Z).
Hypothesis Hidle : forall o, 0 <= idle o < 2 ^ 64.

Abbreviation saves := (saves (B := B)).
Abbreviation loads := (loads (B := B)).
Abbreviation rdbSaveKeyValuePair := (rdbSaveKeyValuePair buf_addr rdb_compression htab pol a0 a1 idle lfu).
Abbreviation save_keys := (save_keys buf_addr rdb_compression htab pol a0 a1 idle lfu).
Abbreviation save_db := (save_db buf_addr rdb_compression htab pol a0 a1 idle lfu).
Abbreviation save_dbs := (save_dbs buf_addr rdb_compression htab pol a0 a1 idle lfu).
Abbreviation advance := (advance buf_addr mm mp cfg set_max hash_max_entries hash_max_value a0 a1 load_other luaCreateFunction load_module_aux rdbflags).
Abbreviation kept := (kept cfg rdbflags).
Abbreviation pair_ok := (pair_ok buf_addr rdb_compression htab mm mp cfg set_max hash_max_entries hash_max_value a0 a1 load_other luaCreateFunction load_module_aux rdbflags pol idle lfu).

(** ** Saving the databases *)

(** [ended r r' w bs ok]: the stream has written [bs] as well, or its device has failed. *)
Definition ended (r r' : rio B) (w bs : bytes) (ok : bool) : Prop :=
  same_settings r r' /\ (ok = true /\ wstate r' (w ++ bs) \/ ok = false /\ reliable = false).

Lemma settings_trans (r1 r2 r3 : rio B) : same_settings r1 r2 -> same_settings r2 r3 -> same_settings r1 r3.
Proof. unfold same_settings. intuition congruence. Qed.

Definition key_saved (m : gmap bytes (robj * option Z)) (ko : bytes * robj) (bs : bytes) : Prop :=
  saves (rdbSaveKeyValuePair ko.1 ko.2 (default (-1) (expiry m ko.1))) bs 1.

Lemma save_keys_spec l bss m n : Forall2 (key_saved m) l bss -> forall fuel s di r w, walking s m n di l -> (length l < fuel)%nat -> wstate r w ->
  zlen w + zlen (concat bss) < SDS_BOUND ->
  exists r' s' ok, save_keys fuel s di r = Some (r', s', ok) /\ db_repr s' m /\ iterators (db_dict s') = n /\ ended r r' w (concat bss) ok.
Proof.
  induction 1 as [|[k o] bs l bss Hb _ IH]; intros [|fuel] s di r w Hw Hf Hr Hl; cbn [length] in Hf; try lia; cbn [RdbFile.save_keys];
    destruct (walking_next a0 a1 s m n di _ Hw) as (d & di' & -> & Hw' & Hfr); cbn [mbind option_bind head tail] in *.
  - destruct (walking_release a0 a1 _ m n di' _ Hw' Hfr) as (d' & E & Hd & Hi). cbn [db_dict db_expires st_stats] in *. rewrite E. cbn [mbind option_bind].
    eexists r, _, true. split; [done|]. split; [done|]. split; [done|]. split; [done|]. left. cbn. by rewrite app_nil_r.
  - destruct (walking_expire _ m n di' _ k Hw' Hfr) as (s1 & -> & Hw1). cbn [mbind option_bind]. cbn [concat] in *. rewrite zlen_app in Hl. pose proof (zlen_nonneg (concat bss)).
    destruct (on_rio_spec (rdbSaveKeyValuePair k o (default (-1) (expiry m k))) bs 1 r w Hb Hr ltac:(lia)) as (r1 & v & -> & Hs1 & Hv). cbn [mbind option_bind]. destruct Hv as [[-> Hr1]|[-> Hrel]].
    + change (1 =? -1) with false. cbv iota. destruct (IH fuel s1 di' r1 (w ++ bs) Hw1 ltac:(lia) Hr1) as (r2 & s2 & ok & -> & Hs2 & Hi2 & Hst & Hend);
        [rewrite zlen_app; lia|]. exists r2, s2, ok. do 3 (split; [done|]). split; [by eapply settings_trans|]. by rewrite <- app_assoc in Hend.
    + change (-1 =? -1) with true. cbv iota. destruct (walking_release a0 a1 _ m n di' _ Hw1 Hfr) as (d' & -> & Hd & Hi). cbn [mbind option_bind].
      eexists r1, _, false. split; [done|]. split; [done|]. split; [done|]. split; [done|by right].
Qed.

(** The opcodes in front of the keys of a database. *)
Definition db_header (j n e : Z) : bytes := RDB_OPCODE_SELECTDB :: len_bytes j ++ RDB_OPCODE_RESIZEDB :: len_bytes n ++ len_bytes e.

Lemma saves_header j n e : 0 <= j < 2 ^ 64 -> 0 <= n < 2 ^ 64 -> 0 <= e < 2 ^ 64 ->
  saves (sbind (rdbSaveType buf_addr RDB_OPCODE_SELECTDB) (fun _ => sbind (rdbSaveLen buf_addr j) (fun _ => sbind (rdbSaveType buf_addr RDB_OPCODE_RESIZEDB)
    (fun _ => sbind (rdbSaveLen buf_addr n) (fun _ => rdbSaveLen buf_addr e))))) (db_header j n e) (zlen (len_bytes e)).
Proof.
  intros Hj Hn He. apply (saves_bind _ _ [RDB_OPCODE_SELECTDB] _ 1); [apply (saves_raw buf_addr [_]); by repeat constructor|].
  eapply saves_bind; [by apply saves_len|]. apply (saves_bind _ _ [RDB_OPCODE_RESIZEDB] _ 1); [apply (saves_raw buf_addr [_]); by repeat constructor|].
  eapply saves_bind; [by apply saves_len|]. by apply saves_len.
Qed.

(** The bytes of a database. *)
Definition db_bytes (j : Z) (s : state robj) (bss : list bytes) : bytes :=
  if dictSize (db_dict s) =? 0 then [] else db_header j (dictSize (db_dict s)) (dictSize (db_expires s)) ++ concat bss.

Lemma sizes_repr (s : state robj) m : db_repr s m ->
  dictSize (db_dict s) = Z.of_nat (base.size m) /\ dictSize (db_dict s) = zlen (entries (db_dict s)) /\ 0 <= dictSize (db_expires s) < DICT_BOUND /\ Z.of_nat (base.size m) < DICT_BOUND.
Proof.
  intros Hs. pose proof Hs as [Hd He Ht Hf]. pose proof (repr_bound _ _ Hd (fits_values m Hf)) as Hb. pose proof (fits_expires m Hf) as Hfe. pose proof (repr_bound _ _ He Hfe) as Hbe.
  destruct (size_entries (db_dict s)) as [Ed _]; [apply Hd|lia|]. destruct (size_entries (db_expires s)) as [Ee _]; [apply He|lia|].
  pose proof (repr_entries _ _ Hd) as E. rewrite map_size_fmap in E. pose proof (zlen_nonneg (entries (db_expires s))). unfold fits in Hf. lia.
Qed.

Lemma save_db_spec j s m bss r w : db_repr s m -> 0 <= iterators (db_dict s) -> Forall2 (key_saved m) (entries (db_dict s)) bss -> 0 <= j < 2 ^ 64 -> wstate r w ->
  zlen w + zlen (db_bytes j s bss) < SDS_BOUND ->
  exists r' s' ok, save_db j s r = Some (r', s', ok) /\ db_repr s' m /\ iterators (db_dict s') = iterators (db_dict s) /\ ended r r' w (db_bytes j s bss) ok.
Proof.
  intros Hs Hi Hb Hj Hr Hl. unfold RdbFile.save_db. unfold db_bytes in *. destruct (sizes_repr s m Hs) as (E1 & E2 & E3 & E4). unfold DICT_BOUND in *.
  destruct (Z.eqb_spec (dictSize (db_dict s)) 0) as [E0|E0].
  { exists r, s, true. do 3 (split; [done|]). split; [done|]. left. by rewrite app_nil_r. }
  rewrite zlen_app in Hl. pose proof (zlen_nonneg (concat bss)). pose proof (zlen_nonneg (len_bytes (dictSize (db_expires s)))).
  destruct (on_rio_spec _ _ _ r w (saves_header j (dictSize (db_dict s)) (dictSize (db_expires s)) Hj ltac:(lia) ltac:(lia)) Hr ltac:(lia)) as (r1 & v & -> & Hs1 & Hv).
  cbn [mbind option_bind]. destruct Hv as [[-> Hr1]|[-> Hrel]].
  - zfalse (zlen (len_bytes (dictSize (db_expires s))) =? -1). destruct (save_keys_spec _ _ m _ Hb (S (Z.to_nat (dictSize (db_dict s)))) s dictGetSafeIterator r1
        (w ++ db_header j (dictSize (db_dict s)) (dictSize (db_expires s))) (walking_start s m Hs Hi))
      as (r' & s' & ok & -> & Hs' & Hi' & Hst & Hend); [rewrite E2; unfold zlen; lia|done|rewrite zlen_app; lia|].
    exists r', s', ok. do 3 (split; [done|]). split; [by eapply settings_trans|]. by rewrite <- app_assoc in Hend.
  - change (-1 =? -1) with true. cbv iota. exists r1, s, false. do 3 (split; [done|]). split; [done|by right].
Qed.

(** All databases, from number [j] on. *)
Inductive dbs_saved : Z -> list (state robj) -> list (gmap bytes (robj * option Z)) -> bytes -> Prop :=
  | SavedNil j : dbs_saved j [] [] []
  | SavedCons j s dbs m ms bss bs : db_repr s m -> 0 <= iterators (db_dict s) -> Forall2 (key_saved m) (entries (db_dict s)) bss ->
      dbs_saved (j + 1) dbs ms bs -> dbs_saved j (s :: dbs) (m :: ms) (db_bytes j s bss ++ bs).

Lemma saved_repr j dbs ms bs : dbs_saved j dbs ms bs -> Forall2 db_repr dbs ms.
Proof. induction 1; constructor; done. Qed.

Lemma save_dbs_spec j dbs ms bs : dbs_saved j dbs ms bs -> forall r w, 0 <= j -> j + zlen dbs < 2 ^ 64 -> wstate r w -> zlen w + zlen bs < SDS_BOUND ->
  exists r' dbs' ok, save_dbs j dbs r = Some (r', dbs', ok) /\ Forall2 db_repr dbs' ms /\ ended r r' w bs ok.
Proof.
  induction 1 as [j|j s dbs m ms bss bs Hs Hi Hb Hd IH]; intros r w Hj Hn Hr Hl; cbn [RdbFile.save_dbs].
  { exists r, [], true. split; [done|]. split; [done|]. split; [done|]. left. by rewrite app_nil_r. }
  rewrite zlen_app in Hl. rewrite zlen_cons in Hn. pose proof (zlen_nonneg bs). pose proof (zlen_nonneg dbs).
  destruct (save_db_spec j s m bss r w Hs Hi Hb ltac:(lia) Hr ltac:(lia)) as (r1 & s' & ok & -> & Hs' & _ & Hst & Hend). cbn [mbind option_bind].
  destruct Hend as [[-> Hr1]|[-> Hrel]].
  - destruct (IH r1 (w ++ db_bytes j s bss) ltac:(lia) ltac:(lia) Hr1) as (r2 & dbs' & ok & -> & Hds & Hst2 & Hend2); [rewrite zlen_app; lia|]. cbn [mbind option_bind].
    exists r2, (s' :: dbs'), ok. split; [done|]. split; [by constructor|]. split; [by eapply settings_trans|]. by rewrite <- app_assoc in Hend2.
  - exists r1, (s' :: dbs), false. split; [done|]. split; [constructor; [done|by eapply saved_repr]|]. split; [done|by right].
Qed.

(** ** Loading the keys of a database *)

(** The database holds the values [vs], each object in the relation [P] to its value. *)
Definition holds (P : robj -> aval -> Prop) (s : state robj) (vs : gmap bytes (aval * option Z)) : Prop :=
  exists m, db_repr s m /\ map_Forall2 (fun _ e a => P e.1 a.1 /\ e.2 = a.2) m vs.

Lemma related_none {R : bytes -> robj * option Z -> aval * option Z -> Prop} (m : gmap bytes (robj * option Z)) (vs : gmap bytes (aval * option Z)) k : map_Forall2 R m vs -> m !! k = None <-> vs !! k = None.
Proof. intros Hm. specialize (Hm k). destruct Hm; done. Qed.

Lemma related_size {R : bytes -> robj * option Z -> aval * option Z -> Prop} (m : gmap bytes (robj * option Z)) (vs : gmap bytes (aval * option Z)) :
  map_Forall2 R m vs -> base.size m = base.size vs.
Proof.
  intros Hm. rewrite <- !size_dom. f_equal. apply sets.set_eq. intros k. rewrite !elem_of_dom. specialize (Hm k).
  destruct Hm; split; intros [? ?]; done || by eexists.
Qed.

(** The bytes of a key, as the loader of any database takes them. *)
Definition loadable (q : bytes * (aval * option Z)) (bs : bytes) : Prop :=
  forall st0 j s m, at_db st0 j s -> db_repr s m -> m !! q.1 = None -> (forall x : robj, fits (<[q.1 := (x, q.2.2)]> m)) ->
    advance st0 bs (fun st' =>
      if kept q.2 then exists s' x, st' = set_db_at j s' st0 /\ db_repr s' (<[q.1 := (x, q.2.2)]> m) /\ obj_repr x q.2.1 else st' = st0).

Definition load_all (A : list (bytes * (aval * option Z))) (vs : gmap bytes (aval * option Z)) : gmap bytes (aval * option Z) :=
  foldl (fun vs q => if kept q.2 then <[q.1 := q.2]> vs else vs) vs A.

Lemma set_db_same st j s : at_db st j s -> set_db_at j s st = st.
Proof. intros [_ Hs _]. unfold set_db_at, set_dbs. rewrite list_insert_id by done. by destruct st. Qed.

Lemma advance_one q bs st j s vs : loadable q bs -> at_db st j s -> holds obj_repr s vs -> vs !! q.1 = None -> Z.of_nat (base.size vs) + 2 < DICT_BOUND ->
  advance st bs (fun st' => exists s', st' = set_db_at j s' st /\ holds obj_repr s' (if kept q.2 then <[q.1 := q.2]> vs else vs)).
Proof.
  intros Hq Hat (m & Hm & Hr) Hk Hsz. pose proof (proj2 (related_none m vs q.1 Hr) Hk) as Hk'. pose proof (related_size m vs Hr) as Hs.
  eapply advance_weaken; [|apply (Hq st j s m Hat Hm Hk')]; [|intros x; unfold fits; rewrite map_size_insert_None by done; lia].
  intros st' Hst. destruct (kept q.2); [|subst st'; exists s; split; [symmetry; by apply set_db_same|by exists m]].
  destruct Hst as (s' & x & -> & Hs' & Hx). exists s'. split; [done|]. eexists. split; [exact Hs'|]. destruct q as [k [v e]]. by apply map_Forall2_insert_2.
Qed.

Lemma advance_keys A bss : Forall2 loadable A bss -> NoDup A.*1 -> forall st j s vs, at_db st j s -> holds obj_repr s vs ->
  (forall k, k ∈ A.*1 -> vs !! k = None) -> Z.of_nat (base.size vs) + zlen A + 1 < DICT_BOUND ->
  advance st (concat bss) (fun st' => exists s', st' = set_db_at j s' st /\ holds obj_repr s' (load_all A vs)).
Proof.
  induction 1 as [|q bs A bss Hq _ IH]; intros Hn st j s vs Hat Hh Hk Hsz; cbn [concat].
  { apply advance_nil. exists s. split; [symmetry; by apply set_db_same|done]. }
  cbn [fmap list_fmap] in Hn, Hk. apply NoDup_cons in Hn as [Hq1 Hn]. rewrite zlen_cons in Hsz. pose proof (zlen_nonneg A).
  eapply advance_trans; [apply (advance_one q bs st j s vs Hq Hat Hh); [apply Hk; by left|lia]|]. intros st' (s' & -> & Hs').
  eapply advance_weaken; [|apply (IH Hn _ j s' _ (put_at _ _ _ s' Hat) Hs')].
  - intros st' (s2 & -> & Hs2). exists s2. split; [apply put_put|done].
  - intros k Hin. assert (vs !! k = None) by (apply Hk; by right). destruct (kept q.2); [|done]. rewrite lookup_insert_ne; [done|]. intros E. apply Hq1. by rewrite E.
  - destruct (kept q.2); [|lia]. rewrite map_size_insert_None by (apply Hk; by left). lia.
Qed.

(** What is left of the values when the expired keys are dropped. *)
Definition restored (vs : gmap bytes (aval * option Z)) : gmap bytes (aval * option Z) := filter (fun ka => kept ka.2 = true) vs.

Lemma load_all_lookup A : NoDup A.*1 -> forall vs k, 
  load_all A vs !! k = match (list_to_map A : gmap bytes (aval * option Z)) !! k with Some a => if kept a then Some a else vs !! k | None => vs !! k end.
Proof.
  induction A as [|[k0 a0'] A IH]; intros Hn vs k; [done|]. cbn [fmap list_fmap] in Hn. apply NoDup_cons in Hn as [Hk0 Hn]. cbn [load_all foldl fst snd list_to_map foldr].
  change (foldl _ ?x A) with (load_all A x). rewrite (IH Hn). change (foldr _ ∅ A) with (list_to_map A : gmap bytes (aval * option Z)).
  destruct (decide (k = k0)) as [->|Hne].
  - rewrite not_elem_of_list_to_map_1 by done. rewrite lookup_insert_eq. destruct (kept a0'); [by rewrite lookup_insert_eq|done].
  - rewrite lookup_insert_ne by done. destruct (kept a0'); [|done]. by rewrite lookup_insert_ne.
Qed.

Lemma load_all_restored A : NoDup A.*1 -> load_all A ∅ = restored (list_to_map A).
Proof.
  intros Hn. apply map_eq. intros k. rewrite load_all_lookup by done. unfold restored. rewrite map_lookup_filter, lookup_empty.
  destruct ((list_to_map A : gmap bytes (aval * option Z)) !! k) as [a|] eqn:E; [|done]. cbn. unfold guard. destruct (decide_rel _ _ _) as [->|Hf]; [done|]. by destruct (kept a).
Qed.

(** ** The bytes of a database *)

Lemma db_repr_det (s : state robj) m m' : db_repr s m -> db_repr s m' -> m = m'.
Proof.
  intros [[_ Hd] [_ He] _ _] [[_ Hd'] [_ He'] _ _]. rewrite Hd in Hd'. rewrite He in He'. apply map_eq. intros k.
  apply (f_equal (lookup k)) in Hd', He'. rewrite !lookup_fmap in Hd'. rewrite !lookup_omap in He'.
  destruct (m !! k) as [[o e]|], (m' !! k) as [[o' e']|]; cbn in *; try done. by injection Hd' as ->; subst.
Qed.

(** A database that can be saved. *)
Definition saveable_db (s : state robj) (vs : gmap bytes (aval * option Z)) : Prop :=
  holds (saveable hash_max_entries hash_max_value) s vs /\ map_Forall (fun k _ => bytes_ok k /\ zlen k < 4294967296) vs /\ 0 <= iterators (db_dict s).

(** A bound of the bytes of its keys, from the sizes that rdbSavedObjectLen finds. *)
Definition keys_room (l : list (bytes * robj)) : Z :=
  foldr (fun ko n => zlen ko.1 + default 0 (rdbSavedObjectLen (B := B) buf_addr rdb_compression htab a0 a1 ko.2) + 40 + n) 0 l.

Lemma entries_pairs m vs l : map_Forall2 (fun _ e a => saveable hash_max_entries hash_max_value e.1 a.1 /\ e.2 = a.2) m vs ->
  map_Forall (fun k _ => bytes_ok k /\ zlen k < 4294967296) vs -> map_Forall (fun _ e => expire_ok e) m -> Forall (fun ko => fst <$> m !! ko.1 = Some ko.2) l ->
  exists bss A, Forall2 (key_saved m) l bss /\ Forall2 loadable A bss /\ A.*1 = l.*1 /\ Forall (fun q => vs !! q.1 = Some q.2) A /\ zlen (concat bss) <= keys_room l.
Proof.
  intros Hr Hk Ht. induction 1 as [|[k o] l Hko _ (bss & A & Hs & Hl & HA & Hvs & Hz)]; [by exists [], []|]. cbn [fst snd] in Hko.
  destruct (m !! k) as [[o' e]|] eqn:Em; [|done]. injection Hko as ->. pose proof (Hr k) as Hrk. rewrite Em in Hrk. inversion Hrk as [? [v e'] [Hsv Ee] E1 E2|]; subst. cbn in Hsv, Ee. subst e'.
  symmetry in E2. destruct (Hk k _ E2) as [Hkb Hkl]. pose proof (Ht k _ Em) as Hok.
  destruct (pair_saved buf_addr rdb_compression htab mm mp Hhtab cfg set_max hash_max_entries hash_max_value a0 a1 load_other luaCreateFunction load_module_aux rdbflags
    pol idle lfu Hidle k o v e Hkb Hkl Hsv Hok) as (bs & Hsave & (n & En & Hn) & Hload).
  exists (bs :: bss), ((k, (v, e)) :: A). split; [constructor; [|done]|split; [by constructor|split; [cbn; by rewrite HA|split; [by constructor|]]]].
  - unfold key_saved, expiry. cbn [fst snd]. rewrite Em. exact Hsave.
  - cbn [concat keys_room foldr fst snd]. fold (keys_room l). rewrite zlen_app, En. cbn. lia.
Qed.

Lemma db_pairs s vs : saveable_db s vs ->
  exists m bss A, db_repr s m /\ Forall2 (key_saved m) (entries (db_dict s)) bss /\ Forall2 loadable A bss /\ NoDup A.*1 /\ list_to_map A = vs /\
    zlen (concat bss) <= keys_room (entries (db_dict s)) /\ zlen A = Z.of_nat (base.size vs).
Proof.
  intros ((m & Hm & Hr) & Hk & _). pose proof Hm as [[Hwf Hd] He Ht Hf]. pose proof (wf_nodup _ Hwf) as Hn.
  destruct (entries_pairs m vs (entries (db_dict s)) Hr Hk Ht) as (bss & A & Hs & Hl & HA & Hvs & Hz).
  { apply Forall_forall. intros [k o] Hin. cbn [fst snd]. rewrite <- lookup_fmap, <- Hd. by apply elem_of_list_to_map_1. }
  assert (NoDup A.*1) as HnA by (by rewrite HA). assert (list_to_map A = vs) as Ev.
  { apply map_eq. intros k. destruct ((list_to_map A : gmap bytes (aval * option Z)) !! k) as [a|] eqn:E.
    - apply elem_of_list_to_map_2 in E. rewrite Forall_forall in Hvs. symmetry. exact (Hvs _ E).
    - apply not_elem_of_list_to_map_2 in E. rewrite HA in E. symmetry. apply (related_none m vs k Hr).
      assert ((fst <$> m : gmap bytes robj) !! k = None) as Ek by (rewrite <- Hd; by apply not_elem_of_list_to_map_1). rewrite lookup_fmap in Ek. by destruct (m !! k). }
  exists m, bss, A. do 6 (split; [done|]). rewrite <- Ev. unfold zlen. rewrite map_size_list_to_map by done. done.
Qed.

(** A database that is loaded: it is selected and resized, and its keys are added. *)
Definition clean (st : load_state) : Prop := l_expire st = -1 /\ l_lfu st = -1 /\ l_lru st = -1.

Lemma advance_db st j s0 s m bss A : clean st -> l_dbs st !! j = Some s0 -> holds obj_repr s0 ∅ -> zlen (l_dbs st) < RDB_LENERR -> db_repr s m -> 
  Forall2 loadable A bss -> NoDup A.*1 -> zlen A = Z.of_nat (base.size m) -> (dictSize (db_dict s) = 0 -> A = []) ->
  advance st (db_bytes (Z.of_nat j) s bss) (fun st' => exists s' n, st' = set_db_at j s' (select_db n st) /\ holds obj_repr s' (restored (list_to_map A))).
Proof.
  intros Hc Hj H0s Hlen Hs Hl Hn Hz Hemp. destruct (sizes_repr s m Hs) as (E1 & E2 & E3 & E4). unfold db_bytes.
  destruct (Z.eqb_spec (dictSize (db_dict s)) 0) as [E0|E0].
  { rewrite (Hemp E0). apply advance_nil. exists s0, (l_db st). split; [|by rewrite <- (load_all_restored []) by constructor].
    unfold set_db_at, set_dbs, select_db. cbn. rewrite list_insert_id by done. by destruct st. }
  assert (Z.of_nat j < zlen (l_dbs st)) as Hjl by (apply lookup_lt_Some in Hj; unfold zlen; lia).
  set (st1 := select_db (Z.of_nat j) st). assert (at_db st1 j s0) as Hat by (by split).
  replace (db_header (Z.of_nat j) (dictSize (db_dict s)) (dictSize (db_expires s)) ++ concat bss) with
    ((RDB_OPCODE_SELECTDB :: len_bytes (Z.of_nat j)) ++ (RDB_OPCODE_RESIZEDB :: len_bytes (dictSize (db_dict s)) ++ len_bytes (dictSize (db_expires s))) ++ concat bss)
    by (unfold db_header; lapp).
  eapply advance_trans; [apply advance_select; lia|]. intros ? ->. fold st1. destruct H0s as (m0 & Hm0 & Hr0). unfold DICT_BOUND in *.
  eapply advance_trans; [apply (advance_resize _ _ _ _ _ _ _ _ _ _ _ _ _ st1 j s0 m0); [done|done|lia|lia]|]. intros st2 (s1 & -> & Hs1).
  eapply advance_weaken; [|apply (advance_keys A bss Hl Hn (set_db_at j s1 st1) j s1 ∅ (put_at _ _ _ s1 Hat))].
  - intros st' (s' & -> & Hs'). exists s', (Z.of_nat j). rewrite put_put. split; [done|]. by rewrite <- load_all_restored.
  - by exists m0.
  - intros k _. apply lookup_empty.
  - rewrite map_size_empty. unfold DICT_BOUND. destruct Hs as [_ _ _ Hf]. unfold fits, DICT_BOUND in Hf. lia.
Qed.

(** ** All databases *)

Definition dbs_room (dbs : list (state robj)) : Z := foldr (fun s n => 40 + keys_room (entries (db_dict s)) + n) 0 dbs.

Lemma zlen_db_bytes j s bss n : zlen (concat bss) <= n -> zlen (db_bytes j s bss) <= 40 + n.
Proof.
  intros Hn. pose proof (zlen_nonneg (concat bss)). unfold db_bytes. destruct (_ =? 0); [rewrite zlen_nil; lia|]. unfold db_header.
  pose proof (zlen_len_bytes j). pose proof (zlen_len_bytes (dictSize (db_dict s))). pose proof (zlen_len_bytes (dictSize (db_expires s))).
  rewrite zlen_app, zlen_cons, zlen_app, zlen_cons, zlen_app. lia.
Qed.

(** The databases from number [j] on, as they are saved and as they are loaded. *)
Definition dbs_loaded (j : nat) (vss : list (gmap bytes (aval * option Z))) (bs : bytes) : Prop :=
  forall st before rest, clean st -> l_dbs st = before ++ rest -> length before = j -> length rest = length vss -> Forall (fun s => holds obj_repr s ∅) rest ->
    zlen (l_dbs st) < RDB_LENERR ->
    advance st bs (fun st' => clean st' /\ l_rsi st' = l_rsi st /\ l_scripts st' = l_scripts st /\
      exists news, l_dbs st' = before ++ news /\ Forall2 (fun s vs => holds obj_repr s (restored vs)) news vss).

Lemma dbs_pieces dbs vss : Forall2 saveable_db dbs vss -> forall j,
  exists ms bs, dbs_saved (Z.of_nat j) dbs ms bs /\ dbs_loaded j vss bs /\ zlen bs <= dbs_room dbs /\
    forall dbs', Forall2 db_repr dbs' ms -> Forall2 (holds (saveable hash_max_entries hash_max_value)) dbs' vss.
Proof.
  induction 1 as [|s vs dbs vss Hs _ IH]; intros j.
  { exists [], []. split; [constructor|]. split; [|split; [done|]].
    - intros st before rest Hc Hd Hb Hr _ _. apply advance_nil. do 3 (split; [done|]). destruct rest; [|done]. exists []. by split.
    - intros dbs' Hd. inversion Hd. constructor. }
  destruct (db_pairs s vs Hs) as (m & bss & A & Hm & Hsave & Hload & Hn & HA & Hz & HzA). destruct Hs as ((m' & Hm' & Hr') & Hk & Hi).
  assert (m' = m) as -> by (by eapply db_repr_det). clear Hm'. pose proof (related_size m vs Hr') as Hsz.
  destruct (IH (S j)) as (ms & bs & IHs & IHl & IHz & IHh). rewrite Nat2Z.inj_succ in IHs. exists (m :: ms), (db_bytes (Z.of_nat j) s bss ++ bs).
  split; [by constructor|]. split; [|split].
  - intros st before rest Hc Hd Hb Hr Hrest Hlen. destruct rest as [|s0 rest]; [done|]. apply Forall_cons_1 in Hrest as [H0s Hrest].
    assert (l_dbs st !! j = Some s0) as Hj by (rewrite Hd, <- Hb; apply list_lookup_middle; done).
    eapply advance_trans; [apply (advance_db st j s0 s m bss A Hc Hj H0s Hlen Hm Hload Hn); [lia|]|].
    { intros E0. destruct (sizes_repr s m Hm) as (E1 & _). destruct A as [|q A]; [done|]. rewrite zlen_cons in HzA. pose proof (zlen_nonneg A). lia. }
    intros st' (s' & n & -> & Hs'). rewrite HA in Hs'.
    assert (l_dbs (set_db_at j s' (select_db n st)) = (before ++ [s']) ++ rest) as Ed.
    { cbn. rewrite Hd, <- Hb. rewrite insert_app_r_alt, Nat.sub_diag by done. cbn. lapp. }
    eapply advance_weaken; [|apply (IHl (set_db_at j s' (select_db n st)) (before ++ [s']) rest Hc Ed)].
    + intros st2 (Hc2 & Hr2 & Hs2 & news & E2 & Hn2). do 3 (split; [done|]). exists (s' :: news). split; [rewrite E2; lapp|]. by constructor.
    + rewrite length_app. cbn. lia.
    + cbn in Hr. lia.
    + done.
    + rewrite Ed. rewrite Hd in Hlen. unfold zlen in *. rewrite !length_app in *. cbn in *. lia.
  - cbn [dbs_room foldr]. fold (dbs_room dbs). rewrite zlen_app. pose proof (zlen_db_bytes (Z.of_nat j) s bss _ Hz). lia.
  - intros dbs' Hd. inversion Hd as [|s1 ? dbs1 ? H1r Hd1]; subst. constructor; [by exists m|by apply IHh].
Qed.

(** ** Auxiliary fields and scripts

    [piece f g n]: what [f] writes, at most [n] bytes, makes the loader apply [g]. *)

Definition piece (f : saver (B := B)) (g : load_state -> load_state) (n : Z) : Prop :=
  exists bs v, saves f bs v /\ zlen bs <= n /\ forall st, advance st bs (fun x => x = g st).

Lemma piece_bind f f' g g' n n' : piece f g n -> piece f' g' n' -> piece (sbind f (fun _ => f')) (fun st => g' (g st)) (n + n').
Proof.
  intros (b & v & Hs & Hb & Ha) (b' & v' & Hs' & Hb' & Ha'). exists (b ++ b'), v'. split; [by eapply saves_bind|]. split; [rewrite zlen_app; lia|].
  intros st. eapply advance_trans; [apply Ha|]. intros ? ->. apply Ha'.
Qed.

Lemma piece_nil f g : saves f [] 0 -> (forall st, g st = st) -> piece f g 0.
Proof. intros Hs Hg. exists [], 0. split; [done|]. split; [done|]. intros st. apply advance_nil. symmetry. apply Hg. Qed.

Lemma piece_end f g n v : piece f g n -> 0 <= v -> piece (sbind f (fun _ => written v)) g n.
Proof. intros (b & v' & Hs & Hb & Ha) Hv. exists b, v. split; [eapply saves_end; [exact Hs|]; by apply saves_written|]. by split. Qed.

Lemma piece_le f g n n' : piece f g n -> n <= n' -> piece f g n'.
Proof. intros (b & v & Hs & Hb & Ha) Hn. exists b, v. split; [done|]. split; [lia|done]. Qed.

Lemma piece_ext f g g' n : (forall st, g st = g' st) -> piece f g n -> piece f g' n.
Proof. intros Hg (b & v & Hs & Hb & Ha). exists b, v. split; [done|]. split; [done|]. intros st. rewrite <- Hg. apply Ha. Qed.

(** The names of fields are short. *)
Ltac key_ok := vm_compute; (congruence || (repeat constructor; congruence)).

Lemma piece_aux key krest val vrest g : bytes_ok key -> zlen key < 4294967296 -> bytes_ok val -> zlen val < 4294967296 ->
  (zlen val <= 11 -> exists a r, val ++ vrest = a ++ 0 :: r) -> (forall st, aux_does luaCreateFunction (B := B) key val st (g st)) ->
  piece (rdbSaveAuxField buf_addr rdb_compression htab (key ++ 0 :: krest) (zlen key) (val ++ vrest) (zlen val)) g (zlen key + zlen val + 31).
Proof.
  intros Hk Hkl Hv Hvl Ha Hg. destruct (saves_aux buf_addr rdb_compression htab mm mp Hhtab key krest val vrest Hk Hkl Hv Hvl Ha) as (b1 & b2 & Hs & Hr1 & Hr2 & Hb1 & Hb2).
  exists ([RDB_OPCODE_AUX] ++ b1 ++ b2), (1 + zlen b1 + zlen b2). split; [exact Hs|]. split; [rewrite (zlen_app [_]), zlen_app, zlen_cons, zlen_nil; lia|].
  intros st. by apply (advance_aux _ _ _ _ _ _ _ _ _ _ _ _ _ key val).
Qed.

Lemma piece_str key val g : bytes_ok key -> zlen key < 4294967296 -> bytes_ok val -> zlen val < 4294967296 ->
  (forall st, aux_does luaCreateFunction (B := B) key val st (g st)) -> piece (rdbSaveAuxFieldStrStr buf_addr rdb_compression htab key val) g (zlen key + zlen val + 31).
Proof. intros Hk Hkl Hv Hvl Hg. apply (piece_aux key [] val [0]); try done. intros _. by exists val, []. Qed.

Lemma piece_int key v g : bytes_ok key -> zlen key < 4294967296 -> in_s 64 v ->
  (forall st, aux_does luaCreateFunction (B := B) key (sdec v) st (g st)) -> piece (rdbSaveAuxFieldStrInt buf_addr rdb_compression htab key v) g (zlen key + 20 + 31).
Proof.
  intros Hk Hkl Hv Hg. destruct (ll2string_local LONG_STR_SIZE v Hv ltac:(done)) as (rest & E). pose proof (sdec_bound v Hv) as Hb.
  destruct (piece_aux key [] (sdec v) (0 :: rest) g) as (bs & n & Hs & Hz & Ha); [done|done|by apply sdec_bytes|lia|intros _; by exists (sdec v), rest|done|].
  exists bs, n. split; [eapply saves_ext; [|exact Hs]; intros rdb; unfold rdbSaveAuxFieldStrInt; by rewrite E|]. split; [lia|done].
Qed.

Section Info.
Context (time_now used_memory : Z) (replid : bytes) (master_repl_offset : Z) (sflags : Z).
Hypothesis Htime : in_s 64 time_now.
Hypothesis Hmem : in_s 64 used_memory.
Hypothesis Hoffset : in_s 64 master_repl_offset.
Hypothesis Hreplid : bytes_ok replid /\ zlen replid = CONFIG_RUN_ID_SIZE.

(** The replication information that the loader finds. *)
Definition info_found (rsi : option rdbSaveInfo) (st : load_state) : load_state :=
  match rsi with
  | Some rsi => with_repl_offset master_repl_offset (with_repl_id (replid ++ [0]) (with_stream_db (repl_stream_db rsi) st))
  | None => st
  end.

Lemma logged key val st : In key (bytes_of_string <$> ["redis-ver"; "redis-bits"; "ctime"; "used-mem"; "aof-preamble"]%string) ->
  aux_does luaCreateFunction (B := B) key val st st.
Proof. apply aux_logged. Qed.

Lemma piece_info rsi : (forall i, rsi = Some i -> in_s 32 (repl_stream_db i)) ->
  piece (rdbSaveInfoAuxFields buf_addr rdb_compression htab time_now used_memory replid master_repl_offset sflags rsi) (info_found rsi) 700.
Proof.
  intros Hrsi. destruct Hreplid as [Hid Hidl]. unfold rdbSaveInfoAuxFields, CONFIG_RUN_ID_SIZE in *.
  assert (forall key v, In key (bytes_of_string <$> ["redis-bits"; "ctime"; "used-mem"; "aof-preamble"]%string) -> in_s 64 v ->
    piece (rdbSaveAuxFieldStrInt buf_addr rdb_compression htab key v) (fun st => st) 70) as Hlog.
  { intros key v Hk Hv. cbn in Hk. apply (piece_le _ _ (zlen key + 20 + 31)); [apply piece_int; [|..|done|]|];
      [..|intros st; apply logged; cbn; tauto|]; destruct Hk as [<-|[<-|[<-|[<-|[]]]]]; key_ok. }
  eapply piece_le; [eapply (piece_ext _ (fun st => info_found rsi st)); [done|]|].
  - eapply (piece_bind _ _ (fun st => st)); [apply piece_str; [key_ok..|intros st; apply logged; cbn; tauto]|].
    eapply (piece_bind _ _ (fun st => st)); [apply Hlog; [cbn; tauto|done]|].
    eapply (piece_bind _ _ (fun st => st)); [apply Hlog; [cbn; tauto|done]|].
    eapply (piece_bind _ _ (fun st => st)); [apply Hlog; [cbn; tauto|done]|].
    eapply (piece_bind _ _ (info_found rsi) (fun st => st)); [|apply piece_end; [apply Hlog; [cbn; tauto|by destruct (_ =? 0)]|lia]].
    instantiate (1 := 300). destruct rsi as [i|]; [|apply (piece_le _ _ 0); [|lia]; apply piece_nil; [by apply saves_written|done]].
    apply (piece_le _ _ ((14 + 20 + 31) + ((7 + 40 + 31) + (11 + 20 + 31)))); [|lia]. specialize (Hrsi i eq_refl).
    apply (piece_bind _ _ (with_stream_db (repl_stream_db i)) (fun st => with_repl_offset master_repl_offset (with_repl_id (replid ++ [0]) st))); [apply (piece_int (bytes_of_string "repl-stream-db")); [key_ok|key_ok|unfold in_s in *; cbn in *; lia|intros st; by apply aux_stream_db]|].
    apply (piece_bind _ _ (with_repl_id (replid ++ [0])) (with_repl_offset master_repl_offset)); [rewrite <- Hidl; apply (piece_str (bytes_of_string "repl-id")); [key_ok|key_ok|done|lia|intros st; by apply aux_repl_id]|].
    apply (piece_int (bytes_of_string "repl-offset")); [key_ok|key_ok|done|intros st; by apply aux_repl_offset].
  - vm_compute. congruence.
Qed.

(** The scripts, which follow the databases. *)
Definition scripts_room (scripts : list bytes) : Z := foldr (fun body n => 3 + zlen body + 31 + n) 0 scripts.
Definition script_ok (body : bytes) : Prop := luaCreateFunction body = true /\ bytes_ok body /\ zlen body < 4294967296.

Lemma piece_scripts l : Forall script_ok l ->
  piece (save_scripts buf_addr rdb_compression htab l) (fun st => foldl (fun st body => add_script body st) st l) (scripts_room l).
Proof.
  induction 1 as [|body l (Hlua & Hb & Hl) _ IH]; [apply piece_nil; [by apply saves_written|done]|].
  cbn [save_scripts foldl scripts_room foldr]. fold (scripts_room l).
  apply (piece_bind _ _ (add_script body) (fun st => foldl (fun st b => add_script b st) st l)); [|exact IH].
  apply (piece_aux (bytes_of_string "lua") [] body [0]); [key_ok|key_ok|done|done|intros _; by exists body, []|]. intros st. by apply aux_lua.
Qed.

Lemma add_scripts l : forall st, let st' := foldl (fun st body => add_script body st) st l in
  l_dbs st' = l_dbs st /\ l_rsi st' = l_rsi st /\ l_scripts st' = l_scripts st ++ l.
Proof.
  induction l as [|b l IH]; intros st; cbn [foldl]; [by rewrite app_nil_r|]. destruct (IH (add_script b st)) as (-> & -> & ->). cbn. by rewrite <- app_assoc.
Qed.

(** ** The end of a file *)

Abbreviation load_loop := (load_loop buf_addr mm mp cfg set_max hash_max_entries hash_max_value a0 a1 load_other luaCreateFunction load_module_aux rdbflags).

Lemma loads_eof st (P : load_state -> Prop) n : P st -> (1 <= n)%nat -> loads (load_loop n st) [RDB_OPCODE_EOF] P.
Proof.
  intros HP Hn. destruct n as [|n]; [lia|]. cbn [RdbFile.load_loop]. eapply loads_end; [apply loads_byte|]. intros ? ->.
  change (RDB_OPCODE_EOF =? RDB_OPCODE_EOF) with true. cbv iota. by apply loads_ret.
Qed.

Lemma advance_loop st bs (Q : load_state -> Prop) fuel : advance st bs Q -> (length bs < fuel)%nat -> loads (load_loop fuel st) (bs ++ [RDB_OPCODE_EOF]) Q.
Proof. intros Ha Hf. apply (Ha 1%nat); [|lia]. intros st' HQ n Hn. by apply loads_eof. Qed.

Lemma verify_spec (check : bool) st r p ck i : reliable = true -> rstate r p (le_bytes 8 ck ++ i) -> update_cksum r = check -> ck = 0 \/ ck = foldl bstep 0 p ->
  exists r', verify_cksum buf_addr check RDB_VERSION st r = Some (r', Got st) /\ rstate r' (p ++ le_bytes 8 ck) i.
Proof.
  intros Hrel Hr Hu Hck. destruct (loads_raw buf_addr (le_bytes 8 ck) 8 (zlen_le_bytes _ _) ltac:(lia) r p i Hrel Hr) as (r' & a & E & Hs & -> & Hr').
  exists r'. split; [|done]. destruct Hr as (_ & _ & (Hp & Hc & _) & _). rewrite Hu in Hc. unfold verify_cksum. change (RDB_VERSION >=? 5) with true. cbv iota.
  unfold lbind. rewrite E. cbn [mbind option_bind]. pose proof (word_fold p 0 word_0 Hp) as Hw. unfold word in Hw.
  assert (le_val (le_bytes 8 ck) = ck) as -> by (rewrite le_val_bytes; change (8 * Z.of_nat 8) with 64; destruct Hck as [->| ->]; [done|by apply Z.mod_small]).
  destruct check; [|done]. rewrite Hc. destruct (Z.eqb_spec ck 0) as [|Hne]; [done|]. destruct Hck as [|Hck]; [done|]. by rewrite <- Hck, Z.eqb_refl.
Qed.

Lemma lbind_got {A C} (f : loader (B := B) A) (g : A -> loader C) r r' a : f r = Some (r', Got a) -> lbind f g r = g a r'.
Proof. intros E. unfold lbind. by rewrite E. Qed.

(** A file: the version, what the loop takes, the end marker and a checksum. *)
Definition file_bytes (body : bytes) (ck : Z) : bytes := magic ++ (body ++ [RDB_OPCODE_EOF]) ++ le_bytes 8 ck.

Lemma load_file check chunk_bytes body ck dbs rsi (Q : load_state -> Prop) fuel r i : reliable = true -> 0 <= chunk_bytes ->
  advance (mk_load dbs 0 (-1) (-1) (-1) rsi []) body Q -> (length body < fuel)%nat -> ck = 0 \/ ck = foldl bstep 0 (magic ++ body ++ [RDB_OPCODE_EOF]) ->
  rstate r [] (file_bytes body ck ++ i) ->
  exists r' st, rdbLoadRio buf_addr check mm mp cfg set_max hash_max_entries hash_max_value a0 a1 load_other luaCreateFunction load_module_aux rdbflags
      chunk_bytes fuel dbs rsi r = Some (r', Got (Some st)) /\ Q st /\ rstate r' (file_bytes body ck) i.
Proof.
  intros Hrel Hcb Ha Hf Hck Hr. unfold rdbLoadRio. set (r0 := mk_rio _ _ _ _ _ _ _). unfold file_bytes in *. rewrite <- !(app_assoc magic) in *. rewrite <- app_assoc in Hr.
  assert (rstate r0 [] (magic ++ (body ++ [RDB_OPCODE_EOF]) ++ le_bytes 8 ck ++ i)) as Hr0.
  { destruct Hr as (He & Hrd & (_ & Hc & _) & Hb). split; [done|]. split; [done|]. split; [|done]. split; [constructor|]. split; [|done]. cbn. rewrite Hc. by destruct (update_cksum r), check. }
  destruct (loads_raw buf_addr magic 9 eq_refl ltac:(lia) r0 [] _ Hrel Hr0) as (r1 & b & E1 & Hs1 & -> & Hr1).
  rewrite (lbind_got _ _ _ _ _ E1). rewrite (lbind_got _ _ r1 r1 0) by (vm_compute; reflexivity). change (negb (0 =? 0)) with false. cbv iota.
  rewrite (lbind_got _ _ r1 r1 RDB_VERSION) by (vm_compute; reflexivity). change ((RDB_VERSION <? 1) || (RDB_VERSION >? RDB_VERSION)) with false. cbv iota.
  destruct (advance_loop _ body Q fuel Ha Hf r1 _ _ Hrel Hr1) as (r2 & st & E2 & Hs2 & HQ & Hr2). rewrite (lbind_got _ _ _ _ _ E2).
  destruct (verify_spec check st r2 _ ck i Hrel Hr2) as (r3 & E3 & Hr3); [destruct Hs1 as [E _], Hs2 as [E' _]; by rewrite E', E|done|].
  rewrite (lbind_got _ _ _ _ _ E3). exists r3, st. split; [done|]. split; [done|]. by rewrite <- !app_assoc in *.
Qed.

(** ** Saving a file *)

Context (lua_scripts : list bytes) (rdbSaveModulesAux : Z -> saver (B := B)).
Hypothesis Hscripts : Forall script_ok lua_scripts.
(** No module has data of its own. *)
Hypothesis Hmodules : forall when, saves (rdbSaveModulesAux when) [] 0.

Definition scripts_saved (rsi : option rdbSaveInfo) : list bytes := if is_some rsi then lua_scripts else [].

Definition file_room (rsi : option rdbSaveInfo) (dbs : list (state robj)) : Z := 718 + dbs_room dbs + scripts_room (scripts_saved rsi).

(** What the loader of a file finds. *)
Definition loaded (rsi rsi0 : option rdbSaveInfo) (vss : list (gmap bytes (aval * option Z))) (st : load_state) : Prop :=
  Forall2 (fun s vs => holds obj_repr s (restored vs)) (l_dbs st) vss /\
  l_rsi st = (match rsi, rsi0 with Some i, Some _ => Some (mk_rsi (repl_stream_db i) true (replid ++ [0]) master_repl_offset) | _, _ => rsi0 end) /\
  l_scripts st = scripts_saved rsi.

Abbreviation header_saver rsi := (sbind (rdbWriteRaw buf_addr magic) (fun _ =>
  sbind (rdbSaveInfoAuxFields buf_addr rdb_compression htab time_now used_memory replid master_repl_offset sflags rsi) (fun _ => rdbSaveModulesAux AUX_BEFORE_RDB))).
Abbreviation tail_saver rsi := (sbind (if is_some (rsi : option rdbSaveInfo) then save_scripts buf_addr rdb_compression htab lua_scripts else written 0) (fun _ =>
  sbind (rdbSaveModulesAux AUX_AFTER_RDB) (fun _ => rdbSaveType buf_addr RDB_OPCODE_EOF))).

Lemma file_pieces rsi dbs vss : (forall i, rsi = Some i -> in_s 32 (repl_stream_db i)) -> Forall2 saveable_db dbs vss -> zlen dbs < 2 ^ 32 ->
  exists b1 b2 b3 ms, saves (header_saver rsi) (magic ++ b1) 0 /\ dbs_saved 0 dbs ms b2 /\ saves (tail_saver rsi) (b3 ++ [RDB_OPCODE_EOF]) 1 /\
    zlen (file_bytes (b1 ++ b2 ++ b3) 0) <= file_room rsi dbs /\
    (forall dbs', Forall2 db_repr dbs' ms -> Forall2 (holds (saveable hash_max_entries hash_max_value)) dbs' vss) /\
    forall dbs0 rsi0, length dbs0 = length vss -> Forall (fun s => holds obj_repr s ∅) dbs0 ->
      advance (mk_load dbs0 0 (-1) (-1) (-1) rsi0 []) (b1 ++ b2 ++ b3) (loaded rsi rsi0 vss).
Proof.
  intros Hrsi Hdbs Hn. destruct (piece_info rsi Hrsi) as (b1 & v1 & Hs1 & Hz1 & Ha1). destruct (dbs_pieces dbs vss Hdbs 0) as (ms & b2 & Hs2 & Ha2 & Hz2 & Hh).
  assert (piece (if is_some rsi then save_scripts buf_addr rdb_compression htab lua_scripts else written 0)
    (fun st => foldl (fun st body => add_script body st) st (scripts_saved rsi)) (scripts_room (scripts_saved rsi))) as (b3 & v3 & Hs3 & Hz3 & Ha3).
  { destruct rsi as [i|]; [by apply piece_scripts|]. apply piece_nil; [by apply saves_written|done]. }
  exists b1, b2, b3, ms. split; [|split; [exact Hs2|split; [|split; [|split; [exact Hh|]]]]].
  - eapply saves_bind; [apply saves_raw; by repeat constructor|]. eapply saves_end; [exact Hs1|]. apply Hmodules.
  - eapply saves_bind; [exact Hs3|]. eapply (saves_bind _ _ [] [_]); [apply Hmodules|]. apply (saves_raw buf_addr [_]). by repeat constructor.
  - unfold file_bytes, file_room. rewrite !zlen_app, zlen_le_bytes. change (zlen magic) with 9. change (zlen [RDB_OPCODE_EOF]) with 1. lia.
  - intros dbs0 rsi0 Hl Hempty. eapply advance_trans; [apply Ha1|]. intros ? ->. set (st1 := info_found rsi _).
    assert (clean st1 /\ l_dbs st1 = dbs0 /\ l_scripts st1 = []) as (Hc1 & Hd1 & Hsc1) by (by destruct rsi).
    apply Forall2_length in Hdbs as Hlen.
    eapply advance_trans; [apply (Ha2 st1 [] dbs0 Hc1 Hd1 eq_refl Hl Hempty)|]; [rewrite Hd1; unfold zlen, RDB_LENERR in *; lia|].
    intros st2 (_ & Hr2 & Hsc2 & news & Hd2 & Hn2). eapply advance_weaken; [|apply Ha3]. intros ? ->.
    destruct (add_scripts (scripts_saved rsi) st2) as (E1 & E2 & E3). split; [rewrite E1, Hd2; exact Hn2|]. split; [|rewrite E3, Hsc2, Hsc1; done].
    rewrite E2, Hr2. by destruct rsi, rsi0.
Qed.

Lemma save_file (rdb_checksum : bool) rsi dbs vss r : (forall i, rsi = Some i -> in_s 32 (repl_stream_db i)) -> Forall2 saveable_db dbs vss -> zlen dbs < 2 ^ 32 ->
  file_room rsi dbs < SDS_BOUND -> wstate r [] ->
  exists body ck r' dbs' ok,
    rdbSaveRio buf_addr rdb_compression rdb_checksum htab pol a0 a1 idle lfu time_now used_memory replid master_repl_offset lua_scripts rdbSaveModulesAux
      sflags rsi dbs r = Some (r', dbs', ok) /\
    Forall2 (holds (saveable hash_max_entries hash_max_value)) dbs' vss /\
    (ok = true /\ wstate r' (file_bytes body ck) \/ ok = false /\ reliable = false) /\
    (ck = 0 \/ ck = foldl bstep 0 (magic ++ body ++ [RDB_OPCODE_EOF])) /\ zlen (file_bytes body ck) <= file_room rsi dbs /\
    forall dbs0 rsi0, length dbs0 = length vss -> Forall (fun s => holds obj_repr s ∅) dbs0 ->
      advance (mk_load dbs0 0 (-1) (-1) (-1) rsi0 []) body (loaded rsi rsi0 vss).
Proof.
  intros Hrsi Hdbs Hn Hroom Hr. destruct (file_pieces rsi dbs vss Hrsi Hdbs Hn) as (b1 & b2 & b3 & ms & Hs1 & Hs2 & Hs3 & Hz & Hh & Ha).
  pose proof (Hh dbs (saved_repr _ _ _ _ Hs2)) as Hkeep.
  set (r0 := if rdb_checksum then set_update true r else r). set (body := b1 ++ b2 ++ b3) in *.
  set (ck := if update_cksum r0 then foldl bstep 0 (magic ++ body ++ [RDB_OPCODE_EOF]) else 0).
  assert (ck = 0 \/ ck = foldl bstep 0 (magic ++ body ++ [RDB_OPCODE_EOF])) as Hck by (unfold ck; destruct (update_cksum r0); auto).
  assert (wstate r0 []) as Hr0.
  { unfold r0. destruct rdb_checksum; [|done]. destruct Hr as (He & Hw & Hb & Hc & Hm). split; [done|]. split; [done|]. split; [done|]. split; [|done]. cbn. rewrite Hc. by destruct (update_cksum r). }
  assert (zlen (file_bytes body ck) <= file_room rsi dbs) as Hzc by (unfold file_bytes in *; by rewrite !zlen_app, !zlen_le_bytes in *).
  exists body, ck. unfold rdbSaveRio. fold r0. unfold file_bytes, body in Hz. rewrite !zlen_app, zlen_le_bytes in Hz. change (zlen [RDB_OPCODE_EOF]) with 1 in Hz.
  pose proof (zlen_nonneg b2). pose proof (zlen_nonneg b3).
  destruct (on_rio_spec _ _ _ r0 [] Hs1 Hr0 ltac:(rewrite zlen_app, zlen_nil; lia)) as (r1 & n1 & E1 & Hst1 & Hn1). rewrite E1. cbn [mbind option_bind].
  destruct Hn1 as [[-> Hr1]|[-> Hrel]]; [change (0 =? -1) with false; cbv iota|by exists r1, dbs, false; split; [|split; [|split; [right|]]]].
  destruct (save_dbs_spec 0 dbs ms b2 Hs2 r1 _ ltac:(lia) ltac:(lia) Hr1) as (r2 & dbs' & ok & E2 & Hd2 & Hst2 & Hn2); [rewrite !zlen_app, zlen_nil; lia|].
  rewrite E2. cbn [mbind option_bind].
  destruct Hn2 as [[-> Hr2]|[-> Hrel]]; cbn [negb]; [|by exists r2, dbs', false; split; [|split; [apply Hh|split; [right|]]]].
  destruct (on_rio_spec _ _ _ r2 _ Hs3 Hr2) as (r3 & n3 & E3 & Hst3 & Hn3); [rewrite !zlen_app, zlen_nil; change (zlen [RDB_OPCODE_EOF]) with 1; lia|].
  rewrite E3. cbn [mbind option_bind].
  destruct Hn3 as [[-> Hr3]|[-> Hrel]]; [change (1 =? -1) with false; cbv iota|by exists r3, dbs', false; split; [|split; [apply Hh|split; [right|]]]].
  assert ((([] ++ magic ++ b1) ++ b2) ++ b3 ++ [RDB_OPCODE_EOF] = magic ++ body ++ [RDB_OPCODE_EOF]) as Eb by (unfold body; lapp). rewrite Eb in Hr3.
  assert (cksum r3 = ck) as Ec.
  { destruct Hr3 as (_ & _ & _ & -> & _). unfold ck. destruct Hst1 as [F1 _], Hst2 as [F2 _], Hst3 as [F3 _]. by rewrite F3, F2, F1. }
  destruct (rioWrite_spec buf_addr r3 _ (le_bytes 8 (cksum r3)) Hr3 (le_bytes_ok _ _)) as (r4 & ok & E4 & _ & Hok & Hrel);
    [unfold body; rewrite !zlen_app, zlen_le_bytes; change (zlen [RDB_OPCODE_EOF]) with 1; lia|].
  rewrite E4. cbn [mbind option_bind]. exists r4, dbs', ok. split; [done|]. split; [by apply Hh|]. split; [|done].
  destruct ok; [left; split; [done|]|right; split; [done|]; destruct reliable; [by specialize (Hrel eq_refl)|done]].
  rewrite Ec in Hok. unfold file_bytes. rewrite app_assoc. by apply Hok.
Qed.
End Info.
End File.

(** C3. A server that writes its databases to a stream and a server that loads what was
    written: saving changes no database; either the device fails, which is reported, or
    the stream holds a file.  From a stream over that file, whatever follows it, the other
    server, with as many databases, all of them empty, takes exactly the file and has the
    keys with their values and expire times, without those that a master finds expired;
    the replication information when both sides ask for it, and the scripts.  Checksums,
    compression, the memory policy and the chunks of the streams do not matter. *)
Theorem rdb_file_roundtrip {B : Type} `{RioLaws B} `{FreshMem} `{DictType bytes} buf_addr rdb_compression rdb_checksum check htab pol mm mp cfg
    set_max hash_max_entries hash_max_value a0 a1 (load_other : Z -> loader (B := B) robj) luaCreateFunction load_module_aux rdbflags sflags chunk_bytes idle lfu
    time_now used_memory replid master_repl_offset lua_scripts rdbSaveModulesAux rsi dbs vss (r : rio B) :
  (forall i, 0 <= htab i < 4294967296) -> (forall o, 0 <= idle o < 2 ^ 64) -> in_s 64 time_now -> in_s 64 used_memory -> in_s 64 master_repl_offset ->
  bytes_ok replid /\ zlen replid = CONFIG_RUN_ID_SIZE -> Forall (script_ok luaCreateFunction) lua_scripts ->
  (forall when, saves (B := B) (rdbSaveModulesAux when) [] 0) -> (forall i, rsi = Some i -> in_s 32 (repl_stream_db i)) -> 0 <= chunk_bytes ->
  Forall2 (saveable_db hash_max_entries hash_max_value) dbs vss -> zlen dbs < 2 ^ 32 ->
  file_room (B := B) buf_addr rdb_compression htab a0 a1 lua_scripts rsi dbs < SDS_BOUND -> wstate r [] ->
  exists file r' dbs' ok,
    rdbSaveRio buf_addr rdb_compression rdb_checksum htab pol a0 a1 idle lfu time_now used_memory replid master_repl_offset lua_scripts rdbSaveModulesAux
      sflags rsi dbs r = Some (r', dbs', ok) /\
    Forall2 (holds (saveable hash_max_entries hash_max_value)) dbs' vss /\ zlen file < SDS_BOUND /\
    (ok = true /\ wstate r' file \/ ok = false /\ reliable = false) /\
    forall rd i dbs0 rsi0 fuel, reliable = true -> rstate rd [] (file ++ i) -> length dbs0 = length vss -> Forall (fun s => holds obj_repr s ∅) dbs0 ->
      (length file <= fuel)%nat ->
      exists rd' st, rdbLoadRio buf_addr check mm mp cfg set_max hash_max_entries hash_max_value a0 a1 load_other luaCreateFunction load_module_aux rdbflags
          chunk_bytes fuel dbs0 rsi0 rd = Some (rd', Got (Some st)) /\
        loaded cfg rdbflags replid master_repl_offset lua_scripts rsi rsi0 vss st /\ rstate rd' file i.
Proof.
  intros Hh Hid Ht Hu Ho Hrep Hsc Hm Hrsi Hcb Hdbs Hn Hroom Hr.
  destruct (save_file buf_addr rdb_compression htab mm mp Hh cfg set_max hash_max_entries hash_max_value a0 a1 load_other luaCreateFunction load_module_aux rdbflags pol idle lfu Hid
    time_now used_memory replid master_repl_offset sflags Ht Hu Ho Hrep lua_scripts rdbSaveModulesAux Hsc Hm rdb_checksum rsi dbs vss r Hrsi Hdbs Hn Hroom Hr)
    as (body & ck & r' & dbs' & ok & E & Hd & Hok & Hck & Hz & Ha).
  exists (file_bytes body ck), r', dbs', ok. split; [exact E|]. split; [exact Hd|]. split; [lia|]. split; [exact Hok|].
  intros rd i dbs0 rsi0 fuel Hrel Hrd Hl Hempty Hf.
  apply (load_file buf_addr mm mp cfg set_max hash_max_entries hash_max_value a0 a1 load_other luaCreateFunction load_module_aux rdbflags check chunk_bytes
    body ck dbs0 rsi0 (loaded cfg rdbflags replid master_repl_offset lua_scripts rsi rsi0 vss) fuel rd i Hrel Hcb (Ha dbs0 rsi0 Hl Hempty)); [|done|done].
  unfold file_bytes in Hf. rewrite !length_app in Hf. cbn [length] in Hf. lia.
Qed.

(** ** A concrete file

    A string that expires at 5000 and a set, saved by one server and loaded at 6000. *)
#[local] Existing Instance bytes_dict_type.

Definition demo_file_db : state robj :=
  default db_new ('(s, _) ← dbAddRDBLoad (at_time 1000) [97] (RString demo_raw) db_new;
                  '(s, _) ← setExpire (at_time 1000) [97] 5000 s;
                  '(s, _) ← dbAddRDBLoad (at_time 1000) [98] (RSet demo_setobj) s; Some s).

Definition demo_values : gmap bytes (aval * option Z) :=
  <[ [98] := (ASet (list_to_set [bytes_of_string "x"; bytes_of_string "5"]), None) ]> {[ [97] := (AStr (bytes_of_string "-70"), Some 5000) ]}.

Lemma demo_file_repr : db_repr demo_file_db (<[ [98] := (RSet demo_setobj, None : option Z) ]> {[ [97] := (RString demo_raw, Some 5000) ]}).
Proof.
  destruct (store_key (at_time 1000) db_new ∅ [97] (RString demo_raw) (Some 5000) db_new_repr) as (s1 & s2 & b & E1 & E2 & Hs2); [done| | |].
  { intros w [= <-]. unfold LLONG_MAX. lia. }
  { unfold fits. rewrite insert_empty, map_size_singleton. unfold DICT_BOUND. lia. }
  rewrite insert_empty in Hs2. destruct (store_key (at_time 1000) s2 _ [98] (RSet demo_setobj) None Hs2) as (s3 & s4 & b' & E3 & E4 & Hs4); [done|done| |].
  { unfold fits. rewrite map_size_insert_None, map_size_singleton by done. unfold DICT_BOUND. lia. }
  change (default (-1) (Some 5000)) with 5000 in E2. change (5000 =? -1) with false in E2. cbv iota in E2. injection E4 as <- _.
  unfold demo_file_db. rewrite E1. cbn [mbind option_bind]. rewrite E2. cbn [mbind option_bind]. rewrite E3. exact Hs4.
Qed.

Lemma demo_file_saveable : saveable_db 512 64 demo_file_db demo_values.
Proof.
  split; [|split; [|vm_compute; congruence]].
  - eexists. split; [exact demo_file_repr|]. unfold demo_values. apply map_Forall2_insert_2; [split; [exact demo_set_saveable|done]|].
    apply map_Forall2_singleton. split; [exact demo_string_saveable|done].
  - apply map_Forall_insert_2; [split; [by repeat constructor|done]|]. apply map_Forall_singleton. split; [by repeat constructor|done].
Qed.

Lemma new_holds (P : robj -> aval -> Prop) : holds P (@db_new robj) ∅.
Proof. exists ∅. split; [apply db_new_repr|]. apply map_Forall2_empty. Qed.

Definition demo_replid : bytes := replicate 40 97.
Definition demo_script : bytes := bytes_of_string "return 1".
Definition demo_rsi : rdbSaveInfo := mk_rsi 1 false [] (-1).

Lemma rdb_file_roundtrip_witness :
  exists s file r' dbs', sdsempty = Some s /\
    rdbSaveRio (fun _ => 0) true true (fun _ => 0) 0 0 0 (fun _ => 0) (fun _ => 0) 1600000000 1000000 demo_replid 77 [demo_script] (fun _ => written 0)
      0 (Some demo_rsi) [demo_file_db; db_new] (rioInitWithBuffer s) = Some (r', dbs', true) /\
    wstate r' file /\
    exists rd st, rdbLoadRio (fun _ => 0) true 0 0 (at_time 6000) 512 512 64 0 0 (fun _ => lnull) (fun _ => true) (fun _ => lnull) 0 2048
        (length file) [db_new; db_new] (Some demo_rsi) (rioInitWithBuffer (b_ptr (io r'))) = Some (rd, Got (Some st)) /\
      loaded (at_time 6000) 0 demo_replid 77 [demo_script] (Some demo_rsi) (Some demo_rsi) [demo_values; ∅] st.
Proof.
  destruct empty_spec as (s & E & Hs). pose proof (buffer_wstate s [] 0 Hs eq_refl) as Hw.
  destruct (rdb_file_roundtrip (fun _ => 0) true true true (fun _ => 0) 0 0 0 (at_time 6000) 512 512 64 0 0 (fun _ => lnull) (fun _ => true) (fun _ => lnull) 0 0 2048
    (fun _ => 0) (fun _ => 0) 1600000000 1000000 demo_replid 77 [demo_script] (fun _ => written 0) (Some demo_rsi) [demo_file_db; db_new] [demo_values; ∅] (rioInitWithBuffer s))
    as (file & r' & dbs' & ok & E1 & _ & Hl & Hok & Hload);
    [intros; lia|intros; lia|unfold in_s; cbn; lia|unfold in_s; cbn; lia|unfold in_s; cbn; lia| | | | |lia| |done| |exact Hw|].
  - split; [|done]. by repeat constructor.
  - constructor; [|constructor]. split; [done|]. split; [by repeat constructor|done].
  - intros _. by apply saves_written.
  - intros i [= <-]. unfold in_s. cbn. lia.
  - constructor; [exact demo_file_saveable|]. constructor; [|constructor]. split; [apply new_holds|]. split; [apply map_Forall_empty|done].
  - vm_compute. reflexivity.
  - destruct Hok as [[-> Hw']|[_ Hf]]; [|discriminate Hf]. exists s, file, r', dbs'. split; [exact E|]. split; [exact E1|]. split; [exact Hw'|].
    destruct Hw' as (_ & [free Hp] & Hb & _).
    destruct (Hload (rioInitWithBuffer (b_ptr (io r'))) [] [db_new; db_new] (Some demo_rsi) (length file) eq_refl) as (rd & st & E2 & Hst & _).
    + rewrite app_nil_r. exact (buffer_rstate _ _ _ Hp Hb Hl).
    + reflexivity.
    + constructor; [apply new_holds|]. constructor; [apply new_holds|constructor].
    + apply Nat.le_refl.
    + exists rd, st. exact (conj E2 Hst).
Defined.
